(* ===== verification/_CoqProject ===== *)
-Q . S2P
Prelude.v
Bytes.v
BlockHash.v
Md5.v
Md4.v
Md5Pool.v
Sha1.v
Hmac.v
RadiusPacket.v
RadiusSign.v
StateMonad.v
RingBuffer.v
MessageSet.v
MessageInv.v
MessageGc.v
MessageAlloc.v
MessageClient.v
Heap.v
MinmaxHeap.v
MinmaxClient.v
Lst.v
LstInv.v
LstOps.v
LstClient.v
HashTable.v
RbTree.v
RbClient.v
RadiusPassword.v
RadiusTunnel.v
RadiusTlv.v
Totp.v
ArduinoTotp.v
Ndef.v
EmulateTag.v
Door.v
Pn532.v
Queues.v
AtomicQueue.v
Uint128.v
Retry.v
Rfc4648.v
Base16.v
Base64.v
Base32.v
