(* ===== verification/Prelude.v ===== *)
(** * A verification development for the access-control proof of concept

    The repository controls doors and Wi-Fi access with smart contracts.  Its C and C++
    code is a vendored FreeRADIUS server (src/radius-server/freeradius-server-git),
    which authenticates users of the network, and the firmware of a door
    (src/door-verifier, src/door-module, src/arduino-libraries), which authenticates
    people by one-time passwords.  This library models the algorithmic core of that
    code and proves what makes it correct.  Paths below are relative to
    src/radius-server/freeradius-server-git/src unless they start with "door" or
    "arduino".

    ** Parts, files and correspondence

    - Prelude, Bytes: C integers at their width ([u8], [u16], [u32], [u64], wrap-around
      written out), byte buffers with partial reads and writes ([None] is an access
      outside the buffer), the helpers of lib/util/nbo.h and lib/util/misc.c.
    - BlockHash: reference of an iterated block hash with its padding, and the classes
      [DigestApi] (the table of digest function pointers) and [DigestLaws] (what
      clients rely on).  The clients (HMAC, signatures, passwords) are proved against
      the interface; Md5 and Sha1 discharge it.
    - Md5, Sha1, Md4: lib/util/md5.c, lib/util/sha1.c, lib/util/md4.c, against RFC 1321,
      FIPS 180-4 and RFC 1320.
    - Md5Pool: the per-thread array of contexts of md5.c, with a store of contexts so
      that aliasing between clients can be expressed, and a step relation of clients.
    - Hmac: lib/util/hmac_md5.c, lib/util/hmac_sha1.c, against RFC 2104.
    - RadiusPacket: protocols/radius/base.c: [fr_radius_recv_header], [fr_radius_ok],
      [fr_radius_sign], [fr_radius_verify]; validation against a predicate
      [radius_wf].
    - RadiusSign: signing and verification: the values written, the frame, the
      equivalence of verification with signing.
    - RadiusPassword, RadiusTunnel, RadiusTlv: the password codecs and the TLV check of
      protocols/radius/encode.c and decode.c.
    - RingBuffer: lib/io/ring_buffer.c, refined to a FIFO of disjoint blocks.
    - StateMonad: the state monad with failure, and its rules of total correctness, in which
      the programs on linked memory (message sets, red-black trees) are written.
    - MessageSet, MessageInv, MessageGc, MessageAlloc, MessageClient: lib/io/message.c, message
      headers and packet data in a few ring buffers that are collected, freed, packed and
      doubled as needed.  MessageSet has the definitions over a memory of ring buffers,
      headers and bytes; MessageInv the invariant, a log of messages in order of allocation
      from which the content of each ring follows; MessageGc and MessageAlloc show that the
      operations keep it; MessageClient has a step relation of clients and the theorems.
    - Heap: lib/util/heap.c and heap.h, with the back-indices stored in the objects.
    - MinmaxHeap, MinmaxClient: lib/util/minmax_heap.c and minmax_heap.h, the heap with both
      ends.  MinmaxHeap has the definitions and the order on the slots of the tree (the code
      for min levels and for max levels is shown to be one routine with a direction),
      MinmaxClient the invariant, the consistency check and client runs, refined to an
      ordered set with a first and a last object.
    - Lst, LstInv, LstOps, LstClient: lib/util/lst.c and lst.h (with [fr_fast_rand] of
      lib/util/rand.c), leftmost skeleton trees: a priority queue in a circular array that is
      partitioned as little as possible, with a stack of pivots.  Lst has the definitions;
      LstInv the invariant (a window of positions that are held, with a hole while objects
      move) and adding to and deleting from a bucket; LstOps the pivot stack and the Hoare
      partition; LstClient the recursive operations, growth, the consistency check and client
      runs, refined to a set of objects of which a first one is taken.  The contract is that
      an object that is extracted ties with no other, and that the pivot stack can grow when
      a bucket is partitioned; runs outside the contract are given.
    - HashTable: lib/util/hash.c, the split-ordered hash table and the FNV functions,
      refined to a finite map.
    - RbTree, RbClient: lib/util/rb.c and rb.h, red-black trees as linked nodes in a
      memory, with parent pointers and the shared sentinel.  RbTree has the definitions
      and the rebalancing (zippers over the cells of a tree), RbClient the operations,
      iterators and client runs, refined to a sorted list.
    - AtomicQueue: lib/io/atomic_queue.c; push and pop are sequences of accesses to the
      shared memory, and threads interleave in a step relation (sequentially consistent).
    - Queues: lib/util/fifo.c, lib/io/queue.c, lib/util/fring.c (Modules [Fifo],
      [Queue], [Fring]) against the class [QueueLaws], a list with a capacity.
    - Totp: modules/rlm_totp/rlm_totp.c against RFC 4648 and RFC 6238.
    - Uint128, Retry: lib/util/uint128.h, lib/util/retry.c, lib/util/time.h.
    - Rfc4648: the reference encoding (bits in groups that index an alphabet), C array
      initialisers and what the codecs share.  The range macros of build.h, which is not in
      the tree, are the parameter [RangeMacros], with the meaning their uses document.
    - Base16, Base64, Base32: lib/util/base16.c, lib/util/base64.c, lib/util/base32.c.
    - ArduinoTotp: arduino-libraries/TOTP_library, the SHA-1, HMAC and TOTP of the door,
      with the unions of bytes and words, against the same references.
    - Ndef: arduino-libraries/NDEF, encoding and decoding of messages.
    - EmulateTag: arduino-libraries/PN532/emulatetag.cpp, the file the door shows to a
      phone; the commands received are its input.  [type4_step] specifies the tag the commands
      see.
    - Door: door-verifier (reading a message, checking the code, opening) and
      door-module (the relay), composed over their serial line in [link_step]; [noisy_step]
      adds any other lines on the wires.  A line in flight is what one [readString] returns.
    - Pn532: door-verifier/MY_PN532_HSU.cpp and the target mode of
      arduino-libraries/PN532/PN532.cpp.  The chip is a parameter; the class [TargetMode]
      says what its documentation promises, and a turn of the door over the driver is
      shown to be the turn of Door on the commands received.

    ** What the theorems show

    Validation: the packet and TLV checks accept exactly the well-formed inputs, return
    on every input and stay in bounds.  Cryptographic code: the streaming digests, the
    HMACs, the password codecs and the one-time passwords compute their RFC's functions,
    and encoders and decoders are inverse (base 16, 32 and 64 included, against RFC 4648).  Containers: each operation keeps the
    representation invariant, and every client run observes an abstract list,
    multiset or finite map; for the atomic queue this holds of every interleaving.  Message
    sets: a client that finishes messages in an order the ring buffers allow never has its
    messages overwritten or freed, no call fails, and all memory is reclaimed in the end; runs
    outside this contract in which messages in use share memory are given.  Door:
    it opens exactly for a right code, the relay follows the decision, whatever noise there is on
    its line, the tag the phone sees is a type 4 tag, and every opening ends.  Errors: what each failing branch leaves behind, and the inputs on which
    the code departs from its documentation (lost carries, off-by-one bounds, loops
    that do not end), each stated as a theorem about the definitions.

    ** Bounds and fuel

    Loops are structural where the code's are (over a list or a counter); otherwise they
    take fuel, and a theorem shows that the fuel given (the length of the buffer, the
    number of slots) is enough: results are stated as equalities with [Some _], never
    conditionally on termination.  The recursion of the hash table clears one bit of a
    32-bit index at each level, so 33 levels are enough; loops over the nodes of a tree follow a path, so the
    number of nodes in memory is enough; the loops of the heaps move an index up or down by at
    least one, so one round more than elements is enough, and a node has at most four
    grandchildren to compare; the scans and the rounds of a partition are at most as many as
    elements, and each level of a skeleton tree has fewer elements than the one above;
    collecting a message ring takes as many rounds as
    messages fit into it.  Packet and buffer sizes are bounded by the C types
    (a packet length is 16 bits, [size_t] is 64 bits); the digest theorems need messages
    below 2^29 bytes in MD5 and SHA-1, the bound at which the bit counters of the code go
    wrong; so do those of MD4.  The heaps and skeleton trees are shown correct up to 2^31
    elements, the range in which the 32-bit index arithmetic does not wrap.

    ** Not modelled

    The OpenSSL wrappers (the library is not in the tree); memory exhaustion of talloc
    except where the code's behaviour depends on it (the MD5 pool, the heaps, message
    sets); the server's
    configuration, policy interpreter, event loops and dictionaries; protocols this
    project does not configure; the drivers of the display, of Redis and Wi-Fi, and the
    reader modes of the PN532; the smart contracts
    (Solidity).  The manifest lists every part with its status. *)
From Stdlib Require Export ZArith Lia.
From stdpp Require Export base tactics numbers list gmap option.

#[export] Set Default Goal Selector "!".

Open Scope Z_scope.

(** ** Machine integers *)

Declare Scope cword_scope.
Delimit Scope cword_scope with cw.

(** Conversion to an unsigned C type of the given width. *)
Definition u8 (z : Z) : Z := z mod 2 ^ 8.
Definition u16 (z : Z) : Z := z mod 2 ^ 16.
Definition u32 (z : Z) : Z := z mod 2 ^ 32.
Definition u64 (z : Z) : Z := z mod 2 ^ 64.

Notation "x +32 y" := (u32 (x + y)) (at level 50, left associativity) : cword_scope.
Definition shl32 (x s : Z) : Z := u32 (Z.shiftl x s).
Definition shr32 (x s : Z) : Z := Z.shiftr x s.
Definition lnot32 (z : Z) : Z := Z.lxor z (2 ^ 32 - 1).

Definition byte_ok (b : Z) : Prop := 0 <= b < 256.
Definition bytes_ok (l : list Z) : Prop := Forall byte_ok l.
Definition word_ok (w : Z) : Prop := 0 <= w < 2 ^ 32.

#[global] Instance byte_ok_dec b : Decision (byte_ok b).
Proof. unfold byte_ok. apply _. Defined.
#[global] Instance bytes_ok_dec l : Decision (bytes_ok l).
Proof. unfold bytes_ok. apply _. Defined.

Create HintDb bytes.

Lemma u8_range z : 0 <= u8 z < 256.
Proof. apply Z.mod_pos_bound. lia. Qed.
Lemma u16_range z : 0 <= u16 z < 65536.
Proof. apply Z.mod_pos_bound. lia. Qed.
Lemma u32_range z : 0 <= u32 z < 2 ^ 32.
Proof. apply Z.mod_pos_bound. lia. Qed.
Lemma u64_range z : 0 <= u64 z < 2 ^ 64.
Proof. apply Z.mod_pos_bound. lia. Qed.

Lemma u8_small z : 0 <= z < 256 -> u8 z = z.
Proof. apply Z.mod_small. Qed.
Lemma u16_small z : 0 <= z < 65536 -> u16 z = z.
Proof. apply Z.mod_small. Qed.
Lemma u32_small z : 0 <= z < 2 ^ 32 -> u32 z = z.
Proof. apply Z.mod_small. Qed.
Lemma u64_small z : 0 <= z < 2 ^ 64 -> u64 z = z.
Proof. apply Z.mod_small. Qed.

Lemma u32_add_l x y : u32 (u32 x + y) = u32 (x + y).
Proof. unfold u32. apply Zplus_mod_idemp_l. Qed.
Lemma u32_add_r x y : u32 (x + u32 y) = u32 (x + y).
Proof. unfold u32. apply Zplus_mod_idemp_r. Qed.
Lemma u32_idemp x : u32 (u32 x) = u32 x.
Proof. apply u32_small, u32_range. Qed.
Lemma word_ok_u32 x : word_ok (u32 x).
Proof. apply u32_range. Qed.

(** ** Bitwise operations stay within their width *)

Lemma land_range n a b :
  0 <= n -> 0 <= a < 2 ^ n -> 0 <= b -> 0 <= Z.land a b < 2 ^ n.
Proof.
  intros Hn [Ha1 Ha2] Hb. split; [by apply Z.land_nonneg; left|].
  assert (E : Z.land a b = Z.land a b mod 2 ^ n).
  { rewrite <- Z.land_ones, <- Z.land_assoc, (Z.land_comm b), Z.land_assoc by done.
    rewrite (Z.land_ones a) by done. by rewrite (Z.mod_small a). }
  rewrite E. apply Z.mod_pos_bound. apply Z.pow_pos_nonneg; lia.
Qed.

Lemma testbit_high n a i : 0 <= a < 2 ^ n -> 0 <= n <= i -> Z.testbit a i = false.
Proof.
  intros Ha Hi. destruct (decide (a = 0)) as [->|]; [apply Z.testbit_0_l|].
  apply Z.bits_above_log2; [lia|].
  assert (Z.log2 a < n) by (apply Z.log2_lt_pow2; lia). lia.
Qed.

Lemma range_of_bits n a :
  0 <= n -> 0 <= a -> (forall i, n <= i -> Z.testbit a i = false) -> 0 <= a < 2 ^ n.
Proof.
  intros Hn Ha Hb. split; [done|].
  assert (E : a = a mod 2 ^ n).
  { rewrite <- Z.land_ones by done. apply Z.bits_inj'. intros i Hi.
    rewrite Z.land_spec, Z.testbit_ones_nonneg by lia.
    destruct (Z.ltb_spec i n); [by rewrite andb_true_r|].
    by rewrite Hb, andb_false_r. }
  rewrite E. apply Z.mod_pos_bound. apply Z.pow_pos_nonneg; lia.
Qed.

Lemma lor_range n a b :
  0 <= n -> 0 <= a < 2 ^ n -> 0 <= b < 2 ^ n -> 0 <= Z.lor a b < 2 ^ n.
Proof.
  intros Hn Ha Hb. apply range_of_bits; [done|apply Z.lor_nonneg; lia|].
  intros i Hi. rewrite Z.lor_spec, (testbit_high n a), (testbit_high n b); auto.
Qed.

Lemma lxor_range n a b :
  0 <= n -> 0 <= a < 2 ^ n -> 0 <= b < 2 ^ n -> 0 <= Z.lxor a b < 2 ^ n.
Proof.
  intros Hn Ha Hb. apply range_of_bits; [done|apply Z.lxor_nonneg; lia|].
  intros i Hi. rewrite Z.lxor_spec, (testbit_high n a), (testbit_high n b); auto.
Qed.

Lemma byte_lxor a b : byte_ok a -> byte_ok b -> byte_ok (Z.lxor a b).
Proof. apply (lxor_range 8); lia. Qed.

Lemma lxor_cancel a b : Z.lxor (Z.lxor a b) b = a.
Proof. by rewrite Z.lxor_assoc, Z.lxor_nilpotent, Z.lxor_0_r. Qed.

#[export] Hint Resolve byte_lxor word_ok_u32 u32_range u8_range : bytes.
