(* ===== verification/Bytes.v ===== *)
(** * Byte buffers and the small byte helpers of [lib/util]

    A C buffer is a list of bytes.  Reads and writes are partial: [None] is an
    access outside the buffer, so a theorem that a routine returns [Some _] is a
    memory-safety (and, for a loop, termination) theorem.  The helpers of
    [lib/util/nbo.h] and [lib/util/misc.c] the protocol code relies on are
    modelled here. *)
From S2P Require Import Prelude.

(** ** Reading and writing ranges *)

Definition slice (off n : nat) (b : list Z) : list Z := take n (drop off b).

Definition rd (b : list Z) (i : nat) : option Z := b !! i.

(** [memcpy(out, b + off, n)]: the bytes read. *)
Definition rd_slice (off n : nat) (b : list Z) : option (list Z) :=
  if decide (off + n <= length b)%nat then Some (slice off n b) else None.

(** [memcpy(b + off, src, length src)]: the buffer written. *)
Definition wr_slice (off : nat) (src b : list Z) : option (list Z) :=
  if decide (off + length src <= length b)%nat then Some (list_inserts off src b)
  else None.

(** [memset(b + off, 0, n)]. *)
Definition wr_zero (off n : nat) (b : list Z) : option (list Z) :=
  wr_slice off (replicate n 0) b.

Section Slices.
Implicit Types (b src : list Z) (off n : nat).

Lemma length_slice off n b : (off + n <= length b)%nat -> length (slice off n b) = n.
Proof. intros H. unfold slice. rewrite length_take, length_drop. lia. Qed.

Lemma lookup_slice off n b i :
  (i < n)%nat -> slice off n b !! i = b !! (off + i)%nat.
Proof. intros H. unfold slice. by rewrite lookup_take_lt, lookup_drop. Qed.

Lemma lookup_slice_ge off n b i : (n <= i)%nat -> slice off n b !! i = None.
Proof. intros H. unfold slice. by rewrite lookup_take_ge. Qed.

Lemma slice_eq off n b b' :
  (forall i, (off <= i < off + n)%nat -> b !! i = b' !! i) ->
  slice off n b = slice off n b'.
Proof.
  intros H. apply list_eq. intros i. destruct (decide (i < n)%nat).
  - rewrite !lookup_slice by done. apply H. lia.
  - rewrite !lookup_slice_ge by lia. done.
Qed.

Lemma slice_all b : slice 0 (length b) b = b.
Proof. unfold slice. by rewrite drop_0, firstn_all. Qed.

Lemma slice_app off n m b : slice off (n + m) b = slice off n b ++ slice (off + n) m b.
Proof.
  unfold slice. rewrite <- drop_drop. generalize (drop off b). intros l.
  rewrite <- (take_drop n (take (n + m) l)), take_take, Nat.min_l by lia.
  f_equal. rewrite skipn_firstn_comm. f_equal. lia.
Qed.

Lemma slice_0 off b : slice off 0 b = [].
Proof. done. Qed.

Lemma slice_cons off n b x :
  b !! off = Some x -> slice off (S n) b = x :: slice (S off) n b.
Proof. intros H. unfold slice. by rewrite (drop_S b x off H). Qed.

Lemma slice_cons_inv off n b x l :
  slice off (S n) b = x :: l -> b !! off = Some x /\ slice (S off) n b = l.
Proof.
  intros H. assert (E : b !! off = Some x).
  { replace off with (off + 0)%nat by lia. rewrite <- (lookup_slice off (S n)) by lia.
    by rewrite H. }
  split; [done|]. rewrite (slice_cons _ _ _ _ E) in H. by injection H.
Qed.

Lemma slice_app_inv off n b l1 l2 :
  slice off n b = l1 ++ l2 -> (off + n <= length b)%nat ->
  n = (length l1 + length l2)%nat /\
  slice off (length l1) b = l1 /\ slice (off + length l1) (length l2) b = l2.
Proof.
  intros H Hb. assert (E : n = (length l1 + length l2)%nat).
  { rewrite <- length_app, <- H. by rewrite length_slice. }
  split; [done|]. rewrite E, slice_app in H.
  apply app_inj_1 in H; [done|]. rewrite length_slice; lia.
Qed.

Lemma slice_inserts_same off src b :
  (off + length src <= length b)%nat ->
  slice off (length src) (list_inserts off src b) = src.
Proof.
  intros H. apply list_eq. intros i. destruct (decide (i < length src)%nat).
  - rewrite lookup_slice, list_lookup_inserts by lia. f_equal. lia.
  - rewrite lookup_slice_ge by lia. symmetry. apply lookup_ge_None. lia.
Qed.

Lemma slice_inserts_disjoint off n off' src b :
  (off + n <= off' \/ off' + length src <= off)%nat ->
  slice off n (list_inserts off' src b) = slice off n b.
Proof.
  intros H. apply slice_eq. intros i Hi.
  destruct H.
  - by rewrite list_lookup_inserts_lt by lia.
  - by rewrite list_lookup_inserts_ge by lia.
Qed.

Lemma inserts_slice_id off n b :
  (off + n <= length b)%nat -> list_inserts off (slice off n b) b = b.
Proof.
  intros H. pose proof (length_slice off n b H) as Hl. apply list_eq. intros i.
  destruct (decide (i < off)%nat); [by rewrite list_lookup_inserts_lt|].
  destruct (decide (i < off + n)%nat).
  - rewrite list_lookup_inserts, lookup_slice by lia. f_equal. lia.
  - by rewrite list_lookup_inserts_ge by lia.
Qed.

Lemma inserts_inserts_same off src src' b :
  length src = length src' ->
  list_inserts off src (list_inserts off src' b) = list_inserts off src b.
Proof.
  intros Hl. apply list_eq. intros i.
  destruct (decide (i < off)%nat); [by rewrite !list_lookup_inserts_lt by lia|].
  destruct (decide (off + length src <= i)%nat);
    [by rewrite !list_lookup_inserts_ge by lia|].
  destruct (decide (i < length b)%nat).
  - rewrite !list_lookup_inserts by (rewrite ?length_inserts; lia). done.
  - rewrite !lookup_ge_None_2 by (rewrite ?length_inserts; lia). done.
Qed.

Lemma inserts_comm off src off' src' b :
  (off + length src <= off' \/ off' + length src' <= off)%nat ->
  list_inserts off src (list_inserts off' src' b) =
  list_inserts off' src' (list_inserts off src b).
Proof.
  intros Hd. apply list_eq. intros i.
  destruct (decide (i < length b)%nat); cycle 1.
  { rewrite !lookup_ge_None_2 by (rewrite ?length_inserts; lia). done. }
  destruct (decide (off <= i < off + length src)%nat).
  - rewrite list_lookup_inserts by (rewrite ?length_inserts; lia).
    destruct (decide (i < off')%nat);
      [rewrite list_lookup_inserts_lt by lia
      |rewrite list_lookup_inserts_ge by lia];
      by rewrite list_lookup_inserts by lia.
  - assert (E : forall c, list_inserts off src c !! i = c !! i).
    { intros c. destruct (decide (i < off)%nat);
        [by rewrite list_lookup_inserts_lt|by rewrite list_lookup_inserts_ge by lia]. }
    rewrite E.
    destruct (decide (off' <= i < off' + length src')%nat).
    + by rewrite !list_lookup_inserts by (rewrite ?length_inserts; lia).
    + destruct (decide (i < off')%nat);
        [rewrite !list_lookup_inserts_lt by lia
        |rewrite !list_lookup_inserts_ge by lia]; by rewrite ?E.
Qed.

(** Equal slices at both write ranges make a double write a no-op. *)
Lemma inserts_id off src b :
  slice off (length src) b = src -> (off + length src <= length b)%nat ->
  list_inserts off src b = b.
Proof. intros E H. rewrite <- E at 1. by apply inserts_slice_id. Qed.

Lemma rd_slice_Some off n b :
  (off + n <= length b)%nat -> rd_slice off n b = Some (slice off n b).
Proof. intros H. unfold rd_slice. by rewrite decide_True. Qed.

Lemma wr_slice_Some off src b :
  (off + length src <= length b)%nat ->
  wr_slice off src b = Some (list_inserts off src b).
Proof. intros H. unfold wr_slice. by rewrite decide_True. Qed.

Lemma rd_slice_inv off n b s :
  rd_slice off n b = Some s -> (off + n <= length b)%nat /\ s = slice off n b.
Proof. unfold rd_slice. case_decide; naive_solver. Qed.

Lemma wr_slice_inv off src b b' :
  wr_slice off src b = Some b' ->
  (off + length src <= length b)%nat /\ b' = list_inserts off src b.
Proof. unfold wr_slice. case_decide; naive_solver. Qed.

Lemma bytes_ok_slice off n b : bytes_ok b -> bytes_ok (slice off n b).
Proof. intros H. by apply Forall_take, Forall_drop. Qed.

Lemma bytes_ok_inserts off src b :
  bytes_ok b -> bytes_ok src -> bytes_ok (list_inserts off src b).
Proof. apply Forall_inserts. Qed.

Lemma bytes_ok_zeros n : bytes_ok (replicate n 0).
Proof. apply Forall_replicate. unfold byte_ok. lia. Qed.

Lemma bytes_ok_lookup b i x : bytes_ok b -> b !! i = Some x -> byte_ok x.
Proof. apply Forall_lookup_1. Qed.

Lemma bytes_ok_app b b' : bytes_ok b -> bytes_ok b' -> bytes_ok (b ++ b').
Proof. apply Forall_app_2. Qed.
End Slices.

#[export] Hint Resolve bytes_ok_slice bytes_ok_inserts bytes_ok_zeros bytes_ok_app : bytes.

(** ** [fr_nbo_to_uint16] of [nbo.h], at an offset of a buffer *)
Definition fr_nbo_to_uint16 (b : list Z) (off : nat) : option Z :=
  h ← rd b off; l ← rd b (S off); Some (Z.lor (u16 (Z.shiftl h 8)) l).

(** [fr_nbo_from_uint16]: the two bytes written. *)
Definition fr_nbo_from_uint16 (num : Z) : list Z :=
  [Z.land (Z.shiftr num 8) 255; Z.land num 255].

Lemma lor_shiftl_add h l n :
  0 <= n -> 0 <= l < 2 ^ n -> Z.lor (Z.shiftl h n) l = h * 2 ^ n + l.
Proof.
  intros Hn Hl. rewrite Z.shiftl_mul_pow2 by done.
  rewrite <- Z.lxor_lor, <- Z.add_nocarry_lxor; [done| |];
    apply Z.bits_inj'; intros i Hi; rewrite Z.land_spec, Z.bits_0;
    destruct (decide (i < n)).
  all: try (rewrite Z.mul_pow2_bits_low by lia; done).
  all: rewrite (testbit_high n l) by lia; apply andb_false_r.
Qed.

Lemma nbo16_value h l :
  byte_ok h -> byte_ok l -> Z.lor (u16 (Z.shiftl h 8)) l = 256 * h + l.
Proof.
  unfold byte_ok. intros Hh Hl. rewrite u16_small.
  - rewrite lor_shiftl_add by lia. lia.
  - rewrite Z.shiftl_mul_pow2 by lia. lia.
Qed.

Lemma fr_nbo_to_uint16_range b off v :
  bytes_ok b -> fr_nbo_to_uint16 b off = Some v -> 0 <= v < 65536.
Proof.
  unfold fr_nbo_to_uint16, rd. intros Hb H.
  destruct (b !! off) as [h|] eqn:Eh; [|done].
  destruct (b !! S off) as [l|] eqn:El; [|done]. simplify_eq/=.
  pose proof (bytes_ok_lookup _ _ _ Hb Eh) as Hh.
  pose proof (bytes_ok_lookup _ _ _ Hb El) as Hl.
  rewrite nbo16_value by done. unfold byte_ok in *. lia.
Qed.

Lemma fr_nbo_to_uint16_local b b' off :
  b !! off = b' !! off -> b !! S off = b' !! S off ->
  fr_nbo_to_uint16 b off = fr_nbo_to_uint16 b' off.
Proof. unfold fr_nbo_to_uint16, rd. by intros -> ->. Qed.

Lemma fr_nbo_to_uint16_defined b off :
  (S off < length b)%nat -> is_Some (fr_nbo_to_uint16 b off).
Proof.
  intros H. unfold fr_nbo_to_uint16, rd.
  destruct (lookup_lt_is_Some_2 b off) as [h ->]; [lia|].
  destruct (lookup_lt_is_Some_2 b (S off)) as [l ->]; [lia|]. simpl. eauto.
Qed.

Lemma nbo16_roundtrip num :
  0 <= num < 65536 -> fr_nbo_to_uint16 (fr_nbo_from_uint16 num) 0 = Some num.
Proof.
  intros H. unfold fr_nbo_to_uint16, fr_nbo_from_uint16. simpl. f_equal.
  assert (Hm : forall z, Z.land z 255 = z mod 256).
  { intros z. by apply (Z.land_ones z 8). }
  rewrite !Hm, Z.shiftr_div_pow2 by lia. change (2 ^ 8) with 256.
  assert (Hd : 0 <= num / 256 < 256)
    by (split; [apply Z.div_pos; lia|apply Z.div_lt_upper_bound; lia]).
  rewrite (Z.mod_small (num / 256)) by lia.
  assert (0 <= num mod 256 < 256) by (apply Z.mod_pos_bound; lia).
  rewrite nbo16_value by done. pose proof (Z.div_mod num 256). lia.
Qed.

(** ** [fr_digest_cmp] of [misc.c] *)

(** The loop [for (i = 0; i < length; i++) result |= a[i] ^ b[i]]. *)
Fixpoint fr_digest_cmp (a b : list Z) (result : Z) (length : nat)
    {struct length} : option Z :=
  match length with
  | O => Some result
  | S n =>
      match a, b with
      | x :: a', y :: b' => fr_digest_cmp a' b' (Z.lor result (Z.lxor x y)) n
      | _, _ => None
      end
  end.

Lemma fr_digest_cmp_zero a b r n :
  fr_digest_cmp a b r n = Some 0 <->
  (n <= length a)%nat /\ (n <= length b)%nat /\ r = 0 /\ take n a = take n b.
Proof.
  revert a b r. induction n as [|n IH]; intros a b r; simpl.
  - split; [intros [= ->]; repeat split; lia|by intros (_ & _ & -> & _)].
  - destruct a as [|x a], b as [|y b]; simpl;
      try (split; [done|lia]).
    rewrite IH, Z.lor_eq_0_iff, Z.lxor_eq_0_iff. split.
    + intros (? & ? & [? ->] & ->). repeat split; auto with lia.
    + intros (? & ? & ? & [= -> ->]). repeat split; auto with lia.
Qed.

Lemma fr_digest_cmp_defined a b r n :
  (n <= length a)%nat -> (n <= length b)%nat -> is_Some (fr_digest_cmp a b r n).
Proof.
  revert a b r. induction n as [|n IH]; intros a b r Ha Hb; simpl; [eauto|].
  destruct a, b; simpl in *; try lia. apply IH; lia.
Qed.

Lemma fr_digest_cmp_same_len a b n :
  length a = n -> length b = n ->
  exists r, fr_digest_cmp a b 0 n = Some r /\ (r = 0 <-> a = b).
Proof.
  intros Ha Hb.
  destruct (fr_digest_cmp_defined a b 0 n) as [r Hr]; [lia..|].
  exists r. split; [done|]. split.
  - intros ->. apply fr_digest_cmp_zero in Hr as (_ & _ & _ & E).
    by rewrite !take_ge in E by lia.
  - intros ->. assert (fr_digest_cmp b b 0 n = Some 0) as H0.
    { apply fr_digest_cmp_zero. repeat split; lia. }
    congruence.
Qed.
