(* ===== verification/BlockHash.v ===== *)
(** * Iterated block hashes: reference definition and digest interface

    The reference the digest code of [lib/util] is compared with: a 64-byte block
    compression function folded over the padded message (RFC 1321, section 3 and
    FIPS 180-1, sections 4 and 7).  [DigestApi] is the table of function pointers
    [md5.c] exports ([fr_md5_ctx_alloc], [fr_md5_ctx_reset], [fr_md5_update],
    [fr_md5_final]), which is switched between the local and the OpenSSL
    implementation at run time; [DigestLaws] is what the callers rely on. *)
From S2P Require Import Prelude Bytes.

Section MerkleDamgard.
Context {St : Type} (compress : St -> list Z -> St).
Implicit Types (st : St) (d x b : list Z).

(** Compress the first [n] blocks of [d]. *)
Fixpoint md_fold (n : nat) st d : St :=
  match n with
  | O => st
  | S n' => md_fold n' (compress st (take 64 d)) (drop 64 d)
  end.

(** Compress every complete block of [d]; [md_rest d] is what is left. *)
Definition md_absorb st d : St := md_fold (length d / 64) st d.
Definition md_rest d : list Z := drop (64 * (length d / 64)) d.

Lemma length_md_rest d : length (md_rest d) = (length d mod 64)%nat.
Proof.
  unfold md_rest. rewrite length_drop.
  pose proof (Nat.div_mod_eq (length d) 64). lia.
Qed.

Lemma md_fold_app n m st d x :
  length d = (64 * n)%nat -> md_fold (n + m) st (d ++ x) = md_fold m (md_fold n st d) x.
Proof.
  revert st d. induction n as [|n IH]; intros st d Hl; simpl.
  - by destruct d.
  - rewrite take_app_le, drop_app_le by lia. apply IH. rewrite length_drop. lia.
Qed.

Lemma md_split d :
  d = take (64 * (length d / 64)) d ++ md_rest d /\
  length (take (64 * (length d / 64)) d) = (64 * (length d / 64))%nat.
Proof.
  split; [unfold md_rest; by rewrite take_drop|].
  rewrite length_take. pose proof (Nat.div_mod_eq (length d) 64). lia.
Qed.

Lemma md_fold_prefix n st d x :
  (64 * n <= length d)%nat -> md_fold n st (d ++ x) = md_fold n st d.
Proof.
  revert st d. induction n as [|n IH]; intros st d Hl; simpl; [done|].
  rewrite take_app_le, drop_app_le by lia. apply IH. rewrite length_drop. lia.
Qed.

(** Whole blocks first, then the rest. *)
Lemma md_absorb_app_blocks n st d x :
  length d = (64 * n)%nat ->
  md_absorb st (d ++ x) = md_absorb (md_fold n st d) x /\
  md_rest (d ++ x) = md_rest x.
Proof.
  intros Hl. unfold md_absorb, md_rest. rewrite length_app, Hl.
  replace (64 * n + length x)%nat with (length x + n * 64)%nat by lia.
  rewrite Nat.div_add by lia.
  replace (length x / 64 + n)%nat with (n + length x / 64)%nat by lia.
  split; [by apply md_fold_app|].
  rewrite drop_app_ge by lia. f_equal. lia.
Qed.

Lemma md_absorb_rest st d x :
  md_absorb st (d ++ x) = md_absorb (md_absorb st d) (md_rest d ++ x) /\
  md_rest (d ++ x) = md_rest (md_rest d ++ x).
Proof.
  destruct (md_split d) as [E L].
  assert (E2 : d ++ x = take (64 * (length d / 64)) d ++ (md_rest d ++ x))
    by (rewrite app_assoc, <- E; done).
  destruct (md_absorb_app_blocks (length d / 64) st _ (md_rest d ++ x) L) as [HA HR].
  rewrite E2, HA, HR. split; [|done]. f_equal. unfold md_absorb.
  rewrite <- (md_fold_prefix _ _ _ (md_rest d)) by lia. by rewrite <- E.
Qed.

Lemma md_absorb_small st d :
  (length d < 64)%nat -> md_absorb st d = st /\ md_rest d = d.
Proof. intros H. unfold md_absorb, md_rest. by rewrite Nat.div_small. Qed.

Lemma md_absorb_block st b x :
  length b = 64%nat ->
  md_absorb st (b ++ x) = md_absorb (compress st b) x /\ md_rest (b ++ x) = md_rest x.
Proof.
  intros H. destruct (md_absorb_app_blocks 1 st b x) as [-> ->]; [lia|].
  simpl. by rewrite take_ge by lia.
Qed.

(** What a buffered context holds after [d] has been fed to it. *)
Definition md_buffered (init st : St) (buf d : list Z) : Prop :=
  st = md_absorb init d /\ length buf = 64%nat /\
  take (length d mod 64) buf = md_rest d.

Lemma md_buffered_small init st buf d x :
  md_buffered init st buf d -> (length d mod 64 + length x < 64)%nat ->
  md_buffered init st (list_inserts (length d mod 64) x buf) (d ++ x).
Proof.
  intros (-> & Hb & Hr) Hx. pose proof (length_md_rest d) as Hl.
  destruct (md_absorb_rest init d x) as [EA ER].
  destruct (md_absorb_small (md_absorb init d) (md_rest d ++ x)) as [SA SR];
    [rewrite length_app; lia|].
  split; [by rewrite EA, SA|]. split; [by rewrite length_inserts|].
  rewrite <- length_md_rest, ER, SR, length_app, Hl.
  rewrite <- Hr. apply list_eq. intros i.
  destruct (decide (i < length d mod 64 + length x)%nat) as [Hi|Hi].
  - rewrite lookup_take_lt by done.
    destruct (decide (i < length d mod 64)%nat).
    + by rewrite list_lookup_inserts_lt, lookup_app_l, lookup_take_lt
        by (rewrite ?length_take; lia).
    + rewrite list_lookup_inserts by lia.
      rewrite lookup_app_r by (rewrite length_take; lia). f_equal.
      rewrite length_take. lia.
  - rewrite lookup_take_ge, lookup_ge_None_2; [done| |lia].
    rewrite length_app, length_take. lia.
Qed.

(** Completing the buffered block: the code copies the first [64 - have] bytes of
    the input behind the [have] buffered ones and compresses the buffer. *)
Lemma md_buffered_fill init st buf d x (have := (length d mod 64)%nat)
    (buf1 := list_inserts have (take (64 - have) x) buf) :
  md_buffered init st buf d -> (64 - have <= length x)%nat ->
  length buf1 = 64%nat /\
  md_absorb init (d ++ x) = md_absorb (compress st buf1) (drop (64 - have) x) /\
  md_rest (d ++ x) = md_rest (drop (64 - have) x).
Proof.
  intros (-> & Hb & Hr) Hx. pose proof (length_md_rest d) as Hl. fold have in Hl, Hr.
  assert (Hh : (have < 64)%nat) by (apply Nat.mod_upper_bound; lia).
  assert (E : buf1 = md_rest d ++ take (64 - have) x).
  { unfold buf1. rewrite <- (take_drop have buf), Hr.
    rewrite <- Hl at 1. rewrite <- (Nat.add_0_r (length (md_rest d))).
    rewrite list_inserts_app_r. f_equal.
    rewrite <- (app_nil_r (drop have buf)). rewrite list_inserts_0_r; [by rewrite app_nil_r|].
    rewrite length_take, length_drop. lia. }
  assert (L : length buf1 = 64%nat) by (unfold buf1; by rewrite length_inserts).
  split; [done|].
  destruct (md_absorb_rest init d x) as [-> ->].
  rewrite <- (take_drop (64 - have) x) at 1 3.
  rewrite app_assoc, <- E. by apply md_absorb_block.
Qed.

Lemma md_buffered_tail init buf D :
  length buf = 64%nat ->
  md_buffered init (md_absorb init D) (list_inserts 0 (md_rest D) buf) D.
Proof.
  intros Hb. pose proof (length_md_rest D) as Hl.
  assert ((length D mod 64 < 64)%nat) by (apply Nat.mod_upper_bound; lia).
  split; [done|]. split; [by rewrite length_inserts|].
  rewrite <- Hl, <- (take_drop (length (md_rest D)) buf).
  rewrite list_inserts_0_r by (rewrite length_take; lia).
  by rewrite take_app_length.
Qed.

Lemma md_buffered_aligned init st buf d x :
  md_buffered init st buf d -> (length d mod 64 = 0)%nat ->
  md_absorb init (d ++ x) = md_absorb st x /\ md_rest (d ++ x) = md_rest x.
Proof.
  intros (-> & _ & _) H0. destruct (md_absorb_rest init d x) as [-> ->].
  pose proof (length_md_rest d) as Hl. rewrite H0 in Hl.
  by destruct (md_rest d).
Qed.

(** Padding: a one bit, zeros, and the bit length in eight bytes. *)
Definition md_pad (len64 : Z -> list Z) d : list Z :=
  d ++ 128 :: replicate ((119 - length d mod 64) mod 64) 0
    ++ len64 (8 * Z.of_nat (length d)).
End MerkleDamgard.

(** The position in the buffer, from the low word of the bit count. *)
Lemma md_have n :
  Z.land (shr32 (u32 (8 * Z.of_nat n)) 3) (64 - 1) = Z.of_nat (n mod 64).
Proof.
  unfold shr32, u32. change (64 - 1) with (Z.ones 6).
  rewrite Z.land_ones, Z.shiftr_div_pow2 by lia.
  rewrite Nat2Z.inj_mod. change (2 ^ 32) with (8 * 2 ^ 29).
  rewrite Z.mul_mod_distr_l by lia. change (2 ^ 3) with 8.
  rewrite (Z.mul_comm 8), Z.div_mul by lia.
  Z.to_euclidean_division_equations. lia.
Qed.

(** ** The digest interface *)

Class DigestApi (ctx : Type) := {
  dg_alloc : ctx;                        (** [fr_*_ctx_alloc] / [fr_*_init] *)
  dg_reset : ctx -> ctx;                 (** [fr_*_ctx_reset] *)
  dg_update : ctx -> list Z -> ctx;      (** [fr_*_update] *)
  dg_final : ctx -> list Z * ctx;        (** [fr_*_final]: the digest, and the
                                             context left behind *)
}.

(** [digest] is the one-shot function the incremental interface computes, on
    messages shorter than [dg_limit] bytes. *)
Class DigestLaws (ctx : Type) `{DigestApi ctx} (digest : list Z -> list Z)
    (digest_len : nat) := {
  dg_limit : Z;
  dg_absorbed : ctx -> list Z -> Prop;
  dg_alloc_spec : dg_absorbed dg_alloc [];
  dg_reset_spec c d : dg_absorbed c d -> dg_absorbed (dg_reset (dg_final c).2) [];
  dg_update_spec c d x :
    dg_absorbed c d -> Z.of_nat (length (d ++ x)) < dg_limit ->
    dg_absorbed (dg_update c x) (d ++ x);
  dg_final_spec c d : dg_absorbed c d -> (dg_final c).1 = digest d;
  dg_length d : length (digest d) = digest_len;
  dg_bytes d : bytes_ok (digest d);
}.

(** Feed several chunks in order, then finish. *)
Definition dg_updates `{DigestApi ctx} (c : ctx) (chunks : list (list Z)) : ctx :=
  foldl dg_update c chunks.

Section DigestFacts.
Context `{DigestApi ctx} {digest : list Z -> list Z} {digest_len : nat}.
Context `{!DigestLaws ctx digest digest_len}.

Lemma dg_updates_spec c d chunks :
  dg_absorbed c d ->
  Z.of_nat (length d + length (concat chunks)) < dg_limit ->
  dg_absorbed (dg_updates c chunks) (d ++ concat chunks).
Proof.
  revert c d. induction chunks as [|x xs IH]; intros c d Hc Hl; simpl in *.
  - by rewrite app_nil_r.
  - rewrite app_assoc. rewrite length_app in Hl. apply IH.
    + apply dg_update_spec; [done|]. rewrite length_app. lia.
    + rewrite length_app. lia.
Qed.

(** How the data is cut into chunks does not matter. *)
Lemma dg_chunks chunks :
  Z.of_nat (length (concat chunks)) < dg_limit ->
  (dg_final (dg_updates dg_alloc chunks)).1 = digest (concat chunks).
Proof.
  intros Hl. apply dg_final_spec.
  apply (dg_updates_spec dg_alloc []); [apply dg_alloc_spec|done].
Qed.
End DigestFacts.
