(* ===== verification/Md5.v ===== *)
(** * MD5: [lib/util/md5.c]

    The local implementation: [fr_md5_local_transform] (unrolled rounds),
    [fr_md5_local_update] (buffering), [fr_md5_local_final] (padding), the
    contexts' reset and copy, and [fr_md5_calc].  The reference is the table-driven description of RFC 1321, folded
    over the padded message ([md5_spec]).  The OpenSSL wrappers call library code
    outside the repository; they are other instances of [DigestApi]. *)
From S2P Require Import Prelude Bytes BlockHash.

Record md5_state := Md5State { md5_a : Z; md5_b : Z; md5_c : Z; md5_d : Z }.

Record fr_md5_ctx_local_t := Md5Ctx {
  state : md5_state;        (** [uint32_t state[4]] *)
  count : Z * Z;            (** [uint32_t count[2]]: bits, low word first *)
  buffer : list Z           (** [uint8_t buffer[MD5_BLOCK_LENGTH]] *)
}.

(** ** The compression function *)

Definition MD5_F1 (x y z : Z) : Z := Z.lxor z (Z.land x (Z.lxor y z)).
Definition MD5_F2 (x y z : Z) : Z := MD5_F1 z x y.
Definition MD5_F3 (x y z : Z) : Z := Z.lxor (Z.lxor x y) z.
Definition MD5_F4 (x y z : Z) : Z := Z.lxor y (Z.lor x (lnot32 z)).

(** [w += f(x, y, z) + data, w = w << s | w >> (32 - s), w += x] *)
Definition MD5STEP (f : Z -> Z -> Z -> Z) (w x y z data s : Z) : Z :=
  (let w := w +32 (f x y z +32 data) in
   let w := Z.lor (shl32 w s) (shr32 w (32 - s)) in
   w +32 x)%cw.

(** [in[a]]: four bytes of the block, low byte first. *)
Definition md5_word (block : list Z) (a : nat) : Z :=
  let idx := (4 * a)%nat in
  Z.lor (Z.lor (Z.lor (block !!! idx)
    (shl32 (block !!! (idx + 1)%nat) 8))
    (shl32 (block !!! (idx + 2)%nat) 16))
    (shl32 (block !!! (idx + 3)%nat) 24).

(** The unrolled body is straight-line code over the variables [a], [b], [c],
    [d]: one row per [MD5STEP(f, w, x, y, z, in[k] + t, s)], which assigns [w]. *)
Inductive reg := Ra | Rb | Rc | Rd.

Definition get_reg (r : reg) (st : md5_state) : Z :=
  match r with Ra => md5_a st | Rb => md5_b st | Rc => md5_c st | Rd => md5_d st end.

Definition set_reg (r : reg) (v : Z) (st : md5_state) : md5_state :=
  let '(Md5State a b c d) := st in
  match r with
  | Ra => Md5State v b c d
  | Rb => Md5State a v c d
  | Rc => Md5State a b v d
  | Rd => Md5State a b c v
  end.

Record md5_row := Row {
  row_f : Z -> Z -> Z -> Z; row_w : reg; row_x : reg; row_y : reg; row_z : reg;
  row_k : nat; row_t : Z; row_s : Z }.

Definition exec_row (inw : nat -> Z) (st : md5_state) (r : md5_row) : md5_state :=
  set_reg (row_w r)
    (MD5STEP (row_f r) (get_reg (row_w r) st) (get_reg (row_x r) st)
       (get_reg (row_y r) st) (get_reg (row_z r) st)
       (inw (row_k r) +32 row_t r)%cw (row_s r)) st.

Definition md5_rows : list md5_row :=
  [Row MD5_F1 Ra Rb Rc Rd 0 0xd76aa478 7;
   Row MD5_F1 Rd Ra Rb Rc 1 0xe8c7b756 12;
   Row MD5_F1 Rc Rd Ra Rb 2 0x242070db 17;
   Row MD5_F1 Rb Rc Rd Ra 3 0xc1bdceee 22;
   Row MD5_F1 Ra Rb Rc Rd 4 0xf57c0faf 7;
   Row MD5_F1 Rd Ra Rb Rc 5 0x4787c62a 12;
   Row MD5_F1 Rc Rd Ra Rb 6 0xa8304613 17;
   Row MD5_F1 Rb Rc Rd Ra 7 0xfd469501 22;
   Row MD5_F1 Ra Rb Rc Rd 8 0x698098d8 7;
   Row MD5_F1 Rd Ra Rb Rc 9 0x8b44f7af 12;
   Row MD5_F1 Rc Rd Ra Rb 10 0xffff5bb1 17;
   Row MD5_F1 Rb Rc Rd Ra 11 0x895cd7be 22;
   Row MD5_F1 Ra Rb Rc Rd 12 0x6b901122 7;
   Row MD5_F1 Rd Ra Rb Rc 13 0xfd987193 12;
   Row MD5_F1 Rc Rd Ra Rb 14 0xa679438e 17;
   Row MD5_F1 Rb Rc Rd Ra 15 0x49b40821 22;
   Row MD5_F2 Ra Rb Rc Rd 1 0xf61e2562 5;
   Row MD5_F2 Rd Ra Rb Rc 6 0xc040b340 9;
   Row MD5_F2 Rc Rd Ra Rb 11 0x265e5a51 14;
   Row MD5_F2 Rb Rc Rd Ra 0 0xe9b6c7aa 20;
   Row MD5_F2 Ra Rb Rc Rd 5 0xd62f105d 5;
   Row MD5_F2 Rd Ra Rb Rc 10 0x02441453 9;
   Row MD5_F2 Rc Rd Ra Rb 15 0xd8a1e681 14;
   Row MD5_F2 Rb Rc Rd Ra 4 0xe7d3fbc8 20;
   Row MD5_F2 Ra Rb Rc Rd 9 0x21e1cde6 5;
   Row MD5_F2 Rd Ra Rb Rc 14 0xc33707d6 9;
   Row MD5_F2 Rc Rd Ra Rb 3 0xf4d50d87 14;
   Row MD5_F2 Rb Rc Rd Ra 8 0x455a14ed 20;
   Row MD5_F2 Ra Rb Rc Rd 13 0xa9e3e905 5;
   Row MD5_F2 Rd Ra Rb Rc 2 0xfcefa3f8 9;
   Row MD5_F2 Rc Rd Ra Rb 7 0x676f02d9 14;
   Row MD5_F2 Rb Rc Rd Ra 12 0x8d2a4c8a 20;
   Row MD5_F3 Ra Rb Rc Rd 5 0xfffa3942 4;
   Row MD5_F3 Rd Ra Rb Rc 8 0x8771f681 11;
   Row MD5_F3 Rc Rd Ra Rb 11 0x6d9d6122 16;
   Row MD5_F3 Rb Rc Rd Ra 14 0xfde5380c 23;
   Row MD5_F3 Ra Rb Rc Rd 1 0xa4beea44 4;
   Row MD5_F3 Rd Ra Rb Rc 4 0x4bdecfa9 11;
   Row MD5_F3 Rc Rd Ra Rb 7 0xf6bb4b60 16;
   Row MD5_F3 Rb Rc Rd Ra 10 0xbebfbc70 23;
   Row MD5_F3 Ra Rb Rc Rd 13 0x289b7ec6 4;
   Row MD5_F3 Rd Ra Rb Rc 0 0xeaa127fa 11;
   Row MD5_F3 Rc Rd Ra Rb 3 0xd4ef3085 16;
   Row MD5_F3 Rb Rc Rd Ra 6 0x04881d05 23;
   Row MD5_F3 Ra Rb Rc Rd 9 0xd9d4d039 4;
   Row MD5_F3 Rd Ra Rb Rc 12 0xe6db99e5 11;
   Row MD5_F3 Rc Rd Ra Rb 15 0x1fa27cf8 16;
   Row MD5_F3 Rb Rc Rd Ra 2 0xc4ac5665 23;
   Row MD5_F4 Ra Rb Rc Rd 0 0xf4292244 6;
   Row MD5_F4 Rd Ra Rb Rc 7 0x432aff97 10;
   Row MD5_F4 Rc Rd Ra Rb 14 0xab9423a7 15;
   Row MD5_F4 Rb Rc Rd Ra 5 0xfc93a039 21;
   Row MD5_F4 Ra Rb Rc Rd 12 0x655b59c3 6;
   Row MD5_F4 Rd Ra Rb Rc 3 0x8f0ccc92 10;
   Row MD5_F4 Rc Rd Ra Rb 10 0xffeff47d 15;
   Row MD5_F4 Rb Rc Rd Ra 1 0x85845dd1 21;
   Row MD5_F4 Ra Rb Rc Rd 8 0x6fa87e4f 6;
   Row MD5_F4 Rd Ra Rb Rc 15 0xfe2ce6e0 10;
   Row MD5_F4 Rc Rd Ra Rb 6 0xa3014314 15;
   Row MD5_F4 Rb Rc Rd Ra 13 0x4e0811a1 21;
   Row MD5_F4 Ra Rb Rc Rd 4 0xf7537e82 6;
   Row MD5_F4 Rd Ra Rb Rc 11 0xbd3af235 10;
   Row MD5_F4 Rc Rd Ra Rb 2 0x2ad7d2bb 15;
   Row MD5_F4 Rb Rc Rd Ra 9 0xeb86d391 21].

Definition fr_md5_local_transform (st : md5_state) (block : list Z) : md5_state :=
  let r := foldl (exec_row (md5_word block)) st md5_rows in
  Md5State (md5_a st +32 md5_a r)%cw (md5_b st +32 md5_b r)%cw
           (md5_c st +32 md5_c r)%cw (md5_d st +32 md5_d r)%cw.

(** ** Contexts *)

Definition md5_init_state : md5_state :=
  Md5State 0x67452301 0xefcdab89 0x98badcfe 0x10325476.

(** [fr_md5_local_ctx_reset] overwrites every field. *)
Definition fr_md5_local_ctx_reset (_ : fr_md5_ctx_local_t) : fr_md5_ctx_local_t :=
  Md5Ctx md5_init_state (0, 0) (replicate 64 0).

(** [fr_md5_local_ctx_copy] is a [memcpy] of the whole context. *)
Definition fr_md5_local_ctx_copy (dst src : fr_md5_ctx_local_t) : fr_md5_ctx_local_t := src.

(** [talloc] leaves the memory uninitialised, [garbage]; the context is reset
    before it is returned. *)
Definition fr_md5_local_ctx_alloc (garbage : fr_md5_ctx_local_t) : fr_md5_ctx_local_t :=
  fr_md5_local_ctx_reset garbage.

(** ** Update and final *)

(** [while (inlen >= MD5_BLOCK_LENGTH) { transform; in += 64; inlen -= 64; }] *)
Fixpoint md5_blocks (fuel : nat) (st : md5_state) (inp : list Z) : md5_state * list Z :=
  match fuel with
  | O => (st, inp)
  | S fuel' =>
      if decide (64 <= length inp)%nat
      then md5_blocks fuel' (fr_md5_local_transform st (take 64 inp)) (drop 64 inp)
      else (st, inp)
  end.

(** The bit counter: [count[0] += (uint32_t)inlen << 3], with the carry test
    against [(uint32_t)inlen], and the high bits of the length. *)
Definition md5_count (cnt : Z * Z) (inlen : Z) : Z * Z :=
  (let c0 := cnt.1 +32 shl32 (u32 inlen) 3 in
   let c1 := if decide (c0 < u32 inlen) then cnt.2 +32 1 else cnt.2 in
   (c0, c1 +32 shr32 (u32 inlen) 29))%cw.

(** [in == NULL] is the empty input. *)
Definition fr_md5_local_update (ctx : fr_md5_ctx_local_t) (inp : list Z) : fr_md5_ctx_local_t :=
  let have := Z.to_nat (Z.land (shr32 (count ctx).1 3) (64 - 1)) in
  let need := (64 - have)%nat in
  let cnt := md5_count (count ctx) (Z.of_nat (length inp)) in
  let '(st, buf, have, inp) :=
    if decide (need <= length inp)%nat then
      let '(st, buf, inp, have) :=
        if decide (have <> 0%nat) then
          let buf := list_inserts have (take need inp) (buffer ctx) in
          (fr_md5_local_transform (state ctx) buf, buf, drop need inp, 0%nat)
        else (state ctx, buffer ctx, inp, have) in
      let '(st, inp) := md5_blocks (length inp) st inp in
      (st, buf, have, inp)
    else (state ctx, buffer ctx, have, inp) in
  Md5Ctx st cnt (list_inserts have inp buf).

(** [PUT_32BIT_LE] and [PUT_64BIT_LE]: the bytes written. *)
Definition PUT_32BIT_LE (value : Z) : list Z :=
  [u8 value; u8 (shr32 value 8); u8 (shr32 value 16); u8 (shr32 value 24)].
Definition PUT_64BIT_LE (value : Z * Z) : list Z :=
  PUT_32BIT_LE value.1 ++ PUT_32BIT_LE value.2.

Definition PADDING : list Z := 128 :: replicate 63 0.

(** The digest, and the zeroed context left behind. *)
Definition fr_md5_local_final (ctx : fr_md5_ctx_local_t) : list Z * fr_md5_ctx_local_t :=
  let cnt := PUT_64BIT_LE (count ctx) in
  let padlen := 64 - Z.land (shr32 (count ctx).1 3) (64 - 1) in
  let padlen := if decide (padlen < 1 + 8) then padlen + 64 else padlen in
  let ctx := fr_md5_local_update ctx (take (Z.to_nat (padlen - 8)) PADDING) in
  let ctx := fr_md5_local_update ctx cnt in
  (PUT_32BIT_LE (md5_a (state ctx)) ++ PUT_32BIT_LE (md5_b (state ctx)) ++
   PUT_32BIT_LE (md5_c (state ctx)) ++ PUT_32BIT_LE (md5_d (state ctx)),
   Md5Ctx (Md5State 0 0 0 0) (0, 0) (replicate 64 0)).

(** The function pointers as they are initialised. *)
#[export] Instance md5_local_api : DigestApi fr_md5_ctx_local_t := {
  dg_alloc := fr_md5_local_ctx_alloc (Md5Ctx (Md5State 0 0 0 0) (0, 0) []);
  dg_reset := fr_md5_local_ctx_reset;
  dg_update := fr_md5_local_update;
  dg_final := fr_md5_local_final
}.

(** [fr_md5_calc] *)
Definition fr_md5_calc `{DigestApi ctx} (inp : list Z) : list Z :=
  (dg_final (dg_update dg_alloc inp)).1.

Definition md5_str (l : list Z) := fr_md5_calc (ctx := fr_md5_ctx_local_t) l.

(** ** The reference: RFC 1321 *)

Definition RFC_F (x y z : Z) : Z := Z.lor (Z.land x y) (Z.land (lnot32 x) z).
Definition RFC_G (x y z : Z) : Z := Z.lor (Z.land x z) (Z.land y (lnot32 z)).
Definition RFC_H (x y z : Z) : Z := Z.lxor x (Z.lxor y z).
Definition RFC_I (x y z : Z) : Z := Z.lxor y (Z.lor x (lnot32 z)).

(** One row per operation [abcd k s i]: the function of the round, the word [k],
    the rotation [s] and the constant [T[i]]. *)
Definition rfc_table : list ((Z -> Z -> Z -> Z) * nat * Z * Z) :=
  [(RFC_F, 0%nat, 7, 0xd76aa478); (RFC_F, 1%nat, 12, 0xe8c7b756);
   (RFC_F, 2%nat, 17, 0x242070db); (RFC_F, 3%nat, 22, 0xc1bdceee);
   (RFC_F, 4%nat, 7, 0xf57c0faf); (RFC_F, 5%nat, 12, 0x4787c62a);
   (RFC_F, 6%nat, 17, 0xa8304613); (RFC_F, 7%nat, 22, 0xfd469501);
   (RFC_F, 8%nat, 7, 0x698098d8); (RFC_F, 9%nat, 12, 0x8b44f7af);
   (RFC_F, 10%nat, 17, 0xffff5bb1); (RFC_F, 11%nat, 22, 0x895cd7be);
   (RFC_F, 12%nat, 7, 0x6b901122); (RFC_F, 13%nat, 12, 0xfd987193);
   (RFC_F, 14%nat, 17, 0xa679438e); (RFC_F, 15%nat, 22, 0x49b40821);
   (RFC_G, 1%nat, 5, 0xf61e2562); (RFC_G, 6%nat, 9, 0xc040b340);
   (RFC_G, 11%nat, 14, 0x265e5a51); (RFC_G, 0%nat, 20, 0xe9b6c7aa);
   (RFC_G, 5%nat, 5, 0xd62f105d); (RFC_G, 10%nat, 9, 0x02441453);
   (RFC_G, 15%nat, 14, 0xd8a1e681); (RFC_G, 4%nat, 20, 0xe7d3fbc8);
   (RFC_G, 9%nat, 5, 0x21e1cde6); (RFC_G, 14%nat, 9, 0xc33707d6);
   (RFC_G, 3%nat, 14, 0xf4d50d87); (RFC_G, 8%nat, 20, 0x455a14ed);
   (RFC_G, 13%nat, 5, 0xa9e3e905); (RFC_G, 2%nat, 9, 0xfcefa3f8);
   (RFC_G, 7%nat, 14, 0x676f02d9); (RFC_G, 12%nat, 20, 0x8d2a4c8a);
   (RFC_H, 5%nat, 4, 0xfffa3942); (RFC_H, 8%nat, 11, 0x8771f681);
   (RFC_H, 11%nat, 16, 0x6d9d6122); (RFC_H, 14%nat, 23, 0xfde5380c);
   (RFC_H, 1%nat, 4, 0xa4beea44); (RFC_H, 4%nat, 11, 0x4bdecfa9);
   (RFC_H, 7%nat, 16, 0xf6bb4b60); (RFC_H, 10%nat, 23, 0xbebfbc70);
   (RFC_H, 13%nat, 4, 0x289b7ec6); (RFC_H, 0%nat, 11, 0xeaa127fa);
   (RFC_H, 3%nat, 16, 0xd4ef3085); (RFC_H, 6%nat, 23, 0x04881d05);
   (RFC_H, 9%nat, 4, 0xd9d4d039); (RFC_H, 12%nat, 11, 0xe6db99e5);
   (RFC_H, 15%nat, 16, 0x1fa27cf8); (RFC_H, 2%nat, 23, 0xc4ac5665);
   (RFC_I, 0%nat, 6, 0xf4292244); (RFC_I, 7%nat, 10, 0x432aff97);
   (RFC_I, 14%nat, 15, 0xab9423a7); (RFC_I, 5%nat, 21, 0xfc93a039);
   (RFC_I, 12%nat, 6, 0x655b59c3); (RFC_I, 3%nat, 10, 0x8f0ccc92);
   (RFC_I, 10%nat, 15, 0xffeff47d); (RFC_I, 1%nat, 21, 0x85845dd1);
   (RFC_I, 8%nat, 6, 0x6fa87e4f); (RFC_I, 15%nat, 10, 0xfe2ce6e0);
   (RFC_I, 6%nat, 15, 0xa3014314); (RFC_I, 13%nat, 21, 0x4e0811a1);
   (RFC_I, 4%nat, 6, 0xf7537e82); (RFC_I, 11%nat, 10, 0xbd3af235);
   (RFC_I, 2%nat, 15, 0x2ad7d2bb); (RFC_I, 9%nat, 21, 0xeb86d391)].

Definition rfc_rotl (w s : Z) : Z := Z.lor (shl32 w s) (shr32 w (32 - s)).

(** [a = b + ((a + f(b,c,d) + X[k] + T[i]) <<< s)], then the letters rotate. *)
Fixpoint rfc_rounds (X : nat -> Z) (rows : list ((Z -> Z -> Z -> Z) * nat * Z * Z))
    (a b c d : Z) : md5_state :=
  match rows with
  | [] => Md5State a b c d
  | (f, k, s, t) :: rows' =>
      rfc_rounds X rows' d (u32 (b + rfc_rotl (u32 (a + f b c d + X k + t)) s)) b c
  end.

Definition rfc_compress (st : md5_state) (block : list Z) : md5_state :=
  let r := rfc_rounds (md5_word block) rfc_table
             (md5_a st) (md5_b st) (md5_c st) (md5_d st) in
  Md5State (u32 (md5_a st + md5_a r)) (u32 (md5_b st + md5_b r))
           (u32 (md5_c st + md5_c r)) (u32 (md5_d st + md5_d r)).

(** The length is appended as two words, low-order word first. *)
Definition rfc_len64 (n : Z) : list Z :=
  PUT_32BIT_LE (u32 n) ++ PUT_32BIT_LE (u32 (Z.shiftr n 32)).

Definition md5_spec (d : list Z) : list Z :=
  let st := md_absorb rfc_compress md5_init_state (md_pad rfc_len64 d) in
  PUT_32BIT_LE (md5_a st) ++ PUT_32BIT_LE (md5_b st) ++
  PUT_32BIT_LE (md5_c st) ++ PUT_32BIT_LE (md5_d st).

(** ** The unrolled compression function is the reference *)

(** The boolean functions of [md5.c] agree with the RFC's on 32-bit words. *)
Ltac word_bits :=
  apply Z.bits_inj'; intros i Hi;
  unfold MD5_F2, MD5_F1, MD5_F3, MD5_F4, RFC_F, RFC_G, RFC_H, RFC_I, lnot32;
  repeat first [rewrite Z.lxor_spec | rewrite Z.lor_spec | rewrite Z.land_spec];
  change (2 ^ 32 - 1) with (Z.ones 32);
  destruct (decide (i < 32));
  [rewrite ?Z.ones_spec_low by lia
  |rewrite ?Z.ones_spec_high by lia;
   repeat rewrite (testbit_high 32) by (unfold word_ok in *; lia)];
  repeat match goal with |- context [Z.testbit ?x i] => destruct (Z.testbit x i) end;
  done.

Lemma MD5_F1_rfc x y z : word_ok x -> word_ok y -> word_ok z -> MD5_F1 x y z = RFC_F x y z.
Proof. intros. word_bits. Qed.
Lemma MD5_F2_rfc x y z : word_ok x -> word_ok y -> word_ok z -> MD5_F2 x y z = RFC_G x y z.
Proof. intros. word_bits. Qed.
Lemma MD5_F3_rfc x y z : MD5_F3 x y z = RFC_H x y z.
Proof. unfold MD5_F3, RFC_H. by rewrite Z.lxor_assoc. Qed.


(** Two boolean functions that agree on words. *)
Definition fun_agree (f g : Z -> Z -> Z -> Z) : Prop :=
  forall x y z, word_ok x -> word_ok y -> word_ok z -> f x y z = g x y z.

(** Four rows of the code, in the register order of the source, and the four rows
    of the table they stand for. *)
Inductive quad : list md5_row -> list ((Z -> Z -> Z -> Z) * nat * Z * Z) -> Prop :=
| quad_nil : quad [] []
| quad_cons f g k1 k2 k3 k4 t1 t2 t3 t4 s1 s2 s3 s4 rows tbl :
    fun_agree f g -> quad rows tbl ->
    quad (Row f Ra Rb Rc Rd k1 t1 s1 :: Row f Rd Ra Rb Rc k2 t2 s2 ::
          Row f Rc Rd Ra Rb k3 t3 s3 :: Row f Rb Rc Rd Ra k4 t4 s4 :: rows)
         ((g, k1, s1, t1) :: (g, k2, s2, t2) :: (g, k3, s3, t3) :: (g, k4, s4, t4) :: tbl).

Definition state_ok (st : md5_state) : Prop :=
  word_ok (md5_a st) /\ word_ok (md5_b st) /\ word_ok (md5_c st) /\ word_ok (md5_d st).

Lemma MD5STEP_rfc f g w x y z X t s :
  fun_agree f g -> word_ok x -> word_ok y -> word_ok z ->
  MD5STEP f w x y z (X +32 t)%cw s =
  u32 (x + rfc_rotl (u32 (w + g x y z + X + t)) s).
Proof.
  intros Hfg Hx Hy Hz. unfold MD5STEP, rfc_rotl. rewrite (Hfg x y z) by done.
  rewrite (u32_add_r (g x y z)), u32_add_r.
  replace (w + (g x y z + (X + t))) with (w + g x y z + X + t) by lia.
  f_equal. apply Z.add_comm.
Qed.

Lemma word_ok_MD5STEP f w x y z data s : word_ok (MD5STEP f w x y z data s).
Proof. apply word_ok_u32. Qed.
#[export] Hint Resolve word_ok_MD5STEP : bytes.

Lemma exec_quad X rows tbl st :
  quad rows tbl -> state_ok st ->
  foldl (exec_row X) st rows =
    rfc_rounds X tbl (md5_a st) (md5_b st) (md5_c st) (md5_d st) /\
  state_ok (foldl (exec_row X) st rows).
Proof.
  intros Hq. revert st. induction Hq as [|f g k1 k2 k3 k4 t1 t2 t3 t4 s1 s2 s3 s4 rows tbl Hfg Hq IH];
    intros [a b c d] Hst; [done|].
  destruct Hst as (Ha & Hb & Hc & Hd). cbn [md5_a md5_b md5_c md5_d] in *.
  cbn [foldl rfc_rounds].
  set (st4 := exec_row X (exec_row X (exec_row X (exec_row X _ _) _) _) _).
  destruct (IH st4) as [-> Hok].
  { by repeat split; cbn; apply word_ok_MD5STEP. }
  split; [|done]. subst st4.
  cbn [exec_row row_f row_w row_x row_y row_z row_k row_t row_s get_reg set_reg
    md5_a md5_b md5_c md5_d].
  by rewrite !(MD5STEP_rfc f g) by auto with bytes.
Qed.

Lemma md5_rows_quad : quad md5_rows rfc_table.
Proof.
  unfold md5_rows, rfc_table.
  repeat (apply quad_cons;
    [first [exact MD5_F1_rfc | exact MD5_F2_rfc
           | by (intros ??????; apply MD5_F3_rfc) | done]|]).
  apply quad_nil.
Qed.

Lemma transform_rfc st block :
  state_ok st ->
  fr_md5_local_transform st block = rfc_compress st block /\
  state_ok (rfc_compress st block).
Proof.
  intros Hst. split; [|by repeat split; apply word_ok_u32].
  unfold fr_md5_local_transform, rfc_compress.
  by destruct (exec_quad (md5_word block) _ _ st md5_rows_quad Hst) as [-> _].
Qed.

(** ** The buffered implementation computes the reference *)

(** A context that has absorbed [d].  The low counter word is always the bit
    length modulo 2^32; the high word is right below 2^29 bytes. *)
Definition md5_ctx_ok (ctx : fr_md5_ctx_local_t) (d : list Z) : Prop :=
  md_buffered rfc_compress md5_init_state (state ctx) (buffer ctx) d /\
  (count ctx).1 = u32 (8 * Z.of_nat (length d)) /\
  (Z.of_nat (length d) < 2 ^ 29 -> (count ctx).2 = 0).

Lemma md_fold_state_ok n st d : state_ok st -> state_ok (md_fold rfc_compress n st d).
Proof.
  revert st d. induction n as [|n IH]; intros st d H; simpl; [done|].
  apply IH. by repeat split; apply word_ok_u32.
Qed.

Lemma absorb_state_ok d : state_ok (md_absorb rfc_compress md5_init_state d).
Proof. apply md_fold_state_ok. repeat split; simpl; lia. Qed.

Lemma md5_blocks_spec fuel st inp :
  state_ok st -> (length inp / 64 <= fuel)%nat ->
  md5_blocks fuel st inp = (md_absorb rfc_compress st inp, md_rest inp).
Proof.
  revert st inp. induction fuel as [|fuel IH]; intros st inp Hst Hf; simpl.
  - destruct (md_absorb_small rfc_compress st inp) as [-> ->]; [|done].
    assert (length inp / 64 = 0)%nat as H by lia. apply Nat.div_small_iff in H; lia.
  - case_decide as Hl.
    + destruct (transform_rfc st (take 64 inp) Hst) as [-> Hst'].
      assert (Hd : (length inp / 64 = S (length (drop 64 inp) / 64))%nat).
      { rewrite length_drop. replace (length inp) with (length inp - 64 + 1 * 64)%nat at 1 by lia.
        rewrite Nat.div_add by lia. lia. }
      rewrite IH by (done || lia).
      destruct (md_absorb_block rfc_compress st (take 64 inp) (drop 64 inp)) as [HA HR];
        [rewrite length_take; lia|].
      by rewrite take_drop in HA, HR; rewrite <- HA, <- HR.
    + by destruct (md_absorb_small rfc_compress st inp) as [-> ->]; [lia|].
Qed.

Lemma md5_count_spec c n m :
  c.1 = u32 (8 * n) -> 0 <= n -> 0 <= m -> 
  (md5_count c m).1 = u32 (8 * (n + m)) /\
  (n + m < 2 ^ 29 -> c.2 = 0 -> (md5_count c m).2 = 0).
Proof.
  intros E Hn Hm. unfold md5_count, shl32, shr32. rewrite E. simpl.
  assert (E2 : u32 (u32 (8 * n) + u32 (Z.shiftl (u32 m) 3)) = u32 (8 * (n + m))).
  { rewrite Z.shiftl_mul_pow2, u32_add_l, u32_add_r by lia. unfold u32.
    Z.to_euclidean_division_equations. lia. }
  rewrite E2. split; [done|]. intros Hb Hc.
  rewrite (u32_small m), (u32_small (8 * (n + m))), decide_False by lia.
  rewrite Hc, Z.shiftr_div_pow2, Z.div_small by lia. done.
Qed.

Lemma md5_update_ok ctx d x :
  md5_ctx_ok ctx d -> md5_ctx_ok (fr_md5_local_update ctx x) (d ++ x).
Proof.
  intros (Hb & Hc & Hc2). unfold fr_md5_local_update.
  rewrite Hc, md_have, Nat2Z.id.
  destruct (md5_count_spec (count ctx) (Z.of_nat (length d)) (Z.of_nat (length x)) Hc)
    as [Hk1 Hk2]; [lia..|].
  rewrite <- Nat2Z.inj_add, <- length_app in Hk1, Hk2.
  assert (Hk : forall st buf, md_buffered rfc_compress md5_init_state st buf (d ++ x) ->
    md5_ctx_ok (Md5Ctx st (md5_count (count ctx) (Z.of_nat (length x))) buf) (d ++ x)).
  { intros st buf Hbuf. split; [done|]. split; [done|]. intros Hl. apply Hk2; [done|].
    apply Hc2. rewrite length_app in Hl. lia. }
  assert (Hlen : length (buffer ctx) = 64%nat) by apply Hb.
  assert (Hst : state_ok (state ctx)) by (rewrite (proj1 Hb); apply absorb_state_ok).
  case_decide as Hn.
  - case_decide as H0; cbv iota beta.
    + destruct (md_buffered_fill _ _ _ _ _ x Hb Hn) as (Hl1 & HA & HR).
      destruct (transform_rfc (state ctx) (list_inserts (length d mod 64)
        (take (64 - length d mod 64) x) (buffer ctx)) Hst) as [-> Hst'].
      rewrite md5_blocks_spec by (done || apply Nat.Div0.div_le_upper_bound; lia).
      rewrite <- HA, <- HR. apply Hk, md_buffered_tail, Hl1.
    + assert (H0' : (length d mod 64 = 0)%nat) by lia.
      rewrite md5_blocks_spec by (done || apply Nat.Div0.div_le_upper_bound; lia).
      destruct (md_buffered_aligned _ _ _ _ _ x Hb H0') as [<- <-].
      rewrite H0'. by apply Hk, md_buffered_tail.
  - apply Hk, md_buffered_small; [done|]. lia.
Qed.

Lemma md5_reset_ok ctx : md5_ctx_ok (fr_md5_local_ctx_reset ctx) [].
Proof. done. Qed.

(** The padding [fr_md5_local_final] feeds is the reference's. *)
Lemma md5_padding_spec (d : list Z) (h := (length d mod 64)%nat)
    (padlen := 64 - Z.of_nat h)
    (padlen' := if decide (padlen < 1 + 8) then padlen + 64 else padlen) :
  take (Z.to_nat (padlen' - 8)) PADDING =
  128 :: replicate ((119 - h) mod 64) 0.
Proof.
  assert (Hh : (h < 64)%nat) by (apply Nat.mod_upper_bound; lia).
  unfold PADDING.
  assert (E : (Z.to_nat (padlen' - 8) = S ((119 - h) mod 64))%nat).
  { unfold padlen', padlen. case_decide.
    - rewrite Nat.mod_small by lia. lia.
    - replace (119 - h)%nat with (55 - h + 1 * 64)%nat by lia.
      rewrite Nat.Div0.mod_add, Nat.mod_small by lia. lia. }
  rewrite E. cbn [take]. f_equal.
  assert ((119 - h) mod 64 < 64)%nat by (apply Nat.mod_upper_bound; lia).
  rewrite take_replicate. f_equal. lia.
Qed.

Lemma md5_final_ok ctx d :
  md5_ctx_ok ctx d -> Z.of_nat (length d) < 2 ^ 29 ->
  (fr_md5_local_final ctx).1 = md5_spec d.
Proof.
  intros Hctx Hl. destruct (Hctx) as (Hb & Hc & Hc2).
  unfold fr_md5_local_final. rewrite Hc, md_have, md5_padding_spec. cbn [fst].
  assert (E : PUT_64BIT_LE (count ctx) = rfc_len64 (8 * Z.of_nat (length d))).
  { unfold PUT_64BIT_LE, rfc_len64. rewrite Hc, (Hc2 Hl). f_equal. f_equal.
    rewrite Z.shiftr_div_pow2, Z.div_small by lia. done. }
  rewrite E.
  set (pad := 128 :: replicate _ 0).
  pose proof (md5_update_ok _ _ (rfc_len64 (8 * Z.of_nat (length d)))
    (md5_update_ok ctx d pad Hctx)) as ((Hst & _) & _).
  rewrite Hst. unfold md5_spec, md_pad. by rewrite <- app_assoc.
Qed.

Lemma length_PUT_32BIT_LE w : length (PUT_32BIT_LE w) = 4%nat.
Proof. done. Qed.

Lemma bytes_PUT_32BIT_LE w : bytes_ok (PUT_32BIT_LE w).
Proof. repeat constructor; apply u8_range. Qed.

#[export] Instance md5_local_laws : DigestLaws fr_md5_ctx_local_t md5_spec 16.
Proof.
  refine {| dg_limit := 2 ^ 29;
            dg_absorbed c d := md5_ctx_ok c d /\ Z.of_nat (length d) < 2 ^ 29 |}.
  - by split.
  - by intros c d _; split.
  - intros c d x [Hc _] Hl. split; [by apply md5_update_ok|done].
  - intros c d [Hc Hl]. by apply md5_final_ok.
  - done.
  - intros d. unfold md5_spec. repeat apply bytes_ok_app; apply bytes_PUT_32BIT_LE.
Defined.

(** ** Properties *)

(** C16: feeding the local MD5 implementation a message in any number of pieces and
    finishing gives the RFC 1321 digest of the whole message, as long as it is
    shorter than 2^29 bytes: the unrolled rounds, the block buffering and the
    padding of [md5.c] together compute the reference. *)
Theorem md5_local_streaming (chunks : list (list Z)) :
  Z.of_nat (length (concat chunks)) < 2 ^ 29 ->
  (fr_md5_local_final
     (foldl fr_md5_local_update
        (fr_md5_local_ctx_reset (Md5Ctx (Md5State 0 0 0 0) (0, 0) [])) chunks)).1
  = md5_spec (concat chunks).
Proof. exact (dg_chunks (digest := md5_spec) (digest_len := 16) chunks). Qed.

Lemma md5_local_streaming_witness :
  (fr_md5_local_final
     (foldl fr_md5_local_update
        (fr_md5_local_ctx_reset (Md5Ctx (Md5State 0 0 0 0) (0, 0) []))
        [[97]; [98; 99]])).1
  = [0x90; 0x01; 0x50; 0x98; 0x3c; 0xd2; 0x4f; 0xb0;
     0xd6; 0x96; 0x3f; 0x7d; 0x28; 0xe1; 0x7f; 0x72].
Proof.
  etransitivity; [apply md5_local_streaming; simpl; lia|].
  vm_compute. reflexivity.
Defined.

(** The carry of the bit counter is lost when a message crosses 2^29 bytes.
    [fr_md5_local_update] compares the new low word with the byte count instead of
    the bit count, so after [n] bytes followed by [m] more, with the sum between
    2^29 and 2^30 bytes and the wrapped low word not below [m], the counter is
    2^32 bits short of the number of bits fed, and so is the length the final
    block encodes. *)
Theorem md5_count_carry_lost n m :
  0 <= n < 2 ^ 29 -> 0 <= m < 2 ^ 29 ->
  2 ^ 29 <= n + m -> m <= 8 * (n + m) - 2 ^ 32 ->
  let '(c0, c1) := md5_count (8 * n, 0) m in
  c0 + 2 ^ 32 * c1 = 8 * (n + m) - 2 ^ 32.
Proof.
  intros Hn Hm Hs Hc. unfold md5_count, shl32, shr32. simpl.
  rewrite (u32_small m), Z.shiftl_mul_pow2, u32_add_r by lia.
  assert (E : u32 (8 * n + m * 2 ^ 3) = 8 * (n + m) - 2 ^ 32).
  { unfold u32. replace (8 * n + m * 2 ^ 3) with (8 * (n + m) - 2 ^ 32 + 1 * 2 ^ 32) by lia.
    rewrite Z.mod_add, Z.mod_small by lia. done. }
  rewrite E, decide_False, Z.shiftr_div_pow2, Z.div_small by lia.
  change (0 +32 0)%cw with 0. lia.
Qed.

Lemma md5_count_carry_lost_witness :
  let '(c0, c1) := md5_count (8 * (2 ^ 29 - 1), 0) 2 in
  c0 + 2 ^ 32 * c1 = 8 * (2 ^ 29 - 1 + 2) - 2 ^ 32.
Proof. apply (md5_count_carry_lost (2 ^ 29 - 1) 2); lia. Defined.
