(* ===== verification/Md4.v ===== *)
(** * MD4: [lib/util/md4.c]

    The local implementation, which differs from that of MD5 in its step and rounds, in the
    way blocks are buffered and in a padding written into the buffer by hand.  Words of a
    block are read as the little-endian machine does, as in Md5.v, whose registers, words
    and rows are used.  The reference is RFC 1320 folded over the padded message. *)
From S2P Require Import Prelude Bytes BlockHash Md5.

Record fr_md4_ctx_local_t := Md4Ctx {
  md4_st : md5_state;         (** [uint32_t state[4]] *)
  md4_cnt : Z * Z;            (** [uint32_t count[2]]: bits, low word first *)
  md4_buf : list Z            (** [uint8_t buffer[MD4_BLOCK_LENGTH]] *)
}.

(** ** The compression function *)

Definition MD4_F1 (x y z : Z) : Z := Z.lxor z (Z.land x (Z.lxor y z)).
Definition MD4_F2 (x y z : Z) : Z := Z.lor (Z.lor (Z.land x y) (Z.land x z)) (Z.land y z).
Definition MD4_F3 (x y z : Z) : Z := Z.lxor (Z.lxor x y) z.

(** [w += f(x, y, z) + data, w = w << s | w >> (32 - s)] *)
Definition MD4STEP (f : Z -> Z -> Z -> Z) (w x y z data s : Z) : Z :=
  (let w := w +32 (f x y z +32 data) in Z.lor (shl32 w s) (shr32 w (32 - s)))%cw.

(** One row per [MD4STEP(f, w, x, y, z, in[k] + t, s)]. *)
Definition md4_exec_row (inw : nat -> Z) (st : md5_state) (r : md5_row) : md5_state :=
  set_reg (row_w r)
    (MD4STEP (row_f r) (get_reg (row_w r) st) (get_reg (row_x r) st)
       (get_reg (row_y r) st) (get_reg (row_z r) st)
       (inw (row_k r) +32 row_t r)%cw (row_s r)) st.

Definition md4_rows : list md5_row :=
  [Row MD4_F1 Ra Rb Rc Rd 0 0 3;
   Row MD4_F1 Rd Ra Rb Rc 1 0 7;
   Row MD4_F1 Rc Rd Ra Rb 2 0 11;
   Row MD4_F1 Rb Rc Rd Ra 3 0 19;
   Row MD4_F1 Ra Rb Rc Rd 4 0 3;
   Row MD4_F1 Rd Ra Rb Rc 5 0 7;
   Row MD4_F1 Rc Rd Ra Rb 6 0 11;
   Row MD4_F1 Rb Rc Rd Ra 7 0 19;
   Row MD4_F1 Ra Rb Rc Rd 8 0 3;
   Row MD4_F1 Rd Ra Rb Rc 9 0 7;
   Row MD4_F1 Rc Rd Ra Rb 10 0 11;
   Row MD4_F1 Rb Rc Rd Ra 11 0 19;
   Row MD4_F1 Ra Rb Rc Rd 12 0 3;
   Row MD4_F1 Rd Ra Rb Rc 13 0 7;
   Row MD4_F1 Rc Rd Ra Rb 14 0 11;
   Row MD4_F1 Rb Rc Rd Ra 15 0 19;
   Row MD4_F2 Ra Rb Rc Rd 0 0x5a827999 3;
   Row MD4_F2 Rd Ra Rb Rc 4 0x5a827999 5;
   Row MD4_F2 Rc Rd Ra Rb 8 0x5a827999 9;
   Row MD4_F2 Rb Rc Rd Ra 12 0x5a827999 13;
   Row MD4_F2 Ra Rb Rc Rd 1 0x5a827999 3;
   Row MD4_F2 Rd Ra Rb Rc 5 0x5a827999 5;
   Row MD4_F2 Rc Rd Ra Rb 9 0x5a827999 9;
   Row MD4_F2 Rb Rc Rd Ra 13 0x5a827999 13;
   Row MD4_F2 Ra Rb Rc Rd 2 0x5a827999 3;
   Row MD4_F2 Rd Ra Rb Rc 6 0x5a827999 5;
   Row MD4_F2 Rc Rd Ra Rb 10 0x5a827999 9;
   Row MD4_F2 Rb Rc Rd Ra 14 0x5a827999 13;
   Row MD4_F2 Ra Rb Rc Rd 3 0x5a827999 3;
   Row MD4_F2 Rd Ra Rb Rc 7 0x5a827999 5;
   Row MD4_F2 Rc Rd Ra Rb 11 0x5a827999 9;
   Row MD4_F2 Rb Rc Rd Ra 15 0x5a827999 13;
   Row MD4_F3 Ra Rb Rc Rd 0 0x6ed9eba1 3;
   Row MD4_F3 Rd Ra Rb Rc 8 0x6ed9eba1 9;
   Row MD4_F3 Rc Rd Ra Rb 4 0x6ed9eba1 11;
   Row MD4_F3 Rb Rc Rd Ra 12 0x6ed9eba1 15;
   Row MD4_F3 Ra Rb Rc Rd 2 0x6ed9eba1 3;
   Row MD4_F3 Rd Ra Rb Rc 10 0x6ed9eba1 9;
   Row MD4_F3 Rc Rd Ra Rb 6 0x6ed9eba1 11;
   Row MD4_F3 Rb Rc Rd Ra 14 0x6ed9eba1 15;
   Row MD4_F3 Ra Rb Rc Rd 1 0x6ed9eba1 3;
   Row MD4_F3 Rd Ra Rb Rc 9 0x6ed9eba1 9;
   Row MD4_F3 Rc Rd Ra Rb 5 0x6ed9eba1 11;
   Row MD4_F3 Rb Rc Rd Ra 13 0x6ed9eba1 15;
   Row MD4_F3 Ra Rb Rc Rd 3 0x6ed9eba1 3;
   Row MD4_F3 Rd Ra Rb Rc 11 0x6ed9eba1 9;
   Row MD4_F3 Rc Rd Ra Rb 7 0x6ed9eba1 11;
   Row MD4_F3 Rb Rc Rd Ra 15 0x6ed9eba1 15].

Definition fr_md4_local_transform (st : md5_state) (block : list Z) : md5_state :=
  let r := foldl (md4_exec_row (md5_word block)) st md4_rows in
  Md5State (md5_a st +32 md5_a r)%cw (md5_b st +32 md5_b r)%cw
           (md5_c st +32 md5_c r)%cw (md5_d st +32 md5_d r)%cw.

(** ** Contexts *)

(** The buffer is left as it is. *)
Definition fr_md4_local_ctx_reset (ctx : fr_md4_ctx_local_t) : fr_md4_ctx_local_t :=
  Md4Ctx (Md5State 0x67452301 0xefcdab89 0x98badcfe 0x10325476) (0, 0) (md4_buf ctx).

(** A [memcpy] of the whole context. *)
Definition fr_md4_local_ctx_copy (dst src : fr_md4_ctx_local_t) : fr_md4_ctx_local_t := src.

(** [talloc] leaves the memory uninitialised, [garbage]. *)
Definition fr_md4_local_ctx_alloc (garbage : fr_md4_ctx_local_t) : fr_md4_ctx_local_t :=
  fr_md4_local_ctx_reset garbage.

(** ** Update and final *)

(** [while (inlen >= MD4_BLOCK_LENGTH) { ... }]: the state, the buffer and the input left. *)
Fixpoint md4_blocks (fuel : nat) (st : md5_state) (buf inp : list Z) : md5_state * list Z * list Z :=
  match fuel with
  | O => (st, buf, inp)
  | S fuel' =>
      if decide (64 <= length inp)%nat then
        let buf := list_inserts 0 (take 64 inp) buf in
        md4_blocks fuel' (fr_md4_local_transform st buf) buf (drop 64 inp)
      else (st, buf, inp)
  end.

(** The bit counter, with the carry test against [(uint32_t)inlen]. *)
Definition md4_count (cnt : Z * Z) (inlen : Z) : Z * Z :=
  (let c0 := cnt.1 +32 shl32 (u32 inlen) 3 in
   let c1 := if decide (c0 < u32 inlen) then cnt.2 +32 1 else cnt.2 in
   (c0, c1 +32 shr32 (u32 inlen) 29))%cw.

(** [in == NULL] is the empty input. *)
Definition fr_md4_local_update (ctx : fr_md4_ctx_local_t) (inp : list Z) : fr_md4_ctx_local_t :=
  let have := Z.to_nat (Z.land (shr32 (md4_cnt ctx).1 3) 0x3f) in
  let cnt := md4_count (md4_cnt ctx) (Z.of_nat (length inp)) in
  let need := (64 - have)%nat in
  if decide (have <> 0%nat /\ (length inp < need)%nat) then
    Md4Ctx (md4_st ctx) cnt (list_inserts have inp (md4_buf ctx))
  else
    let '(st, buf, inp) :=
      if decide (have <> 0%nat) then
        let buf := list_inserts have (take need inp) (md4_buf ctx) in
        (fr_md4_local_transform (md4_st ctx) buf, buf, drop need inp)
      else (md4_st ctx, md4_buf ctx, inp) in
    let '(st, buf, inp) := md4_blocks (length inp) st buf inp in
    Md4Ctx st cnt (list_inserts 0 inp buf).

(** The digest, and the zeroed context left behind. *)
Definition fr_md4_local_final (ctx : fr_md4_ctx_local_t) : list Z * fr_md4_ctx_local_t :=
  let have := Z.to_nat (Z.land (shr32 (md4_cnt ctx).1 3) 0x3f) in
  let buf := list_inserts have [0x80] (md4_buf ctx) in
  let p := (have + 1)%nat in
  let count := (64 - 1 - have)%nat in
  let '(st, buf) :=
    if decide (count < 8)%nat then
      let buf := list_inserts p (replicate count 0) buf in
      (fr_md4_local_transform (md4_st ctx) buf, list_inserts 0 (replicate 56 0) buf)
    else (md4_st ctx, list_inserts p (replicate (count - 8) 0) buf) in
  let buf := list_inserts 56 (PUT_32BIT_LE (md4_cnt ctx).1) buf in
  let buf := list_inserts 60 (PUT_32BIT_LE (md4_cnt ctx).2) buf in
  let st := fr_md4_local_transform st buf in
  (PUT_32BIT_LE (md5_a st) ++ PUT_32BIT_LE (md5_b st) ++
   PUT_32BIT_LE (md5_c st) ++ PUT_32BIT_LE (md5_d st),
   Md4Ctx (Md5State 0 0 0 0) (0, 0) (replicate 64 0)).

(** The function pointers as they are initialised. *)
#[export] Instance md4_local_api : DigestApi fr_md4_ctx_local_t := {
  dg_alloc := fr_md4_local_ctx_alloc (Md4Ctx (Md5State 0 0 0 0) (0, 0) (replicate 64 0));
  dg_reset := fr_md4_local_ctx_reset;
  dg_update := fr_md4_local_update;
  dg_final := fr_md4_local_final
}.

Definition fr_md4_calc `{DigestApi ctx} (inp : list Z) : list Z :=
  (dg_final (dg_update dg_alloc inp)).1.

(** ** The reference: RFC 1320 *)

Definition RFC1320_G (x y z : Z) : Z := Z.lor (Z.land x y) (Z.lor (Z.land x z) (Z.land y z)).

Definition rfc1320_table : list ((Z -> Z -> Z -> Z) * nat * Z * Z) :=
  [(RFC_F, 0%nat, 3, 0); (RFC_F, 1%nat, 7, 0);
   (RFC_F, 2%nat, 11, 0); (RFC_F, 3%nat, 19, 0);
   (RFC_F, 4%nat, 3, 0); (RFC_F, 5%nat, 7, 0);
   (RFC_F, 6%nat, 11, 0); (RFC_F, 7%nat, 19, 0);
   (RFC_F, 8%nat, 3, 0); (RFC_F, 9%nat, 7, 0);
   (RFC_F, 10%nat, 11, 0); (RFC_F, 11%nat, 19, 0);
   (RFC_F, 12%nat, 3, 0); (RFC_F, 13%nat, 7, 0);
   (RFC_F, 14%nat, 11, 0); (RFC_F, 15%nat, 19, 0);
   (RFC1320_G, 0%nat, 3, 0x5a827999); (RFC1320_G, 4%nat, 5, 0x5a827999);
   (RFC1320_G, 8%nat, 9, 0x5a827999); (RFC1320_G, 12%nat, 13, 0x5a827999);
   (RFC1320_G, 1%nat, 3, 0x5a827999); (RFC1320_G, 5%nat, 5, 0x5a827999);
   (RFC1320_G, 9%nat, 9, 0x5a827999); (RFC1320_G, 13%nat, 13, 0x5a827999);
   (RFC1320_G, 2%nat, 3, 0x5a827999); (RFC1320_G, 6%nat, 5, 0x5a827999);
   (RFC1320_G, 10%nat, 9, 0x5a827999); (RFC1320_G, 14%nat, 13, 0x5a827999);
   (RFC1320_G, 3%nat, 3, 0x5a827999); (RFC1320_G, 7%nat, 5, 0x5a827999);
   (RFC1320_G, 11%nat, 9, 0x5a827999); (RFC1320_G, 15%nat, 13, 0x5a827999);
   (RFC_H, 0%nat, 3, 0x6ed9eba1); (RFC_H, 8%nat, 9, 0x6ed9eba1);
   (RFC_H, 4%nat, 11, 0x6ed9eba1); (RFC_H, 12%nat, 15, 0x6ed9eba1);
   (RFC_H, 2%nat, 3, 0x6ed9eba1); (RFC_H, 10%nat, 9, 0x6ed9eba1);
   (RFC_H, 6%nat, 11, 0x6ed9eba1); (RFC_H, 14%nat, 15, 0x6ed9eba1);
   (RFC_H, 1%nat, 3, 0x6ed9eba1); (RFC_H, 9%nat, 9, 0x6ed9eba1);
   (RFC_H, 5%nat, 11, 0x6ed9eba1); (RFC_H, 13%nat, 15, 0x6ed9eba1);
   (RFC_H, 3%nat, 3, 0x6ed9eba1); (RFC_H, 11%nat, 9, 0x6ed9eba1);
   (RFC_H, 7%nat, 11, 0x6ed9eba1); (RFC_H, 15%nat, 15, 0x6ed9eba1)].

(** [a = (a + f(b,c,d) + X[k] + t) <<< s], then the letters rotate. *)
Fixpoint rfc1320_rounds (X : nat -> Z) (rows : list ((Z -> Z -> Z -> Z) * nat * Z * Z))
    (a b c d : Z) : md5_state :=
  match rows with
  | [] => Md5State a b c d
  | (f, k, s, t) :: rows' =>
      rfc1320_rounds X rows' d (rfc_rotl (u32 (a + f b c d + X k + t)) s) b c
  end.

Definition rfc1320_compress (st : md5_state) (block : list Z) : md5_state :=
  let r := rfc1320_rounds (md5_word block) rfc1320_table
             (md5_a st) (md5_b st) (md5_c st) (md5_d st) in
  Md5State (u32 (md5_a st + md5_a r)) (u32 (md5_b st + md5_b r))
           (u32 (md5_c st + md5_c r)) (u32 (md5_d st + md5_d r)).

Definition md4_spec (d : list Z) : list Z :=
  let st := md_absorb rfc1320_compress md5_init_state (md_pad rfc_len64 d) in
  PUT_32BIT_LE (md5_a st) ++ PUT_32BIT_LE (md5_b st) ++
  PUT_32BIT_LE (md5_c st) ++ PUT_32BIT_LE (md5_d st).

(** ** The unrolled compression function is the reference *)

Lemma MD4_F2_rfc x y z : MD4_F2 x y z = RFC1320_G x y z.
Proof. unfold MD4_F2, RFC1320_G. by rewrite Z.lor_assoc. Qed.

Lemma word_ok_rotl w s : word_ok w -> 0 < s < 32 -> word_ok (rfc_rotl w s).
Proof.
  unfold word_ok. intros Hw Hs. apply lor_range; [lia|apply u32_range|]. unfold shr32.
  rewrite Z.shiftr_div_pow2 by lia. assert (0 < 2 ^ (32 - s)) by (apply Z.pow_pos_nonneg; lia).
  split; [apply Z.div_pos; lia|]. apply Z.div_lt_upper_bound; [lia|]. nia.
Qed.

Lemma MD4STEP_rfc f g w x y z X t s :
  fun_agree f g -> word_ok x -> word_ok y -> word_ok z ->
  MD4STEP f w x y z (X +32 t)%cw s = rfc_rotl (u32 (w + g x y z + X + t)) s.
Proof.
  intros Hfg Hx Hy Hz. unfold MD4STEP, rfc_rotl. rewrite (Hfg x y z) by done.
  rewrite (u32_add_r (g x y z)), u32_add_r.
  by replace (w + (g x y z + (X + t))) with (w + g x y z + X + t) by lia.
Qed.

Lemma word_ok_MD4STEP f w x y z data s : 0 < s < 32 -> word_ok (MD4STEP f w x y z data s).
Proof. intros Hs. apply word_ok_rotl; [apply word_ok_u32|done]. Qed.

Definition shifts_ok (rows : list md5_row) : Prop := Forall (fun r => 0 < row_s r < 32) rows.

Lemma md4_exec_quad X rows tbl st :
  quad rows tbl -> shifts_ok rows -> state_ok st ->
  foldl (md4_exec_row X) st rows =
    rfc1320_rounds X tbl (md5_a st) (md5_b st) (md5_c st) (md5_d st).
Proof.
  intros Hq. revert st. induction Hq as [|f g k1 k2 k3 k4 t1 t2 t3 t4 s1 s2 s3 s4 rows tbl Hfg Hq IH];
    intros [a b c d] Hs Hst; [done|].
  destruct Hst as (Ha & Hb & Hc & Hd). cbn [md5_a md5_b md5_c md5_d] in *.
  do 4 (apply Forall_cons_1 in Hs as [? Hs]). cbn [row_s] in *. cbn [foldl rfc1320_rounds].
  rewrite IH; [|done|by repeat split; cbn; apply word_ok_MD4STEP].
  cbn [md4_exec_row row_f row_w row_x row_y row_z row_k row_t row_s get_reg set_reg
    md5_a md5_b md5_c md5_d].
  by rewrite !(MD4STEP_rfc f g) by
    (done || (by apply word_ok_MD4STEP) || (apply word_ok_rotl; [apply word_ok_u32|done])).
Qed.

Lemma md4_rows_quad : quad md4_rows rfc1320_table /\ shifts_ok md4_rows.
Proof.
  split.
  - unfold md4_rows, rfc1320_table.
    repeat (apply quad_cons;
      [first [exact MD5_F1_rfc | by (intros ??????; apply MD4_F2_rfc)
             | by (intros ??????; apply MD5_F3_rfc)]|]).
    apply quad_nil.
  - unfold shifts_ok, md4_rows. repeat (apply Forall_cons_2; [simpl; lia|]). done.
Qed.

Lemma md4_transform_rfc st block :
  state_ok st ->
  fr_md4_local_transform st block = rfc1320_compress st block /\
  state_ok (rfc1320_compress st block).
Proof.
  intros Hst. split; [|by repeat split; apply word_ok_u32].
  unfold fr_md4_local_transform, rfc1320_compress. destruct md4_rows_quad as [Hq Hs].
  by rewrite (md4_exec_quad (md5_word block) _ _ st Hq Hs Hst).
Qed.

(** ** The buffered implementation computes the reference *)

Definition md4_ctx_ok (ctx : fr_md4_ctx_local_t) (d : list Z) : Prop :=
  md_buffered rfc1320_compress md5_init_state (md4_st ctx) (md4_buf ctx) d /\
  (md4_cnt ctx).1 = u32 (8 * Z.of_nat (length d)) /\
  (Z.of_nat (length d) < 2 ^ 29 -> (md4_cnt ctx).2 = 0).

Lemma md4_absorb_state_ok st d : state_ok st -> state_ok (md_absorb rfc1320_compress st d).
Proof.
  unfold md_absorb. generalize (length d / 64)%nat. intros n. revert st d.
  induction n as [|n IH]; intros st d H; simpl; [done|].
  apply IH. by repeat split; apply word_ok_u32.
Qed.

(** Writing a whole block over the buffer. *)
Lemma inserts_block (b buf : list Z) :
  length b = 64%nat -> length buf = 64%nat -> list_inserts 0 b buf = b.
Proof.
  intros Hb Hl. rewrite <- (app_nil_r buf). rewrite list_inserts_0_r by lia. apply app_nil_r.
Qed.

Lemma md4_blocks_spec fuel : forall st buf inp,
  state_ok st -> length buf = 64%nat -> (length inp / 64 <= fuel)%nat ->
  exists buf', md4_blocks fuel st buf inp = (md_absorb rfc1320_compress st inp, buf', md_rest inp) /\
    length buf' = 64%nat.
Proof.
  induction fuel as [|fuel IH]; intros st buf inp Hst Hl Hf; simpl.
  - exists buf. destruct (md_absorb_small rfc1320_compress st inp) as [-> ->]; [|done].
    assert (length inp / 64 = 0)%nat as H by lia. apply Nat.div_small_iff in H; lia.
  - case_decide as Hi.
    + assert (Lt : length (take 64 inp) = 64%nat) by (rewrite length_take; lia).
      rewrite inserts_block by done.
      destruct (md4_transform_rfc st (take 64 inp) Hst) as [-> Hst'].
      assert (Hd : (length inp / 64 = S (length (drop 64 inp) / 64))%nat).
      { rewrite length_drop. replace (length inp) with (length inp - 64 + 1 * 64)%nat at 1 by lia.
        rewrite Nat.div_add by lia. lia. }
      destruct (IH (rfc1320_compress st (take 64 inp)) (take 64 inp) (drop 64 inp))
        as (buf' & -> & Hl'); [done|done|lia|].
      exists buf'. split; [|done].
      destruct (md_absorb_block rfc1320_compress st (take 64 inp) (drop 64 inp) Lt) as [HA HR].
      by rewrite take_drop in HA, HR; rewrite <- HA, <- HR.
    + exists buf. by destruct (md_absorb_small rfc1320_compress st inp) as [-> ->]; [lia|].
Qed.

Lemma md4_update_ok ctx d x :
  md4_ctx_ok ctx d -> md4_ctx_ok (fr_md4_local_update ctx x) (d ++ x).
Proof.
  intros (Hb & Hc & Hc2). unfold fr_md4_local_update. change 0x3f with (64 - 1).
  rewrite Hc, md_have, Nat2Z.id.
  destruct (md5_count_spec (md4_cnt ctx) (Z.of_nat (length d)) (Z.of_nat (length x)) Hc)
    as [Hk1 Hk2]; [lia..|]. change md5_count with md4_count in Hk1, Hk2.
  rewrite <- Nat2Z.inj_add, <- length_app in Hk1, Hk2.
  assert (Hk : forall st buf, md_buffered rfc1320_compress md5_init_state st buf (d ++ x) ->
    md4_ctx_ok (Md4Ctx st (md4_count (md4_cnt ctx) (Z.of_nat (length x))) buf) (d ++ x)).
  { intros st buf Hbuf. split; [done|]. split; [done|]. intros Hl. apply Hk2; [done|].
    apply Hc2. rewrite length_app in Hl. lia. }
  assert (Hlen : length (md4_buf ctx) = 64%nat) by apply Hb.
  assert (Hst : state_ok (md4_st ctx))
    by (rewrite (proj1 Hb); apply md4_absorb_state_ok; repeat split; simpl; lia).
  cbv zeta. case_decide as Hs.
  { apply Hk, md_buffered_small; [done|]. lia. }
  case_decide as H0; cbv iota beta.
  - assert (Hn : (64 - length d mod 64 <= length x)%nat) by lia.
    destruct (md_buffered_fill _ _ _ _ _ x Hb Hn) as (Hl1 & HA & HR).
    destruct (md4_transform_rfc (md4_st ctx) (list_inserts (length d mod 64)
      (take (64 - length d mod 64) x) (md4_buf ctx)) Hst) as [-> Hst'].
    match goal with |- context [md4_blocks ?f ?st ?b ?i] =>
      destruct (md4_blocks_spec f st b i) as (buf' & -> & Hl') end;
      [done|done|apply Nat.Div0.div_le_upper_bound; lia|].
    rewrite <- HA, <- HR. by apply Hk, md_buffered_tail.
  - assert (H0' : (length d mod 64 = 0)%nat) by lia.
    destruct (md4_blocks_spec (length x) (md4_st ctx) (md4_buf ctx) x) as (buf' & -> & Hl');
      [done|done|apply Nat.Div0.div_le_upper_bound; lia|].
    destruct (md_buffered_aligned _ _ _ _ _ x Hb H0') as [<- <-].
    by apply Hk, md_buffered_tail.
Qed.

(** A write in the middle of a buffer whose beginning is known. *)
Lemma inserts_after (a l buf : list Z) (n : nat) :
  length a = n -> (n + length l <= length buf)%nat -> take n buf = a ->
  take (n + length l) (list_inserts n l buf) = a ++ l /\ length (list_inserts n l buf) = length buf.
Proof.
  intros Ha Hl Ht. split; [|apply length_inserts].
  rewrite <- (take_drop n buf), Ht. subst n. rewrite <- (Nat.add_0_r (length a)) at 2.
  rewrite list_inserts_app_r. rewrite take_app_add. f_equal.
  rewrite <- (take_drop (length l) (drop (length a) buf)), list_inserts_0_r;
    [by rewrite take_app_length|]. rewrite length_take, length_drop. lia.
Qed.

(** The buffer with the whole padding in it: one block or two. *)
Lemma md4_padding (rest lo hi buf : list Z) (h := length rest) :
  (h < 64)%nat -> length buf = 64%nat -> take h buf = rest -> length lo = 4%nat -> length hi = 4%nat ->
  let finish buf := list_inserts 60 hi (list_inserts 56 lo buf) in
  let buf := list_inserts h [128] buf in
  ((64 - 1 - h < 8)%nat ->
     list_inserts (h + 1) (replicate (64 - 1 - h) 0) buf = rest ++ 128 :: replicate (63 - h) 0 /\
     finish (list_inserts 0 (replicate 56 0) (list_inserts (h + 1) (replicate (64 - 1 - h) 0) buf)) =
       replicate 56 0 ++ lo ++ hi) /\
  ((8 <= 64 - 1 - h)%nat ->
     finish (list_inserts (h + 1) (replicate (64 - 1 - h - 8) 0) buf) =
       rest ++ 128 :: replicate (55 - h) 0 ++ lo ++ hi).
Proof.
  intros Hh Hl Ht Hlo Hhi finish buf1.
  destruct (inserts_after rest [128] buf h) as [E1 L1]; [done|simpl; lia|done|]. cbn [length] in E1.
  fold buf1 in E1, L1.
  assert (Hfin : forall b a, length b = 64%nat -> take 56 b = a -> finish b = a ++ lo ++ hi).
  { intros b a Hb Ha.
    destruct (inserts_after a lo b 56) as [E2 L2]; [rewrite <- Ha, length_take; lia|lia|done|].
    rewrite Hlo in E2. change (56 + 4)%nat with 60%nat in E2.
    destruct (inserts_after (a ++ lo) hi (list_inserts 56 lo b) 60) as [E3 L3];
      [rewrite <- E2, length_take; lia|lia|done|].
    unfold finish. rewrite app_assoc, <- E3. symmetry. apply take_ge. lia. }
  assert (H1 : length (rest ++ [128]) = (h + 1)%nat) by (rewrite length_app; done).
  split; intros Hc.
  - destruct (inserts_after (rest ++ [128]) (replicate (64 - 1 - h) 0) buf1 (h + 1)) as [E2 L2];
      [done|rewrite length_replicate; lia|done|].
    rewrite length_replicate in E2. split.
    + rewrite take_ge in E2 by lia. rewrite E2, <- app_assoc. done.
    + apply Hfin; [rewrite length_inserts; lia|].
      destruct (inserts_after [] (replicate 56 0) (list_inserts (h + 1) (replicate (64 - 1 - h) 0) buf1) 0)
        as [E3 _]; [done|rewrite length_replicate; lia|done|]. exact E3.
  - destruct (inserts_after (rest ++ [128]) (replicate (64 - 1 - h - 8) 0) buf1 (h + 1)) as [E2 L2];
      [done|rewrite length_replicate; lia|done|].
    rewrite length_replicate in E2. replace (h + 1 + (64 - 1 - h - 8))%nat with 56%nat in E2 by lia.
    rewrite (Hfin _ _ (eq_trans L2 (eq_trans L1 Hl)) E2), <- !app_assoc. cbn [app].
    by replace (64 - 1 - h - 8)%nat with (55 - h)%nat by lia.
Qed.

Lemma md4_final_ok ctx d :
  md4_ctx_ok ctx d -> Z.of_nat (length d) < 2 ^ 29 ->
  (fr_md4_local_final ctx).1 = md4_spec d.
Proof.
  intros (Hb & Hc & Hc2) Hl. destruct Hb as (Hst & Hlen & Hr).
  pose proof (length_md_rest d) as Lr.
  assert (Hh : (length d mod 64 < 64)%nat) by (apply Nat.mod_upper_bound; lia).
  unfold fr_md4_local_final. change 0x3f with (64 - 1). rewrite Hc, md_have, Nat2Z.id. cbv zeta.
  assert (E : PUT_32BIT_LE (md4_cnt ctx).1 ++ PUT_32BIT_LE (md4_cnt ctx).2 =
    rfc_len64 (8 * Z.of_nat (length d))).
  { unfold rfc_len64. rewrite Hc, (Hc2 Hl). f_equal. f_equal.
    rewrite Z.shiftr_div_pow2, Z.div_small by lia. done. }
  rewrite <- Hc.
  destruct (md4_padding (md_rest d) (PUT_32BIT_LE (md4_cnt ctx).1) (PUT_32BIT_LE (md4_cnt ctx).2)
    (md4_buf ctx)) as [Htwo Hone]; try done; try (rewrite Lr; done).
  rewrite Lr in Htwo, Hone. rewrite E in Htwo, Hone.
  assert (Hok : state_ok (md4_st ctx))
    by (rewrite Hst; apply md4_absorb_state_ok; repeat split; simpl; lia).
  unfold md4_spec, md_pad. set (h := (length d mod 64)%nat) in *.
  set (len := rfc_len64 (8 * Z.of_nat (length d))) in *.
  assert (Llen : length len = 8%nat) by done.
  match goal with |- context [md_absorb rfc1320_compress md5_init_state (d ++ ?x)] =>
    destruct (md_absorb_rest rfc1320_compress md5_init_state d x) as [-> _] end.
  rewrite <- Hst.
  assert (Hblock : forall st b, length b = 64%nat -> md_absorb rfc1320_compress st b = rfc1320_compress st b).
  { intros st b Lb. rewrite <- (app_nil_r b) at 1.
    by destruct (md_absorb_block rfc1320_compress st b [] Lb) as [-> _]. }
  case_decide as Hcase; cbv iota beta.
  - destruct (Htwo Hcase) as [E1 E2]. rewrite E1 in E2. rewrite E1, E2.
    destruct (md4_transform_rfc (md4_st ctx) (md_rest d ++ 128 :: replicate (63 - h) 0) Hok) as [-> Hok'].
    destruct (md4_transform_rfc _ (replicate 56 0 ++ len) Hok') as [-> _].
    replace ((119 - h) mod 64)%nat with (63 - h + 56)%nat by (rewrite Nat.mod_small; lia).
    assert (Hsplit : md_rest d ++ 128 :: replicate (63 - h + 56) 0 ++ len =
      (md_rest d ++ 128 :: replicate (63 - h) 0) ++ replicate 56 0 ++ len)
      by (rewrite replicate_add, <- !app_assoc; done).
    rewrite Hsplit.
    destruct (md_absorb_block rfc1320_compress (md4_st ctx) (md_rest d ++ 128 :: replicate (63 - h) 0)
      (replicate 56 0 ++ len)) as [-> _].
    { rewrite length_app. cbn [length]. rewrite length_replicate. lia. }
    rewrite Hblock by (rewrite length_app, length_replicate; lia). done.
  - rewrite (Hone ltac:(lia)).
    destruct (md4_transform_rfc (md4_st ctx) (md_rest d ++ 128 :: replicate (55 - h) 0 ++ len) Hok) as [-> _].
    replace ((119 - h) mod 64)%nat with (55 - h)%nat; cycle 1.
    { replace (119 - h)%nat with (55 - h + 1 * 64)%nat by lia.
      rewrite Nat.Div0.mod_add, Nat.mod_small by lia. done. }
    rewrite Hblock; [done|]. rewrite length_app. cbn [length].
    rewrite length_app, length_replicate. lia.
Qed.

(** Finishing clears the context, so that resetting it starts afresh. *)
Lemma md4_reset_final ctx : md4_ctx_ok (fr_md4_local_ctx_reset (fr_md4_local_final ctx).2) [].
Proof. unfold fr_md4_local_final. cbv zeta. by case_decide. Qed.

#[export] Instance md4_local_laws : DigestLaws fr_md4_ctx_local_t md4_spec 16.
Proof.
  refine {| dg_limit := 2 ^ 29;
            dg_absorbed c d := md4_ctx_ok c d /\ Z.of_nat (length d) < 2 ^ 29 |}.
  - by split.
  - intros c d _. split; [apply md4_reset_final|done].
  - intros c d x [Hc _] Hl. split; [by apply md4_update_ok|done].
  - intros c d [Hc Hl]. by apply md4_final_ok.
  - done.
  - intros d. unfold md4_spec. repeat apply bytes_ok_app; apply bytes_PUT_32BIT_LE.
Defined.

(** ** Properties *)

(** C28: feeding the local MD4 implementation a message in any number of pieces and finishing
    gives the RFC 1320 digest of the whole message, as long as it is shorter than 2^29
    bytes, whatever the buffer of the context held before (resetting does not clear it). *)
Theorem md4_local_streaming (ctx : fr_md4_ctx_local_t) (chunks : list (list Z)) :
  length (md4_buf ctx) = 64%nat -> Z.of_nat (length (concat chunks)) < 2 ^ 29 ->
  (fr_md4_local_final (foldl fr_md4_local_update (fr_md4_local_ctx_reset ctx) chunks)).1
  = md4_spec (concat chunks).
Proof.
  intros Hb Hl.
  refine (dg_final_spec (digest := md4_spec) (digest_len := 16)
    (dg_updates (fr_md4_local_ctx_reset ctx) chunks) (concat chunks) _).
  apply (dg_updates_spec (digest := md4_spec) (digest_len := 16) (fr_md4_local_ctx_reset ctx) []);
    [|done]. split; [|done]. by split.
Qed.

Lemma md4_local_streaming_witness :
  (fr_md4_local_final
     (foldl fr_md4_local_update
        (fr_md4_local_ctx_reset (Md4Ctx (Md5State 0 0 0 0) (0, 0) (replicate 64 0xaa)))
        [[97]; [98; 99]])).1
  = [0xa4; 0x48; 0x01; 0x7a; 0xaf; 0x21; 0xd8; 0x52;
     0x5f; 0xc1; 0x0a; 0xe8; 0x7a; 0xa6; 0x72; 0x9d].
Proof.
  etransitivity; [apply md4_local_streaming; [done|simpl; lia]|].
  vm_compute. reflexivity.
Defined.
