(* ===== verification/Md5Pool.v ===== *)
(** * The per-thread pool of MD5 contexts: [lib/util/md5.c]

    [fr_md5_ctx_alloc_from_list] hands out one of eight preallocated contexts, or a new
    one when all are in use; [fr_md5_ctx_free_from_list] takes it back.  Contexts live
    in a store indexed by pointer; [NULL] is 0. *)
From S2P Require Import Prelude Bytes BlockHash Md5.

Definition ARRAY_SIZE : nat := 8.

(** One [fr_md5_free_list_t]. *)
Record fr_md5_free_list_t := FreeList { used : bool; md_ctx : Z }.

(** The contexts allocated, the next free address, how many more allocations will
    succeed, and the thread's [md5_array]. *)
Record pool := Pool {
  store : gmap Z fr_md5_ctx_local_t;
  fresh : Z;
  budget : nat;
  md5_array : option (list fr_md5_free_list_t)
}.

(** What a reset context holds. *)
Definition reset_ctx : fr_md5_ctx_local_t :=
  fr_md5_local_ctx_reset (Md5Ctx (Md5State 0 0 0 0) (0, 0) []).

(** [fr_md5_ctx_alloc]: a pointer, [0] when out of memory. *)
Definition fr_md5_ctx_alloc (s : pool) : Z * pool :=
  match budget s with
  | O => (0, s)
  | S n => (fresh s, Pool (<[fresh s := reset_ctx]> (store s)) (fresh s + 1) n (md5_array s))
  end.

(** [for (i = 0; i < ARRAY_SIZE; i++) { md_ctx = fr_md5_ctx_alloc(); ... }] from [i],
    [n] turns left; the array is already the thread's.  [false] is [goto oom]. *)
Fixpoint init_loop (n i : nat) (s : pool) : bool * pool :=
  match n with
  | O => (true, s)
  | S n' =>
      let '(p, s) := fr_md5_ctx_alloc s in
      if decide (p = 0) then (false, s)
      else init_loop n' (S i)
             (Pool (store s) (fresh s) (budget s)
                   (alter (fun e => FreeList (used e) p) i <$> md5_array s))
  end.

(** The first entry not in use. *)
Fixpoint find_unused (l : list fr_md5_free_list_t) : option nat :=
  match l with
  | [] => None
  | e :: l' => if used e then S <$> find_unused l' else Some 0%nat
  end.

(** The context returned, [0] for [NULL]. *)
Definition fr_md5_ctx_alloc_from_list (s : pool) : Z * pool :=
  let '(ok, s) :=
    match md5_array s with
    | Some _ => (true, s)
    | None =>
        match budget s with
        | O => (false, s)
        | S n => init_loop ARRAY_SIZE 0
                   (Pool (store s) (fresh s) n (Some (replicate ARRAY_SIZE (FreeList false 0))))
        end
    end in
  if negb ok then (0, s)
  else
    let free_list := default [] (md5_array s) in
    match find_unused free_list with
    | Some i =>
        (from_option md_ctx 0 (free_list !! i),
         Pool (store s) (fresh s) (budget s)
              (Some (alter (fun e => FreeList true (md_ctx e)) i free_list)))
    | None => fr_md5_ctx_alloc s
    end.

(** What freeing a context does. *)
Inductive free_effect :=
  | Returned (s : pool)                  (** back in the pool *)
  | Wild_free (address : Z) (s : pool)   (** [talloc_free(address)] *)
  | Null_read.

(** The entry of a context. *)
Fixpoint find_entry (p : Z) (l : list fr_md5_free_list_t) : option nat :=
  match l with
  | [] => None
  | e :: l' => if decide (md_ctx e = p) then Some 0%nat else S <$> find_entry p l'
  end.

(** The first two words of a context, read as a 64-bit little-endian pointer. *)
Definition first_pointer (c : fr_md5_ctx_local_t) : Z :=
  md5_a (state c) + 2 ^ 32 * md5_b (state c).

(** [fr_md5_ctx_free_from_list(&p)].  A context that is not in the array is freed with
    [fr_md5_ctx_free( *ctx)]: that function takes the address of a pointer, so it
    frees what the first eight bytes of the context point to and clears them. *)
Definition fr_md5_ctx_free_from_list (p : Z) (s : pool) : free_effect :=
  match md5_array s ≫= find_entry p with
  | Some i =>
      Returned (Pool (alter fr_md5_local_ctx_reset p (store s)) (fresh s) (budget s)
                     (alter (fun e => FreeList false (md_ctx e)) i <$> md5_array s))
  | None =>
      match store s !! p with
      | None => Null_read
      | Some c =>
          let '(Md5State _ _ c2 d) := state c in
          Wild_free (first_pointer c)
            (Pool (<[p := Md5Ctx (Md5State 0 0 c2 d) (count c) (buffer c)]> (store s))
                  (fresh s) (budget s) (md5_array s))
      end
  end.

(** [_md5_ctx_free_on_exit]: the contexts freed when the thread ends. *)
Definition _md5_ctx_free_on_exit (s : pool) : list Z :=
  map md_ctx (filter (fun e => used e = false) (default [] (md5_array s))).

(** ** Clients *)

(** A thread that allocates contexts, feeds them data, and returns contexts of the
    array; [held] are the contexts it has. *)
Inductive pool_step : pool * gset Z -> pool * gset Z -> Prop :=
| step_alloc s s' p held :
    fr_md5_ctx_alloc_from_list s = (p, s') -> p <> 0 ->
    pool_step (s, held) (s', {[p]} ∪ held)
| step_update s p x held :
    p ∈ held ->
    pool_step (s, held)
      (Pool (alter (fun c => fr_md5_local_update c x) p (store s)) (fresh s) (budget s)
            (md5_array s), held)
| step_free s s' p held :
    p ∈ held -> fr_md5_ctx_free_from_list p s = Returned s' ->
    pool_step (s, held) (s', held ∖ {[p]}).

(** A thread that has not used the pool yet. *)
Definition pool_start (n : nat) : pool := Pool ∅ 1 n None.


(** ** The invariant *)

Definition entry_ok (s : pool) (held : gset Z) (e : fr_md5_free_list_t) : Prop :=
  0 < md_ctx e < fresh s /\
  (if used e then md_ctx e ∈ held
   else (md_ctx e ∉ held) /\ store s !! md_ctx e = Some reset_ctx).

Definition pool_ok (st : pool * gset Z) : Prop :=
  let '(s, held) := st in
  0 < fresh s /\ (forall p, p ∈ held -> 0 < p < fresh s /\ is_Some (store s !! p)) /\
  match md5_array s with
  | None => held = ∅ /\ (ARRAY_SIZE < budget s)%nat
  | Some l => length l = ARRAY_SIZE /\ NoDup (md_ctx <$> l) /\ Forall (entry_ok s held) l
  end.

Lemma init_loop_spec n i s l :
  md5_array s = Some l -> length l = (i + n)%nat -> (n <= budget s)%nat -> 0 < fresh s ->
  exists s' l', init_loop n i s = (true, s') /\ md5_array s' = Some l' /\ length l' = (i + n)%nat /\
    fresh s' = fresh s + Z.of_nat n /\
    (forall j, (j < i)%nat -> l' !! j = l !! j) /\
    (forall j e, (i <= j)%nat -> l !! j = Some e ->
      l' !! j = Some (FreeList (used e) (fresh s + Z.of_nat (j - i)))) /\
    (forall p, fresh s <= p < fresh s + Z.of_nat n -> store s' !! p = Some reset_ctx) /\
    (forall p, p < fresh s -> store s' !! p = store s !! p).
Proof.
  revert i s l. induction n as [|n IH]; intros i s l Hl Hlen Hb Hf.
  { exists s, l. split; [done|]. split; [done|]. split; [done|]. split; [lia|].
    split; [done|]. split; [|split; [lia|done]].
    intros j e Hj He. pose proof (lookup_lt_Some _ _ _ He). lia. }
  cbn [init_loop]. unfold fr_md5_ctx_alloc. destruct (budget s) as [|b] eqn:Eb; [lia|].
  cbn [store fresh budget md5_array]. rewrite decide_False by lia. rewrite Hl. cbn [fmap option_fmap option_map].
  set (s1 := Pool _ _ _ _). set (l1 := alter _ i l) in s1.
  destruct (IH (S i) s1 l1) as (s' & l' & E & Ha & Hlen' & Hf' & Hlt & Hge & Hnew & Hold).
  - done.
  - unfold l1. rewrite length_alter. lia.
  - cbn. lia.
  - cbn. lia.
  - exists s', l'. cbn [fresh store s1] in *. split; [done|]. split; [done|]. split; [lia|].
    split; [lia|]. split; [|split; [|split]].
    + intros j Hj. rewrite Hlt by lia. unfold l1. by rewrite list_lookup_alter_ne by lia.
    + intros j e Hj He. destruct (decide (j = i)) as [->|].
      * rewrite Hlt by lia. unfold l1. rewrite list_lookup_alter_eq, He. cbn. do 2 f_equal. lia.
      * rewrite (Hge j e) by (lia || (unfold l1; by rewrite list_lookup_alter_ne)).
        do 2 f_equal. lia.
    + intros p Hp. destruct (decide (p = fresh s)) as [->|].
      * rewrite Hold by lia. apply lookup_insert_eq.
      * apply Hnew. lia.
    + intros p Hp. rewrite Hold by lia. by apply lookup_insert_ne; lia.
Qed.

Lemma find_unused_Some l i :
  find_unused l = Some i -> exists e, l !! i = Some e /\ used e = false.
Proof.
  revert i. induction l as [|e l IH]; intros i E; [done|]. cbn in E.
  destruct (used e) eqn:Eu; [|injection E as <-; by exists e].
  destruct (find_unused l) as [j|]; [|done]. injection E as <-. by apply IH.
Qed.

Lemma find_entry_Some p l i :
  find_entry p l = Some i -> exists e, l !! i = Some e /\ md_ctx e = p.
Proof.
  revert i. induction l as [|e l IH]; intros i E; [done|]. cbn in E.
  case_decide; [injection E as <-; by exists e|].
  destruct (find_entry p l) as [j|]; [|done]. injection E as <-. by apply IH.
Qed.

Lemma md_ctx_alter (u : bool) (i : nat) (l : list fr_md5_free_list_t) :
  md_ctx <$> alter (fun e => FreeList u (md_ctx e)) i l = md_ctx <$> l.
Proof.
  apply list_eq. intros j. rewrite !list_lookup_fmap.
  destruct (decide (i = j)) as [->|].
  - rewrite list_lookup_alter_eq. by destruct (l !! j).
  - by rewrite list_lookup_alter_ne.
Qed.

(** Distinct entries have distinct contexts. *)
Lemma entry_distinct (l : list fr_md5_free_list_t) i j e e' :
  NoDup (md_ctx <$> l) -> l !! i = Some e -> l !! j = Some e' -> i <> j -> md_ctx e <> md_ctx e'.
Proof.
  intros Hn Hi Hj Hij E. apply Hij. eapply NoDup_lookup; [exact Hn| |].
  - rewrite list_lookup_fmap, Hi. done.
  - rewrite list_lookup_fmap, Hj. cbn. by rewrite E.
Qed.

(** The array after the preallocation: eight distinct reset contexts. *)
Lemma pool_init_ok s :
  0 < fresh s -> md5_array s = None -> (ARRAY_SIZE < budget s)%nat ->
  exists b s', budget s = S b /\
    init_loop ARRAY_SIZE 0 (Pool (store s) (fresh s) b
      (Some (replicate ARRAY_SIZE (FreeList false 0)))) = (true, s') /\
    exists l, md5_array s' = Some l /\ pool_ok (s', ∅).
Proof.
  intros Hf Ha Hb. destruct (budget s) as [|b]; [lia|].
  destruct (init_loop_spec ARRAY_SIZE 0 (Pool (store s) (fresh s) b
    (Some (replicate ARRAY_SIZE (FreeList false 0)))) (replicate ARRAY_SIZE (FreeList false 0)))
    as (s' & l & E & Hl & Hlen & Hf' & _ & Hge & Hnew & _); [done|done|cbn; lia|done|].
  exists b, s'. split; [done|]. split; [done|]. exists l. split; [done|]. cbn [fresh] in *.
  assert (He : forall j e, l !! j = Some e -> e = FreeList false (fresh s + Z.of_nat j)).
  { intros j e Hj. pose proof (lookup_lt_Some _ _ _ Hj) as Hlt.
    assert (Hr : replicate ARRAY_SIZE (FreeList false 0) !! j = Some (FreeList false 0))
      by (apply lookup_replicate_2; lia).
    rewrite (Hge j _ ltac:(lia) Hr) in Hj. injection Hj as <-. cbn. f_equal. lia. }
  unfold pool_ok. rewrite Hl. split; [lia|]. split; [intros p Hp; set_solver|].
  split; [lia|]. split.
  - apply NoDup_alt. intros i j x Hi Hj. rewrite list_lookup_fmap in Hi, Hj.
    destruct (l !! i) as [e|] eqn:Ei; [|done]. destruct (l !! j) as [e'|] eqn:Ej; [|done].
    apply He in Ei, Ej. subst. cbn in Hi, Hj. simplify_eq. lia.
  - apply Forall_lookup_2. intros j e Hj. pose proof (lookup_lt_Some _ _ _ Hj).
    rewrite (He j e Hj). split; cbn; [lia|]. split; [set_solver|]. apply Hnew. lia.
Qed.


(** Changing the flag of one entry, and a matching change of the held set and of the
    context's contents, keeps the entries well-formed. *)
Lemma entries_alter s s' held held' l i e (u : bool) :
  NoDup (md_ctx <$> l) -> Forall (entry_ok s held) l -> l !! i = Some e ->
  fresh s <= fresh s' ->
  (forall q, q <> md_ctx e -> store s' !! q = store s !! q /\ (q ∈ held' <-> q ∈ held)) ->
  entry_ok s' held' (FreeList u (md_ctx e)) ->
  Forall (entry_ok s' held') (alter (fun e => FreeList u (md_ctx e)) i l).
Proof.
  intros Hn Hf Hi Hfr Hother Hnew. apply Forall_lookup_2. intros j e' Hj.
  destruct (decide (i = j)) as [<-|Hij].
  - rewrite list_lookup_alter_eq, Hi in Hj. by injection Hj as <-.
  - rewrite list_lookup_alter_ne in Hj by done.
    assert (Hd : md_ctx e' <> md_ctx e)
      by (intros E; exact (entry_distinct l i j e e' Hn Hi Hj Hij (eq_sym E))).
    destruct (Forall_lookup_1 _ _ _ _ Hf Hj) as [Hr Hu].
    destruct (Hother _ Hd) as [Hs Hh]. unfold entry_ok.
    split; [lia|]. rewrite Hs. destruct (used e'); [by apply Hh|].
    destruct Hu as [Hu ?]. split; [|done]. intros Hin. by apply Hu, Hh.
Qed.

(** Allocating from an array that is set up. *)
Lemma alloc_ready_ok s l held p s' :
  pool_ok (s, held) -> md5_array s = Some l ->
  fr_md5_ctx_alloc_from_list s = (p, s') -> p <> 0 ->
  (p ∉ held) /\ store s' !! p = Some reset_ctx /\ pool_ok (s', {[p]} ∪ held).
Proof.
  intros (Hf & Hheld & Hl) Ha E Hp. rewrite Ha in Hl. destruct Hl as (Hlen & Hn & Hok).
  unfold fr_md5_ctx_alloc_from_list in E. rewrite Ha in E. cbn [negb default from_option] in E.
  rewrite Ha in E. cbn [from_option id] in E.
  destruct (find_unused l) as [i|] eqn:Ei.
  - apply find_unused_Some in Ei as (e & Hi & Hu). rewrite Hi in E. cbn in E.
    injection E as <- <-. destruct (Forall_lookup_1 _ _ _ _ Hok Hi) as [Hr Hun].
    rewrite Hu in Hun. destruct Hun as [Hnot Hst]. split; [done|]. split; [done|].
    unfold pool_ok. cbn [fresh store md5_array]. split; [done|]. split.
    { intros q [->%elem_of_singleton|Hq]%elem_of_union; [by rewrite Hst|by apply Hheld]. }
    split; [by rewrite length_alter|]. split; [by rewrite md_ctx_alter|].
    apply (entries_alter s _ held _ l i e); [done..|cbn; lia| |].
    + intros q Hq. cbn. split; [done|set_solver].
    + split; [done|]. cbn. set_solver.
  - unfold fr_md5_ctx_alloc in E. destruct (budget s); [by injection E as <-|].
    injection E as <- <-. split; [intros Hin; apply Hheld in Hin; lia|].
    cbn [store]. split; [apply lookup_insert_eq|].
    unfold pool_ok. cbn [fresh store md5_array]. rewrite Ha. split; [lia|]. split.
    { intros q [->%elem_of_singleton|Hq]%elem_of_union.
      - rewrite lookup_insert_eq. split; [lia|done].
      - destruct (Hheld q Hq) as [? ?]. rewrite lookup_insert_ne by lia. split; [lia|done]. }
    split; [done|]. split; [done|]. eapply list.Forall_impl; [exact Hok|]. intros e [Hr He].
    unfold entry_ok. cbn [fresh store]. rewrite lookup_insert_ne by lia. split; [lia|].
    destruct (used e); [set_solver|]. destruct He. split; [|done].
    intros [?%elem_of_singleton|?]%elem_of_union; [lia|done].
Qed.

Lemma alloc_ok s held p s' :
  pool_ok (s, held) -> fr_md5_ctx_alloc_from_list s = (p, s') -> p <> 0 ->
  (p ∉ held) /\ store s' !! p = Some reset_ctx /\ pool_ok (s', {[p]} ∪ held).
Proof.
  intros Hok E Hp. destruct (md5_array s) as [l|] eqn:Ha; [by eapply alloc_ready_ok|].
  pose proof Hok as (Hf & _ & Hl). rewrite Ha in Hl. destruct Hl as [-> Hb].
  destruct (pool_init_ok s Hf Ha Hb) as (b & s1 & Eb & Ei & l & Hl & Hok1).
  apply (alloc_ready_ok s1 l); [done..| |done].
  unfold fr_md5_ctx_alloc_from_list in *. rewrite Ha, Eb, Ei in E. rewrite Hl. exact E.
Qed.

Lemma update_ok s held p x :
  pool_ok (s, held) -> p ∈ held ->
  pool_ok (Pool (alter (fun c => fr_md5_local_update c x) p (store s)) (fresh s) (budget s)
             (md5_array s), held).
Proof.
  intros (Hf & Hheld & Hl) Hp. unfold pool_ok. cbn [fresh store md5_array budget].
  split; [done|]. split.
  { intros q Hq. destruct (Hheld q Hq) as [? [c Hc]]. split; [done|].
    destruct (decide (p = q)) as [->|]; [rewrite lookup_alter_eq, Hc; by eexists|].
    rewrite lookup_alter_ne, Hc by done. by eexists. }
  destruct (md5_array s); [|done]. destruct Hl as (? & ? & Hok). split; [done|]. split; [done|].
  eapply list.Forall_impl; [exact Hok|]. intros e [Hr He]. split; [done|].
  destruct (used e); [done|]. destruct He. split; [done|]. cbn.
  rewrite lookup_alter_ne; [done|]. congruence.
Qed.

Lemma free_ok s held p s' :
  pool_ok (s, held) -> p ∈ held -> fr_md5_ctx_free_from_list p s = Returned s' ->
  pool_ok (s', held ∖ {[p]}).
Proof.
  intros (Hf & Hheld & Hl) Hp E. unfold fr_md5_ctx_free_from_list in E.
  destruct (md5_array s) as [l|] eqn:Ha.
  2:{ cbn in E. destruct (store s !! p) as [c|]; [|done]. by destruct (state c). }
  destruct Hl as (Hlen & Hn & Hok). cbn [mbind option_bind] in E.
  destruct (find_entry p l) as [i|] eqn:Ei.
  2:{ destruct (store s !! p) as [c|]; [|done]. by destruct (state c). }
  injection E as <-. apply find_entry_Some in Ei as (e & Hi & He).
  unfold pool_ok. cbn [fresh store md5_array fmap option_fmap option_map].
  split; [done|]. split.
  { intros q [Hq Hne]%elem_of_difference. rewrite lookup_alter_ne by set_solver. by apply Hheld. }
  split; [by rewrite length_alter|]. split; [by rewrite md_ctx_alter|].
  apply (entries_alter s _ held _ l i e); [done..|cbn; lia| |].
  - intros q Hq. cbn. rewrite lookup_alter_ne by congruence. split; [done|].
    rewrite He in Hq. set_solver.
  - destruct (Forall_lookup_1 _ _ _ _ Hok Hi) as [Hr _]. split; [done|]. cbn.
    split; [set_solver|]. rewrite He, lookup_alter_eq.
    by destruct (Hheld p Hp) as [_ [c ->]].
Qed.

Lemma pool_step_ok st st' : pool_ok st -> pool_step st st' -> pool_ok st'.
Proof.
  intros Hok Hs. destruct Hs as [s s' p held E Hp|s p x held Hp|s s' p held Hp E].
  - by destruct (alloc_ok s held p s' Hok E Hp) as (_ & _ & ?).
  - by apply update_ok.
  - by eapply free_ok.
Qed.

Lemma pool_reachable_ok n st :
  (ARRAY_SIZE < n)%nat -> rtc pool_step (pool_start n, ∅) st -> pool_ok st.
Proof.
  intros Hn Hr. refine (rtc_ind_r pool_ok (pool_start n, ∅) _ _ st Hr).
  - unfold pool_ok. cbn. split; [lia|]. split; [set_solver|done].
  - intros st1 st2 _ Hs Hi. by eapply pool_step_ok.
Qed.

(** C38: the MD5 contexts of a thread are never shared.  Whatever contexts a thread has
    taken from the pool, fed with data and given back - nested as it likes, more than
    eight at a time included - the next context it is given is not one it still holds,
    and is freshly reset; every held context stays allocated.  (The memory suffices for
    the array and its eight contexts.) *)
Theorem md5_pool_exclusive n s held p s' :
  (ARRAY_SIZE < n)%nat ->
  rtc pool_step (pool_start n, ∅) (s, held) ->
  fr_md5_ctx_alloc_from_list s = (p, s') -> p <> 0 ->
  (p ∉ held) /\ store s' !! p = Some reset_ctx /\
  (forall q, q ∈ held -> is_Some (store s' !! q)).
Proof.
  intros Hn Hr E Hp.
  pose proof (pool_reachable_ok n _ Hn Hr) as Hok.
  destruct (alloc_ok s held p s' Hok E Hp) as (H1 & H2 & _ & Hh & _). split; [done|].
  split; [done|]. intros q Hq. apply Hh. set_solver.
Qed.

Lemma md5_pool_exclusive_witness :
  let s := (fr_md5_ctx_alloc_from_list (pool_start 10)).2 in
  let s' := (fr_md5_ctx_alloc_from_list s).2 in
  (2 ∉ ({[1]} : gset Z)) /\ store s' !! 2 = Some reset_ctx.
Proof.
  intros s s'.
  assert (Hr : rtc pool_step (pool_start 10, ∅) (s, {[1]} ∪ ∅)).
  { apply rtc_once, step_alloc; [reflexivity|done]. }
  rewrite right_id_L in Hr by apply _.
  destruct (md5_pool_exclusive 10 s {[1]} 2 s') as (H1 & H2 & _);
    [unfold ARRAY_SIZE; lia|exact Hr|reflexivity|done|]. by split.
Defined.

(** A context beyond the eighth is not given back: [fr_md5_ctx_free] is handed the
    context itself instead of the address of the caller's pointer, so it frees the
    address spelled by the context's first two chaining words. *)
Lemma md5_pool_overflow_free n s held p :
  (ARRAY_SIZE < n)%nat ->
  rtc pool_step (pool_start n, ∅) (s, held) -> p ∈ held ->
  (forall l, md5_array s = Some l -> p ∉ (md_ctx <$> l)) ->
  exists c s', store s !! p = Some c /\
    fr_md5_ctx_free_from_list p s = Wild_free (first_pointer c) s'.
Proof.
  intros Hn Hr Hp Hout.
  pose proof (pool_reachable_ok n _ Hn Hr) as Hok.
  destruct Hok as (_ & Hh & _). destruct (Hh p Hp) as [_ [c Hc]]. exists c.
  unfold fr_md5_ctx_free_from_list.
  destruct (md5_array s ≫= find_entry p) as [i|] eqn:Ei.
  - destruct (md5_array s) as [l|] eqn:Ha; [|done]. cbn in Ei.
    apply find_entry_Some in Ei as (e & Hi & He). destruct (Hout l eq_refl).
    apply list_elem_of_fmap. exists e. split; [done|]. by eapply list_elem_of_lookup_2.
  - rewrite Hc. destruct (state c). eexists. done.
Qed.
