(* ===== verification/Sha1.v ===== *)
(** * SHA-1: [lib/util/sha1.c]

    The local implementation, with the unrolled rounds over five rotating variables
    and the in-place message schedule of sixteen words, and the buffering of
    [fr_sha1_update].  The reference is FIPS 180-4. *)
From S2P Require Import Prelude Bytes BlockHash.

Record sha1_state := Sha1State { sha_a : Z; sha_b : Z; sha_c : Z; sha_d : Z; sha_e : Z }.

Record fr_sha1_ctx := Sha1Ctx {
  sha1_st : sha1_state;     (** [uint32_t state[5]] *)
  sha1_count : Z * Z;       (** [uint32_t count[2]]: bits, low word first *)
  sha1_buffer : list Z      (** [uint8_t buffer[64]] *)
}.

(** ** The compression function *)

(** [rol(value, bits)] *)
Definition rol (value bits : Z) : Z := Z.lor (shl32 value bits) (shr32 value (32 - bits)).

(** [htonl(block->l[i])]: the big-endian value of bytes [4i] to [4i+3]. *)
Definition be_word (block : list Z) (i : nat) : Z :=
  let k := (4 * i)%nat in
  Z.lor (Z.lor (Z.lor (shl32 (block !!! k) 24)
    (shl32 (block !!! (k + 1)%nat) 16))
    (shl32 (block !!! (k + 2)%nat) 8))
    (block !!! (k + 3)%nat).

Inductive sreg := Sa | Sb | Sc | Sd | Se.

Definition get_sreg (r : sreg) (st : sha1_state) : Z :=
  match r with
  | Sa => sha_a st | Sb => sha_b st | Sc => sha_c st | Sd => sha_d st | Se => sha_e st
  end.

Definition set_sreg (r : sreg) (x : Z) (st : sha1_state) : sha1_state :=
  let '(Sha1State a b c d e) := st in
  match r with
  | Sa => Sha1State x b c d e | Sb => Sha1State a x c d e | Sc => Sha1State a b x d e
  | Sd => Sha1State a b c x e | Se => Sha1State a b c d x
  end.

(** One invocation of a round macro: the boolean function, the constant, the
    variables and the word index; [row_first] says the word is read with [blk0]. *)
Record sha1_row := SRow {
  srow_f : Z -> Z -> Z -> Z; srow_k : Z; srow_first : bool;
  srow_v : sreg; srow_w : sreg; srow_x : sreg; srow_y : sreg; srow_z : sreg; srow_i : nat }.

Definition sha1_ch (w x y : Z) : Z := Z.lxor (Z.land w (Z.lxor x y)) y.
Definition sha1_parity (w x y : Z) : Z := Z.lxor (Z.lxor w x) y.
Definition sha1_maj (w x y : Z) : Z := Z.lor (Z.land (Z.lor w x) y) (Z.land w x).

Definition R0 (v w x y z : sreg) (i : nat) := SRow sha1_ch 0x5A827999 true v w x y z i.
Definition R1 (v w x y z : sreg) (i : nat) := SRow sha1_ch 0x5A827999 false v w x y z i.
Definition R2 (v w x y z : sreg) (i : nat) := SRow sha1_parity 0x6ED9EBA1 false v w x y z i.
Definition R3 (v w x y z : sreg) (i : nat) := SRow sha1_maj 0x8F1BBCDC false v w x y z i.
Definition R4 (v w x y z : sreg) (i : nat) := SRow sha1_parity 0xCA62C1D6 false v w x y z i.

(** [blk0(i)] and [blk(i)]: the word, which is also stored in the workspace. *)
Definition sha1_blk (first : bool) (buffer workspace : list Z) (i : nat) : Z * list Z :=
  if first then let x := be_word buffer i in (x, <[i := x]> workspace)
  else
    let l j := workspace !!! ((i + j) mod 16)%nat in
    let x := rol (Z.lxor (Z.lxor (Z.lxor (l 13%nat) (l 8%nat)) (l 2%nat)) (l 0%nat)) 1 in
    (x, <[(i mod 16)%nat := x]> workspace).

(** [z += f(w,x,y) + blk(i) + K + rol(v,5); w = rol(w,30);] *)
Definition exec_srow (buffer : list Z) (s : sha1_state * list Z) (r : sha1_row)
    : sha1_state * list Z :=
  let '(st, ws) := s in
  let '(word, ws) := sha1_blk (srow_first r) buffer ws (srow_i r) in
  let z := u32 (get_sreg (srow_z r) st +
    u32 (u32 (u32 (srow_f r (get_sreg (srow_w r) st) (get_sreg (srow_x r) st)
           (get_sreg (srow_y r) st) + word) + srow_k r) + rol (get_sreg (srow_v r) st) 5)) in
  let st := set_sreg (srow_z r) z st in
  (set_sreg (srow_w r) (rol (get_sreg (srow_w r) st) 30) st, ws).

Definition sha1_rows : list sha1_row :=
  [R0 Sa Sb Sc Sd Se 0; R0 Se Sa Sb Sc Sd 1; R0 Sd Se Sa Sb Sc 2; R0 Sc Sd Se Sa Sb 3;
   R0 Sb Sc Sd Se Sa 4; R0 Sa Sb Sc Sd Se 5; R0 Se Sa Sb Sc Sd 6; R0 Sd Se Sa Sb Sc 7;
   R0 Sc Sd Se Sa Sb 8; R0 Sb Sc Sd Se Sa 9; R0 Sa Sb Sc Sd Se 10; R0 Se Sa Sb Sc Sd 11;
   R0 Sd Se Sa Sb Sc 12; R0 Sc Sd Se Sa Sb 13; R0 Sb Sc Sd Se Sa 14; R0 Sa Sb Sc Sd Se 15;
   R1 Se Sa Sb Sc Sd 16; R1 Sd Se Sa Sb Sc 17; R1 Sc Sd Se Sa Sb 18; R1 Sb Sc Sd Se Sa 19;
   R2 Sa Sb Sc Sd Se 20; R2 Se Sa Sb Sc Sd 21; R2 Sd Se Sa Sb Sc 22; R2 Sc Sd Se Sa Sb 23;
   R2 Sb Sc Sd Se Sa 24; R2 Sa Sb Sc Sd Se 25; R2 Se Sa Sb Sc Sd 26; R2 Sd Se Sa Sb Sc 27;
   R2 Sc Sd Se Sa Sb 28; R2 Sb Sc Sd Se Sa 29; R2 Sa Sb Sc Sd Se 30; R2 Se Sa Sb Sc Sd 31;
   R2 Sd Se Sa Sb Sc 32; R2 Sc Sd Se Sa Sb 33; R2 Sb Sc Sd Se Sa 34; R2 Sa Sb Sc Sd Se 35;
   R2 Se Sa Sb Sc Sd 36; R2 Sd Se Sa Sb Sc 37; R2 Sc Sd Se Sa Sb 38; R2 Sb Sc Sd Se Sa 39;
   R3 Sa Sb Sc Sd Se 40; R3 Se Sa Sb Sc Sd 41; R3 Sd Se Sa Sb Sc 42; R3 Sc Sd Se Sa Sb 43;
   R3 Sb Sc Sd Se Sa 44; R3 Sa Sb Sc Sd Se 45; R3 Se Sa Sb Sc Sd 46; R3 Sd Se Sa Sb Sc 47;
   R3 Sc Sd Se Sa Sb 48; R3 Sb Sc Sd Se Sa 49; R3 Sa Sb Sc Sd Se 50; R3 Se Sa Sb Sc Sd 51;
   R3 Sd Se Sa Sb Sc 52; R3 Sc Sd Se Sa Sb 53; R3 Sb Sc Sd Se Sa 54; R3 Sa Sb Sc Sd Se 55;
   R3 Se Sa Sb Sc Sd 56; R3 Sd Se Sa Sb Sc 57; R3 Sc Sd Se Sa Sb 58; R3 Sb Sc Sd Se Sa 59;
   R4 Sa Sb Sc Sd Se 60; R4 Se Sa Sb Sc Sd 61; R4 Sd Se Sa Sb Sc 62; R4 Sc Sd Se Sa Sb 63;
   R4 Sb Sc Sd Se Sa 64; R4 Sa Sb Sc Sd Se 65; R4 Se Sa Sb Sc Sd 66; R4 Sd Se Sa Sb Sc 67;
   R4 Sc Sd Se Sa Sb 68; R4 Sb Sc Sd Se Sa 69; R4 Sa Sb Sc Sd Se 70; R4 Se Sa Sb Sc Sd 71;
   R4 Sd Se Sa Sb Sc 72; R4 Sc Sd Se Sa Sb 73; R4 Sb Sc Sd Se Sa 74; R4 Sa Sb Sc Sd Se 75;
   R4 Se Sa Sb Sc Sd 76; R4 Sd Se Sa Sb Sc 77; R4 Sc Sd Se Sa Sb 78; R4 Sb Sc Sd Se Sa 79].

Definition fr_sha1_transform (st : sha1_state) (buffer : list Z) : sha1_state :=
  let r := (foldl (exec_srow buffer) (st, replicate 16 0) sha1_rows).1 in
  Sha1State (u32 (sha_a st + sha_a r)) (u32 (sha_b st + sha_b r)) (u32 (sha_c st + sha_c r))
            (u32 (sha_d st + sha_d r)) (u32 (sha_e st + sha_e r)).

(** ** Contexts *)

Definition sha1_init_state : sha1_state :=
  Sha1State 0x67452301 0xEFCDAB89 0x98BADCFE 0x10325476 0xC3D2E1F0.

(** The buffer is left as it was. *)
Definition fr_sha1_init (context : fr_sha1_ctx) : fr_sha1_ctx :=
  Sha1Ctx sha1_init_state (0, 0) (sha1_buffer context).

(** [count[0] += len << 3] in 32 bits, the carry test against the 64-bit
    [len << 3], and the high bits of the length. *)
Definition sha1_counts (cnt : Z * Z) (len : Z) : Z * Z :=
  let c0 := u32 (cnt.1 + u64 (Z.shiftl len 3)) in
  let c1 := if decide (c0 < u64 (Z.shiftl len 3)) then u32 (cnt.2 + 1) else cnt.2 in
  (c0, u32 (c1 + Z.shiftr len 29)).

(** [for ( ; i + 63 < len; i += 64) fr_sha1_transform(state, &in[i]);] with [inp]
    the bytes from [i] on; the state, and the bytes from the final [i] on. *)
Fixpoint sha1_blocks (fuel : nat) (st : sha1_state) (inp : list Z) : sha1_state * list Z :=
  match fuel with
  | O => (st, inp)
  | S fuel' =>
      if decide (63 < length inp)%nat
      then sha1_blocks fuel' (fr_sha1_transform st (take 64 inp)) (drop 64 inp)
      else (st, inp)
  end.

Definition fr_sha1_update (context : fr_sha1_ctx) (inp : list Z) : fr_sha1_ctx :=
  if decide (length inp = 0%nat) then context else
  let j := Z.to_nat (Z.land (shr32 (sha1_count context).1 3) 63) in
  let cnt := sha1_counts (sha1_count context) (Z.of_nat (length inp)) in
  if decide (63 < j + length inp)%nat then
    let i := (64 - j)%nat in
    let buf := list_inserts j (take i inp) (sha1_buffer context) in
    let st := fr_sha1_transform (sha1_st context) buf in
    let '(st, rest) := sha1_blocks (length inp) st (drop i inp) in
    Sha1Ctx st cnt (list_inserts 0 rest buf)
  else Sha1Ctx (sha1_st context) cnt (list_inserts j inp (sha1_buffer context)).

(** Four bytes, most significant first: [(w >> ((3 - (i & 3)) * 8)) & 255]. *)
Definition be_bytes (w : Z) : list Z :=
  [Z.land (shr32 w 24) 255; Z.land (shr32 w 16) 255; Z.land (shr32 w 8) 255;
   Z.land (shr32 w 0) 255].

(** [while ((count[0] & 504) != 448) fr_sha1_update(context, "\0", 1);] *)
Fixpoint sha1_pad (fuel : nat) (context : fr_sha1_ctx) : option fr_sha1_ctx :=
  match fuel with
  | O => None
  | S fuel' =>
      if decide (Z.land (sha1_count context).1 504 <> 448)
      then sha1_pad fuel' (fr_sha1_update context [0])
      else Some context
  end.

Definition sha1_digest (st : sha1_state) : list Z :=
  be_bytes (sha_a st) ++ be_bytes (sha_b st) ++ be_bytes (sha_c st) ++
  be_bytes (sha_d st) ++ be_bytes (sha_e st).

Definition sha1_wiped : fr_sha1_ctx :=
  Sha1Ctx (Sha1State 0 0 0 0 0) (0, 0) (replicate 64 0).

(** At most 64 turns of the padding loop are needed ([sha1_pad_spec]); the model
    returns the empty digest if it ran out. *)
Definition fr_sha1_final (context : fr_sha1_ctx) : list Z * fr_sha1_ctx :=
  let finalcount := be_bytes (sha1_count context).2 ++ be_bytes (sha1_count context).1 in
  let context := fr_sha1_update context [128] in
  match sha1_pad 65 context with
  | None => ([], context)
  | Some context =>
      let context := fr_sha1_update context finalcount in
      (sha1_digest (sha1_st context), sha1_wiped)
  end.

(** The raw state, without padding. *)
Definition fr_sha1_final_no_len (context : fr_sha1_ctx) : list Z * fr_sha1_ctx :=
  (sha1_digest (sha1_st context), sha1_wiped).

#[export] Instance sha1_api : DigestApi fr_sha1_ctx := {
  dg_alloc := fr_sha1_init (Sha1Ctx (Sha1State 0 0 0 0 0) (0, 0) (replicate 64 0));
  dg_reset := fr_sha1_init;
  dg_update := fr_sha1_update;
  dg_final := fr_sha1_final
}.

(** ** The reference: FIPS 180-4 *)

Definition fips_ch (x y z : Z) : Z := Z.lxor (Z.land x y) (Z.land (lnot32 x) z).
Definition fips_parity (x y z : Z) : Z := Z.lxor x (Z.lxor y z).
Definition fips_maj (x y z : Z) : Z :=
  Z.lxor (Z.lxor (Z.land x y) (Z.land x z)) (Z.land y z).

Definition fips_f (t : nat) : Z -> Z -> Z -> Z :=
  if decide (t < 20)%nat then fips_ch else if decide (t < 40)%nat then fips_parity
  else if decide (t < 60)%nat then fips_maj else fips_parity.
Definition fips_k (t : nat) : Z :=
  if decide (t < 20)%nat then 0x5a827999 else if decide (t < 40)%nat then 0x6ed9eba1
  else if decide (t < 60)%nat then 0x8f1bbcdc else 0xca62c1d6.

(** The message schedule: the words [W(0)] to [W(n-1)], latest first. *)
Fixpoint fips_schedule (block : list Z) (n : nat) : list Z :=
  match n with
  | O => []
  | S t =>
      let ws := fips_schedule block t in
      (if decide (t < 16)%nat then be_word block t
       else rol (Z.lxor (Z.lxor (ws !!! 2%nat) (ws !!! 7%nat))
                        (Z.lxor (ws !!! 13%nat) (ws !!! 15%nat))) 1) :: ws
  end.
Definition fips_w (block : list Z) (t : nat) : Z := fips_schedule block (S t) !!! 0%nat.

(** Rounds [t] to [t + n - 1]. *)
Fixpoint fips_rounds (W : nat -> Z) (n t : nat) (a b c d e : Z) : sha1_state :=
  match n with
  | O => Sha1State a b c d e
  | S n' =>
      fips_rounds W n' (S t)
        (u32 (rol a 5 + fips_f t b c d + e + fips_k t + W t)) a (rol b 30) c d
  end.

Definition fips_compress (st : sha1_state) (block : list Z) : sha1_state :=
  let r := fips_rounds (fips_w block) 80 0 (sha_a st) (sha_b st) (sha_c st) (sha_d st) (sha_e st) in
  Sha1State (u32 (sha_a st + sha_a r)) (u32 (sha_b st + sha_b r)) (u32 (sha_c st + sha_c r))
            (u32 (sha_d st + sha_d r)) (u32 (sha_e st + sha_e r)).

Definition fips_len64 (n : Z) : list Z := be_bytes (u32 (Z.shiftr n 32)) ++ be_bytes (u32 n).

Definition sha1_spec (d : list Z) : list Z :=
  sha1_digest (md_absorb fips_compress sha1_init_state (md_pad fips_len64 d)).

(** ** The unrolled compression function is the reference *)

Definition sha1_state_ok (st : sha1_state) : Prop :=
  word_ok (sha_a st) /\ word_ok (sha_b st) /\ word_ok (sha_c st) /\
  word_ok (sha_d st) /\ word_ok (sha_e st).

Lemma word_ok_rol w s : word_ok w -> 0 <= s < 32 -> word_ok (rol w s).
Proof.
  intros Hw Hs. unfold rol, word_ok. apply lor_range; [lia|apply u32_range|].
  unfold shr32. rewrite Z.shiftr_div_pow2 by lia. unfold word_ok in Hw.
  assert (0 < 2 ^ (32 - s)) by (apply Z.pow_pos_nonneg; lia).
  split; [apply Z.div_pos; lia|]. apply Z.div_lt_upper_bound; nia.
Qed.

Ltac sha1_bits :=
  apply Z.bits_inj'; intros i Hi;
  unfold sha1_ch, sha1_parity, sha1_maj, fips_ch, fips_parity, fips_maj, lnot32;
  repeat first [rewrite Z.lxor_spec | rewrite Z.lor_spec | rewrite Z.land_spec];
  change (2 ^ 32 - 1) with (Z.ones 32);
  destruct (decide (i < 32));
  [rewrite ?Z.ones_spec_low by lia
  |rewrite ?Z.ones_spec_high by lia;
   repeat rewrite (testbit_high 32) by (unfold word_ok in *; lia)];
  repeat match goal with |- context [Z.testbit ?x i] => destruct (Z.testbit x i) end;
  done.

Lemma sha1_ch_fips x y z : word_ok x -> word_ok y -> word_ok z -> sha1_ch x y z = fips_ch x y z.
Proof. intros. sha1_bits. Qed.
Lemma sha1_maj_fips x y z : word_ok x -> word_ok y -> word_ok z -> sha1_maj x y z = fips_maj x y z.
Proof. intros. sha1_bits. Qed.
Lemma sha1_parity_fips x y z : sha1_parity x y z = fips_parity x y z.
Proof. apply Z.lxor_assoc. Qed.

(** The row of round [t]: which macro, and which variables play [a] to [e]. *)
Definition sha1_macro (t : nat) : sreg -> sreg -> sreg -> sreg -> sreg -> nat -> sha1_row :=
  if decide (t < 16)%nat then R0 else if decide (t < 20)%nat then R1
  else if decide (t < 40)%nat then R2 else if decide (t < 60)%nat then R3 else R4.
Definition sha1_row_at (t : nat) : sha1_row :=
  match (t mod 5)%nat with
  | 0%nat => sha1_macro t Sa Sb Sc Sd Se t
  | 1%nat => sha1_macro t Se Sa Sb Sc Sd t
  | 2%nat => sha1_macro t Sd Se Sa Sb Sc t
  | 3%nat => sha1_macro t Sc Sd Se Sa Sb t
  | _ => sha1_macro t Sb Sc Sd Se Sa t
  end.

Lemma sha1_rows_seq : sha1_rows = map sha1_row_at (seq 0 80).
Proof. reflexivity. Qed.

Lemma srow_i_at t : srow_i (sha1_row_at t) = t.
Proof.
  unfold sha1_row_at, sha1_macro. destruct (t mod 5)%nat as [|[|[|[|]]]];
    repeat case_decide; done.
Qed.
Lemma srow_first_at t : srow_first (sha1_row_at t) = bool_decide (t < 16)%nat.
Proof.
  unfold sha1_row_at, sha1_macro. destruct (t mod 5)%nat as [|[|[|[|]]]];
    repeat case_decide; try lia; symmetry;
    first [apply bool_decide_eq_true_2; lia | apply bool_decide_eq_false_2; lia].
Qed.
Lemma srow_k_at t : srow_k (sha1_row_at t) = fips_k t.
Proof.
  unfold sha1_row_at, sha1_macro, fips_k. destruct (t mod 5)%nat as [|[|[|[|]]]];
    repeat case_decide; (lia || done).
Qed.
Lemma srow_f_at t x y z :
  word_ok x -> word_ok y -> word_ok z ->
  srow_f (sha1_row_at t) x y z = fips_f t x y z.
Proof.
  intros. unfold sha1_row_at, sha1_macro, fips_f. destruct (t mod 5)%nat as [|[|[|[|]]]];
    repeat case_decide; try lia; cbn [srow_f R0 R1 R2 R3 R4];
    first [by apply sha1_ch_fips | by apply sha1_maj_fips | apply sha1_parity_fips].
Qed.

(** ** The in-place message schedule *)

Lemma fips_schedule_lookup block n k :
  (k < n)%nat -> fips_schedule block n !! k = Some (fips_w block (n - 1 - k)).
Proof.
  revert k. induction n as [|n IH]; intros k Hk; [lia|]. destruct k as [|k].
  - replace (S n - 1 - 0)%nat with n by lia. done.
  - cbn [fips_schedule]. rewrite lookup_cons, IH by lia. do 2 f_equal. lia.
Qed.

Lemma fips_w_first block t : (t < 16)%nat -> fips_w block t = be_word block t.
Proof. intros H. unfold fips_w. cbn [fips_schedule]. by rewrite decide_True. Qed.

Lemma fips_w_next block t :
  (16 <= t)%nat ->
  fips_w block t =
    rol (Z.lxor (Z.lxor (fips_w block (t - 3)) (fips_w block (t - 8)))
                (Z.lxor (fips_w block (t - 14)) (fips_w block (t - 16)))) 1.
Proof.
  intros H. unfold fips_w at 1. cbn [fips_schedule]. rewrite decide_False by lia.
  cbn [lookup_total list_lookup_total].
  assert (E : forall k, (k < t)%nat -> fips_schedule block t !!! k = fips_w block (t - 1 - k)).
  { intros k Hk. by apply list_lookup_total_correct, fips_schedule_lookup. }
  rewrite !E by lia. by rewrite <- !Nat.sub_add_distr.
Qed.

(** The workspace before round [t] holds the last sixteen words, at their index
    modulo 16. *)
Definition ws_ok (block : list Z) (t : nat) (ws : list Z) : Prop :=
  length ws = 16%nat /\
  forall j, (j < t <= j + 16)%nat -> ws !!! (j mod 16)%nat = fips_w block j.

Lemma mod16_inj j t : (j < t < j + 16)%nat -> (j mod 16 <> t mod 16)%nat.
Proof.
  intros H E. pose proof (Nat.div_mod_eq j 16). pose proof (Nat.div_mod_eq t 16). lia.
Qed.

Lemma ws_ok_insert block t ws :
  ws_ok block t ws -> ws_ok block (S t) (<[(t mod 16)%nat := fips_w block t]> ws).
Proof.
  intros [Hl Hw]. split; [by rewrite length_insert|]. intros j Hj.
  assert (t mod 16 < 16)%nat by (apply Nat.mod_upper_bound; lia).
  destruct (decide (j = t)) as [->|].
  - apply list_lookup_total_insert_eq. lia.
  - rewrite list_lookup_total_insert_ne by (apply not_eq_sym, mod16_inj; lia).
    apply Hw. lia.
Qed.

Lemma sha1_blk_spec block t ws :
  ws_ok block t ws ->
  sha1_blk (bool_decide (t < 16)%nat) block ws t =
    (fips_w block t, <[(t mod 16)%nat := fips_w block t]> ws).
Proof.
  intros [Hl Hw]. unfold sha1_blk. case_bool_decide as Ht.
  - by rewrite fips_w_first, (Nat.mod_small t) by done.
  - assert (E : forall j d, (j + d = 16)%nat -> (0 < d)%nat ->
      ws !!! ((t + j) mod 16)%nat = fips_w block (t - d)).
    { intros j d Hjd Hd. rewrite <- Hw by lia. f_equal.
      replace (t + j)%nat with (t - d + 1 * 16)%nat by lia. by rewrite Nat.Div0.mod_add. }
    rewrite (E 13%nat 3%nat), (E 8%nat 8%nat), (E 2%nat 14%nat), (E 0%nat 16%nat) by lia.
    by rewrite (fips_w_next block t), !Z.lxor_assoc by lia.
Qed.

(** ** Rounds *)

(** The variables in the order the row of round [t] names them are the reference's
    [a] to [e]. *)
Definition sha1_view (t : nat) (st : sha1_state) (a b c d e : Z) : Prop :=
  let r := sha1_row_at t in
  get_sreg (srow_v r) st = a /\ get_sreg (srow_w r) st = b /\ get_sreg (srow_x r) st = c /\
  get_sreg (srow_y r) st = d /\ get_sreg (srow_z r) st = e.

Definition sha1_regs (n : nat) : sreg * sreg * sreg * sreg * sreg :=
  match n with
  | 0%nat => (Sa, Sb, Sc, Sd, Se) | 1%nat => (Se, Sa, Sb, Sc, Sd)
  | 2%nat => (Sd, Se, Sa, Sb, Sc) | 3%nat => (Sc, Sd, Se, Sa, Sb)
  | _ => (Sb, Sc, Sd, Se, Sa)
  end.

Lemma srow_regs_at t :
  let r := sha1_row_at t in
  (srow_v r, srow_w r, srow_x r, srow_y r, srow_z r) = sha1_regs (t mod 5).
Proof.
  unfold sha1_row_at, sha1_macro. destruct (t mod 5)%nat as [|[|[|[|]]]];
    repeat case_decide; done.
Qed.

Lemma mod5_succ t : (S t mod 5 = if decide (t mod 5 = 4) then 0 else S (t mod 5))%nat.
Proof.
  assert (t mod 5 < 5)%nat by (apply Nat.mod_upper_bound; lia).
  rewrite <- Nat.add_1_r, Nat.Div0.add_mod. change (1 mod 5)%nat with 1%nat.
  case_decide as E; [by rewrite E|]. rewrite Nat.mod_small by lia. lia.
Qed.

Lemma exec_srow_at block t st ws a b c d e :
  ws_ok block t ws -> sha1_view t st a b c d e ->
  word_ok b -> word_ok c -> word_ok d ->
  exists st',
    exec_srow block (st, ws) (sha1_row_at t) =
      (st', <[(t mod 16)%nat := fips_w block t]> ws) /\
    sha1_view (S t) st'
      (u32 (rol a 5 + fips_f t b c d + e + fips_k t + fips_w block t)) a (rol b 30) c d.
Proof.
  intros Hws (Hv & Hw & Hx & Hy & Hz) Hb Hc Hd. unfold exec_srow.
  rewrite srow_first_at, srow_i_at, sha1_blk_spec by done.
  rewrite Hv, Hw, Hx, Hy, Hz, srow_f_at, srow_k_at by done.
  eexists. split; [done|].
  rewrite (u32_add_l (fips_f t b c d + _)), u32_add_l, u32_add_r.
  replace (e + (fips_f t b c d + fips_w block t + fips_k t + rol a 5))
    with (rol a 5 + fips_f t b c d + e + fips_k t + fips_w block t) by lia.
  set (A := u32 _). unfold sha1_view.
  pose proof (srow_regs_at t) as R. pose proof (srow_regs_at (S t)) as R'.
  cbv zeta in R, R'. rewrite mod5_succ in R'.
  assert (t mod 5 < 5)%nat by (apply Nat.mod_upper_bound; lia).
  destruct st; destruct (t mod 5)%nat as [|[|[|[|[|]]]]]; try lia;
    cbn in R, R'; injection R as R1 R2 R3 R4 R5; injection R' as S1 S2 S3 S4 S5;
    rewrite R1 in Hv; rewrite R2 in Hw; rewrite R3 in Hx; rewrite R4 in Hy;
    rewrite R5 in Hz; rewrite S1, S2, S3, S4, S5, R2, R5;
    cbn in *; subst; by repeat split.
Qed.

Lemma exec_srows block n t st ws a b c d e :
  ws_ok block t ws -> sha1_view t st a b c d e ->
  word_ok a -> word_ok b -> word_ok c -> word_ok d ->
  let r := fips_rounds (fips_w block) n t a b c d e in
  let st' := (foldl (exec_srow block) (st, ws) (map sha1_row_at (seq t n))).1 in
  sha1_view (t + n) st' (sha_a r) (sha_b r) (sha_c r) (sha_d r) (sha_e r).
Proof.
  revert t st ws a b c d e. induction n as [|n IH];
    intros t st ws a b c d e Hws Hv Ha Hb Hc Hd; cbn.
  { by rewrite Nat.add_0_r. }
  destruct (exec_srow_at block t st ws a b c d e Hws Hv Hb Hc Hd) as (st' & E & Hv').
  unfold exec_srow in E. rewrite E. rewrite <- Nat.add_succ_comm.
  apply IH; [by apply ws_ok_insert|done|apply word_ok_u32|done|by apply word_ok_rol|done].
Qed.

Lemma sha1_transform_fips st block :
  sha1_state_ok st ->
  fr_sha1_transform st block = fips_compress st block /\
  sha1_state_ok (fips_compress st block).
Proof.
  intros (Ha & Hb & Hc & Hd & He). split; [|by repeat split; apply word_ok_u32].
  unfold fr_sha1_transform, fips_compress. rewrite sha1_rows_seq.
  assert (Hws : ws_ok block 0 (replicate 16 0)) by (split; [done|lia]).
  assert (Hv : sha1_view 0 st (sha_a st) (sha_b st) (sha_c st) (sha_d st) (sha_e st))
    by done.
  pose proof (exec_srows block 80 0 _ _ _ _ _ _ _ Hws Hv Ha Hb Hc Hd) as H.
  cbv zeta in H. revert H. generalize (fips_rounds (fips_w block) 80 0 (sha_a st)
    (sha_b st) (sha_c st) (sha_d st) (sha_e st)). intros [a' b' c' d' e'].
  destruct (foldl _ _ _) as [[a b c d e] ws]. intros (E1 & E2 & E3 & E4 & E5).
  lazy in E1, E2, E3, E4, E5. by subst.
Qed.

(** ** The buffered implementation computes the reference *)

Definition sha1_ctx_ok (ctx : fr_sha1_ctx) (d : list Z) : Prop :=
  md_buffered fips_compress sha1_init_state (sha1_st ctx) (sha1_buffer ctx) d /\
  (sha1_count ctx).1 = u32 (8 * Z.of_nat (length d)) /\
  (Z.of_nat (length d) < 2 ^ 29 -> (sha1_count ctx).2 = 0).

Lemma sha1_absorb_state_ok d : sha1_state_ok (md_absorb fips_compress sha1_init_state d).
Proof.
  unfold md_absorb. generalize (length d / 64)%nat. intros n.
  assert (H : sha1_state_ok sha1_init_state) by (repeat split; simpl; lia).
  revert d H. generalize sha1_init_state. induction n as [|n IH]; intros st d H; [done|].
  simpl. apply IH. by repeat split; apply word_ok_u32.
Qed.

Lemma sha1_blocks_spec fuel st inp :
  sha1_state_ok st -> (length inp / 64 <= fuel)%nat ->
  sha1_blocks fuel st inp = (md_absorb fips_compress st inp, md_rest inp).
Proof.
  revert st inp. induction fuel as [|fuel IH]; intros st inp Hst Hf; cbn [sha1_blocks].
  - destruct (md_absorb_small fips_compress st inp) as [-> ->]; [|done].
    assert (length inp / 64 = 0)%nat as H by lia. apply Nat.div_small_iff in H; lia.
  - case_decide as Hl.
    + destruct (sha1_transform_fips st (take 64 inp) Hst) as [-> Hst'].
      assert (Hd : (length inp / 64 = S (length (drop 64 inp) / 64))%nat).
      { rewrite length_drop. replace (length inp) with (length inp - 64 + 1 * 64)%nat at 1 by lia.
        rewrite Nat.div_add by lia. lia. }
      rewrite IH by (done || lia).
      destruct (md_absorb_block fips_compress st (take 64 inp) (drop 64 inp)) as [HA HR];
        [rewrite length_take; lia|].
      by rewrite take_drop in HA, HR; rewrite <- HA, <- HR.
    + by destruct (md_absorb_small fips_compress st inp) as [-> ->]; [lia|].
Qed.

Lemma sha1_counts_spec c n m :
  c.1 = u32 (8 * n) -> 0 <= n -> 0 <= m < 2 ^ 61 ->
  (sha1_counts c m).1 = u32 (8 * (n + m)) /\
  (n + m < 2 ^ 29 -> c.2 = 0 -> (sha1_counts c m).2 = 0).
Proof.
  intros E Hn Hm. unfold sha1_counts. rewrite E, Z.shiftl_mul_pow2 by lia.
  change (2 ^ 3) with 8. cbn [fst snd].
  rewrite (u64_small (m * 8)), u32_add_l by lia.
  replace (8 * n + m * 8) with (8 * (n + m)) by lia.
  split; [done|]. intros Hb Hc.
  rewrite (u32_small (8 * (n + m))), decide_False by lia.
  rewrite Hc, Z.shiftr_div_pow2, Z.div_small by lia. done.
Qed.

Lemma sha1_update_ok ctx d x :
  Z.of_nat (length x) < 2 ^ 61 ->
  sha1_ctx_ok ctx d -> sha1_ctx_ok (fr_sha1_update ctx x) (d ++ x).
Proof.
  intros Hx (Hb & Hc & Hc2). unfold fr_sha1_update.
  destruct (decide (length x = 0%nat)) as [H0|H0].
  { apply length_zero_iff_nil in H0. subst. by rewrite app_nil_r. }
  rewrite Hc. change 63 with (64 - 1). rewrite md_have, Nat2Z.id.
  destruct (sha1_counts_spec (sha1_count ctx) (Z.of_nat (length d)) (Z.of_nat (length x)) Hc)
    as [Hk1 Hk2]; [lia..|].
  rewrite <- Nat2Z.inj_add, <- length_app in Hk1, Hk2.
  assert (Hk : forall st buf, md_buffered fips_compress sha1_init_state st buf (d ++ x) ->
    sha1_ctx_ok (Sha1Ctx st (sha1_counts (sha1_count ctx) (Z.of_nat (length x))) buf) (d ++ x)).
  { intros st buf Hbuf. split; [done|]. split; [done|]. intros Hl. apply Hk2; [done|].
    apply Hc2. rewrite length_app in Hl. lia. }
  assert (Hst : sha1_state_ok (sha1_st ctx)) by (rewrite (proj1 Hb); apply sha1_absorb_state_ok).
  case_decide as Hn.
  - assert (Hn' : (64 - length d mod 64 <= length x)%nat) by lia.
    destruct (md_buffered_fill _ _ _ _ _ x Hb Hn') as (Hl1 & HA & HR).
    destruct (sha1_transform_fips (sha1_st ctx) (list_inserts (length d mod 64)
      (take (64 - length d mod 64) x) (sha1_buffer ctx)) Hst) as [-> Hst'].
    rewrite sha1_blocks_spec
      by (done || apply Nat.Div0.div_le_upper_bound; rewrite length_drop; lia).
    rewrite <- HA, <- HR. apply Hk, md_buffered_tail, Hl1.
  - apply Hk, md_buffered_small; [done|]. lia.
Qed.

Lemma land_504 n :
  Z.land (u32 (8 * Z.of_nat n)) 504 = 8 * Z.of_nat (n mod 64).
Proof.
  rewrite Nat2Z.inj_mod. change (Z.of_nat 64) with (2 ^ 6).
  rewrite <- (Z.land_ones (Z.of_nat n) 6) by lia.
  rewrite !(Z.mul_comm 8), <- !(Z.shiftl_mul_pow2 _ 3), Z.shiftl_land by lia.
  unfold u32. rewrite <- Z.land_ones, <- Z.land_assoc by lia. f_equal.
Qed.

Lemma pad_count_succ m (h := (m mod 64)%nat) :
  h <> 56%nat ->
  ((56 + 64 - h) mod 64 = S ((56 + 64 - (m + 1) mod 64) mod 64))%nat.
Proof.
  intros E. assert (h < 64)%nat by (apply Nat.mod_upper_bound; lia).
  rewrite Nat.Div0.add_mod. fold h. change (1 mod 64)%nat with 1%nat.
  destruct (decide (h = 63)%nat) as [->|]; [done|].
  rewrite (Nat.mod_small (h + 1)) by lia. destruct (decide (h < 56)%nat).
  - replace (56 + 64 - h)%nat with (56 - h + 1 * 64)%nat by lia.
    replace (56 + 64 - (h + 1))%nat with (56 - (h + 1) + 1 * 64)%nat by lia.
    rewrite !Nat.Div0.mod_add, !Nat.mod_small by lia. lia.
  - rewrite !Nat.mod_small by lia. lia.
Qed.

(** The padding loop appends zeros up to 56 modulo 64, in at most 63 turns. *)
Lemma sha1_pad_spec fuel ctx d (n := ((56 + 64 - length d mod 64) mod 64)%nat) :
  sha1_ctx_ok ctx d -> (n < fuel)%nat ->
  exists ctx', sha1_pad fuel ctx = Some ctx' /\ sha1_ctx_ok ctx' (d ++ replicate n 0).
Proof.
  revert ctx d n. induction fuel as [|fuel IH]; intros ctx d n Hctx Hf; [lia|].
  cbn [sha1_pad]. destruct (Hctx) as (_ & Hc & _). rewrite Hc, land_504.
  assert (length d mod 64 < 64)%nat by (apply Nat.mod_upper_bound; lia).
  destruct (decide (length d mod 64 = 56)%nat) as [E|E].
  - rewrite decide_False by lia. exists ctx. split; [done|].
    unfold n. rewrite E. by rewrite app_nil_r.
  - rewrite decide_True by lia.
    set (n' := ((56 + 64 - length (d ++ [0%Z]) mod 64) mod 64)%nat).
    assert (En : n = S n').
    { unfold n, n'. rewrite length_app. cbn [length]. by apply pad_count_succ. }
    destruct (IH (fr_sha1_update ctx [0]) (d ++ [0])) as (ctx' & E' & Hctx').
    + apply sha1_update_ok; [done|done].
    + fold n'. lia.
    + exists ctx'. split; [done|]. rewrite En. cbn [replicate].
      rewrite cons_middle, app_assoc. done.
Qed.

Lemma pad_count_119 m :
  ((56 + 64 - (m + 1) mod 64) mod 64 = (119 - m mod 64) mod 64)%nat.
Proof.
  assert (m mod 64 < 64)%nat by (apply Nat.mod_upper_bound; lia).
  rewrite Nat.Div0.add_mod. change (1 mod 64)%nat with 1%nat.
  destruct (decide (m mod 64 = 63)%nat) as [->|]; [done|].
  rewrite (Nat.mod_small (m mod 64 + 1)) by lia. f_equal. lia.
Qed.

Lemma sha1_final_ok ctx d :
  sha1_ctx_ok ctx d -> Z.of_nat (length d) < 2 ^ 29 ->
  (fr_sha1_final ctx).1 = sha1_spec d.
Proof.
  intros Hctx Hl. destruct (Hctx) as (Hb & Hc & Hc2). unfold fr_sha1_final.
  assert (E : be_bytes (sha1_count ctx).2 ++ be_bytes (sha1_count ctx).1 =
    fips_len64 (8 * Z.of_nat (length d))).
  { unfold fips_len64. rewrite Hc, (Hc2 Hl). f_equal.
    rewrite Z.shiftr_div_pow2, Z.div_small by lia. done. }
  rewrite E.
  destruct (sha1_pad_spec 65 (fr_sha1_update ctx [128]) (d ++ [128])) as (ctx' & Ep & Hctx').
  - by apply sha1_update_ok.
  - etransitivity; [apply Nat.mod_upper_bound; lia|lia].
  - rewrite Ep. cbn [fst]. rewrite length_app, pad_count_119 in Hctx'.
    pose proof (sha1_update_ok _ _ (fips_len64 (8 * Z.of_nat (length d))) ltac:(done) Hctx')
      as ((Hst & _) & _).
    rewrite Hst. unfold sha1_spec, md_pad. by rewrite <- !app_assoc.
Qed.

(** A finished context has its full buffer: it can be initialised again. *)
Lemma sha1_reset_ok ctx d :
  sha1_ctx_ok ctx d -> sha1_ctx_ok (fr_sha1_init (fr_sha1_final ctx).2) [].
Proof.
  intros Hctx. unfold fr_sha1_final.
  destruct (sha1_pad_spec 65 (fr_sha1_update ctx [128]) (d ++ [128])) as (ctx' & -> & _);
    [by apply sha1_update_ok|etransitivity; [apply Nat.mod_upper_bound; lia|lia]|done].
Qed.

Lemma bytes_be_bytes w : bytes_ok (be_bytes w).
Proof.
  assert (H : forall z, byte_ok (Z.land z 255)).
  { intros z. change 255 with (Z.ones 8). rewrite Z.land_ones by lia. apply u8_range. }
  repeat constructor; apply H.
Qed.

#[export] Instance sha1_laws : DigestLaws fr_sha1_ctx sha1_spec 20.
Proof.
  refine {| dg_limit := 2 ^ 29;
            dg_absorbed c d := sha1_ctx_ok c d /\ Z.of_nat (length d) < 2 ^ 29 |}.
  - by split.
  - intros c d [Hc Hl]. split; [|done]. by apply (sha1_reset_ok c d).
  - intros c d x [Hc _] Hl. split; [|done]. apply sha1_update_ok; [|done].
    rewrite length_app in Hl. lia.
  - intros c d [Hc Hl]. by apply sha1_final_ok.
  - done.
  - intros d. unfold sha1_spec, sha1_digest. repeat apply bytes_ok_app; apply bytes_be_bytes.
Defined.

(** ** Properties *)

(** C18: feeding the local SHA-1 implementation a message in any number of pieces and
    finishing gives the FIPS 180-4 digest of the whole message, as long as it is
    shorter than 2^29 bytes: the unrolled rounds over rotating variables, the
    schedule kept in place in sixteen words, the block buffering and the padding loop
    of [sha1.c] together compute the reference. *)
Theorem sha1_streaming (garbage : fr_sha1_ctx) (chunks : list (list Z)) :
  length (sha1_buffer garbage) = 64%nat ->
  Z.of_nat (length (concat chunks)) < 2 ^ 29 ->
  (fr_sha1_final (foldl fr_sha1_update (fr_sha1_init garbage) chunks)).1
  = sha1_spec (concat chunks).
Proof.
  intros Hg Hl.
  refine (dg_final_spec (foldl fr_sha1_update (fr_sha1_init garbage) chunks) (concat chunks) _).
  refine (dg_updates_spec (fr_sha1_init garbage) [] chunks _ _); [by split|done].
Qed.

Lemma sha1_streaming_witness :
  (fr_sha1_final (foldl fr_sha1_update (fr_sha1_init sha1_wiped) [[97]; []; [98; 99]])).1
  = [0xa9; 0x99; 0x3e; 0x36; 0x47; 0x06; 0x81; 0x6a; 0xba; 0x3e;
     0x25; 0x71; 0x78; 0x50; 0xc2; 0x6c; 0x9c; 0xd0; 0xd8; 0x9d].
Proof.
  etransitivity; [apply sha1_streaming; [done|simpl; lia]|].
  vm_compute. reflexivity.
Defined.

(** One call that feeds [m] bytes, 2^29 or more, to an aligned context leaves the
    bit counter 2^32 too high: the carry test compares the wrapped 32-bit low word
    with the 64-bit bit count, which is larger by itself, and [len >> 29] is added
    on top.  The counter then no longer encodes the number of bits fed. *)
Theorem sha1_count_overcount m :
  2 ^ 29 <= m < 2 ^ 60 ->
  let '(c0, c1) := sha1_counts (0, 0) m in
  c0 = u32 (8 * m) /\ c1 = u32 (Z.shiftr (8 * m) 32 + 1).
Proof.
  intros Hm. unfold sha1_counts. cbn [fst snd].
  rewrite Z.shiftl_mul_pow2, (u64_small (m * 2 ^ 3)), Z.add_0_l by lia.
  rewrite decide_True.
  - split; [f_equal; lia|]. change (u32 (0 + 1)) with 1.
    rewrite !Z.shiftr_div_pow2 by lia. change (2 ^ 32) with (8 * 2 ^ 29).
    rewrite Z.div_mul_cancel_l by lia. f_equal. lia.
  - pose proof (u32_range (m * 2 ^ 3)). lia.
Qed.

Lemma sha1_count_overcount_witness :
  let '(c0, c1) := sha1_counts (0, 0) (2 ^ 29) in
  c0 = u32 (8 * 2 ^ 29) /\ c1 = u32 (Z.shiftr (8 * 2 ^ 29) 32 + 1).
Proof. apply (sha1_count_overcount (2 ^ 29)). lia. Defined.
