(* ===== verification/Hmac.v ===== *)
(** * HMAC: [lib/util/hmac_md5.c] and [lib/util/hmac_sha1.c]

    [fr_hmac_md5] is modelled over the digest interface, as the C code calls
    through the digest function pointers; [fr_hmac_sha1] calls the local SHA-1
    functions.  Both are the builds without OpenSSL.  The reference is RFC 2104. *)
From S2P Require Import Prelude Bytes BlockHash Md5 Sha1.

(** [for (i = 0; i < n; i++) pad[i] ^= c;] *)
Definition xor_pad (n : nat) (c : Z) (pad : list Z) : list Z :=
  map (fun b => Z.lxor b c) (take n pad) ++ drop n pad.

(** [memset(pad, 0, 65); memcpy(pad, key, key_len);] *)
Definition key_pad (key : list Z) : list Z := list_inserts 0 key (replicate 65 0).

(** RFC 2104, with a 64-byte block. *)
Definition hmac_key (H : list Z -> list Z) (key : list Z) : list Z :=
  let k := if decide (64 < length key)%nat then H key else key in
  k ++ replicate (64 - length k) 0.

Definition hmac_spec (H : list Z -> list Z) (key text : list Z) : list Z :=
  let k := hmac_key H key in
  H (map (fun b => Z.lxor b 0x5c) k ++ H (map (fun b => Z.lxor b 0x36) k ++ text)).

Lemma take_key_pad c key :
  (length key <= 64)%nat ->
  take 64 (xor_pad 64 c (key_pad key)) =
  map (fun b => Z.lxor b c) (key ++ replicate (64 - length key) 0).
Proof.
  intros Hk. unfold xor_pad.
  assert (E : key_pad key = key ++ replicate (65 - length key) 0).
  { unfold key_pad. replace (replicate 65 0) with
      (replicate (length key) 0 ++ replicate (65 - length key) 0).
    - rewrite list_inserts_0_r; [done|]. by rewrite length_replicate.
    - rewrite <- replicate_add. f_equal. lia. }
  rewrite E, take_app_length'.
  - f_equal. rewrite take_app_ge by lia. f_equal. rewrite take_replicate. f_equal. lia.
  - rewrite length_map, length_take, length_app, length_replicate. lia.
Qed.

(** ** The routines *)

Definition fr_hmac_md5 {ctx : Type} `{DigestApi ctx} (inp key : list Z) : list Z :=
  let c : ctx := dg_alloc in
  let '(c, key) :=
    if decide (64 < length key)%nat then
      let c := dg_update c key in
      let '(tk, c) := dg_final c in
      (dg_reset c, tk)
    else (c, key) in
  let k_ipad := xor_pad 64 0x36 (key_pad key) in
  let k_opad := xor_pad 64 0x5c (key_pad key) in
  let c := dg_update c (take 64 k_ipad) in
  let c := dg_update c inp in
  let '(digest, c) := dg_final c in
  let c := dg_reset c in
  let c := dg_update c (take 64 k_opad) in
  let c := dg_update c (take 16 digest) in
  (dg_final c).1.

(** [tctx] and [ctx] are the uninitialised local variables. *)
Definition fr_hmac_sha1 (tctx ctx : fr_sha1_ctx) (inp key : list Z) : list Z :=
  let key :=
    if decide (64 < length key)%nat then
      let tctx := fr_sha1_init tctx in
      let tctx := fr_sha1_update tctx key in
      (fr_sha1_final tctx).1
    else key in
  let k_ipad := xor_pad 64 0x36 (key_pad key) in
  let k_opad := xor_pad 64 0x5c (key_pad key) in
  let ctx := fr_sha1_init ctx in
  let ctx := fr_sha1_update ctx (take 64 k_ipad) in
  let ctx := fr_sha1_update ctx inp in
  let '(digest, ctx) := fr_sha1_final ctx in
  let ctx := fr_sha1_init ctx in
  let ctx := fr_sha1_update ctx (take 64 k_opad) in
  let ctx := fr_sha1_update ctx (take 20 digest) in
  (fr_sha1_final ctx).1.

Section HmacPasses.
Context {ctx : Type} `{DigestApi ctx}.
Context {digest : list Z -> list Z} {n : nat} `{!DigestLaws ctx digest n}.

(** The two passes, from any freshly reset context and a key of at most a block. *)
Lemma hmac_passes c key k inp (i := take 64 (xor_pad 64 0x36 (key_pad key)))
    (o := take 64 (xor_pad 64 0x5c (key_pad key))) :
  dg_absorbed c [] -> (length key <= 64)%nat ->
  k = key ++ replicate (64 - length key) 0 ->
  Z.of_nat (64 + length inp) < dg_limit -> Z.of_nat (64 + n) < dg_limit ->
  (let '(d1, c1) := dg_final (dg_update (dg_update c i) inp) in
   (dg_final (dg_update (dg_update (dg_reset c1) o) (take n d1))).1) =
  digest (map (fun b => Z.lxor b 0x5c) k ++
          digest (map (fun b => Z.lxor b 0x36) k ++ inp)).
Proof.
  intros Hc Hk -> Hl1 Hl2. unfold i, o. rewrite !take_key_pad by done.
  set (k := key ++ _).
  assert (Lk : length k = 64%nat) by (unfold k; rewrite length_app, length_replicate; lia).
  assert (Hu : forall e c', dg_absorbed c' [] ->
    dg_absorbed (dg_update c' (map (fun b => Z.lxor b e) k)) (map (fun b => Z.lxor b e) k)).
  { intros e c' Hc'. apply (dg_update_spec c' []); [done|]. simpl. rewrite length_map. lia. }
  set (c0 := dg_update (dg_update c _) inp).
  assert (H0 : dg_absorbed c0 (map (fun b => Z.lxor b 0x36) k ++ inp)).
  { apply dg_update_spec; [by apply Hu|]. rewrite length_app, length_map. lia. }
  pose proof (dg_reset_spec c0 _ H0) as Hr. pose proof (dg_final_spec c0 _ H0) as Hd1.
  destruct (dg_final c0) as [d1 c1]. cbn [fst snd] in Hd1, Hr.
  rewrite take_ge by (rewrite Hd1, dg_length; lia). rewrite <- Hd1.
  apply dg_final_spec, dg_update_spec; [by apply Hu|].
  rewrite length_app, length_map, Hd1, dg_length. lia.
Qed.
End HmacPasses.

Lemma fr_hmac_md5_ok {ctx : Type} `{DigestApi ctx} {digest : list Z -> list Z}
    `{!DigestLaws ctx digest 16} inp key :
  Z.of_nat (64 + length inp) < dg_limit -> Z.of_nat (length key) < dg_limit ->
  80 < dg_limit ->
  fr_hmac_md5 (ctx := ctx) inp key = hmac_spec digest key inp.
Proof.
  intros Hi Hk Hl. unfold fr_hmac_md5, hmac_spec, hmac_key. case_decide as Hc.
  - assert (H0 : dg_absorbed (dg_update dg_alloc key) key)
      by (apply (dg_update_spec _ []); [apply dg_alloc_spec|done]).
    pose proof (dg_reset_spec _ _ H0) as Hr. pose proof (dg_final_spec _ _ H0) as Htk.
    destruct (dg_final (dg_update dg_alloc key)) as [tk c1]. cbn [fst snd] in Htk, Hr.
    subst tk. apply hmac_passes; [done|rewrite dg_length; lia|done..].
  - apply hmac_passes; [apply dg_alloc_spec|lia|done..].
Qed.

(** Conversion unfolds the interface before the implementation. *)
#[local] Strategy 100 [fr_sha1_update fr_sha1_final fr_sha1_init sha1_spec].

Lemma fr_hmac_sha1_ok tctx ctx inp key :
  length (sha1_buffer tctx) = 64%nat -> length (sha1_buffer ctx) = 64%nat ->
  Z.of_nat (64 + length inp) < 2 ^ 29 -> Z.of_nat (length key) < 2 ^ 29 ->
  fr_hmac_sha1 tctx ctx inp key = hmac_spec sha1_spec key inp.
Proof.
  intros Ht Hc Hi Hk. unfold fr_hmac_sha1, hmac_spec, hmac_key.
  assert (E : forall c, length (sha1_buffer c) = 64%nat ->
    dg_absorbed (ctx := fr_sha1_ctx) (fr_sha1_init c) []).
  { intros c Hb. by split. }
  set (key' := if decide (64 < length key)%nat then _ else key).
  assert (Ek : key' = if decide (64 < length key)%nat then sha1_spec key else key).
  { unfold key'. case_decide; [|done]. 
    refine (dg_final_spec (fr_sha1_update (fr_sha1_init tctx) key) key _).
    refine (dg_update_spec (fr_sha1_init tctx) [] key _ _); [by apply E|done]. }
  assert (Hk' : (length key' <= 64)%nat)
    by (rewrite Ek; case_decide; [rewrite (dg_length (ctx := fr_sha1_ctx))|]; lia).
  pose proof (hmac_passes (ctx := fr_sha1_ctx) (digest := sha1_spec) (n := 20)
    (fr_sha1_init ctx) key' _ inp (E ctx Hc) Hk' eq_refl Hi ltac:(done)) as P.
  cbn [dg_final dg_update dg_reset sha1_api] in P.
  rewrite <- Ek. exact P.
Qed.

Lemma length_hmac_spec H key text n :
  (forall d, length (H d) = n) -> length (hmac_spec H key text) = n.
Proof. intros Hn. apply Hn. Qed.

(** [fr_hmac_md5] over the local MD5 implementation is RFC 2104 HMAC over RFC
    1321 MD5, for every key (hashed first when longer than a block) and every
    message whose inner hash input is shorter than 2^29 bytes. *)
Theorem fr_hmac_md5_rfc2104 inp key :
  Z.of_nat (64 + length inp) < 2 ^ 29 -> Z.of_nat (length key) < 2 ^ 29 ->
  fr_hmac_md5 (ctx := fr_md5_ctx_local_t) inp key = hmac_spec md5_spec key inp.
Proof.
  intros Hi Hk. apply fr_hmac_md5_ok; [exact Hi|exact Hk|]. simpl. lia.
Qed.

(** RFC 2202, test case 2. *)
Lemma fr_hmac_md5_rfc2104_witness :
  fr_hmac_md5 (ctx := fr_md5_ctx_local_t)
    [0x77; 0x68; 0x61; 0x74; 0x20; 0x64; 0x6f; 0x20; 0x79; 0x61; 0x20; 0x77; 0x61;
     0x6e; 0x74; 0x20; 0x66; 0x6f; 0x72; 0x20; 0x6e; 0x6f; 0x74; 0x68; 0x69; 0x6e;
     0x67; 0x3f] [0x4a; 0x65; 0x66; 0x65] =
  [0x75; 0x0c; 0x78; 0x3e; 0x6a; 0xb0; 0xb5; 0x03; 0xea; 0xa8; 0x6e; 0x31; 0x0a;
   0x5d; 0xb7; 0x38].
Proof.
  etransitivity; [apply fr_hmac_md5_rfc2104; simpl; lia|].
  vm_compute. reflexivity.
Defined.

(** [fr_hmac_sha1] (the build without OpenSSL) is RFC 2104 HMAC over FIPS 180-4
    SHA-1, whatever the uninitialised contexts hold, for every key and every message
    whose inner hash input is shorter than 2^29 bytes. *)
Theorem fr_hmac_sha1_rfc2104 tctx ctx inp key :
  length (sha1_buffer tctx) = 64%nat -> length (sha1_buffer ctx) = 64%nat ->
  Z.of_nat (64 + length inp) < 2 ^ 29 -> Z.of_nat (length key) < 2 ^ 29 ->
  fr_hmac_sha1 tctx ctx inp key = hmac_spec sha1_spec key inp.
Proof. apply fr_hmac_sha1_ok. Qed.

(** RFC 2202, test case 2 for HMAC-SHA-1. *)
Lemma fr_hmac_sha1_rfc2104_witness :
  fr_hmac_sha1 (Sha1Ctx (Sha1State 1 2 3 4 5) (6, 7) (replicate 64 8)) sha1_wiped
    [0x77; 0x68; 0x61; 0x74; 0x20; 0x64; 0x6f; 0x20; 0x79; 0x61; 0x20; 0x77; 0x61;
     0x6e; 0x74; 0x20; 0x66; 0x6f; 0x72; 0x20; 0x6e; 0x6f; 0x74; 0x68; 0x69; 0x6e;
     0x67; 0x3f] [0x4a; 0x65; 0x66; 0x65] =
  [0xef; 0xfc; 0xdf; 0x6a; 0xe5; 0xeb; 0x2f; 0xa2; 0xd2; 0x74; 0x16; 0xd5; 0xf1; 0x84;
   0xdf; 0x9c; 0x25; 0x9a; 0x7c; 0x79].
Proof.
  etransitivity; [apply fr_hmac_sha1_rfc2104; (reflexivity || (simpl; lia))|].
  vm_compute. reflexivity.
Defined.
