(* ===== verification/RadiusPacket.v ===== *)
(** * RADIUS packets: [protocols/radius/base.c]

    Validation of received packets ([fr_radius_ok], [fr_radius_recv_header]),
    signing ([fr_radius_sign]) and verification ([fr_radius_verify]) of the
    Message-Authenticator attribute and of the Request/Response Authenticator.  Packets are byte buffers, possibly longer
    than the length their header announces; [None] is an access outside a buffer. *)
From S2P Require Import Prelude Bytes BlockHash Md5 Hmac.

(** ** Packet codes and attributes used by the code *)

Definition FR_RADIUS_CODE_ACCESS_REQUEST : Z := 1.
Definition FR_RADIUS_CODE_ACCESS_ACCEPT : Z := 2.
Definition FR_RADIUS_CODE_ACCESS_REJECT : Z := 3.
Definition FR_RADIUS_CODE_ACCOUNTING_REQUEST : Z := 4.
Definition FR_RADIUS_CODE_ACCOUNTING_RESPONSE : Z := 5.
Definition FR_RADIUS_CODE_ACCESS_CHALLENGE : Z := 11.
Definition FR_RADIUS_CODE_STATUS_SERVER : Z := 12.
Definition FR_RADIUS_CODE_DISCONNECT_REQUEST : Z := 40.
Definition FR_RADIUS_CODE_DISCONNECT_ACK : Z := 41.
Definition FR_RADIUS_CODE_DISCONNECT_NAK : Z := 42.
Definition FR_RADIUS_CODE_COA_REQUEST : Z := 43.
Definition FR_RADIUS_CODE_COA_ACK : Z := 44.
Definition FR_RADIUS_CODE_COA_NAK : Z := 45.
Definition FR_RADIUS_CODE_PROTOCOL_ERROR : Z := 52.
Definition FR_RADIUS_CODE_MAX : Z := 53.

Definition FR_EAP_MESSAGE : Z := 79.
Definition FR_MESSAGE_AUTHENTICATOR : Z := 80.

Definition RADIUS_HEADER_LENGTH : nat := 20.
Definition RADIUS_AUTH_VECTOR_LENGTH : nat := 16.
Definition MAX_PACKET_LEN : Z := 4096.

Inductive decode_fail_t :=
| DECODE_FAIL_NONE
| DECODE_FAIL_MIN_LENGTH_PACKET
| DECODE_FAIL_MIN_LENGTH_FIELD
| DECODE_FAIL_MIN_LENGTH_MISMATCH
| DECODE_FAIL_HEADER_OVERFLOW
| DECODE_FAIL_UNKNOWN_PACKET_CODE
| DECODE_FAIL_INVALID_ATTRIBUTE
| DECODE_FAIL_ATTRIBUTE_TOO_SHORT
| DECODE_FAIL_ATTRIBUTE_OVERFLOW
| DECODE_FAIL_MA_INVALID_LENGTH
| DECODE_FAIL_ATTRIBUTE_UNDERFLOW
| DECODE_FAIL_TOO_MANY_ATTRIBUTES
| DECODE_FAIL_MA_MISSING
| DECODE_FAIL_MA_INVALID
| DECODE_FAIL_UNKNOWN
| DECODE_FAIL_MAX.

#[export] Instance decode_fail_eq_dec : EqDecision decode_fail_t.
Proof. solve_decision. Defined.

(** ** [fr_radius_ok] *)

(** State of the attribute walk when it ends without a failure. *)
Record ok_walk := OkWalk {
  w_attr : nat; w_num : Z; w_require_ma : bool; w_seen_ma : bool }.

(** [while (attr < end) { ... }]; one unit of fuel per iteration. *)
Fixpoint ok_attrs (fuel : nat) (packet : list Z) (attr endp : nat) (num : Z)
    (require_ma seen_ma : bool) : option (decode_fail_t + ok_walk) :=
  match fuel with
  | O => None
  | S fuel' =>
      if decide (attr < endp)%nat then
        if decide (endp - attr < 2)%nat then Some (inl DECODE_FAIL_HEADER_OVERFLOW) else
        a0 ← rd packet attr;
        if decide (a0 = 0) then Some (inl DECODE_FAIL_INVALID_ATTRIBUTE) else
        a1 ← rd packet (attr + 1);
        if decide (a1 < 2) then Some (inl DECODE_FAIL_ATTRIBUTE_TOO_SHORT) else
        if decide (endp < attr + Z.to_nat a1)%nat
        then Some (inl DECODE_FAIL_ATTRIBUTE_OVERFLOW) else
        let next := ok_attrs fuel' packet (attr + Z.to_nat a1) endp (u32 (num + 1)) in
        if decide (a0 = FR_EAP_MESSAGE) then next true seen_ma else
        if decide (a0 = FR_MESSAGE_AUTHENTICATOR) then
          if decide (a1 <> 2 + Z.of_nat RADIUS_AUTH_VECTOR_LENGTH)
          then Some (inl DECODE_FAIL_MA_INVALID_LENGTH)
          else next require_ma true
        else next require_ma seen_ma
      else Some (inr (OkWalk attr num require_ma seen_ma))
  end.

(** The failure reason ([DECODE_FAIL_NONE] is the result [true]) and the value
    left in [*packet_len_p]. *)
Definition fr_radius_ok (packet : list Z) (packet_len : nat) (max_attributes : Z)
    (require_ma : bool) : option (decode_fail_t * nat) :=
  if decide (packet_len < RADIUS_HEADER_LENGTH)%nat
  then Some (DECODE_FAIL_MIN_LENGTH_PACKET, packet_len) else
  totallen ← fr_nbo_to_uint16 packet 2;
  code ← rd packet 0;
  if decide (code = 0 \/ FR_RADIUS_CODE_MAX <= code)
  then Some (DECODE_FAIL_UNKNOWN_PACKET_CODE, packet_len) else
  let require_ma := if decide (code = FR_RADIUS_CODE_STATUS_SERVER) then true else require_ma in
  if decide (totallen < Z.of_nat RADIUS_HEADER_LENGTH)
  then Some (DECODE_FAIL_MIN_LENGTH_FIELD, packet_len) else
  if decide (Z.of_nat packet_len < totallen)
  then Some (DECODE_FAIL_MIN_LENGTH_MISMATCH, packet_len) else
  let packet_len := if decide (totallen < Z.of_nat packet_len)
                    then Z.to_nat totallen else packet_len in
  w ← ok_attrs (S packet_len) packet RADIUS_HEADER_LENGTH packet_len 0 require_ma false;
  match w with
  | inl failure => Some (failure, packet_len)
  | inr w =>
      if decide (w_attr w <> packet_len)
      then Some (DECODE_FAIL_ATTRIBUTE_UNDERFLOW, packet_len) else
      if decide (0 < max_attributes /\ max_attributes < w_num w)
      then Some (DECODE_FAIL_TOO_MANY_ATTRIBUTES, packet_len) else
      if w_require_ma w && negb (w_seen_ma w)
      then Some (DECODE_FAIL_MA_MISSING, packet_len)
      else Some (DECODE_FAIL_NONE, packet_len)
  end.

(** [fr_radius_recv_header]: the decision on the four header bytes peeked from
    the socket ([header] holds what was received). [inl] is "discard the datagram,
    return 0", [inr] the packet length and code. *)
Definition fr_radius_recv_header (header : list Z) : option (unit + Z * Z) :=
  if decide (length header < 4)%nat then Some (inl ()) else
  h2 ← rd header 2; h3 ← rd header 3;
  let packet_len := h2 * 256 + h3 in
  if decide (packet_len < Z.of_nat RADIUS_HEADER_LENGTH) then Some (inl ()) else
  if decide (MAX_PACKET_LEN < packet_len) then Some (inl ()) else
  code ← rd header 0; Some (inr (packet_len, code)).

(** ** [fr_radius_sign] *)

Inductive sign_err :=
| ErrSecretTooLong
| ErrNotEncoded
| ErrInvalidAttribute (offset : nat)
| ErrMaTooSmall
| ErrNeedOriginal
| ErrBadPacket.

(** The search for Message-Authenticator shared by signing and verification. *)
Inductive ma_search :=
| MaAbsent                   (** the loop ended at [end] *)
| MaFound (msg : nat)        (** [break] with [msg] on the attribute *)
| MaInvalid (offset : nat)   (** [goto invalid_attribute] *)
| MaTooSmall.                (** length field below 18 *)

Fixpoint find_ma (fuel : nat) (packet : list Z) (msg endp : nat) : option ma_search :=
  match fuel with
  | O => None
  | S fuel' =>
      if decide (msg < endp)%nat then
        if decide (endp - msg < 2)%nat then Some (MaInvalid msg) else
        m0 ← rd packet msg;
        m1 ← rd packet (msg + 1);
        if decide (m0 <> FR_MESSAGE_AUTHENTICATOR) then
          if decide (m1 < 2) then Some (MaInvalid msg) else
          if decide (endp < msg + Z.to_nat m1)%nat then Some (MaInvalid msg) else
          find_ma fuel' packet (msg + Z.to_nat m1) endp
        else if decide (m1 < 18) then Some MaTooSmall
        else Some (MaFound msg)
      else Some MaAbsent
  end.

(** [memcpy(packet + 4, original + 4, 16)] needs the original request. *)
Definition original_vector (original : option (list Z)) : option (sign_err + list Z) :=
  match original with
  | None => Some (inl ErrNeedOriginal)
  | Some o => v ← rd_slice 4 RADIUS_AUTH_VECTOR_LENGTH o; Some (inr v)
  end.

Definition zero_vector : list Z := replicate RADIUS_AUTH_VECTOR_LENGTH 0.

(** First switch: the vector the Message-Authenticator is computed with
    ([None]: the one already in the packet). *)
Definition ma_vector (code : Z) (original : option (list Z))
    : option (sign_err + option (list Z)) :=
  let do_ack := r ← original_vector original;
                Some (match r with inl e => inl e | inr v => inr (Some v) end) in
  if decide (code = FR_RADIUS_CODE_ACCOUNTING_RESPONSE \/
             code = FR_RADIUS_CODE_DISCONNECT_ACK \/ code = FR_RADIUS_CODE_DISCONNECT_NAK \/
             code = FR_RADIUS_CODE_COA_ACK \/ code = FR_RADIUS_CODE_COA_NAK) then
    match original with
    | None => Some (inl ErrNeedOriginal)
    | Some o =>
        o0 ← rd o 0;
        if decide (o0 = FR_RADIUS_CODE_STATUS_SERVER) then do_ack
        else Some (inr (Some zero_vector))
    end
  else if decide (code = FR_RADIUS_CODE_ACCOUNTING_REQUEST \/
                  code = FR_RADIUS_CODE_DISCONNECT_REQUEST \/
                  code = FR_RADIUS_CODE_COA_REQUEST) then Some (inr (Some zero_vector))
  else if decide (code = FR_RADIUS_CODE_ACCESS_ACCEPT \/ code = FR_RADIUS_CODE_ACCESS_REJECT \/
                  code = FR_RADIUS_CODE_ACCESS_CHALLENGE) then do_ack
  else if decide (code = FR_RADIUS_CODE_ACCESS_REQUEST \/ code = FR_RADIUS_CODE_STATUS_SERVER)
  then Some (inr None)
  else Some (inl ErrBadPacket).

(** Second switch: the vector the authenticator is computed with
    ([None]: [return 0], the authenticator is random and is left alone). *)
Definition auth_vector (code : Z) (original : option (list Z))
    : option (sign_err + option (list Z)) :=
  if decide (code = FR_RADIUS_CODE_ACCOUNTING_REQUEST \/
             code = FR_RADIUS_CODE_DISCONNECT_REQUEST \/ code = FR_RADIUS_CODE_COA_REQUEST)
  then Some (inr (Some zero_vector))
  else if decide (code = FR_RADIUS_CODE_ACCESS_ACCEPT \/ code = FR_RADIUS_CODE_ACCESS_REJECT \/
                  code = FR_RADIUS_CODE_ACCESS_CHALLENGE \/
                  code = FR_RADIUS_CODE_ACCOUNTING_RESPONSE \/
                  code = FR_RADIUS_CODE_DISCONNECT_ACK \/ code = FR_RADIUS_CODE_DISCONNECT_NAK \/
                  code = FR_RADIUS_CODE_COA_ACK \/ code = FR_RADIUS_CODE_COA_NAK \/
                  code = FR_RADIUS_CODE_PROTOCOL_ERROR) then
    r ← original_vector original;
    Some (match r with inl e => inl e | inr v => inr (Some v) end)
  else if decide (code = FR_RADIUS_CODE_ACCESS_REQUEST \/ code = FR_RADIUS_CODE_STATUS_SERVER)
  then Some (inr None)
  else Some (inl ErrBadPacket).

Section Signing.
Context {ctx : Type} `{DigestApi ctx}.

(** Zero the attribute, compute the HMAC over the packet, store it. *)
Definition sign_ma (packet : list Z) (packet_len msg : nat) (v : option (list Z))
    (secret : list Z) : option (list Z) :=
  packet ← (match v with None => Some packet | Some v => wr_slice 4 v packet end);
  packet ← wr_zero (msg + 2) RADIUS_AUTH_VECTOR_LENGTH packet;
  d ← rd_slice 0 packet_len packet;
  wr_slice (msg + 2) (fr_hmac_md5 (ctx := ctx) d secret) packet.

(** Request / Response Authenticator = MD5(packet + secret). *)
Definition sign_auth (packet : list Z) (packet_len : nat) (v : option (list Z))
    (secret : list Z) : option (list Z) :=
  match v with
  | None => Some packet
  | Some v =>
      packet ← wr_slice 4 v packet;
      d ← rd_slice 0 packet_len packet;
      wr_slice 4 (dg_final (dg_update (dg_update (dg_alloc : ctx) d) secret)).1 packet
  end.

(** The packet left in the buffer, and the return value. *)
Definition fr_radius_sign (packet : list Z) (original : option (list Z))
    (secret : list Z) : option (list Z * (sign_err + unit)) :=
  packet_len ← fr_nbo_to_uint16 packet 2;
  if decide (65535 < Z.of_nat (length secret)) then Some (packet, inl ErrSecretTooLong) else
  if decide (packet_len < Z.of_nat RADIUS_HEADER_LENGTH)
  then Some (packet, inl ErrNotEncoded) else
  let len := Z.to_nat packet_len in
  code ← rd packet 0;
  let finish packet :=
    r ← auth_vector code original;
    match r with
    | inl e => Some (packet, inl e)
    | inr v => p ← sign_auth packet len v secret; Some (p, inr ())
    end in
  f ← find_ma (S len) packet RADIUS_HEADER_LENGTH len;
  match f with
  | MaInvalid off => Some (packet, inl (ErrInvalidAttribute off))
  | MaTooSmall => Some (packet, inl ErrMaTooSmall)
  | MaAbsent => finish packet
  | MaFound msg =>
      r ← ma_vector code original;
      match r with
      | inl e => Some (packet, inl e)
      | inr v => p ← sign_ma packet len msg v secret; finish p
      end
  end.

(** ** [fr_radius_verify] *)

Inductive verify_err :=
| VErrLength
| VErrInvalidAttribute (offset : nat)
| VErrMaTooSmall
| VErrMaMissing
| VErrSign (e : sign_err)
| VErrMessageAuthenticator
| VErrAuthenticator.

(** Check of the Request / Response Authenticator; [packet] has been signed,
    [request_authenticator] is the saved copy. *)
Definition verify_authenticator (packet request_authenticator : list Z)
    : option (list Z * (verify_err + unit)) :=
  code ← rd packet 0;
  if decide (code = FR_RADIUS_CODE_ACCESS_REQUEST \/ code = FR_RADIUS_CODE_STATUS_SERVER)
  then Some (packet, inr ()) else
  now ← rd_slice 4 RADIUS_AUTH_VECTOR_LENGTH packet;
  c ← fr_digest_cmp request_authenticator now 0 RADIUS_AUTH_VECTOR_LENGTH;
  if decide (c <> 0) then
    packet ← wr_slice 4 request_authenticator packet;
    Some (packet, inl VErrAuthenticator)
  else Some (packet, inr ()).

(** From the policy check on; [ma] is the position and the saved value of the
    Message-Authenticator, if there is one. *)
Definition verify_signature (packet : list Z) (original : option (list Z))
    (secret : list Z) (require_ma : bool) (request_authenticator : list Z)
    (ma : option (nat * list Z)) : option (list Z * (verify_err + unit)) :=
  code ← rd packet 0;
  if bool_decide (code = FR_RADIUS_CODE_ACCESS_REQUEST) && require_ma &&
     match ma with None => true | Some _ => false end
  then Some (packet, inl VErrMaMissing) else
  s ← fr_radius_sign packet original secret;
  match s with
  | (packet, inl e) => Some (packet, inl (VErrSign e))
  | (packet, inr _) =>
      match ma with
      | Some (msg, message_authenticator) =>
          now ← rd_slice (msg + 2) RADIUS_AUTH_VECTOR_LENGTH packet;
          c ← fr_digest_cmp message_authenticator now 0 RADIUS_AUTH_VECTOR_LENGTH;
          if decide (c <> 0) then
            packet ← wr_slice (msg + 2) message_authenticator packet;
            packet ← wr_slice 4 request_authenticator packet;
            Some (packet, inl VErrMessageAuthenticator)
          else verify_authenticator packet request_authenticator
      | None => verify_authenticator packet request_authenticator
      end
  end.

Definition fr_radius_verify (packet : list Z) (original : option (list Z))
    (secret : list Z) (require_ma : bool) : option (list Z * (verify_err + unit)) :=
  packet_len ← fr_nbo_to_uint16 packet 2;
  if decide (packet_len < Z.of_nat RADIUS_HEADER_LENGTH)
  then Some (packet, inl VErrLength) else
  request_authenticator ← rd_slice 4 RADIUS_AUTH_VECTOR_LENGTH packet;
  let len := Z.to_nat packet_len in
  f ← find_ma (S len) packet RADIUS_HEADER_LENGTH len;
  let verify := verify_signature packet original secret require_ma request_authenticator in
  match f with
  | MaInvalid off => Some (packet, inl (VErrInvalidAttribute off))
  | MaTooSmall => Some (packet, inl VErrMaTooSmall)
  | MaAbsent => verify None
  | MaFound msg =>
      message_authenticator ← rd_slice (msg + 2) RADIUS_AUTH_VECTOR_LENGTH packet;
      verify (Some (msg, message_authenticator))
  end.
End Signing.

(** ** Well-formed packets *)

(** An attribute: its number and its value. *)
Definition attr_enc (a : Z * list Z) : list Z :=
  a.1 :: Z.of_nat (length a.2) + 2 :: a.2.

Definition attr_wf (a : Z * list Z) : Prop :=
  a.1 <> 0 /\ (length a.2 <= 253)%nat /\
  (a.1 = FR_MESSAGE_AUTHENTICATOR -> length a.2 = RADIUS_AUTH_VECTOR_LENGTH).

Definition has_attr (n : Z) (attrs : list (Z * list Z)) : bool :=
  existsb (fun a => bool_decide (a.1 = n)) attrs.

Lemma length_attr_enc a : length (attr_enc a) = (2 + length a.2)%nat.
Proof. done. Qed.

(** One attribute at [attr], as the code reads it. *)
Lemma slice_attr packet attr endp a0 a1 :
  bytes_ok packet -> (endp <= length packet)%nat ->
  packet !! attr = Some a0 -> packet !! (attr + 1)%nat = Some a1 -> 2 <= a1 ->
  (attr + Z.to_nat a1 <= endp)%nat ->
  slice attr (endp - attr) packet =
    attr_enc (a0, slice (attr + 2) (Z.to_nat a1 - 2) packet) ++
    slice (attr + Z.to_nat a1) (endp - (attr + Z.to_nat a1)) packet.
Proof.
  intros Hb Hend H0 H1 H2 Hn. unfold attr_enc. simpl.
  rewrite length_slice by lia.
  replace (endp - attr)%nat with
    (S (S ((Z.to_nat a1 - 2) + (endp - (attr + Z.to_nat a1)))))%nat by lia.
  rewrite (slice_cons _ _ _ _ H0).
  replace (attr + 1)%nat with (S attr) in H1 by lia.
  rewrite (slice_cons _ _ _ _ H1), slice_app.
  replace (S (S attr)) with (attr + 2)%nat by lia.
  f_equal. f_equal; [lia|]. f_equal. f_equal. lia.
Qed.

Lemma ok_attrs_sound fuel packet attr endp num r s w :
  bytes_ok packet -> (endp <= length packet)%nat -> (attr <= endp)%nat -> num = u32 num ->
  ok_attrs fuel packet attr endp num r s = Some (inr w) ->
  exists attrs, Forall attr_wf attrs /\
    slice attr (endp - attr) packet = concat (map attr_enc attrs) /\
    w = OkWalk endp (u32 (num + Z.of_nat (length attrs)))
          (r || has_attr FR_EAP_MESSAGE attrs)
          (s || has_attr FR_MESSAGE_AUTHENTICATOR attrs).
Proof.
  intros Hb Hend. revert attr num r s.
  induction fuel as [|fuel IH]; intros attr num r s Ha Hnum; simpl; [done|].
  case_decide as Hlt; cycle 1.
  { intros [= <-]. exists []. assert (attr = endp) as -> by lia.
    rewrite Nat.sub_diag, slice_0, !orb_false_r, Z.add_0_r, <- Hnum. done. }
  case_decide; [done|]. unfold rd.
  destruct (packet !! attr) as [a0|] eqn:E0; [|done]. simpl.
  case_decide as Ha0; [done|].
  destruct (packet !! (attr + 1)%nat) as [a1|] eqn:E1; [|done]. simpl.
  case_decide as Ha1; [done|]. case_decide as Hov; [done|].
  pose proof (bytes_ok_lookup _ _ _ Hb E1) as Hb1. unfold byte_ok in Hb1.
  assert (step : forall r' s',
    (a0 = FR_MESSAGE_AUTHENTICATOR -> a1 = 18) ->
    r' = (r || bool_decide (a0 = FR_EAP_MESSAGE)) ->
    s' = (s || bool_decide (a0 = FR_MESSAGE_AUTHENTICATOR)) ->
    ok_attrs fuel packet (attr + Z.to_nat a1) endp (u32 (num + 1)) r' s' = Some (inr w) ->
    exists attrs, Forall attr_wf attrs /\
      slice attr (endp - attr) packet = concat (map attr_enc attrs) /\
      w = OkWalk endp (u32 (num + Z.of_nat (length attrs)))
            (r || has_attr FR_EAP_MESSAGE attrs)
            (s || has_attr FR_MESSAGE_AUTHENTICATOR attrs)).
  { intros r' s' Hma -> -> Hrec.
    apply IH in Hrec as (attrs & Hwf & Hsl & ->); [|lia|by rewrite u32_idemp].
    exists ((a0, slice (attr + 2) (Z.to_nat a1 - 2) packet) :: attrs).
    split; [|split].
    - constructor; [|done]. unfold attr_wf. simpl. rewrite length_slice by lia.
      split; [done|]. split; [lia|]. intros ->. rewrite (Hma eq_refl). done.
    - rewrite (slice_attr _ _ _ a0 a1) by (done || lia). simpl. by rewrite Hsl.
    - simpl. rewrite !orb_assoc. f_equal. rewrite u32_add_l. f_equal. lia. }
  destruct (decide (a0 = FR_EAP_MESSAGE)) as [He|He];
    [|destruct (decide (a0 = FR_MESSAGE_AUTHENTICATOR)) as [Hm|Hm]].
  - subst a0. apply step; [done|by rewrite orb_true_r|by rewrite orb_false_r].
  - destruct (decide (a1 <> _)) as [Hl|Hl]; [done|]. subst a0.
    apply step; [unfold RADIUS_AUTH_VECTOR_LENGTH in *; lia
                |by rewrite orb_false_r|by rewrite orb_true_r].
  - apply step; [done| |]; by rewrite bool_decide_eq_false_2, orb_false_r.
Qed.

Lemma ok_attrs_complete fuel packet attr endp num r s attrs :
  (endp <= length packet)%nat -> (attr <= endp)%nat -> (endp - attr < fuel)%nat ->
  num = u32 num -> Forall attr_wf attrs ->
  slice attr (endp - attr) packet = concat (map attr_enc attrs) ->
  ok_attrs fuel packet attr endp num r s =
    Some (inr (OkWalk endp (u32 (num + Z.of_nat (length attrs)))
                 (r || has_attr FR_EAP_MESSAGE attrs)
                 (s || has_attr FR_MESSAGE_AUTHENTICATOR attrs))).
Proof.
  intros Hend. revert attr num r s attrs.
  induction fuel as [|fuel IH]; intros attr num r s attrs Ha Hf Hnum Hwf Hsl; [lia|].
  destruct attrs as [|[t v] attrs]; simpl in Hsl.
  { apply (f_equal length) in Hsl. rewrite length_slice in Hsl by lia. simpl in *.
    rewrite decide_False by lia. assert (attr = endp) as -> by lia.
    by rewrite !orb_false_r, Z.add_0_r, <- Hnum. }
  apply Forall_cons_1 in Hwf as [(Ht & Hv & Hma) Hwf]. simpl in Ht, Hv, Hma.
  destruct (slice_app_inv _ _ _ (attr_enc (t, v)) _ Hsl) as (Hlen & Hs1 & Hs2); [lia|].
  rewrite length_attr_enc in *. unfold attr_enc in Hs1. simpl in Hlen, Hs1, Hs2.
  apply slice_cons_inv in Hs1 as [E0 Hs1]. apply slice_cons_inv in Hs1 as [E1 Hs1].
  cbn [ok_attrs]. rewrite decide_True, decide_False by lia. unfold rd.
  rewrite E0. simpl. rewrite decide_False by done.
  replace (attr + 1)%nat with (S attr) by lia. rewrite E1. simpl.
  rewrite decide_False by lia.
  replace (Z.to_nat (Z.of_nat (length v) + 2)) with (2 + length v)%nat by lia.
  rewrite decide_False by lia.
  assert (step : forall r' s',
    r' = (r || bool_decide (t = FR_EAP_MESSAGE)) ->
    s' = (s || bool_decide (t = FR_MESSAGE_AUTHENTICATOR)) ->
    ok_attrs fuel packet (attr + (2 + length v)) endp (u32 (num + 1)) r' s' =
    Some (inr (OkWalk endp (u32 (num + Z.of_nat (S (length attrs))))
      (r || (bool_decide (t = FR_EAP_MESSAGE) || has_attr FR_EAP_MESSAGE attrs))
      (s || (bool_decide (t = FR_MESSAGE_AUTHENTICATOR) ||
             has_attr FR_MESSAGE_AUTHENTICATOR attrs))))).
  { intros r' s' -> ->. rewrite (IH _ _ _ _ attrs); [|lia|lia|by rewrite u32_idemp|done|].
    - rewrite !orb_assoc, u32_add_l. do 4 f_equal. lia.
    - etransitivity; [|exact Hs2]. f_equal. lia. }
  destruct (decide (t = FR_EAP_MESSAGE)) as [He|He];
    [|destruct (decide (t = FR_MESSAGE_AUTHENTICATOR)) as [Hm|Hm]].
  - subst t. apply step; [by rewrite orb_true_r|by rewrite orb_false_r].
  - rewrite decide_False by (rewrite (Hma Hm); unfold RADIUS_AUTH_VECTOR_LENGTH; lia).
    subst t. apply step; [by rewrite orb_false_r|by rewrite orb_true_r].
  - apply step; by rewrite bool_decide_eq_false_2, orb_false_r.
Qed.

(** The walk always ends, within the buffer. *)
Lemma ok_attrs_total fuel packet attr endp num r s :
  bytes_ok packet -> (endp <= length packet)%nat -> (attr <= endp)%nat ->
  (endp - attr < fuel)%nat ->
  exists res, ok_attrs fuel packet attr endp num r s = Some res /\
    match res with
    | inl e => e <> DECODE_FAIL_NONE /\ e <> DECODE_FAIL_ATTRIBUTE_UNDERFLOW
    | inr w => w_attr w = endp
    end.
Proof.
  intros Hb Hend. revert attr num r s.
  induction fuel as [|fuel IH]; intros attr num r s Ha Hf; [lia|]. cbn [ok_attrs].
  case_decide as Hlt; [|eexists; split; [done|simpl; lia]].
  case_decide as H2; [by eexists|]. unfold rd.
  destruct (lookup_lt_is_Some_2 packet attr) as [a0 E0]; [lia|].
  destruct (lookup_lt_is_Some_2 packet (attr + 1)) as [a1 E1]; [lia|].
  rewrite E0, E1. simpl. case_decide; [by eexists|]. case_decide; [by eexists|].
  pose proof (bytes_ok_lookup _ _ _ Hb E1) as Hb1. unfold byte_ok in Hb1.
  case_decide; [by eexists|].
  repeat case_decide; first [by eexists | apply IH; lia].
Qed.

#[local] Arguments ok_attrs : simpl never.

(** What a packet of [len] bytes must be to be accepted. *)
Definition radius_wf (packet : list Z) (packet_len : nat) (max_attributes : Z)
    (require_ma : bool) (len : nat) : Prop :=
  exists code attrs,
    packet !! 0%nat = Some code /\ 0 < code < FR_RADIUS_CODE_MAX /\
    fr_nbo_to_uint16 packet 2 = Some (Z.of_nat len) /\
    (RADIUS_HEADER_LENGTH <= len <= packet_len)%nat /\
    Forall attr_wf attrs /\
    slice RADIUS_HEADER_LENGTH (len - RADIUS_HEADER_LENGTH) packet =
      concat (map attr_enc attrs) /\
    (0 < max_attributes -> Z.of_nat (length attrs) <= max_attributes) /\
    (require_ma || bool_decide (code = FR_RADIUS_CODE_STATUS_SERVER) ||
       has_attr FR_EAP_MESSAGE attrs = true ->
     has_attr FR_MESSAGE_AUTHENTICATOR attrs = true).

Lemma length_attrs_le attrs : (2 * length attrs <= length (concat (map attr_enc attrs)))%nat.
Proof.
  induction attrs as [|a attrs IH]; simpl; [lia|]. rewrite length_app. lia.
Qed.

Lemma ok_num_small packet len attrs :
  bytes_ok packet -> (len <= length packet)%nat ->
  fr_nbo_to_uint16 packet 2 = Some (Z.of_nat len) ->
  slice RADIUS_HEADER_LENGTH (len - RADIUS_HEADER_LENGTH) packet = concat (map attr_enc attrs) ->
  u32 (0 + Z.of_nat (length attrs)) = Z.of_nat (length attrs).
Proof.
  intros Hb Hl Hn Hs. apply fr_nbo_to_uint16_range in Hn; [|done].
  pose proof (length_attrs_le attrs) as H. rewrite <- Hs in H.
  unfold slice in H. rewrite length_take, length_drop in H.
  rewrite u32_small by lia. lia.
Qed.

Lemma fr_radius_ok_sound packet packet_len max_attributes require_ma len :
  bytes_ok packet -> (packet_len <= length packet)%nat ->
  fr_radius_ok packet packet_len max_attributes require_ma = Some (DECODE_FAIL_NONE, len) ->
  radius_wf packet packet_len max_attributes require_ma len.
Proof.
  intros Hb Hl. unfold fr_radius_ok. case_decide as H20; [done|].
  destruct (fr_nbo_to_uint16 packet 2) as [tl|] eqn:En; [|done]. simpl.
  pose proof (fr_nbo_to_uint16_range _ _ _ Hb En) as Htl.
  unfold rd. destruct (packet !! 0%nat) as [code|] eqn:Ec; [|done]. simpl.
  pose proof (bytes_ok_lookup _ _ _ Hb Ec) as Hcode. unfold byte_ok in Hcode.
  case_decide as Hck; [done|]. case_decide as Ht20; [done|]. case_decide as Hmm; [done|].
  set (plen := if decide (tl < _) then _ else packet_len).
  assert (Hplen : Z.of_nat plen = tl /\ (plen <= packet_len)%nat)
    by (unfold plen; case_decide; lia).
  destruct Hplen as [Hplen Hple]. clearbody plen.
  set (rm := if decide (code = _) then true else require_ma).
  assert (Hrm : rm = require_ma || bool_decide (code = FR_RADIUS_CODE_STATUS_SERVER)).
  { unfold rm. case_bool_decide; case_decide; try done; by destruct require_ma. }
  clearbody rm.
  destruct (ok_attrs _ _ _ _ _ _ _) as [[e|w]|] eqn:Ea; simpl; [|  |done].
  { destruct (ok_attrs_total (S plen) packet RADIUS_HEADER_LENGTH plen 0 rm false)
      as (r' & Er & Hr'); [done|lia| |lia|]; unfold RADIUS_HEADER_LENGTH in *; [lia|].
    rewrite Er in Ea. injection Ea as ->. intros [= -> ->]. by destruct Hr'. }
  apply ok_attrs_sound in Ea as (attrs & Hwf & Hsl & ->); [|done|lia| |done];
    unfold RADIUS_HEADER_LENGTH in *; [|lia]. simpl.
  rewrite decide_False by (intros H; apply H; done).
  destruct (decide (0 < max_attributes /\ _)) as [Hmax|Hmax]; [done|].
  destruct (_ && _) eqn:Ema; [done|]. intros [= <-].
  rewrite (ok_num_small packet plen) in Hmax; [|done|lia|by rewrite Hplen|done].
  unfold radius_wf, RADIUS_HEADER_LENGTH. exists code, attrs.
  split; [done|]. split; [unfold FR_RADIUS_CODE_MAX in *; lia|].
  split; [by rewrite Hplen|]. split; [lia|]. split; [done|]. split; [done|]. split; [lia|].
  rewrite <- Hrm. intros H. apply andb_false_iff in Ema as [E|E].
  - congruence.
  - by apply negb_false_iff in E.
Qed.

Lemma fr_radius_ok_complete packet packet_len max_attributes require_ma len :
  bytes_ok packet -> (packet_len <= length packet)%nat ->
  radius_wf packet packet_len max_attributes require_ma len ->
  fr_radius_ok packet packet_len max_attributes require_ma = Some (DECODE_FAIL_NONE, len).
Proof.
  intros Hb Hl (code & attrs & Ec & Hc & En & Hlen & Hwf & Hsl & Hmax & Hma).
  pose proof (ok_num_small packet len attrs Hb ltac:(lia) En Hsl) as Hn.
  unfold fr_radius_ok, RADIUS_HEADER_LENGTH, FR_RADIUS_CODE_MAX in *.
  rewrite decide_False by lia.
  rewrite En. simpl. unfold rd. rewrite Ec. simpl.
  set (rm := if decide (code = _) then true else require_ma).
  assert (Hrm : rm = require_ma || bool_decide (code = FR_RADIUS_CODE_STATUS_SERVER)).
  { unfold rm. case_bool_decide; case_decide; try done; by destruct require_ma. }
  clearbody rm.
  assert (E : (if decide (Z.of_nat len < Z.of_nat packet_len)
               then Z.to_nat (Z.of_nat len) else packet_len) = len)
    by (destruct (decide _); lia).
  rewrite E. do 3 rewrite decide_False by lia.
  rewrite (ok_attrs_complete _ _ _ _ _ _ _ attrs) by (done || lia).
  cbn [mbind option_bind w_attr w_num w_require_ma w_seen_ma].
  rewrite decide_False by (intros H; apply H; done).
  rewrite Hn, decide_False by lia. rewrite Hrm. simpl.
  destruct (require_ma || _ || _) eqn:Er; [|done]. by rewrite Hma.
Qed.

(** C1: [fr_radius_ok] accepts a received datagram exactly when it is a well-formed
    RADIUS packet: a code from 1 to 52, a length field between 20 and the number of bytes
    received, and behind the header a sequence of attributes that fills the packet
    to the last byte, each with a non-zero number and a length field covering its
    header, every Message-Authenticator 16 bytes long, no more attributes than the
    configured maximum, and a Message-Authenticator present whenever the caller,
    a Status-Server code or an EAP-Message requires one.  The length handed back is
    the length field. *)
Theorem fr_radius_ok_iff packet packet_len max_attributes require_ma len :
  bytes_ok packet -> (packet_len <= length packet)%nat ->
  fr_radius_ok packet packet_len max_attributes require_ma = Some (DECODE_FAIL_NONE, len) <->
  radius_wf packet packet_len max_attributes require_ma len.
Proof.
  intros Hb Hl. split; [by apply fr_radius_ok_sound|by apply fr_radius_ok_complete].
Qed.

(** An Access-Request carrying an EAP-Message and a Message-Authenticator, with
    two bytes of trailing padding in the datagram. *)
Definition example_packet : list Z :=
  [1; 7; 0; 44] ++ replicate 16 5 ++ [79; 6; 2; 7; 0; 4] ++ 80 :: 18 :: replicate 16 0 ++ [9; 9].

Lemma fr_radius_ok_iff_witness :
  bytes_ok example_packet /\
  radius_wf example_packet 46 0 false 44.
Proof.
  split; [by apply (bool_decide_unpack _); vm_compute|].
  apply (fr_radius_ok_iff example_packet 46 0 false 44).
  - by apply (bool_decide_unpack _); vm_compute.
  - simpl. lia.
  - vm_compute. reflexivity.
Defined.

(** C37: on every datagram [fr_radius_ok] returns a verdict without reading outside
    the received bytes, and the verdict is never
    [DECODE_FAIL_ATTRIBUTE_UNDERFLOW]: the attribute walk cannot stop short of the
    end of the packet. *)
Theorem fr_radius_ok_total packet packet_len max_attributes require_ma :
  bytes_ok packet -> (packet_len <= length packet)%nat ->
  exists reason len,
    fr_radius_ok packet packet_len max_attributes require_ma = Some (reason, len) /\
    reason <> DECODE_FAIL_ATTRIBUTE_UNDERFLOW /\ (len <= packet_len)%nat.
Proof.
  intros Hb Hl. unfold fr_radius_ok, RADIUS_HEADER_LENGTH.
  case_decide as H20; [by eexists _, _|].
  destruct (fr_nbo_to_uint16_defined packet 2) as [tl En]; [lia|]. rewrite En. simpl.
  pose proof (fr_nbo_to_uint16_range _ _ _ Hb En) as Htl.
  unfold rd. destruct (lookup_lt_is_Some_2 packet 0) as [code ->]; [lia|]. simpl.
  case_decide; [by eexists _, _|]. case_decide; [by eexists _, _|].
  case_decide; [by eexists _, _|].
  set (plen := if decide (tl < _) then _ else packet_len).
  assert (Hplen : (20 <= plen <= packet_len)%nat) by (unfold plen; case_decide; lia).
  clearbody plen.
  destruct (ok_attrs_total (S plen) packet 20 plen 0
    (if decide (code = FR_RADIUS_CODE_STATUS_SERVER) then true else require_ma) false)
    as (res & -> & Hres); [done|lia..|]. simpl.
  destruct res as [e|w]; [eexists _, _; split; [done|]; split; [apply Hres|lia]|].
  rewrite decide_False by (intros H'; apply H'; done).
  case_decide; [eexists _, _; split; [done|]; split; [done|lia]|].
  destruct (_ && _); (eexists _, _; split; [done|]; split; [done|lia]).
Qed.

Lemma fr_radius_ok_total_witness :
  exists reason len,
    fr_radius_ok (take 30 example_packet) 30 0 false = Some (reason, len) /\
    reason <> DECODE_FAIL_ATTRIBUTE_UNDERFLOW /\ (len <= 30)%nat.
Proof.
  apply fr_radius_ok_total; [by apply (bool_decide_unpack _); vm_compute|simpl; lia].
Defined.
