(* ===== verification/RadiusSign.v ===== *)
(** * RADIUS signatures: what [fr_radius_sign] and [fr_radius_verify] compute

    The two switches on the packet code, the frame of a signature (what it
    overwrites), its idempotence, and from these the specification of
    verification.  The lemmas are proved for any digest satisfying the digest
    interface; the theorems instantiate it with the local MD5. *)
From S2P Require Import Prelude Bytes BlockHash Md5 Hmac RadiusPacket.

(** ** Signing and verification *)

Lemma find_ma_bound fuel p m e k :
  find_ma fuel p m e = Some (MaFound k) -> (m <= k /\ k + 2 <= e)%nat.
Proof.
  revert m. induction fuel as [|fuel IH]; intros m; simpl; [done|].
  case_decide; [|done]. case_decide; [done|]. unfold rd.
  destruct (p !! m) as [m0|]; [|done]. destruct (p !! (m + 1)%nat) as [m1|]; [|done]. simpl.
  case_decide.
  - case_decide; [done|]. case_decide; [done|]. intros H'. apply IH in H'. lia.
  - case_decide; [done|]. intros [= ->]. lia.
Qed.

(** The search only reads the attribute headers it passes. *)
Lemma find_ma_agree fuel p q m e f :
  find_ma fuel p m e = Some f ->
  (forall i, (m <= i)%nat -> (forall k, f = MaFound k -> (i < k + 2)%nat) -> p !! i = q !! i) ->
  find_ma fuel q m e = Some f.
Proof.
  revert m. induction fuel as [|fuel IH]; intros m Hf Hag; [done|].
  assert (Hk : forall k, f = MaFound k -> (m <= k)%nat).
  { intros k ->. apply find_ma_bound in Hf. lia. }
  cbn [find_ma] in *. case_decide; [|done]. case_decide; [done|]. unfold rd in *.
  rewrite <- (Hag m), <- (Hag (m + 1)%nat)
    by (lia || (intros k Ek; apply Hk in Ek; lia)).
  destruct (p !! m) as [m0|]; [|done]. destruct (p !! (m + 1)%nat) as [m1|]; [|done]. simpl in *.
  case_decide; [|done]. case_decide; [done|]. case_decide; [done|].
  apply IH; [done|]. intros i Hi Hik. apply Hag; [lia|done].
Qed.

(** On a well-formed attribute list the search ends, and the attribute found is
    complete. *)
Lemma find_ma_wf fuel p m e attrs :
  (e <= length p)%nat -> (m <= e)%nat -> (e - m < fuel)%nat -> Forall attr_wf attrs ->
  slice m (e - m) p = concat (map attr_enc attrs) ->
  find_ma fuel p m e = Some MaAbsent \/
  exists k, find_ma fuel p m e = Some (MaFound k) /\ (m <= k /\ k + 18 <= e)%nat.
Proof.
  intros He. revert m attrs.
  induction fuel as [|fuel IH]; intros m attrs Hm Hf Hwf Hsl; [lia|].
  destruct attrs as [|[t v] attrs]; simpl in Hsl.
  { apply (f_equal length) in Hsl. rewrite length_slice in Hsl by lia. simpl in *.
    left. by rewrite decide_False by lia. }
  apply Forall_cons_1 in Hwf as [(Ht & Hv & Hma) Hwf]. simpl in Ht, Hv, Hma.
  destruct (slice_app_inv _ _ _ (attr_enc (t, v)) _ Hsl) as (Hlen & Hs1 & Hs2); [lia|].
  rewrite length_attr_enc in *. unfold attr_enc in Hs1. simpl in Hlen, Hs1, Hs2.
  apply slice_cons_inv in Hs1 as [E0 Hs1]. apply slice_cons_inv in Hs1 as [E1 Hs1].
  cbn [find_ma]. rewrite decide_True, decide_False by lia. unfold rd.
  replace (m + 1)%nat with (S m) by lia. rewrite E0, E1. simpl.
  replace (Z.to_nat (Z.of_nat (length v) + 2)) with (2 + length v)%nat by lia.
  destruct (decide (t = FR_MESSAGE_AUTHENTICATOR)) as [->|Hne].
  - rewrite decide_False by auto. rewrite (Hma eq_refl) in *.
    unfold RADIUS_AUTH_VECTOR_LENGTH in *. rewrite decide_False by lia.
    right. eexists. split; [done|]. lia.
  - rewrite decide_True by done. do 2 rewrite decide_False by lia.
    destruct (IH (m + (2 + length v))%nat attrs) as [Hr|(k & Hr & Hk)]; [lia|lia|done| | |].
    + etransitivity; [|exact Hs2]. f_equal. lia.
    + by left.
    + right. exists k. split; [done|]. lia.
Qed.

(** Attributes other than a Message-Authenticator (number 80). *)
Definition other_attrs (attrs : list (Z * list Z)) : Prop :=
  Forall (fun a => a.1 <> 80 /\ (length a.2 <= 253)%nat) attrs.

(** What the search finds: the attributes passed and the one it stops at. *)
Lemma find_ma_spec fuel p len f : forall a,
  bytes_ok p -> (len <= length p)%nat -> (a <= len)%nat -> find_ma fuel p a len = Some f ->
  match f with
  | MaAbsent => exists attrs, other_attrs attrs /\ slice a (len - a) p = concat (map attr_enc attrs)
  | MaFound m => p !! m = Some 80 /\ (exists l, p !! (m + 1)%nat = Some l /\ 18 <= l) /\
      exists attrs, other_attrs attrs /\ slice a (m - a) p = concat (map attr_enc attrs)
  | _ => True
  end.
Proof.
  induction fuel as [|fuel IH]; intros a Hb Hl Ha E; [done|].
  cbn [find_ma] in E.
  case_decide as Hlt; cycle 1.
  { injection E as <-. exists []. split; [constructor|]. by replace (len - a)%nat with 0%nat by lia. }
  case_decide; [by injection E as <-|]. unfold rd in E.
  destruct (p !! a) as [m0|] eqn:E0; [|done]. destruct (p !! (a + 1)%nat) as [m1|] eqn:E1; [|done].
  cbn [mbind option_bind] in E. case_decide as Hm; cycle 1.
  { case_decide; [by injection E as <-|]. injection E as <-.
    destruct (decide (m0 = FR_MESSAGE_AUTHENTICATOR)) as [->|]; [|done].
    split; [done|]. split; [exists m1; split; [done|lia]|]. exists []. split; [constructor|].
    by rewrite Nat.sub_diag. }
  case_decide; [by injection E as <-|]. case_decide; [by injection E as <-|].
  pose proof (bytes_ok_lookup _ _ _ Hb E1) as Hb1. unfold byte_ok in Hb1.
  assert (Hcons : forall e attrs, (a + Z.to_nat m1 <= e)%nat -> (e <= len)%nat -> other_attrs attrs ->
    slice (a + Z.to_nat m1) (e - (a + Z.to_nat m1)) p = concat (map attr_enc attrs) ->
    exists attrs', other_attrs attrs' /\ slice a (e - a) p = concat (map attr_enc attrs')).
  { intros e attrs He Hel Hat Hs. exists ((m0, slice (a + 2) (Z.to_nat m1 - 2) p) :: attrs). split.
    - apply Forall_cons_2; [|done]. cbn [fst snd]. rewrite length_slice by lia. split; [done|lia].
    - rewrite (slice_attr _ _ _ m0 m1) by (done || lia). cbn [map concat]. by rewrite Hs. }
  pose proof (IH (a + Z.to_nat m1)%nat Hb Hl ltac:(lia) E) as IHa.
  destruct f as [|m| |]; try done.
  - destruct IHa as (attrs & Hat & Hs). by apply (Hcons len attrs ltac:(lia)).
  - destruct IHa as (Hm80 & Hl18 & attrs & Hat & Hs). apply find_ma_bound in E.
    split; [done|]. split; [done|]. apply (Hcons m attrs); (done || lia).
Qed.

Lemma original_vector_length o v :
  original_vector o = Some (inr v) -> length v = 16%nat.
Proof.
  unfold original_vector. destruct o as [o|]; [|done].
  destruct (rd_slice _ _ o) as [v'|] eqn:E; [|done]. simpl. intros [= ->].
  apply rd_slice_inv in E as [? ->]. by apply length_slice.
Qed.

(** The two switches agree on which packets keep their vector, and write 16
    bytes otherwise. *)
Definition vector_ok (v : option (list Z)) : Prop :=
  match v with None => True | Some v => length v = 16%nat end.

#[local] Arguments original_vector : simpl never.

Ltac solve_vector :=
  repeat case_decide; intros; simplify_eq/=; try done;
  repeat match goal with
  | H : context [original_vector ?o ≫= _] |- _ =>
      destruct (original_vector o) as [[?|?]|] eqn:?; simplify_eq/=
  | H : original_vector _ = Some (inr _) |- _ =>
      apply original_vector_length in H
  end; try done.

Lemma auth_vector_ok code o v : auth_vector code o = Some (inr v) -> vector_ok v.
Proof. unfold auth_vector. solve_vector. Qed.

Lemma ma_vector_ok code o v : ma_vector code o = Some (inr v) -> vector_ok v.
Proof.
  unfold ma_vector. destruct o as [o|]; [destruct (rd o 0) as [o0|]|]; simpl; solve_vector.
Qed.

Ltac unfold_codes :=
  unfold FR_RADIUS_CODE_ACCESS_REQUEST, FR_RADIUS_CODE_STATUS_SERVER,
    FR_RADIUS_CODE_ACCOUNTING_REQUEST, FR_RADIUS_CODE_DISCONNECT_REQUEST,
    FR_RADIUS_CODE_COA_REQUEST, FR_RADIUS_CODE_ACCESS_ACCEPT, FR_RADIUS_CODE_ACCESS_REJECT,
    FR_RADIUS_CODE_ACCESS_CHALLENGE, FR_RADIUS_CODE_ACCOUNTING_RESPONSE,
    FR_RADIUS_CODE_DISCONNECT_ACK, FR_RADIUS_CODE_DISCONNECT_NAK,
    FR_RADIUS_CODE_COA_ACK, FR_RADIUS_CODE_COA_NAK, FR_RADIUS_CODE_PROTOCOL_ERROR in *.

Lemma auth_vector_None code o v :
  auth_vector code o = Some (inr v) ->
  v = None <-> code = FR_RADIUS_CODE_ACCESS_REQUEST \/ code = FR_RADIUS_CODE_STATUS_SERVER.
Proof.
  unfold auth_vector. unfold_codes. repeat case_decide; try done.
  - intros [= <-]. split; [done|lia].
  - destruct (original_vector o) as [[?|?]|]; simpl; try done. intros [= <-].
    split; [done|lia].
  - intros [= <-]. tauto.
Qed.

(** [memcpy(packet + 4, v, 16)] when the switch chose a vector. *)
Definition set_vector (v : option (list Z)) (p : list Z) : list Z :=
  match v with None => p | Some v => list_inserts 4 v p end.

(** The two packets differ at most in what signing overwrites: the vector, when
    one is written, and the value of the Message-Authenticator. *)
Definition same_content (v : option (list Z)) (f : ma_search) (p q : list Z) : Prop :=
  length p = length q /\
  forall i, (v = None \/ i < 4 \/ 20 <= i)%nat ->
    (forall m, f = MaFound m -> i < m + 2 \/ m + 18 <= i)%nat -> p !! i = q !! i.

Lemma same_content_refl v f p : same_content v f p p.
Proof. done. Qed.

Lemma same_content_sym v f p q : same_content v f p q -> same_content v f q p.
Proof. intros [Hl Hi]. split; [done|]. intros i H1 H2. by rewrite Hi. Qed.

Lemma same_content_trans v f p q r :
  same_content v f p q -> same_content v f q r -> same_content v f p r.
Proof.
  intros [Hl Hi] [Hl' Hi']. split; [congruence|]. intros i H1 H2. by rewrite Hi, Hi'.
Qed.

#[global] Instance same_content_equiv v f : Equivalence (same_content v f).
Proof.
  split; [intros ?; apply same_content_refl|intros ??; apply same_content_sym
         |intros ???; apply same_content_trans].
Qed.

Lemma lookup_inserts_out off src (b : list Z) i :
  (i < off \/ off + length src <= i)%nat -> list_inserts off src b !! i = b !! i.
Proof.
  intros [H|H]; [by rewrite list_lookup_inserts_lt|by rewrite list_lookup_inserts_ge].
Qed.

Lemma same_content_vector v w f p :
  (v = None -> w = None) -> vector_ok w -> same_content v f p (set_vector w p).
Proof.
  intros Hvw Hw. destruct w as [w|]; simpl; [|done]. split; [by rewrite length_inserts|].
  intros i [->|Hi] _; [by specialize (Hvw eq_refl)|].
  simpl in Hw. rewrite lookup_inserts_out; [done|lia].
Qed.

Lemma same_content_ma v m src p :
  length src = 16%nat -> same_content v (MaFound m) p (list_inserts (m + 2) src p).
Proof.
  intros Hs. split; [by rewrite length_inserts|]. intros i _ Hi.
  rewrite lookup_inserts_out; [done|]. specialize (Hi m eq_refl). lia.
Qed.

(** Writing the overwritten parts forgets what they held. *)
Lemma same_content_overwrite v w m p q :
  same_content v (MaFound m) p q -> (v = None <-> w = None) -> vector_ok w ->
  (20 <= m)%nat -> (m + 18 <= length p)%nat ->
  list_inserts (m + 2) zero_vector (set_vector w p) =
  list_inserts (m + 2) zero_vector (set_vector w q).
Proof.
  intros [Hl Hi] Hvw Hw Hm Hlen. apply list_eq. intros i.
  assert (Lz : length zero_vector = 16%nat) by done.
  assert (Ls : forall x, length (set_vector w x) = length x)
    by (intros x; destruct w; simpl; rewrite ?length_inserts; done).
  destruct (decide (m + 2 <= i < m + 18)%nat).
  { by rewrite !list_lookup_inserts by (rewrite ?Ls; lia). }
  rewrite !lookup_inserts_out by lia. destruct w as [w|]; simpl in *.
  - destruct (decide (4 <= i < 20)%nat).
    + by rewrite !list_lookup_inserts by lia.
    + rewrite !lookup_inserts_out by lia. apply Hi; [lia|]. intros m' [= <-]. lia.
  - apply Hi; [left; by apply Hvw|]. intros m' [= <-]. lia.
Qed.

Lemma same_content_vector_eq v f p q :
  same_content (Some v) f p q -> length v = 16%nat -> (20 <= length p)%nat ->
  (forall m, f <> MaFound m) -> list_inserts 4 v p = list_inserts 4 v q.
Proof.
  intros [Hl Hi] Hv Hp Hf. apply list_eq. intros i.
  destruct (decide (4 <= i < 20)%nat).
  - by rewrite !list_lookup_inserts by lia.
  - rewrite !lookup_inserts_out by lia. apply Hi; [lia|]. intros m Em. by destruct (Hf m).
Qed.

Lemma same_content_find v f p q len :
  same_content v f p q -> find_ma (S len) p 20 len = Some f -> (len <= length p)%nat ->
  find_ma (S len) q 20 len = Some f.
Proof.
  intros [Hl Hi] Hf Hlen. apply (find_ma_agree _ p); [done|].
  intros i H20 Hk. apply Hi; [lia|]. intros m ->. specialize (Hk m eq_refl). lia.
Qed.

Lemma ma_vector_None code o v :
  ma_vector code o = Some (inr v) ->
  v = None <-> code = FR_RADIUS_CODE_ACCESS_REQUEST \/ code = FR_RADIUS_CODE_STATUS_SERVER.
Proof.
  unfold ma_vector. intros Hm.
  assert (Hno : forall r, (r0 ← original_vector o; Some (match r0 with inl e => inl e
    | inr v => inr (Some v) end)) = Some (inr r) -> r <> None).
  { intros r. by destruct (original_vector o) as [[?|?]|]; [|intros [= <-]|]. }
  revert Hm. unfold_codes.
  repeat case_decide; try (intros Hm; apply Hno in Hm; lia).
  - destruct o as [o|]; [|done]. destruct (rd o 0) as [o0|]; [|done]. simpl.
    case_decide; [intros Hm; apply Hno in Hm; split; [done|lia]|].
    intros [= <-]. split; [done|lia].
  - intros [= <-]. split; [done|lia].
  - intros Hm. apply Hno in Hm. split; [done|lia].
  - intros [= <-]. tauto.
  - done.
Qed.

Lemma ma_auth_vector code o vm :
  ma_vector code o = Some (inr vm) ->
  (exists va, auth_vector code o = Some (inr va) /\ (va = None <-> vm = None)) \/
  auth_vector code o = None.
Proof.
  intros Hm. destruct (auth_vector code o) as [[e|va]|] eqn:Ha; [exfalso| |by right].
  - revert Hm Ha. unfold ma_vector, auth_vector, original_vector.
    destruct o as [o|]; [destruct (rd_slice 4 RADIUS_AUTH_VECTOR_LENGTH o), (rd o 0)|]; simpl;
      repeat case_decide; solve [done|tauto|unfold_codes; lia].
  - left. exists va. split; [done|]. apply auth_vector_None in Ha. rewrite Ha.
    by rewrite (ma_vector_None _ _ _ Hm).
Qed.

#[local] Arguments find_ma : simpl never.
#[local] Arguments fr_nbo_to_uint16 : simpl never.
#[local] Arguments list_inserts : simpl never.
#[local] Arguments replicate : simpl never.

Section SignFacts.
Context {ctx : Type} `{DigestApi ctx} {digest : list Z -> list Z}.
Context `{!DigestLaws ctx digest 16} (Hlim : 262144 <= dg_limit).

(** The Message-Authenticator and the authenticator, over the buffers as they
    stand when the digest is computed. *)
Definition ma_value (len : nat) (x s : list Z) : list Z :=
  hmac_spec digest s (slice 0 len x).
Definition auth_value (len : nat) (x s : list Z) : list Z := digest (slice 0 len x ++ s).

Definition signed_ma (len m : nat) (v : option (list Z)) (s p : list Z) : list Z :=
  let x := list_inserts (m + 2) zero_vector (set_vector v p) in
  list_inserts (m + 2) (ma_value len x s) x.

Definition signed_auth (len : nat) (v : option (list Z)) (s p : list Z) : list Z :=
  match v with
  | None => p
  | Some v => let x := list_inserts 4 v p in list_inserts 4 (auth_value len x s) x
  end.

Lemma length_ma_value len x s : length (ma_value len x s) = 16%nat.
Proof. apply length_hmac_spec, dg_length. Qed.
Lemma length_auth_value len x s : length (auth_value len x s) = 16%nat.
Proof. unfold auth_value. apply dg_length. Qed.

Lemma length_signed_ma len m v s p : length (signed_ma len m v s p) = length p.
Proof. unfold signed_ma. rewrite !length_inserts. destruct v; simpl; by rewrite ?length_inserts. Qed.
Lemma length_signed_auth len v s p : length (signed_auth len v s p) = length p.
Proof. destruct v; simpl; by rewrite ?length_inserts. Qed.

Lemma sign_ma_eq p len m v s :
  vector_ok v -> Z.of_nat len <= 65535 -> Z.of_nat (length s) <= 65535 ->
  (20 <= length p)%nat -> (m + 18 <= length p)%nat -> (len <= length p)%nat ->
  sign_ma (ctx := ctx) p len m v s = Some (signed_ma len m v s p).
Proof.
  intros Hv Hlen Hs H20 Hm Hl. unfold sign_ma, signed_ma.
  assert (E : match v with None => Some p | Some v => wr_slice 4 v p end =
              Some (set_vector v p)).
  { destruct v; simpl in *; [|done]. apply wr_slice_Some. lia. }
  assert (Ls : length (set_vector v p) = length p)
    by (destruct v; simpl; by rewrite ?length_inserts).
  rewrite E. simpl. unfold wr_zero. rewrite wr_slice_Some
    by (rewrite length_replicate, Ls; unfold RADIUS_AUTH_VECTOR_LENGTH; lia). simpl.
  rewrite rd_slice_Some by (rewrite length_inserts; lia). simpl.
  rewrite (fr_hmac_md5_ok (ctx := ctx))
    by (rewrite ?length_slice; rewrite ?length_inserts; lia).
  rewrite wr_slice_Some; [done|].
  rewrite length_inserts, (length_hmac_spec digest _ _ 16 dg_length). lia.
Qed.

Lemma sign_auth_eq p len v s :
  vector_ok v -> Z.of_nat len <= 65535 -> Z.of_nat (length s) <= 65535 ->
  (20 <= length p)%nat -> (len <= length p)%nat ->
  sign_auth (ctx := ctx) p len v s = Some (signed_auth len v s p).
Proof.
  intros Hv Hlen Hs H20 Hl. unfold sign_auth, signed_auth. destruct v as [v|]; [|done].
  simpl in Hv. rewrite wr_slice_Some by lia. simpl.
  rewrite rd_slice_Some by (rewrite length_inserts; lia). simpl.
  set (x := slice 0 len _).
  assert (Hx : length x = len) by (apply length_slice; rewrite length_inserts; lia).
  assert (E : (dg_final (dg_update (dg_update (dg_alloc : ctx) x) s)).1 = digest (x ++ s)).
  { apply dg_final_spec, dg_update_spec; [|rewrite length_app; lia].
    apply (dg_update_spec _ []); [apply dg_alloc_spec|simpl; lia]. }
  rewrite E, wr_slice_Some; [done|]. rewrite length_inserts, dg_length. lia.
Qed.

(** Everything a successful signature depends on. *)
Record sign_data := SignData {
  sd_len : nat; sd_code : Z; sd_ma : ma_search;
  sd_auth_vector : option (list Z); sd_ma_vector : option (list Z) }.

(** The buffer holds the packet its header announces. *)
Definition buffered (p : list Z) (len : nat) : Prop :=
  bytes_ok p /\ fr_nbo_to_uint16 p 2 = Some (Z.of_nat len) /\ (len <= length p)%nat.

Definition sign_pre (p : list Z) (o : option (list Z)) (s : list Z) (d : sign_data) : Prop :=
  buffered p (sd_len d) /\ (20 <= sd_len d)%nat /\ Z.of_nat (length s) <= 65535 /\
  p !! 0%nat = Some (sd_code d) /\
  find_ma (S (sd_len d)) p 20 (sd_len d) = Some (sd_ma d) /\
  auth_vector (sd_code d) o = Some (inr (sd_auth_vector d)) /\
  match sd_ma d with
  | MaAbsent => True
  | MaFound m => ma_vector (sd_code d) o = Some (inr (sd_ma_vector d)) /\
                 (m + 18 <= length p)%nat
  | _ => False
  end.

Definition sign_result (s : list Z) (d : sign_data) (p : list Z) : list Z :=
  signed_auth (sd_len d) (sd_auth_vector d) s
    (match sd_ma d with
     | MaFound m => signed_ma (sd_len d) m (sd_ma_vector d) s p
     | _ => p
     end).

Lemma buffered_len p len : buffered p len -> Z.of_nat len <= 65535.
Proof. intros (Hb & Hn & _). apply fr_nbo_to_uint16_range in Hn; [lia|done]. Qed.

Lemma sign_succeeds p o s d :
  sign_pre p o s d -> fr_radius_sign (ctx := ctx) p o s = Some (sign_result s d p, inr ()).
Proof.
  destruct d as [len code f va vm]. unfold sign_pre, sign_result. simpl.
  intros (Hb & H20 & Hs & Hc & Hf & Ha & Hm). pose proof (buffered_len _ _ Hb) as Hmax.
  destruct Hb as (Hb & Hn & Hl).
  unfold fr_radius_sign. rewrite Hn. simpl. unfold RADIUS_HEADER_LENGTH.
  do 2 rewrite decide_False by lia. rewrite Nat2Z.id. unfold rd. rewrite Hc. simpl.
  rewrite Hf. simpl. pose proof (auth_vector_ok _ _ _ Ha) as Hva.
  destruct f as [|m| |]; try done.
  - rewrite Ha. simpl. by rewrite sign_auth_eq by (done || lia).
  - destruct Hm as [Hm Hm18]. rewrite Hm. simpl. pose proof (ma_vector_ok _ _ _ Hm) as Hvm.
    rewrite sign_ma_eq by (done || lia). simpl. rewrite Ha. simpl.
    rewrite sign_auth_eq by (rewrite ?length_signed_ma; done || lia). done.
Qed.

Lemma sign_ma_inv p len m v s q :
  sign_ma (ctx := ctx) p len m v s = Some q -> (m + 18 <= length p)%nat.
Proof.
  unfold sign_ma. destruct (match v with None => _ | _ => _ end) as [p1|] eqn:E1; [|done].
  simpl. destruct (wr_zero _ _ p1) as [p2|] eqn:E2; [|done]. intros _.
  apply wr_slice_inv in E2 as [Hl _]. rewrite length_replicate in Hl.
  unfold RADIUS_AUTH_VECTOR_LENGTH in Hl.
  assert (length p1 = length p); [|lia].
  destruct v; [apply wr_slice_inv in E1 as [_ ->]; by rewrite length_inserts|congruence].
Qed.

(** Signing either succeeds with the packet the data determine, or reports an
    error and leaves the packet alone. *)
Lemma sign_inv p o s len q res :
  buffered p len -> fr_radius_sign (ctx := ctx) p o s = Some (q, res) ->
  (exists d, sign_pre p o s d /\ q = sign_result s d p /\ res = inr ()) \/
  (q = p /\ exists e, res = inl e).
Proof.
  intros Hb. pose proof (buffered_len _ _ Hb) as Hmax.
  pose proof Hb as (Hby & Hn & Hl). unfold fr_radius_sign at 1.
  rewrite Hn. simpl. unfold RADIUS_HEADER_LENGTH.
  destruct (decide _) as [Hs|Hs]; [intros [= <- <-]; right; eauto|].
  destruct (decide _) as [H20|H20]; [intros [= <- <-]; right; eauto|].
  rewrite Nat2Z.id. unfold rd. destruct (p !! 0%nat) as [code|] eqn:Hc; [|done]. simpl.
  destruct (find_ma _ _ _ _) as [f|] eqn:Hf; [|done]. simpl.
  destruct f as [|m|off|]; try (intros [= <- <-]; right; eauto; done).
  - destruct (auth_vector code o) as [[e|va]|] eqn:Ha; simpl; [| |done];
      [intros [= <- <-]; right; eauto|].
    pose proof (auth_vector_ok _ _ _ Ha). rewrite sign_auth_eq by (done || lia).
    simpl. intros [= <- <-]. left.
    exists (SignData len code MaAbsent va None).
    split; [|by split]. unfold sign_pre. simpl. split_and!; done || lia.
  - destruct (ma_vector code o) as [[e|vm]|] eqn:Hm; simpl; [| |done];
      [intros [= <- <-]; right; eauto|].
    pose proof (ma_vector_ok _ _ _ Hm).
    destruct (sign_ma _ _ _ _ _) as [p1|] eqn:Hp1; [|done].
    pose proof (sign_ma_inv _ _ _ _ _ _ Hp1) as Hm18.
    rewrite sign_ma_eq in Hp1 by (done || lia). injection Hp1 as <-. simpl.
    destruct (ma_auth_vector _ _ _ Hm) as [(va & Ha & _)|Ha]; rewrite Ha; [|done]. simpl.
    pose proof (auth_vector_ok _ _ _ Ha).
    rewrite sign_auth_eq by (rewrite ?length_signed_ma; done || lia).
    simpl. intros [= <- <-]. left.
    exists (SignData len code (MaFound m) va vm).
    split; [|by split]. unfold sign_pre. simpl. split_and!; done || lia.
Qed.

Lemma sign_pre_vectors p o s d m :
  sign_pre p o s d -> sd_ma d = MaFound m ->
  (sd_auth_vector d = None <-> sd_ma_vector d = None) /\ vector_ok (sd_ma_vector d) /\
  (20 <= m)%nat /\ (m + 18 <= length p)%nat.
Proof.
  intros (Hb & H20 & Hs & Hc & Hf & Ha & Hm) E. rewrite E in *. destruct Hm as [Hm H18].
  split; [|split; [by eapply ma_vector_ok|]].
  - by rewrite (auth_vector_None _ _ _ Ha), (ma_vector_None _ _ _ Hm).
  - apply find_ma_bound in Hf. lia.
Qed.

(** Signing only overwrites the vector and the Message-Authenticator. *)
Lemma sign_result_content p o s d :
  sign_pre p o s d -> same_content (sd_auth_vector d) (sd_ma d) p (sign_result s d p).
Proof.
  intros Hp. unfold sign_result.
  assert (Ha : vector_ok (sd_auth_vector d)) by (eapply auth_vector_ok; apply Hp).
  assert (H1 : forall q, same_content (sd_auth_vector d) (sd_ma d) q
    (signed_auth (sd_len d) (sd_auth_vector d) s q)).
  { intros q. destruct (sd_auth_vector d) as [va|] eqn:Ev; simpl; [|done].
    etransitivity; [apply (same_content_vector _ (Some va)); done|].
    apply (same_content_vector _ (Some _)); [done|]. apply length_auth_value. }
  destruct (sd_ma d) as [|m| |] eqn:Em; try apply H1.
  destruct (sign_pre_vectors _ _ _ _ _ Hp Em) as (Hv & Hok & _).
  etransitivity; [|apply H1]. unfold signed_ma.
  etransitivity; [|apply same_content_ma, length_ma_value].
  etransitivity; [|by apply same_content_ma].
  apply same_content_vector; [|done]. by apply Hv.
Qed.

(** Packets of the same content get the same signature. *)
Lemma sign_result_same p q o s d :
  sign_pre p o s d -> same_content (sd_auth_vector d) (sd_ma d) p q ->
  sign_result s d p = sign_result s d q.
Proof.
  intros Hp Hpq. unfold sign_result. destruct (sd_ma d) as [|m| |] eqn:Em.
  2: { destruct (sign_pre_vectors _ _ _ _ _ Hp Em) as (Hv & Hok & Hm & H18).
    f_equal. unfold signed_ma.
    by rewrite (same_content_overwrite _ _ _ _ _ Hpq Hv Hok Hm H18). }
  all: destruct Hp as ((_ & _ & Hl) & H20 & _ & _ & _ & Ha & Hm);
    rewrite Em in Hm; try done.
  pose proof (auth_vector_ok _ _ _ Ha) as Hok.
  destruct (sd_auth_vector d) as [va|]; simpl in *.
  - rewrite (same_content_vector_eq _ _ _ _ Hpq) by (done || lia). done.
  - apply list_eq. intros i. apply Hpq; [by left|]. intros m Em'. done.
Qed.

Lemma sign_pre_same p q o s d :
  sign_pre p o s d -> same_content (sd_auth_vector d) (sd_ma d) p q -> bytes_ok q ->
  sign_pre q o s d.
Proof.
  intros (Hb & H20 & Hs & Hc & Hf & Ha & Hm) Hpq Hq.
  pose proof Hpq as [Hl Hi]. destruct Hb as (_ & Hn & Hlen).
  assert (Hlow : forall i, (i < 4)%nat -> p !! i = q !! i).
  { intros i Hi4. apply Hi; [lia|]. intros m Em. rewrite Em in Hf.
    apply find_ma_bound in Hf. lia. }
  split; [split; [done|split; [|lia]]|].
  { rewrite <- Hn. symmetry. apply fr_nbo_to_uint16_local; apply Hlow; lia. }
  split; [done|]. split; [done|]. split; [rewrite <- Hlow by lia; done|].
  split; [by eapply same_content_find|]. split; [done|].
  destruct (sd_ma d); [done| |done..]. destruct Hm. split; [done|lia].
Qed.

(** What is left in the packet: the Message-Authenticator [mv], computed with
    [vm] in the header and zeros in the attribute, and the authenticator [av],
    computed with [va] in the header and [mv] in the attribute. *)
Lemma sign_result_eq p o s d (va := sd_auth_vector d) (len := sd_len d) :
  sign_pre p o s d ->
  let '(y, p') := match sd_ma d with
    | MaFound m =>
        let mv := ma_value len (list_inserts (m + 2) zero_vector
                    (set_vector (sd_ma_vector d) p)) s in
        (list_inserts (m + 2) mv (set_vector va p), list_inserts (m + 2) mv p)
    | _ => (set_vector va p, p)
    end in
  sign_result s d p = set_vector ((fun _ => auth_value len y s) <$> va) p'.
Proof.
  intros Hp. unfold sign_result. fold va len.
  assert (Hva : vector_ok va) by (eapply auth_vector_ok; apply Hp).
  assert (HA : forall x, signed_auth len va s x =
    set_vector ((fun _ => auth_value len (set_vector va x) s) <$> va) x).
  { intros x. destruct va as [v|]; simpl; [|done].
    apply inserts_inserts_same. by rewrite length_auth_value. }
  rewrite HA. destruct (sd_ma d) as [|m| |] eqn:Em; try done.
  destruct (sign_pre_vectors _ _ _ _ _ Hp Em) as (Hv & Hok & Hm & H18). fold va in Hv.
  unfold signed_ma. rewrite inserts_inserts_same by by rewrite length_ma_value.
  set (mv := ma_value _ _ _). assert (Hmv : length mv = 16%nat) by apply length_ma_value.
  destruct (sd_ma_vector d) as [w|], va as [v|]; simpl in *;
    [|by discriminate (proj1 Hv eq_refl)|by discriminate (proj2 Hv eq_refl)|done].
  assert (E : forall a, length a = 16%nat ->
    list_inserts 4 a (list_inserts (m + 2) mv (list_inserts 4 w p)) =
    list_inserts (m + 2) mv (list_inserts 4 a p)).
  { intros a La. rewrite inserts_comm by lia. f_equal. apply inserts_inserts_same. lia. }
  rewrite !E by (done || apply length_auth_value).
  rewrite (inserts_comm (m + 2)) by (rewrite length_auth_value; lia). done.
Qed.

Lemma sign_result_bytes p o s d : sign_pre p o s d -> bytes_ok (sign_result s d p).
Proof.
  intros Hp. pose proof (sign_result_eq _ _ _ _ Hp) as E.
  destruct Hp as ((Hb & _) & _).
  assert (Hd : forall x, bytes_ok (digest x)) by apply dg_bytes.
  assert (HA : forall (va : option (list Z)) y q, bytes_ok q ->
    bytes_ok (set_vector ((fun _ => auth_value (sd_len d) y s) <$> va) q)).
  { intros va y q Hq. destruct va; simpl; [|done]. apply bytes_ok_inserts; [done|apply Hd]. }
  destruct (sd_ma d) as [|m| |]; rewrite E; apply HA; try done.
  apply bytes_ok_inserts; [done|apply Hd].
Qed.

Lemma sign_idem p o s d :
  sign_pre p o s d ->
  sign_pre (sign_result s d p) o s d /\ sign_result s d (sign_result s d p) = sign_result s d p.
Proof.
  intros Hp. pose proof (sign_result_content _ _ _ _ Hp) as Hc. split.
  - apply (sign_pre_same p); [done..|]. by apply sign_result_bytes in Hp.
  - symmetry. by apply (sign_result_same p _ o).
Qed.

(** The comparisons of verification decide whether signing changed anything, and
    the saved values restore the packet. *)
Lemma slice_lookup_eq off n (p q : list Z) i :
  slice off n p = slice off n q -> (off <= i < off + n)%nat -> p !! i = q !! i.
Proof.
  intros E Hi. replace i with (off + (i - off))%nat by lia.
  rewrite <- !(lookup_slice off n) by lia. by rewrite E.
Qed.

Lemma same_content_eq v f p q :
  same_content v f p q -> (v = None \/ slice 4 16 p = slice 4 16 q) ->
  (forall m, f = MaFound m -> slice (m + 2) 16 p = slice (m + 2) 16 q) -> p = q.
Proof.
  intros [Hl Hi] Hv Hf. apply list_eq. intros i.
  assert (HA : (forall m, f = MaFound m -> i < m + 2 \/ m + 18 <= i)%nat -> p !! i = q !! i).
  { intros Hm. destruct (decide (4 <= i < 20)%nat).
    - destruct Hv as [->|Hv]; [apply Hi; [by left|done]|]. by apply (slice_lookup_eq 4 16).
    - apply Hi; [lia|done]. }
  destruct f as [|m| |]; try by apply HA.
  destruct (decide (m + 2 <= i < m + 18)%nat).
  - apply (slice_lookup_eq (m + 2) 16); [by apply Hf|lia].
  - apply HA. intros m' [= <-]. lia.
Qed.

Lemma restore_vector p q n :
  length p = length q -> (4 + n <= length p)%nat -> 
  (forall i, (i < 4 \/ 4 + n <= i)%nat -> p !! i = q !! i) ->
  list_inserts 4 (slice 4 n p) q = p.
Proof.
  intros Hl H4 Hi. apply list_eq. intros i. pose proof (length_slice 4 n p H4) as Hs.
  destruct (decide (4 <= i < 4 + n)%nat).
  - rewrite list_lookup_inserts, lookup_slice by lia. f_equal. lia.
  - rewrite lookup_inserts_out by lia. symmetry. apply Hi. lia.
Qed.

Lemma restore_ma v m p q :
  same_content v (MaFound m) p q -> (m + 18 <= length p)%nat ->
  same_content v MaAbsent p (list_inserts (m + 2) (slice (m + 2) 16 p) q).
Proof.
  intros [Hl Hi] Hm. assert (Hs : length (slice (m + 2) 16 p) = 16%nat)
    by (apply length_slice; lia).
  split; [by rewrite length_inserts|]. intros i Hv _.
  destruct (decide (m + 2 <= i < m + 18)%nat).
  - rewrite list_lookup_inserts, lookup_slice by lia. f_equal. lia.
  - rewrite lookup_inserts_out by lia. apply Hi; [done|]. intros m' [= <-]. lia.
Qed.

Lemma same_content_restore v f p q :
  same_content v f p q -> (20 <= length p)%nat ->
  (forall m, f = MaFound m -> slice (m + 2) 16 p = slice (m + 2) 16 q) ->
  list_inserts 4 (slice 4 16 p) q = p.
Proof.
  intros Hc H20 Hf. apply restore_vector; [apply Hc|lia|]. intros i Hi.
  destruct f as [|m| |]; try (apply Hc; [by right; lia|done]).
  destruct (decide (m + 2 <= i < m + 18)%nat).
  - apply (slice_lookup_eq (m + 2) 16); [by apply Hf|lia].
  - apply Hc; [lia|]. intros m' [= <-]. lia.
Qed.

(** What verification demands besides a matching signature. *)
Definition ma_policy (p : list Z) (len : nat) (require_ma : bool) : Prop :=
  p !! 0%nat = Some FR_RADIUS_CODE_ACCESS_REQUEST -> require_ma = true ->
  find_ma (S len) p 20 len <> Some MaAbsent.

Lemma sign_success p o s len q :
  buffered p len -> fr_radius_sign (ctx := ctx) p o s = Some (q, inr ()) ->
  exists d, sign_pre p o s d /\ q = sign_result s d p /\ sd_len d = len.
Proof.
  intros Hb Hs. destruct (sign_inv _ _ _ _ _ _ Hb Hs) as [(d & Hp & -> & _)|(_ & e & ?)]; [|done].
  exists d. split; [done|]. split; [done|]. destruct Hp as ((_ & Hn & _) & _).
  destruct Hb as (_ & Hn' & _). rewrite Hn in Hn'. injection Hn'. lia.
Qed.

#[local] Arguments fr_digest_cmp : simpl never.

(** The last part of verification, once the Message-Authenticator matches. *)
Lemma verify_authenticator_spec p o s d (q := sign_result s d p) :
  sign_pre p o s d ->
  (forall m, sd_ma d = MaFound m -> slice (m + 2) 16 p = slice (m + 2) 16 q) ->
  exists res, verify_authenticator q (slice 4 16 p) = Some (p, res) /\
              (res = inr () <-> q = p).
Proof.
  intros Hp Hm. pose proof (sign_result_content _ _ _ _ Hp) as Hc.
  fold q in Hc. pose proof Hc as [Hl Hi].
  pose proof Hp as ((_ & _ & Hlen) & H20 & _ & Hcode & Hf & Ha & _).
  assert (H0 : q !! 0%nat = Some (sd_code d)).
  { rewrite <- Hi; [done|lia|]. intros m Em. rewrite Em in Hf.
    apply find_ma_bound in Hf. lia. }
  unfold verify_authenticator, rd. rewrite H0. simpl. unfold RADIUS_AUTH_VECTOR_LENGTH.
  pose proof (auth_vector_None _ _ _ Ha) as Hnone. clearbody q. case_decide as Hk.
  - assert (E : p = q) by (eapply same_content_eq; [done|left; by apply Hnone|done]).
    exists (inr ()). by rewrite E.
  - rewrite rd_slice_Some by lia. simpl.
    destruct (fr_digest_cmp_same_len (slice 4 16 p) (slice 4 16 q) 16) as (c & Ec & Hc0);
      [by rewrite length_slice by lia..|].
    rewrite Ec. simpl. destruct (decide (c <> 0)) as [Hne|He].
    + rewrite wr_slice_Some by (rewrite length_slice by lia; lia). simpl.
      rewrite (same_content_restore _ _ _ _ Hc) by (done || lia).
      eexists. split; [done|]. split; [done|]. intros ->. destruct Hne. by apply Hc0.
    + assert (E : p = q).
      { eapply same_content_eq; [done|right; apply Hc0; lia|done]. }
      exists (inr ()). by rewrite E.
Qed.

Lemma verify_message_authenticator p o s d m (q := sign_result s d p) :
  sign_pre p o s d -> sd_ma d = MaFound m ->
  exists res,
    (now ← rd_slice (m + 2) 16 q;
     c ← fr_digest_cmp (slice (m + 2) 16 p) now 0 16;
     if decide (c <> 0) then
       packet ← wr_slice (m + 2) (slice (m + 2) 16 p) q;
       packet ← wr_slice 4 (slice 4 16 p) packet;
       Some (packet, inl VErrMessageAuthenticator)
     else verify_authenticator q (slice 4 16 p)) = Some (p, res) /\ (res = inr () <-> q = p).
Proof.
  intros Hp Em. destruct (sign_pre_vectors _ _ _ _ _ Hp Em) as (_ & _ & Hm20 & Hm18).
  pose proof (sign_result_content _ _ _ _ Hp) as Hcont. fold q in Hcont.
  rewrite Em in Hcont. pose proof Hcont as [Hlq _].
  rewrite rd_slice_Some by lia. cbn [mbind option_bind].
  destruct (fr_digest_cmp_same_len (slice (m + 2) 16 p) (slice (m + 2) 16 q) 16)
    as (c & Ec & Hc0); [by rewrite length_slice by lia..|].
  rewrite Ec. cbn [mbind option_bind]. destruct (decide (c <> 0)) as [Hne|He].
  - rewrite wr_slice_Some by (rewrite length_slice by lia; lia). cbn [mbind option_bind].
    rewrite wr_slice_Some by (rewrite length_slice, length_inserts by lia; lia).
    cbn [mbind option_bind].
    rewrite (same_content_restore _ _ _ _ (restore_ma _ _ _ _ Hcont Hm18)) by (done || lia).
    eexists. split; [done|]. split; [done|]. intros E.
    destruct Hne. apply Hc0. by rewrite E.
  - apply (verify_authenticator_spec _ _ _ _ Hp).
    intros m' Em'. rewrite Em in Em'. injection Em' as <-. apply Hc0. lia.
Qed.

Lemma verify_signature_spec p o s r len f ma p' res :
  buffered p len -> find_ma (S len) p 20 len = Some f ->
  match ma with
  | None => f = MaAbsent
  | Some (m, saved) => f = MaFound m /\ saved = slice (m + 2) 16 p
  end ->
  verify_signature (ctx := ctx) p o s r (slice 4 16 p) ma = Some (p', res) ->
  p' = p /\
  (res = inr () <-> fr_radius_sign (ctx := ctx) p o s = Some (p, inr ()) /\ ma_policy p len r).
Proof.
  intros Hb Hf Hma. unfold verify_signature, rd, ma_policy.
  destruct (p !! 0%nat) as [code|] eqn:Hc; [|done]. cbn [mbind option_bind].
  destruct (_ && _ && _) eqn:Epol.
  { intros [= <- <-]. split; [done|]. split; [done|]. intros [_ Hpol]. exfalso.
    apply andb_true_iff in Epol as [Epol En]. apply andb_true_iff in Epol as [Ec Er].
    apply bool_decide_eq_true in Ec as ->. destruct ma; [done|]. subst f.
    by apply (Hpol eq_refl Er). }
  assert (Hpol : ma_policy p len r).
  { intros E Er Ef. rewrite Hc in E. injection E as ->. subst r. rewrite Hf in Ef.
    injection Ef as ->. by destruct ma as [[]|]; [destruct Hma|]. }
  unfold ma_policy in Hpol. rewrite Hc in Hpol.
  destruct (fr_radius_sign p o s) as [[q [e|[]]]|] eqn:Hs; [| |done]; cbn [mbind option_bind].
  { intros [= <- <-]. destruct (sign_inv _ _ _ _ _ _ Hb Hs) as [(? & _ & _ & ?)|[-> _]];
      [done|]. split; [done|]. split; [done|]. by intros [? _]. }
  destruct (sign_success _ _ _ _ _ Hb Hs) as (d & Hp & -> & El).
  assert (Em : sd_ma d = f) by (destruct Hp as (_ & _ & _ & _ & Hfd & _); congruence).
  assert (Hgoal : forall res', (res' = inr () <-> sign_result s d p = p) ->
    Some (p, res') = Some (p', res) -> p' = p /\ (res = inr () <->
      Some (sign_result s d p, inr ()) = Some (p, @inr sign_err unit ()) /\
      (Some code = Some FR_RADIUS_CODE_ACCESS_REQUEST -> r = true ->
       find_ma (S len) p 20 len <> Some MaAbsent))).
  { intros res' Hiff [= <- <-]. split; [done|]. rewrite Hiff. split; [by intros ->|].
    intros [E _]. by injection E. }
  destruct ma as [[m saved]|].
  - destruct Hma as [-> ->].
    destruct (verify_message_authenticator _ _ _ _ _ Hp Em) as (res' & Hr & Hiff).
    unfold RADIUS_AUTH_VECTOR_LENGTH. rewrite Hr. by apply Hgoal.
  - subst f. destruct (verify_authenticator_spec _ _ _ _ Hp) as (res' & Hr & Hiff);
      [by rewrite Em|]. rewrite Hr. by apply Hgoal.
Qed.

(** Verification of a buffered packet returns it unchanged and succeeds exactly
    when signing it again changes nothing. *)
Lemma verify_inv p o s r len p' res :
  buffered p len -> fr_radius_verify (ctx := ctx) p o s r = Some (p', res) ->
  p' = p /\
  (res = inr () <-> fr_radius_sign (ctx := ctx) p o s = Some (p, inr ()) /\ ma_policy p len r).
Proof.
  intros Hb. pose proof Hb as (Hby & Hn & Hl). unfold fr_radius_verify.
  rewrite Hn. cbn [mbind option_bind]. unfold RADIUS_HEADER_LENGTH, RADIUS_AUTH_VECTOR_LENGTH.
  assert (Hneg : forall P : Prop, (forall d, sign_pre p o s d -> sd_len d = len -> False) ->
    fr_radius_sign (ctx := ctx) p o s = Some (p, inr ()) /\ ma_policy p len r -> P).
  { intros P HP [Hs _]. destruct (sign_success _ _ _ _ _ Hb Hs) as (d & Hp & _ & El).
    by destruct (HP d). }
  destruct (decide _) as [H20|H20].
  { intros [= <- <-]. split; [done|]. split; [done|].
    apply Hneg. intros d (_ & H' & _) E. lia. }
  rewrite rd_slice_Some by lia. rewrite Nat2Z.id. cbn [mbind option_bind].
  destruct (find_ma (S len) p 20 len) as [f|] eqn:Hf; [|done]. cbn [mbind option_bind].
  destruct f as [|m|off|].
  3,4: intros [= <- <-]; split; [done|]; split; [done|];
    apply Hneg; intros d (_ & _ & _ & _ & Hfd & _ & Hp) E;
    rewrite E, Hf in Hfd; injection Hfd as Hfd; by rewrite <- Hfd in Hp.
  - by apply (verify_signature_spec _ _ _ _ _ MaAbsent None).
  - destruct (rd_slice (m + 2) 16 p) as [saved|] eqn:Esv; [|done]. cbn [mbind option_bind].
    apply rd_slice_inv in Esv as [Hm ->].
    by apply (verify_signature_spec _ _ _ _ _ (MaFound m) (Some (m, _))).
Qed.

Lemma verify_defined p o s r len f :
  buffered p len -> (20 <= length p)%nat -> find_ma (S len) p 20 len = Some f ->
  (forall m, f = MaFound m -> (m + 18 <= length p)%nat) ->
  is_Some (fr_radius_sign (ctx := ctx) p o s) ->
  is_Some (fr_radius_verify (ctx := ctx) p o s r).
Proof.
  intros Hb H20 Hf Hm [[q res] Hs]. pose proof Hb as (Hby & Hn & Hl).
  unfold fr_radius_verify. rewrite Hn. cbn [mbind option_bind].
  case_decide; [eauto|]. unfold RADIUS_HEADER_LENGTH, RADIUS_AUTH_VECTOR_LENGTH.
  rewrite rd_slice_Some by lia. rewrite Nat2Z.id, Hf. cbn [mbind option_bind].
  assert (HV : forall ma, match ma with
      | None => f = MaAbsent
      | Some (m, saved) => f = MaFound m /\ saved = slice (m + 2) 16 p end ->
    is_Some (verify_signature (ctx := ctx) p o s r (slice 4 16 p) ma)).
  { intros ma Hma. unfold verify_signature, rd.
    destruct (lookup_lt_is_Some_2 p 0) as [code ->]; [lia|]. cbn [mbind option_bind].
    destruct (_ && _ && _); [eauto|]. rewrite Hs. cbn [mbind option_bind].
    destruct res as [e|[]]; [eauto|].
    destruct (sign_success _ _ _ _ _ Hb Hs) as (d & Hp & -> & El).
    assert (Em : sd_ma d = f) by (destruct Hp as (_ & _ & _ & _ & Hfd & _); congruence).
    destruct ma as [[m saved]|].
    - destruct Hma as [-> ->]. unfold RADIUS_AUTH_VECTOR_LENGTH.
      destruct (verify_message_authenticator _ _ _ _ _ Hp Em) as (res' & -> & _). eauto.
    - subst f. destruct (verify_authenticator_spec _ _ _ _ Hp) as (res' & -> & _); [|eauto].
      by rewrite Em. }
  destruct f as [|m|off|]; [by apply HV| |eauto..].
  rewrite rd_slice_Some by (specialize (Hm m eq_refl); lia). by apply HV.
Qed.

Lemma vectors_defined code o :
  (forall x, o = Some x -> (20 <= length x)%nat) ->
  is_Some (ma_vector code o) /\ is_Some (auth_vector code o).
Proof.
  intros Ho. unfold ma_vector, auth_vector.
  assert (Hov : exists r, original_vector o = Some r).
  { unfold original_vector. destruct o as [o|]; [|eauto]. specialize (Ho o eq_refl).
    rewrite rd_slice_Some by (unfold RADIUS_AUTH_VECTOR_LENGTH; lia). simpl. eauto. }
  destruct Hov as [r ->]. cbn [mbind option_bind]. split.
  - destruct o as [o|]; repeat case_decide; eauto.
    all: specialize (Ho o eq_refl); unfold rd;
      destruct (lookup_lt_is_Some_2 o 0) as [o0 ->]; [lia|]; simpl; case_decide; eauto.
  - repeat case_decide; eauto.
Qed.

Lemma sign_defined p o s len f :
  buffered p len -> (20 <= length p)%nat -> (forall x, o = Some x -> (20 <= length x)%nat) ->
  find_ma (S len) p 20 len = Some f ->
  (forall m, f = MaFound m -> (m + 18 <= length p)%nat) ->
  is_Some (fr_radius_sign (ctx := ctx) p o s).
Proof.
  intros Hb H20 Ho Hf Hm. pose proof Hb as (Hby & Hn & Hl).
  pose proof (buffered_len _ _ Hb) as Hmax.
  unfold fr_radius_sign. rewrite Hn. cbn [mbind option_bind].
  case_decide; [eauto|]. case_decide; [eauto|]. unfold RADIUS_HEADER_LENGTH in *.
  unfold rd. destruct (lookup_lt_is_Some_2 p 0) as [code ->]; [lia|]. cbn [mbind option_bind].
  rewrite Nat2Z.id, Hf. cbn [mbind option_bind].
  destruct (vectors_defined code o Ho) as [[rm Hrm] [ra Hra]].
  destruct f as [|m|off|]; [| |eauto..].
  - rewrite Hra. cbn [mbind option_bind]. destruct ra as [e|va]; [eauto|].
    pose proof (auth_vector_ok _ _ _ Hra). rewrite sign_auth_eq by (done || lia). eauto.
  - rewrite Hrm. cbn [mbind option_bind]. destruct rm as [e|vm]; [eauto|].
    pose proof (ma_vector_ok _ _ _ Hrm). specialize (Hm m eq_refl).
    rewrite sign_ma_eq by (done || lia). rewrite Hra. cbn [mbind option_bind].
    destruct ra as [e|va]; [eauto|]. pose proof (auth_vector_ok _ _ _ Hra).
    rewrite sign_auth_eq by (rewrite ?length_signed_ma; done || lia). eauto.
Qed.

(** A signed packet verifies. *)
Lemma verify_signed p o s r len q :
  buffered p len -> fr_radius_sign (ctx := ctx) p o s = Some (q, inr ()) ->
  ma_policy p len r -> fr_radius_verify (ctx := ctx) q o s r = Some (q, inr ()).
Proof.
  intros Hb Hs Hpol. destruct (sign_success _ _ _ _ _ Hb Hs) as (d & Hp & -> & El).
  pose proof (sign_result_content _ _ _ _ Hp) as Hc. pose proof Hc as [Hlq Hi].
  destruct (sign_idem _ _ _ _ Hp) as [Hq Hqq]. set (q := sign_result s d p) in *.
  assert (Hsq : fr_radius_sign (ctx := ctx) q o s = Some (q, inr ())).
  { rewrite (sign_succeeds _ _ _ _ Hq). by rewrite Hqq. }
  pose proof Hq as (Hbq & H20 & _ & Hcq & Hfq & _ & Hmq).
  rewrite El in *.
  destruct (verify_defined q o s r len (sd_ma d)) as [[q' res] Hv];
    [done| |done| |by rewrite Hsq|].
  { destruct Hbq as (_ & _ & ?). lia. }
  { intros m Em. rewrite Em in Hmq. apply Hmq. }
  destruct (verify_inv _ _ _ _ _ _ _ Hbq Hv) as [-> Hiff]. rewrite Hv.
  do 2 f_equal. apply Hiff. split; [done|]. intros Hc1 Hr. rewrite Hfq.
  destruct Hp as (_ & _ & _ & Hcp & Hfp & _). rewrite El in Hfp. rewrite <- Hfp.
  apply Hpol; [|done]. congruence.
Qed.

Lemma slice_header (v p : list Z) len :
  length v = 16%nat -> (20 <= len <= length p)%nat ->
  slice 0 len (list_inserts 4 v p) = take 4 p ++ v ++ slice 20 (len - 20) p.
Proof.
  intros Hv Hl. replace len with (4 + (16 + (len - 20)))%nat at 1 by lia.
  rewrite !slice_app. f_equal; [|f_equal].
  - rewrite slice_inserts_disjoint by lia. done.
  - rewrite <- Hv at 1. apply slice_inserts_same. lia.
  - rewrite slice_inserts_disjoint by lia. done.
Qed.

(** The values signing leaves in the packet, in terms of the signed packet. *)
Lemma sign_result_auth p o s d va (q := sign_result s d p) :
  sign_pre p o s d -> sd_auth_vector d = Some va ->
  slice 4 16 q = digest (take 4 q ++ va ++ slice 20 (sd_len d - 20) q ++ s).
Proof.
  intros Hp Ev. pose proof Hp as (Hb & H20 & _ & _ & _ & Ha & _).
  rewrite Ev in Ha. pose proof (auth_vector_ok _ _ _ Ha) as Hva. simpl in Hva.
  destruct Hb as (_ & _ & Hl).
  assert (HG : forall x p', length p' = length p -> length x = 16%nat ->
    let q' := list_inserts 4 x p' in
    slice 0 (sd_len d) (list_inserts 4 va p') ++ s =
    take 4 q' ++ va ++ slice 20 (sd_len d - 20) q' ++ s /\ slice 4 16 q' = x).
  { intros x p' Hl' Hx. simpl. rewrite slice_header by lia. rewrite <- !app_assoc.
    split; [f_equal; [|f_equal; f_equal]|].
    - symmetry. apply (slice_inserts_disjoint 0 4 4). lia.
    - symmetry. apply slice_inserts_disjoint. lia.
    - rewrite <- Hx. apply slice_inserts_same. lia. }
  pose proof (sign_result_eq _ _ _ _ Hp) as E. fold q in E. rewrite Ev in E.
  destruct (sd_ma d) as [|m| |] eqn:Em; simpl in E; rewrite E.
  2: { destruct (sign_pre_vectors _ _ _ _ _ Hp Em) as (_ & _ & Hm & _).
    set (mv := ma_value _ _ _). assert (Hmv : length mv = 16%nat) by apply length_ma_value.
    rewrite (inserts_comm (m + 2)) by lia.
    destruct (HG (auth_value (sd_len d) (list_inserts 4 va (list_inserts (m + 2) mv p)) s)
      (list_inserts (m + 2) mv p)) as [<- ->]; [by rewrite length_inserts|
      apply length_auth_value|done]. }
  all: destruct (HG (auth_value (sd_len d) (list_inserts 4 va p) s) p) as [<- ->];
    [done|apply length_auth_value|done].
Qed.

Lemma sign_result_ma p o s d m (q := sign_result s d p) :
  sign_pre p o s d -> sd_ma d = MaFound m ->
  slice (m + 2) 16 q =
  hmac_spec digest s (slice 0 (sd_len d)
    (list_inserts (m + 2) zero_vector (set_vector (sd_ma_vector d) p))).
Proof.
  intros Hp Em. pose proof (sign_result_eq _ _ _ _ Hp) as E. fold q in E. rewrite Em in E.
  destruct (sign_pre_vectors _ _ _ _ _ Hp Em) as (_ & _ & Hm & H18). rewrite E.
  set (mv := ma_value _ _ _). assert (Hmv : length mv = 16%nat) by apply length_ma_value.
  assert (E1 : slice (m + 2) 16 (list_inserts (m + 2) mv p) = mv).
  { rewrite <- Hmv at 1. apply slice_inserts_same. lia. }
  destruct (sd_auth_vector d) as [va|]; simpl; [|done].
  rewrite slice_inserts_disjoint; [done|]. rewrite length_auth_value. lia.
Qed.
End SignFacts.

Lemma md5_limit : 262144 <= dg_limit (ctx := fr_md5_ctx_local_t).
Proof. simpl. lia. Qed.

(** ** Theorems *)

(** A request and the Access-Accept answering it, with an empty
    Message-Authenticator and authenticator, and the shared secret. *)
Definition example_request : list Z :=
  [1; 7; 0; 20] ++ [1; 2; 3; 4; 5; 6; 7; 8; 9; 10; 11; 12; 13; 14; 15; 16].
Definition example_accept : list Z :=
  [2; 7; 0; 44] ++ replicate 16 0 ++ [18; 6; 72; 105; 33; 33] ++ 80 :: 18 :: replicate 16 0.
Definition example_secret : list Z := [115; 51; 99; 114; 51; 116].

Definition example_signed : list Z :=
  match fr_radius_sign (ctx := fr_md5_ctx_local_t) example_accept (Some example_request)
          example_secret with
  | Some (q, _) => q
  | None => []
  end.

(** C2: a packet signed by [fr_radius_sign] is accepted by [fr_radius_verify] with the
    same secret and original request, and verification leaves it unchanged; when
    the caller requires a Message-Authenticator in Access-Requests, the packet must
    have had one to sign. *)
Theorem fr_radius_sign_verify p o s r len q :
  buffered p len -> ma_policy p len r ->
  fr_radius_sign (ctx := fr_md5_ctx_local_t) p o s = Some (q, inr ()) ->
  fr_radius_verify (ctx := fr_md5_ctx_local_t) q o s r = Some (q, inr ()).
Proof. intros Hb Hpol Hs. eapply verify_signed; eauto using md5_limit. Qed.

Lemma fr_radius_sign_verify_witness :
  fr_radius_verify (ctx := fr_md5_ctx_local_t) example_signed (Some example_request)
    example_secret true = Some (example_signed, inr ()).
Proof.
  apply (fr_radius_sign_verify example_accept _ _ _ 44).
  - split; [by apply (bool_decide_unpack _); vm_compute|]. split; [done|simpl; lia].
  - by intros [=].
  - vm_compute. reflexivity.
Defined.

(** C14: [fr_radius_verify] is read-only: whatever the verdict, the buffer it returns is
    the one it was given, although it signs the packet in place.  It accepts
    exactly the packets that signing with the same secret and original would leave
    unchanged (and, for an Access-Request when the caller insists, that carry a
    Message-Authenticator): every byte of the Message-Authenticator and of a
    Request or Response Authenticator counts. *)
Theorem fr_radius_verify_iff p o s r len p' res :
  buffered p len ->
  fr_radius_verify (ctx := fr_md5_ctx_local_t) p o s r = Some (p', res) ->
  p' = p /\
  (res = inr () <->
   fr_radius_sign (ctx := fr_md5_ctx_local_t) p o s = Some (p, inr ()) /\ ma_policy p len r).
Proof. intros Hb Hv. eapply verify_inv; eauto using md5_limit. Qed.

(** Flipping a bit of the signed packet's text makes verification fail; the packet
    comes back as received. *)
Lemma fr_radius_verify_iff_witness :
  exists res,
  fr_radius_verify (ctx := fr_md5_ctx_local_t) (<[22%nat:=73]> example_signed)
    (Some example_request) example_secret true = Some (<[22%nat:=73]> example_signed, res) /\
  (res = inr () <->
   fr_radius_sign (ctx := fr_md5_ctx_local_t) (<[22%nat:=73]> example_signed)
     (Some example_request) example_secret = Some (<[22%nat:=73]> example_signed, inr ()) /\
   ma_policy (<[22%nat:=73]> example_signed) 44 true).
Proof.
  exists (inl VErrMessageAuthenticator). split; [vm_compute; reflexivity|].
  eapply fr_radius_verify_iff; [|vm_compute; reflexivity].
  split; [by apply (bool_decide_unpack _); vm_compute|]. split; [done|vm_compute; lia].
Defined.

(** ** The values of the RFCs *)

(** Whose vector stands in the authenticator field while a value is computed: zeros, the
    Request Authenticator of the packet that is answered, or the packet's own. *)
Inductive vector_source := VecZero | VecRequest | VecOwn.

(** RFC 2865, 2866, 5176 and 7930, by packet code: Accounting-Request, Disconnect-Request and
    CoA-Request; Access-Accept, -Reject and -Challenge, Accounting-Response, the replies of
    RFC 5176 and Protocol-Error; Access-Request and Status-Server, whose authenticator is
    random. *)
Definition authenticator_source (code : Z) : option vector_source :=
  if decide (code ∈ [4; 40; 43]) then Some VecZero
  else if decide (code ∈ [2; 3; 11; 5; 41; 42; 44; 45; 52]) then Some VecRequest
  else if decide (code ∈ [1; 12]) then Some VecOwn
  else None.

(** For the Message-Authenticator, as RFC 3579 and, for requests, RFC 5176 have it.  Replies
    other than to an Access-Request use zeros, unless they answer a Status-Server (code 12);
    RFC 5176 has the vector of the request there. *)
Definition ma_source (code : Z) (request : list Z) : option vector_source :=
  if decide (code ∈ [4; 40; 43]) then Some VecZero
  else if decide (code ∈ [2; 3; 11]) then Some VecRequest
  else if decide (code ∈ [5; 41; 42; 44; 45]) then
    Some (if decide (request !! 0%nat = Some 12) then VecRequest else VecZero)
  else if decide (code ∈ [1; 12]) then Some VecOwn
  else None.

Definition source_vector (src : vector_source) (packet request : list Z) : list Z :=
  match src with
  | VecZero => replicate 16 0
  | VecRequest => slice 4 16 request
  | VecOwn => slice 4 16 packet
  end.

(** The first Message-Authenticator of the packet is at offset [m]. *)
Definition ma_at (p : list Z) (len m : nat) : Prop :=
  (20 <= m /\ m + 2 <= len)%nat /\ p !! m = Some 80 /\
  (exists l, p !! (m + 1)%nat = Some l /\ 18 <= l) /\
  exists attrs, other_attrs attrs /\ slice 20 (m - 20) p = concat (map attr_enc attrs).

Definition no_ma (p : list Z) (len : nat) : Prop :=
  exists attrs, other_attrs attrs /\ slice 20 (len - 20) p = concat (map attr_enc attrs).

Lemma original_vector_inv o v :
  original_vector o = Some (inr v) ->
  exists r, o = Some r /\ (20 <= length r)%nat /\ v = slice 4 16 r.
Proof.
  unfold original_vector. destruct o as [r|]; [|done].
  destruct (rd_slice _ _ r) as [v'|] eqn:E; [|done]. intros [= ->]. exists r.
  apply rd_slice_inv in E as [? ->]. unfold RADIUS_AUTH_VECTOR_LENGTH in *. split_and!; (done || lia).
Qed.

(** The switches of [fr_radius_sign] choose these vectors. *)
Lemma auth_vector_source code o va :
  auth_vector code o = Some (inr va) ->
  exists src, authenticator_source code = Some src /\
    (src = VecRequest -> exists r, o = Some r /\ (20 <= length r)%nat) /\
    forall p, va = match src with VecOwn => None | _ => Some (source_vector src p (default [] o)) end.
Proof.
  unfold auth_vector, authenticator_source. unfold_codes. intros E.
  destruct (decide (code ∈ [4; 40; 43])) as [H|H]; rewrite !elem_of_cons, elem_of_nil in H.
  { rewrite decide_True in E by lia. injection E as <-. by exists VecZero. }
  rewrite decide_False in E by lia.
  destruct (decide (code ∈ [2; 3; 11; 5; 41; 42; 44; 45; 52])) as [H'|H']; rewrite !elem_of_cons, elem_of_nil in H'.
  { rewrite decide_True in E by lia. destruct (original_vector o) as [[e|v]|] eqn:Ev; try done.
    injection E as <-. apply original_vector_inv in Ev as (r & -> & Hr & ->).
    exists VecRequest. split; [done|]. split; [by exists r|done]. }
  rewrite decide_False in E by lia. case_decide as H2; [|done]. injection E as <-.
  rewrite decide_True by (rewrite !elem_of_cons, elem_of_nil; lia). by exists VecOwn.
Qed.

Lemma ma_vector_source code o vm :
  ma_vector code o = Some (inr vm) ->
  exists src, ma_source code (default [] o) = Some src /\
    forall p, vm = match src with VecOwn => None | _ => Some (source_vector src p (default [] o)) end.
Proof.
  assert (Hack : (r ← original_vector o;
      Some (match r with inl e => inl e | inr v => inr (Some v) end)) = Some (inr vm) ->
    forall p, vm = Some (source_vector VecRequest p (default [] o))).
  { destruct (original_vector o) as [[e|v]|] eqn:Ev; try done. intros [= <-] p.
    by apply original_vector_inv in Ev as (r & -> & _ & ->). }
  unfold ma_vector, ma_source. unfold_codes. intros E.
  destruct (decide (code ∈ [4; 40; 43])) as [H|H]; rewrite !elem_of_cons, elem_of_nil in H.
  { rewrite decide_False, decide_True in E by lia. injection E as <-. by exists VecZero. }
  destruct (decide (code ∈ [2; 3; 11])) as [H'|H']; rewrite !elem_of_cons, elem_of_nil in H'.
  { rewrite decide_False, decide_False, decide_True in E by lia. exists VecRequest. split; [done|]. by apply Hack. }
  destruct (decide (code ∈ [5; 41; 42; 44; 45])) as [H5|H5]; rewrite !elem_of_cons, elem_of_nil in H5.
  { rewrite decide_True in E by lia. destruct o as [r|]; [|done]. cbn [default].
    unfold rd in E. destruct (r !! 0%nat) as [o0|] eqn:E0; [|done]. cbn [mbind option_bind] in E.
    eexists. split; [done|]. destruct (decide (o0 = 12)) as [->|Hne].
    - rewrite decide_True by done. by apply Hack.
    - rewrite decide_False by (cbn; rewrite E0; congruence). by injection E as <-. }
  rewrite decide_False, decide_False, decide_False in E by lia. case_decide as H2; [|done]. injection E as <-.
  rewrite decide_True by (rewrite !elem_of_cons, elem_of_nil; lia). by exists VecOwn.
Qed.

(** Putting the vector in place; the packet's own is in place already. *)
Lemma set_source_vector src p r v :
  (forall p', v = match src with VecOwn => None | _ => Some (source_vector src p' r) end) ->
  (20 <= length p)%nat -> set_vector v p = list_inserts 4 (source_vector src p r) p.
Proof.
  intros Hv Hp. rewrite (Hv p). destruct src; cbn [set_vector source_vector]; try done.
  apply list_eq. intros i. destruct (decide (4 <= i < 20)%nat).
  - rewrite list_lookup_inserts by (rewrite ?length_slice by lia; lia).
    rewrite lookup_slice by lia. f_equal. lia.
  - by rewrite lookup_inserts_out by (rewrite length_slice by lia; lia).
Qed.

(** C15: what a successful [fr_radius_sign] leaves in the packet, in terms of the RFCs.  The
    Request or Response Authenticator is MD5(Code + ID + Length + vector + Attributes +
    Secret), where the vector is 16 zero octets for Accounting-, Disconnect- and CoA-Request
    and the Request Authenticator of the request that is answered for every reply; for
    Access-Request and Status-Server it is left alone.  The value of the first
    Message-Authenticator, when there is one, is the HMAC-MD5 under the secret of the packet
    with that attribute zeroed and, as the authenticator, the vector of [ma_source]: the
    packet's own for Access-Request and Status-Server, that of the request for replies to
    an Access-Request or a Status-Server, and zeros otherwise (RFC 5176 has the vector of the
    request in replies to its requests too).  All other bytes are those of
    the input.  Packets with other codes, and replies without a request, are not signed. *)
Theorem fr_radius_sign_values p o s len q (request := default [] o) :
  buffered p len ->
  fr_radius_sign (ctx := fr_md5_ctx_local_t) p o s = Some (q, inr ()) ->
  exists code src,
    p !! 0%nat = Some code /\ authenticator_source code = Some src /\
    (src = VecRequest -> exists r, o = Some r /\ (20 <= length r)%nat) /\
    length q = length p /\
    slice 4 16 q =
      match src with
      | VecOwn => slice 4 16 p
      | _ => md5_spec (take 4 q ++ source_vector src p request ++ slice 20 (len - 20) q ++ s)
      end /\
    (no_ma p len /\ (forall i, (i < 4 \/ 20 <= i)%nat -> q !! i = p !! i) \/
     exists m msrc, ma_at p len m /\ ma_source code request = Some msrc /\
       slice (m + 2) 16 q =
         hmac_spec md5_spec s (slice 0 len
           (list_inserts (m + 2) (replicate 16 0) (list_inserts 4 (source_vector msrc p request) p))) /\
       forall i, (i < 4 \/ 20 <= i)%nat -> (i < m + 2 \/ m + 18 <= i)%nat -> q !! i = p !! i).
Proof.
  intros Hb Hs. destruct (sign_success md5_limit _ _ _ _ _ Hb Hs) as (d & Hp & -> & <-).
  pose proof (sign_result_content _ _ _ _ Hp) as [Hlq Hc].
  pose proof Hp as ((Hby & _ & Hle) & H20 & _ & Hcode & Hf & Ha & Hm).
  destruct (auth_vector_source _ _ _ Ha) as (src & Hsrc & Hreq & Hva).
  exists (sd_code d), src. split; [done|]. split; [done|]. split; [done|]. split; [done|]. split.
  - specialize (Hva p). destruct src; [by eapply sign_result_auth..|].
    apply slice_eq. intros i Hi. symmetry. apply Hc; [by left|]. intros m Em.
    rewrite Em in Hf. apply find_ma_bound in Hf. lia.
  - pose proof (find_ma_spec _ _ _ _ 20 Hby Hle H20 Hf) as Hspec.
    assert (Hfr : forall i, (i < 4 \/ 20 <= i)%nat ->
      (forall m, sd_ma d = MaFound m -> i < m + 2 \/ m + 18 <= i)%nat -> sign_result (digest := md5_spec) s d p !! i = p !! i)
      by (intros i Hi Hmi; symmetry; apply Hc; [by right|done]).
    destruct (sd_ma d) as [|m| |] eqn:Em; [|destruct Hm as [Hm _]|done..].
    + left. split; [exact Hspec|]. intros i Hi. by apply Hfr.
    + right. destruct (ma_vector_source _ _ _ Hm) as (msrc & Hms & Hvm). exists m, msrc.
      pose proof (find_ma_bound _ _ _ _ _ Hf). destruct Hspec as (? & ? & ?).
      split; [split; [done|by split]|]. split; [done|]. split.
      * rewrite (sign_result_ma _ _ _ _ _ Hp Em).
        rewrite (set_source_vector msrc p request _ Hvm) by lia. done.
      * intros i Hi Hmi. apply Hfr; [done|]. by intros ? [= <-].
Qed.

(** The accept signed for [example_request]: its Response Authenticator covers the Request
    Authenticator of the request. *)
Lemma fr_radius_sign_values_witness :
  slice 4 16 example_signed =
    md5_spec (take 4 example_signed ++ slice 4 16 example_request ++ slice 20 24 example_signed ++
              example_secret) /\
  exists m, ma_at example_accept 44 m /\
    slice (m + 2) 16 example_signed =
      hmac_spec md5_spec example_secret (slice 0 44
        (list_inserts (m + 2) (replicate 16 0) (list_inserts 4 (slice 4 16 example_request) example_accept))).
Proof.
  destruct (fr_radius_sign_values example_accept (Some example_request) example_secret 44 example_signed)
    as (code & src & Hcode & Hsrc & _ & _ & Hauth & Hma).
  - split; [by apply (bool_decide_unpack _); vm_compute|]. split; [done|simpl; lia].
  - vm_compute. reflexivity.
  - vm_compute in Hcode. injection Hcode as <-. vm_compute in Hsrc. injection Hsrc as <-.
    split; [exact Hauth|].
    destruct Hma as [[_ Hi]|(m & msrc & Hat & Hms & Hv & _)].
    + exfalso. specialize (Hi 40%nat ltac:(right; lia)). by vm_compute in Hi.
    + vm_compute in Hms. injection Hms as <-. exists m. split; [exact Hat|exact Hv].
Defined.

(** C36: after [fr_radius_ok] accepted a packet, signing and verifying it never touch
    memory outside the packet or the original request, always return, and a
    failing [fr_radius_sign] leaves the packet as it was. *)
Theorem fr_radius_sign_safe p plen max_attributes require_ma len o s r :
  bytes_ok p -> (plen <= length p)%nat ->
  (forall x, o = Some x -> (20 <= length x)%nat) ->
  fr_radius_ok p plen max_attributes require_ma = Some (DECODE_FAIL_NONE, len) ->
  (exists q res, fr_radius_sign (ctx := fr_md5_ctx_local_t) p o s = Some (q, res) /\
     length q = length p /\ (res <> inr () -> q = p)) /\
  is_Some (fr_radius_verify (ctx := fr_md5_ctx_local_t) p o s r).
Proof.
  intros Hb Hl Ho Hok.
  destruct (fr_radius_ok_sound _ _ _ _ _ Hb Hl Hok)
    as (code & attrs & _ & _ & Hn & [H20 Hlen] & Hwf & Hsl & _).
  unfold RADIUS_HEADER_LENGTH in *.
  assert (Hbuf : buffered p len) by (split; [done|]; split; [done|lia]).
  destruct (find_ma_wf (S len) p 20 len attrs) as [Hf|(k & Hf & Hk)]; [lia..|done|done| |].
  all: edestruct (sign_defined md5_limit p o s len) as [[q res] Hs];
    [done|lia|done|done|intros m [= <-]; lia|].
  all: split; [exists q, res; split; [done|];
      destruct (sign_inv md5_limit _ _ _ _ _ _ Hbuf Hs) as [(d & Hp & -> & ->)|[-> _]];
      [split; [symmetry; by apply (sign_result_content _ _ _ _ Hp)|done]|done]
    |eapply (verify_defined md5_limit); [done|lia|done|intros m [= <-]; lia|by rewrite Hs]].
Qed.

Lemma fr_radius_sign_safe_witness :
  (exists q res, fr_radius_sign (ctx := fr_md5_ctx_local_t) example_packet None example_secret
       = Some (q, res) /\
     length q = length example_packet /\ (res <> inr () -> q = example_packet)) /\
  is_Some (fr_radius_verify (ctx := fr_md5_ctx_local_t) example_packet None example_secret true).
Proof.
  apply (fr_radius_sign_safe example_packet 46 0 true 44).
  - by apply (bool_decide_unpack _); vm_compute.
  - simpl. lia.
  - by intros x [=].
  - vm_compute. reflexivity.
Defined.

(** A Protocol-Error response (RFC 7930) carrying a Message-Authenticator can be
    neither signed nor verified: the first switch of [fr_radius_sign] has no case
    for it, although the second computes its Response Authenticator. *)
Theorem protocol_error_ma_unsupported p o s len m :
  buffered p len -> (20 <= len)%nat -> Z.of_nat (length s) <= 65535 ->
  p !! 0%nat = Some FR_RADIUS_CODE_PROTOCOL_ERROR ->
  find_ma (S len) p 20 len = Some (MaFound m) ->
  fr_radius_sign (ctx := fr_md5_ctx_local_t) p o s = Some (p, inl ErrBadPacket).
Proof.
  intros (_ & Hn & Hl) H20 Hs Hc Hf. unfold fr_radius_sign. rewrite Hn.
  cbn [mbind option_bind]. unfold RADIUS_HEADER_LENGTH.
  do 2 rewrite decide_False by lia. unfold rd. rewrite Hc. cbn [mbind option_bind].
  by rewrite Nat2Z.id, Hf.
Qed.

Lemma protocol_error_ma_unsupported_witness :
  fr_radius_sign (ctx := fr_md5_ctx_local_t) (<[0%nat:=52]> example_accept)
    (Some example_request) example_secret = Some (<[0%nat:=52]> example_accept, inl ErrBadPacket).
Proof.
  apply (protocol_error_ma_unsupported _ _ _ 44 26).
  - split; [by apply (bool_decide_unpack _); vm_compute|]. split; [done|simpl; lia].
  - lia.
  - simpl. lia.
  - done.
  - vm_compute. reflexivity.
Defined.
