(* ===== verification/StateMonad.v ===== *)
(** * Computations over a mutable state

    The state monad with failure in which the pointer programs of the development are
    written ([RbTree], [MessageSet]): a computation reads and writes a state of type [S]
    and returns a value, or fails ([None]: an assertion that does not hold, a dangling
    pointer, or loop fuel that ran out).  [wp] is total correctness: the computation
    returns, and its result satisfies the postcondition. *)
From S2P Require Import Prelude.

Definition st (S A : Type) : Type := S -> option (A * S).

#[export] Instance st_ret {S} : MRet (st S) := fun A a s => Some (a, s).
#[export] Instance st_bind {S} : MBind (st S) := fun A B f m s =>
  match m s with Some (a, s') => f a s' | None => None end.

Definition fail {S A} : st S A := fun _ => None.
Definition when {S} (P : Prop) `{!Decision P} (m : st S unit) : st S unit :=
  if decide P then m else mret ().
Definition gets {S A} (f : S -> A) : st S A := fun s => Some (f s, s).
Definition modify {S} (f : S -> S) : st S unit := fun s => Some ((), f s).
Definition lift {S A} (o : option A) : st S A := fun s => a ← o; Some (a, s).

Definition wp {S A} (m : st S A) (s : S) (Q : A -> S -> Prop) : Prop :=
  exists a s', m s = Some (a, s') /\ Q a s'.

Section rules.
Context {S : Type}.
Implicit Types (s : S).

Lemma wp_ret {A} (a : A) s Q : Q a s -> wp (mret a) s Q.
Proof. by exists a, s. Qed.
Lemma wp_bind {A B} (m : st S A) (f : A -> st S B) s Q :
  wp m s (fun a s' => wp (f a) s' Q) -> wp (m ≫= f) s Q.
Proof.
  intros (a & s' & E1 & b & s2 & E2 & H). exists b, s2. unfold mbind, st_bind. by rewrite E1.
Qed.
Lemma wp_mono {A} (m : st S A) s (Q Q' : A -> S -> Prop) :
  wp m s Q -> (forall a s', Q a s' -> Q' a s') -> wp m s Q'.
Proof. intros (a & s' & E1 & H) HQ. exists a, s'. auto. Qed.
Lemma wp_when_false P `{!Decision P} m s Q : ~ P -> Q () s -> wp (when P m) s Q.
Proof. intros HP HQ. unfold when. rewrite decide_False by done. by apply wp_ret. Qed.
Lemma wp_when_true P `{!Decision P} m s Q : P -> wp m s Q -> wp (when P m) s Q.
Proof. intros HP HQ. unfold when. by rewrite decide_True. Qed.
Lemma wp_gets {A} (f : S -> A) s Q : Q (f s) s -> wp (gets f) s Q.
Proof. by exists (f s), s. Qed.
Lemma wp_modify (f : S -> S) s Q : Q () (f s) -> wp (modify f) s Q.
Proof. by exists (), (f s). Qed.
Lemma wp_lift {A} (o : option A) a s Q : o = Some a -> Q a s -> wp (lift o) s Q.
Proof. intros -> HQ. by exists a, s. Qed.
(** A computation that returned satisfies its postcondition. *)
Lemma wp_elim {A} (m : st S A) s Q a s' : wp m s Q -> m s = Some (a, s') -> Q a s'.
Proof. intros (a1 & s1 & E1 & HQ) E. rewrite E in E1. by injection E1 as <- <-. Qed.
End rules.
