(* ===== verification/RingBuffer.v ===== *)
(** * Ring buffers for packet contents: [lib/io/ring_buffer.c]

    The record keeps the fields of [struct fr_ring_buffer_s]; pointers into
    [buffer] are offsets.  [size_t] arithmetic wraps at 64 bits.  [None] is a
    failed [fr_assert].  The contract is a FIFO of byte offsets: allocation
    appends a contiguous run of offsets disjoint from those in use, freeing drops
    from the front. *)
From S2P Require Import Prelude.

Record fr_ring_buffer_t := RingBuffer {
  size : Z;
  data_start : Z;
  data_end : Z;
  write_offset : Z;
  reserved : Z;
  closed : bool;
}.

#[export] Instance fr_ring_buffer_eq_dec : EqDecision fr_ring_buffer_t.
Proof. solve_decision. Defined.

(** [size--; size |= size >> 1; ...; size++;] *)
Definition round_up_pow2 (sz : Z) : Z :=
  let sz := u64 (sz - 1) in
  let sz := Z.lor sz (Z.shiftr sz 1) in
  let sz := Z.lor sz (Z.shiftr sz 2) in
  let sz := Z.lor sz (Z.shiftr sz 4) in
  let sz := Z.lor sz (Z.shiftr sz 8) in
  let sz := Z.lor sz (Z.shiftr sz 16) in
  u64 (sz + 1).

(** [None] is the result [NULL]; the two flags say whether the allocations of the
    header and of the buffer succeed. *)
Definition fr_ring_buffer_create (rb_ok buffer_ok : bool) (sz : Z)
    : option fr_ring_buffer_t :=
  if negb rb_ok then None else
  let sz := if decide (sz < 1024) then 1024 else sz in
  if decide (Z.shiftl 1 30 < sz) then None else
  let sz := round_up_pow2 sz in
  if negb buffer_ok then None else
  Some (RingBuffer sz 0 0 0 0 false).

(** The ring buffer after the call, and the offset returned ([None]: [NULL]). *)
Definition fr_ring_buffer_reserve (rb : fr_ring_buffer_t) (sz : Z)
    : option (fr_ring_buffer_t * option Z) :=
  let 'RingBuffer size s e w r c := rb in
  if c then Some (rb, None) else
  if decide (w < s) then
    if decide (u64 (w + sz) < s) then Some (RingBuffer size s e w sz c, Some w)
    else Some (rb, None)
  else if decide (w <> e) then None else
  if decide (u64 (w + sz) <= size) then Some (RingBuffer size s e w sz c, Some w) else
  if decide (sz < s) then Some (RingBuffer size s e 0 sz c, Some 0)
  else Some (rb, None).

Definition fr_ring_buffer_alloc (rb : fr_ring_buffer_t) (sz : Z)
    : option (fr_ring_buffer_t * option Z) :=
  let 'RingBuffer size s e w r c := rb in
  if c then Some (rb, None) else
  let r := if decide (sz <= r) then r - sz else 0 in
  if decide (w < s) then
    if decide (u64 (w + sz) < s) then Some (RingBuffer size s e (u64 (w + sz)) r c, Some w)
    else Some (RingBuffer size s e w r c, None)
  else if decide (w <> e) then None else
  if decide (u64 (w + sz) <= size) then
    let w' := u64 (w + sz) in Some (RingBuffer size s w' w' r c, Some w)
  else if decide (sz < s) then Some (RingBuffer size s e sz r c, Some 0)
  else Some (RingBuffer size s e w r c, None).

(** The result of [fr_ring_buffer_free]: the ring buffer and the return value, or
    the ring buffer itself was freed (and 0 returned). *)
Inductive free_result :=
| FreeRet (rb : fr_ring_buffer_t) (ret : Z)
| FreeGone.

#[export] Instance free_result_eq_dec : EqDecision free_result.
Proof. solve_decision. Defined.

(** [empty_buffer:] *)
Definition empty_buffer (rb : fr_ring_buffer_t) : free_result :=
  if closed rb then FreeGone
  else FreeRet (RingBuffer (size rb) 0 0 0 (reserved rb) (closed rb)) 0.

(** From the assertion on: the data is one block. *)
Definition free_block (rb : fr_ring_buffer_t) (size_to_free : Z) : option free_result :=
  let 'RingBuffer size s e w r c := rb in
  if decide (w <> e) then None else
  let block_size := u64 (e - s) in
  if decide (block_size < size_to_free) then Some (FreeRet rb (-1)) else
  if decide (size_to_free < block_size)
  then Some (FreeRet (RingBuffer size (u64 (s + size_to_free)) e w r c) 0)
  else Some (empty_buffer rb).

Definition fr_ring_buffer_free (rb : fr_ring_buffer_t) (size_to_free : Z)
    : option free_result :=
  let 'RingBuffer size s e w r c := rb in
  if decide (size_to_free = 0) then Some (FreeRet rb 0) else
  if decide (w < s) then
    let block_size := u64 (e - s) in
    if decide (size_to_free < block_size)
    then Some (FreeRet (RingBuffer size (u64 (s + size_to_free)) e w r c) 0)
    else
      let rb := RingBuffer size 0 w w r c in
      let size_to_free := u64 (size_to_free - block_size) in
      if decide (size_to_free = w) then Some (empty_buffer rb) else
      if decide (size_to_free = 0) then Some (FreeRet rb 0) else
      free_block rb size_to_free
  else free_block rb size_to_free.

Definition fr_ring_buffer_close (rb : fr_ring_buffer_t) : fr_ring_buffer_t :=
  let 'RingBuffer size s e w r c := rb in RingBuffer size s e w r true.

Definition fr_ring_buffer_size (rb : fr_ring_buffer_t) : Z := size rb.

Definition fr_ring_buffer_used (rb : fr_ring_buffer_t) : option Z :=
  let 'RingBuffer size s e w r c := rb in
  if decide (w < s) then Some (u64 (w + u64 (e - s)))
  else if decide (w <> e) then None
  else Some (u64 (0 + u64 (e - s))).

(** [*p_start] as an offset, and [*p_size]. *)
Definition fr_ring_buffer_start (rb : fr_ring_buffer_t) : Z * Z :=
  let 'RingBuffer size s e w r c := rb in
  (s, if decide (w < s) then w else u64 (e - s)).

(** ** The invariant and the FIFO it represents *)

(** Either one block [[data_start, data_end)] with the write offset at its end
    (and an empty block only at offset 0), or two: the older block at the end of
    the buffer and the newer one below it. *)
Definition rb_inv (rb : fr_ring_buffer_t) : Prop :=
  let 'RingBuffer size s e w r c := rb in
  1024 <= size <= 2 ^ 30 /\ 0 <= r < 2 ^ 64 /\
  ((0 <= w < s /\ s < e <= size) \/ (w = e /\ 0 <= s < e /\ e <= size) \/
   (w = 0 /\ s = 0 /\ e = 0)).

(** The bytes in use, oldest first. *)
Definition live (rb : fr_ring_buffer_t) : list Z :=
  let 'RingBuffer size s e w r c := rb in
  if decide (w < s) then seqZ s (e - s) ++ seqZ 0 w else seqZ s (e - s).

Ltac rb_arith :=
  repeat match goal with
  | |- context [u64 ?x] => rewrite (u64_small x) by lia
  | H : context [u64 ?x] |- _ => rewrite (u64_small x) in H by lia
  end.

(** [x | x >> m] doubles the run of ones below the top bit. *)
Lemma smear_step x k m :
  0 <= m -> 0 <= x -> (forall j, k - m < j <= k -> 0 <= j -> Z.testbit x j = true) ->
  (forall j, k < j -> Z.testbit x j = false) ->
  0 <= Z.lor x (Z.shiftr x m) /\
  (forall j, k - 2 * m < j <= k -> 0 <= j -> Z.testbit (Z.lor x (Z.shiftr x m)) j = true) /\
  (forall j, k < j -> Z.testbit (Z.lor x (Z.shiftr x m)) j = false).
Proof.
  intros Hm Hx H1 H0. split; [apply Z.lor_nonneg; split; [done|by apply Z.shiftr_nonneg]|].
  split.
  - intros j Hj Hj0. rewrite Z.lor_spec, Z.shiftr_spec by lia.
    destruct (decide (k - m < j)); [by rewrite H1 by lia|].
    rewrite (H1 (j + m)) by lia. apply orb_true_r.
  - intros j Hj. destruct (decide (0 <= j)); [|by apply Z.testbit_neg_r; lia].
    rewrite Z.lor_spec, Z.shiftr_spec, !H0 by lia. done.
Qed.

Lemma round_up_pow2_log2 sz :
  1024 <= sz <= 2 ^ 30 -> round_up_pow2 sz = 2 ^ Z.log2_up sz.
Proof.
  intros Hsz. unfold round_up_pow2. rewrite (u64_small (sz - 1)) by lia.
  rewrite Z.log2_up_eqn by lia. replace (Z.pred sz) with (sz - 1) by lia.
  set (x := sz - 1). set (k := Z.log2 x).
  assert (Hk : 0 <= k < 30).
  { split; [apply Z.log2_nonneg|]. apply Z.log2_lt_pow2; lia. }
  destruct (smear_step x k 1) as (P1 & A1 & B1); [lia|lia| | |].
  { intros j Hj _. replace j with k by lia. apply Z.bit_log2. lia. }
  { intros j Hj. apply Z.bits_above_log2; lia. }
  destruct (smear_step _ k 2 ltac:(lia) P1) as (P2 & A2 & B2); [intros; apply A1; lia|done|].
  destruct (smear_step _ k 4 ltac:(lia) P2) as (P3 & A3 & B3); [intros; apply A2; lia|done|].
  destruct (smear_step _ k 8 ltac:(lia) P3) as (P4 & A4 & B4); [intros; apply A3; lia|done|].
  destruct (smear_step _ k 16 ltac:(lia) P4) as (P5 & A5 & B5); [intros; apply A4; lia|done|].
  match goal with |- u64 (?y + 1) = _ => assert (E : y = Z.ones (k + 1)) end.
  { apply Z.bits_inj'. intros j Hj. destruct (decide (j <= k)).
    - rewrite A5, Z.ones_spec_low by lia. done.
    - rewrite B5, Z.ones_spec_high by lia. done. }
  rewrite E, Z.ones_equiv. replace (Z.pred (2 ^ (k + 1)) + 1) with (2 ^ (k + 1)) by lia.
  replace (Z.succ k) with (k + 1) by lia. apply u64_small. split; [lia|].
  apply Z.pow_lt_mono_r; lia.
Qed.

Lemma create_inv sz rb :
  fr_ring_buffer_create true true sz = Some rb -> rb_inv rb /\ live rb = [].
Proof.
  unfold fr_ring_buffer_create. simpl. set (sz' := if decide _ then 1024 else sz).
  assert (1024 <= sz') by (unfold sz'; case_decide; lia). clearbody sz'.
  change (Z.shiftl 1 30) with (2 ^ 30). destruct (decide (2 ^ 30 < sz')); [done|]. intros [= <-].
  rewrite round_up_pow2_log2 by lia. split; [|done]. simpl.
  assert (2 ^ 10 <= 2 ^ Z.log2_up sz' <= 2 ^ 30).
  { split; apply Z.pow_le_mono_r; try lia.
    - change 10 with (Z.log2_up 1024). apply Z.log2_up_le_mono. lia.
    - change 30 with (Z.log2_up (2 ^ 30)). apply Z.log2_up_le_mono. lia. }
  split; [lia|]. split; [lia|]. lia.
Qed.

(** ** What each operation does to the FIFO *)

Lemma live_range rb : rb_inv rb -> Forall (fun i => 0 <= i < size rb) (live rb).
Proof.
  destruct rb as [size s e w r c]. simpl. intros (Hs & Hr & Hi). apply list.Forall_forall.
  intros i. case_decide; rewrite ?elem_of_app, ?elem_of_seqZ; lia.
Qed.

Lemma live_NoDup rb : rb_inv rb -> NoDup (live rb).
Proof.
  destruct rb as [size s e w r c]. simpl. intros (Hs & Hr & Hi).
  case_decide; [|apply NoDup_seqZ]. apply list.NoDup_app.
  split; [apply NoDup_seqZ|]. split; [|apply NoDup_seqZ].
  intros i. rewrite !elem_of_seqZ. lia.
Qed.

Lemma seqZ_snoc s n m : 0 <= n -> 0 <= m -> seqZ s n ++ seqZ (s + n) m = seqZ s (n + m).
Proof. intros Hn Hm. by rewrite <- seqZ_app by lia. Qed.

Lemma drop_seqZ n s m : 0 <= n <= m -> drop (Z.to_nat n) (seqZ s m) = seqZ (s + n) (m - n).
Proof.
  intros H. replace (seqZ s m) with (seqZ s n ++ seqZ (s + n) (m - n)).
  - rewrite drop_app_length'; [done|]. by rewrite length_seqZ.
  - rewrite seqZ_snoc by lia. f_equal. lia.
Qed.

Lemma length_live rb :
  rb_inv rb -> Z.of_nat (length (live rb)) =
  let 'RingBuffer size s e w r c := rb in if decide (w < s) then w + (e - s) else e - s.
Proof.
  destruct rb as [size s e w r c]. simpl. intros (Hs & Hr & Hi).
  case_decide; rewrite ?length_app, !length_seqZ; lia.
Qed.

(** Room for [sz] contiguous bytes where the code looks for it. *)
Definition rb_fits (rb : fr_ring_buffer_t) (sz : Z) : Prop :=
  let 'RingBuffer size s e w r c := rb in
  if decide (w < s) then w + sz < s else w + sz <= size \/ sz < s.

Lemma alloc_spec rb sz :
  rb_inv rb -> 0 <= sz < 2 ^ 63 ->
  exists rb' res, fr_ring_buffer_alloc rb sz = Some (rb', res) /\ rb_inv rb' /\
    size rb' = size rb /\ closed rb' = closed rb /\
    match res with
    | Some p => closed rb = false /\ rb_fits rb sz /\ live rb' = live rb ++ seqZ p sz /\
                0 <= p /\ p + sz <= size rb
    | None => (closed rb = true \/ ~ rb_fits rb sz) /\ live rb' = live rb
    end.
Proof.
  destruct rb as [size s e w r c]. simpl. intros (Hs & Hr & Hi) Hsz.
  destruct c; [eexists _, _; split; [done|]; simpl; split_and!; solve [done|lia|auto]|].
  assert (Hr' : 0 <= (if decide (sz <= r) then r - sz else 0) < 2 ^ 64) by (case_decide; lia).
  set (r' := if decide (sz <= r) then r - sz else 0) in *. clearbody r'.
  rb_arith. destruct (decide (w < s)) as [Hw|Hw].
  - destruct (decide (w + sz < s)).
    + eexists _, _. split; [done|]. simpl. rewrite decide_True by lia.
      split_and!; try done; try lia.
      rewrite <- app_assoc. f_equal. by rewrite (seqZ_snoc 0) by lia.
    + eexists _, _. split; [done|]. simpl. rewrite decide_True by lia.
      split_and!; solve [done|lia|auto].
  - rewrite decide_False by lia. destruct (decide (w + sz <= size)).
    + eexists _, _. split; [done|]. simpl. rewrite decide_False by lia.
      split_and!; try done; try lia.
      replace w with (s + (e - s)) by lia. rewrite seqZ_snoc by lia. f_equal. lia.
    + destruct (decide (sz < s)).
      * eexists _, _. split; [done|]. simpl. rewrite decide_True by lia.
        split_and!; try done; lia.
      * eexists _, _. split; [done|]. simpl. rewrite decide_False by lia.
        split_and!; solve [done|lia|right; lia].
Qed.

Lemma reserve_spec rb sz :
  rb_inv rb -> 0 <= sz < 2 ^ 63 ->
  exists rb' res, fr_ring_buffer_reserve rb sz = Some (rb', res) /\ rb_inv rb' /\
    size rb' = size rb /\ closed rb' = closed rb /\ live rb' = live rb /\
    match res with
    | Some p => forall sz', 0 <= sz' <= sz ->
        exists rb'', fr_ring_buffer_alloc rb' sz' = Some (rb'', Some p)
    | None => closed rb = true \/ ~ rb_fits rb sz
    end.
Proof.
  destruct rb as [size s e w r c]. simpl. intros (Hs & Hr & Hi) Hsz.
  destruct c; [eexists _, _; split; [done|]; simpl; split_and!; solve [done|lia|auto]|].
  rb_arith. destruct (decide (w < s)) as [Hw|Hw].
  - destruct (decide (w + sz < s)).
    + eexists _, _. split; [done|]. simpl. rewrite !decide_True by lia.
      split_and!; try done; try lia. intros sz' Hsz'. rb_arith.
      rewrite (decide_True (P := w < s)), (decide_True (P := w + sz' < s)) by lia. eauto.
    + eexists _, _. split; [done|]. simpl. rewrite !decide_True by lia.
      split_and!; solve [done|lia|auto].
  - rewrite (decide_False (P := w <> e)) by lia. destruct (decide (w + sz <= size)).
    + eexists _, _. split; [done|]. simpl. rewrite !(decide_False (P := w < s)) by lia.
      split_and!; try done; try lia. intros sz' Hsz'. rb_arith.
      rewrite (decide_False (P := w < s)), (decide_False (P := w <> e)),
        (decide_True (P := w + sz' <= size)) by lia. eauto.
    + destruct (decide (sz < s)).
      * eexists _, _. split; [done|]. simpl.
        rewrite !(decide_True (P := 0 < s)) by lia.
        split_and!; try done; try lia; [by rewrite app_nil_r|].
        intros sz' Hsz'. rb_arith.
        rewrite (decide_True (P := 0 < s)), (decide_True (P := 0 + sz' < s)) by lia. eauto.
      * eexists _, _. split; [done|]. simpl. rewrite !(decide_False (P := w < s)) by lia.
        split_and!; solve [done|lia|right; lia].
Qed.

Lemma used_spec rb :
  rb_inv rb -> fr_ring_buffer_used rb = Some (Z.of_nat (length (live rb))).
Proof.
  intros Hinv. rewrite length_live by done. revert Hinv.
  destruct rb as [size s e w r c]. simpl. intros (Hs & Hr & Hi). rb_arith.
  case_decide; [done|]. rewrite decide_False by lia. done.
Qed.

Lemma free_block_spec rb n :
  rb_inv rb -> data_start rb <= write_offset rb -> 0 < n < 2 ^ 63 ->
  let used := Z.of_nat (length (live rb)) in
  if decide (used < n) then free_block rb n = Some (FreeRet rb (-1)) else
  if decide (n = used /\ closed rb = true) then free_block rb n = Some FreeGone else
  exists rb', free_block rb n = Some (FreeRet rb' 0) /\ rb_inv rb' /\
    size rb' = size rb /\ closed rb' = closed rb /\ live rb' = drop (Z.to_nat n) (live rb).
Proof.
  intros Hinv. rewrite length_live by done. revert Hinv.
  destruct rb as [size s e w r c]. simpl. intros (Hs & Hr & Hi) Hw Hn. rb_arith.
  rewrite !(decide_False (P := w < s)), (decide_False (P := w <> e)) by lia.
  destruct (decide (e - s < n)) as [|Hle]; [done|].
  destruct (decide (n < e - s)) as [Hlt|Heq].
  - rewrite decide_False by lia. eexists. split; [done|]. simpl.
    rewrite decide_False by lia. split_and!; try done; try lia.
    rewrite drop_seqZ by lia. f_equal. lia.
  - unfold empty_buffer. simpl. destruct c.
    + by rewrite decide_True by lia.
    + rewrite decide_False by (intros [_ ?]; done). eexists. split; [done|]. simpl.
      split_and!; try done; try lia. rewrite drop_seqZ by lia.
      replace (e - s - n) with 0 by lia. done.
Qed.

(** What survives of the FIFO when more is freed than is in use: in the two-block
    case the older block is gone although the call fails. *)
Definition overfree_live (rb : fr_ring_buffer_t) : list Z :=
  if decide (write_offset rb < data_start rb) then seqZ 0 (write_offset rb) else live rb.

(** The outcome of freeing [n] bytes, in terms of the FIFO. *)
Definition free_post (rb : fr_ring_buffer_t) (n : Z) (res : option free_result) : Prop :=
  let used := Z.of_nat (length (live rb)) in
  if decide (used < n) then
    exists rb', res = Some (FreeRet rb' (-1)) /\ rb_inv rb' /\ live rb' = overfree_live rb
  else if decide (0 < n /\ n = used /\ closed rb = true) then res = Some FreeGone
  else exists rb', res = Some (FreeRet rb' 0) /\ rb_inv rb' /\
    size rb' = size rb /\ closed rb' = closed rb /\ live rb' = drop (Z.to_nat n) (live rb).

Lemma free_one_block rb n :
  rb_inv rb -> data_start rb <= write_offset rb -> 0 < n < 2 ^ 63 ->
  free_post rb n (free_block rb n).
Proof.
  intros Hinv Hw Hn. pose proof (free_block_spec rb n Hinv Hw Hn) as HB.
  unfold free_post, overfree_live in *. cbv zeta in *.
  rewrite (decide_False (P := _ < data_start rb)) by lia.
  destruct (decide (_ < n)); [eauto|]. destruct (decide (n = _ /\ _)).
  - by rewrite decide_True by (split; [lia|done]).
  - by rewrite decide_False by tauto.
Qed.

(** Two blocks, of which the older one goes entirely: [rest] bytes are still to be
    freed from the newer one. *)
Lemma free_two_blocks size s e w r c n (rest := n - (e - s)) :
  rb_inv (RingBuffer size s e w r c) -> w < s -> e - s <= n < 2 ^ 63 -> 
  free_post (RingBuffer size s e w r c) n
    (let rb := RingBuffer size 0 w w r c in
     if decide (rest = w) then Some (empty_buffer rb) else
     if decide (rest = 0) then Some (FreeRet rb 0) else free_block rb rest).
Proof.
  intros Hinv Hw Hn. pose proof (length_live _ Hinv) as Hlen.
  destruct Hinv as (Hs & Hr & Hi).
  assert (Hinv1 : rb_inv (RingBuffer size 0 w w r c)) by (simpl; lia).
  assert (Hl : live (RingBuffer size s e w r c) = seqZ s (e - s) ++ seqZ 0 w)
    by (simpl; by rewrite decide_True).
  assert (Hl1 : live (RingBuffer size 0 w w r c) = seqZ 0 w)
    by (simpl; rewrite decide_False by lia; f_equal; lia).
  assert (Hd : drop (Z.to_nat n) (seqZ s (e - s) ++ seqZ 0 w) =
    drop (Z.to_nat rest) (seqZ 0 w)).
  { rewrite drop_app_ge by (rewrite length_seqZ; lia). f_equal.
    rewrite length_seqZ. lia. }
  pose proof (free_one_block _ rest Hinv1) as HB1.
  unfold free_post, overfree_live in *. cbv zeta in *. rewrite Hlen, Hl, Hd.
  rewrite Hl1, length_seqZ, Z2Nat.id in HB1 by lia.
  simpl data_start in *. simpl write_offset in *. simpl closed in *.
  rewrite (decide_True (P := w < s)) by done.
  rewrite (decide_False (P := w < 0)) in HB1 by lia.
  destruct (decide (rest = w)) as [Heq|Hne].
  { rewrite decide_False by lia. unfold empty_buffer. simpl closed. destruct c.
    - by rewrite decide_True by lia.
    - rewrite decide_False by (intros (_ & _ & ?); done). eexists. split; [done|].
      split; [simpl; lia|]. split_and!; try done. rewrite drop_ge; [done|].
      rewrite length_seqZ. lia. }
  destruct (decide (rest = 0)) as [Hz|Hnz].
  { rewrite !decide_False by lia. eexists. split; [done|]. split; [done|]. split_and!; try done.
    by rewrite Hz, drop_0. }
  specialize (HB1 ltac:(lia) ltac:(lia)). destruct (decide (w < rest)).
  - rewrite (decide_True (P := _ < n)) by lia. by rewrite (decide_True (P := w < s)).
  - rewrite decide_False in HB1 by lia. rewrite !decide_False by lia. done.
Qed.

Lemma free_spec rb n :
  rb_inv rb -> 0 <= n < 2 ^ 63 -> free_post rb n (fr_ring_buffer_free rb n).
Proof.
  intros Hinv Hn. pose proof (length_live _ Hinv) as Hlen.
  destruct rb as [size s e w r c]. unfold fr_ring_buffer_free.
  destruct (decide (n = 0)) as [->|Hn0].
  { unfold free_post. cbv zeta. rewrite decide_False, decide_False by lia.
    eexists. by rewrite drop_0. }
  destruct (decide (w < s)) as [Hw|Hw]; [|apply free_one_block; [done|simpl; lia|lia]].
  pose proof Hinv as (Hs & Hr & Hi). rb_arith.
  destruct (decide (n < e - s)) as [Hlt|Hge]; cycle 1.
  { rewrite (u64_small (n - (e - s))) by lia. apply free_two_blocks; [done|lia..]. }
  unfold free_post. cbv zeta. rewrite Hlen.
  rewrite !decide_False by lia. eexists. split; [done|]. simpl.
  rewrite !decide_True by lia. split_and!; try done; try lia.
  rewrite drop_app_le by (rewrite length_seqZ; lia). f_equal.
  rewrite drop_seqZ by lia. f_equal. lia.
Qed.

(** ** Clients *)

(** A client keeps the blocks it was given, oldest first, and frees them in that
    order, as the message queues do. *)
Record rb_client := RbClient { c_rb : fr_ring_buffer_t; c_blocks : list (Z * Z) }.

Inductive rb_step : rb_client -> rb_client -> Prop :=
| step_alloc rb rb' bs p sz :
    0 <= sz < 2 ^ 63 -> fr_ring_buffer_alloc rb sz = Some (rb', Some p) ->
    rb_step (RbClient rb bs) (RbClient rb' (bs ++ [(p, sz)]))
| step_alloc_fail rb rb' bs sz :
    0 <= sz < 2 ^ 63 -> fr_ring_buffer_alloc rb sz = Some (rb', None) ->
    rb_step (RbClient rb bs) (RbClient rb' bs)
| step_reserve rb rb' bs sz res :
    0 <= sz < 2 ^ 63 -> fr_ring_buffer_reserve rb sz = Some (rb', res) ->
    rb_step (RbClient rb bs) (RbClient rb' bs)
| step_free rb rb' bs p sz :
    fr_ring_buffer_free rb sz = Some (FreeRet rb' 0) ->
    rb_step (RbClient rb ((p, sz) :: bs)) (RbClient rb' bs)
| step_close rb bs : rb_step (RbClient rb bs) (RbClient (fr_ring_buffer_close rb) bs).

Definition rb_reachable (c : rb_client) : Prop :=
  exists sz rb, fr_ring_buffer_create true true sz = Some rb /\
    rtc rb_step (RbClient rb []) c.

(** The offsets of a block. *)
Definition block (b : Z * Z) : list Z := seqZ b.1 b.2.

Definition client_inv (c : rb_client) : Prop :=
  rb_inv (c_rb c) /\ live (c_rb c) = concat (map block (c_blocks c)) /\
  Forall (fun b => 0 <= b.2 < 2 ^ 63) (c_blocks c).

Lemma length_live_bound rb : rb_inv rb -> Z.of_nat (length (live rb)) <= size rb.
Proof.
  intros Hinv. rewrite length_live by done. revert Hinv.
  destruct rb as [size s e w r c]. simpl. intros (Hs & Hr & Hi). case_decide; lia.
Qed.

Lemma close_inv rb :
  rb_inv rb -> rb_inv (fr_ring_buffer_close rb) /\ live (fr_ring_buffer_close rb) = live rb.
Proof. by destruct rb. Qed.

Lemma client_head c p sz bs :
  client_inv c -> c_blocks c = (p, sz) :: bs ->
  0 <= sz < 2 ^ 63 /\ sz <= Z.of_nat (length (live (c_rb c))) /\
  drop (Z.to_nat sz) (live (c_rb c)) = concat (map block bs).
Proof.
  intros (Hinv & Hl & Hsz) E. rewrite E in *. apply Forall_cons_1 in Hsz as [Hsz _].
  simpl in *. rewrite Hl. unfold block at 1 3. simpl. rewrite length_app, length_seqZ.
  split; [done|]. split; [lia|]. rewrite drop_app_length'; [done|]. by rewrite length_seqZ.
Qed.

Lemma rb_step_inv c c' : client_inv c -> rb_step c c' -> client_inv c'.
Proof.
  intros Hc Hstep. pose proof Hc as (Hinv & Hl & Hsz).
  destruct Hstep as [rb rb' bs p sz Hs E|rb rb' bs sz Hs E|rb rb' bs sz res Hs E
                    |rb rb' bs p sz E|rb bs]; simpl in *.
  - destruct (alloc_spec rb sz Hinv Hs) as (rb1 & res & E1 & Hi & _ & _ & Hres).
    rewrite E in E1. injection E1 as <- <-. destruct Hres as (_ & _ & Hl' & _).
    split; [done|]. simpl. split.
    + by rewrite Hl', Hl, map_app, concat_app; simpl; rewrite app_nil_r.
    + apply Forall_app_2; [done|]. by constructor.
  - destruct (alloc_spec rb sz Hinv Hs) as (rb1 & res & E1 & Hi & _ & _ & Hres).
    rewrite E in E1. injection E1 as <- <-. destruct Hres as (_ & Hl').
    split; [done|]. by rewrite <- Hl' in Hl.
  - destruct (reserve_spec rb sz Hinv Hs) as (rb1 & res1 & E1 & Hi & _ & _ & Hl' & _).
    rewrite E in E1. injection E1 as <- <-. split; [done|]. by rewrite <- Hl' in Hl.
  - destruct (client_head _ p sz bs Hc) as (Hs & Hle & Hd); [done|]. simpl in *.
    pose proof (free_spec rb sz Hinv Hs) as HF. unfold free_post in HF. rewrite E in HF.
    cbv zeta in HF. rewrite decide_False in HF by lia.
    destruct (decide _); [done|]. destruct HF as (rb1 & [= <-] & Hi & _ & _ & Hl').
    split; [done|]. simpl. split; [congruence|]. by apply Forall_cons_1 in Hsz as [_ ?].
  - destruct (close_inv rb Hinv) as [Hi Hl']. split; [done|]. by rewrite <- Hl' in Hl.
Qed.

Lemma rb_reachable_inv c : rb_reachable c -> client_inv c.
Proof.
  intros (sz & rb & Hc & Hsteps). destruct (create_inv _ _ Hc) as [Hi Hl].
  assert (H0 : client_inv (RbClient rb [])) by (split; [done|]; split; [done|constructor]).
  clear Hc Hi Hl. remember (RbClient rb []) as c0 eqn:E. clear E.
  induction Hsteps as [|c0 c1 c2 Hstep _ IH]; [done|]. apply IH. by eapply rb_step_inv.
Qed.

(** Blocks of a client are pairwise disjoint. *)
Lemma NoDup_blocks_disjoint bs i j b b' x :
  NoDup (concat (map block bs)) -> bs !! i = Some b -> bs !! j = Some b' -> i <> j ->
  x ∈ block b -> x ∈ block b' -> False.
Proof.
  revert i j. induction bs as [|c bs IH]; intros i j Hnd Hi Hj Hij Hx Hx'; [done|].
  simpl in Hnd. apply list.NoDup_app in Hnd as (_ & Hdis & Hnd).
  assert (Hin : forall k c', bs !! k = Some c' -> x ∈ block c' -> x ∈ concat (map block bs)).
  { intros k c' Hk Hxk. apply list_elem_of_In, in_concat. exists (block c').
    split; [|by apply list_elem_of_In]. apply in_map, list_elem_of_In.
    by eapply list_elem_of_lookup_2. }
  destruct i as [|i], j as [|j]; simplify_eq/=; try done.
  - eapply Hdis; eauto.
  - eapply Hdis; eauto.
  - eapply (IH i j); eauto.
Qed.

(** ** Theorems *)

(** C5: the ring buffer implements a FIFO of disjoint blocks.  After any sequence of
    allocations, reservations, in-order frees and a close, the blocks the client
    holds lie inside the buffer, no byte belongs to two of them, the amount
    reported as used is the sum of their sizes, and the oldest block can be freed:
    the call returns 0 (or destroys the ring buffer, when it is closed and that was
    the last data). *)
Theorem ring_buffer_fifo c :
  rb_reachable c ->
  (forall i j b b' x, c_blocks c !! i = Some b -> c_blocks c !! j = Some b' -> i <> j ->
     x ∈ block b -> x ∈ block b' -> False) /\
  (forall i b x, c_blocks c !! i = Some b -> x ∈ block b -> 0 <= x < size (c_rb c)) /\
  fr_ring_buffer_used (c_rb c) = Some (foldr Z.add 0 (map snd (c_blocks c))) /\
  (forall p sz bs, c_blocks c = (p, sz) :: bs ->
     fr_ring_buffer_free (c_rb c) sz = Some FreeGone \/
     exists rb', fr_ring_buffer_free (c_rb c) sz = Some (FreeRet rb' 0)).
Proof.
  intros Hr. pose proof (rb_reachable_inv _ Hr) as Hc. pose proof Hc as (Hinv & Hl & Hsz).
  pose proof (live_NoDup _ Hinv) as Hnd. pose proof (live_range _ Hinv) as Hrange.
  rewrite Hl in Hnd, Hrange. split; [|split; [|split]].
  - intros i j b b' x. by apply NoDup_blocks_disjoint.
  - intros i b x Hi Hx. eapply list.Forall_forall in Hrange; [exact Hrange|].
    apply list_elem_of_In, in_concat. exists (block b).
    split; [|by apply list_elem_of_In]. apply in_map, list_elem_of_In.
    by eapply list_elem_of_lookup_2.
  - rewrite used_spec, Hl by done. f_equal. clear -Hsz.
    induction (c_blocks c) as [|b bs IH]; [done|]. apply Forall_cons_1 in Hsz as [Hb Hsz].
    simpl. rewrite length_app, Nat2Z.inj_add, IH by done. f_equal.
    unfold block. rewrite length_seqZ. lia.
  - intros p sz bs E. destruct (client_head _ _ _ _ Hc E) as (Hs & Hle & Hd).
    pose proof (free_spec _ sz Hinv Hs) as HF. unfold free_post in HF. cbv zeta in HF.
    rewrite decide_False in HF by lia. destruct (decide _) as [_|_]; [by left|].
    destruct HF as (rb' & -> & _). right. eauto.
Qed.

(** A ring buffer of 1024 bytes with a block at its end and one wrapped to its
    start. *)
Definition example_client : rb_client :=
  RbClient (RingBuffer 1024 600 1000 500 0 false) [(600, 400); (0, 500)].

Lemma example_client_reachable : rb_reachable example_client.
Proof.
  exists 1024, (RingBuffer 1024 0 0 0 0 false). split; [vm_compute; reflexivity|].
  eapply rtc_l; [apply (step_alloc _ (RingBuffer 1024 0 600 600 0 false) _ 0 600); [lia|reflexivity]|].
  eapply rtc_l; [apply (step_alloc _ (RingBuffer 1024 0 1000 1000 0 false) _ 600 400); [lia|reflexivity]|].
  eapply rtc_l; [apply (step_free _ (RingBuffer 1024 600 1000 1000 0 false)); reflexivity|].
  eapply rtc_l; [apply (step_alloc _ (RingBuffer 1024 600 1000 500 0 false) _ 0 500); [lia|reflexivity]|].
  apply rtc_refl.
Qed.

Lemma ring_buffer_fifo_witness :
  (forall i j b b' x, c_blocks example_client !! i = Some b ->
     c_blocks example_client !! j = Some b' -> i <> j ->
     x ∈ block b -> x ∈ block b' -> False) /\
  (forall i b x, c_blocks example_client !! i = Some b -> x ∈ block b -> 0 <= x < 1024) /\
  fr_ring_buffer_used (c_rb example_client) = Some 900 /\
  (forall p sz bs, c_blocks example_client = (p, sz) :: bs ->
     fr_ring_buffer_free (c_rb example_client) sz = Some FreeGone \/
     exists rb', fr_ring_buffer_free (c_rb example_client) sz = Some (FreeRet rb' 0)).
Proof. apply (ring_buffer_fifo example_client). exact example_client_reachable. Defined.

(** On a well-formed ring buffer [fr_ring_buffer_alloc] never fails its assertion
    and preserves well-formedness.  It returns [NULL] exactly when the ring buffer is
    closed or neither gap has room (the wrapped data must leave a free byte before
    [data_start]), and then the data in use is unchanged; otherwise the bytes of the
    returned block are appended to the FIFO and lie inside the buffer. *)
Theorem ring_buffer_alloc_spec rb sz :
  rb_inv rb -> 0 <= sz < 2 ^ 63 ->
  exists rb' res, fr_ring_buffer_alloc rb sz = Some (rb', res) /\ rb_inv rb' /\
    (res = None <-> closed rb = true \/ ~ rb_fits rb sz) /\
    match res with
    | Some p => live rb' = live rb ++ seqZ p sz /\ 0 <= p /\ p + sz <= size rb
    | None => live rb' = live rb
    end.
Proof.
  intros Hinv Hsz. destruct (alloc_spec rb sz Hinv Hsz) as (rb' & res & E & Hi & _ & _ & Hres).
  exists rb', res. split; [done|]. split; [done|]. destruct res as [p|]; [|tauto].
  destruct Hres as (Hc & Hf & Hl & Hp). rewrite Hc. split; [|done].
  split; [done|]. intros [?|?]; done.
Qed.

Lemma ring_buffer_alloc_spec_witness :
  exists rb' res, fr_ring_buffer_alloc (c_rb example_client) 99 = Some (rb', res) /\ rb_inv rb' /\
    (res = None <-> false = true \/ ~ rb_fits (c_rb example_client) 99) /\
    match res with
    | Some p => live rb' = live (c_rb example_client) ++ seqZ p 99 /\ 0 <= p /\ p + 99 <= 1024
    | None => live rb' = live (c_rb example_client)
    end.
Proof. apply (ring_buffer_alloc_spec (c_rb example_client) 99); [simpl; lia|lia]. Defined.

(** [fr_ring_buffer_free] on a well-formed ring buffer.  Freeing at most what is in
    use drops that many bytes from the front of the FIFO, across the wrap, and
    returns 0, destroying the ring buffer when it is closed and becomes empty.
    Freeing more fails with -1; if the data has wrapped, the failing call has
    already discarded the older block (the documentation says the buffer is reset
    to empty). *)
Theorem ring_buffer_free_spec rb n :
  rb_inv rb -> 0 <= n < 2 ^ 63 -> free_post rb n (fr_ring_buffer_free rb n).
Proof. exact (free_spec rb n). Qed.

Lemma ring_buffer_free_spec_witness :
  free_post (c_rb example_client) 450 (fr_ring_buffer_free (c_rb example_client) 450) /\
  free_post (c_rb example_client) 901 (fr_ring_buffer_free (c_rb example_client) 901).
Proof. split; apply ring_buffer_free_spec; simpl; lia. Defined.

(** [fr_ring_buffer_reserve] changes neither the data in use nor well-formedness, and a
    successful reservation is honoured: allocating at most the reserved size next
    returns the very offset the reservation returned.  It fails exactly when there
    is no room. *)
Theorem ring_buffer_reserve_honoured rb sz :
  rb_inv rb -> 0 <= sz < 2 ^ 63 ->
  exists rb' res, fr_ring_buffer_reserve rb sz = Some (rb', res) /\ rb_inv rb' /\
    live rb' = live rb /\
    match res with
    | Some p => forall sz', 0 <= sz' <= sz ->
        exists rb'', fr_ring_buffer_alloc rb' sz' = Some (rb'', Some p)
    | None => closed rb = true \/ ~ rb_fits rb sz
    end.
Proof.
  intros Hinv Hsz. destruct (reserve_spec rb sz Hinv Hsz) as (rb' & res & E & Hi & _ & _ & Hl & Hr).
  eauto 7.
Qed.

Lemma ring_buffer_reserve_honoured_witness :
  exists rb' res, fr_ring_buffer_reserve (RingBuffer 1024 600 1000 1000 0 false) 300 =
      Some (rb', res) /\ rb_inv rb' /\
    live rb' = live (RingBuffer 1024 600 1000 1000 0 false) /\
    match res with
    | Some p => forall sz', 0 <= sz' <= 300 ->
        exists rb'', fr_ring_buffer_alloc rb' sz' = Some (rb'', Some p)
    | None => false = true \/ ~ rb_fits (RingBuffer 1024 600 1000 1000 0 false) 300
    end.
Proof.
  apply (ring_buffer_reserve_honoured (RingBuffer 1024 600 1000 1000 0 false) 300);
    [simpl; lia|lia].
Defined.

(** [fr_ring_buffer_create] gives an empty well-formed ring buffer whose size is the
    smallest power of two that is at least the request and at least 1024, for every
    request up to 2^30, and refuses larger requests. *)
Theorem ring_buffer_create_pow2 sz :
  if decide (sz <= 2 ^ 30) then
    exists rb, fr_ring_buffer_create true true sz = Some rb /\ rb_inv rb /\ live rb = [] /\
      size rb = 2 ^ Z.log2_up (Z.max sz 1024)
  else fr_ring_buffer_create true true sz = None.
Proof.
  assert (Em : (if decide (sz < 1024) then 1024 else sz) = Z.max sz 1024)
    by (destruct (decide (sz < 1024)); lia).
  destruct (fr_ring_buffer_create true true sz) as [rb|] eqn:E; pose proof E as E';
    unfold fr_ring_buffer_create in E'; cbn [negb] in E';
    rewrite Em in E';
    change (Z.shiftl 1 30) with (2 ^ 30) in E';
    destruct (decide (2 ^ 30 < Z.max sz 1024)); try done.
  - rewrite decide_True by lia. exists rb. destruct (create_inv _ _ E) as [Hi Hl].
    split_and!; try done. injection E' as <-. apply round_up_pow2_log2. lia.
  - by rewrite decide_False by lia.
Qed.

(** [fr_ring_buffer_start] reports the wrong size once the data has wrapped: the size
    of the newer block instead of the older one it points to.  On a reachable ring
    buffer the reported block even extends past the end of the buffer. *)
Theorem ring_buffer_start_overrun :
  exists c, rb_reachable c /\
    let '(start, sz) := fr_ring_buffer_start (c_rb c) in
    c_blocks c !! 0%nat = Some (start, 400) /\ sz = 500 /\ size (c_rb c) < start + sz.
Proof. exists example_client. split; [exact example_client_reachable|done]. Qed.

(** The bounds check of [fr_ring_buffer_alloc] wraps around: with 600 bytes in use an
    allocation of nearly 2^64 bytes succeeds. *)
Theorem ring_buffer_alloc_overflow :
  exists rb' sz, rb_reachable (RbClient (RingBuffer 1024 0 600 600 0 false) [(0, 600)]) /\
    0 <= sz < 2 ^ 64 /\ 1024 < sz /\
    fr_ring_buffer_alloc (RingBuffer 1024 0 600 600 0 false) sz = Some (rb', Some 600).
Proof.
  exists (RingBuffer 1024 0 0 0 0 false), (2 ^ 64 - 600). split; [|split; [lia|split; [lia|]]].
  - exists 1024, (RingBuffer 1024 0 0 0 0 false). split; [vm_compute; reflexivity|].
    eapply rtc_l; [apply (step_alloc _ (RingBuffer 1024 0 600 600 0 false) _ 0 600); [lia|reflexivity]|].
    apply rtc_refl.
  - reflexivity.
Qed.
