(* ===== verification/MessageSet.v ===== *)
(** * Message sets: [lib/io/message.c]

    A message set hands out message headers from a few message rings and packet data from
    a few ring buffers (both are the ring buffers of [RingBuffer]), and takes them back
    when the recipient has marked the messages as done.

    Pointers are an object and an offset into it.  The state holds the message set, the
    ring buffers by object, the message headers and the data bytes by pointer, and the
    number of the next object.  [None] is a failed assertion, an access to an object that
    was freed, or loop fuel that ran out.

    Three parameters stand for what the code does not decide: [NDEBUG] is the build flag
    (it removes the assertions and two [memset]s), [talloc_ok n] says whether the
    allocation of object [n] succeeds, and [uninit] is the content of memory that was
    never written.  The fields of a caller's message past [fr_message_t], the unused
    [mr_cleaned] and the debug printing are left out. *)
From S2P Require Import Prelude StateMonad RingBuffer.

Inductive fr_message_status_t :=
  FR_MESSAGE_FREE | FR_MESSAGE_USED | FR_MESSAGE_LOCALIZED | FR_MESSAGE_DONE.
#[export] Instance fr_message_status_eq_dec : EqDecision fr_message_status_t.
Proof. solve_decision. Defined.

Definition ptr : Type := Z * Z.

Record fr_message_t := Message {
  m_status : fr_message_status_t;
  m_when : Z;
  m_rb : option Z;
  m_data : option ptr;
  m_data_size : Z;
  m_rb_size : Z;
}.
#[export] Instance fr_message_eq_dec : EqDecision fr_message_t.
Proof. solve_decision. Defined.

(** [sizeof(fr_message_t)] with 64-bit pointers. *)
Definition sizeof_fr_message_t : Z := 48.

Definition with_status (s : fr_message_status_t) (m : fr_message_t) : fr_message_t :=
  Message s (m_when m) (m_rb m) (m_data m) (m_data_size m) (m_rb_size m).
Definition with_rb (r : option Z) (m : fr_message_t) : fr_message_t :=
  Message (m_status m) (m_when m) r (m_data m) (m_data_size m) (m_rb_size m).
Definition with_msg_data (d : option ptr) (m : fr_message_t) : fr_message_t :=
  Message (m_status m) (m_when m) (m_rb m) d (m_data_size m) (m_rb_size m).
Definition with_data_size (n : Z) (m : fr_message_t) : fr_message_t :=
  Message (m_status m) (m_when m) (m_rb m) (m_data m) n (m_rb_size m).
Definition with_rb_size (n : Z) (m : fr_message_t) : fr_message_t :=
  Message (m_status m) (m_when m) (m_rb m) (m_data m) (m_data_size m) n.
(** A header filled with zeros. *)
Definition zeroed : fr_message_t := Message FR_MESSAGE_FREE 0 None None 0 0.

Definition MSG_ARRAY_SIZE : Z := 16.

(** [mr_current], [mr_max], [mr_array], and the same for [rb_]: [NULL] is [None]. *)
Record arrays := Arrays { current : Z; max : Z; array : list (option Z) }.

Record fr_message_set_t := MessageSet {
  ms_mr : arrays;
  ms_rb : arrays;
  message_size : Z;
  max_allocation : Z;
  allocated : Z;
  freed : Z;
}.

Record world := World {
  ms : fr_message_set_t;
  rings : gmap Z fr_ring_buffer_t;
  msgs : gmap ptr fr_message_t;
  bytes : gmap ptr Z;
  next_obj : Z;
}.

Abbreviation M := (st world).

Inductive kind := MR | RB.

Definition get_arrays (k : kind) (s : fr_message_set_t) : arrays :=
  match k with MR => ms_mr s | RB => ms_rb s end.
Definition set_arrays (k : kind) (a : arrays) (s : fr_message_set_t) : fr_message_set_t :=
  match k with
  | MR => MessageSet a (ms_rb s) (message_size s) (max_allocation s) (allocated s) (freed s)
  | RB => MessageSet (ms_mr s) a (message_size s) (max_allocation s) (allocated s) (freed s)
  end.
Definition upd_ms (f : fr_message_set_t -> fr_message_set_t) : M unit :=
  modify (fun w => World (f (ms w)) (rings w) (msgs w) (bytes w) (next_obj w)).
Definition upd_arrays (k : kind) (f : arrays -> arrays) : M unit :=
  upd_ms (fun s => set_arrays k (f (get_arrays k s)) s).
Definition set_current (i : Z) (a : arrays) : arrays := Arrays i (max a) (array a).
Definition set_array (l : list (option Z)) (a : arrays) : arrays := Arrays (current a) (max a) l.

(** The pointer in slot [i]; an index outside the array fails. *)
Definition slot (a : list (option Z)) (i : Z) : option (option Z) :=
  if decide (0 <= i) then a !! Z.to_nat i else None.
Definition get_slot (k : kind) (i : Z) : M (option Z) :=
  fun w => o ← slot (array (get_arrays k (ms w))) i; Some (o, w).
(** The ring buffer in slot [i], for a use that dereferences it. *)
Definition get_ring (k : kind) (i : Z) : M Z := o ← get_slot k i; lift o.

(** ** Operations on memory *)

Definition set_ring (id : Z) (r : fr_ring_buffer_t) (w : world) : world :=
  World (ms w) (<[id := r]> (rings w)) (msgs w) (bytes w) (next_obj w).

(** [talloc_free] of a ring buffer: the headers and bytes in it go with it. *)
Definition drop_ring (id : Z) (w : world) : world :=
  World (ms w) (delete id (rings w)) (filter (fun e => e.1.1 <> id) (msgs w))
    (filter (fun e => e.1.1 <> id) (bytes w)) (next_obj w).

Definition get_rb {A} (f : fr_ring_buffer_t -> option A) (id : Z) : M A :=
  fun w => r ← rings w !! id; a ← f r; Some (a, w).
Definition on_rb {A} (f : fr_ring_buffer_t -> option (fr_ring_buffer_t * A)) (id : Z) : M A :=
  fun w => r ← rings w !! id; p ← f r; Some (p.2, set_ring id p.1 w).

Definition ring_start (id : Z) : M (ptr * Z) :=
  get_rb (fun r => Some ((id, (fr_ring_buffer_start r).1), (fr_ring_buffer_start r).2)) id.
Definition ring_used (id : Z) : M Z := get_rb fr_ring_buffer_used id.
Definition ring_size (id : Z) : M Z := get_rb (fun r => Some (fr_ring_buffer_size r)) id.
Definition ring_alloc (id sz : Z) : M (option ptr) :=
  o ← on_rb (fun r => fr_ring_buffer_alloc r sz) id; mret (pair id <$> o).
Definition ring_reserve (id sz : Z) : M (option ptr) :=
  o ← on_rb (fun r => fr_ring_buffer_reserve r sz) id; mret (pair id <$> o).
Definition ring_free (id sz : Z) : M Z := fun w =>
  r ← rings w !! id; res ← fr_ring_buffer_free r sz;
  match res with
  | FreeRet r' ret => Some (ret, set_ring id r' w)
  | FreeGone => Some (0, drop_ring id w)
  end.
Definition free_ring (id : Z) : M unit :=
  _ ← get_rb Some id; modify (drop_ring id).

(** [p[0..n-1]], [None] for a byte never written; inside a ring buffer the range must be
    in bounds. *)
Definition in_bounds (p : ptr) (n : Z) (w : world) : Prop :=
  match rings w !! p.1 with
  | Some r => 0 <= p.2 /\ p.2 + n <= size r
  | None => False
  end.
#[export] Instance in_bounds_dec p n w : Decision (in_bounds p n w).
Proof. unfold in_bounds. destruct (rings w !! p.1); solve_decision. Defined.
Definition load (p : ptr) (n : Z) (w : world) : list (option Z) :=
  map (fun i => bytes w !! (p.1, p.2 + i)) (seqZ 0 n).
Fixpoint store (b : gmap ptr Z) (p : ptr) (l : list (option Z)) : gmap ptr Z :=
  match l with
  | [] => b
  | v :: l => store (partial_alter (fun _ => v) p b) (p.1, p.2 + 1) l
  end.
Definition memmove (dst src : ptr) (n : Z) : M unit := fun w =>
  if decide (in_bounds dst n w /\ in_bounds src n w)
  then Some ((), World (ms w) (rings w) (msgs w) (store (bytes w) dst (load src n w)) (next_obj w))
  else None.

Section message_set.
Variables (NDEBUG : bool) (talloc_ok : Z -> bool) (uninit : ptr -> fr_message_t).

Definition fr_assert (P : Prop) `{!Decision P} : M unit :=
  if NDEBUG then mret () else if decide P then mret () else fail.

(** The header at a pointer: the object it is in must not have been freed. *)
Definition alive (p : ptr) (w : world) : Prop :=
  is_Some (rings w !! p.1) \/ is_Some (msgs w !! p).
#[local] Instance alive_dec p w : Decision (alive p w).
Proof. unfold alive. solve_decision. Defined.
Definition header (p : ptr) (w : world) : fr_message_t := default (uninit p) (msgs w !! p).
Definition rd (p : ptr) : M fr_message_t := fun w =>
  if decide (alive p w) then Some (header p w, w) else None.
Definition wr (f : fr_message_t -> fr_message_t) (p : ptr) : M unit := fun w =>
  if decide (alive p w)
  then Some ((), World (ms w) (rings w) (<[p := f (header p w)]> (msgs w)) (bytes w) (next_obj w))
  else None.

(** [fr_ring_buffer_create], which allocates the ring buffer and its memory. *)
Definition ring_create (sz : Z) : M (option Z) := fun w =>
  let n := next_obj w in
  let w' := World (ms w) (rings w) (msgs w) (bytes w) (n + 2) in
  match fr_ring_buffer_create (talloc_ok n) (talloc_ok (n + 1)) sz with
  | Some r => Some (Some n, set_ring n r w')
  | None => Some (None, w')
  end.

(** ** Creating a message set *)

Definition CACHE_ALIGN (x : Z) : Z := Z.land (u64 (x + 63)) (u64 (Z.lnot 63)).

(** The two rings of a new set: [None] when one cannot be allocated. *)
Definition create_rings (num_messages ring_buffer_size : Z) : M (option unit) :=
  o ← ring_create ring_buffer_size;
  match o with
  | None => mret None
  | Some r =>
      upd_arrays RB (fun a => set_array (<[0%nat := Some r]> (array a)) a);;
      message_size ← gets (fun w => message_size (ms w));
      o ← ring_create (u64 (num_messages * message_size));
      match o with
      | None => mret None
      | Some r =>
          upd_arrays MR (fun a => set_array (<[0%nat := Some r]> (array a)) a);;
          upd_ms (fun s => MessageSet (ms_mr s) (ms_rb s) message_size (ring_buffer_size / 2)
                             (allocated s) (freed s));;
          mret (Some ())
      end
  end.

(** The state after the call, [None] for the result [NULL]. *)
Definition fr_message_set_create (num_messages msg_size ring_buffer_size : Z) : option world :=
  let num_messages := if decide (num_messages < 8) then 8 else num_messages in
  if decide (Z.land num_messages (num_messages - 1) <> 0) then None else
  if decide (msg_size < sizeof_fr_message_t) then None else
  if decide (1024 < msg_size) then None else
  if negb (talloc_ok 0) then None else
  let none := replicate (Z.to_nat MSG_ARRAY_SIZE) None in
  let ms0 := MessageSet (Arrays 0 0 none) (Arrays 0 0 none) (CACHE_ALIGN msg_size) 0 0 0 in
  match create_rings num_messages ring_buffer_size (World ms0 ∅ ∅ ∅ 1) with
  | Some (Some _, w) => Some w
  | _ => None
  end.

(** ** Marking a message as done, localizing it *)

(** [talloc_free] of a localized message and of its data. *)
Definition free_local (p : ptr) : M unit := fun w =>
  match msgs w !! p with
  | None => None
  | Some l =>
      let b := match m_data l with
               | Some d => filter (fun e => e.1.1 <> d.1) (bytes w)
               | None => bytes w
               end in
      Some ((), World (ms w) (rings w) (delete p (msgs w)) b (next_obj w))
  end.

Definition fr_message_done (p : ptr) : M Z :=
  m ← rd p;
  fr_assert (m_status m <> FR_MESSAGE_FREE);;
  fr_assert (m_status m <> FR_MESSAGE_DONE);;
  if decide (m_status m = FR_MESSAGE_USED) then
    wr (with_status FR_MESSAGE_DONE) p;; mret 0
  else if decide (m_status m = FR_MESSAGE_LOCALIZED) then
    free_local p;; mret 0
  else
    fr_assert False;; mret (-1).

(** A new object, when [talloc] can allocate it. *)
Definition talloc : M (option Z) := fun w =>
  let n := next_obj w in
  Some (if talloc_ok n then Some n else None,
        World (ms w) (rings w) (msgs w) (bytes w) (n + 1)).

(** The data to copy must be in bounds. *)
Definition memdup_data (n : Z) (src : option ptr) (len : Z) : M unit := fun w =>
  s ← src;
  if decide (in_bounds s len w)
  then Some ((), World (ms w) (rings w) (msgs w) (store (bytes w) (n, 0) (load s len w)) (next_obj w))
  else None.

Definition fr_message_localize (p : ptr) (msg_size : Z) : M (option ptr) :=
  m ← rd p;
  if decide (m_status m <> FR_MESSAGE_USED) then mret None else
  if decide (msg_size <= sizeof_fr_message_t) then mret None else
  o ← talloc;
  match o with
  | None => mret None
  | Some n =>
      let l := with_msg_data None m in
      o ← (if decide (m_data_size l <> 0) then
             o ← talloc;
             match o with
             | None => mret None
             | Some d =>
                 memdup_data d (m_data m) (m_data_size l);;
                 mret (Some (with_msg_data (Some (d, 0)) l))
             end
           else mret (Some l));
      match o with
      | None => mret None
      | Some l =>
          let l := with_rb_size 0 (with_rb None (with_status FR_MESSAGE_LOCALIZED l)) in
          modify (fun w => World (ms w) (rings w) (<[(n, 0) := l]> (msgs w)) (bytes w) (next_obj w));;
          wr (with_status FR_MESSAGE_DONE) p;;
          mret (Some (n, 0))
      end
  end.

(** ** Garbage collection *)

Definition incr_freed (s : fr_message_set_t) : fr_message_set_t :=
  MessageSet (ms_mr s) (ms_rb s) (message_size s) (max_allocation s) (allocated s) (freed s + 1).
Definition incr_allocated (s : fr_message_set_t) : fr_message_set_t :=
  MessageSet (ms_mr s) (ms_rb s) (message_size s) (max_allocation s) (allocated s + 1) (freed s).

Fixpoint ring_gc_loop (fuel : nat) (mr max_to_clean messages_cleaned : Z) : M Z :=
  match fuel with
  | O => fail
  | S fuel =>
      '(p, sz) ← ring_start mr;
      if decide (sz = 0) then mret messages_cleaned else
      message_size ← gets (fun w => message_size (ms w));
      fr_assert (message_size <= sz);;
      m ← rd p;
      fr_assert (m_status m <> FR_MESSAGE_FREE);;
      if decide (m_status m <> FR_MESSAGE_DONE) then mret messages_cleaned else
      let messages_cleaned := messages_cleaned + 1 in
      wr (with_status FR_MESSAGE_FREE) p;;
      upd_ms incr_freed;;
      match m_rb m with
      | Some r =>
          _ ← ring_free r (m_rb_size m);
          if NDEBUG then mret () else wr (fun _ => zeroed) p
      | None => mret ()
      end;;
      _ ← ring_free mr message_size;
      if decide (max_to_clean <= messages_cleaned) then mret messages_cleaned else
      ring_gc_loop fuel mr max_to_clean messages_cleaned
  end.

(** Each round frees [message_size] bytes of the message ring, so the number of messages
    that fit is enough fuel. *)
Definition fr_message_ring_gc (mr max_to_clean : Z) : M Z :=
  sz ← ring_size mr;
  message_size ← gets (fun w => message_size (ms w));
  ring_gc_loop (S (Z.to_nat (sz / message_size))) mr max_to_clean 0.

Fixpoint gc_rings (idx : list Z) (max_to_clean total_cleaned : Z) : M Z :=
  match idx with
  | [] => mret total_cleaned
  | i :: idx =>
      mr ← get_ring MR i;
      cleaned ← fr_message_ring_gc mr (max_to_clean - total_cleaned);
      let total_cleaned := total_cleaned + cleaned in
      fr_assert (total_cleaned <= max_to_clean);;
      if decide (total_cleaned = max_to_clean) then mret total_cleaned
      else gc_rings idx max_to_clean total_cleaned
  end.

(** Keep the two largest, free the smaller ones which are empty: [arrays_freed]. *)
Fixpoint free_smaller (k : kind) (idx : list Z) (arrays_used arrays_freed : Z) : M Z :=
  match idx with
  | [] => mret arrays_freed
  | i :: idx =>
      o ← get_slot k i;
      fr_assert (o <> None);;
      if decide (arrays_used < 2) then free_smaller k idx (arrays_used + 1) arrays_freed else
      id ← lift o;
      used ← ring_used id;
      if decide (used = 0) then
        free_ring id;;
        upd_arrays k (fun a => set_array (<[Z.to_nat i := None]> (array a)) a);;
        free_smaller k idx arrays_used (arrays_freed + 1)
      else free_smaller k idx arrays_used arrays_freed
  end.

(** The first [j] of the list whose slot is empty. *)
Fixpoint next_empty (a : list (option Z)) (js : list Z) (empty_slot : Z) : option Z :=
  match js with
  | [] => Some empty_slot
  | j :: js => o ← slot a j; if decide (o = None) then Some j else next_empty a js empty_slot
  end.

Fixpoint pack_loop (a : list (option Z)) (idx : list Z) (empty_slot : Z) : M (list (option Z)) :=
  match idx with
  | [] => mret a
  | i :: idx =>
      o ← lift (slot a i);
      match o with
      | None => pack_loop a idx (if decide (empty_slot < 0) then i else empty_slot)
      | Some id =>
          if decide (empty_slot < 0) then pack_loop a idx empty_slot else
          e ← lift (slot a empty_slot);
          fr_assert (e = None);;
          let a := <[Z.to_nat i := None]> (<[Z.to_nat empty_slot := Some id]> a) in
          empty_slot ← lift (next_empty a (seqZ (empty_slot + 1) (i - empty_slot)) empty_slot);
          pack_loop a idx empty_slot
      end
  end.

Definition all_present (a : arrays) : Prop :=
  Forall (fun i => exists id, slot (array a) i = Some (Some id)) (seqZ 0 (max a + 1)).
#[local] Instance slot_present_dec a i : Decision (exists id, slot a i = Some (Some id)).
Proof.
  destruct (slot a i) as [[id|]|]; [left; eauto|right; intros [? ?]; done..].
Defined.
#[local] Instance all_present_dec a : Decision (all_present a).
Proof. unfold all_present. apply _. Defined.

(** Free the smaller arrays which are empty and pack the remaining ones. *)
Definition shrink_arrays (k : kind) : M unit :=
  a ← gets (fun w => get_arrays k (ms w));
  arrays_freed ← free_smaller k (reverse (seqZ 0 (max a + 1))) 0 0;
  if decide (arrays_freed = 0) then mret () else
  a ← gets (fun w => get_arrays k (ms w));
  l ← pack_loop (array a) (seqZ 0 (max a + 1)) (-1);
  let a := Arrays (max a - arrays_freed) (max a - arrays_freed) l in
  upd_arrays k (fun _ => a);;
  fr_assert (all_present a).

Definition free_size (i : Z) : M Z :=
  id ← get_ring RB i; sz ← ring_size id; used ← ring_used id; mret (u64 (sz - used)).

Fixpoint largest_free (idx : list Z) (largest_free_slot largest_free_size : Z) : M Z :=
  match idx with
  | [] => mret largest_free_slot
  | i :: idx =>
      free_size ← free_size i;
      if decide (largest_free_size < free_size) then largest_free idx i free_size
      else largest_free idx largest_free_slot largest_free_size
  end.

Definition fr_message_gc (max_to_clean : Z) : M unit :=
  mr_max ← gets (fun w => max (ms_mr (ms w)));
  total_cleaned ← gc_rings (seqZ 0 (mr_max + 1)) max_to_clean 0;
  if decide (total_cleaned = 0) then mret () else
  shrink_arrays MR;;
  shrink_arrays RB;;
  rb_max ← gets (fun w => max (ms_rb (ms w)));
  o ← get_slot RB rb_max;
  if decide (o = None) then mret () else
  largest_free_size ← free_size rb_max;
  i ← largest_free (seqZ 0 rb_max) rb_max largest_free_size;
  upd_arrays RB (set_current i);;
  fr_assert (0 <= i);;
  fr_assert (i <= rb_max).

(** ** Allocating messages *)

(** Note that the header is only zeroed in debug builds. *)
Definition fr_message_ring_alloc (mr : Z) (clean : bool) : M (option ptr) :=
  ok ← (if clean then
          n ← fr_message_ring_gc mr 4; mret (bool_decide (n <> 0))
        else mret true);
  if negb ok then mret None else
  message_size ← gets (fun w => message_size (ms w));
  o ← ring_alloc mr message_size;
  match o with
  | None => mret None
  | Some m =>
      (if NDEBUG then mret () else wr (fun _ => zeroed) m);;
      wr (with_status FR_MESSAGE_USED) m;;
      mret (Some m)
  end.

(** Brute force over all message rings, from the largest. *)
Fixpoint alloc_anywhere (idx : list Z) : M (option ptr) :=
  match idx with
  | [] => mret None
  | i :: idx =>
      mr ← get_ring MR i;
      o ← fr_message_ring_alloc mr true;
      match o with
      | Some m => upd_arrays MR (set_current i);; mret (Some m)
      | None => alloc_anywhere idx
      end
  end.

(** A new ring buffer, double the size of the largest, becomes the current one. *)
Definition add_ring (k : kind) : M (option Z) :=
  a ← gets (fun w => get_arrays k (ms w));
  id ← get_ring k (max a);
  sz ← ring_size id;
  o ← ring_create (u64 (sz * 2));
  match o with
  | None => mret None
  | Some r =>
      let i := max a + 1 in
      (if decide (i < MSG_ARRAY_SIZE) then mret () else fail);;
      upd_arrays k (fun a => Arrays i i (<[Z.to_nat i := Some r]> (array a)));;
      mret (Some r)
  end.

(** The message and [*p_cleaned]. *)
Definition fr_message_get_message : M (option ptr * bool) :=
  upd_ms incr_allocated;;
  i ← gets (fun w => current (ms_mr (ms w)));
  mr ← get_ring MR i;
  message_size ← gets (fun w => message_size (ms w));
  o ← ring_alloc mr message_size;
  match o with
  | Some m =>
      wr (fun _ => zeroed) m;; wr (with_status FR_MESSAGE_USED) m;; mret (Some m, false)
  | None =>
      fr_message_gc 128;;
      i ← gets (fun w => current (ms_mr (ms w)));
      mr ← get_ring MR i;
      o ← fr_message_ring_alloc mr true;
      match o with
      | Some m => mret (Some m, true)
      | None =>
          mr_max ← gets (fun w => max (ms_mr (ms w)));
          o ← alloc_anywhere (reverse (seqZ 0 (mr_max + 1)));
          match o with
          | Some m => mret (Some m, true)
          | None =>
              if decide (MSG_ARRAY_SIZE <= mr_max + 1) then mret (None, true) else
              o ← add_ring MR;
              match o with
              | None => mret (None, true)
              | Some mr => o ← fr_message_ring_alloc mr false; mret (o, true)
              end
          end
      end
  end.

(** [m->rb = rb; m->data = fr_ring_buffer_reserve(m->rb, m->rb_size)]: whether there was
    room. *)
Definition try_reserve (m : ptr) (id : Z) : M bool :=
  wr (with_rb (Some id)) m;;
  h ← rd m;
  o ← ring_reserve id (m_rb_size h);
  wr (with_msg_data o) m;;
  mret (bool_decide (o <> None)).
(** The same with the ring buffer in slot [i], which is asserted to be there. *)
Definition try_slot (m : ptr) (i : Z) : M bool :=
  o ← get_slot RB i; fr_assert (o <> None);; id ← lift o; try_reserve m id.

Fixpoint reserve_anywhere (m : ptr) (idx : list Z) : M bool :=
  match idx with
  | [] => mret false
  | i :: idx =>
      ok ← try_slot m i;
      if (ok : bool) then upd_arrays RB (set_current i);; mret true else reserve_anywhere m idx
  end.

(** [cleanup:] *)
Definition reserve_failed (m : ptr) : M (option ptr) :=
  wr (with_rb None) m;; wr (with_status FR_MESSAGE_DONE) m;; mret None.

(** [alloc_rb:] *)
Definition alloc_rb (m : ptr) : M (option ptr) :=
  o ← add_ring RB;
  match o with
  | None => reserve_failed m
  | Some id => ok ← try_reserve m id; if (ok : bool) then mret (Some m) else reserve_failed m
  end.

(** From the brute-force loop on. *)
Definition reserve_elsewhere (m : ptr) : M (option ptr) :=
  rb_max ← gets (fun w => max (ms_rb (ms w)));
  ok ← reserve_anywhere m (reverse (seqZ 0 (rb_max + 1)));
  if (ok : bool) then mret (Some m) else
  if decide (MSG_ARRAY_SIZE <= rb_max + 1) then reserve_failed m else alloc_rb m.

Definition fr_message_get_ring_buffer (m : ptr) (cleaned_up : bool) : M (option ptr) :=
  i ← gets (fun w => current (ms_rb (ms w)));
  ok ← try_slot m i;
  if (ok : bool) then mret (Some m) else
  if cleaned_up then reserve_elsewhere m else
  rb_max ← gets (fun w => max (ms_rb (ms w)));
  if decide (rb_max = 0) then alloc_rb m else
  fr_message_gc 128;;
  i ← gets (fun w => current (ms_rb (ms w)));
  ok ← try_slot m i;
  if (ok : bool) then mret (Some m) else reserve_elsewhere m.

Definition fr_message_reserve (reserve_size : Z) : M (option ptr) :=
  max_allocation ← gets (fun w => max_allocation (ms w));
  if decide (max_allocation < reserve_size) then mret None else
  r ← fr_message_get_message;
  let '(o, cleaned_up) := r in
  match o with
  | None => mret None
  | Some m =>
      if decide (reserve_size = 0) then mret (Some m) else
      wr (with_rb_size (CACHE_ALIGN reserve_size)) m;;
      fr_message_get_ring_buffer m cleaned_up
  end.

(** With a reserved message. *)
Definition message_alloc (m : ptr) (actual_packet_size : Z) : M (option ptr) :=
  h ← rd m;
  fr_assert (m_status h = FR_MESSAGE_USED);;
  fr_assert (m_rb h <> None);;
  fr_assert (m_data h <> None);;
  fr_assert (m_data_size h = 0);;
  fr_assert (actual_packet_size <= m_rb_size h);;
  let reserve_size := CACHE_ALIGN actual_packet_size in
  id ← lift (m_rb h);
  p ← ring_alloc id reserve_size;
  fr_assert (p <> None);;
  match p with
  | None => mret None
  | Some _ =>
      fr_assert (p = m_data h);;
      wr (with_data_size actual_packet_size) m;;
      wr (with_rb_size reserve_size) m;;
      mret (Some m)
  end.

Definition fr_message_alloc (m : option ptr) (actual_packet_size : Z) : M (option ptr) :=
  match m with
  | Some m => message_alloc m actual_packet_size
  | None =>
      o ← fr_message_reserve actual_packet_size;
      match o with
      | None => mret None
      | Some m => message_alloc m actual_packet_size
      end
  end.

(** [if (m2->data != p) memmove(m2->data, p, leftover)] with the next packet at [p]. *)
Definition move_leftover (m2 : ptr) (data : option ptr) (actual_packet_size leftover : Z) : M unit :=
  d ← lift data;
  h2 ← rd m2;
  d2 ← lift (m_data h2);
  let p := (d.1, d.2 + actual_packet_size) in
  when (d2 <> p) (memmove d2 p leftover).

(** From the allocation of the next message on; [h] is the header of [m] and [m_rb_size] the
    size it had reserved. *)
Definition reserve_next (m : ptr) (h : fr_message_t) (m_rb_size align_size actual_packet_size
    leftover reserve_size : Z) : M (option ptr) :=
  r ← fr_message_get_message;
  match r.1 with
  | None => mret None
  | Some m2 =>
      let reserve_size := CACHE_ALIGN (u64 (reserve_size + (align_size - actual_packet_size))) in
      wr (with_rb (m_rb h)) m2;;
      wr (with_data_size leftover) m2;;
      wr (with_rb_size reserve_size) m2;;
      id ← lift (m_rb h);
      o ← ring_reserve id reserve_size;
      wr (with_msg_data o) m2;;
      match o with
      | Some _ =>
          move_leftover m2 (m_data h) actual_packet_size leftover;; mret (Some m2)
      | None =>
          o ← fr_message_get_ring_buffer m2 false;
          match o with
          | None => wr (with_rb_size m_rb_size) m;; mret None
          | Some _ =>
              move_leftover m2 (m_data h) actual_packet_size leftover;;
              h2 ← rd m2;
              if decide (m_rb h2 <> m_rb h) then
                wr (with_rb_size m_rb_size) m;; mret (Some m2)
              else
                d ← lift (m_data h);
                d2 ← lift (m_data h2);
                when (d2.2 < d.2) (wr (with_rb_size m_rb_size) m);;
                mret (Some m2)
          end
      end
  end.

Definition fr_message_alloc_reserve (m : ptr) (actual_packet_size leftover reserve_size : Z)
    : M (option ptr) :=
  let align_size := CACHE_ALIGN actual_packet_size in
  h ← rd m;
  fr_assert (m_status h = FR_MESSAGE_USED);;
  fr_assert (m_rb h <> None);;
  fr_assert (m_data h <> None);;
  fr_assert (actual_packet_size <= m_rb_size h);;
  id ← lift (m_rb h);
  p ← ring_alloc id align_size;
  fr_assert (p <> None);;
  match p with
  | None => mret None
  | Some _ =>
      fr_assert (p = m_data h);;
      wr (with_data_size actual_packet_size) m;;
      wr (with_rb_size align_size) m;;
      if decide (leftover = 0) then fr_message_reserve reserve_size else
      reserve_next m h (m_rb_size h) align_size actual_packet_size leftover reserve_size
  end.

(** ** The whole set *)

Fixpoint count_used (idx : list Z) (used : Z) : M Z :=
  match idx with
  | [] => mret used
  | i :: idx =>
      mr ← get_ring MR i;
      n ← ring_used mr;
      message_size ← gets (fun w => message_size (ms w));
      count_used idx (used + n / message_size)
  end.

Definition fr_message_set_messages_used : M Z :=
  mr_max ← gets (fun w => max (ms_mr (ms w)));
  count_used (seqZ 0 (mr_max + 1)) 0.

(** The limit [~0] is the [int] -1. *)
Fixpoint gc_each (idx : list Z) : M unit :=
  match idx with
  | [] => mret ()
  | i :: idx => mr ← get_ring MR i; _ ← fr_message_ring_gc mr (-1); gc_each idx
  end.

Definition fr_message_set_gc : M unit :=
  mr_max ← gets (fun w => max (ms_mr (ms w)));
  gc_each (seqZ 0 (mr_max + 1));;
  fr_message_gc (Z.shiftl 1 24).

End message_set.
