(* ===== verification/MessageInv.v ===== *)
(** * Message sets: the invariant

    What holds of the memory of a message set ([MessageSet]) between calls, stated with a
    log of the messages that were allocated and not yet collected, and the changes of the
    memory that keep it.  The message headers of a ring and the data in a ring buffer are
    the FIFOs of [RingBuffer]. *)
From S2P Require Import Prelude StateMonad RingBuffer MessageSet.

(** ** The log of messages

    The proof keeps the messages which were allocated and not yet collected, in the order
    of their allocation: whether the client still holds the message, where its data is
    (ring buffer, offset, size), and the data itself. *)

Record entry := Entry {
  e_ptr : ptr;
  e_used : bool;
  e_block : option (Z * Z * Z);
  e_data : list (option Z);
}.

Definition e_mr (e : entry) : Z := (e_ptr e).1.
Definition e_rb (e : entry) : option Z := (fun b => b.1.1) <$> e_block e.

(** The bytes of message ring [i] taken by the header of a message of [n] bytes, and the bytes
    of ring buffer [r] taken by its data. *)
Definition mr_block (n i : Z) (e : entry) : list Z :=
  if decide (e_mr e = i) then seqZ (e_ptr e).2 n else [].
Definition rb_block (r : Z) (e : entry) : list Z :=
  match e_block e with
  | Some (r', off, sz) => if decide (r' = r) then seqZ off sz else []
  | None => []
  end.
Definition span (f : entry -> list Z) (log : list entry) : list Z := concat (map f log).

(** Some messages no longer in use were removed from the log. *)
Inductive collected : list entry -> list entry -> Prop :=
| col_nil : collected [] []
| col_keep e l l' : collected l l' -> collected (e :: l) (e :: l')
| col_drop e l l' : e_used e = false -> collected l l' -> collected (e :: l) l'.

(** Bytes of a used message are where they were allocated: the end of the data in use is
    the data of that message and of the later ones. *)
Fixpoint suffixes (r : Z) (data : list Z) (log : list entry) : Prop :=
  match log with
  | [] => True
  | a :: log' =>
      (e_used a = true -> rb_block r a <> [] -> exists x, data = x ++ span (rb_block r) log) /\
      suffixes r data log'
  end.

(** A message that is no longer used while an older one of the same ring buffer is must be
    in the same message ring. *)
Definition in_order (a b : entry) : Prop :=
  e_rb a = e_rb b -> e_rb a <> None -> e_used a = true -> e_used b = false -> e_mr a = e_mr b.

(** ** Lemmas on logs *)

Lemma span_nil f : span f [] = [].
Proof. done. Qed.
Lemma span_cons f e l : span f (e :: l) = f e ++ span f l.
Proof. done. Qed.
Lemma span_app f l l' : span f (l ++ l') = span f l ++ span f l'.
Proof. unfold span. by rewrite map_app, concat_app. Qed.
Lemma span_none f l : Forall (fun e => f e = []) l -> span f l = [].
Proof. induction 1 as [|e l He _ IH]; [done|]. by rewrite span_cons, He, IH. Qed.
Lemma span_nil_inv f l : span f l = [] -> Forall (fun e => f e = []) l.
Proof.
  induction l as [|e l IH]; [constructor|]. rewrite span_cons. intros [He Hl]%app_nil.
  by constructor; auto.
Qed.
Lemma span_ext f g l : (forall e, e ∈ l -> f e = g e) -> span f l = span g l.
Proof.
  induction l as [|e l IH]; intros H; [done|]. rewrite !span_cons, H by apply list_elem_of_here.
  f_equal. apply IH. intros e' He'. apply H. by apply list_elem_of_further.
Qed.

(** The first message of the log with bytes in the span. *)
Lemma span_first f l :
  span f l <> [] -> exists l1 b l2, l = l1 ++ b :: l2 /\ Forall (fun e => f e = []) l1 /\ f b <> [].
Proof.
  induction l as [|e l IH]; [done|]. rewrite span_cons. destruct (f e) as [|x y] eqn:E.
  - intros H. destruct (IH H) as (l1 & b & l2 & -> & H1 & Hb). exists (e :: l1), b, l2.
    split; [done|]. split; [by constructor|done].
  - intros _. exists [], e, l. split; [done|]. split; [constructor|]. by rewrite E.
Qed.

Lemma collected_refl l : collected l l.
Proof. induction l; by constructor. Qed.
Lemma collected_trans l1 l2 l3 : collected l1 l2 -> collected l2 l3 -> collected l1 l3.
Proof.
  intros H. revert l3. induction H as [|e l l' _ IH|e l l' He _ IH]; intros l3 H3; [done| |].
  - inversion H3; subst; constructor; auto.
  - constructor; auto.
Qed.
Lemma collected_app l1 l1' l2 l2' :
  collected l1 l1' -> collected l2 l2' -> collected (l1 ++ l2) (l1' ++ l2').
Proof. intros H1 H2. induction H1; [done|by constructor..]. Qed.
Lemma collected_one l1 b l2 : e_used b = false -> collected (l1 ++ b :: l2) (l1 ++ l2).
Proof. intros H. apply collected_app; [apply collected_refl|]. constructor; [done|apply collected_refl]. Qed.
Lemma collected_elem l l' e : collected l l' -> e ∈ l' -> e ∈ l.
Proof.
  induction 1 as [|e' l l' _ IH|e' l l' _ _ IH]; [done| |].
  - rewrite !elem_of_cons. intros [->|He]; auto.
  - intros H. apply list_elem_of_further. auto.
Qed.
Lemma collected_used l l' e : collected l l' -> e ∈ l -> e_used e = true -> e ∈ l'.
Proof.
  induction 1 as [|e' l l' _ IH|e' l l' Hd _ IH]; [done| |]; rewrite ?elem_of_cons.
  - intros [->|He] Hu; auto.
  - intros [->|He] Hu; [congruence|]. auto.
Qed.
(** The newest message is still the newest one if it is in use. *)
Lemma collected_last l e l' :
  collected (l ++ [e]) l' -> e_used e = true -> exists k, l' = k ++ [e] /\ collected l k.
Proof.
  revert l'. induction l as [|a l IH]; intros l' H Hu; simpl in H.
  - inversion H as [|? ? ? H1|? ? ? ? H1]; subst; [|congruence].
    inversion H1. exists []. split; [done|constructor].
  - inversion H as [|? ? ? H1|? ? ? ? H1]; subst;
      destruct (IH _ H1 Hu) as (k & -> & Hk).
    + exists (a :: k). split; [done|by constructor].
    + exists k. split; [done|by constructor].
Qed.
Lemma collected_sublist l l' : collected l l' -> sublist l' l.
Proof. induction 1; by constructor. Qed.

Lemma pairs_sublist {A} (R : A -> A -> Prop) l l' :
  sublist l' l -> ForallOrdPairs R l -> ForallOrdPairs R l'.
Proof.
  induction 1 as [|x l l' Hs IH|x l l' Hs IH]; [done| |]; intros H; inversion H as [|? ? Hx Hl]; subst.
  - constructor; [|auto]. apply list.Forall_forall. intros y Hy.
    rewrite list.Forall_forall in Hx. apply Hx. by eapply elem_of_sublist.
  - auto.
Qed.

Lemma pairs_app {A} (R : A -> A -> Prop) l l' :
  ForallOrdPairs R (l ++ l') <->
  ForallOrdPairs R l /\ ForallOrdPairs R l' /\ forall a b, a ∈ l -> b ∈ l' -> R a b.
Proof.
  induction l as [|x l IH]; simpl.
  - split; [|tauto]. intros H. split; [constructor|]. split; [done|]. intros a b Ha. inversion Ha.
  - split.
    + inversion 1 as [|? ? Hx Hl]; subst. apply IH in Hl as (H1 & H2 & H3).
      apply list.Forall_app in Hx as [Hx1 Hx2]. split; [by constructor|]. split; [done|].
      intros a b [->|Ha]%elem_of_cons Hb; [|auto]. rewrite list.Forall_forall in Hx2. auto.
    + intros (H1 & H2 & H3). inversion H1 as [|? ? Hx Hl]; subst. constructor.
      * apply list.Forall_app. split; [done|]. apply list.Forall_forall. intros b Hb.
        apply H3; [apply list_elem_of_here|done].
      * apply IH. split; [done|]. split; [done|]. intros a b Ha Hb.
        apply H3; [by apply list_elem_of_further|done].
Qed.

(** *** The data of a ring buffer *)

Lemma suffixes_app r data l l' :
  suffixes r data (l ++ l') <->
  suffixes r data l' /\
  forall l1 a l2, l = l1 ++ a :: l2 -> e_used a = true -> rb_block r a <> [] ->
    exists x, data = x ++ span (rb_block r) (a :: l2 ++ l').
Proof.
  induction l as [|e l IH]; simpl.
  - split; [|tauto]. intros H. split; [done|]. intros [|? l1] a l2 [=].
  - rewrite IH. split.
    + intros (H1 & H2 & H3). split; [done|]. intros [|e' l1] a l2 [= -> ->]; [by apply H1|].
      by apply (H3 l1).
    + intros (H1 & H2). split; [|split; [done|]].
      * by apply (H2 [] e l).
      * intros l1 a l2 ->. by apply (H2 (e :: l1) a l2).
Qed.

(** A message without data in [r] does not matter. *)
Lemma suffixes_skip r data l b l' :
  rb_block r b = [] -> suffixes r data (l ++ b :: l') <-> suffixes r data (l ++ l').
Proof.
  intros Hb. rewrite !suffixes_app. simpl.
  assert (E : forall k, span (rb_block r) (k ++ b :: l') = span (rb_block r) (k ++ l')).
  { intros k. by rewrite !span_app, span_cons, Hb. }
  split.
  - intros ((_ & H1) & H2). split; [done|]. intros l1 a l2 Hl Hu Ha. rewrite span_cons, <- E.
    by apply (H2 l1).
  - intros (H1 & H2). split; [by split|]. intros l1 a l2 Hl Hu Ha. rewrite span_cons, E.
    by apply (H2 l1).
Qed.

(** Replacing a message by one with the same data that is not in use. *)
Lemma suffixes_unused r data l b b' l' :
  rb_block r b = rb_block r b' -> e_used b' = false ->
  suffixes r data (l ++ b :: l') -> suffixes r data (l ++ b' :: l').
Proof.
  intros Hb Hu. rewrite !suffixes_app. simpl. rewrite Hu. intros ((_ & H1) & H2).
  split; [by split|]. intros l1 a l2 Hl Hua Ha. destruct (H2 l1 a l2 Hl Hua Ha) as [x ->].
  exists x. by rewrite !span_cons, !span_app, !span_cons, Hb.
Qed.

Lemma suffixes_alloc r data l n :
  suffixes r data l -> suffixes r (data ++ rb_block r n) (l ++ [n]).
Proof.
  intros H. induction l as [|a l IH]; simpl.
  - split; [|done]. intros _ _. exists data. by rewrite span_cons, span_nil, app_nil_r.
  - destruct H as [H1 H2]. split; [|auto]. intros Hu Ha. destruct (H1 Hu Ha) as [x ->].
    exists x. rewrite !span_cons, span_app, span_cons, span_nil, app_nil_r, !app_assoc. done.
Qed.

(** Dropping [n] older bytes. *)
Lemma suffixes_drop r data l n :
  (n + length (span (rb_block r) l) <= length data)%nat ->
  suffixes r data l -> suffixes r (drop n data) l.
Proof.
  intros Hn H. induction l as [|a l IH]; [done|]. simpl in *. destruct H as [H1 H2].
  rewrite span_cons, length_app in Hn. split; [|apply IH; [lia|done]].
  intros Hu Ha. destruct (H1 Hu Ha) as [x ->]. exists (drop n x).
  rewrite span_cons, !length_app in Hn. by rewrite drop_app_le by lia.
Qed.

(** ** The invariant *)

Definition ids (a : arrays) : list Z := omap (fun x => x) (array a).

(** A message that was localized, and its data. *)
Record local := Local { l_ptr : ptr; l_data : list (option Z) }.

Definition mr_ok (n i : Z) (log : list entry) (r : fr_ring_buffer_t) : Prop :=
  rb_inv r /\ closed r = false /\ (write_offset r < data_start r -> n <= write_offset r) /\
  n <= size r /\ live r = span (mr_block n i) log.
Definition rb_ok (i : Z) (log : list entry) (r : fr_ring_buffer_t) : Prop :=
  rb_inv r /\ closed r = false /\ length (live r) = length (span (rb_block i) log) /\
  suffixes i (live r) log.

(** The message being allocated, and its header so far. *)
Definition pending : Type := option (ptr * fr_message_t).
Definition pend_of (pend : pending) (p : ptr) : option fr_message_t :=
  match pend with Some (q, h) => if decide (q = p) then Some h else None | None => None end.

(** The header of a message in the log. *)
Definition header_ok (w : world) (pend : pending) (e : entry) (h : fr_message_t) : Prop :=
  m_status h = (if e_used e then FR_MESSAGE_USED else FR_MESSAGE_DONE) /\
  match e_block e with
  | Some (r, off, sz) =>
      r ∈ ids (ms_rb (ms w)) /\ pend_of pend (e_ptr e) = None /\
      m_rb h = Some r /\ m_data h = Some (r, off) /\ m_rb_size h = sz /\ 0 < sz < 2 ^ 63 /\
      0 <= m_data_size h <= sz /\ (e_used e = true -> load (r, off) (m_data_size h) w = e_data e)
  | None =>
      e_data e = [] /\
      match pend_of pend (e_ptr e) with
      | Some h' => e_used e = true /\ h = h'
      | None => m_rb h = None /\ (e_used e = true -> m_data_size h = 0)
      end
  end.
Definition entry_ok (w : world) (pend : pending) (e : entry) : Prop :=
  e_mr e ∈ ids (ms_mr (ms w)) /\ exists h, msgs w !! e_ptr e = Some h /\ header_ok w pend e h.

Definition local_ok (w : world) (l : local) : Prop :=
  exists h, msgs w !! l_ptr l = Some h /\ m_status h = FR_MESSAGE_LOCALIZED /\
    rings w !! (l_ptr l).1 = None /\ (l_ptr l).1 < next_obj w /\
    match m_data h with
    | None => l_data l = []
    | Some d => d = ((l_ptr l).1 + 1, 0) /\ rings w !! d.1 = None /\ d.1 < next_obj w /\
        load d (m_data_size h) w = l_data l
    end.

Record core (w : world) (pend : pending) (log : list entry) (locals : list local) : Prop := Core {
  core_size : 0 < message_size (ms w) <= 1024;
  core_ids : NoDup (ids (ms_mr (ms w)) ++ ids (ms_rb (ms w)));
  core_fresh : forall id r, rings w !! id = Some r -> id < next_obj w;
  core_mr : forall i, i ∈ ids (ms_mr (ms w)) ->
    exists r, rings w !! i = Some r /\ mr_ok (message_size (ms w)) i log r;
  core_rb : forall i, i ∈ ids (ms_rb (ms w)) -> exists r, rings w !! i = Some r /\ rb_ok i log r;
  core_ptrs : NoDup (map e_ptr log);
  core_log : Forall (entry_ok w pend) log;
  core_order : ForallOrdPairs in_order log;
  core_locals : Forall (local_ok w) locals;
  core_lptrs : NoDup (map (fun l => (l_ptr l).1) locals);
}.

(** The parts of the invariant as hypotheses. *)
Ltac open_core H :=
  pose proof H as [core_size0 core_ids0 core_fresh0 core_mr0 core_rb0 core_ptrs0 core_log0 core_order0
    core_locals0 core_lptrs0].

(** The rings fill slots [0..max] of the array. *)
Definition arr_ok (a : arrays) : Prop :=
  0 <= current a <= max a /\ max a < MSG_ARRAY_SIZE /\
  exists l, Z.of_nat (length l) = max a + 1 /\
    array a = map Some l ++ replicate (Z.to_nat (MSG_ARRAY_SIZE - 1 - max a)) None.

Definition inv (w : world) (pend : pending) (log : list entry) (locals : list local) : Prop :=
  core w pend log locals /\ arr_ok (ms_mr (ms w)) /\ arr_ok (ms_rb (ms w)).

(** *** Changes of the state that keep the invariant *)

(** What the invariant says of messages does not change when the headers and bytes it
    mentions do not. *)
Lemma header_ok_ext w w' pend pend' e h :
  (forall r off sz, e_block e = Some (r, off, sz) -> r ∈ ids (ms_rb (ms w)) ->
     r ∈ ids (ms_rb (ms w')) /\ forall n, load (r, off) n w' = load (r, off) n w) ->
  pend_of pend (e_ptr e) = pend_of pend' (e_ptr e) ->
  header_ok w pend e h -> header_ok w' pend' e h.
Proof.
  unfold header_ok. intros H Hp [Hs Hh]. split; [done|]. destruct (e_block e) as [[[r off] sz]|].
  - destruct Hh as (Hr & Hne & H1 & H2 & H3 & H4 & H5 & H6).
    destruct (H r off sz eq_refl Hr) as [Hr' Hl]. rewrite Hl. split_and!; try done; try lia.
    by rewrite <- Hp.
  - by rewrite <- Hp.
Qed.

Lemma pend_of_eq p h : pend_of (Some (p, h)) p = Some h.
Proof. simpl. by rewrite decide_True. Qed.
Lemma pend_of_ne p h q : p <> q -> pend_of (Some (p, h)) q = None.
Proof. intros H. simpl. by rewrite decide_False. Qed.

Lemma load_ext (w w' : world) p n :
  (forall off, bytes w' !! (p.1, off) = bytes w !! (p.1, off)) -> load p n w' = load p n w.
Proof. intros H. unfold load. apply map_ext. intros i. apply H. Qed.

Definition set_ms (s : fr_message_set_t) (w : world) : world :=
  World s (rings w) (msgs w) (bytes w) (next_obj w).
Definition set_msg (p : ptr) (h : fr_message_t) (w : world) : world :=
  World (ms w) (rings w) (<[p := h]> (msgs w)) (bytes w) (next_obj w).

(** The slots, the counters and the limit may change as long as the rings are the same. *)
Lemma core_set_ms w pend log locals s :
  core w pend log locals -> message_size s = message_size (ms w) ->
  ids (ms_mr s) = ids (ms_mr (ms w)) -> ids (ms_rb s) = ids (ms_rb (ms w)) ->
  core (set_ms s w) pend log locals.
Proof.
  intros HC. open_core HC. intros E1 E2 E3. constructor; simpl; rewrite ?E1, ?E2, ?E3; try done.
  eapply list.Forall_impl; [exact core_log0|]. intros e (H1 & h & Hh & H2). split; simpl; [by rewrite E2|].
  exists h. split; [done|]. revert H2. apply header_ok_ext; [|done]. simpl. rewrite E3. by intros.
Qed.

(** Header of the message being allocated. *)
Lemma core_set_pend w p h0 log e locals h :
  core w (Some (p, h0)) (log ++ [e]) locals -> e_ptr e = p -> m_status h = FR_MESSAGE_USED ->
  core (set_msg p h w) (Some (p, h)) (log ++ [e]) locals.
Proof.
  intros HC. open_core HC. intros Ep Hs. constructor; simpl; try done.
  - apply list.Forall_forall. intros e' He'. rewrite list.Forall_forall in core_log0.
    destruct (core_log0 _ He') as (H1 & h' & Hh' & H2). split; [done|]. simpl.
    destruct (decide (e_ptr e' = p)) as [E|Hne].
    + exists h. rewrite E, lookup_insert_eq. split; [done|]. revert H2. unfold header_ok.
      destruct (e_block e') as [[[r off] sz]|]; rewrite E, !pend_of_eq; [by intros (_ & _ & ? & _)|].
      intros (_ & Hd & Hu & _). by rewrite Hu.
    + exists h'. rewrite lookup_insert_ne by done. split; [done|].
      revert H2. apply header_ok_ext; [done|]. by rewrite !pend_of_ne.
  - eapply list.Forall_impl; [exact core_locals0|]. intros l (h' & Hh' & H1 & H2 & H3).
    exists h'. simpl. rewrite lookup_insert_ne; [done|]. intros E.
    assert (Hin : e ∈ log ++ [e]) by (apply elem_of_app; right; apply list_elem_of_here).
    rewrite list.Forall_forall in core_log0. destruct (core_log0 e Hin) as (Hmr & _).
    destruct (core_mr0 _ Hmr) as (r & Hr & _). unfold e_mr in Hr. rewrite Ep, E in Hr. congruence.
Qed.

(** ** Rules for the operations on memory *)

(** Replacing the ring buffers [r1] of the ring [i1] and so on; the rings of the set are
    those of the map [R]. *)
Definition set_rings (R : gmap Z fr_ring_buffer_t) (w : world) : world :=
  World (ms w) R (msgs w) (bytes w) (next_obj w).

Lemma set_ring_rings id r w : set_ring id r w = set_rings (<[id := r]> (rings w)) w.
Proof. done. Qed.

(** Distinct rings. *)
Lemma core_mr_rb w pend log locals i r :
  core w pend log locals -> i ∈ ids (ms_mr (ms w)) -> r ∈ ids (ms_rb (ms w)) -> i <> r.
Proof.
  intros HC. open_core HC. intros Hi Hr ->. apply list.NoDup_app in core_ids0 as (_ & Hd & _). by apply (Hd r).
Qed.

Lemma mr_block_other n i e : e_mr e <> i -> mr_block n i e = [].
Proof. intros H. unfold mr_block. by rewrite decide_False. Qed.
Lemma rb_block_other i e : e_rb e <> Some i -> rb_block i e = [].
Proof.
  unfold rb_block, e_rb. destruct (e_block e) as [[[r off] sz]|]; [|done]. simpl.
  intros H. rewrite decide_False by congruence. done.
Qed.
Lemma rb_block_nil w pend e h i :
  header_ok w pend e h -> rb_block i e = [] <-> e_rb e <> Some i.
Proof.
  intros [_ H]. split; [|apply rb_block_other]. unfold rb_block, e_rb.
  destruct (e_block e) as [[[r off] sz]|]; [|done]. simpl. intros E [= ->].
  rewrite decide_True in E by done. apply (f_equal length) in E. rewrite length_seqZ in E.
  simpl in E. destruct H as (_ & _ & _ & _ & _ & H & _). lia.
Qed.

Lemma span_mr_remove n i l1 b l2 :
  e_mr b <> i -> span (mr_block n i) (l1 ++ b :: l2) = span (mr_block n i) (l1 ++ l2).
Proof. intros H. by rewrite !span_app, span_cons, mr_block_other. Qed.
Lemma span_rb_remove i l1 b l2 :
  rb_block i b = [] -> span (rb_block i) (l1 ++ b :: l2) = span (rb_block i) (l1 ++ l2).
Proof. intros H. by rewrite !span_app, span_cons, H. Qed.

(** *** Collecting a message *)

Lemma free_open r n :
  rb_inv r -> closed r = false -> 0 <= n < 2 ^ 63 -> n <= Z.of_nat (length (live r)) ->
  exists r', fr_ring_buffer_free r n = Some (FreeRet r' 0) /\ rb_inv r' /\ size r' = size r /\
    closed r' = false /\ live r' = drop (Z.to_nat n) (live r).
Proof.
  intros Hi Hc Hn Hl. pose proof (free_spec r n Hi Hn) as HF. unfold free_post in HF. cbv zeta in HF.
  rewrite decide_False in HF by lia. rewrite decide_False in HF by (intros (_ & _ & ?); congruence).
  by rewrite Hc in HF.
Qed.

Lemma mr_ok_collect n i l1 b l2 r :
  0 < n <= 1024 -> mr_ok n i (l1 ++ b :: l2) r -> e_mr b = i -> Forall (fun e => e_mr e <> i) l1 ->
  exists r', fr_ring_buffer_free r n = Some (FreeRet r' 0) /\ mr_ok n i (l1 ++ l2) r'.
Proof.
  intros Hn (Hi & Hc & Hw & Hsz & Hl) Hb Hl1.
  assert (E1 : span (mr_block n i) l1 = []).
  { apply span_none. eapply list.Forall_impl; [exact Hl1|]. intros e. apply mr_block_other. }
  rewrite span_app, span_cons, E1 in Hl. unfold mr_block at 1 in Hl. rewrite decide_True in Hl by done.
  simpl in Hl. destruct (free_open r n) as (r' & HF & Hi' & Hs' & Hc' & Hl'); [done|done|lia| |].
  { rewrite Hl, length_app, length_seqZ. lia. }
  exists r'. split; [done|]. split; [done|]. split; [done|]. split; [|split; [lia|]].
  - clear -HF Hw Hi Hn Hc. revert HF Hw. unfold fr_ring_buffer_free.
    destruct r as [size s e w rs c]. simpl in *. subst c. destruct Hi as (Hs & Hr & Hi).
    unfold free_block, empty_buffer. rewrite (u64_small (e - s)) by lia.
    repeat case_decide; intros [= <-]; simpl; rb_arith; lia.
  - rewrite Hl', Hl, drop_app_length' by (by rewrite length_seqZ). by rewrite span_app, E1.
Qed.

Lemma rb_ok_collect i l1 b l2 r off sz :
  rb_ok i (l1 ++ b :: l2) r -> e_block b = Some (i, off, sz) -> 0 < sz < 2 ^ 63 ->
  (forall a, a ∈ l1 -> rb_block i a <> [] -> e_used a = false) ->
  exists r', fr_ring_buffer_free r sz = Some (FreeRet r' 0) /\ rb_ok i (l1 ++ l2) r'.
Proof.
  intros (Hi & Hc & Hlen & Hsuf) Hb Hsz Hl1.
  assert (Eb : rb_block i b = seqZ off sz).
  { unfold rb_block. by rewrite Hb, decide_True. }
  rewrite span_app, span_cons, !length_app, Eb, length_seqZ in Hlen.
  destruct (free_open r sz) as (r' & HF & Hi' & _ & Hc' & Hl'); [done|done|lia|lia|].
  exists r'. split; [done|]. split; [done|]. split; [done|]. rewrite Hl'. split.
  - rewrite length_drop, span_app, length_app. lia.
  - apply suffixes_app in Hsuf as [Hsuf _]. simpl in Hsuf. destruct Hsuf as [_ Hsuf].
    apply suffixes_app. split; [apply suffixes_drop; [lia|done]|].
    intros k a k' -> Hu Ha. rewrite Hl1 in Hu; [done| |done].
    apply elem_of_app. right. apply list_elem_of_here.
Qed.

Lemma mr_ok_other n i l1 b l2 r :
  e_mr b <> i -> mr_ok n i (l1 ++ b :: l2) r -> mr_ok n i (l1 ++ l2) r.
Proof. unfold mr_ok. intros H. by rewrite span_mr_remove. Qed.
Lemma rb_ok_other i l1 b l2 r :
  rb_block i b = [] -> rb_ok i (l1 ++ b :: l2) r -> rb_ok i (l1 ++ l2) r.
Proof. unfold rb_ok. intros H. rewrite span_rb_remove, suffixes_skip by done. done. Qed.

(** The state after message [b] was collected: its ring buffer is [r'] and its message ring
    [m']. *)
Definition collect (b : entry) (h : fr_message_t) (r' : option fr_ring_buffer_t)
    (m' : fr_ring_buffer_t) (w : world) : world :=
  let R := match e_rb b, r' with Some i, Some r' => <[i := r']> (rings w) | _, _ => rings w end in
  set_ms (incr_freed (ms w)) (set_rings (<[e_mr b := m']> R) (set_msg (e_ptr b) h w)).

Lemma NoDup_middle_inv {A} (l1 : list A) b l2 :
  NoDup (l1 ++ b :: l2) -> ~ (b ∈ l1 ++ l2) /\ NoDup (l1 ++ l2).
Proof.
  intros H. assert (HP : (l1 ++ b :: l2) ≡ₚ (b :: (l1 ++ l2))) by (by rewrite Permutation_middle).
  rewrite HP in H. by apply list.NoDup_cons.
Qed.

Lemma same_rings {A} (R : gmap Z A) i r id :
  is_Some (R !! i) -> is_Some (<[i := r]> R !! id) <-> is_Some (R !! id).
Proof.
  intros H. destruct (decide (id = i)) as [->|]; [|by rewrite lookup_insert_ne].
  rewrite lookup_insert_eq. by split.
Qed.

Lemma core_remove w pend l1 b l2 locals h R :
  core w pend (l1 ++ b :: l2) locals ->
  (forall id, is_Some (R !! id) <-> is_Some (rings w !! id)) ->
  (forall i, i ∈ ids (ms_mr (ms w)) ->
     exists r, R !! i = Some r /\ mr_ok (message_size (ms w)) i (l1 ++ l2) r) ->
  (forall i, i ∈ ids (ms_rb (ms w)) -> exists r, R !! i = Some r /\ rb_ok i (l1 ++ l2) r) ->
  core (set_ms (incr_freed (ms w)) (set_rings R (set_msg (e_ptr b) h w))) pend (l1 ++ l2) locals.
Proof.
  intros HC. open_core HC. intros HR Hmr Hrb.
  assert (Hb : b ∈ l1 ++ b :: l2) by (apply elem_of_app; right; apply list_elem_of_here).
  assert (Hin : forall e, e ∈ l1 ++ l2 -> e ∈ l1 ++ b :: l2 /\ e_ptr e <> e_ptr b).
  { intros e He. split; [rewrite elem_of_app, elem_of_cons; apply elem_of_app in He; tauto|].
    rewrite map_app in core_ptrs0. simpl in core_ptrs0. apply NoDup_middle_inv in core_ptrs0.
    intros E. apply core_ptrs0. rewrite <- E, <- map_app. by apply list_elem_of_fmap_2. }
  rewrite list.Forall_forall in core_log0.
  assert (Hnone : forall id, rings w !! id = None -> R !! id = None).
  { intros id Hid. apply eq_None_not_Some. rewrite HR, Hid. apply is_Some_None. }
  constructor; simpl; try done.
  - intros id r Hr. destruct (HR id) as [H _]. destruct H as [r' Hr']; [by exists r|].
    by apply (core_fresh0 _ _ Hr').
  - rewrite map_app in *. simpl in core_ptrs0. by apply NoDup_middle_inv in core_ptrs0 as [? ?].
  - apply list.Forall_forall. intros e He. destruct (Hin e He) as [He' Hne].
    destruct (core_log0 _ He') as (H1 & h' & Hh' & H2). split; [done|]. exists h'. simpl.
    rewrite lookup_insert_ne by congruence. split; [done|]. revert H2. by apply header_ok_ext.
  - eapply pairs_sublist; [|exact core_order0]. apply sublist_app; [done|]. by constructor.
  - eapply list.Forall_impl; [exact core_locals0|]. intros l (h' & Hh' & H1 & H2 & H3 & H4).
    exists h'. simpl. rewrite lookup_insert_ne; cycle 1.
    { intros E. destruct (core_log0 b Hb) as (Hmrb & _).
      destruct (core_mr0 _ Hmrb) as (r & Hr & _). unfold e_mr in Hr. rewrite E in Hr. congruence. }
    split_and!; auto. destruct (m_data h'); [|done]. destruct H4 as (? & ? & ? & ?). auto.
Qed.

Lemma core_collect w pend l1 b l2 locals h :
  core w pend (l1 ++ b :: l2) locals -> e_used b = false -> Forall (fun e => e_mr e <> e_mr b) l1 ->
  exists m m', rings w !! e_mr b = Some m /\
    fr_ring_buffer_free m (message_size (ms w)) = Some (FreeRet m' 0) /\
  match e_block b with
  | None => core (collect b h None m' w) pend (l1 ++ l2) locals
  | Some (i, off, sz) => i <> e_mr b /\ exists r r', rings w !! i = Some r /\
      fr_ring_buffer_free r sz = Some (FreeRet r' 0) /\
      core (collect b h (Some r') m' w) pend (l1 ++ l2) locals
  end.
Proof.
  intros Hcore Hu Hl1. open_core Hcore.
  assert (Hb : b ∈ l1 ++ b :: l2) by (apply elem_of_app; right; apply list_elem_of_here).
  pose proof core_log0 as Hlog. rewrite list.Forall_forall in Hlog.
  destruct (Hlog b Hb) as (Hmr & hb & Hhb & Hok).
  destruct (core_mr0 _ Hmr) as (m & Hm & Hmok).
  destruct (mr_ok_collect _ _ _ _ _ _ core_size0 Hmok eq_refl Hl1) as (m' & HFm & Hm').
  exists m, m'. split; [done|]. split; [done|].
  assert (Hne : forall i, i ∈ ids (ms_rb (ms w)) -> e_mr b <> i).
  { intros i. by apply (core_mr_rb _ _ _ _ _ _ Hcore). }
  assert (Hrest : forall i, i ∈ ids (ms_mr (ms w)) -> i <> e_mr b ->
    exists r, rings w !! i = Some r /\ mr_ok (message_size (ms w)) i (l1 ++ l2) r).
  { intros i Hi Hib. destruct (core_mr0 i Hi) as (r & Hr & Hok'). exists r.
    split; [done|]. by eapply mr_ok_other. }
  assert (Hrest' : forall i, i ∈ ids (ms_rb (ms w)) -> e_rb b <> Some i ->
    exists r, rings w !! i = Some r /\ rb_ok i (l1 ++ l2) r).
  { intros i Hi Hib. destruct (core_rb0 i Hi) as (r & Hr & Hok'). exists r.
    split; [done|]. eapply rb_ok_other; [|exact Hok']. by apply rb_block_other. }
  destruct (e_block b) as [[[i off] sz]|] eqn:Eb.
  - destruct Hok as (_ & Hok). rewrite Eb in Hok. destruct Hok as (Hirb & _ & _ & _ & _ & Hsz & _).
    assert (Hi : e_mr b <> i) by (by apply Hne).
    destruct (core_rb0 i Hirb) as (r & Hr & Hrok).
    destruct (rb_ok_collect _ _ _ _ _ _ _ Hrok Eb Hsz) as (r' & HFr & Hr').
    { intros a Ha Har. destruct (e_used a) eqn:Hua; [|done]. exfalso.
      apply pairs_app in core_order0 as (_ & _ & Hord).
      specialize (Hord a b Ha ltac:(apply list_elem_of_here)). unfold in_order in Hord.
      assert (Ea : e_rb a = Some i).
      { destruct (decide (e_rb a = Some i)); [done|]. destruct Har. by apply rb_block_other. }
      assert (Eb' : e_rb b = Some i) by (unfold e_rb; by rewrite Eb).
      rewrite list.Forall_forall in Hl1. apply (Hl1 a Ha). apply Hord; congruence. }
    split; [done|]. exists r, r'. split; [done|]. split; [done|]. unfold collect.
    assert (Eb' : e_rb b = Some i) by (unfold e_rb; by rewrite Eb). rewrite Eb'.
    apply core_remove; [done|..].
    + intros id. rewrite (same_rings _ _ m'), (same_rings _ _ r'); [done|by rewrite Hr|].
      by rewrite lookup_insert_ne, Hm.
    + intros j Hj. destruct (decide (j = e_mr b)) as [->|Hj']; [rewrite lookup_insert_eq; eauto|].
      rewrite !lookup_insert_ne; [by apply Hrest|by apply not_eq_sym, (core_mr_rb _ _ _ _ _ _ Hcore)|done].
    + intros j Hj. rewrite lookup_insert_ne by (by apply Hne).
      destruct (decide (j = i)) as [->|Hj']; [rewrite lookup_insert_eq; eauto|].
      rewrite lookup_insert_ne by done. apply Hrest'; [done|congruence].
  - unfold collect, e_rb. rewrite Eb. simpl. apply core_remove; [done|..].
    + intros id. by rewrite same_rings by (by rewrite Hm).
    + intros j Hj. destruct (decide (j = e_mr b)) as [->|Hj']; [rewrite lookup_insert_eq; eauto|].
      rewrite lookup_insert_ne by done. by apply Hrest.
    + intros j Hj. rewrite lookup_insert_ne by (by apply Hne). apply Hrest'; [done|].
      unfold e_rb. by rewrite Eb.
Qed.

(** *** The oldest message of a message ring *)

Lemma seqZ_head a n b m (l l' : list Z) :
  0 < n -> 0 < m -> seqZ a n ++ l = seqZ b m ++ l' -> a = b.
Proof.
  intros Hn Hm H. rewrite (seqZ_cons a), (seqZ_cons b) in H by lia. by injection H.
Qed.

Lemma start_head n i log r :
  mr_ok n i log r -> 0 < n ->
  (fr_ring_buffer_start r).2 = 0 \/
  n <= (fr_ring_buffer_start r).2 /\
  exists l1 b l2, log = l1 ++ b :: l2 /\ Forall (fun e => e_mr e <> i) l1 /\
    e_ptr b = (i, (fr_ring_buffer_start r).1).
Proof.
  intros (Hi & Hc & Hw & Hsz & Hl) Hn. destruct r as [size s e w rs c]. simpl in *.
  destruct Hi as (Hs & Hr & Hi). rb_arith.
  destruct (decide (e - s = 0 /\ ~ w < s)) as [[E1 E2]|Hne]; [left; rewrite decide_False by lia; lia|].
  right. assert (Hse : 0 < e - s) by lia.
  assert (Hd : exists l', span (mr_block n i) log = seqZ s (e - s) ++ l' /\
    (w < s \/ l' = [])).
  { case_decide; [by exists (seqZ 0 w); auto|]. exists []. rewrite app_nil_r. auto. }
  destruct Hd as (l' & Hd & Hl').
  assert (Hne' : span (mr_block n i) log <> []).
  { rewrite Hd, seqZ_cons by lia. done. }
  destruct (span_first _ _ Hne') as (l1 & b & l2 & El & Hl1 & Hb).
  rewrite El, span_app, span_cons, (span_none _ l1 Hl1) in Hd. simpl in Hd.
  unfold mr_block in Hb, Hd at 1. destruct (decide (e_mr b = i)) as [Eb|]; [|done].
  assert (Eo : (e_ptr b).2 = s) by (by eapply seqZ_head; [| |exact Hd]; lia).
  split.
  - case_decide; [lia|]. destruct Hl' as [ | -> ]; [lia|]. apply (f_equal length) in Hd.
    rewrite !length_app, !length_seqZ in Hd. simpl in Hd. lia.
  - exists l1, b, l2. split; [done|]. split.
    + eapply list.Forall_impl; [exact Hl1|]. intros x Hx E. unfold mr_block in Hx.
      rewrite decide_True in Hx by done. by rewrite seqZ_cons in Hx by lia.
    + destruct (e_ptr b) as [x y] eqn:Ex. unfold e_mr in Eb. rewrite Ex in *. simpl in *. congruence.
Qed.

Lemma live_nil_mr n i log r : mr_ok n i log r -> 0 < n -> live r = [] -> forall e, e ∈ log -> e_mr e <> i.
Proof.
  intros (_ & _ & _ & _ & Hl) Hn E e He Hm. rewrite E in Hl. symmetry in Hl. apply span_nil_inv in Hl.
  rewrite list.Forall_forall in Hl. specialize (Hl e He). unfold mr_block in Hl.
  rewrite decide_True, seqZ_cons in Hl by (done || lia). done.
Qed.

Lemma start_nil r n :
  rb_inv r -> 0 < n -> (write_offset r < data_start r -> n <= write_offset r) ->
  (fr_ring_buffer_start r).2 = 0 -> live r = [].
Proof.
  destruct r as [size s e w rs c]. simpl. intros (Hs & Hr & Hi) Hn Hw. rb_arith.
  case_decide; [lia|]. intros E. by rewrite E.
Qed.

(** *** Rounding to cache lines *)

Lemma CACHE_ALIGN_spec x : 0 <= x < 2 ^ 63 -> CACHE_ALIGN x = 64 * ((x + 63) / 64).
Proof.
  intros Hx. unfold CACHE_ALIGN. rewrite u64_small by lia.
  change (u64 (Z.lnot 63)) with (Z.ldiff (Z.ones 64) (Z.ones 6)).
  assert (E : Z.land (x + 63) (Z.ldiff (Z.ones 64) (Z.ones 6)) = Z.ldiff (x + 63) (Z.ones 6)).
  { apply Z.bits_inj'. intros n Hn. rewrite Z.land_spec, !Z.ldiff_spec.
    destruct (decide (n < 64)); [by rewrite (Z.ones_spec_low 64) by lia|].
    rewrite (Z.bits_above_log2 (x + 63)); [done|lia|].
    assert (Z.log2 (x + 63) < 64); [apply Z.log2_lt_pow2; lia|lia]. }
  rewrite E, Z.ldiff_ones_r, Z.shiftr_div_pow2, Z.shiftl_mul_pow2 by lia. change (2 ^ 6) with 64. lia.
Qed.

Lemma CACHE_ALIGN_bounds x : 0 <= x < 2 ^ 63 -> x <= CACHE_ALIGN x < x + 64 /\ CACHE_ALIGN x `mod` 64 = 0.
Proof. intros Hx. rewrite CACHE_ALIGN_spec by done. Z.div_mod_to_equations. lia. Qed.
Lemma CACHE_ALIGN_fits x y : 0 <= x <= y -> y < 2 ^ 63 -> y `mod` 64 = 0 -> CACHE_ALIGN x <= y.
Proof. intros Hx Hy Hm. rewrite CACHE_ALIGN_spec by lia. Z.div_mod_to_equations. lia. Qed.
