(* ===== verification/MessageGc.v ===== *)
(** * Message sets: garbage collection

    The rules for the memory operations, and that [fr_message_ring_gc], the freeing and
    packing of the arrays and [fr_message_gc] keep the invariant of [MessageInv]. *)
From S2P Require Import Prelude StateMonad RingBuffer MessageSet MessageInv.

Section gc.
Context {NDEBUG : bool} {uninit : ptr -> fr_message_t}.

Lemma wp_get_rb {A} (f : fr_ring_buffer_t -> option A) id w r a Q :
  rings w !! id = Some r -> f r = Some a -> Q a w -> wp (get_rb f id) w Q.
Proof. intros Hr Hf HQ. exists a, w. split; [|done]. unfold get_rb. by rewrite Hr; simpl; rewrite Hf. Qed.
Lemma wp_on_rb {A} (f : fr_ring_buffer_t -> option (fr_ring_buffer_t * A)) id w r r' a Q :
  rings w !! id = Some r -> f r = Some (r', a) -> Q a (set_ring id r' w) -> wp (on_rb f id) w Q.
Proof.
  intros Hr Hf HQ. exists a, (set_ring id r' w). split; [|done]. unfold on_rb.
  by rewrite Hr; simpl; rewrite Hf.
Qed.
Lemma wp_ring_free id n w r r' ret Q :
  rings w !! id = Some r -> fr_ring_buffer_free r n = Some (FreeRet r' ret) ->
  Q ret (set_ring id r' w) -> wp (ring_free id n) w Q.
Proof.
  intros Hr Hf HQ. exists ret, (set_ring id r' w). split; [|done]. unfold ring_free.
  by rewrite Hr; simpl; rewrite Hf.
Qed.
Lemma wp_rd_msg p w h Q : msgs w !! p = Some h -> Q h w -> wp (rd uninit p) w Q.
Proof.
  intros Hh HQ. exists h, w. split; [|done]. unfold rd, header.
  rewrite decide_True by (right; by rewrite Hh). by rewrite Hh.
Qed.
Lemma wp_wr_msg f p w h Q : msgs w !! p = Some h -> Q () (set_msg p (f h) w) -> wp (wr uninit f p) w Q.
Proof.
  intros Hh HQ. exists (), (set_msg p (f h) w). split; [|done]. unfold wr, header.
  rewrite decide_True by (right; by rewrite Hh). by rewrite Hh.
Qed.
Lemma wp_wr_ring f p w Q :
  is_Some (rings w !! p.1) -> Q () (set_msg p (f (header uninit p w)) w) -> wp (wr uninit f p) w Q.
Proof.
  intros Hr HQ. exists (), (set_msg p (f (header uninit p w)) w). split; [|done]. unfold wr.
  by rewrite decide_True by (by left).
Qed.
Lemma wp_assert P `{!Decision P} w Q : P -> Q () w -> wp (fr_assert NDEBUG P) w Q.
Proof.
  intros HP HQ. unfold fr_assert. destruct NDEBUG; [by apply wp_ret|].
  rewrite decide_True by done. by apply wp_ret.
Qed.
Lemma wp_upd_ms f w Q : Q () (set_ms (f (ms w)) w) -> wp (upd_ms f) w Q.
Proof. intros H. by exists (), (set_ms (f (ms w)) w). Qed.

(** The sizes and arrays of the set did not change. *)
Definition same_set (w w' : world) : Prop :=
  ms_mr (ms w') = ms_mr (ms w) /\ ms_rb (ms w') = ms_rb (ms w) /\
  message_size (ms w') = message_size (ms w) /\ max_allocation (ms w') = max_allocation (ms w).

(** Collecting the oldest message [b] of message ring [i]. *)
Lemma gc_collect_ok {A} (k : M A) w pend l1 b l2 locals i h Q :
  core w pend (l1 ++ b :: l2) locals -> e_used b = false -> e_mr b = i -> Forall (fun e => e_mr e <> i) l1 ->
  msgs w !! e_ptr b = Some h -> header_ok w pend b h ->
  (forall w', core w' pend (l1 ++ l2) locals -> same_set w w' -> wp k w' Q) ->
  wp (wr uninit (with_status FR_MESSAGE_FREE) (e_ptr b);;
      upd_ms incr_freed;;
      match m_rb h with
      | Some r =>
          _ ← ring_free r (m_rb_size h);
          if NDEBUG then mret () else wr uninit (fun _ => zeroed) (e_ptr b)
      | None => mret ()
      end;;
      _ ← ring_free i (message_size (ms w)); k) w Q.
Proof.
  intros Hcore Hu <- Hl1 Hh [_ Hblk] HQ.
  apply wp_bind. eapply wp_wr_msg; [exact Hh|]. apply wp_bind, wp_upd_ms.
  destruct (e_block b) as [[[r off] sz]|] eqn:Eblk.
  - destruct Hblk as (Hr & _ & -> & _ & -> & _).
    destruct (core_collect w pend l1 b l2 locals
      (if NDEBUG then with_status FR_MESSAGE_FREE h else zeroed) Hcore Hu Hl1)
      as (m0 & m' & Hm0 & HFm & Hc). rewrite Eblk in Hc.
    destruct Hc as (Hne & rr & r' & Hrr & HFr & Hc'). unfold collect, e_rb in Hc'.
    rewrite Eblk in Hc'. simpl in Hc'. apply wp_bind, wp_bind.
    eapply wp_ring_free; [exact Hrr|exact HFr|].
    apply wp_mono with (Q := fun _ w' => w' = set_ring r r' (set_ms (incr_freed (ms w)) (set_msg (e_ptr b)
      (if NDEBUG then with_status FR_MESSAGE_FREE h else zeroed) w))).
    { destruct NDEBUG; [by apply wp_ret|]. eapply wp_wr_msg; [apply lookup_insert_eq|].
      unfold set_msg, set_ring. simpl. by rewrite insert_insert_eq. }
    intros _ w' ->. apply wp_bind. eapply wp_ring_free; [|exact HFm|by apply HQ].
    simpl. by rewrite lookup_insert_ne by congruence.
  - destruct Hblk as [_ Hblk].
    destruct (pend_of pend (e_ptr b)); [by destruct Hblk; congruence|]. destruct Hblk as [-> _].
    destruct (core_collect w pend l1 b l2 locals (with_status FR_MESSAGE_FREE h) Hcore Hu Hl1)
      as (m0 & m' & Hm0 & HFm & Hc). rewrite Eblk in Hc. unfold collect, e_rb in Hc.
    rewrite Eblk in Hc. simpl in Hc. apply wp_bind, wp_ret, wp_bind.
    eapply wp_ring_free; [exact Hm0|exact HFm|by apply HQ].
Qed.

(** How many messages were collected; all of the ring, unless one is in use or the limit was
    reached. *)
Definition swept (i max n : Z) (log : list entry) (c : Z) (log' : list entry) : Prop :=
  Z.of_nat (length log) = Z.of_nat (length log') + (c - n) /\
  (max <= c \/ (forall e, e ∈ log' -> e_mr e <> i) \/ exists e, e ∈ log' /\ e_used e = true).

Lemma ring_gc_loop_ok fuel w pend log locals i max n :
  core w pend log locals -> i ∈ ids (ms_mr (ms w)) ->
  Z.of_nat (length (span (mr_block (message_size (ms w)) i) log)) < Z.of_nat fuel * message_size (ms w) ->
  wp (ring_gc_loop NDEBUG uninit fuel i max n) w (fun c w' =>
    n <= c /\ (n < max -> c <= max) /\ same_set w w' /\
    exists log', collected log log' /\ core w' pend log' locals /\ swept i max n log c log').
Proof.
  revert w log n. induction fuel as [|fuel IH]; intros w log n Hcore Hi Hfuel; [lia|].
  open_core Hcore. destruct (core_mr0 i Hi) as (m & Hm & Hmok).
  cbn [ring_gc_loop]. apply wp_bind. eapply wp_get_rb; [exact Hm|done|]. cbv beta iota.
  assert (Hret : (forall e, e ∈ log -> e_mr e <> i) \/ (exists e, e ∈ log /\ e_used e = true) ->
    wp (mret n) w (fun c w' => n <= c /\ (n < max -> c <= max) /\ same_set w w' /\
      exists log', collected log log' /\ core w' pend log' locals /\ swept i max n log c log')).
  { intros H. apply wp_ret. split_and!; try done; try lia. exists log.
    split; [apply collected_refl|]. split; [done|]. split; [lia|tauto]. }
  destruct (start_head _ _ _ _ Hmok ltac:(lia)) as [Hz|(Hsz & l1 & b & l2 & El & Hl1 & Hb)].
  { rewrite decide_True by done. apply Hret. left. eapply live_nil_mr; [exact Hmok|lia|].
    destruct Hmok as (Hrinv & _ & Hwrap & _). by apply (start_nil m _ Hrinv (proj1 core_size0) Hwrap). }
  rewrite decide_False by lia. apply wp_bind, wp_gets, wp_bind, wp_assert; [done|].
  assert (Hin : b ∈ log) by (subst log; apply elem_of_app; right; apply list_elem_of_here).
  rewrite list.Forall_forall in core_log0. destruct (core_log0 b Hin) as (_ & h & Hh & Hok).
  rewrite <- Hb. apply wp_bind. eapply wp_rd_msg; [exact Hh|].
  pose proof Hok as [Hst Hblk]. apply wp_bind, wp_assert; [by rewrite Hst; destruct (e_used b)|].
  destruct (e_used b) eqn:Hu.
  { rewrite decide_True by (by rewrite Hst). apply Hret. right. eauto. }
  rewrite decide_False by (rewrite Hst; intros H; by apply H).
  apply gc_collect_ok with (pend := pend) (l1 := l1) (b := b) (l2 := l2) (locals := locals); try done.
  { by rewrite <- El. } { unfold e_mr. by rewrite Hb. }
  intros w' Hcore' Hss. pose proof Hss as (S1 & S2 & S3 & S4).
  assert (Hcol : collected log (l1 ++ l2)) by (subst log; by apply collected_one).
  assert (Hlen : length log = S (length (l1 ++ l2))) by (subst log; rewrite !length_app; simpl; lia).
  destruct (decide (max <= n + 1)).
  - apply wp_ret. split_and!; try done; try lia. exists (l1 ++ l2). split_and!; try done.
    split; [lia|left; lia].
  - eapply wp_mono; [apply (IH w' (l1 ++ l2) (n + 1) Hcore')|].
    + by rewrite S1.
    + rewrite S3. rewrite El, span_app, span_cons in Hfuel. rewrite span_app.
      assert (Eb : mr_block (message_size (ms w)) i b = seqZ (e_ptr b).2 (message_size (ms w))).
      { unfold mr_block, e_mr. by rewrite Hb, decide_True. }
      rewrite Eb, !length_app, length_seqZ in Hfuel. rewrite length_app. lia.
    + intros c w'' (H1 & H2 & (T1 & T2 & T3 & T4) & log' & H3 & H4 & H5 & H6).
      split_and!; [lia|lia|unfold same_set; split_and!; congruence|].
      exists log'. split; [by eapply collected_trans|]. split; [done|]. split; [lia|done].
Qed.

Lemma fr_message_ring_gc_ok w pend log locals i max :
  core w pend log locals -> i ∈ ids (ms_mr (ms w)) ->
  wp (fr_message_ring_gc NDEBUG uninit i max) w (fun c w' =>
    0 <= c /\ (0 < max -> c <= max) /\ same_set w w' /\
    exists log', collected log log' /\ core w' pend log' locals /\ swept i max 0 log c log').
Proof.
  intros Hcore Hi. open_core Hcore. destruct (core_mr0 i Hi) as (m & Hm & Hmok).
  apply wp_bind. eapply wp_get_rb; [exact Hm|done|]. apply wp_bind, wp_gets.
  apply (ring_gc_loop_ok _ _ _ _ _ _ max 0 Hcore Hi).
  destruct Hmok as (Hrinv & _ & _ & _ & <-). pose proof (length_live_bound _ Hrinv) as Hb.
  unfold fr_ring_buffer_size. set (n := message_size (ms w)) in *.
  rewrite Nat2Z.inj_succ, Z2Nat.id by (apply Z.div_pos; lia).
  pose proof (Z.mul_succ_div_gt (size m) n ltac:(lia)). lia.
Qed.

(** *** The arrays *)

Lemma ids_some (l : list Z) n : omap (fun x => x) (map Some l ++ replicate n None) = l.
Proof.
  induction l as [|x l IH]; simpl; [by induction n|]. f_equal. exact IH.
Qed.

Lemma slot_lookup a i : 0 <= i -> slot a i = a !! Z.to_nat i.
Proof. intros H. unfold slot. by rewrite decide_True. Qed.

Lemma arr_slot a i :
  arr_ok a -> 0 <= i <= max a -> exists id, slot (array a) i = Some (Some id) /\ id ∈ ids a.
Proof.
  intros (_ & _ & l & Hl & E) Hi. rewrite slot_lookup by lia. unfold ids. rewrite E, ids_some.
  destruct (lookup_lt_is_Some_2 l (Z.to_nat i)) as [x Hx]; [lia|]. exists x.
  rewrite lookup_app_l by (rewrite length_map; lia). rewrite list_lookup_fmap, Hx.
  split; [done|]. by eapply list_elem_of_lookup_2.
Qed.

Lemma elem_of_slot a id :
  arr_ok a -> id ∈ ids a -> exists i, 0 <= i <= max a /\ slot (array a) i = Some (Some id).
Proof.
  intros (_ & _ & l & Hl & E). unfold ids. rewrite E, ids_some. intros (i & Hi)%list_elem_of_lookup.
  pose proof (lookup_lt_Some _ _ _ Hi). exists (Z.of_nat i). split; [lia|].
  rewrite slot_lookup, Nat2Z.id by lia. rewrite lookup_app_l by (rewrite length_map; lia).
  by rewrite list_lookup_fmap, Hi.
Qed.

Lemma wp_get_slot k i w o Q :
  slot (array (get_arrays k (ms w))) i = Some o -> Q o w -> wp (get_slot k i) w Q.
Proof. intros H HQ. exists o, w. split; [|done]. unfold get_slot. by rewrite H. Qed.
Lemma wp_get_ring k i w id Q :
  slot (array (get_arrays k (ms w))) i = Some (Some id) -> Q id w -> wp (get_ring k i) w Q.
Proof.
  intros H HQ. apply wp_bind. eapply wp_get_slot; [exact H|]. by eapply wp_lift.
Qed.

Lemma same_set_trans w1 w2 w3 : same_set w1 w2 -> same_set w2 w3 -> same_set w1 w3.
Proof. unfold same_set. intros (? & ? & ? & ?) (? & ? & ? & ?). split_and!; congruence. Qed.

(** The same for the rings in slots [idx]. *)
Definition swept_slots (idx : list Z) (a : arrays) (max n : Z) (log : list entry) (c : Z)
    (log' : list entry) : Prop :=
  Z.of_nat (length log) = Z.of_nat (length log') + (c - n) /\
  (max <= c \/ (exists e, e ∈ log' /\ e_used e = true) \/
   forall i id e, i ∈ idx -> slot (array a) i = Some (Some id) -> e ∈ log' -> e_mr e <> id).

Lemma gc_rings_ok idx w pend log locals max n :
  core w pend log locals -> arr_ok (ms_mr (ms w)) -> n < max ->
  Forall (fun i => 0 <= i <= MessageSet.max (ms_mr (ms w))) idx ->
  wp (gc_rings NDEBUG uninit idx max n) w (fun c w' => same_set w w' /\
    exists log', collected log log' /\ core w' pend log' locals /\
      swept_slots idx (ms_mr (ms w)) max n log c log').
Proof.
  revert w log n. induction idx as [|i idx IH]; intros w log n Hcore Harr Hn Hidx; cbn [gc_rings].
  - apply wp_ret. split; [done|]. exists log. split; [apply collected_refl|]. split; [done|].
    split; [lia|]. right; right. intros i id e Hi. inversion Hi.
  - apply Forall_cons_1 in Hidx as [Hi Hidx]. destruct (arr_slot _ _ Harr Hi) as (id & Hs & Hid).
    apply wp_bind. eapply wp_get_ring; [exact Hs|]. apply wp_bind.
    eapply wp_mono; [by apply (fr_message_ring_gc_ok w pend log locals id)|].
    intros c w' (H1 & H2 & H3 & log' & H4 & H5 & H6 & H7). pose proof H3 as (S1 & S2 & S3 & S4).
    apply wp_bind, wp_assert; [lia|].
    destruct (decide _).
    { apply wp_ret. split; [done|]. exists log'. split_and!; try done. split; [lia|left; lia]. }
    eapply wp_mono; [apply (IH w' log' _ H5); [by rewrite S1|lia|by rewrite S1]|].
    intros c' w'' (T & log'' & T1 & T2 & T3 & T4). split; [by eapply same_set_trans|].
    exists log''. split; [by eapply collected_trans|]. split; [done|]. split; [lia|].
    rewrite S1 in T4. destruct T4 as [?|[?|T4]]; [by left|by right; left|].
    destruct H7 as [?|[H7|(e & He & Hu)]]; [lia| |].
    + right; right. intros j id' e [->|Hj]%elem_of_cons Hs' He; [|by eapply T4].
      rewrite Hs in Hs'. injection Hs' as <-. apply H7. by eapply collected_elem.
    + right; left. exists e. split; [by eapply collected_used|done].
Qed.

(** *** Freeing an empty ring *)

Lemma core_drop_ring w pend log locals id s :
  core w pend log locals -> message_size s = message_size (ms w) ->
  (ids (ms_mr (ms w)) ++ ids (ms_rb (ms w))) ≡ₚ (id :: (ids (ms_mr s) ++ ids (ms_rb s))) ->
  (forall x, x <> id -> x ∈ ids (ms_mr s) <-> x ∈ ids (ms_mr (ms w))) ->
  (forall x, x <> id -> x ∈ ids (ms_rb s) <-> x ∈ ids (ms_rb (ms w))) ->
  (forall e, e ∈ log -> e_mr e <> id /\ e_rb e <> Some id) ->
  core (set_ms s (drop_ring id w)) pend log locals.
Proof.
  intros HC. open_core HC. intros Es HP Hmr Hrb Hlog. assert (Hnd := core_ids0). rewrite HP in Hnd.
  apply list.NoDup_cons in Hnd as [Hnot Hnd].
  assert (Hl : forall p n, p.1 <> id -> load p n (set_ms s (drop_ring id w)) = load p n w).
  { intros p n Hp. apply load_ext. intros off. simpl. rewrite map_lookup_filter.
    destruct (bytes w !! (p.1, off)); simpl; [|done]. by rewrite option_guard_True. }
  assert (Hne : forall x, x ∈ ids (ms_mr s) \/ x ∈ ids (ms_rb s) -> x <> id).
  { intros x Hx ->. apply Hnot, elem_of_app. done. }
  assert (Hm : forall p h, p.1 <> id -> msgs w !! p = Some h ->
    filter (fun e => e.1.1 <> id) (msgs w) !! p = Some h).
  { intros p h Hp Hh. by apply map_lookup_filter_Some. }
  constructor; simpl; rewrite ?Es; try done.
  - intros x r. rewrite lookup_delete_Some. intros [_ Hr]. eauto.
  - intros i Hi. destruct (core_mr0 i) as (r & Hr & Hok); [apply Hmr; auto|].
    exists r. split; [|done]. rewrite lookup_delete_ne; [done|]. apply not_eq_sym. auto.
  - intros i Hi. destruct (core_rb0 i) as (r & Hr & Hok); [apply Hrb; auto|].
    exists r. split; [|done]. rewrite lookup_delete_ne; [done|]. apply not_eq_sym. auto.
  - apply list.Forall_forall. intros e He. rewrite list.Forall_forall in core_log0.
    destruct (core_log0 e He) as (H1 & h & Hh & H2). destruct (Hlog e He) as [E1 E2].
    split; simpl; [by apply Hmr|]. exists h. split; [by apply Hm|]. revert H2.
    apply header_ok_ext; [|done]. intros r off sz Eb Hr. assert (r <> id).
    { intros ->. apply E2. unfold e_rb. by rewrite Eb. }
    split; [by apply Hrb|]. intros n. by apply Hl.
  - eapply list.Forall_impl; [exact core_locals0|]. intros l (h & Hh & H1 & H2 & H3 & H4).
    assert (Hid : forall x, rings w !! x = None -> x <> id /\ delete id (rings w) !! x = None).
    { intros x Hx. split; [|rewrite lookup_delete_None; auto]. intros ->.
      assert (id ∈ ids (ms_mr (ms w)) ++ ids (ms_rb (ms w))) as Hin by (rewrite HP; apply list_elem_of_here).
      apply elem_of_app in Hin as [Hin|Hin]; [destruct (core_mr0 _ Hin) as (r & Hr & _)
        |destruct (core_rb0 _ Hin) as (r & Hr & _)]; congruence. }
    exists h. simpl. destruct (Hid _ H2) as [Hn1 Hn2]. split_and!; auto.
    destruct (m_data h) as [d|]; [|done]. destruct H4 as (D1 & D2 & D3 & D4).
    destruct (Hid _ D2) as [Hn3 Hn4]. split_and!; auto. rewrite <- D4. by apply Hl.
Qed.

Lemma get_set_arrays k a s : get_arrays k (set_arrays k a s) = a.
Proof. by destruct k. Qed.
Lemma set_set_arrays k a b s : set_arrays k a (set_arrays k b s) = set_arrays k a s.
Proof. by destruct k. Qed.
Lemma set_get_arrays k s : set_arrays k (get_arrays k s) s = s.
Proof. by destruct k, s. Qed.
Lemma message_size_set_arrays k a s : message_size (set_arrays k a s) = message_size s.
Proof. by destruct k. Qed.

Lemma slot_split a i id :
  slot a i = Some (Some id) -> exists a1 a2, a = a1 ++ Some id :: a2 /\ length a1 = Z.to_nat i /\
    <[Z.to_nat i := None]> a = a1 ++ None :: a2.
Proof.
  unfold slot. case_decide; [|done]. intros Hl. apply list_elem_of_split_length in Hl as (a1 & a2 & -> & E).
  exists a1, a2. split; [done|]. split; [done|]. rewrite E. by rewrite insert_app_r_alt, Nat.sub_diag by lia.
Qed.

Lemma live_nil_rb w pend i log r :
  rb_ok i log r -> Forall (entry_ok w pend) log -> live r = [] -> forall e, e ∈ log -> e_rb e <> Some i.
Proof.
  intros (_ & _ & Hl & _) Hlog E e He Hr. rewrite E in Hl. symmetry in Hl. apply nil_length_inv in Hl.
  apply span_nil_inv in Hl. rewrite list.Forall_forall in Hl, Hlog. specialize (Hl e He).
  destruct (Hlog e He) as (_ & h & _ & Hh). by apply (rb_block_nil _ _ _ _ i Hh) in Hl.
Qed.

Lemma core_free_slot k i id r w pend log locals :
  core w pend log locals -> slot (array (get_arrays k (ms w))) i = Some (Some id) ->
  rings w !! id = Some r -> live r = [] ->
  core (set_ms (set_arrays k (set_array (<[Z.to_nat i := None]> (array (get_arrays k (ms w))))
    (get_arrays k (ms w))) (ms w)) (drop_ring id w)) pend log locals.
Proof.
  intros Hcore Hs Hr Hl. open_core Hcore.
  destruct (slot_split _ _ _ Hs) as (a1 & a2 & Ea & _ & ->).
  assert (Eids : ids (get_arrays k (ms w)) = omap (fun x => x) a1 ++ id :: omap (fun x => x) a2).
  { unfold ids. by rewrite Ea, omap_app. }
  assert (Eids' : forall a, ids (set_array (a1 ++ None :: a2) a) = omap (fun x => x) a1 ++ omap (fun x => x) a2).
  { intros a. unfold ids. simpl. by rewrite omap_app. }
  assert (Hin : id ∈ ids (get_arrays k (ms w))).
  { rewrite Eids. apply elem_of_app. right. apply list_elem_of_here. }
  apply core_drop_ring; [done|by destruct k|..].
  - destruct k; simpl in *; rewrite Eids, Eids'; symmetry.
    + rewrite <- !app_assoc. apply Permutation_middle.
    + rewrite !app_assoc. apply Permutation_middle.
  - intros x Hx. destruct k; simpl in *; [|done]. rewrite Eids, Eids', !elem_of_app, elem_of_cons. tauto.
  - intros x Hx. destruct k; simpl in *; [done|]. rewrite Eids, Eids', !elem_of_app, elem_of_cons. tauto.
  - intros e He. rewrite list.Forall_forall in core_log0. destruct (core_log0 e He) as (H1 & h & Hh & H2).
    rewrite <- list.Forall_forall in core_log0. destruct k; simpl in Hin.
    + destruct (core_mr0 id Hin) as (r' & Hr' & Hok). assert (r' = r) as -> by congruence.
      split; [by eapply live_nil_mr; [exact Hok|lia|..]|]. intros E.
      destruct H2 as [_ H2]. unfold e_rb in E. destruct (e_block e) as [[[x y] z]|]; [|done].
      injection E as ->. destruct H2 as [H2 _]. by apply (core_mr_rb _ _ _ _ _ _ Hcore Hin H2).
    + destruct (core_rb0 id Hin) as (r' & Hr' & Hok). assert (r' = r) as -> by congruence.
      split; [by apply (core_mr_rb _ _ _ _ _ _ Hcore H1 Hin)|].
      by eapply live_nil_rb; [exact Hok|exact core_log0|..].
Qed.

Lemma free_smaller_ok k idx : forall used freed w pend log locals,
  core w pend log locals -> NoDup idx -> 0 <= used ->
  Forall (fun i => 0 <= i /\ exists id, slot (array (get_arrays k (ms w))) i = Some (Some id)) idx ->
  let a := get_arrays k (ms w) in
  wp (free_smaller NDEBUG k idx used freed) w (fun c w' =>
    core w' pend log locals /\
    (c = freed \/ freed < c /\ c - freed + (2 - Z.min used 2) <= Z.of_nat (length idx)) /\
    exists l, ms w' = set_arrays k (set_array l a) (ms w) /\ length l = length (array a) /\
      Z.of_nat (length (omap (fun x => x) l)) + (c - freed) = Z.of_nat (length (ids a)) /\
      (forall i, array a !! i = Some None -> l !! i = Some None) /\ (c = freed -> l = array a)).
Proof.
  induction idx as [|i idx IH]; intros used freed w pend log locals Hcore Hnd Hused Hidx a; cbn [free_smaller].
  { apply wp_ret. split; [done|]. split; [lia|]. exists (array a).
    replace (set_array (array a) a) with a by (by destruct a). unfold a.
    rewrite set_get_arrays. split_and!; try done. unfold ids. lia. }
  apply Forall_cons_1 in Hidx as [(Hi & id & Hs) Hidx]. apply list.NoDup_cons in Hnd as [Hni Hnd].
  apply wp_bind. eapply wp_get_slot; [exact Hs|]. apply wp_bind, wp_assert; [done|].
  destruct (decide (used < 2)).
  { eapply wp_mono; [apply (IH (used + 1) freed w pend log locals Hcore Hnd); [lia|done]|].
    cbv beta zeta. intros c w' (H1 & H2 & H3). split; [done|]. split; [|done]. simpl. lia. }
  apply wp_bind. eapply wp_lift; [done|]. apply wp_bind.
  assert (Hid : id ∈ ids a).
  { unfold ids. apply list_elem_of_omap. exists (Some id). split; [|done].
    unfold slot in Hs. case_decide; [|done]. by eapply list_elem_of_lookup_2. }
  assert (Hr : exists r, rings w !! id = Some r /\ rb_inv r).
  { open_core Hcore. destruct k; [destruct (core_mr0 id Hid) as (r & Hr & Hok & _)
      |destruct (core_rb0 id Hid) as (r & Hr & Hok & _)]; eauto. }
  destruct Hr as (r & Hr & Hrinv).
  eapply wp_get_rb; [exact Hr|by apply used_spec|].
  destruct (decide (Z.of_nat (length (live r)) = 0)) as [E|E].
  2: { eapply wp_mono; [apply (IH used freed w pend log locals Hcore Hnd Hused Hidx)|].
       cbv beta zeta. intros c w' (H1 & H2 & H3). split; [done|]. split; [|done]. simpl. lia. }
  assert (Hl : live r = []) by (apply nil_length_inv; lia).
  apply wp_bind, wp_bind. eapply wp_get_rb; [exact Hr|done|]. apply wp_modify, wp_bind, wp_upd_ms.
  pose proof (core_free_slot k i id r w pend log locals Hcore Hs Hr Hl) as Hcore'.
  cbn [ms set_ms drop_ring]. fold a in Hcore' |- *.
  eapply wp_mono; [apply (IH used (freed + 1) _ pend log locals Hcore' Hnd Hused)|].
  - apply list.Forall_forall. intros j Hj. rewrite list.Forall_forall in Hidx.
    destruct (Hidx j Hj) as (Hj0 & id' & Hs'). split; [done|]. exists id'. simpl.
    rewrite get_set_arrays. simpl. rewrite slot_lookup in * by done.
    rewrite list_lookup_insert_ne; [done|]. intros Eij. apply Hni.
    replace i with j by lia. done.
  - cbv beta zeta. cbn [ms set_ms]. rewrite get_set_arrays.
    intros c w' (H1 & H2 & l & H3 & H4 & H5 & H6 & _). split; [done|].
    split; [simpl; lia|]. exists l. rewrite H3, set_set_arrays. simpl in *.
    rewrite length_insert in H4.
    destruct (slot_split _ _ _ Hs) as (a1 & a2 & Ea & Ei & En). unfold ids in *. simpl in *.
    fold a in Ea, En. split_and!; [done|done| | |lia].
    + rewrite En in H5. rewrite Ea. rewrite omap_app in *. simpl in *. rewrite !length_app in *.
      simpl in *. lia.
    + intros j Hj. apply H6. rewrite list_lookup_insert_ne; [done|]. intros <-.
      rewrite slot_lookup in Hs by done. unfold a in Hj. congruence.
Qed.

(** *** Packing *)

Lemma lookup_mid {A} (l1 l2 : list A) x i :
  i = Z.of_nat (length l1) -> (l1 ++ x :: l2) !! Z.to_nat i = Some x.
Proof. intros ->. rewrite Nat2Z.id. by rewrite lookup_app_r, Nat.sub_diag by lia. Qed.
Lemma insert_mid {A} (l1 l2 : list A) x y i :
  i = Z.of_nat (length l1) -> <[Z.to_nat i := y]> (l1 ++ x :: l2) = l1 ++ y :: l2.
Proof. intros ->. rewrite Nat2Z.id. by rewrite insert_app_r_alt, Nat.sub_diag by lia. Qed.

Lemma replicate_shift {A} k (x : A) l : replicate k x ++ x :: l = x :: replicate k x ++ l.
Proof. induction k as [|k IH]; simpl; [done|]. by rewrite IH. Qed.

(** Before slot [i]: the rings seen so far, and then [k] empty slots; the first of these is
    [empty_slot]. *)
Lemma pack_loop_ok w rest : forall packed k tail i empty_slot,
  i = Z.of_nat (length packed + k) ->
  empty_slot = (if decide (k = 0%nat) then -1 else Z.of_nat (length packed)) ->
  wp (pack_loop NDEBUG (map Some packed ++ replicate k None ++ rest ++ tail)
        (seqZ i (Z.of_nat (length rest))) empty_slot) w
    (fun l w' => w' = w /\ exists k', (length (omap (fun x => x) rest) + k' = k + length rest)%nat /\
       l = map Some (packed ++ omap (fun x => x) rest) ++ replicate k' None ++ tail).
Proof.
  induction rest as [|o rest IH]; intros packed k tail i empty_slot Hi He.
  { simpl. apply wp_ret. split; [done|]. exists k. rewrite app_nil_r. split; [simpl; lia|done]. }
  rewrite (seqZ_cons i) by (simpl; lia). cbn [pack_loop length].
  replace (Z.pred (Z.of_nat (S (length rest)))) with (Z.of_nat (length rest)) by lia.
  apply wp_bind. eapply wp_lift.
  { rewrite slot_lookup by lia. rewrite app_assoc. apply lookup_mid.
    rewrite length_app, length_map, length_replicate. lia. }
  destruct o as [id|].
  - destruct (decide (k = 0%nat)) as [->|Hk]; subst empty_slot.
    + rewrite decide_True by lia. specialize (IH (packed ++ [id]) 0%nat tail (Z.succ i) (-1)).
      rewrite map_app, <- app_assoc in IH. simpl in IH. simpl.
      eapply wp_mono; [apply IH; [rewrite length_app; simpl; lia|done]|].
      intros l w' [-> (k' & Hk' & ->)]. split; [done|]. exists k'. rewrite <- app_assoc.
      split; [|done]. refine (eq_trans (f_equal S Hk') _). lia.
    + rewrite decide_False by lia. destruct k as [|k]; [done|]. simpl.
      apply wp_bind. eapply wp_lift.
      { rewrite slot_lookup by lia. apply lookup_mid. by rewrite length_map. }
      apply wp_bind, wp_assert; [done|].
      rewrite insert_mid by (by rewrite length_map).
      set (a := map Some packed ++ Some id :: replicate k None ++ Some id :: rest ++ tail).
      assert (Ea : <[Z.to_nat i := None]> a =
        map Some (packed ++ [id]) ++ replicate (S k) None ++ rest ++ tail).
      { unfold a. replace (map Some packed ++ Some id :: replicate k None ++ Some id :: rest ++ tail)
          with ((map Some packed ++ Some id :: replicate k None) ++ Some id :: rest ++ tail)
          by (by rewrite <- !app_assoc).
        rewrite insert_mid by (rewrite length_app, length_map; simpl; rewrite length_replicate; lia).
        rewrite map_app, <- !app_assoc. simpl. do 2 f_equal.
        by rewrite replicate_shift. }
      rewrite Ea. apply wp_bind. eapply wp_lift.
      { change (replicate (S k) None ++ rest ++ tail) with (None :: replicate k None ++ rest ++ tail).
        rewrite seqZ_cons by lia. cbn [next_empty].
        rewrite slot_lookup by lia. rewrite (lookup_mid (map Some (packed ++ [id]))); [done|].
        rewrite length_map, length_app. simpl. lia. }
      eapply wp_mono; [apply (IH (packed ++ [id]) (S k)); rewrite length_app; simpl; lia|].
      intros l w' [-> (k' & Hk' & ->)]. split; [done|]. exists k'. rewrite <- app_assoc.
      split; [|done]. refine (eq_trans (f_equal S Hk') _). lia.
  - replace (map Some packed ++ replicate k None ++ (None :: rest) ++ tail)
      with (map Some packed ++ replicate (S k) None ++ rest ++ tail)
      by (simpl; by rewrite replicate_shift).
    eapply wp_mono; [apply (IH packed (S k)); [lia|]|]; cycle 1.
    { intros l w' [-> (k' & Hk' & ->)]. split; [done|]. exists k'.
      split; [|done]. refine (eq_trans Hk' _). simpl; lia. }
    rewrite (decide_False (P := S k = 0%nat)) by done. subst empty_slot.
    destruct (decide (k = 0%nat)); [rewrite decide_True by lia|rewrite decide_False by lia]; lia.
Qed.

Lemma omap_none (l : list (option Z)) : Forall (fun o => o = None) l -> omap (fun x => x) l = [].
Proof. induction 1 as [|o l -> _ IH]; [done|]. exact IH. Qed.

Lemma pack_ok w a n :
  (n <= length a)%nat -> Forall (fun o => o = None) (drop n a) ->
  wp (pack_loop NDEBUG a (seqZ 0 (Z.of_nat n)) (-1)) w (fun l w' => w' = w /\
    l = map Some (omap (fun x => x) a) ++ replicate (length a - length (omap (fun x => x) a)) None).
Proof.
  intros Hn Hd. pose proof (pack_loop_ok w (take n a) [] 0 (drop n a) 0 (-1)) as H. simpl in H.
  rewrite take_drop, length_take_le in H by done.
  eapply wp_mono; [by apply H|]. intros l w' [-> (k & Hk & ->)]. split; [done|].
  assert (E : omap (fun x => x) a = omap (fun x => x) (take n a)).
  { rewrite <- (take_drop n a) at 1. by rewrite omap_app, (omap_none (drop n a)), app_nil_r. }
  rewrite E. f_equal.
  assert (Ed : drop n a = replicate (length a - n) None).
  { symmetry. apply replicate_as_Forall_2; [by rewrite length_drop|].
    eapply list.Forall_impl; [exact Hd|]. by intros ? ->. }
  rewrite Ed, <- replicate_add. f_equal. lia.
Qed.

(** *** Garbage collection *)

(** The other fields of the set. *)
Definition same_sizes (w w' : world) : Prop :=
  message_size (ms w') = message_size (ms w) /\ max_allocation (ms w') = max_allocation (ms w).

Lemma arr_ids a : arr_ok a -> Z.of_nat (length (ids a)) = max a + 1.
Proof. intros (_ & _ & l & Hl & E). unfold ids. by rewrite E, ids_some. Qed.

Lemma arr_ok_packed (l : list Z) i :
  0 <= i < Z.of_nat (length l) -> Z.of_nat (length l) <= MSG_ARRAY_SIZE ->
  arr_ok (Arrays i (Z.of_nat (length l) - 1)
    (map Some l ++ replicate (Z.to_nat MSG_ARRAY_SIZE - length l) None)).
Proof.
  intros Hi Hl. split; [simpl; lia|]. split; [simpl; lia|]. exists l. simpl. split; [lia|].
  do 2 f_equal. unfold MSG_ARRAY_SIZE in *. lia.
Qed.

Lemma arr_all_present a : arr_ok a -> all_present a.
Proof.
  intros Ha. apply list.Forall_forall. intros i Hi. apply elem_of_seqZ in Hi.
  destruct (arr_slot a i Ha ltac:(lia)) as (id & Hid & _). eauto.
Qed.

Lemma arr_tail a i : arr_ok a -> max a < i < MSG_ARRAY_SIZE -> array a !! Z.to_nat i = Some None.
Proof.
  intros (Hc & _ & l & Hl & ->) Hi. rewrite lookup_app_r by (rewrite length_map; lia).
  rewrite length_map. apply lookup_replicate. split; [done|lia].
Qed.
Lemma arr_length a : arr_ok a -> length (array a) = Z.to_nat MSG_ARRAY_SIZE.
Proof.
  intros (Hc & Hm & l & Hl & ->). rewrite length_app, length_map, length_replicate. lia.
Qed.

Lemma shrink_arrays_ok k w pend log locals :
  core w pend log locals -> arr_ok (get_arrays k (ms w)) ->
  wp (shrink_arrays NDEBUG k) w (fun _ w' =>
    core w' pend log locals /\ exists a, arr_ok a /\ ms w' = set_arrays k a (ms w)).
Proof.
  intros Hcore Ha. pose proof Ha as (Hcur & Hmax & _). apply wp_bind, wp_gets, wp_bind.
  set (a := get_arrays k (ms w)) in *.
  eapply wp_mono; [apply (free_smaller_ok k _ 0 0 w pend log locals Hcore)|].
  { rewrite reverse_Permutation. apply NoDup_seqZ. }
  { done. }
  { apply list.Forall_forall. intros i. rewrite elem_of_reverse, elem_of_seqZ. intros Hi.
    split; [lia|]. destruct (arr_slot a i Ha ltac:(lia)) as (id & Hid & _). eauto. }
  cbv beta zeta. fold a. intros c w' (Hcore' & Hc & l & Hms & Hlen & Hids & Hnone & Hsame).
  rewrite length_reverse, length_seqZ in Hc. destruct (decide (c = 0)) as [->|Hc0].
  { apply wp_ret. split; [done|]. exists a. split; [done|]. rewrite Hms, Hsame by done.
    by destruct a. }
  apply wp_bind, wp_gets. rewrite Hms, get_set_arrays. cbn [set_array array max]. apply wp_bind.
  rewrite arr_ids in Hids by done. rewrite arr_length in Hlen by done.
  pose proof (pack_ok w' l (Z.to_nat (max a + 1))) as Hpack. rewrite Z2Nat.id in Hpack by lia.
  eapply wp_mono; [apply Hpack|].
  { rewrite Hlen. unfold MSG_ARRAY_SIZE in *. lia. }
  { apply list.Forall_lookup. intros i o Hi. rewrite lookup_drop in Hi.
    pose proof (lookup_lt_Some _ _ _ Hi) as Hlt. rewrite Hlen in Hlt.
    pose proof (arr_tail a (max a + 1 + Z.of_nat i) Ha ltac:(lia)) as Ht.
    replace (Z.to_nat (max a + 1 + Z.of_nat i)) with (Z.to_nat (max a + 1) + i)%nat in Ht by lia.
    apply Hnone in Ht. congruence. }
  intros l' w'' [-> ->]. apply wp_bind, wp_upd_ms. rewrite Hms, set_set_arrays, Hlen.
  set (ls := omap (fun x => x) l) in *. replace (max a - c) with (Z.of_nat (length ls) - 1) by lia.
  assert (Harr : arr_ok (Arrays (Z.of_nat (length ls) - 1) (Z.of_nat (length ls) - 1)
    (map Some ls ++ replicate (Z.to_nat MSG_ARRAY_SIZE - length ls) None))).
  { apply arr_ok_packed; unfold MSG_ARRAY_SIZE in *; lia. }
  apply wp_assert; [by apply arr_all_present|]. split; [|eauto].
  apply core_set_ms; [done|rewrite Hms; by destruct k|..]; rewrite Hms; destruct k; try done;
    unfold ids; simpl; by rewrite ids_some.
Qed.

Lemma free_size_ok w pend log locals i :
  inv w pend log locals -> 0 <= i <= max (ms_rb (ms w)) -> wp (free_size i) w (fun _ w' => w' = w).
Proof.
  intros (Hcore & _ & Ha) Hi. destruct (arr_slot _ _ Ha Hi) as (id & Hs & Hid).
  open_core Hcore. destruct (core_rb0 id Hid) as (r & Hr & Hok & _).
  apply wp_bind. eapply wp_get_ring; [exact Hs|]. apply wp_bind. eapply wp_get_rb; [exact Hr|done|].
  apply wp_bind. eapply wp_get_rb; [exact Hr|by apply used_spec|]. by apply wp_ret.
Qed.

Lemma largest_free_ok w pend log locals idx : forall i sz,
  inv w pend log locals -> 0 <= i <= max (ms_rb (ms w)) ->
  Forall (fun i => 0 <= i <= max (ms_rb (ms w))) idx ->
  wp (largest_free idx i sz) w (fun c w' => w' = w /\ 0 <= c <= max (ms_rb (ms w))).
Proof.
  induction idx as [|j idx IH]; intros i sz Hinv Hi Hidx; cbn [largest_free]; [by apply wp_ret|].
  apply Forall_cons_1 in Hidx as [Hj Hidx]. apply wp_bind.
  eapply wp_mono; [by apply (free_size_ok w pend log locals)|]. intros f w' ->.
  case_decide; by apply IH.
Qed.

Lemma fr_message_gc_ok w pend log locals n :
  inv w pend log locals -> 0 < n ->
  wp (fr_message_gc NDEBUG uninit n) w (fun _ w' =>
    same_sizes w w' /\ exists log', collected log log' /\ inv w' pend log' locals /\
    (log' = [] \/ (exists e, e ∈ log' /\ e_used e = true) \/ n <= Z.of_nat (length log))).
Proof.
  intros (Hcore & Hmr & Hrb) Hn. apply wp_bind, wp_gets, wp_bind.
  eapply wp_mono; [apply (gc_rings_ok _ w pend log locals n 0 Hcore Hmr Hn)|].
  { apply list.Forall_forall. intros i Hi%elem_of_seqZ. lia. }
  intros c w1 ((S1 & S2 & S3 & S4) & log' & Hcol & Hcore1 & Hlen & Hall).
  assert (Hdone : log' = [] \/ (exists e, e ∈ log' /\ e_used e = true) \/ n <= Z.of_nat (length log)).
  { destruct Hall as [?|[?|Hall]]; [right; right; lia|auto|]. left.
    destruct log' as [|e log']; [done|]. exfalso. open_core Hcore1.
    apply Forall_cons_1 in core_log0 as [[He _] _]. rewrite S1 in He.
    destruct (elem_of_slot _ _ Hmr He) as (i & Hi & Hs).
    apply (Hall i (e_mr e) e); [apply elem_of_seqZ; lia|exact Hs|apply list_elem_of_here|done]. }
  destruct (decide (c = 0)).
  { apply wp_ret. split; [done|]. exists log'. split; [done|]. split; [|done]. split; [done|].
    by rewrite S1, S2. }
  apply wp_bind. eapply wp_mono; [apply (shrink_arrays_ok MR w1 pend log' locals Hcore1)|].
  { simpl. by rewrite S1. }
  intros _ w2 (Hcore2 & a & Ha & E2).
  apply wp_bind. eapply wp_mono; [apply (shrink_arrays_ok RB w2 pend log' locals Hcore2)|].
  { rewrite E2. simpl. by rewrite S2. }
  intros _ w3 (Hcore3 & b & Hb & E3). rewrite E2 in E3. simpl in E3.
  assert (Hinv : inv w3 pend log' locals) by (split; [done|]; by rewrite E3).
  pose proof Hb as (Hbc & _). assert (Eb : ms_rb (ms w3) = b) by (by rewrite E3).
  apply wp_bind, wp_gets, wp_bind. rewrite Eb.
  destruct (arr_slot b (max b) Hb ltac:(lia)) as (id & Hs & _).
  eapply wp_get_slot; [simpl; rewrite Eb; exact Hs|]. cbn [decide]. rewrite decide_False by done.
  apply wp_bind. eapply wp_mono; [apply (free_size_ok w3 pend log' locals); rewrite ?Eb; [done|lia]|].
  intros f w' ->. apply wp_bind. eapply wp_mono; [apply (largest_free_ok w3 pend log' locals); rewrite ?Eb|].
  { done. } { lia. } { apply list.Forall_forall. intros i Hi%elem_of_seqZ. lia. }
  intros i w' [-> Hi]. rewrite Eb in Hi. apply wp_bind, wp_upd_ms, wp_bind, wp_assert; [lia|].
  apply wp_assert; [lia|]. unfold same_sizes. simpl. rewrite E3. simpl. split; [by rewrite S3, S4|].
  exists log'. split; [done|]. split; [|done]. split; [|simpl; split; [done|]].
  - apply core_set_ms; [done|by rewrite E3..].
  - destruct Hb as (_ & Hb1 & Hb2). split; [simpl; lia|]. by split.
Qed.

End gc.
