(* ===== verification/MessageAlloc.v ===== *)
(** * Message sets: allocation

    That the operations which allocate, finish, copy and write messages keep the invariant
    of [MessageInv], and what they return. *)
From S2P Require Import Prelude StateMonad RingBuffer MessageSet MessageInv MessageGc.

Section alloc.
Context {NDEBUG : bool} {talloc_ok : Z -> bool} {uninit : ptr -> fr_message_t}.

(** *** Allocating a message header *)

(** A ring may be replaced by one with the same messages. *)
Lemma core_set_ring w pend log locals i r :
  core w pend log locals -> is_Some (rings w !! i) ->
  (i ∈ ids (ms_mr (ms w)) -> mr_ok (message_size (ms w)) i log r) ->
  (i ∈ ids (ms_rb (ms w)) -> rb_ok i log r) ->
  core (set_ring i r w) pend log locals.
Proof.
  intros HC. open_core HC. intros Hi Hmr Hrb. constructor; simpl; try done.
  - intros id r' Hr'. assert (Hs : is_Some (rings w !! id)).
    { rewrite <- (same_rings _ i r) by done. by exists r'. }
    destruct Hs as [r0 Hr0]. eauto.
  - intros j Hj. destruct (decide (j = i)) as [->|]; [rewrite lookup_insert_eq; eauto|].
    rewrite lookup_insert_ne by done. auto.
  - intros j Hj. destruct (decide (j = i)) as [->|]; [rewrite lookup_insert_eq; eauto|].
    rewrite lookup_insert_ne by done. auto.
  - eapply list.Forall_impl; [exact core_locals0|]. intros l (h & Hh & H1 & H2 & H3 & H4).
    assert (Hn : forall x, rings w !! x = None -> <[i := r]> (rings w) !! x = None).
    { intros x Hx. apply eq_None_not_Some. rewrite same_rings, Hx by done. apply is_Some_None. }
    exists h. simpl. split_and!; auto. destruct (m_data h); [|done].
    destruct H4 as (? & ? & ? & ?). auto.
Qed.

Lemma alloc_wrap r n r' o :
  rb_inv r -> 0 < n <= 1024 -> fr_ring_buffer_alloc r n = Some (r', o) ->
  (write_offset r < data_start r -> n <= write_offset r) ->
  write_offset r' < data_start r' -> n <= write_offset r'.
Proof.
  destruct r as [size s e w rs c]. simpl. intros (Hs & Hr & Hi) Hn. rewrite u64_small by lia.
  destruct c; [intros [= <- <-]; done|]. repeat case_decide; intros [= <- <-]; simpl; lia.
Qed.

Lemma mr_ok_alloc n i log r :
  0 < n <= 1024 -> mr_ok n i log r -> exists r' o, fr_ring_buffer_alloc r n = Some (r', o) /\
    match o with
    | None => mr_ok n i log r'
    | Some off => mr_ok n i (log ++ [Entry (i, off) true None []]) r' /\ (i, off) ∉ map e_ptr log
    end.
Proof.
  intros Hn (Hi & Hc & Hw & Hs & Hl).
  destruct (alloc_spec r n Hi ltac:(lia)) as (r' & o & E & Hi' & Es & Ec & Hres).
  exists r', o. split; [done|]. pose proof (alloc_wrap _ _ _ _ Hi Hn E Hw) as Hw'.
  destruct o as [off|].
  - destruct Hres as (_ & _ & Hl' & _). split.
    + split_and!; try done; [congruence|lia|]. rewrite Hl', Hl, span_app, span_cons, span_nil, app_nil_r.
      unfold mr_block at 3. by rewrite decide_True.
    + intros (e & Ee & He)%list_elem_of_fmap. apply live_NoDup in Hi'. rewrite Hl', Hl in Hi'.
      apply list.NoDup_app in Hi' as (_ & Hd & _). apply (Hd off).
      * apply list_elem_of_In, in_concat. exists (mr_block n i e). split.
        { apply in_map. by apply list_elem_of_In. }
        apply list_elem_of_In. unfold mr_block, e_mr. rewrite <- Ee, decide_True by done.
        apply elem_of_seqZ. simpl. lia.
      * apply elem_of_seqZ. lia.
  - destruct Hres as (_ & Hl'). split_and!; try done; [congruence|lia|congruence].
Qed.

Lemma core_new w log locals i r off h :
  core w None log locals -> i ∈ ids (ms_mr (ms w)) ->
  mr_ok (message_size (ms w)) i (log ++ [Entry (i, off) true None []]) r -> (i, off) ∉ map e_ptr log ->
  m_status h = FR_MESSAGE_USED ->
  core (set_msg (i, off) h (set_ring i r w)) (Some ((i, off), h)) (log ++ [Entry (i, off) true None []]) locals.
Proof.
  intros Hcore Hi Hok Hnew Hs. open_core Hcore. destruct (core_mr0 i Hi) as (r0 & Hr0 & _).
  assert (Hnm : forall j, j <> i -> mr_block (message_size (ms w)) j (Entry (i, off) true None []) = []).
  { intros j Hj. by apply mr_block_other. }
  constructor; simpl; try done.
  - intros id r' Hr'. assert (Hid : is_Some (rings w !! id)).
    { rewrite <- (same_rings _ i r) by (by rewrite Hr0). by exists r'. }
    destruct Hid as [r1 Hr1]. eauto.
  - intros j Hj. destruct (decide (j = i)) as [->|Hne]; [rewrite lookup_insert_eq; eauto|].
    rewrite lookup_insert_ne by done. destruct (core_mr0 j Hj) as (r1 & Hr1 & Hok1). exists r1.
    split; [done|]. unfold mr_ok. by rewrite span_app, span_cons, Hnm, app_nil_r by done.
  - intros j Hj. rewrite lookup_insert_ne by (by apply (core_mr_rb _ _ _ _ _ _ Hcore)).
    destruct (core_rb0 j Hj) as (r1 & Hr1 & Hok1). exists r1. split; [done|]. unfold rb_ok.
    rewrite suffixes_skip, app_nil_r by done. rewrite span_app. simpl. by rewrite app_nil_r.
  - rewrite map_app. apply list.NoDup_app. split; [done|]. split; [|by apply NoDup_singleton].
    intros x Hx. simpl. rewrite list_elem_of_singleton. by intros ->.
  - apply list.Forall_app. split.
    + apply list.Forall_forall. intros e He. rewrite list.Forall_forall in core_log0.
      destruct (core_log0 e He) as (H1 & h' & Hh' & H2). split; [done|]. exists h'. simpl.
      assert (Hne : (i, off) <> e_ptr e).
      { intros E. apply Hnew. rewrite E. by apply list_elem_of_fmap_2. }
      rewrite lookup_insert_ne by done. split; [done|]. revert H2.
      apply header_ok_ext; [done|]. by rewrite pend_of_ne.
    + constructor; [|constructor]. split; [done|]. exists h. simpl. rewrite lookup_insert_eq.
      split; [done|]. split; [done|]. cbn [e_block e_ptr e_data e_used]. by rewrite pend_of_eq.
  - apply pairs_app. split; [done|]. split; [by repeat constructor|].
    intros a b _ ->%list_elem_of_singleton. by intros _ _ _ ?.
  - eapply list.Forall_impl; [exact core_locals0|]. intros l (h' & Hh' & H1 & H2 & H3 & H4).
    assert (Hn : forall x, rings w !! x = None -> <[i := r]> (rings w) !! x = None).
    { intros x Hx. rewrite lookup_insert_ne; [done|]. congruence. }
    exists h'. simpl. rewrite lookup_insert_ne by (intros E; rewrite <- E in H2; simpl in H2; congruence).
    split_and!; auto. destruct (m_data h'); [|done]. destruct H4 as (? & ? & ? & ?). auto.
Qed.

(** The outcome of allocating a header. *)
Definition got (w : world) (o : option ptr) (log : list entry) (locals : list local) : Prop :=
  match o with
  | None => inv w None log locals
  | Some m => exists h,
      m_status h = FR_MESSAGE_USED /\ (NDEBUG = false -> h = with_status FR_MESSAGE_USED zeroed) /\
      inv w (Some (m, h)) (log ++ [Entry m true None []]) locals
  end.
Definition got_after (w : world) (log : list entry) (locals : list local) (o : option ptr) (w' : world) : Prop :=
  same_sizes w w' /\ exists log', collected log log' /\ got w' o log' locals.

Lemma got_after_trans w log locals w' log' o w'' :
  same_sizes w w' -> collected log log' -> got_after w' log' locals o w'' -> got_after w log locals o w''.
Proof.
  intros [S1 S2] Hc ([T1 T2] & log'' & Hc' & Hg). split; [split; congruence|].
  exists log''. split; [by eapply collected_trans|done].
Qed.

(** Taking a header from message ring [i]. *)
Lemma take_header_ok {A} i (k : option ptr -> M A) w log locals Q :
  inv w None log locals -> i ∈ ids (ms_mr (ms w)) ->
  (forall w', inv w' None log locals -> ms w' = ms w -> wp (k None) w' Q) ->
  (forall m w', ms w' = ms w -> is_Some (rings w' !! m.1) ->
     (forall h, m_status h = FR_MESSAGE_USED ->
        inv (set_msg m h w') (Some (m, h)) (log ++ [Entry m true None []]) locals) ->
     wp (k (Some m)) w' Q) ->
  wp (ring_alloc i (message_size (ms w)) ≫= k) w Q.
Proof.
  intros (Hcore & Hmr & Hrb) Hi Hnone Hsome. open_core Hcore.
  destruct (core_mr0 i Hi) as (r & Hr & Hok).
  destruct (mr_ok_alloc _ _ _ _ core_size0 Hok) as (r' & o & E & Ho).
  apply wp_bind, wp_bind. eapply wp_on_rb; [exact Hr|exact E|]. apply wp_ret.
  destruct o as [off|]; simpl.
  - destruct Ho as [Hok' Hnew]. apply Hsome; [done|simpl; rewrite lookup_insert_eq; eauto|].
    intros h Hs. split; [|done]. by apply core_new.
  - apply Hnone; [|done]. split; [|done].
    apply core_set_ring; [done|by rewrite Hr|done|]. intros Hi'.
    by destruct (core_mr_rb _ _ _ _ _ _ Hcore Hi Hi').
Qed.

(** Its status is set, after it was zeroed or not. *)
Lemma init_header_ok {A} (zero : bool) m (k : M A) w log locals Q :
  is_Some (rings w !! m.1) -> (NDEBUG = false -> zero = true) ->
  (forall h, m_status h = FR_MESSAGE_USED ->
     inv (set_msg m h w) (Some (m, h)) (log ++ [Entry m true None []]) locals) ->
  (forall w', ms w' = ms w -> got w' (Some m) log locals -> wp k w' Q) ->
  wp ((if zero then wr uninit (fun _ => zeroed) m else mret ());;
      wr uninit (with_status FR_MESSAGE_USED) m;; k) w Q.
Proof.
  intros Hr Hz Hinv HQ.
  assert (Hend : forall h, (NDEBUG = false -> h = zeroed) ->
    wp k (set_msg m (with_status FR_MESSAGE_USED h) w) Q).
  { intros h Hh. apply HQ; [done|]. exists (with_status FR_MESSAGE_USED h).
    split; [done|]. split; [intros E; by rewrite Hh|by apply Hinv]. }
  destruct zero; apply wp_bind.
  - apply wp_wr_ring; [done|]. apply wp_bind. eapply wp_wr_msg; [apply lookup_insert_eq|].
    unfold set_msg. simpl. rewrite insert_insert_eq. by apply Hend.
  - apply wp_ret, wp_bind, wp_wr_ring; [done|]. apply Hend. intros E. by specialize (Hz E).
Qed.

Lemma inv_same_set w w' pend log log' locals :
  inv w pend log locals -> core w' pend log' locals -> same_set w w' -> inv w' pend log' locals.
Proof. intros (_ & H1 & H2) Hc (E1 & E2 & _). split; [done|]. by rewrite E1, E2. Qed.

Lemma fr_message_ring_alloc_ok w log locals i clean :
  inv w None log locals -> i ∈ ids (ms_mr (ms w)) ->
  wp (fr_message_ring_alloc NDEBUG uninit i clean) w (fun o w' =>
    got_after w log locals o w' /\ ms_mr (ms w') = ms_mr (ms w) /\ ms_rb (ms w') = ms_rb (ms w)).
Proof.
  intros Hinv Hi. unfold fr_message_ring_alloc. apply wp_bind.
  apply wp_mono with (Q := fun _ w' => same_set w w' /\ exists log', collected log log' /\ core w' None log' locals).
  { destruct clean.
    - apply wp_bind. eapply wp_mono; [by apply (fr_message_ring_gc_ok w None log locals i 4); [apply Hinv|]|].
      intros c w' (_ & _ & H & log' & H1 & H2 & _). apply wp_ret. eauto.
    - apply wp_ret. split; [done|]. exists log. split; [apply collected_refl|apply Hinv]. }
  intros ok w1 (Hss & log' & Hcol & Hcore). pose proof (inv_same_set _ _ _ _ _ _ Hinv Hcore Hss) as Hinv1.
  destruct Hss as (S1 & S2 & S3 & S4).
  assert (Hgot : forall o w', got w' o log' locals -> ms w' = ms w1 ->
    got_after w log locals o w' /\ ms_mr (ms w') = ms_mr (ms w) /\ ms_rb (ms w') = ms_rb (ms w)).
  { intros o w' Hg E. rewrite E. split; [|done]. split; [split; congruence|]. by exists log'. }
  destruct ok; cbn [negb]; [|by apply wp_ret, Hgot].
  apply wp_bind, wp_gets. apply (take_header_ok i _ w1 log' locals); [done|by rewrite S1|..].
  - intros w' Hinv' E. by apply wp_ret, Hgot.
  - intros m w' E Hr Hm. cbv beta iota.
    assert (Hif : (if NDEBUG then mret () else wr uninit (fun _ => zeroed) m) =
      (if negb NDEBUG then wr uninit (fun _ => zeroed) m else mret ())) by (by destruct NDEBUG).
    rewrite Hif. eapply init_header_ok; [done|by intros ->|done|].
    intros w2 E2 Hg. apply wp_ret, Hgot; [done|congruence].
Qed.

Lemma core_set_current k i w pend log locals :
  inv w pend log locals -> 0 <= i <= max (get_arrays k (ms w)) ->
  inv (set_ms (set_arrays k (set_current i (get_arrays k (ms w))) (ms w)) w) pend log locals.
Proof.
  intros (Hcore & (M1 & M2 & M3) & R1 & R2 & R3) Hi.
  split; [apply core_set_ms; by destruct k|]. destruct k; simpl in *; by split_and!; try lia.
Qed.

Lemma alloc_anywhere_ok idx : forall w log locals,
  inv w None log locals -> Forall (fun i => 0 <= i <= max (ms_mr (ms w))) idx ->
  wp (alloc_anywhere NDEBUG uninit idx) w (fun o w' => got_after w log locals o w' /\
    max (ms_mr (ms w')) = max (ms_mr (ms w))).
Proof.
  induction idx as [|i idx IH]; intros w log locals Hinv Hidx; cbn [alloc_anywhere].
  { apply wp_ret. split; [|done]. split; [done|]. exists log. split; [apply collected_refl|done]. }
  apply Forall_cons_1 in Hidx as [Hi Hidx]. pose proof Hinv as (_ & Ha & _).
  destruct (arr_slot _ _ Ha Hi) as (id & Hs & Hid). apply wp_bind. eapply wp_get_ring; [exact Hs|].
  apply wp_bind. eapply wp_mono; [by apply (fr_message_ring_alloc_ok w log locals id true)|].
  intros o w' ((Hss & log' & Hcol & Hg) & E1 & E2). destruct o as [m|].
  - apply wp_bind, wp_upd_ms, wp_ret. split; [|by simpl; rewrite E1]. split; [done|].
    exists log'. split; [done|]. destruct Hg as (h & Hh & Hz & Hi'). exists h. split; [done|]. split; [done|].
    apply (core_set_current MR); [done|]. simpl. by rewrite E1.
  - eapply wp_mono; [apply (IH w' log' locals Hg); by rewrite E1|].
    intros o w2 [H1 H2]. split; [|congruence]. by eapply got_after_trans.
Qed.

(** *** A new ring *)

Lemma create_any a b sz r : fr_ring_buffer_create a b sz = Some r -> fr_ring_buffer_create true true sz = Some r.
Proof. unfold fr_ring_buffer_create. destruct a, b; simpl; try done; by repeat case_decide. Qed.

Lemma core_next_obj w pend log locals n :
  core w pend log locals -> next_obj w <= n ->
  core (World (ms w) (rings w) (msgs w) (bytes w) n) pend log locals.
Proof.
  intros HC. open_core HC. intros Hn. constructor; simpl; try done.
  - intros id r Hr. specialize (core_fresh0 _ _ Hr). lia.
  - eapply list.Forall_impl; [exact core_locals0|]. intros l (h & Hh & H1 & H2 & H3 & H4).
    exists h. simpl. split_and!; try done; try lia. destruct (m_data h); [|done].
    destruct H4 as (? & ? & ? & ?). split_and!; try done; lia.
Qed.

Definition add_slot (k : kind) (n : Z) (s : fr_message_set_t) : fr_message_set_t :=
  let a := get_arrays k s in
  set_arrays k (Arrays (max a + 1) (max a + 1) (<[Z.to_nat (max a + 1) := Some n]> (array a))) s.

Lemma arr_ok_add a n :
  arr_ok a -> max a + 1 < MSG_ARRAY_SIZE ->
  let a' := Arrays (max a + 1) (max a + 1) (<[Z.to_nat (max a + 1) := Some n]> (array a)) in
  arr_ok a' /\ ids a' = ids a ++ [n].
Proof.
  intros (Hc & Hm & l & Hl & E) Hlt a'.
  assert (Ea : array a' = map Some (l ++ [n]) ++ replicate (Z.to_nat (MSG_ARRAY_SIZE - 1 - max a')) None).
  { unfold a'. simpl. rewrite E.
    replace (Z.to_nat (MSG_ARRAY_SIZE - 1 - max a)) with (S (Z.to_nat (MSG_ARRAY_SIZE - 1 - (max a + 1)))) by lia.
    simpl. rewrite insert_mid by (by rewrite length_map). by rewrite map_app, <- app_assoc. }
  split.
  - split; [unfold a'; simpl; lia|]. split; [done|]. exists (l ++ [n]). rewrite length_app.
    split; [unfold a'; simpl; lia|done].
  - unfold ids. by rewrite Ea, E, !ids_some.
Qed.

Lemma ids_add_slot k k' n s :
  arr_ok (get_arrays k s) -> max (get_arrays k s) + 1 < MSG_ARRAY_SIZE ->
  ids (get_arrays k' (add_slot k n s)) =
  ids (get_arrays k' s) ++ match k', k with MR, MR | RB, RB => [n] | _, _ => [] end.
Proof.
  intros Ha Hlt. destruct (arr_ok_add _ n Ha Hlt) as [_ Eids]. unfold add_slot.
  destruct k, k'; simpl in *; rewrite ?app_nil_r; done.
Qed.

(** No message uses a ring that is new. *)
Lemma fresh_unused w pend log locals e :
  core w pend log locals -> e ∈ log -> e_mr e < next_obj w /\ rb_block (next_obj w) e = [].
Proof.
  intros Hcore He. open_core Hcore. rewrite list.Forall_forall in core_log0.
  destruct (core_log0 e He) as (Hm & h & _ & Hok). split.
  - destruct (core_mr0 _ Hm) as (r & Hr & _). by apply (core_fresh0 _ _ Hr).
  - apply (rb_block_nil _ _ _ _ _ Hok). unfold e_rb. destruct Hok as [_ H].
    destruct (e_block e) as [[[x y] z]|]; [|done]. destruct H as [H _]. simpl. intros [= ->].
    destruct (core_rb0 _ H) as (r & Hr & _). specialize (core_fresh0 _ _ Hr). lia.
Qed.

Lemma new_ring_ok w pend log locals r :
  core w pend log locals -> rb_inv r -> live r = [] -> closed r = false -> write_offset r = 0 -> data_start r = 0 ->
  mr_ok (message_size (ms w)) (next_obj w) log r /\ rb_ok (next_obj w) log r.
Proof.
  intros Hcore Hinv Hl Hc Hw Hd. open_core Hcore.
  assert (Hu : forall e, e ∈ log -> e_mr e < next_obj w /\ rb_block (next_obj w) e = []).
  { intros e. by apply fresh_unused with pend locals. }
  split.
  - split; [done|]. split; [done|]. split; [lia|]. split; [destruct r; simpl in *; lia|].
    rewrite Hl. symmetry. apply span_none, list.Forall_forall. intros e He. apply mr_block_other.
    destruct (Hu e He). lia.
  - assert (Hsp : span (rb_block (next_obj w)) log = []).
    { apply span_none, list.Forall_forall. intros e He. by apply Hu. }
    split; [done|]. split; [done|]. rewrite Hl, Hsp. split; [done|].
    clear -Hu. induction log as [|e log IH]; [done|]. split.
    + intros _ H. destruct H. apply Hu, list_elem_of_here.
    + apply IH. intros e' He'. by apply Hu, list_elem_of_further.
Qed.

Lemma core_add_ring k w pend log locals r :
  core w pend log locals -> arr_ok (get_arrays k (ms w)) -> max (get_arrays k (ms w)) + 1 < MSG_ARRAY_SIZE ->
  rb_inv r -> live r = [] -> closed r = false -> write_offset r = 0 -> data_start r = 0 ->
  core (World (add_slot k (next_obj w) (ms w)) (<[next_obj w := r]> (rings w)) (msgs w) (bytes w)
    (next_obj w + 2)) pend log locals.
Proof.
  intros Hcore Ha Hlt Hinv Hl Hc Hw Hd. open_core Hcore.
  destruct (new_ring_ok _ _ _ _ _ Hcore Hinv Hl Hc Hw Hd) as [Hmr Hrb]. set (n := next_obj w) in *.
  pose proof (ids_add_slot k MR n _ Ha Hlt) as Em. pose proof (ids_add_slot k RB n _ Ha Hlt) as Er.
  cbn [get_arrays] in Em, Er.
  assert (Hlk : forall i x, rings w !! i = Some x -> <[n := r]> (rings w) !! i = Some x).
  { intros i x Hx. rewrite lookup_insert_ne; [done|]. specialize (core_fresh0 _ _ Hx). lia. }
  assert (Hln : forall i, i < n -> rings w !! i = None -> <[n := r]> (rings w) !! i = None).
  { intros i Hi Hx. by rewrite lookup_insert_ne by lia. }
  assert (Hsz : message_size (add_slot k n (ms w)) = message_size (ms w)) by (by destruct k).
  constructor; cbn [ms rings msgs bytes next_obj]; rewrite ?Hsz; try done.
  - assert (HP : NoDup (n :: ids (ms_mr (ms w)) ++ ids (ms_rb (ms w)))).
    { apply list.NoDup_cons. split; [|done]. intros [Hin|Hin]%elem_of_app;
        [destruct (core_mr0 _ Hin) as (x & Hx & _)|destruct (core_rb0 _ Hin) as (x & Hx & _)];
        specialize (core_fresh0 _ _ Hx); lia. }
    rewrite Em, Er. clear -HP. destruct k; rewrite app_nil_r, ?app_assoc.
    + rewrite <- app_assoc. simpl. by rewrite <- Permutation_middle.
    + by rewrite Permutation_app_comm.
  - intros id x. rewrite lookup_insert_Some. intros [[<- _]|[_ Hx]]; [lia|].
    specialize (core_fresh0 _ _ Hx). lia.
  - intros i Hi. rewrite Em in Hi. apply elem_of_app in Hi as [Hi|Hi].
    + destruct (core_mr0 i Hi) as (x & Hx & Hok). eauto.
    + destruct k; [|by inversion Hi]. apply list_elem_of_singleton in Hi as ->.
      exists r. by rewrite lookup_insert_eq.
  - intros i Hi. rewrite Er in Hi. apply elem_of_app in Hi as [Hi|Hi].
    + destruct (core_rb0 i Hi) as (x & Hx & Hok). eauto.
    + destruct k; [by inversion Hi|]. apply list_elem_of_singleton in Hi as ->.
      exists r. by rewrite lookup_insert_eq.
  - eapply list.Forall_impl; [exact core_log0|]. intros e (H1 & h & Hh & H2).
    split; simpl; [rewrite Em; apply elem_of_app; by left|]. exists h. split; [done|].
    revert H2. apply header_ok_ext; [|done]. intros r' off sz _ Hr'. split; [|done].
    simpl. rewrite Er. apply elem_of_app. by left.
  - eapply list.Forall_impl; [exact core_locals0|]. intros l (h & Hh & H1 & H2 & H3 & H4).
    exists h. cbn [ms rings msgs bytes next_obj]. split_and!; try done; try lia; [by apply Hln|].
    destruct (m_data h); [|done]. destruct H4 as (? & ? & ? & ?).
    split_and!; try done; try lia. by apply Hln.
Qed.

Lemma create_empty a b sz r :
  fr_ring_buffer_create a b sz = Some r ->
  rb_inv r /\ live r = [] /\ closed r = false /\ write_offset r = 0 /\ data_start r = 0.
Proof.
  intros H%create_any. destruct (create_inv _ _ H) as [Hi Hl]. split_and!; try done;
    revert H; unfold fr_ring_buffer_create; simpl; repeat case_decide; by intros [= <-].
Qed.

Lemma inv_add_ring k w pend log locals r :
  inv w pend log locals -> max (get_arrays k (ms w)) + 1 < MSG_ARRAY_SIZE ->
  rb_inv r /\ live r = [] /\ closed r = false /\ write_offset r = 0 /\ data_start r = 0 ->
  inv (World (add_slot k (next_obj w) (ms w)) (<[next_obj w := r]> (rings w)) (msgs w) (bytes w)
    (next_obj w + 2)) pend log locals.
Proof.
  intros (Hcore & Hmr & Hrb) Hlt (H1 & H2 & H3 & H4 & H5).
  assert (Ha : arr_ok (get_arrays k (ms w))) by (by destruct k).
  split; [by apply core_add_ring|]. destruct (arr_ok_add _ (next_obj w) Ha Hlt) as [Ha' _].
  unfold add_slot. destruct k; by split.
Qed.

Lemma add_ring_ok k w pend log locals :
  inv w pend log locals -> max (get_arrays k (ms w)) + 1 < MSG_ARRAY_SIZE ->
  wp (add_ring talloc_ok k) w (fun o w' => same_sizes w w' /\ inv w' pend log locals /\
    msgs w' = msgs w /\
    match o with None => True | Some id => id ∈ ids (get_arrays k (ms w')) end).
Proof.
  intros Hinv Hlt. pose proof Hinv as (Hcore & Hmr & Hrb).
  assert (Ha : arr_ok (get_arrays k (ms w))) by (by destruct k). pose proof Ha as (Hc & _).
  destruct (arr_slot _ (max (get_arrays k (ms w))) Ha ltac:(lia)) as (id & Hs & Hid).
  assert (Hr : is_Some (rings w !! id)).
  { open_core Hcore. destruct k; [destruct (core_mr0 _ Hid) as (x & Hx & _)
      |destruct (core_rb0 _ Hid) as (x & Hx & _)]; eauto. }
  destruct Hr as [r Hr]. apply wp_bind, wp_gets, wp_bind. eapply wp_get_ring; [exact Hs|].
  apply wp_bind. eapply wp_get_rb; [exact Hr|done|]. apply wp_bind.
  destruct (fr_ring_buffer_create (talloc_ok (next_obj w)) (talloc_ok (next_obj w + 1))
    (u64 (fr_ring_buffer_size r * 2))) as [r'|] eqn:E.
  - exists (Some (next_obj w)), (World (ms w) (<[next_obj w := r']> (rings w)) (msgs w) (bytes w) (next_obj w + 2)).
    split; [unfold ring_create; by rewrite E|]. 
    cbv beta iota zeta. apply wp_bind. rewrite decide_True by done. apply wp_ret, wp_bind, wp_upd_ms, wp_ret.
    split; [by destruct k|]. split; [exact (inv_add_ring k w _ _ _ r' Hinv Hlt (create_empty _ _ _ _ E))|].
    split; [done|]. simpl. destruct (arr_ok_add _ (next_obj w) Ha Hlt) as [_ Eids].
    rewrite get_set_arrays, Eids. apply elem_of_app. right. apply list_elem_of_here.
  - exists None, (World (ms w) (rings w) (msgs w) (bytes w) (next_obj w + 2)).
    split; [unfold ring_create; by rewrite E|]. apply wp_ret. split; [done|]. split; [|done].
    split; [apply core_next_obj; [done|lia]|done].
Qed.

(** *** [fr_message_get_message] *)

Lemma inv_set_ms w pend log locals s :
  inv w pend log locals -> message_size s = message_size (ms w) ->
  ms_mr s = ms_mr (ms w) -> ms_rb s = ms_rb (ms w) -> inv (set_ms s w) pend log locals.
Proof.
  intros (Hcore & Hmr & Hrb) E1 E2 E3. split; [by apply core_set_ms; rewrite ?E2, ?E3|].
  simpl. by rewrite E2, E3.
Qed.

Lemma fr_message_get_message_ok w log locals :
  inv w None log locals ->
  wp (fr_message_get_message NDEBUG talloc_ok uninit) w (fun r w' => got_after w log locals r.1 w').
Proof.
  intros Hinv. unfold fr_message_get_message. apply wp_bind, wp_upd_ms.
  apply (inv_set_ms w None log locals (incr_allocated (ms w))) in Hinv; [|done..].
  set (w0 := set_ms (incr_allocated (ms w)) w) in *.
  assert (Hfin : forall w' o (b : bool), got_after w0 log locals o w' ->
    wp (mret (o, b)) w' (fun r w' => got_after w log locals r.1 w')).
  { intros w' o b H. by apply wp_ret. }
  apply wp_bind, wp_gets. pose proof Hinv as (_ & Ha & _). pose proof Ha as (Hc & _).
  destruct (arr_slot _ _ Ha Hc) as (id & Hs & Hid). apply wp_bind. eapply wp_get_ring; [exact Hs|].
  apply wp_bind, wp_gets. apply (take_header_ok id _ w0 log locals); [done|done|..]; cbv beta iota; cycle 1.
  { intros m w1 E Hr Hm. eapply (init_header_ok true); [done|done|done|]. intros w2 E2 Hg.
    apply Hfin. split; [split; congruence|]. exists log. split; [apply collected_refl|done]. }
  intros w1 Hinv1 E1. apply wp_bind. eapply wp_mono; [by apply (fr_message_gc_ok w1 None log locals 128)|].
  intros _ w2 (Ss & log2 & Hcol & Hinv2 & _).
  assert (Hafter : forall o w', got_after w2 log2 locals o w' -> got_after w0 log locals o w').
  { intros o w' H. eapply got_after_trans; [|exact Hcol|exact H]. unfold same_sizes in *. by rewrite <- E1. }
  apply wp_bind, wp_gets. pose proof Hinv2 as (_ & Ha2 & _). pose proof Ha2 as (Hc2 & _).
  destruct (arr_slot _ _ Ha2 Hc2) as (id2 & Hs2 & Hid2). apply wp_bind. eapply wp_get_ring; [exact Hs2|].
  apply wp_bind. eapply wp_mono; [by apply (fr_message_ring_alloc_ok w2 log2 locals id2 true)|].
  intros o3 w3 (Hg3 & E3 & E3'). destruct o3 as [m|]; [by apply Hfin; auto|].
  destruct Hg3 as (Ss3 & log3 & Hcol3 & Hinv3). simpl in Hinv3.
  apply wp_bind, wp_gets, wp_bind.
  eapply wp_mono; [apply (alloc_anywhere_ok _ w3 log3 locals Hinv3)|].
  { apply list.Forall_forall. intros i. rewrite elem_of_reverse, elem_of_seqZ. lia. }
  intros o4 w4 (Hg4 & E4).
  assert (Hafter3 : forall o w', got_after w3 log3 locals o w' -> got_after w0 log locals o w').
  { intros o w' H. by eapply Hafter, got_after_trans. }
  destruct o4 as [m|]; [by apply Hfin; auto|].
  destruct (decide (MSG_ARRAY_SIZE <= _)) as [|Hlt]; [by apply Hfin; auto|].
  destruct Hg4 as (Ss4 & log4 & Hcol4 & Hinv4). simpl in Hinv4. apply wp_bind.
  eapply wp_mono; [apply (add_ring_ok MR w4 None log4 locals Hinv4); simpl; lia|].
  intros o5 w5 (Ss5 & Hinv5 & _ & Ho5).
  assert (Hafter5 : forall o w', got_after w5 log4 locals o w' -> got_after w0 log locals o w').
  { intros o w' H. eapply Hafter3, got_after_trans; [|exact Hcol4|exact H].
    destruct Ss4, Ss5. split; congruence. }
  destruct o5 as [id5|].
  - apply wp_bind. eapply wp_mono; [by apply (fr_message_ring_alloc_ok w5 log4 locals id5 false)|].
    intros o6 w6 (Hg6 & _). apply Hfin; auto.
  - apply Hfin, Hafter5. split; [done|]. exists log4. split; [apply collected_refl|done].
Qed.

(** *** Changing one message of the log *)

Lemma span_mr_change n i l1 e e' l2 :
  e_ptr e' = e_ptr e -> span (mr_block n i) (l1 ++ e' :: l2) = span (mr_block n i) (l1 ++ e :: l2).
Proof. intros E. rewrite !span_app, !span_cons. unfold mr_block, e_mr. by rewrite E. Qed.

Lemma core_change w pend pend' l1 e e' l2 locals h R :
  core w pend (l1 ++ e :: l2) locals -> e_ptr e' = e_ptr e ->
  (forall id, is_Some (R !! id) <-> is_Some (rings w !! id)) ->
  (forall i, i ∈ ids (ms_mr (ms w)) -> R !! i = rings w !! i) ->
  (forall i, i ∈ ids (ms_rb (ms w)) -> exists r, R !! i = Some r /\ rb_ok i (l1 ++ e' :: l2) r) ->
  header_ok w pend' e' h -> (forall p, p <> e_ptr e -> pend_of pend p = pend_of pend' p) ->
  ForallOrdPairs in_order (l1 ++ e' :: l2) ->
  core (set_rings R (set_msg (e_ptr e) h w)) pend' (l1 ++ e' :: l2) locals.
Proof.
  intros HC. open_core HC. intros Ep HR Hmr Hrb Hh Hpend Hord.
  assert (Hin : e ∈ l1 ++ e :: l2) by (apply elem_of_app; right; apply list_elem_of_here).
  assert (Hptrs : map e_ptr (l1 ++ e' :: l2) = map e_ptr (l1 ++ e :: l2)).
  { rewrite !map_app. simpl. by rewrite Ep. }
  rewrite list.Forall_forall in core_log0. destruct (core_log0 e Hin) as [Hemr _].
  assert (Hold : forall x, x ∈ l1 ++ l2 -> entry_ok (set_rings R (set_msg (e_ptr e) h w)) pend' x).
  { intros x Hx. assert (Hne : e_ptr x <> e_ptr e).
    { rewrite map_app in core_ptrs0. simpl in core_ptrs0. apply NoDup_middle_inv in core_ptrs0.
      intros E. apply core_ptrs0. rewrite <- E, <- map_app. by apply list_elem_of_fmap_2. }
    destruct (core_log0 x) as (H1 & h' & Hh' & H2).
    { rewrite elem_of_app, elem_of_cons. apply elem_of_app in Hx. tauto. }
    split; [done|]. exists h'. simpl. rewrite lookup_insert_ne by done. split; [done|].
    revert H2. apply header_ok_ext; [done|auto]. }
  constructor; simpl; try done.
  - intros id r Hr. destruct (HR id) as [H _]. destruct H as [r' Hr']; [by exists r|]. eauto.
  - intros i Hi. destruct (core_mr0 i Hi) as (r & Hr & Hok). exists r. rewrite Hmr by done.
    split; [done|]. unfold mr_ok. by rewrite (span_mr_change _ _ _ e).
  - by rewrite Hptrs.
  - apply list.Forall_app. split; [|constructor].
    + apply list.Forall_forall. intros x Hx. apply Hold, elem_of_app. by left.
    + split; [unfold e_mr; by rewrite Ep|]. exists h. rewrite Ep. simpl. by rewrite lookup_insert_eq.
    + apply list.Forall_forall. intros x Hx. apply Hold, elem_of_app. by right.
  - eapply list.Forall_impl; [exact core_locals0|]. intros l (h' & Hh' & H1 & H2 & H3 & H4).
    assert (Hn : forall id, rings w !! id = None -> R !! id = None).
    { intros id Hid. apply eq_None_not_Some. rewrite HR, Hid. apply is_Some_None. }
    exists h'. simpl. rewrite lookup_insert_ne; cycle 1.
    { intros E. destruct (core_mr0 _ Hemr) as (r & Hr & _). unfold e_mr in Hr. rewrite E in Hr. congruence. }
    split_and!; auto. destruct (m_data h'); [|done]. destruct H4 as (? & ? & ? & ?). auto.
Qed.

Lemma rb_ok_same_block i l1 e e' l2 r :
  rb_block i e' = rb_block i e -> e_used e' = false -> rb_ok i (l1 ++ e :: l2) r -> rb_ok i (l1 ++ e' :: l2) r.
Proof.
  intros E Hu (H1 & H2 & H3 & H4). split_and!; try done.
  - by rewrite span_app, span_cons, E, <- span_cons, <- span_app.
  - by eapply suffixes_unused; [symmetry; exact E|done|].
Qed.

(** The message being allocated. *)
Definition blank (m : ptr) : entry := Entry m true None [].

Lemma pend_header w m h log locals :
  core w (Some (m, h)) (log ++ [blank m]) locals ->
  msgs w !! m = Some h /\ m_status h = FR_MESSAGE_USED.
Proof.
  intros HC. open_core HC. apply list.Forall_app in core_log0 as [_ H]. apply Forall_cons_1 in H as [H _].
  destruct H as (_ & h' & Hh' & Hs & _ & H). cbn [blank e_ptr e_used] in *. rewrite pend_of_eq in H.
  destruct H as [_ ->]. done.
Qed.

Lemma core_fail w m h log locals h' :
  core w (Some (m, h)) (log ++ [blank m]) locals -> m_status h' = FR_MESSAGE_DONE -> m_rb h' = None ->
  core (set_msg m h' w) None (log ++ [Entry m false None []]) locals.
Proof.
  intros Hcore Hs Hr. open_core Hcore.
  apply (core_change w (Some (m, h)) None log (blank m) (Entry m false None []) [] locals h' (rings w)); try done.
  - intros i Hi. destruct (core_rb0 i Hi) as (r & Hr' & Hok). exists r. split; [done|].
    by eapply rb_ok_same_block; [| |exact Hok].
  - intros p Hp. apply pend_of_ne. by apply not_eq_sym.
  - apply pairs_app in core_order0 as (H1 & _ & _). apply pairs_app. split; [done|].
    split; [by repeat constructor|]. intros a b _ ->%list_elem_of_singleton E Hne. by destruct Hne.
Qed.

(** *** Reserving room for the data *)

(** The same request. *)
Definition same_req (h h' : fr_message_t) : Prop :=
  m_rb_size h' = m_rb_size h /\ m_data_size h' = m_data_size h.

(** The ring buffer of the message will honour the reservation. *)
Definition reserved (w : world) (h : fr_message_t) : Prop :=
  exists r off ring, m_rb h = Some r /\ m_data h = Some (r, off) /\ r ∈ ids (ms_rb (ms w)) /\
    rings w !! r = Some ring /\
    forall sz, 0 <= sz <= m_rb_size h -> exists ring', fr_ring_buffer_alloc ring sz = Some (ring', Some off).

Lemma inv_set_pend w m h log locals h' :
  inv w (Some (m, h)) (log ++ [blank m]) locals -> m_status h' = FR_MESSAGE_USED ->
  inv (set_msg m h' w) (Some (m, h')) (log ++ [blank m]) locals.
Proof. intros (Hcore & Ha) Hs. split; [by eapply core_set_pend|done]. Qed.

Lemma rb_ok_reserve i log r n :
  rb_ok i log r -> 0 <= n < 2 ^ 63 -> exists r' o, fr_ring_buffer_reserve r n = Some (r', o) /\ rb_ok i log r' /\
    forall off, o = Some off -> forall sz, 0 <= sz <= n -> exists r'', fr_ring_buffer_alloc r' sz = Some (r'', Some off).
Proof.
  intros (Hi & Hc & Hl & Hs) Hn.
  destruct (reserve_spec r n Hi Hn) as (r' & o & E & Hi' & _ & Ec & El & Ho).
  exists r', o. split; [done|]. split; [|by intros off ->].
  split; [done|]. split; [congruence|]. by rewrite El.
Qed.

Lemma try_reserve_ok w m h log locals id :
  inv w (Some (m, h)) (log ++ [blank m]) locals -> id ∈ ids (ms_rb (ms w)) -> 0 < m_rb_size h < 2 ^ 63 ->
  wp (try_reserve uninit m id) w (fun b w' => ms w' = ms w /\
    exists h', same_req h h' /\ inv w' (Some (m, h')) (log ++ [blank m]) locals /\ (b = true -> reserved w' h')).
Proof.
  intros Hinv Hid Hsz. pose proof Hinv as (Hcore & _). destruct (pend_header _ _ _ _ _ Hcore) as [Hh Hs].
  apply wp_bind. eapply wp_wr_msg; [exact Hh|].
  apply (inv_set_pend _ _ _ _ _ (with_rb (Some id) h)) in Hinv; [|done].
  set (w1 := set_msg m _ w) in *. pose proof Hinv as (Hcore1 & Ha1 & Hb1).
  apply wp_bind. eapply wp_rd_msg; [apply lookup_insert_eq|].
  open_core Hcore1. destruct (core_rb0 id Hid) as (r & Hr & Hok).
  destruct (rb_ok_reserve _ _ _ (m_rb_size h) Hok ltac:(lia)) as (r' & o & E & Hok' & Hal).
  apply wp_bind, wp_bind. eapply wp_on_rb; [exact Hr|exact E|]. apply wp_ret.
  assert (Hinv2 : inv (set_ring id r' w1) (Some (m, with_rb (Some id) h)) (log ++ [blank m]) locals).
  { split; [|done]. apply core_set_ring; [done|by rewrite Hr| |done].
    intros Hm. by destruct (core_mr_rb _ _ _ _ _ _ Hcore1 Hm Hid). }
  apply wp_bind. eapply wp_wr_msg; [apply lookup_insert_eq|]. apply wp_ret. split; [done|].
  eexists. split; [|split; [by eapply inv_set_pend|]]; [done|].
  intros Ho%bool_decide_eq_true_1. destruct o as [off|]; [|done]. exists id, off, r'. simpl.
  rewrite lookup_insert_eq. split_and!; try done. by apply Hal.
Qed.

Lemma try_slot_ok w m h log locals i :
  inv w (Some (m, h)) (log ++ [blank m]) locals -> 0 <= i <= max (ms_rb (ms w)) -> 0 < m_rb_size h < 2 ^ 63 ->
  wp (try_slot NDEBUG uninit m i) w (fun b w' => ms w' = ms w /\
    exists h', same_req h h' /\ inv w' (Some (m, h')) (log ++ [blank m]) locals /\ (b = true -> reserved w' h')).
Proof.
  intros Hinv Hi Hsz. pose proof Hinv as (_ & _ & Ha). destruct (arr_slot _ _ Ha Hi) as (id & Hs & Hid).
  apply wp_bind. eapply wp_get_slot; [exact Hs|]. apply wp_bind, wp_assert; [done|].
  apply wp_bind. eapply wp_lift; [done|]. by apply try_reserve_ok.
Qed.

(** The outcome of the search for room. *)
Definition room (w : world) (m : ptr) (h : fr_message_t) (log : list entry) (locals : list local)
    (o : option ptr) (w' : world) : Prop :=
  same_sizes w w' /\ exists log', collected log log' /\
  match o with
  | Some m' => m' = m /\ exists h', same_req h h' /\
      inv w' (Some (m, h')) (log' ++ [blank m]) locals /\ reserved w' h'
  | None => inv w' None (log' ++ [Entry m false None []]) locals
  end.

Lemma room_trans w m h log locals w1 h1 log1 o w2 :
  same_sizes w w1 -> collected log log1 -> same_req h h1 -> room w1 m h1 log1 locals o w2 ->
  room w m h log locals o w2.
Proof.
  intros [S1 S2] Hc [E1 E2] ([T1 T2] & log2 & Hc2 & Ho). split; [split; congruence|].
  exists log2. split; [by eapply collected_trans|]. destruct o as [m'|]; [|done].
  destruct Ho as (-> & h' & [F1 F2] & H). split; [done|]. exists h'. split; [split; congruence|done].
Qed.

Lemma room_found w m h log locals h' w' :
  ms w' = ms w -> same_req h h' -> inv w' (Some (m, h')) (log ++ [blank m]) locals -> reserved w' h' ->
  room w m h log locals (Some m) w'.
Proof.
  intros E Hs Hi Hr. split; [unfold same_sizes; by rewrite E|]. exists log. split; [apply collected_refl|].
  split; [done|]. by exists h'.
Qed.

Lemma reserve_anywhere_ok m idx : forall w h log locals,
  inv w (Some (m, h)) (log ++ [blank m]) locals -> 0 < m_rb_size h < 2 ^ 63 ->
  Forall (fun i => 0 <= i <= max (ms_rb (ms w))) idx ->
  wp (reserve_anywhere NDEBUG uninit m idx) w (fun b w' => same_sizes w w' /\
    max (ms_rb (ms w')) = max (ms_rb (ms w)) /\
    exists h', same_req h h' /\ inv w' (Some (m, h')) (log ++ [blank m]) locals /\ (b = true -> reserved w' h')).
Proof.
  induction idx as [|i idx IH]; intros w h log locals Hinv Hsz Hidx; cbn [reserve_anywhere].
  { apply wp_ret. split; [done|]. split; [done|]. by exists h. }
  apply Forall_cons_1 in Hidx as [Hi Hidx]. apply wp_bind.
  eapply wp_mono; [by apply (try_slot_ok w m h log locals i)|].
  intros b w' (E & h' & Hs & Hinv' & Hb). destruct b.
  - apply wp_bind, wp_upd_ms, wp_ret. simpl. rewrite E. split; [done|]. split; [done|].
    exists h'. split; [done|]. split; [|intros _; destruct (Hb eq_refl) as (r & off & ring & H); rewrite E in H; by exists r, off, ring].
    rewrite <- E. apply (core_set_current RB); [done|]. simpl. by rewrite E.
  - pose proof Hs as [S1 S2]. eapply wp_mono; [apply (IH w' h' log locals Hinv'); [by rewrite S1|by rewrite E]|].
    intros b w2 (H1 & H2 & h2 & [T1 T2] & H3). unfold same_sizes in *. rewrite E in H1, H2.
    split; [done|]. split; [done|]. exists h2. split; [split; congruence|done].
Qed.

Lemma reserve_failed_ok w m h log locals :
  inv w (Some (m, h)) (log ++ [blank m]) locals ->
  wp (reserve_failed uninit m) w (room w m h log locals).
Proof.
  intros (Hcore & Ha). destruct (pend_header _ _ _ _ _ Hcore) as [Hh Hs].
  apply wp_bind. eapply wp_wr_msg; [exact Hh|]. apply wp_bind. eapply wp_wr_msg; [apply lookup_insert_eq|].
  apply wp_ret. split; [done|]. exists log. split; [apply collected_refl|].
  unfold set_msg. simpl. rewrite insert_insert_eq. split; [|done]. by eapply core_fail.
Qed.

Lemma alloc_rb_ok w m h log locals :
  inv w (Some (m, h)) (log ++ [blank m]) locals -> 0 < m_rb_size h < 2 ^ 63 ->
  max (ms_rb (ms w)) + 1 < MSG_ARRAY_SIZE ->
  wp (alloc_rb talloc_ok uninit m) w (room w m h log locals).
Proof.
  intros Hinv Hsz Hlt. apply wp_bind.
  eapply wp_mono; [by apply (add_ring_ok RB w (Some (m, h)) (log ++ [blank m]) locals)|].
  intros o w1 (Hs1 & Hinv1 & _ & Ho).
  assert (Hfin : forall h2 o w2 w3, ms w2 = ms w1 -> same_req h h2 ->
    room w2 m h2 log locals o w3 -> room w m h log locals o w3).
  { intros h2 o' w2 w3 E Hr H. eapply room_trans; [|apply collected_refl|exact Hr|exact H].
    unfold same_sizes in *. by rewrite E. }
  destruct o as [id|].
  - apply wp_bind. eapply wp_mono; [by apply (try_reserve_ok w1 m h log locals id)|].
    intros b w2 (E & h' & Hs & Hinv2 & Hb). destruct b.
    + apply wp_ret. apply (Hfin h' _ w2); [done|done|]. by eapply room_found; auto.
    + eapply wp_mono; [by apply reserve_failed_ok|]. intros o w3 H. by eapply (Hfin h').
  - eapply wp_mono; [by apply reserve_failed_ok|]. intros o w3 H. by eapply (Hfin h).
Qed.

Lemma reserve_elsewhere_ok w m h log locals :
  inv w (Some (m, h)) (log ++ [blank m]) locals -> 0 < m_rb_size h < 2 ^ 63 ->
  wp (reserve_elsewhere NDEBUG talloc_ok uninit m) w (room w m h log locals).
Proof.
  intros Hinv Hsz. apply wp_bind, wp_gets, wp_bind.
  eapply wp_mono; [apply (reserve_anywhere_ok m _ w h log locals Hinv Hsz)|].
  { apply list.Forall_forall. intros i. rewrite elem_of_reverse, elem_of_seqZ. lia. }
  intros b w1 (Hs1 & Hmax & h1 & Hr1 & Hinv1 & Hb). pose proof Hr1 as [Esz _].
  assert (Hfin : forall o w2, room w1 m h1 log locals o w2 -> room w m h log locals o w2).
  { intros o w2 H. by eapply room_trans; [|apply collected_refl|exact Hr1|]. }
  destruct b.
  - apply wp_ret, Hfin. by eapply room_found; auto.
  - destruct (decide (MSG_ARRAY_SIZE <= max (ms_rb (ms w)) + 1)).
    + eapply wp_mono; [by apply reserve_failed_ok|]. auto.
    + eapply wp_mono; [apply alloc_rb_ok; [done|lia|lia]|]. auto.
Qed.

Lemma fr_message_get_ring_buffer_ok w m h log locals cleaned_up :
  inv w (Some (m, h)) (log ++ [blank m]) locals -> 0 < m_rb_size h < 2 ^ 63 ->
  wp (fr_message_get_ring_buffer NDEBUG talloc_ok uninit m cleaned_up) w (room w m h log locals).
Proof.
  intros Hinv Hsz. apply wp_bind, wp_gets, wp_bind. pose proof Hinv as (_ & _ & (Hc & _)).
  eapply wp_mono; [by apply (try_slot_ok w m h log locals)|].
  intros b w1 (E1 & h1 & Hr1 & Hinv1 & Hb). pose proof Hr1 as [Esz _].
  assert (Hfin : forall o w2, room w1 m h1 log locals o w2 -> room w m h log locals o w2).
  { intros o w2 H. eapply room_trans; [|apply collected_refl|exact Hr1|exact H]. unfold same_sizes. by rewrite E1. }
  destruct b; [apply wp_ret, Hfin; by eapply room_found; auto|].
  destruct cleaned_up; [eapply wp_mono; [apply reserve_elsewhere_ok; [done|lia]|auto]|].
  apply wp_bind, wp_gets. destruct (decide (max _ = 0)) as [E0|_].
  { eapply wp_mono; [apply alloc_rb_ok; [done|lia|by rewrite E0]|auto]. }
  apply wp_bind. eapply wp_mono; [by apply (fr_message_gc_ok w1 _ _ locals 128 Hinv1)|].
  intros _ w2 (Hs2 & log2' & Hcol & Hinv2 & _).
  destruct (collected_last _ _ _ Hcol eq_refl) as (log2 & -> & Hcol2).
  apply wp_bind, wp_gets, wp_bind. pose proof Hinv2 as (_ & _ & (Hc2 & _)).
  eapply wp_mono; [apply (try_slot_ok w2 m h1 log2 locals); [done|done|lia]|].
  intros b w3 (E3 & h3 & Hr3 & Hinv3 & Hb3). pose proof Hr3 as [Esz3 _].
  assert (Hfin3 : forall o w4, room w3 m h3 log2 locals o w4 -> room w m h log locals o w4).
  { intros o w4 H. eapply Hfin, room_trans; [|exact Hcol2|exact Hr3|exact H].
    unfold same_sizes in *. by rewrite E3. }
  destruct b; [apply wp_ret, Hfin3; by eapply room_found; auto|].
  eapply wp_mono; [apply reserve_elsewhere_ok; [done|lia]|auto].
Qed.

(** *** Reserving a message *)

Definition reserve_after (w : world) (n : Z) (log : list entry) (locals : list local)
    (o : option ptr) (w' : world) : Prop :=
  same_sizes w w' /\ exists log', collected log log' /\
  match o with
  | None => exists l, Forall (fun e => e_used e = false) l /\ inv w' None (log' ++ l) locals
  | Some m => exists h, inv w' (Some (m, h)) (log' ++ [blank m]) locals /\
      (NDEBUG = false -> m_data_size h = 0) /\
      if decide (n = 0) then NDEBUG = false -> m_rb h = None
      else m_rb_size h = CACHE_ALIGN n /\ reserved w' h
  end.

Lemma fr_message_reserve_ok w n log locals :
  inv w None log locals -> 0 <= n -> max_allocation (ms w) <= 2 ^ 30 ->
  wp (fr_message_reserve NDEBUG talloc_ok uninit n) w (reserve_after w n log locals).
Proof.
  intros Hinv Hn Hmax. apply wp_bind, wp_gets. destruct (decide (_ < n)).
  { apply wp_ret. split; [done|]. exists log. split; [apply collected_refl|]. exists [].
    split; [constructor|]. by rewrite app_nil_r. }
  apply wp_bind. eapply wp_mono; [by apply fr_message_get_message_ok|].
  intros [o c] w1 (Hs1 & log1 & Hcol1 & Hg). simpl in Hg. destruct o as [m|].
  2: { apply wp_ret. split; [done|]. exists log1. split; [done|]. exists [].
       split; [constructor|]. by rewrite app_nil_r. }
  destruct Hg as (h & Hh & Hz & Hinv1). destruct (decide (n = 0)) as [->|Hn0].
  { apply wp_ret. split; [done|]. exists log1. split; [done|]. exists h. split; [done|].
    split; [intros E; by rewrite Hz|]. rewrite decide_True by done. intros E. by rewrite Hz. }
  pose proof Hinv1 as [Hcore1 _]. destruct (pend_header _ _ _ _ _ Hcore1) as [Hm _].
  apply wp_bind. eapply wp_wr_msg; [exact Hm|].
  apply (inv_set_pend _ _ _ _ _ (with_rb_size (CACHE_ALIGN n) h)) in Hinv1; [|done].
  eapply wp_mono; [apply (fr_message_get_ring_buffer_ok _ m _ log1 locals c Hinv1)|].
  { simpl. pose proof (CACHE_ALIGN_bounds n). lia. }
  intros o w2 ([T1 T2] & log2 & Hcol2 & Ho). destruct Hs1 as [S1 S2].
  split; [split; simpl in *; congruence|]. exists log2. split; [by eapply collected_trans|].
  destruct o as [m'|].
  - destruct Ho as (-> & h' & [E1 E2] & Hinv2 & Hr). exists h'. split; [done|].
    split; [intros E; rewrite E2; simpl; by rewrite Hz|]. rewrite decide_False by done. done.
  - exists [Entry m false None []]. split; [by repeat constructor|done].
Qed.

(** *** Allocating the data *)

Lemma rb_ok_alloc i log m r sz off data ring' :
  rb_ok i (log ++ [blank m]) r -> 0 < sz < 2 ^ 63 -> fr_ring_buffer_alloc r sz = Some (ring', Some off) ->
  rb_ok i (log ++ [Entry m true (Some (i, off, sz)) data]) ring'.
Proof.
  intros (Hi & Hc & Hl & Hs) Hsz E. destruct (alloc_spec r sz Hi ltac:(lia)) as (r' & o & E' & Hi' & _ & Ec & Ho).
  rewrite E in E'. injection E' as <- <-. destruct Ho as (_ & _ & Hl' & _).
  assert (Eb : rb_block i (Entry m true (Some (i, off, sz)) data) = seqZ off sz).
  { unfold rb_block. simpl. by rewrite decide_True. }
  rewrite span_app, length_app in Hl. simpl in Hl. rewrite Nat.add_0_r in Hl.
  split; [done|]. split; [congruence|]. rewrite Hl'. split.
  - by rewrite span_app, span_cons, span_nil, app_nil_r, Eb, !length_app, Hl.
  - rewrite <- Eb. apply suffixes_alloc. apply suffixes_skip in Hs; [|done]. by rewrite app_nil_r in Hs.
Qed.

Lemma rb_ok_alloc_other i log m r r' off sz data :
  i <> r' -> rb_ok i (log ++ [blank m]) r -> rb_ok i (log ++ [Entry m true (Some (r', off, sz)) data]) r.
Proof.
  intros Hne (Hi & Hc & Hl & Hs).
  assert (Eb : rb_block i (Entry m true (Some (r', off, sz)) data) = []).
  { apply rb_block_other. unfold e_rb. simpl. congruence. }
  split; [done|]. split; [done|]. split.
  - rewrite Hl. by rewrite !span_app, !span_cons, Eb.
  - apply suffixes_skip; [done|]. by apply suffixes_skip in Hs.
Qed.

(** The data of a new message. *)
Definition allocated_msg (w : world) (m : ptr) (n : Z) (e : entry) : Prop :=
  exists r off, e = Entry m true (Some (r, off, CACHE_ALIGN n)) (load (r, off) n w).

(** Turning the reservation of [m] into its data. *)
Lemma alloc_data_ok {A} (k0 k1 : M A) w m h log locals n Q :
  inv w (Some (m, h)) (log ++ [blank m]) locals -> reserved w h ->
  0 < n <= m_rb_size h -> m_rb_size h < 2 ^ 62 -> m_rb_size h `mod` 64 = 0 ->
  (forall w' e, ms w' = ms w -> allocated_msg w' m n e -> inv w' None (log ++ [e]) locals -> wp k1 w' Q) ->
  wp (id ← lift (m_rb h);
      p ← ring_alloc id (CACHE_ALIGN n);
      fr_assert NDEBUG (p <> None);;
      match p with
      | None => k0
      | Some _ =>
          fr_assert NDEBUG (p = m_data h);;
          wr uninit (with_data_size n) m;; wr uninit (with_rb_size (CACHE_ALIGN n)) m;; k1
      end) w Q.
Proof.
  intros (Hcore & Ha) (r & off & ring & Er & Ed & Hr & Hring & Hal) Hn Hsz Hmod HQ.
  destruct (pend_header _ _ _ _ _ Hcore) as [Hh Hs].
  assert (Hsz' : 0 < CACHE_ALIGN n <= m_rb_size h).
  { pose proof (CACHE_ALIGN_bounds n). pose proof (CACHE_ALIGN_fits n (m_rb_size h)). lia. }
  rewrite Er. apply wp_bind. eapply wp_lift; [done|].
  destruct (Hal (CACHE_ALIGN n) ltac:(lia)) as [ring' E].
  apply wp_bind, wp_bind. eapply wp_on_rb; [exact Hring|exact E|]. apply wp_ret.
  apply wp_bind, wp_assert; [done|]. apply wp_bind, wp_assert; [by rewrite Ed|].
  apply wp_bind. eapply wp_wr_msg; [exact Hh|]. apply wp_bind. eapply wp_wr_msg; [apply lookup_insert_eq|].
  apply (HQ _ (Entry m true (Some (r, off, CACHE_ALIGN n)) (load (r, off) n w))); [done|by exists r, off|].
  split; [|done]. unfold set_msg. simpl. rewrite insert_insert_eq.
  open_core Hcore.
  apply (core_change w (Some (m, h)) None log (blank m) _ [] locals
    (with_rb_size (CACHE_ALIGN n) (with_data_size n h)) (<[r := ring']> (rings w))); try done.
  - intros id. by rewrite same_rings by (by rewrite Hring).
  - intros i Hi. rewrite lookup_insert_ne; [done|]. apply not_eq_sym. by apply (core_mr_rb _ _ _ _ _ _ Hcore).
  - intros i Hi. destruct (core_rb0 i Hi) as (r0 & Hr0 & Hok).
    destruct (decide (i = r)) as [->|Hne].
    + exists ring'. rewrite lookup_insert_eq. split; [done|]. eapply rb_ok_alloc; [exact Hok|lia|congruence].
    + exists r0. rewrite lookup_insert_ne by done. split; [done|]. by apply rb_ok_alloc_other.
  - pose proof (CACHE_ALIGN_bounds n). split; [done|]. simpl. split_and!; try done; lia.
  - intros p Hp. apply pend_of_ne. by apply not_eq_sym.
  - apply pairs_app in core_order0 as (H1 & _ & _). apply pairs_app. split; [done|].
    split; [by repeat constructor|]. by intros a b _ ->%list_elem_of_singleton _ _ _ ?.
Qed.

(** A reserved message, as the client holds it. *)
Definition pending_ok (w : world) (m : ptr) (log : list entry) (locals : list local) : Prop :=
  exists h, inv w (Some (m, h)) (log ++ [blank m]) locals /\ reserved w h /\
    (NDEBUG = false -> m_data_size h = 0) /\ 0 < m_rb_size h < 2 ^ 62 /\ m_rb_size h `mod` 64 = 0.

Lemma wp_assert_debug P `{!Decision P} w Q :
  (NDEBUG = false -> P) -> Q () w -> wp (fr_assert NDEBUG P) w Q.
Proof.
  intros HP HQ. unfold fr_assert. destruct NDEBUG; [by apply wp_ret|].
  rewrite decide_True by auto. by apply wp_ret.
Qed.

Lemma message_alloc_ok w m log locals n h :
  pending_ok w m log locals -> msgs w !! m = Some h -> 0 < n <= m_rb_size h ->
  wp (message_alloc NDEBUG uninit m n) w (fun o w' => o = Some m /\ ms w' = ms w /\
    exists e, allocated_msg w' m n e /\ inv w' None (log ++ [e]) locals).
Proof.
  intros (h' & Hinv & Hres & Hds & Hsz & Hmod) Hh Hn. pose proof Hinv as [Hcore _].
  destruct (pend_header _ _ _ _ _ Hcore) as [Hh' Hs]. assert (h' = h) as -> by congruence.
  pose proof Hres as (r & off & ring & Er & Ed & _). apply wp_bind. eapply wp_rd_msg; [exact Hh|].
  apply wp_bind, wp_assert; [done|]. apply wp_bind, wp_assert; [by rewrite Er|].
  apply wp_bind, wp_assert; [by rewrite Ed|]. apply wp_bind, wp_assert_debug; [done|].
  apply wp_bind, wp_assert; [lia|].
  eapply alloc_data_ok; [exact Hinv|done|done|lia|done|]. intros w' e E He Hinv'. apply wp_ret. eauto.
Qed.

(** The outcome of reserving a message. *)
Definition reserve_out (w : world) (log : list entry) (locals : list local) (o : option ptr) (w' : world) : Prop :=
  same_sizes w w' /\ exists log', collected log log' /\
  match o with
  | None => exists l, Forall (fun e => e_used e = false) l /\ inv w' None (log' ++ l) locals
  | Some m => pending_ok w' m log' locals
  end.

Lemma fr_message_reserve_pending w n log locals :
  inv w None log locals -> 0 < n -> max_allocation (ms w) <= 2 ^ 30 ->
  wp (fr_message_reserve NDEBUG talloc_ok uninit n) w (reserve_out w log locals).
Proof.
  intros Hinv Hn Hmax.
  destruct (decide (max_allocation (ms w) < n)) as [Hlt|Hle].
  { apply wp_bind, wp_gets. rewrite decide_True by done. apply wp_ret. split; [done|]. exists log.
    split; [apply collected_refl|]. exists []. split; [constructor|]. by rewrite app_nil_r. }
  eapply wp_mono; [apply fr_message_reserve_ok; [exact Hinv|lia|done]|].
  intros o w' (Hs & log' & Hcol & Ho). split; [done|]. exists log'. split; [done|]. destruct o as [m|]; [|done].
  destruct Ho as (h & H1 & H2 & H3). rewrite decide_False in H3 by lia. destruct H3 as [E H3].
  exists h. pose proof (CACHE_ALIGN_bounds n). rewrite E. split_and!; try done; lia.
Qed.

(** The outcome of allocating a message. *)
Definition alloc_out (w : world) (n : Z) (log : list entry) (locals : list local) (o : option ptr) (w' : world) : Prop :=
  same_sizes w w' /\ exists log', collected log log' /\
  match o with
  | None => exists l, Forall (fun e => e_used e = false) l /\ inv w' None (log' ++ l) locals
  | Some m => exists e, allocated_msg w' m n e /\ inv w' None (log' ++ [e]) locals
  end.

Lemma fr_message_alloc_ok w n log locals :
  inv w None log locals -> 0 < n -> max_allocation (ms w) <= 2 ^ 30 ->
  wp (fr_message_alloc NDEBUG talloc_ok uninit None n) w (alloc_out w n log locals).
Proof.
  intros Hinv Hn Hmax.
  destruct (decide (max_allocation (ms w) < n)) as [Hlt|Hle].
  { apply wp_bind, wp_bind, wp_gets. rewrite decide_True by done. apply wp_ret, wp_ret. split; [done|]. exists log.
    split; [apply collected_refl|]. exists []. split; [constructor|]. by rewrite app_nil_r. }
  apply wp_bind. eapply wp_mono; [apply fr_message_reserve_ok; [exact Hinv|lia|done]|].
  intros o w1 (Hs & log' & Hcol & Ho). destruct o as [m|].
  2: { apply wp_ret. split; [done|]. exists log'. eauto. }
  destruct Ho as (h & H1 & H2 & H3). rewrite decide_False in H3 by lia. destruct H3 as [E H3].
  pose proof (CACHE_ALIGN_bounds n). destruct (pend_header _ _ _ _ _ (proj1 H1)) as [Hm _].
  eapply wp_mono; [apply (message_alloc_ok w1 m log' locals n h)|].
  - exists h. rewrite E. split_and!; try done; lia.
  - done.
  - lia.
  - intros o w2 (-> & E2 & e & He & Hinv2). split; [unfold same_sizes in *; by rewrite E2|]. eauto.
Qed.

Lemma fr_message_alloc_reserve_ok w m log locals n k h :
  pending_ok w m log locals -> msgs w !! m = Some h -> 0 < n <= m_rb_size h -> 0 < k ->
  max_allocation (ms w) <= 2 ^ 30 ->
  wp (fr_message_alloc_reserve NDEBUG talloc_ok uninit m n 0 k) w (fun o w' =>
    exists w1 e, ms w1 = ms w /\ allocated_msg w1 m n e /\ reserve_out w1 (log ++ [e]) locals o w').
Proof.
  intros (h' & Hinv & Hres & Hds & Hsz & Hmod) Hh Hn Hk Hmax. pose proof Hinv as [Hcore _].
  destruct (pend_header _ _ _ _ _ Hcore) as [Hh' Hs]. assert (h' = h) as -> by congruence.
  pose proof Hres as (r & off & ring & Er & Ed & _). apply wp_bind. eapply wp_rd_msg; [exact Hh|].
  apply wp_bind, wp_assert; [done|]. apply wp_bind, wp_assert; [by rewrite Er|].
  apply wp_bind, wp_assert; [by rewrite Ed|]. apply wp_bind, wp_assert; [lia|].
  eapply alloc_data_ok; [exact Hinv|done|done|lia|done|]. intros w' e E He Hinv'.
  rewrite decide_True by done. eapply wp_mono; [apply fr_message_reserve_pending; [exact Hinv'|done|by rewrite E]|].
  intros o w2 Ho. by exists w', e.
Qed.

(** *** Marking a message as done *)

(** Neither the set nor the ring buffers changed. *)
Definition quiet (w w' : world) : Prop := ms w' = ms w /\ rings w' = rings w.

Definition unuse (e : entry) : entry := Entry (e_ptr e) false (e_block e) (e_data e).

Lemma core_done w pend l1 e l2 locals h :
  core w pend (l1 ++ e :: l2) locals -> msgs w !! e_ptr e = Some h -> pend_of pend (e_ptr e) = None ->
  (forall a, a ∈ l1 -> e_used a = true -> e_rb a = e_rb e -> e_rb e <> None -> e_mr a = e_mr e) ->
  core (set_msg (e_ptr e) (with_status FR_MESSAGE_DONE h) w) pend (l1 ++ unuse e :: l2) locals.
Proof.
  intros Hcore Hh Hp Hord. open_core Hcore.
  apply (core_change w pend pend l1 e (unuse e) l2 locals _ (rings w)); try done.
  - intros i Hi. destruct (core_rb0 i Hi) as (r & Hr & Hok). exists r. split; [done|].
    by eapply rb_ok_same_block; [| |exact Hok].
  - rewrite list.Forall_forall in core_log0. destruct (core_log0 e) as (_ & h' & Hh' & _ & H).
    { apply elem_of_app. right. apply list_elem_of_here. }
    assert (h' = h) as -> by congruence. split; [done|]. simpl.
    destruct (e_block e) as [[[r off] sz]|]; [by split_and!; try apply H|].
    rewrite Hp in *. by destruct H as (? & ? & _).
  - apply pairs_app in core_order0 as (H1 & H2 & H3). inversion H2 as [|? ? H4 H5]; subst.
    apply pairs_app. split; [done|]. split.
    + constructor; [|done]. apply list.Forall_forall. intros b _ _ _ [=].
    + intros a b Ha [->|Hb]%elem_of_cons; [|by apply H3; [|apply list_elem_of_further]].
      intros E Hne Hu _. apply Hord; try done. by rewrite E in Hne.
Qed.

Lemma used_header w pend l1 e l2 locals :
  core w pend (l1 ++ e :: l2) locals -> e_used e = true ->
  exists h, msgs w !! e_ptr e = Some h /\ m_status h = FR_MESSAGE_USED /\ header_ok w pend e h.
Proof.
  intros HC. open_core HC. intros Hu. rewrite list.Forall_forall in core_log0. destruct (core_log0 e) as (_ & h & Hh & Hok).
  { apply elem_of_app. right. apply list_elem_of_here. }
  exists h. split; [done|]. split; [|done]. destruct Hok as [-> _]. by rewrite Hu.
Qed.

Lemma fr_message_done_ok w pend l1 e l2 locals :
  inv w pend (l1 ++ e :: l2) locals -> e_used e = true -> pend_of pend (e_ptr e) = None ->
  (forall a, a ∈ l1 -> e_used a = true -> e_rb a = e_rb e -> e_rb e <> None -> e_mr a = e_mr e) ->
  wp (fr_message_done NDEBUG uninit (e_ptr e)) w (fun r w' => r = 0 /\
    quiet w w' /\ inv w' pend (l1 ++ unuse e :: l2) locals).
Proof.
  intros (Hcore & Ha) Hu Hp Hord. destruct (used_header _ _ _ _ _ _ Hcore Hu) as (h & Hh & Hs & _).
  apply wp_bind. eapply wp_rd_msg; [exact Hh|]. rewrite Hs.
  apply wp_bind, wp_assert; [done|]. apply wp_bind, wp_assert; [done|].
  rewrite decide_True by done. apply wp_bind. eapply wp_wr_msg; [exact Hh|]. apply wp_ret.
  split; [done|]. split; [done|]. split; [|done]. by apply core_done.
Qed.

(** *** Data bytes *)

Lemma store_other b p l q : p.1 <> q.1 \/ q.2 < p.2 -> store b p l !! q = b !! q.
Proof.
  revert b p. induction l as [|v l IH]; intros b p Hq; [done|]. simpl.
  rewrite IH by (simpl; lia). rewrite lookup_partial_alter_ne; [done|]. intros ->. lia.
Qed.
Lemma store_after b p l q : p.2 + Z.of_nat (length l) <= q.2 -> store b p l !! q = b !! q.
Proof.
  revert b p. induction l as [|v l IH]; intros b p Hq; [done|]. simpl in *.
  rewrite IH by (simpl; lia). rewrite lookup_partial_alter_ne; [done|]. intros ->. lia.
Qed.

Lemma store_disjoint (w w' : world) p l q n :
  bytes w' = store (bytes w) p l ->
  (p.1 <> q.1 \/ p.2 + Z.of_nat (length l) <= q.2 \/ q.2 + n <= p.2) -> load q n w' = load q n w.
Proof.
  intros E H. unfold load. apply map_ext_in. intros i Hi%list_elem_of_In%elem_of_seqZ. rewrite E.
  destruct H as [H|[H|H]]; [apply store_other; by left|apply store_after; simpl; lia|].
  apply store_other. right. simpl. lia.
Qed.

Lemma load_length p n w : 0 <= n -> length (load p n w) = Z.to_nat n.
Proof. intros H. unfold load. by rewrite length_map, length_seqZ. Qed.

Lemma load_cons p n w : 0 < n -> load p n w = bytes w !! p :: load (p.1, p.2 + 1) (n - 1) w.
Proof.
  intros Hn. unfold load. rewrite seqZ_cons by lia. simpl. rewrite Z.add_0_r. destruct p as [r o]. f_equal.
  rewrite <- (fmap_add_seqZ 1 0), <- list_fmap_compose. apply map_ext. intros i. simpl. do 2 f_equal. lia.
Qed.

Lemma load_store b p l : forall w, bytes w = store b p l -> load p (Z.of_nat (length l)) w = l.
Proof.
  revert b p. induction l as [|v l IH]; intros b p w E; [done|]. rewrite load_cons by (simpl; lia).
  f_equal.
  - rewrite E. simpl. rewrite store_other by (simpl; lia). apply lookup_partial_alter_eq.
  - replace (Z.of_nat (length (v :: l)) - 1) with (Z.of_nat (length l)) by (simpl; lia).
    by eapply IH.
Qed.

(** *** Blocks of messages in use *)

(** They are inside their ring buffer and followed by those of later messages. *)
Lemma used_block w pend l1 e l2 locals r off sz :
  core w pend (l1 ++ e :: l2) locals -> e_used e = true -> e_block e = Some (r, off, sz) ->
  exists ring x, rings w !! r = Some ring /\ rb_inv ring /\
    live ring = x ++ seqZ off sz ++ span (rb_block r) l2 /\ 0 < sz /\ 0 <= off /\ off + sz <= size ring.
Proof.
  intros Hcore Hu Eb. destruct (used_header _ _ _ _ _ _ Hcore Hu) as (h & _ & _ & _ & Hok).
  rewrite Eb in Hok. destruct Hok as (Hr & _ & _ & _ & _ & Hsz & _).
  open_core Hcore. destruct (core_rb0 r Hr) as (ring & Hring & Hi & _ & _ & Hsuf).
  apply suffixes_app in Hsuf as [Hsuf _]. simpl in Hsuf. destruct Hsuf as [Hsuf _].
  assert (Eb' : rb_block r e = seqZ off sz) by (unfold rb_block; by rewrite Eb, decide_True).
  destruct (Hsuf Hu) as [x Hx]. { rewrite Eb', seqZ_cons by lia. done. }
  rewrite span_cons, Eb' in Hx. exists ring, x. split_and!; try done; try lia.
  - pose proof (live_range _ Hi) as Hl. rewrite Hx, !list.Forall_app in Hl. destruct Hl as (_ & Hl & _).
    rewrite list.Forall_forall in Hl. apply (Hl off). apply elem_of_seqZ. lia.
  - pose proof (live_range _ Hi) as Hl. rewrite Hx, !list.Forall_app in Hl. destruct Hl as (_ & Hl & _).
    rewrite list.Forall_forall in Hl. specialize (Hl (off + sz - 1)). rewrite elem_of_seqZ in Hl. lia.
Qed.

(** Runs of a list without duplicates. *)
Lemma runs_disjoint (x y z : list Z) a n b m :
  NoDup (x ++ seqZ a n ++ y ++ seqZ b m ++ z) -> 0 < n -> 0 < m -> a + n <= b \/ b + m <= a.
Proof.
  intros H Hn Hm. destruct (decide (a + n <= b)); [by left|]. destruct (decide (b + m <= a)); [by right|].
  exfalso. apply list.NoDup_app in H as (_ & _ & H). apply list.NoDup_app in H as (_ & H & _).
  apply (H (Z.max a b)); [apply elem_of_seqZ; lia|].
  rewrite !elem_of_app. right; left. apply elem_of_seqZ. lia.
Qed.

Lemma used_disjoint w pend l1 e1 l2 e2 l3 locals r off1 sz1 off2 sz2 :
  core w pend (l1 ++ e1 :: l2 ++ e2 :: l3) locals -> e_used e1 = true -> e_used e2 = true ->
  e_block e1 = Some (r, off1, sz1) -> e_block e2 = Some (r, off2, sz2) ->
  off1 + sz1 <= off2 \/ off2 + sz2 <= off1.
Proof.
  intros Hcore H1 H2 E1 E2.
  destruct (used_block _ _ _ _ _ _ _ _ _ Hcore H1 E1) as (ring & x & Hr & Hi & Hl & Hsz1 & _).
  assert (Hcore' : core w pend ((l1 ++ e1 :: l2) ++ e2 :: l3) locals) by (by rewrite <- app_assoc).
  destruct (used_block _ _ _ _ _ _ _ _ _ Hcore' H2 E2) as (_ & _ & _ & _ & _ & Hsz2 & _).
  apply live_NoDup in Hi. rewrite Hl, span_app, span_cons in Hi.
  assert (Eb : rb_block r e2 = seqZ off2 sz2) by (unfold rb_block; by rewrite E2, decide_True).
  rewrite Eb in Hi. by apply (runs_disjoint _ _ _ _ _ _ _ Hi).
Qed.

(** *** Writing data *)

Definition set_bytes (b : gmap ptr Z) (w : world) : world :=
  World (ms w) (rings w) (msgs w) b (next_obj w).
Definition set_data (d : list (option Z)) (e : entry) : entry := Entry (e_ptr e) (e_used e) (e_block e) d.

Lemma suffixes_data r data l e d l' :
  suffixes r data (l ++ e :: l') -> suffixes r data (l ++ set_data d e :: l').
Proof.
  rewrite !suffixes_app. simpl.
  assert (E : forall k, span (rb_block r) (k ++ set_data d e :: l') = span (rb_block r) (k ++ e :: l')).
  { intros k. by rewrite !span_app, !span_cons. }
  intros ((H1 & H2) & H3). split; [by split|]. intros l1 a l2 Hl Hu Ha.
  destruct (H3 l1 a l2 Hl Hu Ha) as [x ->]. exists x. by rewrite !span_cons, E.
Qed.

Lemma core_set_bytes w pend l1 e l2 locals b d :
  core w pend (l1 ++ e :: l2) locals -> entry_ok (set_bytes b w) pend (set_data d e) ->
  (forall x r off sz n, x ∈ l1 ++ l2 -> e_used x = true -> e_block x = Some (r, off, sz) -> n <= sz ->
     load (r, off) n (set_bytes b w) = load (r, off) n w) ->
  (forall p n, rings w !! p.1 = None -> load p n (set_bytes b w) = load p n w) ->
  core (set_bytes b w) pend (l1 ++ set_data d e :: l2) locals.
Proof.
  intros HC. open_core HC. intros He Hx Hloc.
  assert (Hptrs : map e_ptr (l1 ++ set_data d e :: l2) = map e_ptr (l1 ++ e :: l2)).
  { by rewrite !map_app. }
  assert (Hold : forall x, x ∈ l1 ++ l2 -> entry_ok (set_bytes b w) pend x).
  { intros x Hin. rewrite list.Forall_forall in core_log0. destruct (core_log0 x) as (H1 & h & Hh & Hs & H2).
    { rewrite elem_of_app, elem_of_cons. apply elem_of_app in Hin. tauto. }
    split; [done|]. exists h. split; [done|]. split; [done|].
    destruct (e_block x) as [[[r off] sz]|] eqn:Eb; [|done].
    destruct H2 as (A1 & A2 & A3 & A4 & A5 & A6 & A7 & A8). split_and!; try done; try lia.
    intros Hu. rewrite (Hx x r off sz); [auto|done|done|done|lia]. }
  constructor; simpl; try done.
  - intros i Hi. destruct (core_mr0 i Hi) as (r & Hr & Hok). exists r. split; [done|]. unfold mr_ok.
    by rewrite (span_mr_change _ _ _ e).
  - intros i Hi. destruct (core_rb0 i Hi) as (r & Hr & A1 & A2 & A3 & A4). exists r. split; [done|].
    split_and!; try done; [|by apply suffixes_data]. by rewrite A3, !span_app, !span_cons.
  - by rewrite Hptrs.
  - apply list.Forall_app. split; [|constructor; [done|]]; apply list.Forall_forall; intros x Hin;
      apply Hold, elem_of_app; auto.
  - apply pairs_app in core_order0 as (H1 & H2 & H3). inversion H2; subst.
    apply pairs_app. split; [done|]. split; [by constructor|].
    intros a c Ha [->|Hc]%elem_of_cons.
    + by apply (H3 a e Ha (list_elem_of_here _ _)).
    + apply H3; [done|by apply list_elem_of_further].
  - eapply list.Forall_impl; [exact core_locals0|]. intros l (h & A1 & A2 & A3 & A4 & A5).
    exists h. simpl. split_and!; try done. destruct (m_data h); [|done].
    destruct A5 as (B1 & B2 & B3 & B4). split_and!; try done. by rewrite Hloc.
Qed.

Lemma core_write w pend l1 e l2 locals r off sz h d :
  core w pend (l1 ++ e :: l2) locals -> e_used e = true -> e_block e = Some (r, off, sz) ->
  msgs w !! e_ptr e = Some h -> Z.of_nat (length d) = m_data_size h ->
  core (set_bytes (store (bytes w) (r, off) d) w) pend (l1 ++ set_data d e :: l2) locals.
Proof.
  intros Hcore Hu Eb Hh Hd. open_core Hcore.
  destruct (used_header _ _ _ _ _ _ Hcore Hu) as (h' & Hh' & Hs & _ & Hok).
  assert (h' = h) as -> by congruence. rewrite Eb in Hok.
  destruct Hok as (A1 & A2 & A3 & A4 & A5 & A6 & A7 & A8).
  destruct (used_block _ _ _ _ _ _ _ _ _ Hcore Hu Eb) as (ring & x & Hring & _).
  apply core_set_bytes; [done|..].
  - rewrite list.Forall_forall in core_log0. destruct (core_log0 e) as (H1 & _).
    { apply elem_of_app. right. apply list_elem_of_here. }
    split; [done|]. exists h. split; [done|]. split; [simpl; by rewrite Hs, Hu|]. simpl. rewrite Eb.
    split_and!; try done; try lia. intros _. rewrite <- Hd. by eapply load_store.
  - intros y r' off' sz' n Hy Hu' Eb' Hn. eapply store_disjoint; [done|]. simpl.
    destruct (decide (r = r')) as [<-|]; [right|by left].
    assert (Hdis : off + sz <= off' \/ off' + sz' <= off).
    { apply elem_of_app in Hy as [Hy|Hy]; apply list_elem_of_split in Hy as (k1 & k2 & ->).
      - rewrite <- app_assoc in Hcore. simpl in Hcore.
        destruct (used_disjoint _ _ _ _ _ _ _ _ _ _ _ _ _ Hcore Hu' Hu Eb' Eb); auto.
      - destruct (used_disjoint _ _ _ _ _ _ _ _ _ _ _ _ _ Hcore Hu Hu' Eb Eb'); auto. }
    lia.
  - intros p n Hp. eapply store_disjoint; [done|]. left. simpl. congruence.
Qed.

Lemma core_fill w m h log locals r off d :
  core w (Some (m, h)) (log ++ [blank m]) locals -> reserved w h -> m_data h = Some (r, off) ->
  Z.of_nat (length d) <= m_rb_size h -> 0 < m_rb_size h < 2 ^ 63 ->
  core (set_bytes (store (bytes w) (r, off) d) w) (Some (m, h)) (log ++ [blank m]) locals.
Proof.
  intros Hcore (r0 & off0 & ring & _ & Ed & Hr & Hring & Hal) Ed' Hd Hsz.
  rewrite Ed in Ed'. injection Ed' as -> ->. open_core Hcore.
  apply (core_set_bytes w _ log (blank m) [] locals _ []); [done|..].
  - apply list.Forall_app in core_log0 as [_ H]. by apply Forall_cons_1 in H as [H _].
  - intros y r' off' sz' n Hy Hu' Eb' Hn. eapply store_disjoint; [done|]. simpl.
    destruct (decide (r = r')) as [<-|]; [right|by left]. rewrite app_nil_r in Hy.
    apply list_elem_of_split in Hy as (k1 & k2 & ->). rewrite <- app_assoc in Hcore. simpl in Hcore.
    destruct (used_block _ _ _ _ _ _ _ _ _ Hcore Hu' Eb') as (ring' & x & Hring' & Hi & Hl & Hsz' & _).
    assert (ring' = ring) as -> by congruence.
    destruct (Hal (m_rb_size h) ltac:(lia)) as [ring2 E2].
    destruct (alloc_spec ring (m_rb_size h) Hi ltac:(lia)) as (ring3 & o & E3 & Hi3 & _ & _ & Ho).
    rewrite E2 in E3. injection E3 as <- <-. destruct Ho as (_ & _ & Hl' & _).
    apply live_NoDup in Hi3. rewrite Hl', Hl, <- !app_assoc in Hi3.
    assert (Hi4 : NoDup (x ++ seqZ off' sz' ++ span (rb_block r) (k2 ++ [blank m]) ++ seqZ off (m_rb_size h) ++ [])).
    { by rewrite app_nil_r. }
    destruct (runs_disjoint _ _ _ _ _ _ _ Hi4); lia.
  - intros p n Hp. eapply store_disjoint; [done|]. left. simpl. congruence.
Qed.

(** *** Localized messages *)

Lemma local_not_log w pend log locals l :
  core w pend log locals -> l ∈ locals -> forall e, e ∈ log -> e_ptr e <> l_ptr l.
Proof.
  intros HC. open_core HC. intros Hl e He E. rewrite list.Forall_forall in core_log0. rewrite list.Forall_forall in core_locals0.
  destruct (core_log0 e He) as [Hm _]. destruct (core_mr0 _ Hm) as (r & Hr & _).
  destruct (core_locals0 l Hl) as (h & _ & _ & Hn & _). unfold e_mr in Hr. rewrite E in Hr. congruence.
Qed.

Lemma local_done_ok w pend log k1 l k2 :
  inv w pend log (k1 ++ l :: k2) ->
  wp (fr_message_done NDEBUG uninit (l_ptr l)) w (fun r w' => r = 0 /\ quiet w w' /\
    inv w' pend log (k1 ++ k2)).
Proof.
  intros (Hcore & Ha). open_core Hcore.
  assert (Hin : l ∈ k1 ++ l :: k2) by (apply elem_of_app; right; apply list_elem_of_here).
  pose proof core_locals0 as Hloc. rewrite list.Forall_forall in Hloc.
  destruct (Hloc l Hin) as (h & Hh & Hs & Hn & Hlt & Hd).
  apply wp_bind. eapply wp_rd_msg; [exact Hh|]. rewrite Hs.
  apply wp_bind, wp_assert; [done|]. apply wp_bind, wp_assert; [done|].
  rewrite decide_False, decide_True by done. apply wp_bind.
  set (b := match m_data h with Some d => filter (fun e => e.1.1 <> d.1) (bytes w) | None => bytes w end).
  exists (), (World (ms w) (rings w) (delete (l_ptr l) (msgs w)) b (next_obj w)).
  split; [unfold free_local; by rewrite Hh|]. apply wp_ret. split; [done|]. split; [done|]. split; [|done].
  set (w' := World _ _ _ _ _).
  assert (Hload : forall p n, (forall d, m_data h = Some d -> p.1 <> d.1) -> load p n w' = load p n w).
  { intros p n Hp. apply load_ext. intros off. simpl. unfold b. destruct (m_data h) as [d|]; [|done].
    rewrite map_lookup_filter. destruct (bytes w !! (p.1, off)); simpl; [|done].
    rewrite option_guard_True; [done|]. by apply Hp. }
  constructor; simpl; try done.
  - apply list.Forall_forall. intros e He. rewrite list.Forall_forall in core_log0.
    destruct (core_log0 e He) as (H1 & h' & Hh' & H2). split; [done|]. exists h'. simpl.
    rewrite lookup_delete_ne by (apply not_eq_sym; by apply (local_not_log _ _ _ _ _ Hcore Hin)).
    split; [done|]. revert H2. apply header_ok_ext; [|done]. intros r off sz _ Hr. split; [done|].
    intros n. apply Hload. intros d Ed. simpl. rewrite Ed in Hd. destruct Hd as (_ & Hd & _).
    destruct (core_rb0 r Hr) as (ring & Hring & _). congruence.
  - rewrite map_app in core_lptrs0. simpl in core_lptrs0. apply NoDup_middle_inv in core_lptrs0 as [Hnot _].
    apply list.Forall_forall. intros l' Hl'. assert (Hne : (l_ptr l').1 <> (l_ptr l).1).
    { intros E. apply Hnot. rewrite <- E, <- map_app. by apply (list_elem_of_fmap_2 (fun l => (l_ptr l).1)). }
    destruct (Hloc l') as (h' & A1 & A2 & A3 & A4 & A5).
    { rewrite elem_of_app, elem_of_cons. apply elem_of_app in Hl'. tauto. }
    exists h'. simpl. rewrite lookup_delete_ne by congruence. split_and!; try done.
    destruct (m_data h') as [d'|]; [|done]. destruct A5 as (B1 & B2 & B3 & B4). split_and!; try done.
    rewrite Hload; [done|]. intros d Ed. rewrite Ed in Hd. destruct Hd as (-> & _). rewrite B1. simpl. lia.
  - rewrite map_app in *. simpl in core_lptrs0. by apply NoDup_middle_inv in core_lptrs0 as [_ ?].
Qed.

Lemma fresh_ring w pend log locals i : core w pend log locals -> next_obj w <= i -> rings w !! i = None.
Proof.
  intros HC. open_core HC. intros Hi. destruct (rings w !! i) as [r|] eqn:E; [|done]. specialize (core_fresh0 _ _ E). lia.
Qed.

Lemma core_add_local w pend log locals hl b next d :
  core w pend log locals -> next_obj w < next -> m_status hl = FR_MESSAGE_LOCALIZED ->
  let n := next_obj w in
  let w' := World (ms w) (rings w) (<[(n, 0) := hl]> (msgs w)) b next in
  (forall p k, p.1 <> n + 1 -> load p k w' = load p k w) ->
  match m_data hl with
  | None => d = []
  | Some x => x = (n + 1, 0) /\ n + 1 < next /\ load x (m_data_size hl) w' = d
  end ->
  core w' pend log (Local (n, 0) d :: locals).
Proof.
  intros Hcore Hnext Hs n w' Hload Hd. open_core Hcore.
  assert (Hn : rings w !! n = None) by (eapply fresh_ring; [exact Hcore|lia]).
  constructor; simpl; try done.
  - intros id r Hr. specialize (core_fresh0 _ _ Hr). lia.
  - apply list.Forall_forall. intros e He. rewrite list.Forall_forall in core_log0.
    destruct (core_log0 e He) as (H1 & h & Hh & H2). split; [done|]. exists h. simpl.
    destruct (core_mr0 _ H1) as (r & Hr & _). rewrite lookup_insert_ne.
    2: { intros E. unfold e_mr in Hr. rewrite <- E in Hr. simpl in Hr. congruence. }
    split; [done|]. revert H2. apply header_ok_ext; [|done]. intros i off sz _ Hi. split; [done|].
    intros k. apply Hload. simpl. destruct (core_rb0 i Hi) as (ring & Hring & _).
    specialize (core_fresh0 _ _ Hring). lia.
  - constructor.
    + exists hl. simpl. rewrite lookup_insert_eq. split_and!; try done.
      destruct (m_data hl) as [x|]; [|done]. destruct Hd as (-> & H1 & H2). split_and!; try done.
      eapply fresh_ring; [exact Hcore|simpl; lia].
    + eapply list.Forall_impl; [exact core_locals0|]. intros l (h & A1 & A2 & A3 & A4 & A5).
      exists h. simpl. rewrite lookup_insert_ne.
      2: { intros E. rewrite <- E in A4. simpl in A4. lia. }
      split_and!; try done; try lia. destruct (m_data h) as [x|]; [|done].
      destruct A5 as (B1 & B2 & B3 & B4). split_and!; try done; try lia.
      rewrite Hload; [done|lia].
  - constructor; [|done]. intros (l & E & Hl)%list_elem_of_fmap. rewrite list.Forall_forall in core_locals0.
    destruct (core_locals0 l Hl) as (h & _ & _ & _ & H & _). simpl in E. lia.
Qed.

(** Once the copy of a message is complete the message is marked as done. *)
Lemma finish_copy w pend l1 e l2 locals hl b next :
  inv w pend (l1 ++ e :: l2) locals -> e_used e = true -> pend_of pend (e_ptr e) = None ->
  (forall a, a ∈ l1 -> e_used a = true -> e_rb a = e_rb e -> e_rb e <> None -> e_mr a = e_mr e) ->
  next_obj w < next -> m_status hl = FR_MESSAGE_LOCALIZED ->
  let w1 := World (ms w) (rings w) (<[(next_obj w, 0) := hl]> (msgs w)) b next in
  (forall p k, p.1 <> next_obj w + 1 -> load p k w1 = load p k w) ->
  match m_data hl with
  | None => e_data e = []
  | Some x => x = (next_obj w + 1, 0) /\ next_obj w + 1 < next /\ load x (m_data_size hl) w1 = e_data e
  end ->
  wp (wr uninit (with_status FR_MESSAGE_DONE) (e_ptr e);; mret (Some (next_obj w, 0))) w1
    (fun o w' => quiet w w' /\
      match o with
      | None => inv w' pend (l1 ++ e :: l2) locals
      | Some l => inv w' pend (l1 ++ unuse e :: l2) (Local l (e_data e) :: locals)
      end).
Proof.
  intros (Hcore & Ha) Hu Hp Hord H1 H2 w1 H3 H4.
  pose proof (core_add_local w pend _ locals hl b next (e_data e) Hcore H1 H2 H3 H4) as Hcore'.
  destruct (used_header _ _ _ _ _ _ Hcore' Hu) as (h' & Hh' & _). fold w1 in Hcore', Hh'.
  apply wp_bind. eapply wp_wr_msg; [exact Hh'|]. apply wp_ret. split; [done|]. split; [|done].
  by apply core_done.
Qed.

(** The message must be one the client may mark as done. *)
Lemma fr_message_localize_ok w pend l1 e l2 locals n :
  inv w pend (l1 ++ e :: l2) locals -> e_used e = true -> pend_of pend (e_ptr e) = None ->
  (forall a, a ∈ l1 -> e_used a = true -> e_rb a = e_rb e -> e_rb e <> None -> e_mr a = e_mr e) ->
  wp (fr_message_localize talloc_ok uninit (e_ptr e) n) w (fun o w' => quiet w w' /\
    match o with
    | None => inv w' pend (l1 ++ e :: l2) locals
    | Some l => inv w' pend (l1 ++ unuse e :: l2) (Local l (e_data e) :: locals)
    end).
Proof.
  intros (Hcore & Ha) Hu Hp Hord. destruct (used_header _ _ _ _ _ _ Hcore Hu) as (h & Hh & Hs & _ & Hok).
  apply wp_bind. eapply wp_rd_msg; [exact Hh|]. rewrite decide_False by (rewrite Hs; by intros []).
  destruct (decide _); [by apply wp_ret|].
  assert (Hsame : forall k, next_obj w <= k ->
    inv (World (ms w) (rings w) (msgs w) (bytes w) k) pend (l1 ++ e :: l2) locals).
  { intros k Hk. split; [by apply core_next_obj|done]. }
  apply wp_bind. eexists _, _. split; [done|]. destruct (talloc_ok (next_obj w)).
  2: { apply wp_ret. split; [done|]. apply Hsame. lia. }
  pose proof (fun hl b next => finish_copy w pend l1 e l2 locals hl b next (conj Hcore Ha) Hu Hp Hord) as Hfin.
  apply wp_bind. cbn [with_msg_data m_data_size].
  destruct (decide (m_data_size h <> 0)) as [Hd|Hd]; cycle 1.
  { apply wp_ret, wp_bind, wp_modify. apply Hfin; simpl; [lia|done|by intros|].
    destruct (e_block e) as [[[r off] sz]|]; [|by destruct Hok].
    destruct Hok as (_ & _ & _ & _ & _ & _ & _ & Hl). rewrite <- (Hl Hu).
    assert (E : m_data_size h = 0) by lia. by rewrite E. }
  apply wp_bind. eexists _, _. split; [done|]. cbn [next_obj]. destruct (talloc_ok (next_obj w + 1)).
  2: { apply wp_ret, wp_ret. split; [done|]. apply (Hsame (next_obj w + 1 + 1)). lia. }
  destruct (e_block e) as [[[r off] sz]|] eqn:Eb.
  2: { destruct Hok as [_ Hok]. rewrite Hp in Hok. destruct Hok as [_ Hok]. by destruct (Hd (Hok Hu)). }
  destruct Hok as (_ & _ & _ & Ed & _ & _ & Hsz & Hl).
  destruct (used_block _ _ _ _ _ _ _ _ _ Hcore Hu Eb) as (ring & x & Hring & _ & _ & _ & Hoff & Hbound).
  apply wp_bind. eexists _, _. split.
  { unfold memdup_data. rewrite Ed. simpl. rewrite decide_True; [done|]. unfold in_bounds. simpl.
    rewrite Hring. lia. }
  apply wp_ret, wp_bind, wp_modify. simpl. apply Hfin; simpl; [lia|done|..].
  - intros p k Hne. eapply store_disjoint; [done|]. left. simpl. congruence.
  - split; [done|]. split; [lia|].
    assert (Elen : m_data_size h = Z.of_nat (length (load (r, off) (m_data_size h) w))).
    { rewrite load_length by lia. lia. }
    rewrite Elen at 1. erewrite load_store; [by apply Hl|done].
Qed.

(** *** The whole set *)

Lemma gc_each_ok idx : forall w pend log locals,
  inv w pend log locals -> Forall (fun i => 0 <= i <= max (ms_mr (ms w))) idx ->
  wp (gc_each NDEBUG uninit idx) w (fun _ w' => same_sizes w w' /\
    exists log', collected log log' /\ inv w' pend log' locals /\ (length log' <= length log)%nat).
Proof.
  induction idx as [|i idx IH]; intros w pend log locals Hinv Hidx; cbn [gc_each].
  { apply wp_ret. split; [done|]. exists log. split; [apply collected_refl|done]. }
  apply Forall_cons_1 in Hidx as [Hi Hidx]. pose proof Hinv as (Hcore & Ha & _).
  destruct (arr_slot _ _ Ha Hi) as (id & Hs & Hid). apply wp_bind. eapply wp_get_ring; [exact Hs|].
  apply wp_bind. eapply wp_mono; [by apply (fr_message_ring_gc_ok w pend log locals id)|].
  intros c w' (_ & _ & Hss & log' & H1 & H2 & _). pose proof (inv_same_set _ _ _ _ _ _ Hinv H2 Hss) as Hinv'.
  destruct Hss as (S1 & S2 & S3 & S4).
  eapply wp_mono; [apply (IH w' pend log' locals Hinv'); by rewrite S1|].
  intros _ w2 ([T1 T2] & log2 & T3 & T4 & T5). split; [split; congruence|]. exists log2.
  pose proof (sublist_length _ _ (collected_sublist _ _ H1)) as Hlen.
  split; [by eapply collected_trans|]. split; [done|lia].
Qed.

Lemma fr_message_set_gc_ok w pend log locals :
  inv w pend log locals ->
  wp (fr_message_set_gc NDEBUG uninit) w (fun _ w' => same_sizes w w' /\
    exists log', collected log log' /\ inv w' pend log' locals /\
    (log' = [] \/ (exists e, e ∈ log' /\ e_used e = true) \/ 2 ^ 24 <= Z.of_nat (length log))).
Proof.
  intros Hinv. apply wp_bind, wp_gets, wp_bind.
  eapply wp_mono; [apply (gc_each_ok _ w pend log locals Hinv)|].
  { apply list.Forall_forall. intros i Hi%elem_of_seqZ. lia. }
  intros _ w1 ([S1 S2] & log1 & H1 & H2 & H3).
  eapply wp_mono; [by apply (fr_message_gc_ok w1 pend log1 locals (Z.shiftl 1 24))|].
  intros _ w2 ([T1 T2] & log2 & T3 & T4 & T5). split; [split; congruence|]. exists log2.
  split; [by eapply collected_trans|]. split; [done|]. change (Z.shiftl 1 24) with (2 ^ 24) in T5.
  destruct T5 as [?|[?|?]]; [auto|auto|]. right; right. lia.
Qed.

Definition in_ring (i : Z) (log : list entry) : Z := Z.of_nat (length (filter (fun e => e_mr e = i) log)).

Lemma span_in_ring n i log : 0 <= n -> Z.of_nat (length (span (mr_block n i) log)) = n * in_ring i log.
Proof.
  intros Hn. unfold in_ring. induction log as [|e log IH]; [simpl; lia|].
  rewrite span_cons, length_app, filter_cons. unfold mr_block at 1. destruct (decide (e_mr e = i)).
  - rewrite length_seqZ. cbn [length]. lia.
  - simpl. lia.
Qed.

(** The messages of the rings are all the messages. *)
Lemma in_rings_all (l : list Z) log :
  NoDup l -> Forall (fun e => e_mr e ∈ l) log ->
  foldr (fun i s => in_ring i log + s) 0 l = Z.of_nat (length log).
Proof.
  intros Hnd H. induction H as [|e log He _ IH].
  { clear. induction l as [|i l IH]; [done|]. simpl. by rewrite IH. }
  assert (Hcons : forall i, in_ring i (e :: log) = (if decide (e_mr e = i) then 1 else 0) + in_ring i log).
  { intros i. unfold in_ring. rewrite filter_cons. destruct (decide (e_mr e = i)); simpl; lia. }
  cbn [length]. rewrite Nat2Z.inj_succ, <- IH. clear IH.
  assert (Hzero : forall k, e_mr e ∉ k -> foldr (fun i s => in_ring i (e :: log) + s) 0 k =
    foldr (fun i s => in_ring i log + s) 0 k).
  { induction k as [|i k IHk]; [done|]. rewrite not_elem_of_cons. intros [H1 H2]. simpl.
    rewrite Hcons, decide_False, IHk by done. lia. }
  induction l as [|i l IHl]; [by inversion He|]. apply list.NoDup_cons in Hnd as [Hni Hnd]. simpl.
  rewrite Hcons. destruct (decide (e_mr e = i)) as [<-|Hne].
  - rewrite Hzero by done. lia.
  - apply elem_of_cons in He as [|He]; [done|]. rewrite IHl by done. lia.
Qed.

Lemma count_used_ok w pend log locals : forall l2 l1 n,
  inv w pend log locals -> ids (ms_mr (ms w)) = l1 ++ l2 ->
  wp (count_used (seqZ (Z.of_nat (length l1)) (Z.of_nat (length l2))) n) w (fun c w' =>
    w' = w /\ c = n + foldr (fun i s => in_ring i log + s) 0 l2).
Proof.
  induction l2 as [|id l2 IH]; intros l1 n Hinv E.
  { simpl. apply wp_ret. split; [done|]. simpl. lia. }
  pose proof Hinv as (Hcore & (_ & _ & l & Hl & Ea) & _). open_core Hcore.
  rewrite seqZ_cons by (simpl; lia). cbn [count_used length].
  replace (Z.pred (Z.of_nat (S (length l2)))) with (Z.of_nat (length l2)) by lia.
  assert (El : l = l1 ++ id :: l2) by (rewrite <- E; unfold ids; by rewrite Ea, ids_some).
  assert (Hid : id ∈ ids (ms_mr (ms w))) by (rewrite E; apply elem_of_app; right; apply list_elem_of_here).
  destruct (core_mr0 id Hid) as (r & Hr & Hi & _ & _ & _ & Hlive).
  apply wp_bind. eapply (wp_get_ring MR _ _ id).
  { simpl. rewrite Ea, slot_lookup by lia. rewrite Nat2Z.id, lookup_app_l, list_lookup_fmap, El.
    - rewrite lookup_app_r, Nat.sub_diag by lia. done.
    - rewrite length_map, El, length_app. simpl. lia. }
  apply wp_bind. eapply wp_get_rb; [exact Hr|by apply used_spec|]. apply wp_bind, wp_gets.
  rewrite Hlive, span_in_ring by lia. rewrite Z.mul_comm, Z.div_mul by lia.
  specialize (IH (l1 ++ [id]) (n + in_ring id log) Hinv). rewrite length_app in IH. cbn [length] in IH.
  replace (Z.of_nat (length l1 + 1)) with (Z.succ (Z.of_nat (length l1))) in IH by lia.
  eapply wp_mono; [apply IH; by rewrite <- app_assoc|]. intros c w' [-> ->]. split; [done|]. simpl. lia.
Qed.

Lemma fr_message_set_messages_used_ok w pend log locals :
  inv w pend log locals ->
  wp fr_message_set_messages_used w (fun c w' => w' = w /\ c = Z.of_nat (length log)).
Proof.
  intros Hinv. pose proof Hinv as (Hcore & Ha & _). apply wp_bind, wp_gets. rewrite <- (arr_ids _ Ha).
  eapply wp_mono; [apply (count_used_ok w pend log locals (ids (ms_mr (ms w))) [] 0 Hinv eq_refl)|].
  intros c w' [-> ->]. split; [done|]. open_core Hcore. apply list.NoDup_app in core_ids0 as (Hnd & _ & _).
  rewrite in_rings_all; [lia|done|]. eapply list.Forall_impl; [exact core_log0|]. by intros e [H _].
Qed.
End alloc.
