(* ===== verification/MessageClient.v ===== *)
(** * Message sets: the contract

    What a client of a message set may do, and what it can rely on: every message it holds
    keeps its header and its data until the client is done with it, no call fails, and the
    memory of finished messages is reclaimed. *)
From S2P Require Import Prelude StateMonad RingBuffer MessageSet MessageInv MessageGc MessageAlloc.

(** ** Clients *)

(** A client knows the state, the message it has reserved and not yet allocated, the messages
    it holds with their data, oldest first, and those it has localized. *)
Record ms_client := MsClient {
  c_world : world;
  c_pend : option ptr;
  c_held : list (ptr * list (option Z));
  c_local : list (ptr * list (option Z));
}.

(** The data of a message. *)
Definition contents (m : ptr) (w : world) : list (option Z) :=
  match msgs w !! m with
  | Some h => match m_data h with Some d => load d (m_data_size h) w | None => [] end
  | None => []
  end.

Definition rb_of (w : world) (m : ptr) : option Z := h ← msgs w !! m; m_rb h.

(** The client may finish a message if the older messages it holds whose data is in the same
    ring buffer have their headers in the same message ring. *)
Definition may_finish (w : world) (older : list (ptr * list (option Z))) (m : ptr) : Prop :=
  forall a, a ∈ older -> rb_of w a.1 = rb_of w m -> rb_of w m <> None -> a.1.1 = m.1.

Definition held_if (o : option ptr) (w : world) : list (ptr * list (option Z)) :=
  match o with Some m => [(m, contents m w)] | None => [] end.

Section client.
Context (NDEBUG : bool) (talloc_ok : Z -> bool) (uninit : ptr -> fr_message_t).

Inductive ms_step : ms_client -> ms_client -> Prop :=
| step_reserve w held ls n o w' :
    0 < n -> fr_message_reserve NDEBUG talloc_ok uninit n w = Some (o, w') ->
    ms_step (MsClient w None held ls) (MsClient w' o held ls)
| step_reserve_empty w held ls o w' :
    NDEBUG = false -> fr_message_reserve NDEBUG talloc_ok uninit 0 w = Some (o, w') ->
    ms_step (MsClient w None held ls) (MsClient w' None (held ++ held_if o w') ls)
| step_fill w m h d data held ls :
    msgs w !! m = Some h -> m_data h = Some d -> Z.of_nat (length data) <= m_rb_size h ->
    ms_step (MsClient w (Some m) held ls)
      (MsClient (set_bytes (store (bytes w) d data) w) (Some m) held ls)
| step_alloc w m h n o w' held ls :
    msgs w !! m = Some h -> 0 < n <= m_rb_size h ->
    fr_message_alloc NDEBUG talloc_ok uninit (Some m) n w = Some (o, w') ->
    ms_step (MsClient w (Some m) held ls) (MsClient w' None (held ++ held_if o w') ls)
| step_alloc_new w n o w' held ls :
    0 < n -> fr_message_alloc NDEBUG talloc_ok uninit None n w = Some (o, w') ->
    ms_step (MsClient w None held ls) (MsClient w' None (held ++ held_if o w') ls)
| step_alloc_reserve w m h n k o w' held ls :
    msgs w !! m = Some h -> 0 < n <= m_rb_size h -> 0 < k ->
    fr_message_alloc_reserve NDEBUG talloc_ok uninit m n 0 k w = Some (o, w') ->
    ms_step (MsClient w (Some m) held ls) (MsClient w' o (held ++ [(m, contents m w')]) ls)
| step_write w pend h m d old data l1 l2 ls :
    msgs w !! m = Some h -> m_data h = Some d -> Z.of_nat (length data) = m_data_size h ->
    ms_step (MsClient w pend (l1 ++ (m, old) :: l2) ls)
      (MsClient (set_bytes (store (bytes w) d data) w) pend (l1 ++ (m, data) :: l2) ls)
| step_done w pend m data l1 l2 ls r w' :
    may_finish w l1 m -> fr_message_done NDEBUG uninit m w = Some (r, w') ->
    ms_step (MsClient w pend (l1 ++ (m, data) :: l2) ls) (MsClient w' pend (l1 ++ l2) ls)
| step_localize w pend m data l1 l2 ls n l w' :
    may_finish w l1 m -> fr_message_localize talloc_ok uninit m n w = Some (Some l, w') ->
    ms_step (MsClient w pend (l1 ++ (m, data) :: l2) ls) (MsClient w' pend (l1 ++ l2) ((l, data) :: ls))
| step_localize_fail w pend m data l1 l2 ls n w' :
    may_finish w l1 m -> fr_message_localize talloc_ok uninit m n w = Some (None, w') ->
    ms_step (MsClient w pend (l1 ++ (m, data) :: l2) ls) (MsClient w' pend (l1 ++ (m, data) :: l2) ls)
| step_done_local w pend held l data k1 k2 r w' :
    fr_message_done NDEBUG uninit l w = Some (r, w') ->
    ms_step (MsClient w pend held (k1 ++ (l, data) :: k2)) (MsClient w' pend held (k1 ++ k2))
| step_gc w held ls u w' :
    fr_message_set_gc NDEBUG uninit w = Some (u, w') ->
    ms_step (MsClient w None held ls) (MsClient w' None held ls).

Definition ms_reachable (c : ms_client) : Prop :=
  exists num_messages msg_size ring_buffer_size w,
    fr_message_set_create talloc_ok num_messages msg_size ring_buffer_size = Some w /\
    rtc ms_step (MsClient w None [] []) c.

(** ** The invariant of clients *)

Definition view (e : entry) : ptr * list (option Z) := (e_ptr e, e_data e).
Definition held_of (log : list entry) : list (ptr * list (option Z)) :=
  map view (filter (fun e => e_used e = true) log).
Definition local_view (l : local) : ptr * list (option Z) := (l_ptr l, l_data l).

Definition state_ok (w : world) (pend : option ptr) (log : list entry) (locals : list local) : Prop :=
  match pend with
  | None => inv w None log locals
  | Some m => pending_ok (NDEBUG := NDEBUG) w m log locals
  end.

Definition client_ok (c : ms_client) : Prop :=
  max_allocation (ms (c_world c)) <= 2 ^ 30 /\
  exists log locals, state_ok (c_world c) (c_pend c) log locals /\
    c_held c = held_of log /\ c_local c = map local_view locals.

Lemma held_of_app l l' : held_of (l ++ l') = held_of l ++ held_of l'.
Proof. unfold held_of. by rewrite list.filter_app, map_app. Qed.
Lemma held_of_collected l l' : collected l l' -> held_of l' = held_of l.
Proof.
  induction 1 as [|e l l' _ IH|e l l' He _ IH]; [done| |]; unfold held_of in *; rewrite !filter_cons.
  - destruct (decide _); simpl; by rewrite IH.
  - rewrite (decide_False (P := e_used e = true)); [done|congruence].
Qed.
Lemma held_of_unused l : Forall (fun e => e_used e = false) l -> held_of l = [].
Proof.
  induction 1 as [|e l He _ IH]; [done|]. unfold held_of in *. rewrite filter_cons, decide_False by congruence.
  exact IH.
Qed.
Lemma held_of_cons_used e l : e_used e = true -> held_of (e :: l) = view e :: held_of l.
Proof. intros H. unfold held_of. by rewrite filter_cons, decide_True. Qed.
Lemma held_of_unuse e l : held_of (unuse e :: l) = held_of l.
Proof. unfold held_of. by rewrite filter_cons, decide_False. Qed.

(** The message in the log which the client holds. *)
Lemma held_split l1 x l2 log :
  held_of log = l1 ++ x :: l2 ->
  exists k1 e k2, log = k1 ++ e :: k2 /\ e_used e = true /\ view e = x /\ held_of k1 = l1 /\ held_of k2 = l2.
Proof.
  revert l1. induction log as [|e log IH]; intros l1 H; [by destruct l1|].
  destruct (e_used e) eqn:Hu.
  - rewrite held_of_cons_used in H by done. destruct l1 as [|y l1]; simpl in H.
    + injection H as Hx Hl. exists [], e, log. done.
    + injection H as Hx Hl. destruct (IH l1 Hl) as (k1 & e' & k2 & -> & H1 & H2 & H3 & H4).
      exists (e :: k1), e', k2. split; [done|]. rewrite held_of_cons_used by done. by rewrite H3, Hx.
  - assert (E : held_of (e :: log) = held_of log).
    { unfold held_of. rewrite filter_cons, decide_False; [done|congruence]. }
    rewrite E in H. destruct (IH l1 H) as (k1 & e' & k2 & -> & H1 & H2 & H3 & H4).
    exists (e :: k1), e', k2. split_and!; try done. rewrite <- H3. unfold held_of.
    rewrite filter_cons, decide_False; [done|congruence].
Qed.

(** The invariant under the client's state. *)
Definition pend_log (pend : option ptr) : list entry := match pend with Some m => [blank m] | None => [] end.

Lemma state_inv w pend log locals :
  state_ok w pend log locals -> exists p, inv w p (log ++ pend_log pend) locals /\
    (forall e, e ∈ log -> pend_of p (e_ptr e) = None) /\
    forall w' log' locals', quiet w w' -> inv w' p (log' ++ pend_log pend) locals' -> state_ok w' pend log' locals'.
Proof.
  destruct pend as [m|]; simpl.
  - intros (h & Hinv & Hres & Hrest). exists (Some (m, h)). split; [done|]. split.
    + intros e He. apply pend_of_ne. intros E. pose proof Hinv as [Hcore _]. open_core Hcore.
      rewrite map_app in core_ptrs0. apply list.NoDup_app in core_ptrs0 as (_ & Hd & _).
      apply (Hd m); [rewrite E; by apply list_elem_of_fmap_2|apply list_elem_of_here].
    + intros w' log' locals' [E1 E2] Hinv'. exists h. split; [done|]. split; [|done].
      unfold reserved in *. by rewrite E1, E2.
  - intros Hinv. exists None. rewrite app_nil_r. split; [done|]. split; [done|].
    intros w' log' locals' _. by rewrite app_nil_r.
Qed.

Lemma entry_contents w p l1 e l2 locals :
  inv w p (l1 ++ e :: l2) locals -> e_used e = true -> pend_of p (e_ptr e) = None ->
  contents (e_ptr e) w = e_data e /\ rb_of w (e_ptr e) = e_rb e.
Proof.
  intros [Hcore _] Hu Hp. destruct (used_header _ _ _ _ _ _ Hcore Hu) as (h & Hh & _ & _ & Hok).
  unfold contents, rb_of, e_rb. rewrite Hh. simpl. destruct (e_block e) as [[[r off] sz]|].
  - destruct Hok as (_ & _ & -> & -> & _ & _ & _ & Hl). by rewrite Hl.
  - rewrite Hp in Hok. destruct Hok as (-> & -> & Hd). rewrite (Hd Hu). by destruct (m_data h).
Qed.

(** The condition on clients is the condition on the log. *)
Lemma may_finish_log w p l1 e l2 locals :
  inv w p (l1 ++ e :: l2) locals -> e_used e = true ->
  (forall x, x ∈ l1 ++ [e] -> pend_of p (e_ptr x) = None) -> may_finish w (held_of l1) (e_ptr e) ->
  forall a, a ∈ l1 -> e_used a = true -> e_rb a = e_rb e -> e_rb e <> None -> e_mr a = e_mr e.
Proof.
  intros Hinv Hu Hp Hmay a Ha Hua E Hne.
  destruct (entry_contents _ _ _ _ _ _ Hinv Hu) as [_ Er].
  { apply Hp, elem_of_app. right. apply list_elem_of_here. }
  apply (Hmay (view a)).
  - unfold held_of. apply list_elem_of_fmap_2. by apply list_elem_of_filter.
  - apply list_elem_of_split in Ha as (k1 & k2 & ->). rewrite <- app_assoc in Hinv. simpl in Hinv.
    destruct (entry_contents _ _ _ _ _ _ Hinv Hua) as [_ Ea].
    { apply Hp. rewrite !elem_of_app, elem_of_cons. auto. }
    simpl. congruence.
  - by rewrite Er.
Qed.

(** *** The steps *)

Lemma held_new w log e locals :
  inv w None (log ++ [e]) locals -> e_used e = true ->
  held_of (log ++ [e]) = held_of log ++ [(e_ptr e, contents (e_ptr e) w)].
Proof.
  intros Hinv Hu. rewrite held_of_app, held_of_cons_used by done.
  destruct (entry_contents _ _ _ _ _ _ Hinv Hu eq_refl) as [-> _]. done.
Qed.

Lemma allocated_view w m n e : allocated_msg w m n e -> e_used e = true /\ e_ptr e = m.
Proof. by intros (r & off & ->). Qed.

Lemma alloc_out_ok w n log locals o w' held ls :
  alloc_out w n log locals o w' -> max_allocation (ms w) <= 2 ^ 30 ->
  held = held_of log -> ls = map local_view locals ->
  client_ok (MsClient w' None (held ++ held_if o w') ls).
Proof.
  intros ([_ Es] & log' & Hcol & Ho) Hmax -> ->. split; [simpl; by rewrite Es|]. simpl.
  rewrite <- (held_of_collected _ _ Hcol). destruct o as [m|].
  - destruct Ho as (e & He & Hinv). destruct (allocated_view _ _ _ _ He) as [Hu <-].
    exists (log' ++ [e]), locals. split; [done|]. split; [|done]. symmetry. by eapply held_new.
  - destruct Ho as (l & Hl & Hinv). exists (log' ++ l), locals. split; [done|].
    split; [|done]. by rewrite held_of_app, (held_of_unused l Hl).
Qed.

Lemma reserve_out_ok w log locals o w' held ls :
  reserve_out (NDEBUG := NDEBUG) w log locals o w' -> max_allocation (ms w) <= 2 ^ 30 ->
  held = held_of log -> ls = map local_view locals -> client_ok (MsClient w' o held ls).
Proof.
  intros ([_ Es] & log' & Hcol & Ho) Hmax -> ->. split; [simpl; by rewrite Es|]. simpl.
  rewrite <- (held_of_collected _ _ Hcol). destruct o as [m|].
  - by exists log', locals.
  - destruct Ho as (l & Hl & Hinv). exists (log' ++ l), locals. split; [done|].
    split; [|done]. by rewrite held_of_app, (held_of_unused l Hl), app_nil_r.
Qed.

Lemma step_finish w pend log locals l1 m data l2 :
  state_ok w pend log locals -> held_of log = l1 ++ (m, data) :: l2 -> may_finish w l1 m ->
  exists p k1 e k2, log = k1 ++ e :: k2 /\ e_used e = true /\ view e = (m, data) /\ held_of k1 = l1 /\
    held_of k2 = l2 /\ inv w p (k1 ++ e :: k2 ++ pend_log pend) locals /\ pend_of p (e_ptr e) = None /\
    (forall a, a ∈ k1 -> e_used a = true -> e_rb a = e_rb e -> e_rb e <> None -> e_mr a = e_mr e) /\
    forall w' log' locals', quiet w w' -> inv w' p (log' ++ pend_log pend) locals' -> state_ok w' pend log' locals'.
Proof.
  intros Hst Hh Hmay. destruct (held_split _ _ _ _ Hh) as (k1 & e & k2 & -> & Hu & Hv & H1 & H2).
  destruct (state_inv _ _ _ _ Hst) as (p & Hinv & Hp & Hback). rewrite <- app_assoc in Hinv.
  assert (Hpe : pend_of p (e_ptr e) = None).
  { apply Hp, elem_of_app. right. apply list_elem_of_here. }
  exists p, k1, e, k2. split_and!; try done. injection Hv as Em _. subst m l1.
  eapply may_finish_log; [exact Hinv|done| |done]. intros x Hx. apply Hp.
  rewrite !elem_of_app, elem_of_cons. rewrite elem_of_app, list_elem_of_singleton in Hx. tauto.
Qed.

Lemma held_contents c m d : client_ok c -> (m, d) ∈ c_held c -> contents m (c_world c) = d.
Proof.
  intros (_ & log & locals & Hst & -> & _) Hin. apply list_elem_of_split in Hin as (l1 & l2 & E).
  destruct (held_split _ _ _ _ E) as (k1 & e & k2 & -> & Hu & Hv & _).
  destruct (state_inv _ _ _ _ Hst) as (p & Hinv & Hp & _). rewrite <- app_assoc in Hinv.
  injection Hv as <- <-. eapply entry_contents; [exact Hinv|done|].
  apply Hp, elem_of_app. right. apply list_elem_of_here.
Qed.

(** A message without data is complete. *)
Lemma inv_unpend w m h log locals :
  inv w (Some (m, h)) (log ++ [blank m]) locals -> m_rb h = None -> m_data_size h = 0 ->
  inv w None (log ++ [blank m]) locals.
Proof.
  intros [Hcore Ha] Hr Hd. split; [|done]. open_core Hcore. constructor; try done.
  apply list.Forall_forall. intros e He. rewrite list.Forall_forall in core_log0.
  destruct (core_log0 e He) as (H1 & h' & Hh' & Hs & H2). split; [done|]. exists h'. split; [done|].
  split; [done|]. destruct (e_block e) as [[[r off] sz]|]; [by split_and!; try apply H2|].
  destruct H2 as [H2 H3]. split; [done|]. simpl.
  destruct (pend_of (Some (m, h)) (e_ptr e)) as [h0|] eqn:E; [|done].
  destruct H3 as [_ ->]. simpl in E. destruct (decide _); [|done]. by injection E as <-.
Qed.

Lemma write_nothing w d : set_bytes (store (bytes w) d []) w = w.
Proof. by destruct w. Qed.

Lemma reserve_empty_ok w held ls o w' :
  client_ok (MsClient w None held ls) -> NDEBUG = false ->
  fr_message_reserve NDEBUG talloc_ok uninit 0 w = Some (o, w') ->
  client_ok (MsClient w' None (held ++ held_if o w') ls).
Proof.
  intros (Hmax & log & locals & Hst & Hh & Hl) Hnd E. simpl in *.
  eapply wp_elim in E; [|by apply (fr_message_reserve_ok w 0 log locals)].
  destruct E as ([_ Es] & log' & Hcol & Ho). split; [simpl; by rewrite Es|]. simpl.
  rewrite Hh, <- (held_of_collected _ _ Hcol). destruct o as [m|].
  - destruct Ho as (h & Hinv & Hds & Hrb). rewrite decide_True in Hrb by done.
    assert (Hinv' : inv w' None (log' ++ [blank m]) locals) by (by eapply inv_unpend; auto).
    exists (log' ++ [blank m]), locals. split; [done|]. split; [|done]. symmetry.
    by apply (held_new _ _ (blank m) locals).
  - destruct Ho as (l & Hul & Hinv). exists (log' ++ l), locals. split; [done|].
    split; [|done]. by rewrite held_of_app, (held_of_unused l Hul).
Qed.

Lemma fill_ok w m h d data held ls :
  client_ok (MsClient w (Some m) held ls) -> msgs w !! m = Some h -> m_data h = Some d ->
  Z.of_nat (length data) <= m_rb_size h ->
  client_ok (MsClient (set_bytes (store (bytes w) d data) w) (Some m) held ls).
Proof.
  intros (Hmax & log & locals & Hst & Hh & Hl) Hm Hd Hlen.
  split; [done|]. exists log, locals. split; [|done]. simpl.
  destruct Hst as (h' & [Hcore Ha] & Hres & Hds & Hsz & Hmod).
  destruct (pend_header _ _ _ _ _ Hcore) as [Hm' _]. simpl in *. assert (h' = h) as -> by congruence.
  exists h. split; [|done]. split; [|done]. destruct d as [r off]. apply core_fill; try done. lia.
Qed.

Lemma alloc_reserve_ok w m h n k o w' held ls :
  client_ok (MsClient w (Some m) held ls) -> msgs w !! m = Some h -> 0 < n <= m_rb_size h -> 0 < k ->
  fr_message_alloc_reserve NDEBUG talloc_ok uninit m n 0 k w = Some (o, w') ->
  client_ok (MsClient w' o (held ++ [(m, contents m w')]) ls).
Proof.
  intros (Hmax & log & locals & Hst & Hh & Hl) Hm Hn Hk E. simpl in *.
  eapply wp_elim in E; [|by apply (fr_message_alloc_reserve_ok w m log locals n k h)].
  destruct E as (w1 & e & Es & He & Hout). destruct (allocated_view _ _ _ _ He) as [Hu Em].
  assert (Hok : client_ok (MsClient w' o (held_of (log ++ [e])) ls)).
  { eapply reserve_out_ok; [exact Hout|by rewrite Es|done|done]. }
  rewrite held_of_app, held_of_cons_used in Hok by done. unfold view in Hok. rewrite Em in Hok.
  assert (Ec : contents m w' = e_data e).
  { apply (held_contents _ m (e_data e) Hok). apply elem_of_app. right. apply list_elem_of_here. }
  by rewrite Ec, Hh.
Qed.

Lemma client_write_ok w pend h m d old data l1 l2 ls :
  client_ok (MsClient w pend (l1 ++ (m, old) :: l2) ls) -> msgs w !! m = Some h -> m_data h = Some d ->
  Z.of_nat (length data) = m_data_size h ->
  client_ok (MsClient (set_bytes (store (bytes w) d data) w) pend (l1 ++ (m, data) :: l2) ls).
Proof.
  intros (Hmax & log & locals & Hst & Hh & Hl) Hm Hd Hlen. split; [done|]. simpl in *.
  destruct (held_split _ _ _ _ (eq_sym Hh)) as (k1 & e & k2 & -> & Hu & Hv & H1 & H2).
  destruct (state_inv _ _ _ _ Hst) as (p & [Hcore Ha] & Hp & Hback). rewrite <- app_assoc in Hcore.
  injection Hv as Em Eold. destruct (used_header _ _ _ _ _ _ Hcore Hu) as (h' & Hh' & _ & _ & Hok).
  assert (h' = h) as -> by congruence.
  exists (k1 ++ set_data data e :: k2), locals. split; [|split; [|done]]; cycle 1.
  { simpl. rewrite held_of_app, held_of_cons_used by done. rewrite <- H1, <- H2, <- Em. done. }
  apply Hback; [done|]. split; [|done]. rewrite <- app_assoc. simpl.
  destruct (e_block e) as [[[r off] sz]|] eqn:Eb.
  - assert (Ed : m_data h = Some (r, off)) by apply Hok. rewrite Hd in Ed. injection Ed as ->.
    by eapply core_write.
  - destruct Hok as [Hnil Hok]. rewrite Hp in Hok by (apply elem_of_app; right; apply list_elem_of_here).
    destruct Hok as [_ Hok]. rewrite (Hok Hu) in Hlen. destruct data; [|done].
    rewrite write_nothing. assert (Es : set_data [] e = e) by (rewrite <- Hnil; by destruct e).
    by rewrite Es.
Qed.

(** The message is no longer held: what a call that finishes it has to establish. *)
Lemma finish_ok w pend m data l1 l2 ls w' ls' :
  client_ok (MsClient w pend (l1 ++ (m, data) :: l2) ls) -> may_finish w l1 m ->
  (forall p k1 e k2 locals, inv w p (k1 ++ e :: k2) locals -> e_used e = true -> e_ptr e = m -> e_data e = data ->
     pend_of p (e_ptr e) = None ->
     (forall a, a ∈ k1 -> e_used a = true -> e_rb a = e_rb e -> e_rb e <> None -> e_mr a = e_mr e) ->
     ls = map local_view locals ->
     quiet w w' /\ exists locals', ls' = map local_view locals' /\ inv w' p (k1 ++ unuse e :: k2) locals') ->
  client_ok (MsClient w' pend (l1 ++ l2) ls').
Proof.
  intros (Hmax & log & locals & Hst & Hh & Hl) Hmay H. simpl in *.
  destruct (step_finish _ _ _ _ _ _ _ _ Hst (eq_sym Hh) Hmay)
    as (p & k1 & e & k2 & -> & Hu & Hv & H1 & H2 & Hinv & Hp & Hord & Hback). injection Hv as Em Ed.
  destruct (H p k1 e _ locals Hinv Hu Em Ed Hp Hord Hl) as (Hq & locals' & Hl' & Hinv').
  split; [simpl; by rewrite (proj1 Hq)|]. exists (k1 ++ unuse e :: k2), locals'. split; [|split; [|done]].
  - simpl. apply Hback; [done|]. by rewrite <- app_assoc.
  - simpl. by rewrite held_of_app, held_of_unuse, H1, H2.
Qed.

Lemma localize_fail_ok w pend m data l1 l2 ls n w' :
  client_ok (MsClient w pend (l1 ++ (m, data) :: l2) ls) -> may_finish w l1 m ->
  fr_message_localize talloc_ok uninit m n w = Some (None, w') ->
  client_ok (MsClient w' pend (l1 ++ (m, data) :: l2) ls).
Proof.
  intros (Hmax & log & locals & Hst & Hh & Hl) Hmay E. simpl in *.
  destruct (step_finish _ _ _ _ _ _ _ _ Hst (eq_sym Hh) Hmay)
    as (p & k1 & e & k2 & -> & Hu & Hv & H1 & H2 & Hinv & Hp & Hord & Hback).
  injection Hv as <- <-.
  eapply wp_elim in E; [|by apply (fr_message_localize_ok w p k1 e (k2 ++ pend_log pend) locals n)].
  destruct E as (Hq & Hinv'). split; [simpl; by rewrite (proj1 Hq)|].
  exists (k1 ++ e :: k2), locals. split; [|done].
  simpl. apply Hback; [done|]. by rewrite <- app_assoc.
Qed.

Lemma done_local_ok w pend held l data k1 k2 r w' :
  client_ok (MsClient w pend held (k1 ++ (l, data) :: k2)) -> fr_message_done NDEBUG uninit l w = Some (r, w') ->
  client_ok (MsClient w' pend held (k1 ++ k2)).
Proof.
  intros (Hmax & log & locals & Hst & Hh & Hl) E. simpl in *.
  symmetry in Hl. apply map_eq_app in Hl as (j1 & j2 & -> & Hj1 & Hj2).
  destruct j2 as [|l' j2]; [done|]. injection Hj2 as Ep Ed Hj2.
  destruct (state_inv _ _ _ _ Hst) as (p & Hinv & Hp & Hback). rewrite <- Ep in E.
  eapply wp_elim in E; [|by apply (local_done_ok w p (log ++ pend_log pend) j1 l' j2)].
  destruct E as (_ & Hq & Hinv'). split; [simpl; by rewrite (proj1 Hq)|].
  exists log, (j1 ++ j2). split; [by apply Hback|]. split; [done|]. simpl. by rewrite map_app, Hj1, Hj2.
Qed.

Lemma ms_step_ok c c' : client_ok c -> ms_step c c' -> client_ok c'.
Proof.
  intros Hok Hstep. destruct Hstep as
    [w held ls n o w' Hn E|w held ls o w' Hnd E|w m h d data held ls Hm Hd Hlen|w m h n o w' held ls Hm Hn E
    |w n o w' held ls Hn E|w m h n k o w' held ls Hm Hn Hk E|w pend h m d old data l1 l2 ls Hm Hd Hlen
    |w pend m data l1 l2 ls r w' Hmay E|w pend m data l1 l2 ls n l w' Hmay E|w pend m data l1 l2 ls n w' Hmay E
    |w pend held l data k1 k2 r w' E|w held ls u w' E].
  - destruct Hok as (Hmax & log & locals & Hst & Hh & Hl).
    eapply wp_elim in E; [|by apply (fr_message_reserve_pending w n log locals)]. by eapply reserve_out_ok.
  - by eapply reserve_empty_ok.
  - by eapply fill_ok.
  - destruct Hok as (Hmax & log & locals & Hst & Hh & Hl).
    eapply wp_elim in E; [|by apply (message_alloc_ok w m log locals n h)].
    destruct E as (-> & Es & He). eapply (alloc_out_ok w n log locals (Some m)); [|done|done|done].
    split; [unfold same_sizes; by rewrite Es|]. exists log. split; [apply collected_refl|done].
  - destruct Hok as (Hmax & log & locals & Hst & Hh & Hl).
    eapply wp_elim in E; [|by apply (fr_message_alloc_ok w n log locals)]. by eapply alloc_out_ok.
  - by eapply alloc_reserve_ok.
  - by eapply client_write_ok.
  - eapply finish_ok; [exact Hok|done|]. intros p k1 e k2 locals Hinv Hu <- _ Hp Hord Hls.
    eapply wp_elim in E; [|by apply (fr_message_done_ok w p k1 e k2 locals)]. destruct E as (_ & Hq & Hinv').
    split; [done|]. by exists locals.
  - eapply finish_ok; [exact Hok|done|]. intros p k1 e k2 locals Hinv Hu <- <- Hp Hord ->.
    eapply wp_elim in E; [|by apply (fr_message_localize_ok w p k1 e k2 locals n)]. destruct E as (Hq & Hinv').
    split; [done|]. by exists (Local l (e_data e) :: locals).
  - by eapply localize_fail_ok.
  - by eapply done_local_ok.
  - destruct Hok as (Hmax & log & locals & Hst & Hh & Hl). simpl in *.
    eapply wp_elim in E; [|by apply (fr_message_set_gc_ok w None log locals)].
    destruct E as ([_ Es] & log' & Hcol & Hinv & _). split; [simpl; by rewrite Es|].
    exists log', locals. split; [done|]. split; [|done]. simpl. by rewrite (held_of_collected _ _ Hcol).
Qed.

(** *** The initial state *)

Lemma create_size a b sz r : fr_ring_buffer_create a b sz = Some r -> sz <= 2 ^ 30.
Proof.
  unfold fr_ring_buffer_create. destruct a; [|done]. simpl. change (Z.shiftl 1 30) with (2 ^ 30).
  destruct (decide (sz < 1024)); [lia|]. destruct (decide (2 ^ 30 < sz)); [done|]. lia.
Qed.

Lemma core_empty s R n i j ri rj :
  0 < message_size s <= 1024 -> ids (ms_mr s) = [i] -> ids (ms_rb s) = [j] -> i <> j -> i < n -> j < n ->
  R = <[i := ri]> (<[j := rj]> ∅) ->
  (rb_inv ri /\ live ri = [] /\ closed ri = false /\ write_offset ri = 0 /\ data_start ri = 0) ->
  (rb_inv rj /\ live rj = [] /\ closed rj = false /\ write_offset rj = 0 /\ data_start rj = 0) ->
  core (World s R ∅ ∅ n) None [] [].
Proof.
  intros Hs Ei Ej Hij Hi Hj -> (A1 & A2 & A3 & A4 & A5) (B1 & B2 & B3 & B4 & B5).
  constructor; simpl; rewrite ?Ei, ?Ej; try done; try constructor.
  - by intros ?%list_elem_of_singleton.
  - by apply NoDup_singleton.
  - intros id r. rewrite !lookup_insert_Some, lookup_empty. intros [[<- _]|[_ [[<- _]|[_ ?]]]]; [lia|lia|done].
  - intros x ->%list_elem_of_singleton. exists ri. rewrite lookup_insert_eq. split; [done|].
    split_and!; try done; try lia. destruct ri. simpl in *. lia.
  - intros x ->%list_elem_of_singleton. exists rj. rewrite lookup_insert_ne, lookup_insert_eq by done.
    split; [done|]. split_and!; try done. by rewrite B2.
Qed.

Lemma fr_message_set_create_ok num msz rbsz w :
  fr_message_set_create talloc_ok num msz rbsz = Some w ->
  inv w None [] [] /\ max_allocation (ms w) <= 2 ^ 30.
Proof.
  unfold fr_message_set_create. set (num' := if decide (num < 8) then 8 else num).
  clearbody num'. cbv zeta. destruct (decide (Z.land num' (num' - 1) <> 0)); [done|].
  destruct (decide (msz < sizeof_fr_message_t)); [done|].
  destruct (decide (1024 < msz)); [done|]. destruct (negb (talloc_ok 0)); [done|].
  unfold create_rings, mbind, st_bind, ring_create. cbn [next_obj ms].
  destruct (fr_ring_buffer_create _ _ rbsz) as [r1|] eqn:E1; [|done]. cbn -[fr_ring_buffer_create].
  destruct (fr_ring_buffer_create _ _ (u64 _)) as [r2|] eqn:E2; [|done]. cbn -[fr_ring_buffer_create].
  intros [= <-]. pose proof (create_size _ _ _ _ E1).
  unfold sizeof_fr_message_t in *. pose proof (CACHE_ALIGN_bounds msz ltac:(lia)) as Hb.
  pose proof (CACHE_ALIGN_fits msz 1024 ltac:(lia) ltac:(lia) eq_refl) as Hf.
  apply create_empty in E1, E2. split; [|simpl; apply Z.div_le_upper_bound; lia].
  split; [|split].
  - apply (core_empty _ _ _ 3 1 r2 r1); try done; simpl; lia.
  - split; [simpl; lia|]. split; [done|]. by exists [3].
  - split; [simpl; lia|]. split; [done|]. by exists [1].
Qed.

Lemma ms_reachable_ok c : ms_reachable c -> client_ok c.
Proof.
  intros (num & msz & rbsz & w & Hc & Hsteps).
  destruct (fr_message_set_create_ok _ _ _ _ Hc) as [Hinv Hmax].
  assert (H0 : client_ok (MsClient w None [] [])) by (split; [done|]; by exists [], []).
  clear Hc Hinv Hmax. remember (MsClient w None [] []) as c0 eqn:E. clear E.
  induction Hsteps as [|c0 c1 c2 Hstep _ IH]; [done|]. apply IH. by eapply ms_step_ok.
Qed.

(** *** What a client holds *)

Lemma held_entry c l1 m d l2 :
  client_ok c -> c_held c = l1 ++ (m, d) :: l2 ->
  exists p k1 e k2 locals, inv (c_world c) p (k1 ++ e :: k2 ++ pend_log (c_pend c)) locals /\ e_used e = true /\
    e_ptr e = m /\ (forall x, x ∈ k1 ++ e :: k2 -> pend_of p (e_ptr x) = None) /\
    held_of k1 = l1 /\ held_of k2 = l2.
Proof.
  intros (_ & log & locals & Hst & -> & _) E.
  destruct (held_split _ _ _ _ E) as (k1 & e & k2 & -> & Hu & Hv & H1 & H2).
  destruct (state_inv _ _ _ _ Hst) as (p & Hinv & Hp & _). rewrite <- app_assoc in Hinv.
  injection Hv as <- _. exists p, k1, e, k2, locals. by split_and!.
Qed.

(** The data of a held message, from its header. *)
Lemma held_data c m d :
  client_ok c -> (m, d) ∈ c_held c ->
  exists h, msgs (c_world c) !! m = Some h /\ m_status h = FR_MESSAGE_USED /\
    forall r, m_rb h = Some r -> exists off ring, m_data h = Some (r, off) /\
      rings (c_world c) !! r = Some ring /\ 0 <= off /\ off + m_rb_size h <= size ring /\
      0 <= m_data_size h <= m_rb_size h.
Proof.
  intros Hok Hin. apply list_elem_of_split in Hin as (l1 & l2 & E).
  destruct (held_entry _ _ _ _ _ Hok E) as (p & k1 & e & k2 & locals & [Hcore _] & Hu & <- & Hp & _).
  destruct (used_header _ _ _ _ _ _ Hcore Hu) as (h & Hh & Hs & _ & Hblk).
  exists h. split; [done|]. split; [done|]. intros r Hr.
  destruct (e_block e) as [[[r' off] sz]|] eqn:Eb.
  - destruct Hblk as (_ & _ & H1 & H2 & H3 & H4 & H5 & _). rewrite H1 in Hr. injection Hr as ->.
    destruct (used_block _ _ _ _ _ _ _ _ _ Hcore Hu Eb) as (ring & x & H6 & _ & _ & _ & H7 & H8).
    exists off, ring. rewrite H3. done.
  - rewrite Hp in Hblk by (apply elem_of_app; right; apply list_elem_of_here).
    destruct Hblk as (_ & H1 & _). congruence.
Qed.

Lemma held_disjoint c l1 a l2 b l3 ha hb r offa offb :
  client_ok c -> c_held c = l1 ++ a :: l2 ++ b :: l3 ->
  msgs (c_world c) !! a.1 = Some ha -> msgs (c_world c) !! b.1 = Some hb ->
  m_rb ha = Some r -> m_rb hb = Some r -> m_data ha = Some (r, offa) -> m_data hb = Some (r, offb) ->
  offa + m_rb_size ha <= offb \/ offb + m_rb_size hb <= offa.
Proof.
  intros Hok E Ha Hb Ra Rb Da Db. destruct a as [ma da], b as [mb db]. simpl in *.
  destruct (held_entry _ _ _ _ _ Hok E) as (p & k1 & e & k2 & locals & [Hcore _] & Hu & <- & Hp & _ & H2).
  destruct (held_split _ _ _ _ H2) as (j1 & e' & j2 & -> & Hu' & Hv' & _).
  injection Hv' as <- _. rewrite <- app_assoc in Hcore. simpl in Hcore.
  destruct (used_header _ _ _ _ _ _ Hcore Hu) as (h & Hh & _ & _ & H).
  assert (Hcore' : core (c_world c) p ((k1 ++ e :: j1) ++ e' :: j2 ++ pend_log (c_pend c)) locals)
    by (by rewrite <- app_assoc).
  destruct (used_header _ _ _ _ _ _ Hcore' Hu') as (h' & Hh' & _ & _ & H').
  assert (h = ha) as -> by congruence. assert (h' = hb) as -> by congruence.
  destruct (e_block e) as [[[r1 o1] s1]|] eqn:Eb; cycle 1.
  { rewrite Hp in H by (apply elem_of_app; right; apply list_elem_of_here). destruct H as (_ & H & _). congruence. }
  destruct (e_block e') as [[[r2 o2] s2]|] eqn:Eb'.
  - destruct H as (_ & _ & A1 & A2 & A3 & _), H' as (_ & _ & B1 & B2 & B3 & _).
    rewrite A3, B3. assert (r1 = r) as -> by congruence. assert (r2 = r) as -> by congruence.
    assert (o1 = offa) as -> by congruence. assert (o2 = offb) as -> by congruence.
    by eapply used_disjoint.
  - rewrite Hp in H'; [destruct H' as (_ & H' & _); congruence|].
    rewrite elem_of_app, elem_of_cons, elem_of_app, elem_of_cons. auto.
Qed.

Lemma local_contents c l d : client_ok c -> (l, d) ∈ c_local c -> contents l (c_world c) = d.
Proof.
  intros (_ & log & locals & Hst & _ & ->) (x & Ex & Hx)%list_elem_of_fmap. injection Ex as -> ->.
  destruct (state_inv _ _ _ _ Hst) as (p & [Hcore _] & _). open_core Hcore.
  rewrite list.Forall_forall in core_locals0. destruct (core_locals0 x Hx) as (h & Hh & _ & _ & _ & Hd).
  unfold contents. rewrite Hh. destruct (m_data h); [by apply Hd|done].
Qed.

(** ** Theorems *)

(** C6: messages do not disturb each other.  In every state a client can reach (reserving,
    filling, allocating and writing messages, finishing and localizing them in an order the
    ring buffers allow, collecting garbage), each message it holds is still marked as used and
    has the data last written to it, its block lies inside a ring buffer that was not freed, the
    blocks of two messages held do not overlap, and every localized message has the data of
    the original. *)
Theorem message_set_isolation c :
  ms_reachable c ->
  (forall m d, (m, d) ∈ c_held c -> contents m (c_world c) = d /\
     exists h, msgs (c_world c) !! m = Some h /\ m_status h = FR_MESSAGE_USED /\
       forall r, m_rb h = Some r -> exists off ring, m_data h = Some (r, off) /\
         rings (c_world c) !! r = Some ring /\ 0 <= off /\ off + m_rb_size h <= size ring /\
         0 <= m_data_size h <= m_rb_size h) /\
  (forall l1 a l2 b l3 ha hb r offa offb, c_held c = l1 ++ a :: l2 ++ b :: l3 ->
     msgs (c_world c) !! a.1 = Some ha -> msgs (c_world c) !! b.1 = Some hb ->
     m_rb ha = Some r -> m_rb hb = Some r -> m_data ha = Some (r, offa) -> m_data hb = Some (r, offb) ->
     offa + m_rb_size ha <= offb \/ offb + m_rb_size hb <= offa) /\
  (forall l d, (l, d) ∈ c_local c -> contents l (c_world c) = d).
Proof.
  intros Hok%ms_reachable_ok. split; [|split].
  - intros m d Hin. split; [by apply held_contents|by eapply held_data].
  - intros *. by apply held_disjoint.
  - intros l d. by apply local_contents.
Qed.

(** C21: no call of a client fails.  In every reachable state each operation the client may use
    next returns: no assertion fails, no freed memory is used and the loops end.  Allocating a
    reserved message succeeds, finishing a message returns 0, and the number of messages reported
    as used is at least the number of messages held. *)
Theorem message_set_total c :
  ms_reachable c -> let w := c_world c in
  (c_pend c = None -> forall n, 0 <= n -> is_Some (fr_message_reserve NDEBUG talloc_ok uninit n w)) /\
  (c_pend c = None -> forall n, 0 < n -> is_Some (fr_message_alloc NDEBUG talloc_ok uninit None n w)) /\
  (forall m h n k, c_pend c = Some m -> msgs w !! m = Some h -> 0 < n <= m_rb_size h -> 0 < k ->
     (exists w', fr_message_alloc NDEBUG talloc_ok uninit (Some m) n w = Some (Some m, w')) /\
     is_Some (fr_message_alloc_reserve NDEBUG talloc_ok uninit m n 0 k w)) /\
  (forall l1 m d l2 n, c_held c = l1 ++ (m, d) :: l2 -> may_finish w l1 m ->
     (exists w', fr_message_done NDEBUG uninit m w = Some (0, w')) /\
     is_Some (fr_message_localize talloc_ok uninit m n w)) /\
  (forall l d, (l, d) ∈ c_local c -> exists w', fr_message_done NDEBUG uninit l w = Some (0, w')) /\
  is_Some (fr_message_set_gc NDEBUG uninit w) /\
  exists n, fr_message_set_messages_used w = Some (n, w) /\ Z.of_nat (length (c_held c)) <= n.
Proof.
  intros Hok%ms_reachable_ok w. destruct Hok as (Hmax & log & locals & Hst & Hh & Hl).
  assert (His : forall A (m : M A) Q, wp m w Q -> is_Some (m w)).
  { intros A m Q (a & w' & E & _). eauto. }
  destruct (state_inv _ _ _ _ Hst) as (p & Hinv & _). split_and!.
  - intros Hp n Hn. rewrite Hp in Hst. eapply His. by apply (fr_message_reserve_ok w n log locals).
  - intros Hp n Hn. rewrite Hp in Hst. eapply His. by apply (fr_message_alloc_ok w n log locals).
  - intros m h n k Hp Hm Hn Hk. rewrite Hp in Hst. split.
    + destruct (message_alloc_ok (uninit := uninit) w m log locals n h Hst Hm Hn) as (o & w' & E & -> & _). by exists w'.
    + eapply His. by apply (fr_message_alloc_reserve_ok w m log locals n k h).
  - intros l1 m d l2 n E Hmay. rewrite Hh in E.
    destruct (step_finish _ _ _ _ _ _ _ _ Hst E Hmay)
      as (p' & k1 & e & k2 & -> & Hu & Hv & _ & _ & Hinv' & Hp & Hord & _). injection Hv as <- _. split.
    + destruct (fr_message_done_ok (NDEBUG := NDEBUG) (uninit := uninit) w p' k1 e _ locals Hinv' Hu Hp Hord)
        as (r & w' & E' & -> & _). by exists w'.
    + eapply His. by apply (fr_message_localize_ok w p' k1 e (k2 ++ pend_log (c_pend c)) locals n).
  - rewrite Hl. intros l d (x & Ex & Hx)%list_elem_of_fmap. injection Ex as -> _.
    apply list_elem_of_split in Hx as (j1 & j2 & ->).
    destruct (local_done_ok (NDEBUG := NDEBUG) (uninit := uninit) w p _ j1 x j2 Hinv) as (r & w' & E' & -> & _).
    by exists w'.
  - eapply His. by apply (fr_message_set_gc_ok w p (log ++ pend_log (c_pend c)) locals).
  - destruct (fr_message_set_messages_used_ok w p _ locals Hinv) as (n & w' & E & -> & ->).
    eexists. split; [exact E|]. rewrite Hh. unfold held_of. rewrite length_map, length_app.
    pose proof (length_filter (fun e => e_used e = true) log). lia.
Qed.

(** C22: the memory of finished messages is reclaimed.  When a client has finished every
    message, [fr_message_set_gc] collects them all (unless 2^24 or more are waiting): afterwards
    no message is reported as used and all message rings and ring buffers of the set are
    empty. *)
Theorem message_set_reclaim c n :
  ms_reachable c -> c_held c = [] -> c_pend c = None ->
  fr_message_set_messages_used (c_world c) = Some (n, c_world c) -> n < 2 ^ 24 ->
  exists w', fr_message_set_gc NDEBUG uninit (c_world c) = Some ((), w') /\
    fr_message_set_messages_used w' = Some (0, w') /\
    forall k i id, slot (array (get_arrays k (ms w'))) i = Some (Some id) ->
      exists r, rings w' !! id = Some r /\ fr_ring_buffer_used r = Some 0.
Proof.
  intros Hok%ms_reachable_ok Hheld Hpend Hn Hlt.
  destruct Hok as (Hmax & log & locals & Hst & Hh & Hl). rewrite Hpend in Hst. simpl in Hst.
  destruct (fr_message_set_messages_used_ok _ _ _ _ Hst) as (n' & w1 & E & -> & ->).
  rewrite Hn in E. injection E as ->.
  destruct (fr_message_set_gc_ok (NDEBUG := NDEBUG) (uninit := uninit) _ _ _ _ Hst)
    as ([] & w' & E & _ & log' & Hcol & Hinv & Hend).
  assert (log' = []) as ->.
  { destruct Hend as [?|[(e & He & Hu)|?]]; [done| |lia]. exfalso.
    rewrite Hh, <- (held_of_collected _ _ Hcol) in Hheld. apply list_elem_of_split in He as (k1 & k2 & ->).
    rewrite held_of_app, held_of_cons_used in Hheld by done. by destruct (held_of k1). }
  exists w'. split; [done|].
  destruct (fr_message_set_messages_used_ok _ _ _ _ Hinv) as (n' & w1 & E1 & -> & ->).
  split; [done|]. intros k i id Hs. pose proof Hinv as [Hcore _]. open_core Hcore.
  assert (Hid : id ∈ ids (get_arrays k (ms w'))).
  { unfold ids. apply list_elem_of_omap. exists (Some id). split; [|done].
    unfold slot in Hs. case_decide; [|done]. by eapply list_elem_of_lookup_2. }
  destruct k; [destruct (core_mr0 id Hid) as (r & Hr & Hi & _ & _ & _ & Hlive)
    |destruct (core_rb0 id Hid) as (r & Hr & Hi & _ & Hlive & _)]; exists r; (split; [done|]);
    rewrite used_spec, Hlive by done; done.
Qed.
End client.

(** ** Runs *)

Definition always (_ : Z) : bool := true.
Definition stale (_ : ptr) : fr_message_t := zeroed.

Fixpoint alloc_many (nd : bool) (n : nat) (sz : Z) : M (list ptr) :=
  match n with
  | O => mret []
  | S n => o ← fr_message_alloc nd always stale None sz; m ← lift o; l ← alloc_many nd n sz; mret (m :: l)
  end.
Fixpoint done_many (nd : bool) (l : list ptr) : M unit :=
  match l with
  | [] => mret ()
  | m :: l => _ ← fr_message_done nd stale m; done_many nd l
  end.
Definition run {A} (m : M A) (w : option world) : option (A * world) := w0 ← w; m w0.

(** A client that allocates two messages, writes to the first one and localizes it. *)
Definition ex0 : world := default (World (MessageSet (Arrays 0 0 []) (Arrays 0 0 []) 0 0 0 0) ∅ ∅ ∅ 0)
  (fr_message_set_create always 8 64 4096).
Definition ex1 : world := default ex0 (snd <$> fr_message_alloc false always stale None 2 ex0).
Definition ex2 : world := set_bytes (store (bytes ex1) (1, 0) [Some 5; Some 6]) ex1.
Definition ex3 : world := default ex0 (snd <$> fr_message_alloc false always stale None 100 ex2).
Definition ex4 : world := default ex0 (snd <$> fr_message_localize always stale (3, 0) 64 ex3).
Definition ex_client : ms_client :=
  MsClient ex4 None [((3, 64), contents (3, 64) ex3)] [((5, 0), [Some 5; Some 6])].

Lemma ex_client_reachable : ms_reachable false always stale ex_client.
Proof.
  exists 8, 64, 4096, ex0. split; [vm_compute; reflexivity|].
  eapply rtc_l; [apply (step_alloc_new _ _ _ ex0 2 (Some (3, 0)) ex1); [lia|vm_compute; reflexivity]|].
  eapply rtc_l.
  { apply (step_write _ _ _ ex1 None (Message FR_MESSAGE_USED 0 (Some 1) (Some (1, 0)) 2 64) (3, 0) (1, 0) _
      [Some 5; Some 6] [] []); vm_compute; reflexivity. }
  eapply rtc_l; [apply (step_alloc_new _ _ _ ex2 100 (Some (3, 64)) ex3); [lia|vm_compute; reflexivity]|].
  eapply rtc_l; [|apply rtc_refl].
  apply (step_localize _ _ _ ex3 None (3, 0) [Some 5; Some 6] [] _ [] 64 (5, 0) ex4); [|vm_compute; reflexivity].
  intros a Ha. inversion Ha.
Qed.

Lemma message_set_isolation_witness : contents (5, 0) ex4 = [Some 5; Some 6].
Proof.
  apply (message_set_isolation _ _ _ ex_client ex_client_reachable). apply list_elem_of_here.
Defined.

Lemma message_set_total_witness :
  is_Some (fr_message_reserve false always stale 200 ex4) /\
  exists w', fr_message_done false stale (5, 0) ex4 = Some (0, w').
Proof.
  pose proof (message_set_total _ _ _ ex_client ex_client_reachable) as (H1 & _ & _ & _ & H5 & _).
  split; [apply H1; [reflexivity|lia]|]. apply (H5 (5, 0) [Some 5; Some 6]). apply list_elem_of_here.
Defined.

(** The same client after it has finished both messages. *)
Definition ex5 : world := default ex0 (snd <$> fr_message_done false stale (3, 64) ex4).
Definition ex_client_done : ms_client := MsClient ex5 None [] [((5, 0), [Some 5; Some 6])].

Lemma ex_client_done_reachable : ms_reachable false always stale ex_client_done.
Proof.
  destruct ex_client_reachable as (a & b & c & w & H1 & H2). exists a, b, c, w. split; [exact H1|].
  eapply rtc_r; [exact H2|].
  apply (step_done _ _ _ ex4 None (3, 64) (contents (3, 64) ex3) [] [] _ 0 ex5); [|vm_compute; reflexivity].
  intros x Hx. inversion Hx.
Qed.

Lemma message_set_reclaim_witness :
  exists w', fr_message_set_gc false stale ex5 = Some ((), w') /\
    fr_message_set_messages_used w' = Some (0, w').
Proof.
  destruct (message_set_reclaim _ _ _ ex_client_done 2 ex_client_done_reachable) as (w' & H1 & H2 & _);
    [reflexivity|reflexivity|vm_compute; reflexivity|lia|].
  exists w'. split; [exact H1|exact H2].
Defined.

(** ** Where the contract ends *)

(** Finishing messages out of order across message rings.  Sixteen messages fill the first
    message ring, 32 more the second; when the newer ones are finished first, collecting them
    frees the oldest bytes of the ring buffer, which belong to the first messages.  Seventeen
    allocations later the first message, still in use, and the newest one have the same data
    pointer. *)
Definition out_of_order : M (option fr_message_t * option fr_message_t) :=
  l1 ← alloc_many false 16 50;
  l2 ← alloc_many false 32 50;
  done_many false l2;;
  l3 ← alloc_many false 17 50;
  a ← lift (l1 !! 0%nat); b ← lift (l3 !! 16%nat);
  gets (fun w => (msgs w !! a, msgs w !! b)).

Example message_set_out_of_order_shared :
  exists a b, fst <$> run out_of_order (fr_message_set_create always 8 64 4096) = Some (Some a, Some b) /\
    m_status a = FR_MESSAGE_USED /\ m_status b = FR_MESSAGE_USED /\ m_data a = m_data b.
Proof. eexists _, _. split; [vm_compute; reflexivity|done]. Qed.

(** An empty message ring is not used.  When all messages of a full ring are done, the garbage
    collection empties it; the attempt to use it collects again, finds nothing, and is given
    up, so that a second ring is allocated. *)
Example message_ring_empty_not_used :
  (fun p => (max (ms_mr (ms p.2)), fr_ring_buffer_used <$> rings p.2 !! 3)) <$>
    run (l ← alloc_many false 16 50; done_many false l;; alloc_many false 1 50)
      (fr_message_set_create always 8 64 4096) = Some (1, Some (Some 0)).
Proof. vm_compute. reflexivity. Qed.

(** A message that is reserved and finished without being allocated.  Collecting it frees as
    many bytes as it had reserved, here those of the message allocated after it, which is still
    in use while its ring buffer is empty. *)
Definition reserved_done : M (option fr_message_t) :=
  l ← alloc_many false 1 50;
  o ← fr_message_reserve false always stale 50; m ← lift o;
  done_many false [m];;
  l' ← alloc_many false 1 50;
  done_many false l;;
  fr_message_set_gc false stale;;
  m' ← lift (l' !! 0%nat);
  gets (fun w => msgs w !! m').

Example message_reserved_done_frees :
  (fun p : option fr_message_t * world => (m_status <$> p.1, m_data <$> p.1, fr_ring_buffer_used <$> rings p.2 !! 1)) <$>
    run reserved_done (fr_message_set_create always 8 64 4096) =
  Some (Some FR_MESSAGE_USED, Some (Some (1, 64)), Some (Some 0)).
Proof. vm_compute. reflexivity. Qed.

(** [fr_message_alloc_reserve] with bytes left over that do not fit behind the packet.  The size
    of the first message is set back to what it had reserved, but the ring buffer only holds
    the smaller packet: collecting it frees nothing, and its bytes are never reclaimed. *)
Definition leftover_leak : M unit :=
  l ← alloc_many false 1 448;
  o ← fr_message_reserve false always stale 512; m ← lift o;
  o ← fr_message_alloc_reserve false always stale m 100 50 512; m2 ← lift o;
  o ← fr_message_alloc_reserve false always stale m2 50 0 0; m3 ← lift o;
  done_many false (l ++ [m; m2; m3]);;
  fr_message_set_gc false stale.

Example message_alloc_reserve_leak :
  (fun p : unit * world => (fst <$> fr_message_set_messages_used p.2, fr_ring_buffer_used <$> rings p.2 !! 1)) <$>
    run leftover_leak (fr_message_set_create always 8 64 1024) = Some (Some 0, Some (Some 128)).
Proof. vm_compute. reflexivity. Qed.

(** Without assertions a header taken after a garbage collection is not zeroed: a message
    reserved without data has the ring buffer of the message whose header it reuses, and
    finishing it frees bytes of that ring buffer. *)
Definition stale_header : M (option fr_message_t) :=
  l ← alloc_many true 256 50;
  done_many true (take 200 l);;
  o ← fr_message_reserve true always stale 0; m ← lift o;
  gets (fun w => msgs w !! m).

Example message_not_zeroed :
  (fun p : option fr_message_t * world => (m_rb <$> p.1, m_rb_size <$> p.1)) <$>
    run stale_header (fr_message_set_create always 256 64 16384) = Some (Some (Some 1), Some 64).
Proof. vm_compute. reflexivity. Qed.
