(* ===== verification/Heap.v ===== *)
(** * Binary heaps: [lib/util/heap.c] and [lib/util/heap.h]

    The heap is an array of object pointers; slot 0 holds a marker and the elements
    are in slots 1 to [num_elements].  Every object stores its own slot number in a
    field (0: not in the heap); those fields are the map [M].  Slots that were
    never written are [None].  [None] as a result is an access outside the array,
    a read of an unwritten slot, or a pointer to no object; a loop that runs out of
    fuel would also give [None]. *)
From Stdlib Require Import Sorted.
From stdpp Require Import functions.
From S2P Require Import Prelude.

(** 32-bit unsigned arithmetic on indexes. *)
Definition wrap32 (n : nat) : nat := Z.to_nat (u32 (Z.of_nat n)).

Lemma wrap32_small n : Z.of_nat n < 2 ^ 32 -> wrap32 n = n.
Proof. intros H. unfold wrap32. rewrite u32_small by lia. lia. Qed.

Definition UINT_MAX : Z := 2 ^ 32 - 1.
Definition UINTPTR_MAX : Z := 2 ^ 64 - 1.
Definition INITIAL_CAPACITY : nat := 2048.

Definition HEAP_PARENT (x : nat) : nat := (x / 2)%nat.
Definition HEAP_LEFT (x : nat) : nat := wrap32 (2 * x).
Definition HEAP_RIGHT (x : nat) : nat := wrap32 (2 * x + 1).

Record fr_heap_t := Heap { hp_size : nat; hp_min : nat; num_elements : nat; hp_p : list (option Z) }.

Inductive heap_err :=
| HeapNull | HeapInserted | HeapFull | HeapRealloc | HeapOutOfBounds | HeapInvalidIndex.

(** [h->p[i]], read and written. *)
Definition slot (p : list (option Z)) (i : nat) : option Z := mjoin (p !! i).
Definition set_slot (p : list (option Z)) (i : nat) (d : Z) : option (list (option Z)) :=
  if decide (i < length p)%nat then Some (<[i := Some d]> p) else None.

Definition index_get (M : gmap Z nat) (data : Z) : option nat := M !! data.
Definition index_set (M : gmap Z nat) (data : Z) (idx : nat) : option (gmap Z nat) :=
  if decide (is_Some (M !! data)) then Some (<[data := idx]> M) else None.

Definition fr_heap_entry_inserted (heap_idx : nat) : bool := (0 <? heap_idx)%nat.

(** The flag says whether the allocation succeeds; the inner [None] is [NULL].  The number
    of slots, [init + 1], is computed in 32 bits. *)
Definition fr_heap_alloc (alloc_ok : bool) (init : nat) : option (option fr_heap_t) :=
  let init := if decide (init = 0)%nat then INITIAL_CAPACITY else init in
  if alloc_ok then
    p ← set_slot (replicate (wrap32 (init + 1)) None) 0 UINTPTR_MAX;
    Some (Some (Heap init init 0 p))
  else Some None.

(** [talloc_realloc] keeps the slots that fit and leaves new ones unwritten. *)
Definition realloc_heap (realloc_ok : bool) (h : fr_heap_t) (n_size : nat) : option fr_heap_t :=
  if realloc_ok then
    Some (Heap n_size (hp_min h) (num_elements h) (resize (wrap32 (n_size + 1)) None (hp_p h)))
  else None.

Section Ops.
Variable cmp : Z -> Z -> Z.

(** [while (child > 1) { ... }] and the final [OFFSET_SET]. *)
Fixpoint bubble_loop (fuel : nat) (p : list (option Z)) (M : gmap Z nat) (child : nat)
    : option (list (option Z) * gmap Z nat) :=
  match fuel with
  | O => None
  | S fuel' =>
      let finish := d ← slot p child; M ← index_set M d child; Some (p, M) in
      if decide (1 < child)%nat then
        let parent := HEAP_PARENT child in
        pp ← slot p parent;
        pc ← slot p child;
        if decide (cmp pp pc < 0) then finish else
        p ← set_slot p child pp;
        p ← set_slot p parent pc;
        M ← index_set M pp child;
        bubble_loop fuel' p M parent
      else finish
  end.

(** [fr_cond_assert(child > 0)] guards the loop. *)
Definition fr_heap_bubble (p : list (option Z)) (M : gmap Z nat) (child : nat)
    : option (list (option Z) * gmap Z nat) :=
  if decide (0 < child)%nat then bubble_loop child p M child else Some (p, M).

(** The size to grow to, or the heap is full. *)
Definition grow_size (size : nat) : heap_err + nat :=
  if decide (UINT_MAX - Z.of_nat size < Z.of_nat size) then
    if decide (Z.of_nat size = UINT_MAX) then inl HeapFull else inr (Z.to_nat UINT_MAX)
  else inr (wrap32 (size * 2)).

Definition fr_heap_insert (realloc_ok : bool) (hp : option fr_heap_t) (M : gmap Z nat) (data : Z)
    : option (option fr_heap_t * gmap Z nat * (heap_err + unit)) :=
  match hp with
  | None => Some (None, M, inl HeapNull)
  | Some h =>
      child ← index_get M data;
      if fr_heap_entry_inserted child then Some (hp, M, inl HeapInserted) else
      let child := wrap32 (num_elements h + 1) in
      let grown :=
        if decide (hp_size h < child)%nat then
          match grow_size (hp_size h) with
          | inl e => inl e
          | inr n_size =>
              match realloc_heap realloc_ok h n_size with
              | None => inl HeapRealloc
              | Some h => inr h
              end
          end
        else inr h in
      match grown with
      | inl e => Some (hp, M, inl e)
      | inr h =>
          p ← set_slot (hp_p h) child data;
          '(p, M) ← fr_heap_bubble p M child;
          Some (Some (Heap (hp_size h) (hp_min h) (wrap32 (num_elements h + 1)) p), M, inr ())
      end
  end.

(** [while (child <= max) { ... }]: the hole moves down. *)
Fixpoint sift_loop (fuel : nat) (p : list (option Z)) (M : gmap Z nat) (max parent child : nat)
    : option (list (option Z) * gmap Z nat * nat) :=
  match fuel with
  | O => None
  | S fuel' =>
      if decide (child <= max)%nat then
        child ← (if decide (child <> max) then
                   r ← slot p (child + 1);
                   l ← slot p child;
                   Some (if decide (cmp r l < 0)%Z then child + 1 else child)%nat
                 else Some child);
        d ← slot p child;
        p ← set_slot p parent d;
        M ← index_set M d parent;
        sift_loop fuel' p M max child (HEAP_LEFT child)
      else Some (p, M, parent)
  end.

(** [ROUND_UP_DIV(x, 2)] *)
Definition round_up_half (x : nat) : nat := (1 + (x - 1) / 2)%nat.

Definition shrink (realloc_ok : bool) (h : fr_heap_t) : fr_heap_t :=
  if decide (wrap32 (num_elements h * 2) < hp_size h)%nat then
    let n_size := round_up_half (hp_size h) in
    if decide (hp_min h < n_size)%nat then
      match realloc_heap realloc_ok h n_size with Some h => h | None => h end
    else h
  else h.

Definition fr_heap_extract (realloc_ok : bool) (hp : option fr_heap_t) (M : gmap Z nat) (data : Z)
    : option (option fr_heap_t * gmap Z nat * (heap_err + unit)) :=
  match hp with
  | None => Some (None, M, inl HeapNull)
  | Some h =>
      parent ← index_get M data;
      if decide (parent = 0 \/ num_elements h < parent)%nat
      then Some (hp, M, inl HeapOutOfBounds) else
      at_parent ← slot (hp_p h) parent;
      if decide (data <> at_parent) then Some (hp, M, inl HeapInvalidIndex) else
      let max := num_elements h in
      M ← index_set M at_parent 0;
      '(p, M, parent) ← sift_loop (S max) (hp_p h) M max parent (HEAP_LEFT parent);
      let h := shrink realloc_ok (Heap (hp_size h) (hp_min h) (num_elements h - 1) p) in
      if decide (parent <> max) then
        last ← slot (hp_p h) max;
        p ← set_slot (hp_p h) parent last;
        '(p, M) ← fr_heap_bubble p M parent;
        Some (Some (Heap (hp_size h) (hp_min h) (num_elements h) p), M, inr ())
      else Some (Some h, M, inr ())
  end.

(** The element popped ([None]: [NULL]). *)
Definition fr_heap_pop (realloc_ok : bool) (hp : option fr_heap_t) (M : gmap Z nat)
    : option (option fr_heap_t * gmap Z nat * option Z) :=
  match hp with
  | None => Some (None, M, None)
  | Some h =>
      if decide (num_elements h = 0)%nat then Some (hp, M, None) else
      data ← slot (hp_p h) 1;
      r ← fr_heap_extract realloc_ok hp M data;
      match r with
      | (hp, M, inl _) => Some (hp, M, None)
      | (hp, M, inr _) => Some (hp, M, Some data)
      end
  end.

(** Results are [NULL] or a pointer: the inner option. *)
Definition fr_heap_peek (h : fr_heap_t) : option (option Z) :=
  if decide (num_elements h = 0)%nat then Some None
  else d ← slot (hp_p h) 1; Some (Some d).

Definition fr_heap_peek_at (h : fr_heap_t) (idx : nat) : option (option Z) :=
  if decide (num_elements h < idx)%nat then Some None
  else d ← slot (hp_p h) idx; Some (Some d).

Definition fr_heap_peek_tail (h : fr_heap_t) : option (option Z) :=
  if decide (num_elements h = 0)%nat then Some None
  else d ← slot (hp_p h) (num_elements h); Some (Some d).

(** The iterator is the current slot number. *)
Definition fr_heap_iter_init (h : fr_heap_t) : option (nat * option Z) :=
  if decide (num_elements h = 0)%nat then Some (1%nat, None)
  else d ← slot (hp_p h) 1; Some (1%nat, Some d).

Definition fr_heap_iter_next (h : fr_heap_t) (iter : nat) : option (nat * option Z) :=
  if decide (num_elements h < wrap32 (iter + 1))%nat then Some (iter, None)
  else d ← slot (hp_p h) (wrap32 (iter + 1)); Some (wrap32 (iter + 1), Some d).

(** The consistency check, as the conjunction of its assertions: first loop (slots
    and index fields), then second loop (order of parents and children). *)
Definition verify_slots (h : fr_heap_t) (M : gmap Z nat) : bool :=
  forallb (fun i => match slot (hp_p h) i with
                    | Some d => bool_decide (index_get M d = Some i)
                    | None => false
                    end) (seq 1 (num_elements h)).

Definition ordered_slots (h : fr_heap_t) (i j : nat) : bool :=
  match slot (hp_p h) i, slot (hp_p h) j with
  | Some a, Some b => bool_decide (cmp a b <= 0)
  | _, _ => false
  end.

Fixpoint verify_order (fuel : nat) (h : fr_heap_t) (i : nat) : bool :=
  match fuel with
  | O => true
  | S fuel' =>
      if decide (num_elements h < HEAP_LEFT i)%nat then true else
      ordered_slots h i (HEAP_LEFT i) &&
      (if decide (num_elements h < HEAP_RIGHT i)%nat then true else
       ordered_slots h i (HEAP_RIGHT i) && verify_order fuel' h (i + 1))
  end.

Definition fr_heap_verify (h : fr_heap_t) (M : gmap Z nat) : bool :=
  bool_decide (num_elements h <= hp_size h)%nat &&
  bool_decide (slot (hp_p h) 0 = Some UINTPTR_MAX) &&
  verify_slots h M && verify_order (S (num_elements h)) h 1.
End Ops.

(** ** Slots as a function *)

Lemma slot_set_same p i d p' : set_slot p i d = Some p' -> slot p' i = Some d.
Proof.
  unfold set_slot, slot. case_decide; [|done]. intros [= <-].
  by rewrite list_lookup_insert_eq by done.
Qed.

Lemma slot_set_other p i d p' j : set_slot p i d = Some p' -> i <> j -> slot p' j = slot p j.
Proof.
  unfold set_slot, slot. case_decide; [|done]. intros [= <-] Hij.
  by rewrite list_lookup_insert_ne by done.
Qed.

Lemma set_slot_defined p i d :
  (i < length p)%nat -> exists p', set_slot p i d = Some p' /\ length p' = length p.
Proof.
  intros H. unfold set_slot. rewrite decide_True by done. eexists. split; [done|].
  apply length_insert.
Qed.

Lemma index_set_defined M d i :
  is_Some (M !! d) -> index_set M d i = Some (<[d := i]> M : gmap Z nat).
Proof. intros H. unfold index_set. by rewrite decide_True. Qed.

(** The elements in slots 1 to [n]. *)
Definition view (p : list (option Z)) (n : nat) (v : nat -> Z) : Prop :=
  forall i, (1 <= i <= n)%nat -> slot p i = Some (v i).

Lemma view_set p n v i d p' :
  view p n v -> set_slot p i d = Some p' -> view p' n (<[i := d]> v).
Proof.
  intros Hv Hp j Hj. destruct (decide (i = j)) as [->|].
  - by rewrite (slot_set_same _ _ _ _ Hp), fn_lookup_insert.
  - by rewrite (slot_set_other _ _ _ _ _ Hp), fn_lookup_insert_ne, Hv.
Qed.

(** What a comparison callback must be: a total preorder. *)
Class HeapCmp (cmp : Z -> Z -> Z) := {
  cmp_total a b : ~ cmp a b < 0 -> cmp b a <= 0;
  cmp_trans a b c : cmp a b <= 0 -> cmp b c <= 0 -> cmp a c <= 0;
}.

(** Objects that are in the heap according to their index field. *)
Definition member (M : gmap Z nat) (y : Z) : Prop := exists k, k <> 0%nat /\ M !! y = Some k.

(** Index fields agree with the slots, except at slot [c] and for object [x]. *)
Definition fields_ok (v : nat -> Z) (n : nat) (M : gmap Z nat) (c : nat) (x : option Z) : Prop :=
  (forall i, (1 <= i <= n)%nat -> i <> c -> M !! v i = Some i) /\
  (forall y k, Some y <> x -> M !! y = Some k -> k <> 0%nat ->
     (1 <= k <= n)%nat /\ k <> c /\ v k = y) /\
  (forall i, (1 <= i <= n)%nat -> i <> c -> Some (v i) <> x).

(** The same objects exist, and the same ones besides [x] are in the heap. *)
Definition same_members (M M' : gmap Z nat) (x : option Z) : Prop :=
  forall y, (is_Some (M !! y) <-> is_Some (M' !! y)) /\
            (Some y <> x -> member M y <-> member M' y).

Section Order.
Context (cmp : Z -> Z -> Z) `{!HeapCmp cmp}.

Definition ordered (v : nat -> Z) (n : nat) : Prop :=
  forall i, (2 <= i <= n)%nat -> cmp (v (i / 2)%nat) (v i) <= 0.

(** Only the element in [c] may be smaller than its parent. *)
Definition ordered_up (v : nat -> Z) (n c : nat) : Prop :=
  (forall i, (2 <= i <= n)%nat -> i <> c -> cmp (v (i / 2)%nat) (v i) <= 0) /\
  (forall i, (2 <= i <= n)%nat -> (i / 2)%nat = c -> (2 <= c)%nat ->
     cmp (v (c / 2)%nat) (v i) <= 0).

(** Slot [c] is a hole. *)
Definition ordered_hole (v : nat -> Z) (n c : nat) : Prop :=
  (forall i, (2 <= i <= n)%nat -> i <> c -> (i / 2)%nat <> c ->
     cmp (v (i / 2)%nat) (v i) <= 0) /\
  (forall i, (2 <= i <= n)%nat -> (i / 2)%nat = c -> (2 <= c)%nat ->
     cmp (v (c / 2)%nat) (v i) <= 0).

Lemma half_lt i : (2 <= i)%nat -> (i / 2 < i /\ 1 <= i / 2)%nat.
Proof.
  intros H. split; [apply Nat.div_lt; lia|]. apply Nat.div_le_lower_bound; lia.
Qed.

Lemma half_child i c : (i / 2)%nat = c -> (i = 2 * c \/ i = 2 * c + 1)%nat.
Proof. intros <-. pose proof (Nat.div_mod_eq i 2). pose proof (Nat.mod_upper_bound i 2). lia. Qed.

Lemma half_double c : (2 * c / 2)%nat = c /\ ((2 * c + 1) / 2)%nat = c.
Proof.
  rewrite (Nat.mul_comm 2), Nat.div_mul, Nat.div_add_l by lia.
  split; [done|]. change (1 / 2)%nat with 0%nat. lia.
Qed.

Lemma ordered_up_done v n c :
  ordered_up v n c -> ((2 <= c)%nat -> cmp (v (c / 2)%nat) (v c) <= 0) -> ordered v n.
Proof.
  intros [H1 _] Hc i Hi. destruct (decide (i = c)) as [->|]; [apply Hc; lia|by apply H1].
Qed.

(** Swapping with a larger parent moves the exception up. *)
Lemma ordered_up_swap v n c (p := (c / 2)%nat) :
  ordered_up v n c -> (2 <= c <= n)%nat -> cmp (v c) (v p) <= 0 ->
  ordered_up (<[p := v c]> (<[c := v p]> v)) n p.
Proof.
  intros [H1 H2] Hc Hle. destruct (half_lt c) as [Hp1 Hp2]; [lia|]. fold p in Hp1, Hp2.
  assert (Hother : forall i, i <> p -> i <> c -> (<[p := v c]> (<[c := v p]> v)) i = v i).
  { intros i Hip Hic. by rewrite !fn_lookup_insert_ne. }
  assert (Hatp : (<[p := v c]> (<[c := v p]> v)) p = v c) by apply fn_lookup_insert.
  assert (Hatc : (<[p := v c]> (<[c := v p]> v)) c = v p)
    by (rewrite fn_lookup_insert_ne by lia; apply fn_lookup_insert).
  set (w := <[p := v c]> _) in *. clearbody w.
  assert (Hsib : forall i, (2 <= i <= n)%nat -> (i / 2)%nat = p -> cmp (v p) (w i) <= 0 \/ i = c).
  { intros i Hi E. destruct (decide (i = c)); [by right|left].
    destruct (half_lt i) as [? ?]; [lia|].
    rewrite Hother, <- E by lia. apply H1; lia. }
  split.
  - intros i Hi Hip. destruct (half_lt i) as [Hh1 Hh2]; [lia|].
    destruct (decide (i = c)) as [->|Hic].
    + fold p. by rewrite Hatp, Hatc.
    + rewrite (Hother i) by done. destruct (decide ((i / 2)%nat = p)) as [E|Hnp].
      * rewrite E, Hatp. apply (cmp_trans _ (v p)); [done|]. rewrite <- E. by apply H1.
      * destruct (decide ((i / 2)%nat = c)) as [E|Hnc].
        -- rewrite E, Hatc. apply H2; [done|done|lia].
        -- rewrite Hother by done. by apply H1.
  - intros i Hi E Hp. destruct (half_lt p) as [Hh1 Hh2]; [lia|].
    rewrite (Hother (p / 2)%nat) by lia.
    assert (Hpp : cmp (v (p / 2)%nat) (v p) <= 0) by (apply H1; lia).
    destruct (decide (i = c)) as [->|Hic]; [by rewrite Hatc|].
    destruct (Hsib i Hi E) as [Hs|?]; [|done]. by eapply cmp_trans.
Qed.

(** Moving the smaller child up moves the hole down. *)
Lemma ordered_hole_down v n c d :
  ordered_hole v n c -> (1 <= c)%nat -> (d <= n)%nat -> (d / 2)%nat = c ->
  (forall i, (2 <= i <= n)%nat -> (i / 2)%nat = c -> cmp (v d) (v i) <= 0) ->
  ordered_hole (<[c := v d]> v) n d.
Proof.
  intros [H1 H2] Hc Hd E Hmin.
  assert (Hd2 : (2 <= d)%nat) by (apply half_child in E; lia).
  destruct (half_lt d Hd2) as [Hcd _]. rewrite E in Hcd.
  assert (Hother : forall i, i <> c -> (<[c := v d]> v) i = v i)
    by (intros i Hi; by rewrite fn_lookup_insert_ne).
  assert (Hatc : (<[c := v d]> v) c = v d) by apply fn_lookup_insert.
  set (w := <[c := v d]> v) in *. clearbody w. split.
  - intros i Hi Hid Hnd. destruct (half_lt i) as [Hh1 Hh2]; [lia|].
    destruct (decide (i = c)) as [->|Hic].
    + rewrite Hatc, Hother by lia. apply H2; lia.
    + rewrite (Hother i) by done. destruct (decide ((i / 2)%nat = c)) as [Ei|Hnc].
      * rewrite Ei, Hatc. by apply Hmin.
      * rewrite Hother by done. by apply H1.
  - intros i Hi Ei _. rewrite E, Hatc. destruct (half_lt i) as [Hh1 Hh2]; [lia|].
    rewrite Hother by lia. rewrite <- Ei. apply H1; lia.
Qed.
End Order.

(** ** The loops *)

Lemma same_members_refl M x : same_members M M x.
Proof. done. Qed.

Lemma same_members_trans M1 M2 M3 x :
  same_members M1 M2 x -> same_members M2 M3 x -> same_members M1 M3 x.
Proof.
  intros H1 H2 y. destruct (H1 y) as [A1 B1], (H2 y) as [A2 B2].
  split; [by rewrite A1|]. intros Hy. rewrite B1 by done. by apply B2.
Qed.

(** Giving an object that is in the heap another non-zero index. *)
Lemma same_members_set M d i x :
  member M d -> i <> 0%nat -> same_members M (<[d := i]> M) x.
Proof.
  intros (k & Hk & Ek) Hi y. unfold member. destruct (decide (d = y)) as [<-|Hne].
  - rewrite lookup_insert_eq. split; [by rewrite Ek; split; eauto|]. intros _.
    split; intros _; eauto.
  - by rewrite lookup_insert_ne.
Qed.

(** Whatever index the excepted object gets. *)
Lemma same_members_set_exc M x i : is_Some (M !! x) -> same_members M (<[x := i]> M) (Some x).
Proof.
  intros Hx y. unfold member. destruct (decide (x = y)) as [<-|Hne].
  - rewrite lookup_insert_eq. split; [by split; eauto|done].
  - by rewrite lookup_insert_ne.
Qed.

(** The content of the excepted slot does not matter. *)
Lemma fields_ok_write v n M c x d :
  fields_ok v n M c x -> fields_ok (<[c := d]> v) n M c x.
Proof.
  intros (H1 & H2 & H3). split; [|split].
  - intros i Hi Hic. rewrite fn_lookup_insert_ne by done. by apply H1.
  - intros y k Hy Hk Hk0. destruct (H2 y k Hy Hk Hk0) as (Hkn & Hkc & Ev).
    by rewrite fn_lookup_insert_ne.
  - intros i Hi Hic. rewrite fn_lookup_insert_ne by done. by apply H3.
Qed.

(** The content of slot [i] moves to the excepted slot [c]. *)
Lemma fields_ok_move v n M c i x :
  fields_ok v n M c x -> (1 <= i <= n)%nat -> (1 <= c <= n)%nat -> i <> c ->
  fields_ok (<[c := v i]> v) n (<[v i := c]> M) i x.
Proof.
  intros (H1 & H2 & H3) Hi Hc Hic. split; [|split].
  - intros j Hj Hji. destruct (decide (c = j)) as [->|Hcj].
    + by rewrite fn_lookup_insert, lookup_insert_eq.
    + rewrite fn_lookup_insert_ne by done. rewrite lookup_insert_ne; [apply H1; [done|congruence]|].
      intros E. pose proof (H1 i Hi Hic) as E1. pose proof (H1 j Hj ltac:(congruence)) as E2.
      rewrite E in E1. congruence.
  - intros y k Hy Hk Hk0. destruct (decide (v i = y)) as [<-|Hne].
    + rewrite lookup_insert_eq in Hk. injection Hk as <-. by rewrite fn_lookup_insert.
    + rewrite lookup_insert_ne in Hk by done. destruct (H2 y k Hy Hk Hk0) as (Hkn & Hkc & Ev).
      split; [done|]. rewrite fn_lookup_insert_ne by done. split; [|done]. intros ->. done.
  - intros j Hj Hji. destruct (decide (c = j)) as [->|Hcj].
    + rewrite fn_lookup_insert. by apply H3.
    + rewrite fn_lookup_insert_ne by done. apply H3; [done|congruence].
Qed.

(** The excepted object settles in the excepted slot. *)
Lemma fields_ok_settle v n M c :
  fields_ok v n M c (Some (v c)) -> (1 <= c <= n)%nat ->
  fields_ok v n (<[v c := c]> M) 0 None.
Proof.
  intros (H1 & H2 & H3) Hc. split; [|split]; [| |done].
  - intros i Hi _. destruct (decide (i = c)) as [->|Hic]; [apply lookup_insert_eq|].
    rewrite lookup_insert_ne; [by apply H1|]. specialize (H3 i Hi Hic). congruence.
  - intros y k _ Hk Hk0. destruct (decide (v c = y)) as [<-|Hne].
    + rewrite lookup_insert_eq in Hk. injection Hk as <-. done.
    + rewrite lookup_insert_ne in Hk by done.
      destruct (H2 y k ltac:(congruence) Hk Hk0) as (Hkn & Hkc & Ev). done.
Qed.

Lemma fields_ok_inj v n M i j :
  fields_ok v n M 0 None -> (1 <= i <= n)%nat -> (1 <= j <= n)%nat -> v i = v j -> i = j.
Proof.
  intros (F1 & _) Hi Hj E. pose proof (F1 i Hi ltac:(lia)) as E1.
  rewrite E, F1 in E1 by lia. congruence.
Qed.

(** A new last object. *)
Lemma fields_ok_last v n x M :
  fields_ok v n M 0 None -> M !! x = Some 0%nat ->
  fields_ok (<[S n := x]> v) (S n) M (S n) (Some x).
Proof.
  intros (F1 & F2 & _) Hx. apply fields_ok_write. split; [|split].
  - intros i Hi Hne. apply F1; lia.
  - intros y k Hy Hk Hk0. destruct (F2 y k) as (Hkn & _ & Ev); [done..|].
    split_and!; try done; lia.
  - intros i Hi Hne [= E]. rewrite <- E in Hx.
    rewrite (F1 i) in Hx by lia. injection Hx. lia.
Qed.

(** The last object fills the hole [c]. *)
Lemma fields_ok_fill v n c M :
  fields_ok v (S n) M c None -> (1 <= c <= n)%nat ->
  fields_ok (<[c := v (S n)]> v) n M c (Some (v (S n))).
Proof.
  intros (F1 & F2 & _) Hc. apply fields_ok_write. split; [|split].
  - intros i Hi Hne. apply F1; [lia|done].
  - intros y k Hy Hk Hk0. destruct (F2 y k) as (Hkn & Hkc & Ev); [done..|].
    split_and!; try done; try lia. assert (k <> S n) by congruence. lia.
  - intros i Hi Hne [= E]. pose proof (F1 i ltac:(lia) Hne) as E1.
    rewrite E, (F1 (S n)) in E1 by lia. injection E1. lia.
Qed.

(** The object of slot [c] is taken out. *)
Lemma fields_ok_open v n c M :
  fields_ok v n M 0 None -> (1 <= c <= n)%nat -> fields_ok v n (<[v c := 0%nat]> M) c None.
Proof.
  intros Hf Hc. pose proof Hf as (F1 & F2 & _). split; [|split; [|done]].
  - intros i Hi Hne. rewrite lookup_insert_ne; [apply F1; lia|].
    intros E. by apply Hne; symmetry; eapply fields_ok_inj.
  - intros y k _ Hk Hk0. destruct (decide (v c = y)) as [<-|Hy].
    { rewrite lookup_insert_eq in Hk. congruence. }
    rewrite lookup_insert_ne in Hk by done.
    destruct (F2 y k) as (Hkn & _ & Ev); [done..|]. split_and!; try done; try lia. congruence.
Qed.

(** The hole at the end disappears. *)
Lemma fields_ok_drop v n M : fields_ok v (S n) M (S n) None -> fields_ok v n M 0 None.
Proof.
  intros (F1 & F2 & _). split; [|split; [|done]].
  - intros i Hi _. apply F1; lia.
  - intros y k Hy Hk Hk0. destruct (F2 y k Hy Hk Hk0) as (Hkn & Hkc & Ev). split_and!; try done; lia.
Qed.

(** Any object may be regarded as the exception. *)
Lemma fields_ok_except v n M c :
  fields_ok v n M 0 None -> (1 <= c <= n)%nat -> fields_ok v n M c (Some (v c)).
Proof.
  intros Hf Hc. pose proof Hf as (F1 & F2 & _). split; [|split].
  - intros i Hi _. apply F1; lia.
  - intros y k Hy Hk Hk0. destruct (F2 y k) as (Hkn & _ & Ev); [done..|].
    split_and!; try done; try lia. congruence.
  - intros i Hi Hne [= E]. by apply Hne; eapply fields_ok_inj.
Qed.

Section Loops.
Context (cmp : Z -> Z -> Z) `{!HeapCmp cmp}.

(** What both loops need of the slots and fields, and what they leave behind. *)
Definition heap_at (p : list (option Z)) (M : gmap Z nat) (v : nat -> Z) (n c : nat)
    (x : option Z) : Prop :=
  view p n v /\ (n < length p)%nat /\ fields_ok v n M c x.

Definition loop_frame (p p' : list (option Z)) (M M' : gmap Z nat) (x : option Z) : Prop :=
  length p' = length p /\ slot p' 0 = slot p 0 /\ same_members M M' x.

Lemma loop_frame_trans p1 p2 p3 M1 M2 M3 x :
  loop_frame p1 p2 M1 M2 x -> loop_frame p2 p3 M2 M3 x -> loop_frame p1 p3 M1 M3 x.
Proof.
  intros (A1 & B1 & C1) (A2 & B2 & C2). split; [congruence|]. split; [congruence|].
  by eapply same_members_trans.
Qed.

Lemma bubble_finish p M v n c :
  heap_at p M v n c (Some (v c)) -> (1 <= c <= n)%nat -> is_Some (M !! v c) ->
  exists M', (d ← slot p c; M ← index_set M d c; Some (p, M)) = Some (p, M') /\
    heap_at p M' v n 0 None /\ loop_frame p p M M' (Some (v c)) /\ M' !! v c = Some c.
Proof.
  intros (Hv & Hl & Hf) Hc Hs. rewrite (Hv c Hc). simpl.
  rewrite index_set_defined by done. simpl. eexists. split; [done|].
  split; [split; [done|]; split; [done|]; by apply fields_ok_settle|].
  split; [|apply lookup_insert_eq]. split; [done|]. split; [done|].
  by apply same_members_set_exc.
Qed.

Lemma bubble_loop_spec fuel : forall p M v n c,
  (c <= fuel)%nat -> (1 <= c <= n)%nat -> heap_at p M v n c (Some (v c)) ->
  ordered_up cmp v n c -> is_Some (M !! v c) ->
  exists p' M' v', bubble_loop cmp fuel p M c = Some (p', M') /\
    heap_at p' M' v' n 0 None /\ ordered cmp v' n /\ loop_frame p p' M M' (Some (v c)) /\
    member M' (v c).
Proof.
  induction fuel as [|fuel IH]; intros p M v n c Hfuel Hc Hat Hord Hs; [lia|].
  destruct (bubble_finish _ _ _ _ _ Hat Hc Hs) as (M1 & E1 & Hat1 & Hfr1 & Hx1).
  assert (Hfin : ((2 <= c)%nat -> cmp (v (c / 2)%nat) (v c) <= 0) ->
    exists p' M' v', (d ← slot p c; M ← index_set M d c; Some (p, M)) = Some (p', M') /\
      heap_at p' M' v' n 0 None /\ ordered cmp v' n /\ loop_frame p p' M M' (Some (v c)) /\
      member M' (v c)).
  { intros Hle. exists p, M1, v. split_and!; [done..| |done|].
    - by eapply ordered_up_done.
    - exists c. split; [lia|done]. }
  cbn [bubble_loop]. destruct (decide (1 < c)%nat) as [H1|H1]; [|apply Hfin; lia].
  destruct Hat as (Hv & Hl & Hf). unfold HEAP_PARENT.
  destruct (half_lt c) as [Hp1 Hp2]; [lia|]. set (q := (c / 2)%nat) in *.
  rewrite (Hv q), (Hv c) by lia. rewrite (Hv c) in Hfin by lia.
  cbn [mbind option_bind] in Hfin |- *.
  destruct (decide (cmp (v q) (v c) < 0)) as [Hlt|Hge]; [apply Hfin; fold q; lia|].
  apply cmp_total in Hge.
  destruct (set_slot_defined p c (v q)) as (p1 & Ep1 & Lp1); [lia|].
  rewrite Ep1. cbn [mbind option_bind].
  destruct (set_slot_defined p1 q (v c)) as (p2 & Ep2 & Lp2); [lia|].
  rewrite Ep2. cbn [mbind option_bind].
  pose proof Hf as (Hf1 & Hf2 & Hf3). pose proof (Hf1 q ltac:(lia) ltac:(lia)) as Eq.
  rewrite index_set_defined by eauto. cbn [mbind option_bind].
  assert (Hne : v q <> v c) by (pose proof (Hf3 q ltac:(lia) ltac:(lia)); congruence).
  set (w := <[q := v c]> (<[c := v q]> v)).
  assert (Hwq : w q = v c) by apply fn_lookup_insert.
  destruct (IH p2 (<[v q := c]> M) w n q) as (p' & M' & v' & E & Hat' & Hord' & Hfr & Hmem);
    [lia|lia| | | |].
  - rewrite Hwq. split; [|split; [lia|]].
    + by eapply view_set; [eapply view_set|].
    + apply fields_ok_write, fields_ok_move; [done|lia..].
  - apply ordered_up_swap; [done|done|lia|done].
  - rewrite Hwq, lookup_insert_ne by done. done.
  - rewrite Hwq in *. exists p', M', v'. split_and!; [done..| |done].
    eapply loop_frame_trans; [|exact Hfr]. split; [congruence|]. split.
    + rewrite (slot_set_other _ _ _ _ _ Ep2), (slot_set_other _ _ _ _ _ Ep1) by lia. done.
    + apply same_members_set; [|lia]. exists q. split; [lia|done].
Qed.

(** The child the loop chooses is the smaller one. *)
Lemma smaller_child p v n c :
  view p n v -> (1 <= c)%nat -> (2 * c <= n)%nat ->
  exists d, (if decide (2 * c <> n)%nat then
               r ← slot p (2 * c + 1);
               l ← slot p (2 * c);
               Some (if decide (cmp r l < 0)%Z then 2 * c + 1 else 2 * c)%nat
             else Some (2 * c)%nat) = Some d /\
    (2 * c <= d <= n)%nat /\ (d / 2)%nat = c /\
    (forall i, (2 <= i <= n)%nat -> (i / 2)%nat = c -> cmp (v d) (v i) <= 0).
Proof.
  intros Hv Hc Hn. destruct (half_double c) as [D1 D2].
  assert (Hrefl : forall a, cmp a a <= 0).
  { intros a. destruct (decide (cmp a a < 0)) as [|H']; [lia|]. by apply cmp_total in H'. }
  case_decide as Hne.
  - rewrite (Hv (2 * c + 1)%nat), (Hv (2 * c)%nat) by lia. cbn [mbind option_bind].
    case_decide as Hlt; (eexists; split; [done|]; split; [lia|]; split; [done|]);
      intros i Hi Ei; destruct (half_child _ _ Ei) as [->| ->]; try apply Hrefl.
    + lia.
    + by apply cmp_total.
  - exists (2 * c)%nat. split; [done|]. split; [lia|]. split; [done|].
    intros i Hi Ei. destruct (half_child _ _ Ei) as [->| ->]; [apply Hrefl|lia].
Qed.

Lemma sift_loop_spec fuel : forall p M v n c,
  (n - c < fuel)%nat -> (1 <= c <= n)%nat -> Z.of_nat (2 * n + 1) < 2 ^ 32 ->
  heap_at p M v n c None -> ordered_hole cmp v n c ->
  exists p' M' v' h, sift_loop cmp fuel p M n c (HEAP_LEFT c) = Some (p', M', h) /\
    (1 <= h <= n)%nat /\ (n < 2 * h)%nat /\
    heap_at p' M' v' n h None /\ ordered_hole cmp v' n h /\ loop_frame p p' M M' None.
Proof.
  induction fuel as [|fuel IH]; intros p M v n c Hfuel Hc H32 Hat Hord; [lia|].
  cbn [sift_loop]. replace (HEAP_LEFT c) with (2 * c)%nat
    by (unfold HEAP_LEFT; rewrite wrap32_small; lia).
  destruct (decide (2 * c <= n)%nat) as [Hn|Hn]; cycle 1.
  { exists p, M, v, c. split_and!; try done; lia. }
  destruct Hat as (Hv & Hl & Hf).
  destruct (smaller_child p v n c Hv) as (d & -> & Hd & Ed & Hmin); [lia..|].
  cbn [mbind option_bind]. rewrite (Hv d) by lia. cbn [mbind option_bind].
  destruct (set_slot_defined p c (v d)) as (p1 & Ep1 & Lp1); [lia|].
  rewrite Ep1. cbn [mbind option_bind].
  pose proof Hf as (Hf1 & _ & _). pose proof (Hf1 d ltac:(lia) ltac:(lia)) as Eidx.
  rewrite index_set_defined by eauto. cbn [mbind option_bind].
  destruct (IH p1 (<[v d := c]> M) (<[c := v d]> v) n d)
    as (p' & M' & v' & h & E & Hh & Hleaf & Hat' & Hord' & Hfr); [lia|lia|done| | |].
  - split; [by eapply view_set|]. split; [lia|]. apply fields_ok_move; [done|lia..].
  - apply ordered_hole_down; [done|lia|lia|done|done].
  - exists p', M', v', h. split; [done|]. split; [done|]. split; [done|]. split; [done|].
    split; [done|]. eapply loop_frame_trans; [|exact Hfr]. split; [done|]. split.
    + by rewrite (slot_set_other _ _ _ _ _ Ep1) by lia.
    + apply same_members_set; [|lia]. exists d. split; [lia|done].
Qed.
End Loops.

(** ** The invariant, and that every operation preserves it *)

Section Correct.
Context (cmp : Z -> Z -> Z) `{!HeapCmp cmp}.

Definition heap_inv (h : fr_heap_t) (M : gmap Z nat) : Prop :=
  (1 <= hp_size h)%nat /\ Z.of_nat (hp_size h) < UINT_MAX /\
  length (hp_p h) = S (hp_size h) /\ (num_elements h <= hp_size h)%nat /\
  slot (hp_p h) 0 = Some UINTPTR_MAX /\
  exists v, heap_at (hp_p h) M v (num_elements h) 0 None /\ ordered cmp v (num_elements h).

Lemma slot_resize p n i : (i < n)%nat -> slot (resize n None p) i = slot p i.
Proof.
  intros Hi. unfold slot. destruct (decide (i < length p)%nat).
  - by rewrite lookup_resize by lia.
  - rewrite lookup_resize_new by lia. by rewrite (lookup_ge_None_2 p) by lia.
Qed.

Lemma grow_size_spec size :
  (1 <= size)%nat -> Z.of_nat size < 2 ^ 31 ->
  exists n, grow_size size = inr n /\ (size < n)%nat /\ Z.of_nat n < UINT_MAX.
Proof.
  unfold grow_size, UINT_MAX. intros H1 H2. rewrite decide_False by lia.
  eexists. split; [done|]. rewrite wrap32_small by lia. lia.
Qed.

(** The heap with room for one more element. *)
Lemma insert_room h M (child := wrap32 (num_elements h + 1)) :
  heap_inv h M -> Z.of_nat (num_elements h) < 2 ^ 31 ->
  exists h1, (if decide (hp_size h < child)%nat then
          match grow_size (hp_size h) with
          | inl e => inl e
          | inr n_size =>
              match realloc_heap true h n_size with
              | None => inl HeapRealloc
              | Some h => inr h
              end
          end
        else inr h) = inr h1 /\
    heap_inv h1 M /\ num_elements h1 = num_elements h /\ hp_min h1 = hp_min h /\
    child = (num_elements h + 1)%nat /\ (child <= hp_size h1)%nat.
Proof.
  intros Hinv Hn. pose proof Hinv as (H1 & Hmax & Hlen & Hle & H0 & v & (Hv & Hl & Hf) & Ho).
  assert (Ec : child = (num_elements h + 1)%nat)
    by (apply wrap32_small; unfold UINT_MAX in *; lia).
  clearbody child. case_decide as Hfull; cycle 1.
  { exists h. split_and!; try done; lia. }
  destruct (grow_size_spec (hp_size h)) as (n & -> & Hgt & Hmax'); [lia..|].
  cbn [realloc_heap]. rewrite wrap32_small by (unfold UINT_MAX in *; lia). rewrite Nat.add_1_r.
  eexists. split; [done|]. simpl. split; [|split_and!; try done; lia].
  split; [simpl; lia|]. split; [done|]. simpl. rewrite length_resize, slot_resize by lia.
  split_and!; try done; try lia. exists v. split; [|done]. split; [|split; [|done]].
  - intros i Hi. rewrite slot_resize by lia. by apply Hv.
  - rewrite length_resize. lia.
Qed.

(** A new last element is the only possible exception. *)
Lemma insert_last v n x M :
  ordered cmp v n -> fields_ok v n M 0 None -> M !! x = Some 0%nat ->
  ordered_up cmp (<[S n := x]> v) (S n) (S n) /\
  fields_ok (<[S n := x]> v) (S n) M (S n) (Some x).
Proof.
  intros Ho Hf Hx. split; [|by apply fields_ok_last]. split.
  - intros i Hi Hne. destruct (half_lt i) as [? ?]; [lia|].
    rewrite !fn_lookup_insert_ne by lia. apply Ho. lia.
  - intros i Hi Ei _. destruct (half_lt i) as [? ?]; lia.
Qed.

Lemma insert_spec h M data :
  heap_inv h M -> Z.of_nat (num_elements h) < 2 ^ 31 -> M !! data = Some 0%nat ->
  exists h' M', fr_heap_insert cmp true (Some h) M data = Some (Some h', M', inr ()) /\
    heap_inv h' M' /\ num_elements h' = S (num_elements h) /\
    same_members M M' (Some data) /\ member M' data.
Proof.
  intros Hinv Hn Hd. unfold fr_heap_insert, index_get. rewrite Hd. cbn [mbind option_bind].
  change (fr_heap_entry_inserted 0) with false. cbv iota.
  destruct (insert_room h M Hinv Hn) as (h1 & -> & Hinv1 & En & Em & Ec & Hroom).
  rewrite Ec in *. clear Hinv. rewrite <- En in *.
  destruct Hinv1 as (H1 & Hmax & Hlen & Hle & H0 & v & (Hv & Hl & Hf) & Ho).
  destruct (set_slot_defined (hp_p h1) (num_elements h1 + 1) data) as (p1 & Ep1 & Lp1); [lia|].
  rewrite Ep1. cbn [mbind option_bind]. unfold fr_heap_bubble. rewrite decide_True by lia.
  rewrite Nat.add_1_r in *.
  set (n := num_elements h1) in *.
  destruct (insert_last v n data M Ho Hf Hd) as [Ho1 Hf1].
  assert (Hx : (<[S n := data]> v) (S n) = data) by apply fn_lookup_insert.
  destruct (bubble_loop_spec cmp (S n) p1 M (<[S n := data]> v) (S n) (S n))
    as (p' & M' & v' & E & Hat' & Ho' & (L' & S0' & Hsm) & Hmem).
  - lia.
  - lia.
  - rewrite Hx. split; [|split; [lia|done]]. intros i Hi.
    destruct (decide (i = S n)) as [->|Hne].
    + by rewrite (slot_set_same _ _ _ _ Ep1), Hx.
    + rewrite (slot_set_other _ _ _ _ _ Ep1) by done.
      rewrite fn_lookup_insert_ne by done. apply Hv. lia.
  - done.
  - rewrite Hx. eauto.
  - rewrite Hx in *. rewrite E. cbn [mbind option_bind]. rewrite wrap32_small
      by (unfold UINT_MAX in *; lia).
    eexists _, M'. split; [done|]. split; [|done].
    split; [done|]. split; [done|]. simpl. split; [lia|]. split; [lia|]. split.
    + rewrite S0', (slot_set_other _ _ _ _ _ Ep1) by lia. done.
    + exists v'. done.
Qed.

(** Shrinking keeps the slots that are still needed. *)
Lemma shrink_spec ok size min n p :
  (1 <= size)%nat -> (n < size)%nat -> Z.of_nat size < UINT_MAX -> length p = S size ->
  Z.of_nat (2 * n) < 2 ^ 32 ->
  let h := shrink ok (Heap size min n p) in
  num_elements h = n /\ hp_min h = min /\ (1 <= hp_size h)%nat /\
  Z.of_nat (hp_size h) < UINT_MAX /\ length (hp_p h) = S (hp_size h) /\
  (n < hp_size h)%nat /\ (forall i, (i <= S n)%nat -> slot (hp_p h) i = slot p i).
Proof.
  intros H1 Hn Hmax Hlen H32. unfold shrink. simpl.
  rewrite wrap32_small by lia. unfold round_up_half.
  assert (Hk : forall h, h = Heap size min n p -> num_elements h = n /\ hp_min h = min /\
    (1 <= hp_size h)%nat /\ Z.of_nat (hp_size h) < UINT_MAX /\
    length (hp_p h) = S (hp_size h) /\ (n < hp_size h)%nat /\
    (forall i, (i <= S n)%nat -> slot (hp_p h) i = slot p i))
    by (intros h ->; simpl; split_and!; done || lia).
  case_decide as Hhalf; [|by apply Hk]. case_decide; [|by apply Hk].
  destruct ok; [|by apply Hk]. cbn [realloc_heap].
  assert (Hr : (n < 1 + (size - 1) / 2 /\ 1 + (size - 1) / 2 <= size)%nat).
  { pose proof (Nat.div_mod_eq (size - 1) 2).
    pose proof (Nat.mod_upper_bound (size - 1) 2 ltac:(lia)). lia. }
  rewrite wrap32_small by (unfold UINT_MAX in *; lia).
  cbn [num_elements hp_min hp_size hp_p]. split_and!; try done; try lia.
  - rewrite length_resize. lia.
  - intros i Hi. apply slot_resize. lia.
Qed.

(** The last element fills the hole. *)
Lemma fill_hole v n c M :
  ordered_hole cmp v (S n) c -> fields_ok v (S n) M c None -> (1 <= c <= n)%nat ->
  (S n < 2 * c)%nat ->
  ordered_up cmp (<[c := v (S n)]> v) n c /\
  fields_ok (<[c := v (S n)]> v) n M c (Some (v (S n))).
Proof.
  intros [O1 O2] Hf Hc Hleaf. split; [|by apply fields_ok_fill].
  assert (Hnc : forall i, (i <= S n)%nat -> (i / 2)%nat <> c)
    by (intros i Hi E; apply half_child in E; lia).
  split.
  - intros i Hi Hne. destruct (half_lt i) as [? ?]; [lia|].
    rewrite !fn_lookup_insert_ne by (first [done|apply not_eq_sym, Hnc; lia]).
    apply O1; [lia|done|apply Hnc; lia].
  - intros i Hi Ei. exfalso. by apply (Hnc i); [lia|].
Qed.

(** Taking the object out of slot [c] makes that slot a hole. *)
Lemma open_hole v n c M :
  ordered cmp v n -> fields_ok v n M 0 None -> (1 <= c <= n)%nat ->
  ordered_hole cmp v n c /\ fields_ok v n (<[v c := 0%nat]> M) c None.
Proof.
  intros Ho Hf Hc. split; [|by apply fields_ok_open].
  split; [intros i Hi _ _; by apply Ho|]. intros i Hi Ei Hc2.
  apply (cmp_trans _ (v c)); [apply Ho; lia|]. rewrite <- Ei. apply Ho. lia.
Qed.

(** The members after extraction. *)
Definition removed (M M' : gmap Z nat) (data : Z) : Prop :=
  M' !! data = Some 0%nat /\
  forall y, (is_Some (M !! y) <-> is_Some (M' !! y)) /\
            (y <> data -> member M y <-> member M' y).

Lemma removed_frame M M1 M' data :
  M1 = <[data := 0%nat]> M -> is_Some (M !! data) -> same_members M1 M' None ->
  removed M M' data.
Proof.
  intros -> Hs Hsm. split.
  - destruct (Hsm data) as [A B]. rewrite lookup_insert_eq in A.
    destruct (M' !! data) as [k|] eqn:E; [|by destruct A as [[? ?] _]; eauto].
    destruct (decide (k = 0%nat)) as [->|Hk]; [done|]. exfalso.
    destruct B as [_ B]; [done|]. destruct B as (k' & Hk' & E'); [by exists k|].
    rewrite lookup_insert_eq in E'. congruence.
  - intros y. destruct (Hsm y) as [A B]. split.
    + rewrite <- A. destruct (decide (data = y)) as [<-|]; [|by rewrite lookup_insert_ne].
      rewrite lookup_insert_eq. split; eauto.
    + intros Hy. rewrite <- B by done. unfold member. by rewrite lookup_insert_ne by done.
Qed.

Lemma extract_fill ok size min n p M v hole :
  (1 <= size)%nat -> (n < size)%nat -> Z.of_nat size < UINT_MAX -> length p = S size ->
  Z.of_nat (2 * n) < 2 ^ 32 -> slot p 0 = Some UINTPTR_MAX -> (1 <= hole <= S n)%nat ->
  (S n < 2 * hole)%nat -> heap_at p M v (S n) hole None -> ordered_hole cmp v (S n) hole ->
  exists h' M', (let h := shrink ok (Heap size min n p) in
    if decide (hole <> S n) then
      last ← slot (hp_p h) (S n);
      p ← set_slot (hp_p h) hole last;
      '(p, M) ← fr_heap_bubble cmp p M hole;
      Some (Some (Heap (hp_size h) (hp_min h) (num_elements h) p), M, inr ())
    else Some (Some h, M, inr ())) = Some (Some h', M', @inr heap_err unit ()) /\
    heap_inv h' M' /\ num_elements h' = n /\ same_members M M' None.
Proof.
  intros H1 Hn Hmax Hlen H32 H0 Hh Hleaf (Hv & Hl & Hf) Ho.
  pose proof (shrink_spec ok size min n p H1 Hn Hmax Hlen H32) as HS. cbv zeta in HS |- *.
  set (h := shrink ok (Heap size min n p)) in *. clearbody h.
  destruct HS as (En & Em & Hs1 & Hs2 & Hs3 & Hs4 & Hslot).
  assert (Hv1 : view (hp_p h) (S n) v).
  { intros i Hi. rewrite Hslot by lia. by apply Hv. }
  assert (Hz : slot (hp_p h) 0 = Some UINTPTR_MAX) by (rewrite Hslot by lia; done).
  case_decide as Hne; cycle 1.
  { assert (hole = S n) as -> by lia. exists h, M. split; [done|].
    split; [|split; [done|apply same_members_refl]].
    split_and!; try done; try lia. rewrite En. exists v.
    split; [split; [|split; [lia|by apply fields_ok_drop]]|].
    - intros i Hi. apply Hv1. lia.
    - intros i Hi. destruct (half_lt i) as [? ?]; [lia|]. apply Ho; lia. }
  destruct (fill_hole v n hole M Ho Hf) as [Ho1 Hf1]; [lia..|].
  rewrite (Hv1 (S n)) by lia. cbn [mbind option_bind].
  destruct (set_slot_defined (hp_p h) hole (v (S n))) as (p1 & Ep1 & Lp1); [lia|].
  rewrite Ep1. cbn [mbind option_bind]. unfold fr_heap_bubble. rewrite decide_True by lia.
  set (w := <[hole := v (S n)]> v) in *.
  assert (Hw : w hole = v (S n)) by apply fn_lookup_insert.
  destruct Hf as (F1 & F2 & F3). pose proof (F1 (S n) ltac:(lia) ltac:(lia)) as Elast.
  destruct (bubble_loop_spec cmp hole p1 M w n hole)
    as (p' & M' & v' & E & Hat' & Ho' & (L' & S0' & Hsm) & Hmem).
  - lia.
  - lia.
  - rewrite Hw. split; [|split; [lia|done]]. intros i Hi.
    eapply (view_set _ (S n)); [exact Hv1|exact Ep1|lia].
  - done.
  - rewrite Hw. eauto.
  - rewrite Hw in *. rewrite E. cbn [mbind option_bind]. eexists _, M'. split; [done|].
    split; [|split; [done|]].
    + split; [done|]. split; [done|]. simpl. rewrite En. split; [lia|]. split; [lia|].
      split; [rewrite S0', (slot_set_other _ _ _ _ _ Ep1) by lia; done|]. by exists v'.
    + intros y. destruct (Hsm y) as [A B]. split; [done|]. intros _.
      destruct (decide (y = v (S n))) as [->|]; [|apply B; congruence].
      split; [done|]. intros _. exists (S n). split; [lia|done].
Qed.

Lemma extract_spec ok h M data :
  heap_inv h M -> Z.of_nat (num_elements h) < 2 ^ 31 -> member M data ->
  exists h' M', fr_heap_extract cmp ok (Some h) M data = Some (Some h', M', inr ()) /\
    heap_inv h' M' /\ num_elements h = S (num_elements h') /\ removed M M' data.
Proof.
  intros (H1 & Hmax & Hlen & Hle & H0 & v & (Hv & Hl & Hf) & Ho) H31 (c & Hc0 & Hc).
  pose proof Hf as (F1 & F2 & _). destruct (F2 data c) as (Hcn & _ & Ec); [done..|].
  unfold fr_heap_extract, index_get. rewrite Hc. cbn [mbind option_bind].
  rewrite decide_False by lia. rewrite (Hv c Hcn), Ec. cbn [mbind option_bind].
  rewrite decide_False by (intros H'; by apply H').
  rewrite index_set_defined by eauto. cbn [mbind option_bind].
  destruct (open_hole v (num_elements h) c M Ho Hf Hcn) as [Ho1 Hf1]. rewrite Ec in Hf1.
  destruct (num_elements h) as [|n] eqn:En; [lia|].
  destruct (sift_loop_spec cmp (S (S n)) (hp_p h) (<[data := 0%nat]> M) v (S n) c)
    as (p1 & M1 & v1 & hole & -> & Hh & Hleaf & Hat1 & Ho2 & (L1 & S1 & Hsm1));
    [lia|lia|lia|by split|done|].
  cbn [mbind option_bind]. replace (S n - 1)%nat with n by lia.
  destruct (extract_fill ok (hp_size h) (hp_min h) n p1 M1 v1 hole)
    as (h' & M' & E & Hinv & En' & Hsm); try done; try lia; [by rewrite S1|].
  cbv zeta in E. rewrite E. exists h', M'. split; [done|]. split; [done|]. split; [lia|].
  eapply removed_frame; [done|eauto|]. by eapply same_members_trans.
Qed.

(** The first slot holds a smallest element. *)
Lemma ordered_min v n i : ordered cmp v n -> (1 <= i <= n)%nat -> cmp (v 1%nat) (v i) <= 0.
Proof.
  intros Ho. induction (lt_wf i) as [i _ IH]. intros Hi.
  destruct (decide (i = 1%nat)) as [->|].
  - destruct (decide (cmp (v 1%nat) (v 1%nat) < 0)) as [|H']; [lia|]. by apply cmp_total in H'.
  - destruct (half_lt i) as [? ?]; [lia|]. apply (cmp_trans _ (v (i / 2)%nat)).
    + apply IH; lia.
    + apply Ho. lia.
Qed.

Lemma pop_spec ok h M :
  heap_inv h M -> Z.of_nat (num_elements h) < 2 ^ 31 ->
  if decide (num_elements h = 0)%nat
  then fr_heap_pop cmp ok (Some h) M = Some (Some h, M, None) /\ (forall y, ~ member M y)
  else exists h' M' d, fr_heap_pop cmp ok (Some h) M = Some (Some h', M', Some d) /\
    heap_inv h' M' /\ num_elements h = S (num_elements h') /\ member M d /\
    removed M M' d /\ (forall y, member M y -> cmp d y <= 0).
Proof.
  intros Hinv H31. pose proof Hinv as (_ & _ & _ & _ & _ & v & (Hv & Hl & Hf) & Ho).
  pose proof Hf as (F1 & F2 & _). unfold fr_heap_pop. case_decide as Hn.
  { split; [done|]. intros y (k & Hk & Ek). destruct (F2 y k) as (? & _); [done..|]. lia. }
  rewrite (Hv 1%nat) by lia. cbn [mbind option_bind].
  assert (Hmem : member M (v 1%nat)) by (exists 1%nat; split; [lia|apply F1; lia]).
  destruct (extract_spec ok h M _ Hinv H31 Hmem) as (h' & M' & -> & Hinv' & En & Hrem).
  cbn [mbind option_bind]. exists h', M', (v 1%nat). split_and!; try done; try apply Hrem.
  intros y (k & Hk & Ek). destruct (F2 y k) as (Hkn & _ & <-); [done..|].
  by eapply ordered_min.
Qed.

(** Popping until the heap is empty. *)
Fixpoint drain (fuel : nat) (h : fr_heap_t) (M : gmap Z nat) : option (list Z) :=
  match fuel with
  | O => None
  | S fuel' =>
      r ← fr_heap_pop cmp true (Some h) M;
      match r with
      | (Some h, M, Some d) => l ← drain fuel' h M; Some (d :: l)
      | _ => Some []
      end
  end.

Lemma drain_spec fuel : forall h M,
  heap_inv h M -> Z.of_nat (num_elements h) < 2 ^ 31 -> (num_elements h < fuel)%nat ->
  exists l, drain fuel h M = Some l /\ StronglySorted (fun a b => cmp a b <= 0) l /\ NoDup l /\
    length l = num_elements h /\ forall y, y ∈ l <-> member M y.
Proof.
  induction fuel as [|fuel IH]; intros h M Hinv H31 Hf; [lia|]. cbn [drain].
  pose proof (pop_spec true h M Hinv H31) as HP. case_decide as Hn.
  - destruct HP as [-> Hno]. cbn [mbind option_bind]. exists []. split; [done|].
    split; [constructor|]. split; [constructor|]. split; [done|].
    intros y. rewrite elem_of_nil. split; [done|apply Hno].
  - destruct HP as (h' & M' & d & -> & Hinv' & En & Hmem & [Hd Hrem] & Hmin).
    cbn [mbind option_bind].
    destruct (IH h' M' Hinv') as (l & -> & Hs & Hnd & Hlen & Hl); [lia..|].
    cbn [mbind option_bind].
    assert (Hdl : d ∉ l).
    { rewrite Hl. intros (k & Hk & Ek). rewrite Hd in Ek. congruence. }
    assert (Hin : forall y, y ∈ l -> member M y /\ y <> d).
    { intros y Hy. assert (y <> d) by (intros ->; done).
      split; [|done]. apply Hrem; [done|]. by apply Hl. }
    exists (d :: l). split; [done|]. split_and!; [| |simpl; lia|].
    + constructor; [done|]. apply list.Forall_forall. intros y Hy. apply Hmin, Hin, Hy.
    + by constructor.
    + intros y. rewrite elem_of_cons. split.
      * intros [->|Hy]; [done|]. by apply Hin.
      * intros Hy. destruct (decide (y = d)); [by left|right]. apply Hl. by apply Hrem.
Qed.

(** What the second loop of the consistency check establishes. *)
Lemma verify_order_iff fuel h : forall i,
  Z.of_nat (2 * num_elements h + 1) < 2 ^ 32 -> (1 <= i)%nat ->
  (i = 1 \/ i <= num_elements h)%nat -> (num_elements h < fuel + i)%nat ->
  verify_order cmp fuel h i = true <->
  forall j, (i <= j / 2)%nat -> (2 <= j <= num_elements h)%nat ->
    ordered_slots cmp h (j / 2) j = true.
Proof.
  induction fuel as [|fuel IH]; intros i H32 Hi1 Hi Hf.
  { split; [|done]. intros _ j Hj Hjn. destruct (half_lt j) as [? ?]; lia. }
  cbn [verify_order]. unfold HEAP_LEFT, HEAP_RIGHT.
  rewrite !wrap32_small by lia. destruct (half_double i) as [D1 D2].
  assert (Hsplit : forall j, (i <= j / 2)%nat ->
    (j = 2 * i \/ j = 2 * i + 1 \/ i + 1 <= j / 2)%nat).
  { intros j Hj. destruct (decide (i + 1 <= j / 2)%nat); [lia|].
    destruct (half_child j i); lia. }
  assert (Hdbl : forall j, (2 * (j / 2) <= j)%nat).
  { intros j. pose proof (Nat.div_mod_eq j 2). lia. }
  destruct (decide (num_elements h < 2 * i)%nat) as [Hl|Hl].
  { split; [|done]. intros _ j Hj Hjn. pose proof (Hdbl j). lia. }
  rewrite andb_true_iff.
  destruct (decide (num_elements h < 2 * i + 1)%nat) as [Hr|Hr].
  - split.
    + intros [Ho _] j Hj Hjn. pose proof (Hdbl j).
      destruct (Hsplit j Hj) as [->|[->|?]]; [by rewrite D1|lia|lia].
    + intros H'. split; [|done]. rewrite <- D1 at 1. apply H'; [by rewrite D1|lia].
  - rewrite andb_true_iff, IH by lia. split.
    + intros (Ho1 & Ho2 & H') j Hj Hjn.
      destruct (Hsplit j Hj) as [->|[->|?]]; [by rewrite D1|by rewrite D2|by apply H'].
    + intros H'. split_and!.
      * rewrite <- D1 at 1. apply H'; [by rewrite D1|lia].
      * rewrite <- D2 at 1. apply H'; [by rewrite D2|lia].
      * intros j Hj Hjn. apply H'; lia.
Qed.

Lemma ordered_slots_view h v i j :
  view (hp_p h) (num_elements h) v -> (1 <= i <= num_elements h)%nat ->
  (1 <= j <= num_elements h)%nat ->
  ordered_slots cmp h i j = true <-> cmp (v i) (v j) <= 0.
Proof.
  intros Hv Hi Hj. unfold ordered_slots. rewrite (Hv i), (Hv j) by done.
  by rewrite bool_decide_eq_true.
Qed.

Lemma verify_slots_iff h M :
  verify_slots h M = true <->
  exists v, view (hp_p h) (num_elements h) v /\ forall i, (1 <= i <= num_elements h)%nat -> M !! v i = Some i.
Proof.
  unfold verify_slots, index_get. rewrite forallb_forall. split.
  - intros H'. exists (fun i => default 0 (slot (hp_p h) i)).
    assert (Hs : forall i, (1 <= i <= num_elements h)%nat ->
      exists d, slot (hp_p h) i = Some d /\ M !! d = Some i).
    { intros i Hi. specialize (H' i). rewrite in_seq in H'. specialize (H' ltac:(lia)).
      destruct (slot (hp_p h) i) as [d|]; [|done]. apply bool_decide_eq_true in H'. eauto. }
    split; intros i Hi; destruct (Hs i Hi) as (d & -> & Hd); done.
  - intros (v & Hv & Hi) i Hin. rewrite in_seq in Hin.
    rewrite (Hv i) by lia. apply bool_decide_eq_true, Hi. lia.
Qed.

Lemma verify_iff h M :
  Z.of_nat (2 * num_elements h + 1) < 2 ^ 32 ->
  fr_heap_verify cmp h M = true <->
  (num_elements h <= hp_size h)%nat /\ slot (hp_p h) 0 = Some UINTPTR_MAX /\
  exists v, view (hp_p h) (num_elements h) v /\
    (forall i, (1 <= i <= num_elements h)%nat -> M !! v i = Some i) /\
    ordered cmp v (num_elements h).
Proof.
  intros H32. unfold fr_heap_verify. rewrite !andb_true_iff, !bool_decide_eq_true.
  rewrite verify_slots_iff, verify_order_iff by lia. split.
  - intros [[[Hn H0] (v & Hv & Hi)] Ho]. split; [done|]. split; [done|].
    exists v. split; [done|]. split; [done|]. intros j Hj.
    destruct (half_lt j) as [? ?]; [lia|].
    apply (ordered_slots_view h v); [done|lia|lia|]. apply Ho; lia.
  - intros (Hn & H0 & v & Hv & Hi & Ho). split; [split; [done|by exists v]|].
    intros j Hj Hjn. destruct (half_lt j) as [? ?]; [lia|].
    apply (ordered_slots_view h v); [done|lia|lia|]. apply Ho. lia.
Qed.

Lemma alloc_inv init h M :
  fr_heap_alloc true init = Some (Some h) -> Z.of_nat init < UINT_MAX ->
  (forall y, ~ member M y) -> heap_inv h M /\ num_elements h = 0%nat.
Proof.
  unfold fr_heap_alloc. set (n := if decide (init = 0)%nat then _ else init).
  intros Eh Hinit HM.
  assert (Hn : (1 <= n)%nat /\ Z.of_nat n < UINT_MAX)
    by (unfold n, UINT_MAX in *; case_decide; unfold INITIAL_CAPACITY; lia).
  clearbody n. rewrite wrap32_small in Eh by (unfold UINT_MAX in *; lia). cbv zeta in Eh.
  destruct (set_slot_defined (replicate (n + 1) None) 0 UINTPTR_MAX) as (p & Ep & Lp);
    [rewrite length_replicate; lia|].
  rewrite Ep in Eh. injection Eh as <-. rewrite length_replicate in Lp.
  split; [|done]. split; [simpl; lia|]. split; [simpl; lia|].
  cbn [hp_p hp_size num_elements]. split; [lia|]. split; [lia|].
  split; [by eapply slot_set_same|].
  exists (fun _ => 0). split; [|intros i; lia].
  split; [intros i; lia|]. split; [simpl; lia|]. split; [intros i; lia|]. split; [|done].
  intros y k _ Hk Hk0. exfalso. by apply (HM y); exists k.
Qed.

Fixpoint insert_all (h : fr_heap_t) (M : gmap Z nat) (xs : list Z)
    : option (fr_heap_t * gmap Z nat) :=
  match xs with
  | [] => Some (h, M)
  | x :: xs =>
      r ← fr_heap_insert cmp true (Some h) M x;
      match r with
      | (Some h, M, inr _) => insert_all h M xs
      | _ => None
      end
  end.

Lemma insert_all_spec xs : forall h M,
  heap_inv h M -> Z.of_nat (num_elements h + length xs) <= 2 ^ 31 -> NoDup xs ->
  Forall (fun x => M !! x = Some 0%nat) xs ->
  exists h' M', insert_all h M xs = Some (h', M') /\ heap_inv h' M' /\
    num_elements h' = (num_elements h + length xs)%nat /\
    forall y, member M' y <-> member M y \/ y ∈ xs.
Proof.
  induction xs as [|x xs IH]; intros h M Hinv Hn Hnd Hz; cbn [insert_all length] in *.
  { exists h, M. split_and!; try done; try lia. intros y. rewrite elem_of_nil. tauto. }
  apply Forall_cons_1 in Hz as [Hx Hz]. apply list.NoDup_cons in Hnd as [Hxs Hnd].
  destruct (insert_spec h M x Hinv) as (h1 & M1 & -> & Hinv1 & En & Hsm & Hmem); [lia|done|].
  cbn [mbind option_bind].
  destruct (IH h1 M1 Hinv1) as (h' & M' & -> & Hinv' & En' & Hm'); [lia|done| |].
  - apply list.Forall_forall. intros y Hy. destruct (Hsm y) as [A B].
    assert (Hyx : Some y <> Some x) by (intros [= ->]; done).
    eapply list.Forall_forall in Hz; [|exact Hy]. simpl in Hz.
    destruct (M1 !! y) as [k|] eqn:Ek; [|by destruct A as [[? ?] _]; eauto].
    destruct (decide (k = 0%nat)) as [->|Hk]; [done|]. exfalso.
    destruct (B Hyx) as [_ B2]. destruct B2 as (k' & Hk' & Ek'); [by exists k|]. congruence.
  - exists h', M'. split_and!; try done; try lia. intros y. rewrite Hm', elem_of_cons.
    destruct (Hsm y) as [_ B]. destruct (decide (y = x)) as [->|Hne]; [tauto|].
    rewrite <- B by congruence. tauto.
Qed.
End Correct.

(** ** Theorems *)

(** C11: inserting distinct objects into a fresh heap and popping until it is empty
    yields exactly those objects, each once, in the order of the comparison
    callback: no insertion or pop fails, loops forever or touches memory outside
    the array, whatever the initial capacity (the array grows and shrinks on the
    way). *)
Theorem heap_sorts (cmp : Z -> Z -> Z) `{!HeapCmp cmp} init h M xs :
  fr_heap_alloc true init = Some (Some h) -> Z.of_nat init < UINT_MAX ->
  Z.of_nat (length xs) < 2 ^ 31 -> NoDup xs ->
  (forall y, ~ member M y) -> Forall (fun x => M !! x = Some 0%nat) xs ->
  exists h' M' l, insert_all cmp h M xs = Some (h', M') /\
    drain cmp (S (length xs)) h' M' = Some l /\ l ≡ₚ xs /\
    StronglySorted (fun a b => cmp a b <= 0) l.
Proof.
  intros Hh Hi Hlen Hnd HM Hz. destruct (alloc_inv cmp _ _ M Hh Hi HM) as [Hinv En].
  destruct (insert_all_spec cmp xs h M Hinv) as (h' & M' & Hins & Hinv' & En' & Hm);
    [rewrite En; unfold UINT_MAX; lia|done|done|].
  destruct (drain_spec cmp (S (length xs)) h' M' Hinv')
    as (l & Hd & Hs & Hndl & Hlenl & Hl); [rewrite En', En; lia..|].
  exists h', M', l. split; [done|]. split; [done|]. split; [|done].
  apply NoDup_Permutation; [done|done|]. intros y. rewrite Hl, Hm. split; [|by right].
  intros [Hy|Hy]; [by destruct (HM y)|done].
Qed.

(** Objects ordered by address. *)
Definition example_cmp (a b : Z) : Z := if decide (a < b) then -1 else if decide (b < a) then 1 else 0.

#[export] Instance example_cmp_ok : HeapCmp example_cmp.
Proof.
  split; unfold example_cmp.
  - intros a b. repeat case_decide; lia.
  - intros a b c. repeat case_decide; lia.
Qed.

Definition example_fields : gmap Z nat := list_to_map [(30, 0%nat); (10, 0%nat); (20, 0%nat)].

Lemma example_fields_empty y : ~ member example_fields y.
Proof.
  intros (k & Hk & E). unfold example_fields in E. apply elem_of_list_to_map_2 in E.
  rewrite !elem_of_cons, elem_of_nil in E.
  by destruct E as [[= -> ->]|[[= -> ->]|[[= -> ->]|[]]]].
Qed.

Lemma heap_sorts_witness :
  exists h' M' l, insert_all example_cmp (Heap 1 1 0 [Some UINTPTR_MAX; None]) example_fields
      [30; 10; 20] = Some (h', M') /\
    drain example_cmp 4 h' M' = Some l /\ l ≡ₚ [30; 10; 20] /\
    StronglySorted (fun a b => example_cmp a b <= 0) l.
Proof.
  apply (heap_sorts example_cmp 1); [done|unfold UINT_MAX; lia|simpl; lia| | |].
  - by apply (bool_decide_unpack _); vm_compute.
  - apply example_fields_empty.
  - by apply (bool_decide_unpack _); vm_compute.
Defined.

Definition example_heap : fr_heap_t :=
  Heap 4 4 3 [Some UINTPTR_MAX; Some 10; Some 30; Some 20; None].
Definition example_heap_fields : gmap Z nat :=
  list_to_map [(10, 1%nat); (30, 2%nat); (20, 3%nat); (40, 0%nat)].

Lemma example_heap_inv : heap_inv example_cmp example_heap example_heap_fields.
Proof.
  split; [simpl; lia|]. split; [simpl; unfold UINT_MAX; lia|]. split; [done|].
  split; [simpl; lia|]. split; [done|].
  exists (fun i => match i with 1%nat => 10 | 2%nat => 30 | _ => 20 end).
  split; [split; [|split; [simpl; lia|split; [|split]]]|].
  - intros i Hi. simpl in Hi. by destruct i as [|[|[|[|]]]]; try lia.
  - intros i Hi _. simpl in Hi. by destruct i as [|[|[|[|]]]]; try lia.
  - intros y k _ E Hk. apply elem_of_list_to_map_2 in E.
    rewrite !elem_of_cons, elem_of_nil in E.
    destruct E as [[= -> ->]|[[= -> ->]|[[= -> ->]|[[= -> ->]|[]]]]]; simpl; try done; split_and!; done || lia.
  - done.
  - intros i Hi. simpl in Hi. by destruct i as [|[|[|[|]]]]; try lia.
Qed.

(** [fr_heap_insert] on a well-formed heap.  An object that is not in the heap is
    inserted (when the array can be grown): the heap stays well-formed, has one
    element more, and exactly that object has joined it.  An object that is already
    in the heap is refused and nothing changes; so is one for which the array cannot
    be grown. *)
Theorem heap_insert_correct (cmp : Z -> Z -> Z) `{!HeapCmp cmp} h M data k ok :
  heap_inv cmp h M -> Z.of_nat (num_elements h) < 2 ^ 31 -> M !! data = Some k ->
  if decide (k <> 0%nat) then
    fr_heap_insert cmp ok (Some h) M data = Some (Some h, M, inl HeapInserted)
  else if decide (ok = false /\ num_elements h = hp_size h) then
    fr_heap_insert cmp ok (Some h) M data = Some (Some h, M, inl HeapRealloc)
  else exists h' M', fr_heap_insert cmp ok (Some h) M data = Some (Some h', M', inr ()) /\
      heap_inv cmp h' M' /\ num_elements h' = S (num_elements h) /\
      forall y, member M' y <-> member M y \/ y = data.
Proof.
  intros Hinv Hn Hd. destruct (decide (k <> 0%nat)) as [Hk|Hk].
  { unfold fr_heap_insert, index_get. rewrite Hd. simpl. unfold fr_heap_entry_inserted.
    destruct (Nat.ltb_spec 0 k); [done|lia]. }
  assert (k = 0%nat) as -> by lia.
  pose proof Hinv as (H1 & Hmax & _ & Hle & _). pose proof (wrap32_small (num_elements h + 1)) as Hw.
  case_decide as Hfull.
  { destruct Hfull as [-> E]. unfold fr_heap_insert, index_get. rewrite Hd.
    cbn [mbind option_bind]. change (fr_heap_entry_inserted 0) with false. cbv iota.
    rewrite Hw by (unfold UINT_MAX in *; lia). rewrite decide_True by lia.
    destruct (grow_size_spec (hp_size h)) as (n & -> & _); [lia|unfold UINT_MAX in *; lia|].
    done. }
  destruct (insert_spec cmp h M data Hinv Hn Hd) as (h' & M' & E & Hinv' & En & Hsm & Hmem).
  exists h', M'. split; [|split_and!; try done].
  - rewrite <- E. unfold fr_heap_insert. destruct ok; [done|].
    rewrite Hw by (unfold UINT_MAX in *; lia).
    rewrite !(decide_False (P := (hp_size h < num_elements h + 1)%nat)) by lia. done.
  - intros y. destruct (Hsm y) as [_ B]. destruct (decide (y = data)) as [->|Hne]; [tauto|].
    rewrite B by congruence. tauto.
Qed.

Lemma heap_insert_correct_witness :
  exists h' M', fr_heap_insert example_cmp false (Some example_heap) example_heap_fields 40 =
      Some (Some h', M', inr ()) /\
    heap_inv example_cmp h' M' /\ num_elements h' = 4%nat /\
    forall y, member M' y <-> member example_heap_fields y \/ y = 40.
Proof.
  apply (heap_insert_correct example_cmp example_heap example_heap_fields 40 0 false).
  - exact example_heap_inv.
  - simpl. unfold UINT_MAX. lia.
  - done.
Defined.

(** [fr_heap_extract] removes any object that is in a well-formed heap, wherever it
    sits, and nothing else: the heap stays well-formed, has one element less, the
    object's index is reset to "not inserted", and the other objects remain.  The
    shrinking of the array never loses an element. *)
Theorem heap_extract_correct (cmp : Z -> Z -> Z) `{!HeapCmp cmp} ok h M data :
  heap_inv cmp h M -> Z.of_nat (num_elements h) < 2 ^ 31 -> member M data ->
  exists h' M', fr_heap_extract cmp ok (Some h) M data = Some (Some h', M', inr ()) /\
    heap_inv cmp h' M' /\ num_elements h = S (num_elements h') /\
    M' !! data = Some 0%nat /\ forall y, member M' y <-> member M y /\ y <> data.
Proof.
  intros Hinv Hn Hm. destruct (extract_spec cmp ok h M data Hinv Hn Hm)
    as (h' & M' & E & Hinv' & En & Hd & Hrem).
  exists h', M'. split_and!; try done. intros y. destruct (Hrem y) as [_ B].
  destruct (decide (y = data)) as [->|Hne].
  - split; [|by intros [_ []]]. intros (k & Hk & Ek). congruence.
  - rewrite B by done. tauto.
Qed.

Lemma heap_extract_correct_witness :
  exists h' M', fr_heap_extract example_cmp true (Some example_heap) example_heap_fields 30 =
      Some (Some h', M', inr ()) /\
    heap_inv example_cmp h' M' /\ 3%nat = S (num_elements h') /\
    M' !! 30 = Some 0%nat /\
    forall y, member M' y <-> member example_heap_fields y /\ y <> 30.
Proof.
  apply (heap_extract_correct example_cmp true example_heap).
  - exact example_heap_inv.
  - simpl. lia.
  - exists 2%nat. done.
Defined.

(** [fr_heap_pop] on a well-formed heap returns a smallest object and removes it; it
    returns [NULL] exactly when the heap is empty. *)
Theorem heap_pop_min (cmp : Z -> Z -> Z) `{!HeapCmp cmp} ok h M :
  heap_inv cmp h M -> Z.of_nat (num_elements h) < 2 ^ 31 ->
  if decide (num_elements h = 0)%nat
  then fr_heap_pop cmp ok (Some h) M = Some (Some h, M, None) /\ (forall y, ~ member M y)
  else exists h' M' d, fr_heap_pop cmp ok (Some h) M = Some (Some h', M', Some d) /\
    heap_inv cmp h' M' /\ num_elements h = S (num_elements h') /\ member M d /\
    removed M M' d /\ (forall y, member M y -> cmp d y <= 0).
Proof. exact (pop_spec cmp ok h M). Qed.

Lemma heap_pop_min_witness :
  exists h' M' d, fr_heap_pop example_cmp true (Some example_heap) example_heap_fields =
      Some (Some h', M', Some d) /\
    heap_inv example_cmp h' M' /\ 3%nat = S (num_elements h') /\ member example_heap_fields d /\
    removed example_heap_fields M' d /\
    (forall y, member example_heap_fields y -> example_cmp d y <= 0).
Proof. apply (heap_pop_min example_cmp true example_heap); [exact example_heap_inv|simpl; lia]. Defined.

(** The consistency check [fr_heap_verify] passes exactly on heaps whose marker is
    intact, whose used slots hold objects that know their slot, and whose every
    element is ordered after its parent; in particular it passes on every heap the
    operations produce. *)
Theorem heap_verify_iff (cmp : Z -> Z -> Z) h M :
  Z.of_nat (2 * num_elements h + 1) < 2 ^ 32 ->
  (fr_heap_verify cmp h M = true <->
   (num_elements h <= hp_size h)%nat /\ slot (hp_p h) 0 = Some UINTPTR_MAX /\
   exists v, view (hp_p h) (num_elements h) v /\
     (forall i, (1 <= i <= num_elements h)%nat -> M !! v i = Some i) /\
     ordered cmp v (num_elements h)) /\
  (heap_inv cmp h M -> fr_heap_verify cmp h M = true).
Proof.
  intros H32. split; [by apply verify_iff|].
  intros (_ & _ & _ & Hle & H0 & v & (Hv & _ & Hf & _) & Ho). apply verify_iff; [done|].
  split; [done|]. split; [done|]. exists v. split; [done|]. split; [|done].
  intros i Hi. apply Hf; lia.
Qed.

Lemma heap_verify_iff_witness :
  fr_heap_verify example_cmp example_heap example_heap_fields = true.
Proof.
  apply (heap_verify_iff example_cmp example_heap example_heap_fields).
  - simpl. lia.
  - exact example_heap_inv.
Defined.

Lemma wrap32_uint_max n : Z.of_nat n = UINT_MAX -> wrap32 (n + 1) = 0%nat.
Proof.
  intros E. unfold wrap32. replace (Z.of_nat (n + 1)) with (2 ^ 32); [done|].
  unfold UINT_MAX in *. lia.
Qed.

Lemma grow_size_clamped size :
  UINT_MAX < 2 * Z.of_nat size -> Z.of_nat size < UINT_MAX ->
  exists n, grow_size size = inr n /\ Z.of_nat n = UINT_MAX.
Proof.
  intros H1 H2. unfold grow_size. exists (Z.to_nat UINT_MAX).
  split; [|unfold UINT_MAX; lia]. case_decide; [|lia]. case_decide; [lia|reflexivity].
Qed.

(** The 32-bit computation of the number of slots: asked for the largest initial capacity,
    the code allocates no slot at all and writes the marker outside the array. *)
Theorem heap_alloc_overflow init :
  Z.of_nat init = UINT_MAX -> fr_heap_alloc true init = None.
Proof.
  intros E. unfold fr_heap_alloc. rewrite decide_False by (unfold UINT_MAX in *; lia).
  by rewrite wrap32_uint_max.
Qed.

(** For the same reason a full heap of more than 2^31 - 1 elements cannot grow: the clamped
    size UINT_MAX reallocates the array to no slot, and the insertion writes outside it. *)
Theorem heap_grow_overflow (cmp : Z -> Z -> Z) h M data :
  UINT_MAX < 2 * Z.of_nat (hp_size h) -> Z.of_nat (hp_size h) < UINT_MAX ->
  num_elements h = hp_size h -> M !! data = Some 0%nat ->
  fr_heap_insert cmp true (Some h) M data = None.
Proof.
  intros Hbig Hmax En Hd. unfold fr_heap_insert, index_get. rewrite Hd.
  cbn [mbind option_bind]. change (fr_heap_entry_inserted 0) with false. cbv iota zeta.
  rewrite En, wrap32_small by (unfold UINT_MAX in *; lia). rewrite decide_True by lia.
  destruct (grow_size_clamped (hp_size h)) as (n & -> & Hn); [done..|].
  cbn [realloc_heap]. rewrite wrap32_uint_max by done. cbn [hp_p num_elements].
  unfold set_slot. rewrite decide_False by (rewrite length_resize; lia). done.
Qed.
