(* ===== verification/MinmaxHeap.v ===== *)
(** * Min-max heaps: [lib/util/minmax_heap.c] and [lib/util/minmax_heap.h]

    A min-max heap is an array of object pointers like the binary heap of Heap.v (slot 0 is
    a marker, every object stores its slot number), but the levels of the tree alternate:
    an element on a level of even depth precedes all its descendants, one on a level of odd
    depth follows them, so that both ends of the order can be looked at and removed.
    Slots, index fields ([M]) and the meaning of [None] are those of Heap.v, whose accessors
    and lemmas on index fields are used here. *)
From stdpp Require Import functions.
From S2P Require Import Prelude Heap.

(** [lib/util/math.h]: [64 - __builtin_clzll(num)]. *)
Definition fr_high_bit_pos (num : nat) : nat :=
  if decide (num = 0)%nat then 0 else (64 - (63 - Nat.log2 num))%nat.

Record minmax_heap_t := MinmaxHeap { mm_size : nat; mm_num : nat; mm_p : list (option Z) }.

Inductive minmax_err := MmInserted | MmFull | MmRealloc | MmExceeds | MmNotInHeap.

Definition HEAP_GRANDPARENT (x : nat) : nat := HEAP_PARENT (HEAP_PARENT x).

Definition HEAP_SWAP (p : list (option Z)) (i j : nat) : option (list (option Z)) :=
  a ← slot p i; b ← slot p j; p ← set_slot p i b; set_slot p j a.

(** [uint8_t depth(i)] *)
Definition depth (i : nat) : nat := Z.to_nat (u8 (Z.of_nat (fr_high_bit_pos i) - 1)).

Definition is_min_level_index (i : nat) : bool := (Nat.land (depth i) 1 =? 0)%nat.
Definition is_max_level_index (i : nat) : bool := negb (is_min_level_index i).

Definition is_descendant (candidate ancestor : nat) : bool :=
  let candidate_depth := depth candidate in
  let ancestor_depth := depth ancestor in
  if decide (candidate_depth < ancestor_depth)%nat then false else
  let level_min := shl32 1 (Z.of_nat (candidate_depth - ancestor_depth)) in
  u32 (Z.of_nat candidate - level_min) <? level_min.

(** The flags say whether the two allocations succeed; the inner [None] is [NULL]. *)
Definition fr_minmax_heap_alloc (hp_ok h_ok : bool) (init : nat) : option (option minmax_heap_t) :=
  let init := if decide (init = 0)%nat then INITIAL_CAPACITY else init in
  if negb hp_ok then Some None else
  if negb h_ok then Some None else
  p ← set_slot (replicate (wrap32 (init + 1)) None) 0 UINTPTR_MAX;
  Some (Some (MinmaxHeap init 0 p)).

Definition minmax_heap_expand (realloc_ok : bool) (h : minmax_heap_t) : minmax_err + minmax_heap_t :=
  let grow n_size :=
    if realloc_ok
    then inr (MinmaxHeap n_size (mm_num h) (resize (wrap32 (n_size + 1)) None (mm_p h)))
    else inl MmRealloc in
  if decide (UINT_MAX - Z.of_nat (mm_size h) < Z.of_nat (mm_size h)) then
    if decide (Z.of_nat (mm_size h) = UINT_MAX) then inl MmFull else grow (Z.to_nat UINT_MAX)
  else grow (wrap32 (2 * mm_size h)).

Definition has_children (n idx : nat) : bool := (HEAP_LEFT idx <=? n)%nat.
Definition has_grandchildren (n i : nat) : bool := (HEAP_LEFT (HEAP_LEFT i) <=? n)%nat.

Definition OFFSET_SET (p : list (option Z)) (M : gmap Z nat) (idx : nat) : option (gmap Z nat) :=
  d ← slot p idx; index_set M d idx.
Definition OFFSET_RESET (p : list (option Z)) (M : gmap Z nat) (idx : nat) : option (gmap Z nat) :=
  d ← slot p idx; index_set M d 0.

Definition fr_minmax_heap_entry_inserted (heap_idx : nat) : bool := (0 <? heap_idx)%nat.

Section Ops.
Variable cmp : Z -> Z -> Z.

(** [for (i = lwb; i <= upb; i++)]; the bounds are at most three apart. *)
Fixpoint min_loop (fuel : nat) (p : list (option Z)) (upb i min : nat) : option nat :=
  match fuel with
  | O => None
  | S fuel' =>
      if (i <=? upb)%nat then
        a ← slot p i;
        b ← slot p min;
        min_loop fuel' p upb (wrap32 (i + 1)) (if cmp a b <? 0 then i else min)
      else Some min
  end.

Definition min_child_or_grandchild (p : list (option Z)) (n idx : nat) : option nat :=
  if is_max_level_index idx || negb (has_grandchildren n idx) then
    let min := HEAP_LEFT idx in
    let upb := HEAP_RIGHT idx in
    if (upb <=? n)%nat then
      a ← slot p upb;
      b ← slot p min;
      Some (if cmp a b <? 0 then upb else min)
    else Some min
  else
    let '(min, lwb) :=
      if negb (has_children n (HEAP_RIGHT idx))
      then (HEAP_RIGHT idx, HEAP_LEFT (HEAP_LEFT idx))
      else (HEAP_LEFT (HEAP_LEFT idx), wrap32 (HEAP_LEFT (HEAP_LEFT idx) + 1)) in
    let upb := HEAP_RIGHT (HEAP_RIGHT idx) in
    let upb := if (n <? upb)%nat then n else upb in
    min_loop 5 p upb lwb min.

Fixpoint max_loop (fuel : nat) (p : list (option Z)) (upb i max : nat) : option nat :=
  match fuel with
  | O => None
  | S fuel' =>
      if (i <=? upb)%nat then
        a ← slot p i;
        b ← slot p max;
        max_loop fuel' p upb (wrap32 (i + 1)) (if 0 <? cmp a b then i else max)
      else Some max
  end.

Definition max_child_or_grandchild (p : list (option Z)) (n idx : nat) : option nat :=
  if is_min_level_index idx || negb (has_grandchildren n idx) then
    let max := HEAP_LEFT idx in
    let upb := HEAP_RIGHT idx in
    if (upb <=? n)%nat then
      a ← slot p upb;
      b ← slot p max;
      Some (if 0 <? cmp a b then upb else max)
    else Some max
  else
    let '(max, lwb) :=
      if negb (has_children n (HEAP_RIGHT idx))
      then (HEAP_RIGHT idx, HEAP_LEFT (HEAP_LEFT idx))
      else (HEAP_LEFT (HEAP_LEFT idx), wrap32 (HEAP_LEFT (HEAP_LEFT idx) + 1)) in
    let upb := HEAP_RIGHT (HEAP_RIGHT idx) in
    let upb := if (n <? upb)%nat then n else upb in
    max_loop 5 p upb lwb max.

(** [while (has_children(h, idx)) { ... }] and the final [OFFSET_SET]. *)
Fixpoint push_down_min (fuel : nat) (p : list (option Z)) (M : gmap Z nat) (n idx : nat)
    : option (list (option Z) * gmap Z nat) :=
  match fuel with
  | O => None
  | S fuel' =>
      let finish := M ← OFFSET_SET p M idx; Some (p, M) in
      if has_children n idx then
        m ← min_child_or_grandchild p n idx;
        a ← slot p m;
        b ← slot p idx;
        if 0 <=? cmp a b then finish else
        p ← HEAP_SWAP p idx m;
        M ← OFFSET_SET p M idx;
        '(p, M) ←
          (if decide (HEAP_GRANDPARENT m = idx) then
             a ← slot p m;
             b ← slot p (HEAP_PARENT m);
             if 0 <? cmp a b then
               p ← HEAP_SWAP p (HEAP_PARENT m) m;
               M ← OFFSET_SET p M (HEAP_PARENT m);
               Some (p, M)
             else Some (p, M)
           else Some (p, M));
        push_down_min fuel' p M n m
      else finish
  end.

Fixpoint push_down_max (fuel : nat) (p : list (option Z)) (M : gmap Z nat) (n idx : nat)
    : option (list (option Z) * gmap Z nat) :=
  match fuel with
  | O => None
  | S fuel' =>
      let finish := M ← OFFSET_SET p M idx; Some (p, M) in
      if has_children n idx then
        m ← max_child_or_grandchild p n idx;
        a ← slot p m;
        b ← slot p idx;
        if cmp a b <=? 0 then finish else
        p ← HEAP_SWAP p idx m;
        M ← OFFSET_SET p M idx;
        '(p, M) ←
          (if decide (HEAP_GRANDPARENT m = idx) then
             a ← slot p m;
             b ← slot p (HEAP_PARENT m);
             if cmp a b <? 0 then
               p ← HEAP_SWAP p (HEAP_PARENT m) m;
               M ← OFFSET_SET p M (HEAP_PARENT m);
               Some (p, M)
             else Some (p, M)
           else Some (p, M));
        push_down_max fuel' p M n m
      else finish
  end.

(** The index grows in every round, so one round more than elements is enough. *)
Definition push_down (p : list (option Z)) (M : gmap Z nat) (n idx : nat)
    : option (list (option Z) * gmap Z nat) :=
  if is_min_level_index idx then push_down_min (S n) p M n idx
  else push_down_max (S n) p M n idx.

Fixpoint push_up_min (fuel : nat) (p : list (option Z)) (M : gmap Z nat) (idx : nat)
    : option (list (option Z) * gmap Z nat) :=
  match fuel with
  | O => None
  | S fuel' =>
      let finish := M ← OFFSET_SET p M idx; Some (p, M) in
      let grandparent := HEAP_GRANDPARENT idx in
      if (0 <? grandparent)%nat then
        a ← slot p idx;
        b ← slot p grandparent;
        if cmp a b <? 0 then
          p ← HEAP_SWAP p idx grandparent;
          M ← OFFSET_SET p M idx;
          push_up_min fuel' p M grandparent
        else finish
      else finish
  end.

Fixpoint push_up_max (fuel : nat) (p : list (option Z)) (M : gmap Z nat) (idx : nat)
    : option (list (option Z) * gmap Z nat) :=
  match fuel with
  | O => None
  | S fuel' =>
      let finish := M ← OFFSET_SET p M idx; Some (p, M) in
      let grandparent := HEAP_GRANDPARENT idx in
      if (0 <? grandparent)%nat then
        a ← slot p idx;
        b ← slot p grandparent;
        if 0 <? cmp a b then
          p ← HEAP_SWAP p idx grandparent;
          M ← OFFSET_SET p M idx;
          push_up_max fuel' p M grandparent
        else finish
      else finish
  end.

Definition push_up (p : list (option Z)) (M : gmap Z nat) (idx : nat)
    : option (list (option Z) * gmap Z nat) :=
  if decide (idx = 1)%nat then M ← OFFSET_SET p M idx; Some (p, M) else
  let parent := HEAP_PARENT idx in
  a ← slot p idx;
  b ← slot p parent;
  let order := cmp a b in
  if is_min_level_index idx then
    if 0 <? order then
      p ← HEAP_SWAP p idx parent;
      M ← OFFSET_SET p M idx;
      push_up_max (S parent) p M parent
    else push_up_min (S idx) p M idx
  else
    if order <? 0 then
      p ← HEAP_SWAP p idx parent;
      M ← OFFSET_SET p M idx;
      push_up_min (S parent) p M parent
    else push_up_max (S idx) p M idx.

Definition fr_minmax_heap_insert (realloc_ok : bool) (h : minmax_heap_t) (M : gmap Z nat) (data : Z)
    : option (minmax_heap_t * gmap Z nat * (minmax_err + unit)) :=
  child ← index_get M data;
  if fr_minmax_heap_entry_inserted child then Some (h, M, inl MmInserted) else
  let child := wrap32 (mm_num h + 1) in
  match (if decide (mm_size h < child)%nat then minmax_heap_expand realloc_ok h else inr h) with
  | inl e => Some (h, M, inl e)
  | inr h =>
      p ← set_slot (mm_p h) child data;
      '(p, M) ← push_up p M child;
      Some (MinmaxHeap (mm_size h) (wrap32 (mm_num h + 1)) p, M, inr ())
  end.

(** Results are [NULL] or a pointer: the inner option. *)
Definition fr_minmax_heap_min_peek (h : minmax_heap_t) : option (option Z) :=
  if decide (mm_num h = 0)%nat then Some None
  else d ← slot (mm_p h) 1; Some (Some d).

Definition fr_minmax_heap_max_peek (h : minmax_heap_t) : option (option Z) :=
  if decide (mm_num h = 0)%nat then Some None else
  if decide (mm_num h < 3)%nat then d ← slot (mm_p h) (mm_num h); Some (Some d) else
  a ← slot (mm_p h) 2;
  b ← slot (mm_p h) 3;
  d ← slot (mm_p h) (2 + (if cmp a b <? 0 then 1 else 0));
  Some (Some d).

Definition fr_minmax_heap_extract (h : minmax_heap_t) (M : gmap Z nat) (data : Z)
    : option (minmax_heap_t * gmap Z nat * (minmax_err + unit)) :=
  idx ← index_get M data;
  if decide (mm_num h < idx)%nat then Some (h, M, inl MmExceeds) else
  not_in ← (if negb (fr_minmax_heap_entry_inserted idx) then Some true
            else d ← slot (mm_p h) idx; Some (bool_decide (d <> data)));
  if (not_in : bool) then Some (h, M, inl MmNotInHeap) else
  M ← OFFSET_RESET (mm_p h) M idx;
  if decide (mm_num h = idx) then
    Some (MinmaxHeap (mm_size h) (mm_num h - 1) (mm_p h), M, inr ())
  else
    last ← slot (mm_p h) (mm_num h);
    p ← set_slot (mm_p h) idx last;
    let n := (mm_num h - 1)%nat in
    '(p, M) ← (if (1 <? idx)%nat && negb (is_descendant n idx) then push_up p M idx
               else Some (p, M));
    '(p, M) ← push_down p M n idx;
    Some (MinmaxHeap (mm_size h) n p, M, inr ()).

Definition pop_of (peek : option (option Z)) (h : minmax_heap_t) (M : gmap Z nat)
    : option (minmax_heap_t * gmap Z nat * option Z) :=
  data ← peek;
  match data with
  | None => Some (h, M, None)
  | Some data =>
      r ← fr_minmax_heap_extract h M data;
      match r with
      | (h, M, inl _) => Some (h, M, None)
      | (h, M, inr _) => Some (h, M, Some data)
      end
  end.

Definition fr_minmax_heap_min_pop (h : minmax_heap_t) (M : gmap Z nat) :=
  pop_of (fr_minmax_heap_min_peek h) h M.
Definition fr_minmax_heap_max_pop (h : minmax_heap_t) (M : gmap Z nat) :=
  pop_of (fr_minmax_heap_max_peek h) h M.

Definition fr_minmax_heap_num_elements (h : minmax_heap_t) : nat := mm_num h.

(** The iterator is the current slot number. *)
Definition fr_minmax_heap_iter_init (h : minmax_heap_t) : option (nat * option Z) :=
  if decide (mm_num h = 0)%nat then Some (1%nat, None)
  else d ← slot (mm_p h) 1; Some (1%nat, Some d).

Definition fr_minmax_heap_iter_next (h : minmax_heap_t) (iter : nat) : option (nat * option Z) :=
  if decide (mm_num h < wrap32 (iter + 1))%nat then Some (iter, None)
  else d ← slot (mm_p h) (wrap32 (iter + 1)); Some (wrap32 (iter + 1), Some d).

(** The consistency check, as the conjunction of its assertions. *)
Definition minmax_verify_slots (h : minmax_heap_t) (M : gmap Z nat) : bool :=
  forallb (fun i => match slot (mm_p h) i with
                    | Some d => bool_decide (index_get M d = Some i)
                    | None => false
                    end) (seq 1 (mm_num h)).

(** [for (j = 0; j < NUM_ELEMENTS(others) && others[j] <= h->num_elements; j++)] *)
Fixpoint verify_others (h : minmax_heap_t) (i : nat) (on_min_level : bool) (others : list nat) : bool :=
  match others with
  | [] => true
  | o :: others' =>
      if (o <=? mm_num h)%nat then
        match slot (mm_p h) i, slot (mm_p h) o with
        | Some a, Some b =>
            let cmp_result := cmp a b in
            (if on_min_level then cmp_result <=? 0 else 0 <=? cmp_result) &&
            verify_others h i on_min_level others'
        | _, _ => false
        end
      else true
  end.

Definition others_of (i : nat) : list nat :=
  [HEAP_LEFT i; HEAP_RIGHT i; HEAP_LEFT (HEAP_LEFT i); HEAP_RIGHT (HEAP_LEFT i);
   HEAP_LEFT (HEAP_RIGHT i); HEAP_RIGHT (HEAP_RIGHT i)].

Fixpoint verify_levels (fuel : nat) (h : minmax_heap_t) (i : nat) : bool :=
  match fuel with
  | O => true
  | S fuel' =>
      if (HEAP_LEFT i <=? mm_num h)%nat then
        verify_others h i (is_min_level_index i) (others_of i) && verify_levels fuel' h (wrap32 (i + 1))
      else true
  end.

Definition fr_minmax_heap_verify (h : minmax_heap_t) (M : gmap Z nat) : bool :=
  bool_decide (mm_num h <= mm_size h)%nat &&
  bool_decide (slot (mm_p h) 0 = Some UINTPTR_MAX) &&
  minmax_verify_slots h M && verify_levels (S (mm_num h)) h 1.
End Ops.

(** ** Levels and descendants *)

Lemma log2_index i : (1 <= i)%nat -> Z.of_nat i < 2 ^ 32 -> (Nat.log2 i < 32)%nat.
Proof.
  intros H1 H32. destruct (Nat.log2_spec i) as [Hl _]; [lia|].
  apply Nat2Z.inj_le in Hl. rewrite Nat2Z.inj_pow in Hl.
  assert (2 ^ Z.of_nat (Nat.log2 i) < 2 ^ 32) as Hp by (simpl in *; lia).
  apply Z.pow_lt_mono_r_iff in Hp; lia.
Qed.

Lemma depth_spec i : (1 <= i)%nat -> Z.of_nat i < 2 ^ 32 -> depth i = Nat.log2 i.
Proof.
  intros H1 H32. unfold depth, fr_high_bit_pos. rewrite decide_False by lia.
  pose proof (log2_index i H1 H32). rewrite u8_small by lia. lia.
Qed.

Lemma is_min_level_spec i :
  (1 <= i)%nat -> Z.of_nat i < 2 ^ 32 -> is_min_level_index i = Nat.even (Nat.log2 i).
Proof.
  intros H1 H32. unfold is_min_level_index. rewrite depth_spec by done.
  change 1%nat with (Nat.ones 1). rewrite Nat.land_ones. change (2 ^ 1)%nat with 2%nat.
  rewrite <- Nat.bit0_mod, Nat.bit0_odd, <- Nat.negb_even. by destruct (Nat.even _).
Qed.

(** Whether the level of slot [i] is a min level. *)
Definition minlvl (i : nat) : bool := Nat.even (Nat.log2 i).

Lemma minlvl_half i : (2 <= i)%nat -> minlvl i = negb (minlvl (i / 2)).
Proof.
  intros Hi. destruct (half_lt i Hi) as [H1 H2]. unfold minlvl.
  assert (E : Nat.log2 i = S (Nat.log2 (i / 2))).
  { destruct (half_child i _ eq_refl) as [E|E]; rewrite E at 1.
    - apply Nat.log2_double. lia.
    - apply Nat.log2_succ_double. lia. }
  rewrite E, Nat.even_succ. symmetry. apply Nat.negb_even.
Qed.

(** [desc i j]: slot [j] is a proper descendant of slot [i]. *)
Inductive desc : nat -> nat -> Prop :=
| desc_child j : (2 <= j)%nat -> desc (j / 2) j
| desc_below i j : (2 <= j)%nat -> desc i (j / 2) -> desc i j.

Lemma desc_lt i j : desc i j -> (1 <= i < j)%nat.
Proof. induction 1 as [j Hj|i j Hj _ IH]; destruct (half_lt j Hj); lia. Qed.

Lemma desc_inv i j : desc i j -> i = (j / 2)%nat \/ desc i (j / 2).
Proof. inversion 1; subst; auto. Qed.

Lemma desc_trans i j k : desc i j -> desc j k -> desc i k.
Proof. intros Hij. induction 1 as [k Hk|j k Hk _ IH]; apply desc_below; auto. Qed.

Lemma desc_up i j : (2 <= i)%nat -> desc i j -> desc (i / 2) j.
Proof. intros Hi. apply desc_trans. by apply desc_child. Qed.

Lemma desc_half_inv i j : desc i j -> (j / 2)%nat = i \/ exists c, (c / 2)%nat = i /\ desc c j.
Proof.
  induction 1 as [j Hj|i j Hj Hd IH]; [by left|]. right. destruct IH as [E|(c & E & Hc)].
  - exists (j / 2)%nat. split; [done|]. by apply desc_child.
  - exists c. split; [done|]. by apply desc_below.
Qed.

(** Descendants are children, grandchildren, or below a grandchild. *)
Lemma desc_two_levels i j :
  desc i j -> (j / 2)%nat = i \/ (j / 2 / 2)%nat = i \/
    exists c, (c / 2 / 2)%nat = i /\ desc c j.
Proof.
  intros H. destruct (desc_half_inv _ _ H) as [E|(c & E & Hc)]; [by left|right].
  destruct (desc_half_inv _ _ Hc) as [E'|(c' & E' & Hc')].
  - left. by rewrite E'.
  - right. exists c'. by rewrite E'.
Qed.

(** [is_descendant] compares with the first slot of the ancestor's level instead of the
    ancestor's: it answers no for every ancestor but the root. *)
Lemma is_descendant_below_root c a :
  (1 <= c)%nat -> (2 <= a)%nat -> Z.of_nat c < 2 ^ 32 -> Z.of_nat a < 2 ^ 32 ->
  is_descendant c a = false.
Proof.
  intros Hc Ha Hc32 Ha32. unfold is_descendant. rewrite !depth_spec by lia. cbv zeta.
  case_decide as Hlt; [done|].
  assert (Hl : (1 <= Nat.log2 a)%nat) by (apply Nat.log2_pos; lia).
  destruct (Nat.log2_spec c) as [Hs _]; [lia|].
  apply Nat2Z.inj_le in Hs. rewrite Nat2Z.inj_pow in Hs. simpl Z.of_nat in Hs.
  set (k := Z.of_nat (Nat.log2 c - Nat.log2 a)).
  assert (Hk : 0 < 2 ^ k) by (apply Z.pow_pos_nonneg; lia).
  assert (Hk2 : 2 * 2 ^ k <= Z.of_nat c).
  { rewrite <- Z.pow_succ_r by lia. etransitivity; [|exact Hs].
    apply Z.pow_le_mono_r; lia. }
  unfold shl32. rewrite Z.shiftl_1_l, (u32_small (2 ^ k)) by lia.
  rewrite u32_small by lia. apply Z.ltb_ge. lia.
Qed.

(** ** The order on a tree with alternating levels *)

(** What the documentation of the comparison callback asks for: a total preorder whose sign
    flips with its arguments. *)
Class MinmaxCmp (cmp : Z -> Z -> Z) := {
  minmax_cmp_heap :: HeapCmp cmp;
  minmax_cmp_flip a b : cmp a b <= 0 -> 0 <= cmp b a;
}.

(** Objects compared by their number. *)
#[export] Instance example_cmp_minmax : MinmaxCmp example_cmp.
Proof.
  split; [apply _|]. intros a b. unfold example_cmp. repeat case_decide; lia.
Qed.

Definition vswap (v : nat -> Z) (i j : nat) : nat -> Z := <[j := v i]> (<[i := v j]> v).

Lemma vswap_case v i j k :
  vswap v i j k = if decide (k = j) then v i else if decide (k = i) then v j else v k.
Proof.
  unfold vswap. case_decide as H1; [subst; apply fn_lookup_insert|].
  rewrite fn_lookup_insert_ne by done. case_decide; [subst; apply fn_lookup_insert|].
  by rewrite fn_lookup_insert_ne.
Qed.

Section Order.
Context (cmp : Z -> Z -> Z) `{!MinmaxCmp cmp}.

(** [x] comes before [y], in the direction of a min level or of a max level. *)
Definition ord (b : bool) (x y : Z) : Prop := if b then cmp x y <= 0 else cmp y x <= 0.

(** The two comparisons of the code, in either direction. *)
Definition beats (b : bool) (x y : Z) : bool := if b then cmp x y <? 0 else 0 <? cmp x y.
Definition no_better (b : bool) (x y : Z) : bool := if b then 0 <=? cmp x y else cmp x y <=? 0.

Lemma ord_refl b x : ord b x x.
Proof.
  assert (cmp x x <= 0); [|by destruct b].
  destruct (decide (cmp x x < 0)) as [|H]; [lia|]. by apply cmp_total in H.
Qed.

Lemma ord_trans b x y z : ord b x y -> ord b y z -> ord b x z.
Proof. destruct b; simpl; intros; by eapply cmp_trans. Qed.

Lemma ord_negb b x y : ord b y x -> ord (negb b) x y.
Proof. by destruct b. Qed.
Lemma ord_negb_inv b x y : ord (negb b) x y -> ord b y x.
Proof. by destruct b. Qed.

Lemma beats_spec b x y : if beats b x y then ord b x y else ord b y x.
Proof.
  destruct b; simpl.
  - destruct (Z.ltb_spec (cmp x y) 0); [lia|]. apply cmp_total. lia.
  - destruct (Z.ltb_spec 0 (cmp x y)); [|done]. apply cmp_total. lia.
Qed.

Lemma no_better_negb b x y : no_better b x y = negb (beats b x y).
Proof. destruct b; simpl; [apply Z.leb_antisym|apply Z.leb_antisym]. Qed.

(** The min-max property: every element against every descendant. *)
Definition minmax (v : nat -> Z) (n : nat) : Prop :=
  forall i j, desc i j -> (j <= n)%nat -> ord (minlvl i) (v i) (v j).

(** Slot [c] may be wrong with its descendants. *)
Definition minmax_below (v : nat -> Z) (n c : nat) : Prop :=
  forall i j, desc i j -> (j <= n)%nat -> i <> c -> ord (minlvl i) (v i) (v j).

(** Slot [c] may also be wrong with its ancestors. *)
Definition minmax_hole (v : nat -> Z) (n c : nat) : Prop :=
  forall i j, desc i j -> (j <= n)%nat -> i <> c -> j <> c -> ord (minlvl i) (v i) (v j).

(** On the way up from [c], the element in [g] may be wrong with the ancestors of its kind
    of level, and slot [c] with its descendants. *)
Definition minmax_rising (v : nat -> Z) (n c g : nat) : Prop :=
  (forall i j, desc i j -> (j <= n)%nat -> i <> c -> j <> g -> ord (minlvl i) (v i) (v j)) /\
  (forall i, desc i g -> minlvl i = negb (minlvl g) -> ord (minlvl i) (v i) (v g)).

Lemma minmax_below_leaf v n c : minmax_below v n c -> (n < 2 * c)%nat -> minmax v n.
Proof.
  intros H Hc i j Hd Hj. apply H; try done. intros ->.
  destruct (desc_half_inv _ _ Hd) as [E|(k & E & Hk)]; apply half_child in E;
    [lia|apply desc_lt in Hk; lia].
Qed.

Lemma minlvl_grand c : (2 <= c)%nat -> (2 <= c / 2)%nat -> minlvl (c / 2 / 2) = minlvl c.
Proof. intros H1 H2. by rewrite (minlvl_half c), (minlvl_half (c / 2)), negb_involutive. Qed.

(** The element of [c] is on the right kind of level. *)
Lemma rising_stay v n c :
  minmax_hole v n c -> (2 <= c <= n)%nat -> ord (minlvl c) (v c) (v (c / 2)%nat) ->
  minmax_rising v n c c.
Proof.
  intros Hh Hc Ho. destruct (half_lt c) as [H1 H2]; [lia|]. split.
  { intros i j Hd Hj Hic Hjc. by apply Hh. }
  pose proof (minlvl_half c ltac:(lia)) as El. rewrite El in *. apply ord_negb_inv in Ho.
  intros i Hd Ei. rewrite negb_involutive in Ei. rewrite Ei.
  destruct (desc_inv _ _ Hd) as [->|Hd']; [done|].
  apply ord_trans with (v (c / 2)%nat); [|done]. rewrite <- Ei.
  pose proof (desc_lt _ _ Hd). apply Hh; [done|lia|lia|lia].
Qed.

(** The element of [c] moves to its parent, which is on the right kind of level. *)
Lemma rising_parent v n c (q := (c / 2)%nat) :
  minmax_hole v n c -> (2 <= c <= n)%nat -> ord (minlvl q) (v c) (v q) ->
  minmax_rising (vswap v c q) n c q.
Proof.
  intros Hh Hc Ho. destruct (half_lt c) as [H1 H2]; [lia|]. fold q in H1, H2.
  assert (Hup : forall i, desc i q -> ord (minlvl i) (v i) (v q)).
  { intros i Hd. pose proof (desc_lt _ _ Hd). apply Hh; [done|lia|lia|lia]. }
  split.
  - intros i j Hd Hj Hic Hjq. pose proof (desc_lt _ _ Hd). rewrite !vswap_case.
    rewrite (decide_False (P := j = q)), (decide_False (P := i = c)) by done.
    destruct (decide (j = c)) as [->|Hjc].
    + destruct (decide (i = q)) as [->|Hiq]; [done|]. apply Hup.
      destruct (desc_inv _ _ Hd); [done|done].
    + destruct (decide (i = q)) as [->|Hiq]; [|by apply Hh].
      apply ord_trans with (v q); [done|]. by apply Hh.
  - intros i Hd Ei. pose proof (desc_lt _ _ Hd). rewrite !vswap_case.
    rewrite (decide_True (P := q = q)), (decide_False (P := i = q)),
      (decide_False (P := i = c)) by (done || lia).
    apply ord_trans with (v q); [by apply Hup|]. rewrite Ei. by apply ord_negb.
Qed.

(** The element of [g] changes places with its grandparent. *)
Lemma rising_grandparent v n c g (e := (g / 2 / 2)%nat) :
  minmax_rising v n c g -> (1 <= e)%nat -> (g <= n)%nat -> (g <= c)%nat ->
  ord (minlvl g) (v g) (v e) -> minmax_rising (vswap v g e) n c e.
Proof.
  intros [Hr Hx] He Hg Hgc Ho.
  assert (H2 : (2 <= g / 2)%nat) by (destruct (decide (2 <= g / 2)%nat); [done|];
    exfalso; unfold e in He; rewrite (Nat.div_small (g / 2) 2) in He; lia).
  assert (H1 : (2 <= g)%nat) by (pose proof (Nat.Div0.div_le_upper_bound g 2 g); lia).
  destruct (half_lt g H1) as [L1 _], (half_lt _ H2) as [L2 _]. fold e in L2.
  assert (El : minlvl e = minlvl g) by (by apply minlvl_grand).
  pose proof (minlvl_half (g / 2) H2) as Elq. fold e in Elq.
  assert (Deg : desc e (g / 2)) by (by apply desc_child).
  assert (Hup : forall i, desc i e -> ord (minlvl i) (v i) (v e)).
  { intros i Hd. pose proof (desc_lt _ _ Hd). apply Hr; [done|lia|lia|lia]. }
  split.
  - intros i j Hd Hj Hic Hje. pose proof (desc_lt _ _ Hd). rewrite !vswap_case.
    rewrite (decide_False (P := j = e)) by done. destruct (decide (j = g)) as [->|Hjg].
    + rewrite (decide_False (P := i = g)) by lia.
      destruct (decide (i = e)) as [->|Hie]; [by rewrite El|].
      destruct (desc_inv _ _ Hd) as [->|Hd1].
      * rewrite Elq. apply ord_negb. apply Hr; [done|lia|lia|lia].
      * destruct (desc_inv _ _ Hd1) as [->|Hd2]; [done|by apply Hup].
    + destruct (decide (i = e)) as [->|Hie].
      * apply ord_trans with (v e); [by rewrite El|]. apply Hr; [done|done|lia|done].
      * destruct (decide (i = g)) as [->|Hig]; [|by apply Hr].
        rewrite <- El. apply Hr; [|done|lia|done]. apply desc_trans with g; [|done].
        apply desc_below; done.
  - intros i Hd Ei. pose proof (desc_lt _ _ Hd). rewrite !vswap_case.
    rewrite (decide_True (P := e = e)), (decide_False (P := i = e)),
      (decide_False (P := i = g)) by (done || lia).
    apply Hx; [|by rewrite Ei, El]. apply desc_below; [done|]. by apply desc_below.
Qed.

(** At the top of the way up only slot [c] may be wrong, with its descendants. *)
Lemma rising_done v n c g (e := (g / 2 / 2)%nat) :
  minmax_rising v n c g -> (1 <= g <= n)%nat -> (g <= c)%nat ->
  ((1 <= e)%nat -> ord (minlvl g) (v e) (v g)) -> minmax_below v n c.
Proof.
  intros [Hr Hx] Hg Hgc He i j Hd Hj Hic.
  destruct (decide (j = g)) as [->|Hjg]; [|by apply Hr].
  destruct (decide (minlvl i = minlvl g)) as [Ei|Ei]; cycle 1.
  { apply Hx; [done|]. by destruct (minlvl i), (minlvl g). }
  pose proof (desc_lt _ _ Hd). rewrite Ei.
  destruct (desc_inv _ _ Hd) as [->|Hd1].
  { exfalso. rewrite (minlvl_half g) in Ei by lia. by destruct (minlvl (g / 2)). }
  pose proof (desc_lt _ _ Hd1).
  destruct (half_lt g) as [? _]; [lia|]. destruct (half_lt (g / 2)%nat) as [He1 _]; [lia|]. fold e in He1.
  destruct (desc_inv _ _ Hd1) as [->|Hd2]; [apply He; unfold e; lia|]. fold e in Hd2.
  pose proof (desc_lt _ _ Hd2). apply ord_trans with (v e); [|apply He; lia].
  rewrite <- Ei. apply Hr; [done|lia|lia|lia].
Qed.
End Order.

(** ** Sinking *)

Section Sinking.
Context (cmp : Z -> Z -> Z) `{!MinmaxCmp cmp}.

(** [m] is a first element below [c], in the direction of the level of [c]. *)
Definition first_below (v : nat -> Z) (n c m : nat) : Prop :=
  forall j, desc c j -> (j <= n)%nat -> ord cmp (minlvl c) (v m) (v j).

(** The element of [c] changes places with the first one below it. *)
Lemma sink_swap v n c m :
  minmax_below cmp v n c -> desc c m -> (m <= n)%nat -> first_below v n c m ->
  ord cmp (minlvl c) (v m) (v c) ->
  (forall i, desc i m -> i = c \/ desc i c \/ ord cmp (minlvl i) (v i) (v c)) ->
  minmax_below cmp (vswap v c m) n m.
Proof.
  intros Hb Hcm Hm Hf Ho Hbetween i j Hd Hj Him. pose proof (desc_lt _ _ Hcm).
  pose proof (desc_lt _ _ Hd). rewrite !vswap_case.
  rewrite (decide_False (P := i = m)) by done.
  destruct (decide (i = c)) as [->|Hic].
  - destruct (decide (j = m)) as [->|Hjm]; [done|].
    rewrite decide_False by lia. by apply Hf.
  - destruct (decide (j = m)) as [->|Hjm].
    + destruct (Hbetween i Hd) as [?|[Hd'|Ho']]; [done| |done]. apply Hb; [done|lia|done].
    + destruct (decide (j = c)) as [->|Hjc]; [|by apply Hb].
      apply Hb; [by eapply desc_trans|done|done].
Qed.

(** The first element is a grandchild, and the element that comes down belongs in between. *)
Lemma sink_swap_parent v n c m (q := (m / 2)%nat) :
  minmax_below cmp v n c -> (2 <= m <= n)%nat -> (2 <= q)%nat -> (q / 2)%nat = c ->
  first_below v n c m -> ord cmp (minlvl c) (v m) (v c) -> ord cmp (minlvl q) (v c) (v q) ->
  minmax_below cmp (vswap (vswap v c m) q m) n m.
Proof.
  intros Hb Hm Hq2 Hq Hf Ho Hoq i j Hd Hj Him. destruct (half_lt m) as [L1 _]; [lia|].
  destruct (half_lt q) as [L2 _]; [lia|]. fold q in L1. rewrite Hq in L2.
  assert (Dcq : desc c q) by (rewrite <- Hq; apply desc_child; lia).
  assert (Dqm : desc q m) by (apply desc_child; lia).
  pose proof (desc_lt _ _ Hd).
  assert (Hiq : forall i, desc i q -> i <> c -> desc i c).
  { intros k Hk Hkc. destruct (desc_inv _ _ Hk) as [E|Hk']; [congruence|by rewrite <- Hq]. }
  rewrite !vswap_case, !(decide_False (P := i = m)), !(decide_False (P := q = m)),
    !(decide_True (P := m = m)), !(decide_False (P := q = c)) by (done || lia).
  destruct (decide (i = q)) as [Eiq|Hniq].
  { subst i. destruct (decide (j = m)) as [->|Hjm]; [done|].
    rewrite !(decide_False (P := j = q)), !(decide_False (P := j = c)) by lia.
    apply ord_trans with (v q); [done|done|]. apply Hb; [done|done|lia]. }
  destruct (decide (i = c)) as [->|Hic].
  { destruct (decide (j = m)) as [->|Hjm]; [apply Hf; [done|lia]|].
    destruct (decide (j = q)) as [->|Hjq]; [done|].
    rewrite (decide_False (P := j = c)) by lia. by apply Hf. }
  destruct (decide (j = m)) as [->|Hjm].
  { destruct (desc_inv _ _ Hd) as [?|Hd']; [done|]. apply Hb; [done|lia|done]. }
  destruct (decide (j = q)) as [->|Hjq].
  { apply Hb; [by apply Hiq|lia|done]. }
  destruct (decide (j = c)) as [->|Hjc]; [|by apply Hb].
  apply Hb; [by eapply desc_trans; [|eapply desc_trans]|lia|done].
Qed.

(** Nothing below comes before the element of [c]. *)
Lemma sink_done v n c m :
  minmax_below cmp v n c -> first_below v n c m -> ord cmp (minlvl c) (v c) (v m) ->
  minmax cmp v n.
Proof.
  intros Hb Hf Ho i j Hd Hj. destruct (decide (i = c)) as [->|Hic]; [|by apply Hb].
  apply ord_trans with (v m); [done|done|]. by apply Hf.
Qed.

(** ** The loops in either direction: [b] says whether the level is a min level *)

Section Direction.
Variable b : bool.

Fixpoint first_loop (fuel : nat) (p : list (option Z)) (upb i m : nat) : option nat :=
  match fuel with
  | O => None
  | S fuel' =>
      if (i <=? upb)%nat then
        x ← slot p i;
        y ← slot p m;
        first_loop fuel' p upb (wrap32 (i + 1)) (if beats cmp b x y then i else m)
      else Some m
  end.

Definition first_child (p : list (option Z)) (n idx : nat) : option nat :=
  if (if b then is_max_level_index idx else is_min_level_index idx) || negb (has_grandchildren n idx) then
    let m := HEAP_LEFT idx in
    let upb := HEAP_RIGHT idx in
    if (upb <=? n)%nat then
      x ← slot p upb;
      y ← slot p m;
      Some (if beats cmp b x y then upb else m)
    else Some m
  else
    let '(m, lwb) :=
      if negb (has_children n (HEAP_RIGHT idx))
      then (HEAP_RIGHT idx, HEAP_LEFT (HEAP_LEFT idx))
      else (HEAP_LEFT (HEAP_LEFT idx), wrap32 (HEAP_LEFT (HEAP_LEFT idx) + 1)) in
    let upb := HEAP_RIGHT (HEAP_RIGHT idx) in
    let upb := if (n <? upb)%nat then n else upb in
    first_loop 5 p upb lwb m.

Fixpoint sink (fuel : nat) (p : list (option Z)) (M : gmap Z nat) (n idx : nat)
    : option (list (option Z) * gmap Z nat) :=
  match fuel with
  | O => None
  | S fuel' =>
      let finish := M ← OFFSET_SET p M idx; Some (p, M) in
      if has_children n idx then
        m ← first_child p n idx;
        x ← slot p m;
        y ← slot p idx;
        if no_better cmp b x y then finish else
        p ← HEAP_SWAP p idx m;
        M ← OFFSET_SET p M idx;
        '(p, M) ←
          (if decide (HEAP_GRANDPARENT m = idx) then
             x ← slot p m;
             y ← slot p (HEAP_PARENT m);
             if beats cmp (negb b) x y then
               p ← HEAP_SWAP p (HEAP_PARENT m) m;
               M ← OFFSET_SET p M (HEAP_PARENT m);
               Some (p, M)
             else Some (p, M)
           else Some (p, M));
        sink fuel' p M n m
      else finish
  end.

Fixpoint rise (fuel : nat) (p : list (option Z)) (M : gmap Z nat) (idx : nat)
    : option (list (option Z) * gmap Z nat) :=
  match fuel with
  | O => None
  | S fuel' =>
      let finish := M ← OFFSET_SET p M idx; Some (p, M) in
      let grandparent := HEAP_GRANDPARENT idx in
      if (0 <? grandparent)%nat then
        x ← slot p idx;
        y ← slot p grandparent;
        if beats cmp b x y then
          p ← HEAP_SWAP p idx grandparent;
          M ← OFFSET_SET p M idx;
          rise fuel' p M grandparent
        else finish
      else finish
  end.
End Direction.

Lemma push_down_min_sink : push_down_min cmp = sink true.
Proof. reflexivity. Qed.
Lemma push_down_max_sink : push_down_max cmp = sink false.
Proof. reflexivity. Qed.
Lemma push_up_min_rise : push_up_min cmp = rise true.
Proof. reflexivity. Qed.
Lemma push_up_max_rise : push_up_max cmp = rise false.
Proof. reflexivity. Qed.
End Sinking.

(** ** Exchanging slots, and the index fields *)

Lemma offset_set_view p M v n c k :
  view p n v -> (1 <= c <= n)%nat -> M !! v c = Some k -> OFFSET_SET p M c = Some (<[v c := c]> M).
Proof.
  intros Hv Hc Hk. unfold OFFSET_SET. rewrite (Hv c Hc). cbn [mbind option_bind].
  apply index_set_defined. eauto.
Qed.

(** The element in flight settles. *)
Lemma offset_settle p M v n c :
  heap_at p M v n c (Some (v c)) -> (1 <= c <= n)%nat -> is_Some (M !! v c) ->
  exists M', OFFSET_SET p M c = Some M' /\ heap_at p M' v n 0 None /\
    loop_frame p p M M' (Some (v c)) /\ M' !! v c = Some c.
Proof.
  intros (Hv & Hl & Hf) Hc [k Hk]. exists (<[v c := c]> M).
  split; [by eapply offset_set_view|]. split; [|split; [|apply lookup_insert_eq]].
  - split; [done|]. split; [done|]. by apply fields_ok_settle.
  - split; [done|]. split; [done|]. apply same_members_set_exc. eauto.
Qed.

Lemma swap_view p v n i j :
  view p n v -> (n < length p)%nat -> (1 <= i <= n)%nat -> (1 <= j <= n)%nat ->
  exists p', HEAP_SWAP p i j = Some p' /\ view p' n (vswap v i j) /\
    length p' = length p /\ slot p' 0 = slot p 0.
Proof.
  intros Hv Hl Hi Hj. unfold HEAP_SWAP. rewrite (Hv i Hi), (Hv j Hj). cbn [mbind option_bind].
  destruct (set_slot_defined p i (v j)) as (p1 & E1 & L1); [lia|]. rewrite E1. cbn [mbind option_bind].
  destruct (set_slot_defined p1 j (v i)) as (p2 & E2 & L2); [lia|]. exists p2.
  split; [done|]. split; [by eapply view_set; [eapply view_set|]|]. split; [lia|].
  rewrite (slot_set_other _ _ _ _ _ E2), (slot_set_other _ _ _ _ _ E1) by lia. done.
Qed.

(** The element in flight moves from slot [c] to slot [i]. *)
Lemma swap_move p M v n c i :
  heap_at p M v n c (Some (v c)) -> (1 <= c <= n)%nat -> (1 <= i <= n)%nat -> i <> c ->
  exists p' M', HEAP_SWAP p c i = Some p' /\ OFFSET_SET p' M c = Some M' /\
    heap_at p' M' (vswap v c i) n i (Some (v c)) /\ M' !! v c = M !! v c /\
    forall x, loop_frame p p' M M' x.
Proof.
  intros (Hv & Hl & Hf) Hc Hi Hne. pose proof Hf as (F1 & F2 & F3).
  destruct (swap_view p v n c i) as (p' & Ep & Hv' & L' & S'); [done..|].
  assert (Ec : vswap v c i c = v i) by (rewrite vswap_case, decide_False, decide_True by congruence; done).
  pose proof (F1 i Hi Hne) as Fi.
  exists p', (<[v i := c]> M). split; [done|].
  split; [rewrite <- Ec; eapply offset_set_view; [done|done|by rewrite Ec]|].
  split; [|split].
  - split; [done|]. split; [lia|]. by apply fields_ok_write, fields_ok_move.
  - apply lookup_insert_ne. specialize (F3 i Hi Hne). congruence.
  - intros x. split; [done|]. split; [done|]. apply same_members_set; [|lia].
    exists i. split; [lia|done].
Qed.

(** The element in flight in slot [m] settles in slot [q]; the one there takes off. *)
Lemma swap_settle p M v n q m :
  heap_at p M v n m (Some (v m)) -> (1 <= q <= n)%nat -> (1 <= m <= n)%nat -> q <> m ->
  member M (v m) ->
  exists p' M', HEAP_SWAP p q m = Some p' /\ OFFSET_SET p' M q = Some M' /\
    heap_at p' M' (vswap v q m) n m (Some (v q)) /\ member M' (v q) /\
    loop_frame p p' M M' None.
Proof.
  intros (Hv & Hl & (F1 & F2 & F3)) Hq Hm Hne Hmem.
  destruct (swap_view p v n q m) as (p' & Ep & Hv' & L' & S'); [done..|].
  assert (Eq : vswap v q m q = v m) by (rewrite vswap_case, decide_False, decide_True by congruence; done).
  assert (Hvne : v q <> v m) by (specialize (F3 q Hq Hne); congruence).
  pose proof (F1 q Hq Hne) as Fq. destruct Hmem as (k & Hk & Ek).
  exists p', (<[v m := q]> M). split; [done|].
  split; [rewrite <- Eq; eapply offset_set_view; [done|done|by rewrite Eq]|].
  split; [|split].
  - split; [done|]. split; [lia|]. split; [|split].
    + intros j Hj Hjm. destruct (decide (j = q)) as [->|Hjq].
      * rewrite Eq. apply lookup_insert_eq.
      * rewrite vswap_case, !decide_False by done. rewrite lookup_insert_ne; [by apply F1|].
        specialize (F3 j Hj Hjm). congruence.
    + intros y k' Hy Hk' Hk0. destruct (decide (v m = y)) as [<-|Hym].
      * rewrite lookup_insert_eq in Hk'. injection Hk' as <-. done.
      * rewrite lookup_insert_ne in Hk' by done.
        destruct (F2 y k' ltac:(congruence) Hk' Hk0) as (Hkn & Hkm & <-).
        split; [done|]. split; [done|]. rewrite vswap_case, !decide_False; [done|congruence|done].
    + intros j Hj Hjm. destruct (decide (j = q)) as [->|Hjq]; [rewrite Eq; congruence|].
      rewrite vswap_case, !decide_False by done. intros [= E].
      pose proof (F1 j Hj Hjm) as Fj. rewrite E, Fq in Fj. congruence.
  - exists q. split; [lia|]. by rewrite lookup_insert_ne by congruence.
  - split; [done|]. split; [done|]. apply same_members_set; [|lia]. by exists k.
Qed.

Section Loops.
Context (cmp : Z -> Z -> Z) `{!MinmaxCmp cmp}.

Lemma first_loop_spec b fuel : forall p v n upb i m,
  view p n v -> (1 <= i)%nat -> (upb <= n)%nat -> (1 <= m <= n)%nat -> Z.of_nat n < UINT_MAX ->
  (1 <= fuel)%nat -> (upb + 1 < fuel + i)%nat ->
  exists r, first_loop cmp b fuel p upb i m = Some r /\ (r = m \/ i <= r <= upb)%nat /\
    ord cmp b (v r) (v m) /\
    forall k, (i <= k <= upb)%nat -> ord cmp b (v r) (v k).
Proof.
  induction fuel as [|fuel IH]; intros p v n upb i m Hv Hi Hu Hm Hn Hf1 Hf; [lia|].
  cbn [first_loop]. destruct (Nat.leb_spec i upb) as [Hle|Hgt].
  - rewrite (Hv i), (Hv m) by lia. cbn [mbind option_bind].
    rewrite wrap32_small by (unfold UINT_MAX in *; lia).
    set (m' := if beats cmp b (v i) (v m) then i else m).
    assert (Hm' : (m' = m \/ m' = i)%nat) by (unfold m'; destruct beats; auto).
    assert (Ho : ord cmp b (v m') (v m) /\ ord cmp b (v m') (v i)).
    { pose proof (beats_spec cmp b (v i) (v m)) as Hs. unfold m'.
      destruct beats; split; try done; by apply ord_refl. }
    destruct Ho as [Ho1 Ho2].
    destruct (IH p v n upb (i + 1)%nat m' Hv) as (r & -> & Hr & Hrm & Hrk); [lia..|].
    exists r. split; [done|]. split; [lia|]. split; [by eapply ord_trans|].
    intros k Hk. destruct (decide (k = i)) as [->|]; [by eapply ord_trans|]. apply Hrk. lia.
  - exists m. split; [done|]. split; [by left|]. split; [by apply ord_refl|]. lia.
Qed.

Lemma quarter c j : (j / 2 / 2)%nat = c -> (4 * c <= j <= 4 * c + 3)%nat.
Proof. intros E. apply half_child in E. pose proof (half_child j _ eq_refl). lia. Qed.

Lemma quarter_of c j : (4 * c <= j <= 4 * c + 3)%nat -> (j / 2 / 2)%nat = c.
Proof.
  intros H. rewrite Nat.Div0.div_div. symmetry. apply (Nat.div_unique _ _ _ (j - 4 * c)); lia.
Qed.

(** Below [c] the property holds, so a first grandchild is a first element, as long as a
    childless right child is considered too. *)
Lemma grandchild_first v n c m :
  minmax_below cmp v n c -> (1 <= c)%nat -> (4 * c <= n)%nat ->
  (forall k, (4 * c <= k <= 4 * c + 3)%nat -> (k <= n)%nat -> ord cmp (minlvl c) (v m) (v k)) ->
  ((n < 4 * c + 2)%nat -> ord cmp (minlvl c) (v m) (v (2 * c + 1)%nat)) ->
  first_below cmp v n c m.
Proof.
  intros Hb Hc Hn Hk Hr j Hd Hj.
  assert (Hchild : forall q k, (q / 2)%nat = c -> (k / 2)%nat = q -> (2 <= q)%nat -> (k <= n)%nat ->
    ord cmp (minlvl c) (v m) (v q)).
  { intros q k Eq Ek Hq Hkn. destruct (half_lt q Hq) as [Hqc _].
    apply ord_trans with (v k); [done| |].
    - apply Hk; [|done]. apply quarter. congruence.
    - rewrite <- Eq. apply ord_negb_inv. rewrite <- minlvl_half by done. apply Hb; [|done|lia].
      rewrite <- Ek. apply desc_child. apply half_child in Ek. lia. }
  destruct (desc_two_levels _ _ Hd) as [E|[E|(g & E & Hg)]].
  - destruct (half_double (2 * c)) as [D1 _], (half_double (2 * c + 1)) as [D2 _].
    destruct (half_child j c E) as [->| ->].
    + apply (Hchild _ (2 * (2 * c))%nat); [done|done|lia|lia].
    + destruct (decide (n < 4 * c + 2)%nat); [by apply Hr|].
      apply (Hchild _ (2 * (2 * c + 1))%nat); [done|done|lia|lia].
  - apply Hk; [by apply quarter|done].
  - pose proof (desc_lt _ _ Hg). pose proof (quarter _ _ E).
    apply ord_trans with (v g); [done|apply Hk; lia|].
    replace (minlvl c) with (minlvl g); [apply Hb; [done|done|lia]|].
    pose proof (half_child g _ eq_refl). rewrite <- E, minlvl_grand; [done|lia|].
    apply half_child in E. lia.
Qed.

Lemma HEAP_LEFT_small n x : (2 * x <= n)%nat -> Z.of_nat n < 2 ^ 32 -> HEAP_LEFT x = (2 * x)%nat.
Proof. intros. unfold HEAP_LEFT. apply wrap32_small. lia. Qed.
Lemma HEAP_RIGHT_small n x :
  (2 * x + 1 <= n)%nat -> Z.of_nat n < 2 ^ 32 -> HEAP_RIGHT x = (2 * x + 1)%nat.
Proof. intros. unfold HEAP_RIGHT. apply wrap32_small. lia. Qed.

(** The element the code selects is a first one below; as a child it is a leaf. *)
Lemma first_child_spec b p v n c :
  view p n v -> minmax_below cmp v n c -> minlvl c = b -> (1 <= c)%nat -> (2 * c <= n)%nat ->
  Z.of_nat n < 2 ^ 31 - 2 ->
  exists m, first_child cmp b p n c = Some m /\ (2 <= m <= n)%nat /\ first_below cmp v n c m /\
    ((m / 2)%nat = c /\ (n < 2 * m)%nat \/ (m / 2 / 2)%nat = c).
Proof.
  intros Hv Hb El Hc Hn H31. destruct (half_double c) as [D1 D2].
  assert (EL : HEAP_LEFT c = (2 * c)%nat) by (apply (HEAP_LEFT_small n); lia).
  assert (ER : HEAP_RIGHT c = (2 * c + 1)%nat) by (apply (HEAP_RIGHT_small (n + 1)); lia).
  assert (ELL : HEAP_LEFT (2 * c) = (4 * c)%nat)
    by (rewrite (HEAP_LEFT_small (4 * c)); lia).
  assert (ELR : HEAP_LEFT (2 * c + 1) = (4 * c + 2)%nat)
    by (rewrite (HEAP_LEFT_small (4 * c + 2)); lia).
  assert (ERR : HEAP_RIGHT (2 * c + 1) = (4 * c + 3)%nat)
    by (rewrite (HEAP_RIGHT_small (4 * c + 3)); lia).
  unfold first_child, has_grandchildren, has_children, is_max_level_index.
  rewrite EL, ER, ELL, ELR, ERR, is_min_level_spec by lia. fold (minlvl c). rewrite El.
  replace (if b then negb b else b) with false by (by destruct b). cbn [orb].
  destruct (Nat.leb_spec (4 * c) n) as [Hg|Hg]; cbn [negb].
  - assert (Hbest : forall m lwb, (1 <= m <= n)%nat ->
      (m = 2 * c + 1 /\ lwb = 4 * c /\ n < 4 * c + 2 \/
       m = 4 * c /\ lwb = 4 * c + 1 /\ 4 * c + 2 <= n)%nat ->
      exists r, first_loop cmp b 5 p (if n <? 4 * c + 3 then n else 4 * c + 3)%nat lwb m = Some r /\
        (2 <= r <= n)%nat /\ first_below cmp v n c r /\
        ((r / 2)%nat = c /\ (n < 2 * r)%nat \/ (r / 2 / 2)%nat = c)).
    { intros m lwb Hm Hcase. set (upb := if (_ <? _)%nat then _ else _).
      assert (Hupb : (upb <= n /\ upb <= 4 * c + 3)%nat /\ (n <= upb \/ upb = 4 * c + 3)%nat)
        by (unfold upb; destruct (Nat.ltb_spec n (4 * c + 3)); lia).
      destruct (first_loop_spec b 5 p v n upb lwb m Hv) as (r & -> & Hr & Hrm & Hrk);
        [lia|lia|lia|unfold UINT_MAX; lia|lia|lia|].
      exists r. split; [done|]. split; [lia|]. split.
      - apply grandchild_first; [done|lia|done| |]; rewrite El.
        + intros k Hk1 Hk2. destruct (decide (k = m)) as [->|]; [done|]. apply Hrk. lia.
        + intros Hn2. destruct Hcase as [(-> & _)|?]; [done|lia].
      - destruct (decide (r = 2 * c + 1)%nat) as [->|]; [left; split; [done|lia]|].
        right. apply quarter_of. lia. }
    destruct (Nat.leb_spec (4 * c + 2) n); cbn [negb].
    + rewrite wrap32_small by lia. apply Hbest; lia.
    + apply Hbest; lia.
  - assert (Hkids : forall m, (m = 2 * c \/ m = 2 * c + 1)%nat ->
      ord cmp b (v m) (v (2 * c)%nat) ->
      ((2 * c + 1 <= n)%nat -> ord cmp b (v m) (v (2 * c + 1)%nat)) -> first_below cmp v n c m).
    { intros m Hm Ho1 Ho2 j Hd Hj. rewrite El.
      destruct (desc_two_levels _ _ Hd) as [E|[E|(g & E & Hg')]].
      - destruct (half_child j c E) as [->| ->]; auto.
      - apply quarter in E. lia.
      - apply quarter in E. apply desc_lt in Hg'. lia. }
    destruct (Nat.leb_spec (2 * c + 1) n) as [Hr|Hr].
    + rewrite (Hv (2 * c + 1)%nat), (Hv (2 * c)%nat) by lia. cbn [mbind option_bind].
      pose proof (beats_spec cmp b (v (2 * c + 1)%nat) (v (2 * c)%nat)) as Hs.
      destruct beats; eexists; (split; [done|]); (split; [lia|]);
        (split; [|left; split; [done|lia]]); apply Hkids; try done; try lia; intros; by apply ord_refl.
    + exists (2 * c)%nat. split; [done|]. split; [lia|]. split; [|left; split; [done|lia]].
      apply Hkids; [by left|by apply ord_refl|lia].
Qed.
End Loops.

Section Moves.
Context (cmp : Z -> Z -> Z) `{!MinmaxCmp cmp}.

Lemma loop_frame_weaken p p' M M' x :
  loop_frame p p' M M' (Some x) -> member M x -> member M' x -> loop_frame p p' M M' None.
Proof.
  intros (A & B & C) H1 H2. split; [done|]. split; [done|]. intros y.
  destruct (C y) as [C1 C2]. split; [done|]. intros _.
  destruct (decide (y = x)) as [->|]; [done|apply C2; congruence].
Qed.

Lemma offset_settle_member p M v n c :
  heap_at p M v n c (Some (v c)) -> (1 <= c <= n)%nat -> member M (v c) ->
  exists M', OFFSET_SET p M c = Some M' /\ heap_at p M' v n 0 None /\ loop_frame p p M M' None.
Proof.
  intros Hat Hc Hm. destruct (offset_settle p M v n c Hat Hc) as (M' & E & Hat' & Hfr & Hx).
  { destruct Hm as (k & _ & ->). eauto. }
  exists M'. split; [done|]. split; [done|]. eapply loop_frame_weaken; [done|done|].
  exists c. split; [lia|done].
Qed.

(** The test that follows the exchange with a grandchild. *)
Lemma sink_fix b p M v n c m x :
  heap_at p M (vswap v c m) n m (Some x) -> x = v c -> member M x -> c <> m ->
  minmax_below cmp v n c -> minlvl c = b -> (1 <= c)%nat -> (2 <= m <= n)%nat ->
  first_below cmp v n c m -> ord cmp b (v m) (v c) ->
  ((m / 2)%nat = c /\ (n < 2 * m)%nat \/ (m / 2 / 2)%nat = c) ->
  exists p' M' w, (if decide (HEAP_GRANDPARENT m = c) then
             x ← slot p m;
             y ← slot p (HEAP_PARENT m);
             if beats cmp (negb b) x y then
               p ← HEAP_SWAP p (HEAP_PARENT m) m;
               M ← OFFSET_SET p M (HEAP_PARENT m);
               Some (p, M)
             else Some (p, M)
           else Some (p, M)) = Some (p', M') /\
    heap_at p' M' w n m (Some (w m)) /\ minmax_below cmp w n m /\ member M' (w m) /\
    loop_frame p p' M M' None /\ ((2 * m <= n)%nat -> minlvl m = b).
Proof.
  intros Hat Ex Hmem Hcm Hb El Hc Hm Hf Ho Hcase. subst x.
  assert (Em : vswap v c m m = v c) by (rewrite vswap_case, decide_True by done; done).
  unfold HEAP_GRANDPARENT, HEAP_PARENT. destruct (half_lt m) as [L1 L1']; [lia|].
  assert (Hkeep : (forall i, desc i m -> i = c \/ desc i c \/ ord cmp (minlvl i) (v i) (v c)) ->
    desc c m -> ((2 * m <= n)%nat -> minlvl m = b) ->
    exists p' M' w, Some (p, M) = Some (p', M') /\
      heap_at p' M' w n m (Some (w m)) /\ minmax_below cmp w n m /\ member M' (w m) /\
      loop_frame p p' M M' None /\ ((2 * m <= n)%nat -> minlvl m = b)).
  { intros Hbet Hd Hlv. exists p, M, (vswap v c m). rewrite Em. split; [done|]. split; [done|].
    split; [|by split_and!]. apply sink_swap; [done..|lia|done|by rewrite El|done]. }
  case_decide as Hgp; cycle 1.
  { destruct Hcase as [[Ec Hleaf]|?]; [|done].
    assert (Hd : desc c m) by (rewrite <- Ec; apply desc_child; lia).
    apply Hkeep; [|done|lia]. intros i Hi. destruct (desc_inv _ _ Hi) as [->|Hi']; [by left|].
    right. left. by rewrite <- Ec. }
  assert (L2 : (2 <= m / 2)%nat) by (apply half_child in Hgp; lia).
  destruct (half_lt _ L2) as [L3 _]. rewrite Hgp in L3.
  set (q := (m / 2)%nat) in *.
  assert (Hd : desc c m) by (rewrite <- Hgp; apply desc_below; [lia|by apply desc_child]).
  assert (Elm : minlvl m = b) by (rewrite <- El, <- Hgp; symmetry; apply minlvl_grand; lia).
  assert (Elq : minlvl q = negb b) by (rewrite (minlvl_half q), Hgp by done; congruence).
  assert (Eq : vswap v c m q = v q) by (rewrite vswap_case, !decide_False by lia; done).
  pose proof Hat as (Hv & Hl & _). rewrite (Hv m), (Hv q) by lia. cbn [mbind option_bind].
  rewrite Em, Eq. pose proof (beats_spec cmp (negb b) (v c) (v q)) as Hs.
  destruct beats.
  - destruct (swap_settle p M (vswap v c m) n q m) as (p' & M' & -> & Eo & Hat' & Hmem' & Hfr);
      [by rewrite Em|lia|lia|lia|by rewrite Em|].
    cbn [mbind option_bind]. rewrite Eo. cbn [mbind option_bind].
    assert (Em2 : vswap (vswap v c m) q m m = v q)
      by (rewrite vswap_case, decide_True by done; done).
    rewrite Eq in Hat', Hmem'.
    exists p', M', (vswap (vswap v c m) q m). rewrite Em2. split; [done|]. split; [done|].
    split; [|by split_and!].
    apply sink_swap_parent; [done|done|lia|done|done|done|by rewrite El|].
    change (m / 2)%nat with q. by rewrite Elq.
  - apply Hkeep; [|done|done]. intros i Hi. destruct (desc_inv _ _ Hi) as [E|Hi'].
    { fold q in E. subst i. right. right. by rewrite Elq. }
    fold q in Hi'. destruct (desc_inv _ _ Hi') as [E|Hi'']; rewrite Hgp in *; auto.
Qed.

Lemma sink_spec b fuel : forall p M v n c,
  (n - c < fuel)%nat -> (1 <= c <= n)%nat -> Z.of_nat n < 2 ^ 31 - 2 ->
  heap_at p M v n c (Some (v c)) -> minmax_below cmp v n c -> member M (v c) ->
  ((2 * c <= n)%nat -> minlvl c = b) ->
  exists p' M' v', sink cmp b fuel p M n c = Some (p', M') /\
    heap_at p' M' v' n 0 None /\ minmax cmp v' n /\ loop_frame p p' M M' None.
Proof.
  induction fuel as [|fuel IH]; intros p M v n c Hfuel Hc H31 Hat Hb Hmem El; [lia|].
  destruct (offset_settle_member p M v n c Hat Hc Hmem) as (M0 & E0 & Hat0 & Hfr0).
  cbn [sink]. unfold has_children. unfold HEAP_LEFT at 1. rewrite wrap32_small by lia.
  destruct (Nat.leb_spec (2 * c) n) as [Hn|Hn]; cycle 1.
  { exists p, M0, v. rewrite E0. split_and!; try done. by eapply minmax_below_leaf. }
  specialize (El Hn). pose proof Hat as (Hv & Hl & _).
  destruct (first_child_spec cmp b p v n c) as (m & -> & Hm & Hf & Hcase); [done|done|done|lia..|].
  cbn [mbind option_bind]. rewrite (Hv m), (Hv c) by lia. cbn [mbind option_bind].
  rewrite no_better_negb. pose proof (beats_spec cmp b (v m) (v c)) as Hs.
  destruct beats; cbn [negb]; cycle 1.
  { exists p, M0, v. rewrite E0. split_and!; try done.
    eapply sink_done; [done|done|done|by rewrite El]. }
  assert (Hcm : (c < m)%nat).
  { destruct (half_lt m) as [? ?]; [lia|]. destruct Hcase as [[? _]|E]; [lia|].
    pose proof (quarter _ _ E). lia. }
  destruct (swap_move p M v n c m) as (p1 & M1 & -> & E1 & Hat1 & Ex1 & Hfr1); [done|lia..|].
  cbn [mbind option_bind]. rewrite E1. cbn [mbind option_bind].
  assert (Hmem1 : member M1 (v c)) by (destruct Hmem as (k & ? & ?); exists k; by rewrite Ex1).
  destruct (sink_fix b p1 M1 v n c m (v c) Hat1) as (p2 & M2 & w & E2 & Hat2 & Hb2 & Hmem2 & Hfr2 & Hl2);
    try done; try lia.
  rewrite E2. cbn [mbind option_bind].
  destruct (IH p2 M2 w n m) as (p' & M' & v' & -> & Hat' & Hmm & Hfr'); try done; try lia.
  exists p', M', v'. split_and!; try done.
  eapply loop_frame_trans; [apply Hfr1|]. by eapply loop_frame_trans.
Qed.

Lemma rise_spec b fuel : forall p M v n c g,
  (g <= fuel)%nat -> (1 <= g <= n)%nat -> (g <= c)%nat -> minlvl g = b ->
  heap_at p M v n g (Some (v g)) -> minmax_rising cmp v n c g -> is_Some (M !! v g) ->
  exists p' M' v', rise cmp b (S fuel) p M g = Some (p', M') /\
    heap_at p' M' v' n 0 None /\ minmax_below cmp v' n c /\
    loop_frame p p' M M' (Some (v g)) /\ member M' (v g).
Proof.
  induction fuel as [|fuel IH]; intros p M v n c g Hfuel Hg Hgc El Hat Hr Hs; [lia|].
  destruct (offset_settle p M v n g Hat Hg Hs) as (M0 & E0 & Hat0 & Hfr0 & Hx0).
  assert (Hfin : ((1 <= g / 2 / 2)%nat -> ord cmp b (v (g / 2 / 2)%nat) (v g)) ->
    exists p' M' v', (M ← OFFSET_SET p M g; Some (p, M)) = Some (p', M') /\
      heap_at p' M' v' n 0 None /\ minmax_below cmp v' n c /\
      loop_frame p p' M M' (Some (v g)) /\ member M' (v g)).
  { intros Ho. exists p, M0, v. rewrite E0. split_and!; try done.
    - eapply rising_done; [done|done|done|done|by rewrite El].
    - exists g. split; [lia|done]. }
  change (rise cmp b (S (S fuel)) p M g) with
    (if (0 <? HEAP_GRANDPARENT g)%nat then
        x ← slot p g;
        y ← slot p (HEAP_GRANDPARENT g);
        if beats cmp b x y then
          p ← HEAP_SWAP p g (HEAP_GRANDPARENT g);
          M ← OFFSET_SET p M g;
          rise cmp b (S fuel) p M (HEAP_GRANDPARENT g)
        else M ← OFFSET_SET p M g; Some (p, M)
      else M ← OFFSET_SET p M g; Some (p, M)).
  unfold HEAP_GRANDPARENT, HEAP_PARENT. set (e := (g / 2 / 2)%nat) in *.
  destruct (Nat.ltb_spec 0 e) as [He|He]; [|apply Hfin; lia].
  pose proof Hat as (Hv & Hl & _).
  assert (Heg : (e < g)%nat) by (pose proof (quarter e g eq_refl); lia).
  rewrite (Hv g), (Hv e) by lia. cbn [mbind option_bind].
  pose proof (beats_spec cmp b (v g) (v e)) as Hb. destruct beats; [|by apply Hfin].
  destruct (swap_move p M v n g e) as (p1 & M1 & -> & E1 & Hat1 & Ex1 & Hfr1); [done|lia..|].
  cbn [mbind option_bind]. rewrite E1. cbn [mbind option_bind].
  assert (Ee : vswap v g e e = v g) by (rewrite vswap_case, decide_True by done; done).
  assert (H2 : (2 <= g / 2)%nat) by (pose proof (half_child (g / 2) e eq_refl); lia).
  assert (H1 : (2 <= g)%nat) by (pose proof (half_lt (g / 2)%nat); pose proof (half_child g _ eq_refl); lia).
  destruct (IH p1 M1 (vswap v g e) n c e) as (p' & M' & v' & -> & Hat' & Hmm & Hfr' & Hmem').
  - lia.
  - lia.
  - lia.
  - rewrite <- El. apply minlvl_grand; lia.
  - by rewrite Ee.
  - apply rising_grandparent; [done|done|done|lia|done|by rewrite El].
  - by rewrite Ee, Ex1.
  - rewrite Ee in *. exists p', M', v'. split_and!; try done.
    by eapply loop_frame_trans; [apply Hfr1|].
Qed.
End Moves.
