(* ===== verification/MinmaxClient.v ===== *)
(** * Clients of min-max heaps

    The invariant of the heaps of MinmaxHeap.v and the operations as a whole: insertion,
    extraction and both ends, the consistency check, iteration, and runs of client
    operations, which observe a set of objects. *)
From stdpp Require Import functions.
From S2P Require Import Prelude Heap MinmaxHeap.

(** ** The invariant, and that every operation preserves it *)

Section Correct.
Context (cmp : Z -> Z -> Z) `{!MinmaxCmp cmp}.

Lemma hole_root v n : minmax_hole cmp v n 1 -> minmax_below cmp v n 1.
Proof. intros H i j Hd Hj Hi. pose proof (desc_lt _ _ Hd). apply H; try done. lia. Qed.

Lemma push_up_spec p M v n c :
  heap_at p M v n c (Some (v c)) -> minmax_hole cmp v n c -> (1 <= c <= n)%nat ->
  Z.of_nat n < 2 ^ 32 -> is_Some (M !! v c) ->
  exists p' M' v', push_up cmp p M c = Some (p', M') /\
    heap_at p' M' v' n 0 None /\ minmax_below cmp v' n c /\
    loop_frame p p' M M' (Some (v c)) /\ member M' (v c).
Proof.
  intros Hat Hh Hc H32 Hs. unfold push_up. case_decide as H1.
  { subst c. destruct (offset_settle p M v n 1 Hat Hc Hs) as (M' & -> & Hat' & Hfr & Hx).
    exists p, M', v. split_and!; try done; [by apply hole_root|].
    exists 1%nat. split; [lia|done]. }
  destruct (half_lt c) as [L1 L2]; [lia|]. unfold HEAP_PARENT. set (q := (c / 2)%nat) in *.
  pose proof Hat as (Hv & Hl & _). rewrite (Hv c), (Hv q) by lia. cbn [mbind option_bind].
  rewrite is_min_level_spec by lia. fold (minlvl c).
  set (b := minlvl c). assert (Eq : minlvl q = negb b)
    by (unfold b; rewrite (minlvl_half c), negb_involutive by lia; done).
  assert (Hgo : exists p' M' v',
    (if beats cmp (negb b) (v c) (v q) then
       p ← HEAP_SWAP p c q; M ← OFFSET_SET p M c; rise cmp (negb b) (S q) p M q
     else rise cmp b (S c) p M c) = Some (p', M') /\
    heap_at p' M' v' n 0 None /\ minmax_below cmp v' n c /\
    loop_frame p p' M M' (Some (v c)) /\ member M' (v c)); cycle 1.
  { revert Hgo. rewrite push_up_min_rise, push_up_max_rise. unfold beats.
    by destruct b. }
  pose proof (beats_spec cmp (negb b) (v c) (v q)) as Hb. destruct beats.
  - destruct (swap_move p M v n c q) as (p1 & M1 & -> & E1 & Hat1 & Ex1 & Hfr1); [done|lia..|].
    cbn [mbind option_bind]. rewrite E1. cbn [mbind option_bind].
    assert (Ee : vswap v c q q = v c) by (rewrite vswap_case, decide_True by done; done).
    destruct (rise_spec cmp (negb b) q p1 M1 (vswap v c q) n c q)
      as (p' & M' & v' & -> & Hat' & Hmm & Hfr' & Hmem'); try done; try lia.
    + by rewrite Ee.
    + apply rising_parent; [done|done|lia|]. fold q. by rewrite Eq.
    + by rewrite Ee, Ex1.
    + rewrite Ee in *. exists p', M', v'. split_and!; try done.
      by eapply loop_frame_trans; [apply Hfr1|].
  - apply rise_spec; try done; try lia. apply rising_stay; [done|done|lia|].
    by apply ord_negb_inv.
Qed.

Lemma push_down_spec p M v n c :
  heap_at p M v n 0 None \/ heap_at p M v n c (Some (v c)) -> minmax_below cmp v n c ->
  (1 <= c <= n)%nat -> Z.of_nat n < 2 ^ 31 - 2 -> member M (v c) ->
  exists p' M' v', push_down cmp p M n c = Some (p', M') /\
    heap_at p' M' v' n 0 None /\ minmax cmp v' n /\ loop_frame p p' M M' None.
Proof.
  intros Hat Hb Hc H31 Hmem.
  assert (Hat' : heap_at p M v n c (Some (v c))).
  { destruct Hat as [(Hv & Hl & Hf)|]; [|done]. split; [done|]. split; [done|].
    by apply fields_ok_except. }
  unfold push_down. rewrite push_down_min_sink, push_down_max_sink, is_min_level_spec by lia.
  fold (minlvl c). destruct (minlvl c) eqn:El; apply (sink_spec cmp _ _ _ _ v); (done || lia).
Qed.

Definition minmax_inv (h : minmax_heap_t) (M : gmap Z nat) : Prop :=
  (1 <= mm_size h)%nat /\ Z.of_nat (mm_size h) < UINT_MAX /\
  length (mm_p h) = S (mm_size h) /\ (mm_num h <= mm_size h)%nat /\
  slot (mm_p h) 0 = Some UINTPTR_MAX /\
  exists v, heap_at (mm_p h) M v (mm_num h) 0 None /\ minmax cmp v (mm_num h).

Lemma expand_spec h M :
  minmax_inv h M -> Z.of_nat (mm_size h) < 2 ^ 31 ->
  exists h1, minmax_heap_expand true h = inr h1 /\ minmax_inv h1 M /\ mm_num h1 = mm_num h /\
    (mm_size h < mm_size h1)%nat.
Proof.
  intros (H1 & Hmax & Hlen & Hle & H0 & v & (Hv & Hl & Hf) & Ho) H31.
  unfold minmax_heap_expand. rewrite decide_False by (unfold UINT_MAX; lia).
  rewrite (wrap32_small (2 * mm_size h)), wrap32_small, Nat.add_1_r by lia.
  eexists. split; [done|]. cbn [mm_num mm_size]. split; [|split; [done|lia]].
  split; [simpl; lia|]. split; [simpl; unfold UINT_MAX; lia|].
  cbn [mm_num mm_size mm_p]. rewrite length_resize, slot_resize by lia.
  split_and!; try done; try lia. exists v. split; [|done]. split; [|split; [|done]].
  - intros i Hi. rewrite slot_resize by lia. by apply Hv.
  - rewrite length_resize. lia.
Qed.

Lemma minmax_last v n x : minmax cmp v n -> minmax_hole cmp (<[S n := x]> v) (S n) (S n).
Proof.
  intros H i j Hd Hj Hi Hj'. rewrite !fn_lookup_insert_ne by done. apply H; [done|lia].
Qed.

Lemma minmax_insert_spec h M data :
  minmax_inv h M -> Z.of_nat (mm_num h) < 2 ^ 31 -> M !! data = Some 0%nat ->
  exists h' M', fr_minmax_heap_insert cmp true h M data = Some (h', M', inr ()) /\
    minmax_inv h' M' /\ mm_num h' = S (mm_num h) /\
    same_members M M' (Some data) /\ member M' data.
Proof.
  intros Hinv Hn Hd. unfold fr_minmax_heap_insert, index_get. rewrite Hd. cbn [mbind option_bind].
  change (fr_minmax_heap_entry_inserted 0) with false. cbv iota zeta.
  rewrite wrap32_small, Nat.add_1_r by lia.
  assert (Hroom : exists h1, (if decide (mm_size h < S (mm_num h))%nat
      then minmax_heap_expand true h else inr h) = inr h1 /\
    minmax_inv h1 M /\ mm_num h1 = mm_num h /\ (mm_num h < mm_size h1)%nat).
  { case_decide as Hfull; [|exists h; split_and!; done || lia].
    pose proof Hinv as (_ & _ & _ & Hle & _).
    destruct (expand_spec h M Hinv) as (h1 & -> & Hinv1 & En & Hs); [lia|].
    exists h1. split_and!; done || lia. }
  destruct Hroom as (h1 & -> & Hinv1 & En & Hroom). clear Hinv. rewrite <- En in *.
  destruct Hinv1 as (H1 & Hmax & Hlen & Hle & H0 & v & (Hv & Hl & Hf) & Ho).
  set (n := mm_num h1) in *.
  destruct (set_slot_defined (mm_p h1) (S n) data) as (p1 & Ep1 & Lp1); [lia|].
  rewrite Ep1. cbn [mbind option_bind].
  assert (Hx : (<[S n := data]> v) (S n) = data) by apply fn_lookup_insert.
  destruct (push_up_spec p1 M (<[S n := data]> v) (S n) (S n))
    as (p' & M' & v' & -> & Hat' & Hb' & (L' & S0' & Hsm) & Hmem).
  - rewrite Hx. split; [|split; [lia|by apply fields_ok_last]]. intros i Hi.
    destruct (decide (i = S n)) as [->|Hne].
    + by rewrite (slot_set_same _ _ _ _ Ep1), Hx.
    + rewrite (slot_set_other _ _ _ _ _ Ep1) by done.
      rewrite fn_lookup_insert_ne by done. apply Hv. lia.
  - by apply minmax_last.
  - lia.
  - unfold UINT_MAX in *. lia.
  - rewrite Hx. eauto.
  - rewrite Hx in *. cbn [mbind option_bind]. rewrite Nat.add_1_r, wrap32_small by (unfold UINT_MAX in *; lia).
    eexists _, M'. split; [done|]. split; [|done].
    split; [done|]. split; [done|]. simpl. split; [lia|]. split; [lia|]. split.
    + rewrite S0', (slot_set_other _ _ _ _ _ Ep1) by lia. done.
    + exists v'. split; [done|]. eapply minmax_below_leaf; [exact Hb'|lia].
Qed.

Lemma minmax_fill v n c :
  minmax cmp v (S n) -> (c <= n)%nat -> minmax_hole cmp (<[c := v (S n)]> v) n c.
Proof.
  intros H Hc i j Hd Hj Hi Hj'. rewrite !fn_lookup_insert_ne by done. apply H; [done|lia].
Qed.

(** Moving the last element into the hole [c]. *)
Lemma refill_spec p M v n c :
  heap_at p M v n c (Some (v c)) -> minmax_hole cmp v n c -> (1 <= c <= n)%nat ->
  Z.of_nat n < 2 ^ 31 - 2 -> member M (v c) ->
  exists p1 M1 p' M' v',
    (if (1 <? c)%nat && negb (is_descendant n c) then push_up cmp p M c else Some (p, M)) =
      Some (p1, M1) /\
    push_down cmp p1 M1 n c = Some (p', M') /\
    heap_at p' M' v' n 0 None /\ minmax cmp v' n /\ loop_frame p p' M M' None.
Proof.
  intros Hat Hh Hc H31 Hmem. destruct (Nat.ltb_spec 1 c) as [H1|H1]; cbn [andb].
  - rewrite is_descendant_below_root by lia. cbn [negb].
    destruct (push_up_spec p M v n c) as (p1 & M1 & v1 & -> & Hat1 & Hb1 & Hfr1 & Hm1);
      try done; try lia; [by destruct Hmem as (k & _ & ->); eauto|].
    destruct (push_down_spec p1 M1 v1 n c) as (p' & M' & v' & E & Hat' & Hmm & Hfr');
      [by left|done..| |].
    { destruct Hat1 as (_ & _ & F1 & _). exists c. split; [lia|]. apply F1; lia. }
    exists p1, M1, p', M', v'. split_and!; try done.
    eapply loop_frame_trans; [by eapply loop_frame_weaken|done].
  - assert (c = 1)%nat as -> by lia.
    destruct (push_down_spec p M v n 1) as (p' & M' & v' & E & Hat' & Hmm & Hfr');
      [by right|by apply hole_root|done..|].
    by exists p, M, p', M', v'.
Qed.

Lemma minmax_extract_spec h M data :
  minmax_inv h M -> Z.of_nat (mm_num h) < 2 ^ 31 - 2 -> member M data ->
  exists h' M', fr_minmax_heap_extract cmp h M data = Some (h', M', inr ()) /\
    minmax_inv h' M' /\ mm_num h = S (mm_num h') /\ removed M M' data.
Proof.
  intros (H1 & Hmax & Hlen & Hle & H0 & v & (Hv & Hl & Hf) & Ho) H31 (c & Hc0 & Hc).
  pose proof Hf as (F1 & F2 & _). destruct (F2 data c) as (Hcn & _ & Ec); [done..|].
  unfold fr_minmax_heap_extract, index_get. rewrite Hc. cbn [mbind option_bind].
  rewrite decide_False by lia. unfold fr_minmax_heap_entry_inserted.
  destruct (Nat.ltb_spec 0 c); [|lia]. cbn [negb]. rewrite (Hv c Hcn), Ec. cbn [mbind option_bind].
  rewrite bool_decide_eq_false_2 by (intros H'; by apply H'). unfold OFFSET_RESET.
  rewrite (Hv c Hcn), Ec. cbn [mbind option_bind].
  rewrite index_set_defined by eauto. cbn [mbind option_bind].
  pose proof (fields_ok_open v _ c M Hf Hcn) as Hf1. rewrite Ec in Hf1.
  destruct (mm_num h) as [|n] eqn:En; [lia|]. replace (S n - 1)%nat with n by lia.
  case_decide as Hlast.
  { subst c. eexists _, _. split; [done|]. split; [|split; [done|]].
    - split; [done|]. split; [done|]. cbn [mm_p mm_size mm_num]. split; [done|]. split; [lia|].
      split; [done|]. exists v. split; [|intros i j Hd Hj; apply Ho; [done|lia]].
      split; [intros i Hi; apply Hv; lia|]. split; [lia|]. by apply fields_ok_drop.
    - eapply removed_frame; [done|eauto|apply same_members_refl]. }
  rewrite (Hv (S n)) by lia. cbn [mbind option_bind].
  destruct (set_slot_defined (mm_p h) c (v (S n))) as (p1 & Ep1 & Lp1); [lia|].
  rewrite Ep1. cbn [mbind option_bind]. cbv zeta.
  set (w := <[c := v (S n)]> v). assert (Hw : w c = v (S n)) by apply fn_lookup_insert.
  destruct (refill_spec p1 (<[data := 0%nat]> M) w n c)
    as (p2 & M2 & p' & M' & v' & -> & E2 & Hat' & Hmm & (L' & S' & Hsm)).
  - rewrite Hw. split; [|split; [lia|apply fields_ok_fill; [done|lia]]].
    intros i Hi. eapply (view_set _ (S n)); [exact Hv|exact Ep1|lia].
  - apply minmax_fill; [done|lia].
  - lia.
  - lia.
  - rewrite Hw. exists (S n). split; [lia|]. rewrite lookup_insert_ne; [apply F1; lia|].
    rewrite <- Ec. intros E. apply Hlast. symmetry. eapply fields_ok_inj; [done|lia|lia|done].
  - cbn [mbind option_bind]. rewrite E2. cbn [mbind option_bind]. eexists _, M'.
    split; [done|]. split; [|split; [done|]].
    + split; [done|]. split; [done|]. cbn [mm_p mm_size mm_num]. split; [lia|]. split; [lia|].
      split; [rewrite S', (slot_set_other _ _ _ _ _ Ep1) by lia; done|]. by exists v'.
    + by eapply removed_frame; [|eauto|].
Qed.
End Correct.

(** ** Both ends *)

Section Ends.
Context (cmp : Z -> Z -> Z) `{!MinmaxCmp cmp}.

Lemma desc_root i : (2 <= i)%nat -> desc 1 i.
Proof.
  induction (lt_wf i) as [i _ IH]. intros Hi. destruct (half_lt i Hi) as [H1 H2].
  destruct (decide (i / 2 = 1)%nat) as [E|]; [rewrite <- E; by apply desc_child|].
  apply desc_below; [done|]. apply IH; lia.
Qed.

Lemma desc_second i : (4 <= i)%nat -> desc 2 i \/ desc 3 i.
Proof.
  induction (lt_wf i) as [i _ IH]. intros Hi. destruct (half_lt i) as [H1 H2]; [lia|].
  pose proof (half_child i _ eq_refl).
  destruct (decide (4 <= i / 2)%nat) as [H4|].
  - destruct (IH (i / 2)%nat) as [?|?]; [done|done|left|right]; (apply desc_below; [lia|done]).
  - assert (i / 2 = 2 \/ i / 2 = 3)%nat as [E|E] by lia; [left|right];
      rewrite <- E; apply desc_child; lia.
Qed.

Definition first_of (M : gmap Z nat) (d : Z) : Prop :=
  member M d /\ forall y, member M y -> cmp d y <= 0.
Definition last_of (M : gmap Z nat) (d : Z) : Prop :=
  member M d /\ forall y, member M y -> cmp y d <= 0.

Lemma minmax_cmp_refl x : cmp x x <= 0.
Proof. apply (ord_refl cmp true). Qed.

Lemma extreme_slot h M v (b : bool) i :
  heap_at (mm_p h) M v (mm_num h) 0 None -> (1 <= i <= mm_num h)%nat ->
  (forall k, (1 <= k <= mm_num h)%nat -> ord cmp b (v i) (v k)) ->
  if b then first_of M (v i) else last_of M (v i).
Proof.
  intros (_ & _ & F1 & F2 & _) Hi Ho.
  assert (Hm : member M (v i)) by (exists i; split; [lia|apply F1; lia]).
  assert (Hall : forall y, member M y -> ord cmp b (v i) y).
  { intros y (k & Hk & Ek). destruct (F2 y k) as (Hkn & _ & <-); [done..|]. by apply Ho. }
  destruct b; split; auto.
Qed.

Lemma min_peek_spec h M :
  minmax_inv cmp h M ->
  if decide (mm_num h = 0)%nat
  then fr_minmax_heap_min_peek h = Some None /\ forall y, ~ member M y
  else exists d, fr_minmax_heap_min_peek h = Some (Some d) /\ first_of M d.
Proof.
  intros (_ & _ & _ & _ & _ & v & Hat & Ho). pose proof Hat as (Hv & _ & F1 & F2 & _).
  unfold fr_minmax_heap_min_peek. case_decide as Hn.
  { split; [done|]. intros y (k & Hk & Ek). destruct (F2 y k) as (? & _); [done..|]. lia. }
  rewrite (Hv 1%nat) by lia. exists (v 1%nat). split; [done|].
  apply (extreme_slot h M v true); [done|lia|]. intros k Hk.
  destruct (decide (k = 1)%nat) as [->|]; [apply minmax_cmp_refl|].
  apply (Ho 1%nat k); [apply desc_root; lia|lia].
Qed.

Lemma max_peek_spec h M :
  minmax_inv cmp h M ->
  if decide (mm_num h = 0)%nat
  then fr_minmax_heap_max_peek cmp h = Some None /\ forall y, ~ member M y
  else exists d, fr_minmax_heap_max_peek cmp h = Some (Some d) /\ last_of M d.
Proof.
  intros (_ & _ & _ & _ & _ & v & Hat & Ho). pose proof Hat as (Hv & _ & F1 & F2 & _).
  unfold fr_minmax_heap_max_peek. case_decide as Hn.
  { split; [done|]. intros y (k & Hk & Ek). destruct (F2 y k) as (? & _); [done..|]. lia. }
  assert (H1 : forall k, (2 <= k <= mm_num h)%nat -> cmp (v 1%nat) (v k) <= 0).
  { intros k Hk. apply (Ho 1%nat k); [apply desc_root; lia|lia]. }
  case_decide as H3.
  { rewrite (Hv (mm_num h)) by lia. eexists. split; [done|].
    apply (extreme_slot h M v false); [done|lia|]. intros k Hk. simpl.
    destruct (decide (k = mm_num h)) as [->|]; [apply minmax_cmp_refl|].
    assert (k = 1)%nat as -> by lia. apply H1. lia. }
  rewrite (Hv 2%nat), (Hv 3%nat) by lia. cbn [mbind option_bind].
  set (i := (2 + if (cmp (v 2%nat) (v 3%nat) <? 0)%Z then 1 else 0)%nat).
  assert (Hi : (i = 2 \/ i = 3)%nat /\ cmp (v 2%nat) (v i) <= 0 /\ cmp (v 3%nat) (v i) <= 0).
  { unfold i. pose proof (beats_spec cmp true (v 2%nat) (v 3%nat)) as Hs. simpl in Hs.
    destruct (_ <? _); simpl; split_and!; auto using minmax_cmp_refl. }
  destruct Hi as (Hi & Hi2 & Hi3). rewrite (Hv i) by lia. eexists. split; [done|].
  apply (extreme_slot h M v false); [done|lia|]. intros k Hk. simpl.
  destruct (decide (k = 1)%nat) as [->|].
  { apply cmp_trans with (v 2%nat); [apply H1; lia|done]. }
  destruct (decide (k = 2)%nat) as [->|]; [done|]. destruct (decide (k = 3)%nat) as [->|]; [done|].
  destruct (desc_second k) as [Hd|Hd]; [lia| |].
  - apply cmp_trans with (v 2%nat); [|done]. apply (Ho _ _ Hd). lia.
  - apply cmp_trans with (v 3%nat); [|done]. apply (Ho _ _ Hd). lia.
Qed.

(** Removing what a peek returned. *)
Lemma pop_of_spec peek h M d :
  minmax_inv cmp h M -> Z.of_nat (mm_num h) < 2 ^ 31 - 2 -> peek = Some (Some d) -> member M d ->
  exists h' M', pop_of cmp peek h M = Some (h', M', Some d) /\ minmax_inv cmp h' M' /\
    mm_num h = S (mm_num h') /\ removed M M' d.
Proof.
  intros Hinv H31 -> Hm. unfold pop_of. cbn [mbind option_bind].
  destruct (minmax_extract_spec cmp h M d Hinv H31 Hm) as (h' & M' & -> & Hrest).
  exists h', M'. done.
Qed.

Lemma minmax_alloc_inv init h M :
  fr_minmax_heap_alloc true true init = Some (Some h) -> Z.of_nat init < UINT_MAX ->
  (forall y, ~ member M y) -> minmax_inv cmp h M /\ mm_num h = 0%nat.
Proof.
  unfold fr_minmax_heap_alloc. set (n := if decide (init = 0)%nat then _ else init).
  intros Eh Hinit HM.
  assert (Hn : (1 <= n)%nat /\ Z.of_nat n < UINT_MAX)
    by (unfold n, UINT_MAX in *; case_decide; unfold INITIAL_CAPACITY; lia).
  clearbody n. rewrite wrap32_small in Eh by (unfold UINT_MAX in *; lia). cbv zeta in Eh.
  cbn [negb] in Eh.
  destruct (set_slot_defined (replicate (n + 1) None) 0 UINTPTR_MAX) as (p & Ep & Lp);
    [rewrite length_replicate; lia|].
  rewrite Ep in Eh. injection Eh as <-. rewrite length_replicate in Lp.
  split; [|done]. split; [simpl; lia|]. split; [simpl; lia|].
  cbn [mm_p mm_size mm_num]. split; [lia|]. split; [lia|].
  split; [by eapply slot_set_same|].
  exists (fun _ => 0). split; [|intros i j Hd Hj; apply desc_lt in Hd; lia].
  split; [intros i; lia|]. split; [simpl; lia|]. split; [intros i; lia|]. split; [|done].
  intros y k _ Hk Hk0. exfalso. by apply (HM y); exists k.
Qed.
End Ends.

(** ** The consistency check *)

Section Verify.
Context (cmp : Z -> Z -> Z) `{!MinmaxCmp cmp}.

(** Children and grandchildren are enough. *)
Lemma minmax_local v n :
  (forall i j, (2 <= j <= n)%nat -> (1 <= i)%nat -> (j / 2)%nat = i \/ (j / 2 / 2)%nat = i ->
     ord cmp (minlvl i) (v i) (v j)) -> minmax cmp v n.
Proof.
  intros H i j. remember (j - i)%nat as k eqn:Ek. revert i Ek.
  induction (lt_wf k) as [k _ IH]. intros i -> Hd Hj. pose proof (desc_lt _ _ Hd).
  destruct (desc_two_levels _ _ Hd) as [E|[E|(g & E & Hg)]]; [apply H; auto; lia..|].
  pose proof (desc_lt _ _ Hg). pose proof (quarter _ _ E). pose proof (half_child _ _ E).
  apply ord_trans with (v g); [done|apply H; auto; lia|].
  replace (minlvl i) with (minlvl g); [apply (IH (j - g)%nat); (done || lia)|].
  rewrite <- E. symmetry. apply minlvl_grand; lia.
Qed.

Lemma verify_others_iff h v i b others :
  view (mm_p h) (mm_num h) v -> (1 <= i <= mm_num h)%nat -> Forall (fun o => (1 <= o)%nat) others ->
  Sorted.StronglySorted lt others ->
  verify_others cmp h i b others = true <->
  forall o, o ∈ others -> (o <= mm_num h)%nat -> ord cmp b (v i) (v o).
Proof.
  intros Hv Hi. induction others as [|o others IH]; intros Hpos Hs; cbn [verify_others].
  { split; [|done]. intros _ o Ho. by apply elem_of_nil in Ho. }
  apply Forall_cons_1 in Hpos as [Ho Hpos]. apply Sorted.StronglySorted_inv in Hs as [Hs Hlt].
  destruct (Nat.leb_spec o (mm_num h)) as [Hle|Hgt].
  - rewrite (Hv i), (Hv o) by lia. rewrite andb_true_iff, IH by done.
    assert (Hc : (if b then cmp (v i) (v o) <=? 0 else 0 <=? cmp (v i) (v o)) = true <->
      ord cmp b (v i) (v o)).
    { destruct b; simpl; rewrite Z.leb_le; [done|]. split; [intros; apply cmp_total; lia|].
      apply minmax_cmp_flip. }
    rewrite Hc. split.
    + intros [H1 H2] o' Ho'. apply elem_of_cons in Ho' as [->|Ho']; [done|by apply H2].
    + intros H. split; [apply H; [left|done]|]. intros o' Ho'. apply H. by right.
  - split; [|done]. intros _ o' Ho' Hle. apply elem_of_cons in Ho' as [->|Ho']; [lia|].
    rewrite list.Forall_forall in Hlt. specialize (Hlt _ Ho'). lia.
Qed.

Lemma others_of_spec n i :
  (1 <= i)%nat -> (2 * i <= n)%nat -> Z.of_nat n < 2 ^ 31 - 2 ->
  others_of i = [2 * i; 2 * i + 1; 4 * i; 4 * i + 1; 4 * i + 2; 4 * i + 3]%nat.
Proof.
  intros Hi Hn H31. unfold others_of, HEAP_LEFT, HEAP_RIGHT.
  rewrite !(wrap32_small (2 * i)), !(wrap32_small (2 * i + 1)) by lia.
  rewrite !wrap32_small by lia. repeat (apply f_equal2; [lia|]). done.
Qed.

Lemma verify_levels_iff h v fuel : forall i,
  view (mm_p h) (mm_num h) v -> (1 <= i)%nat -> Z.of_nat (mm_num h) < 2 ^ 31 - 2 ->
  (i = 1 \/ i <= mm_num h)%nat -> (mm_num h < fuel + i)%nat ->
  verify_levels cmp fuel h i = true <->
  forall k j, (i <= k)%nat -> (2 <= j <= mm_num h)%nat -> (j / 2)%nat = k \/ (j / 2 / 2)%nat = k ->
    ord cmp (minlvl k) (v k) (v j).
Proof.
  induction fuel as [|fuel IH]; intros i Hv Hi H31 Hle Hf.
  { split; [|done]. intros _ k j Hk Hj [E|E]; exfalso.
    - apply half_child in E. lia.
    - apply quarter in E. lia. }
  cbn [verify_levels]. unfold HEAP_LEFT at 1. rewrite wrap32_small by lia.
  assert (Hjk : forall k j, (j / 2)%nat = k \/ (j / 2 / 2)%nat = k -> (2 * k <= j)%nat).
  { intros k j [E|E]; [apply half_child in E|apply quarter in E]; lia. }
  destruct (Nat.leb_spec (2 * i) (mm_num h)) as [Hn|Hn]; cycle 1.
  { split; [|done]. intros _ k j Hk Hj HE. apply Hjk in HE. lia. }
  rewrite andb_true_iff, wrap32_small, IH by (done || lia).
  rewrite (others_of_spec (mm_num h)), is_min_level_spec by lia. fold (minlvl i).
  rewrite (verify_others_iff h v); [|done|lia|repeat constructor; lia|repeat constructor; lia].
  assert (Hin : forall j, (j / 2)%nat = i \/ (j / 2 / 2)%nat = i <->
    j ∈ [2 * i; 2 * i + 1; 4 * i; 4 * i + 1; 4 * i + 2; 4 * i + 3]%nat).
  { intros j. rewrite !elem_of_cons, elem_of_nil. split.
    - intros [E|E]; [apply half_child in E|apply quarter in E]; lia.
    - destruct (half_double i). intros Hj.
      destruct (decide (j = 2 * i \/ j = 2 * i + 1)%nat) as [[->| ->]|]; [by left|by left|].
      right. apply quarter_of. lia. }
  split.
  - intros [H1 H2] k j Hk Hj HE. destruct (decide (k = i)) as [->|]; [|apply H2; (done || lia)].
    apply H1; [by apply Hin|lia].
  - intros H. split; [|intros k j Hk; apply H; lia]. intros o Ho Hon.
    apply Hin in Ho as Ho'. apply H; [done| |done]. apply Hjk in Ho'. lia.
Qed.

Lemma minmax_verify_slots_iff h M :
  minmax_verify_slots h M = true <->
  exists v, view (mm_p h) (mm_num h) v /\ forall i, (1 <= i <= mm_num h)%nat -> M !! v i = Some i.
Proof. apply (verify_slots_iff (Heap (mm_size h) 0 (mm_num h) (mm_p h)) M). Qed.

Lemma minmax_desc_local v n : minmax cmp v n <->
  (forall k j, (1 <= k)%nat -> (2 <= j <= n)%nat -> (j / 2)%nat = k \/ (j / 2 / 2)%nat = k ->
    ord cmp (minlvl k) (v k) (v j)).
Proof.
  split; [|intros H; apply minmax_local; auto]. intros H k j Hk Hj HE. apply H; [|lia].
  destruct HE as [<-|<-]; [apply desc_child; lia|].
  apply desc_below; [lia|]. apply desc_child. pose proof (half_child (j / 2) _ eq_refl). lia.
Qed.

Lemma minmax_verify_spec h M :
  Z.of_nat (mm_num h) < 2 ^ 31 - 2 ->
  fr_minmax_heap_verify cmp h M = true <->
  (mm_num h <= mm_size h)%nat /\ slot (mm_p h) 0 = Some UINTPTR_MAX /\
  exists v, view (mm_p h) (mm_num h) v /\
    (forall i, (1 <= i <= mm_num h)%nat -> M !! v i = Some i) /\ minmax cmp v (mm_num h).
Proof.
  intros H31. unfold fr_minmax_heap_verify.
  rewrite !andb_true_iff, !bool_decide_eq_true, minmax_verify_slots_iff. split.
  - intros [[[Hn H0] (v & Hv & Hi)] Ho]. split; [done|]. split; [done|]. exists v.
    split; [done|]. split; [done|]. apply minmax_desc_local.
    by rewrite verify_levels_iff in Ho by (done || lia || auto).
  - intros (Hn & H0 & v & Hv & Hi & Ho). split; [split; [done|by exists v]|].
    apply (verify_levels_iff h v); [done|lia|done|lia|lia|]. by apply minmax_desc_local.
Qed.
End Verify.

(** ** Clients *)

(** [fr_minmax_heap_foreach]: the objects the loop body sees. *)
Fixpoint foreach_loop (fuel : nat) (h : minmax_heap_t) (state : nat * option Z) : option (list Z) :=
  match fuel with
  | O => None
  | S fuel' =>
      match state with
      | (_, None) => Some []
      | (iter, Some d) =>
          next ← fr_minmax_heap_iter_next h iter;
          l ← foreach_loop fuel' h next;
          Some (d :: l)
      end
  end.

Definition fr_minmax_heap_foreach (h : minmax_heap_t) : option (list Z) :=
  state ← fr_minmax_heap_iter_init h; foreach_loop (S (mm_num h)) h state.

Inductive minmax_op :=
| OpInsert (realloc_ok : bool) (d : Z) | OpExtract (d : Z)
| OpMinPop | OpMaxPop | OpMinPeek | OpMaxPeek | OpNum | OpForeach.

Inductive minmax_res :=
| ResStatus (r : minmax_err + unit) | ResPtr (d : option Z) | ResNum (n : nat) | ResList (l : list Z).

Definition minmax_step (cmp : Z -> Z -> Z) (h : minmax_heap_t) (M : gmap Z nat) (op : minmax_op)
    : option (minmax_heap_t * gmap Z nat * minmax_res) :=
  match op with
  | OpInsert ok d =>
      '(h, M, r) ← fr_minmax_heap_insert cmp ok h M d;
      Some (h, M, ResStatus r)
  | OpExtract d => '(h, M, r) ← fr_minmax_heap_extract cmp h M d; Some (h, M, ResStatus r)
  | OpMinPop => '(h, M, d) ← fr_minmax_heap_min_pop cmp h M; Some (h, M, ResPtr d)
  | OpMaxPop => '(h, M, d) ← fr_minmax_heap_max_pop cmp h M; Some (h, M, ResPtr d)
  | OpMinPeek => d ← fr_minmax_heap_min_peek h; Some (h, M, ResPtr d)
  | OpMaxPeek => d ← fr_minmax_heap_max_peek cmp h; Some (h, M, ResPtr d)
  | OpNum => Some (h, M, ResNum (fr_minmax_heap_num_elements h))
  | OpForeach => l ← fr_minmax_heap_foreach h; Some (h, M, ResList l)
  end.

Fixpoint minmax_run (cmp : Z -> Z -> Z) (h : minmax_heap_t) (M : gmap Z nat) (ops : list minmax_op)
    : option (minmax_heap_t * gmap Z nat * list minmax_res) :=
  match ops with
  | [] => Some (h, M, [])
  | op :: ops =>
      '(h, M, r) ← minmax_step cmp h M op;
      '(h, M, rs) ← minmax_run cmp h M ops;
      Some (h, M, r :: rs)
  end.

(** The abstract double-ended priority queue: a set of objects. *)
Definition deque_spec (cmp : Z -> Z -> Z) (X : gset Z) (op : minmax_op) (res : minmax_res) (X' : gset Z)
    : Prop :=
  match op, res with
  | OpInsert _ d, ResStatus (inr _) => (d ∉ X) /\ X' = ({[d]} ∪ X)
  | OpInsert _ d, ResStatus (inl MmInserted) => d ∈ X /\ X' = X
  | OpInsert ok d, ResStatus (inl MmRealloc) => (d ∉ X) /\ ok = false /\ X' = X
  | OpExtract d, ResStatus (inr _) => d ∈ X /\ X' = (X ∖ {[d]})
  | OpExtract d, ResStatus (inl MmNotInHeap) => (d ∉ X) /\ X' = X
  | OpMinPop, ResPtr None | OpMaxPop, ResPtr None
  | OpMinPeek, ResPtr None | OpMaxPeek, ResPtr None => X = ∅ /\ X' = X
  | OpMinPop, ResPtr (Some d) => d ∈ X /\ (forall y, y ∈ X -> cmp d y <= 0) /\ X' = (X ∖ {[d]})
  | OpMaxPop, ResPtr (Some d) => d ∈ X /\ (forall y, y ∈ X -> cmp y d <= 0) /\ X' = (X ∖ {[d]})
  | OpMinPeek, ResPtr (Some d) => d ∈ X /\ (forall y, y ∈ X -> cmp d y <= 0) /\ X' = X
  | OpMaxPeek, ResPtr (Some d) => d ∈ X /\ (forall y, y ∈ X -> cmp y d <= 0) /\ X' = X
  | OpNum, ResNum n => n = size X /\ X' = X
  | OpForeach, ResList l => l ≡ₚ elements X /\ X' = X
  | _, _ => False
  end.

Inductive deque_run (cmp : Z -> Z -> Z) : gset Z -> list minmax_op -> list minmax_res -> gset Z -> Prop :=
| deque_nil X : deque_run cmp X [] [] X
| deque_cons X X1 X' op ops res rs :
    deque_spec cmp X op res X1 -> deque_run cmp X1 ops rs X' ->
    deque_run cmp X (op :: ops) (res :: rs) X'.

(** Objects an operation is given. *)
Definition op_known (M : gmap Z nat) (op : minmax_op) : Prop :=
  match op with OpInsert _ d | OpExtract d => is_Some (M !! d) | _ => True end.

#[global] Instance op_known_dec M op : Decision (op_known M op).
Proof. destruct op; simpl; apply _. Defined.

Section Clients.
Context (cmp : Z -> Z -> Z) `{!MinmaxCmp cmp}.

(** The heap and its fields represent the set. *)
Definition represents (h : minmax_heap_t) (M : gmap Z nat) (X : gset Z) : Prop :=
  minmax_inv cmp h M /\ (forall y, y ∈ X <-> member M y) /\ mm_num h = size X.

Lemma represents_known h M X d :
  represents h M X -> is_Some (M !! d) -> d ∉ X -> M !! d = Some 0%nat.
Proof.
  intros (_ & Hm & _) [k Hk] Hd. destruct (decide (k = 0)%nat) as [->|Hk0]; [done|].
  destruct Hd. apply Hm. by exists k.
Qed.

Lemma represents_size h M X : represents h M X -> mm_num h = 0%nat <-> X = ∅.
Proof.
  intros (_ & _ & ->). split; [|intros ->; apply size_empty].
  intros H. apply leibniz_equiv. by apply size_empty_iff.
Qed.

Lemma represents_removed h M X h' M' d :
  represents h M X -> minmax_inv cmp h' M' -> mm_num h = S (mm_num h') -> removed M M' d ->
  d ∈ X -> represents h' M' (X ∖ {[d]}).
Proof.
  intros (_ & Hm & En) Hinv' En' [Hd Hr] HdS. split; [done|]. split.
  - intros y. rewrite elem_of_difference, elem_of_singleton, Hm. destruct (Hr y) as [_ Hy].
    destruct (decide (y = d)) as [->|Hne]; [|rewrite Hy by done; tauto].
    split; [tauto|]. intros (k & Hk & E). congruence.
  - assert (size X = 1 + size (X ∖ {[d]}))%nat; [|lia].
    rewrite <- (size_singleton (C := gset Z) d), <- size_union by set_solver.
    f_equal. apply leibniz_equiv. intros y. destruct (decide (y = d)); set_solver.
Qed.

Lemma known_same_members M M' x op : same_members M M' x -> op_known M op -> op_known M' op.
Proof. intros H. destruct op; simpl; try done; apply H. Qed.

Lemma known_removed M M' d op : removed M M' d -> op_known M op -> op_known M' op.
Proof. intros [_ H]. destruct op; simpl; try done; apply H. Qed.

Lemma foreach_loop_spec h v fuel : forall k,
  view (mm_p h) (mm_num h) v -> (1 <= k <= mm_num h)%nat -> Z.of_nat (mm_num h) < UINT_MAX ->
  (mm_num h < fuel + k - 1)%nat ->
  foreach_loop fuel h (k, Some (v k)) = Some (v <$> seq k (mm_num h - k + 1)).
Proof.
  induction fuel as [|fuel IH]; intros k Hv Hk Hn Hf; [lia|].
  cbn [foreach_loop]. unfold fr_minmax_heap_iter_next.
  rewrite wrap32_small by (unfold UINT_MAX in *; lia). rewrite Nat.add_1_r. case_decide as Hlt.
  - cbn [mbind option_bind]. replace (mm_num h - k)%nat with 0%nat by lia.
    destruct fuel as [|fuel]; [lia|]. done.
  - rewrite (Hv (S k)) by lia. cbn [mbind option_bind]. rewrite Nat.add_1_r in *.
    rewrite IH by (done || lia). cbn [mbind option_bind].
    replace (mm_num h - k)%nat with (S (mm_num h - S k)) by lia. rewrite Nat.add_1_r. done.
Qed.

Lemma foreach_spec h M X :
  represents h M X -> exists l, fr_minmax_heap_foreach h = Some l /\ l ≡ₚ elements X.
Proof.
  intros ((_ & Hmax & _ & Hle & _ & v & (Hv & _ & Hf) & _) & Hm & En).
  pose proof Hf as (F1 & F2 & _).
  exists (v <$> seq 1 (mm_num h)). split.
  - unfold fr_minmax_heap_foreach, fr_minmax_heap_iter_init. case_decide as H0; [by rewrite H0|].
    rewrite (Hv 1%nat) by lia. cbn [mbind option_bind].
    rewrite (foreach_loop_spec h v) by (done || lia). repeat f_equal. lia.
  - apply NoDup_Permutation; [|apply NoDup_elements|].
    + apply NoDup_fmap_2_strong; [|apply NoDup_seq]. intros i j Hi Hj E.
      apply elem_of_seq in Hi, Hj. eapply fields_ok_inj; [done|lia|lia|done].
    + intros y. rewrite elem_of_elements, Hm, list_elem_of_fmap. split.
      * intros (i & -> & Hi). apply elem_of_seq in Hi. exists i. split; [lia|]. apply F1; lia.
      * intros (k & Hk & E). destruct (F2 y k) as (Hkn & _ & Ev); [done..|].
        exists k. split; [done|]. apply elem_of_seq. lia.
Qed.

Lemma pop_step h M X peek (P : Z -> Prop) :
  represents h M X -> Z.of_nat (mm_num h) < 2 ^ 31 - 2 ->
  (if decide (mm_num h = 0)%nat then peek = Some None /\ (forall y, ~ member M y)
   else exists d, peek = Some (Some d) /\ member M d /\ P d) ->
  exists h' M' r X', pop_of cmp peek h M = Some (h', M', r) /\ represents h' M' X' /\
    (mm_num h' <= mm_num h)%nat /\ (forall op, op_known M op -> op_known M' op) /\
    match r with None => X = ∅ /\ X' = X | Some d => d ∈ X /\ P d /\ X' = (X ∖ {[d]}) end.
Proof.
  intros Hrep H31 Hpeek. pose proof (represents_size _ _ _ Hrep) as H0. case_decide as Hn.
  - destruct Hpeek as [-> _]. exists h, M, None, X. split_and!; try done. tauto.
  - destruct Hpeek as (d & -> & Hm & HP). pose proof Hrep as (Hinv & HS & _).
    destruct (pop_of_spec cmp (Some (Some d)) h M d Hinv H31 eq_refl Hm)
      as (h' & M' & -> & Hinv' & En & Hrem).
    apply HS in Hm as HdS. exists h', M', (Some d), (X ∖ {[d]}).
    split; [done|]. split; [by eapply represents_removed|]. split; [lia|].
    split; [|done]. intros op. by apply known_removed with d.
Qed.

Lemma peek_members h M X (P : Z -> Prop) peek :
  represents h M X ->
  (if decide (mm_num h = 0)%nat then peek = Some None /\ (forall y, ~ member M y)
   else exists d, peek = Some (Some d) /\ P d) ->
  exists r, peek = Some r /\ match r with None => X = ∅ | Some d => P d end.
Proof.
  intros Hrep Hp. pose proof (represents_size _ _ _ Hrep) as H0. case_decide as Hn.
  - destruct Hp as [-> _]. exists None. tauto.
  - destruct Hp as (d & -> & HP). by exists (Some d).
Qed.

Lemma insert_step h M X ok d :
  represents h M X -> Z.of_nat (mm_num h) < 2 ^ 31 - 2 -> is_Some (M !! d) ->
  exists h' M' r X', fr_minmax_heap_insert cmp ok h M d = Some (h', M', r) /\ represents h' M' X' /\
    (mm_num h' <= S (mm_num h))%nat /\ (forall op, op_known M op -> op_known M' op) /\
    deque_spec cmp X (OpInsert ok d) (ResStatus r) X'.
Proof.
  intros Hrep H31 Hd. pose proof Hrep as (Hinv & HS & En).
  destruct (decide (d ∈ X)) as [HdS|HdS].
  { apply HS in HdS as (k & Hk & Ek). exists h, M, (inl MmInserted), X.
    unfold fr_minmax_heap_insert, index_get. rewrite Ek. cbn [mbind option_bind].
    unfold fr_minmax_heap_entry_inserted. destruct (Nat.ltb_spec 0 k); [|lia].
    split_and!; try done; try lia. split; [|done]. apply HS. by exists k. }
  pose proof (represents_known _ _ _ _ Hrep Hd HdS) as Ed.
  destruct (minmax_insert_spec cmp h M d Hinv) as (h' & M' & E & Hinv' & En' & Hsm & Hmem); [lia|done|].
  assert (Hok : represents h' M' ({[d]} ∪ X) /\ (mm_num h' <= S (mm_num h))%nat /\
    (forall op, op_known M op -> op_known M' op) /\
    deque_spec cmp X (OpInsert ok d) (ResStatus (inr ())) ({[d]} ∪ X)).
  { split; [|split_and!; try done; try lia].
    - split; [done|]. split.
      + intros y. rewrite elem_of_union, elem_of_singleton, HS. destruct (Hsm y) as [_ B].
        destruct (decide (y = d)) as [->|Hne]; [tauto|]. rewrite B by congruence. tauto.
      + rewrite En', En, size_union, size_singleton by set_solver. lia.
    - intros op. by apply known_same_members with (Some d). }
  destruct ok; [rewrite E; by eexists _, _, _, _|].
  revert E. unfold fr_minmax_heap_insert, index_get. rewrite Ed. cbn [mbind option_bind].
  change (fr_minmax_heap_entry_inserted 0) with false. cbv iota zeta. intros E.
  destruct (decide (mm_size h < wrap32 (mm_num h + 1))%nat) as [Hfull|Hroom].
  - exists h, M, (inl MmRealloc), X. split_and!; try done; try lia.
    unfold minmax_heap_expand. pose proof Hinv as (_ & _ & _ & Hle & _).
    rewrite wrap32_small in Hfull by lia. rewrite decide_False by (unfold UINT_MAX; lia). done.
  - rewrite E. by eexists _, _, _, _.
Qed.

Lemma extract_step h M X d :
  represents h M X -> Z.of_nat (mm_num h) < 2 ^ 31 - 2 -> is_Some (M !! d) ->
  exists h' M' r X', fr_minmax_heap_extract cmp h M d = Some (h', M', r) /\ represents h' M' X' /\
    (mm_num h' <= mm_num h)%nat /\ (forall op, op_known M op -> op_known M' op) /\
    deque_spec cmp X (OpExtract d) (ResStatus r) X'.
Proof.
  intros Hrep H31 Hd. pose proof Hrep as (Hinv & HS & En).
  destruct (decide (d ∈ X)) as [HdS|HdS].
  - destruct (minmax_extract_spec cmp h M d Hinv H31) as (h' & M' & -> & Hinv' & En' & Hrem);
      [by apply HS|].
    exists h', M', (inr ()), (X ∖ {[d]}). split; [done|]. split; [by eapply represents_removed|].
    split; [lia|]. split; [|done]. intros op. by apply known_removed with d.
  - pose proof (represents_known _ _ _ _ Hrep Hd HdS) as Ed.
    exists h, M, (inl MmNotInHeap), X. unfold fr_minmax_heap_extract, index_get. rewrite Ed.
    cbn [mbind option_bind]. rewrite decide_False by lia. by split_and!.
Qed.
End Clients.

Section Runs.
Context (cmp : Z -> Z -> Z) `{!MinmaxCmp cmp}.

Lemma minmax_step_spec h M X op :
  represents cmp h M X -> Z.of_nat (mm_num h) < 2 ^ 31 - 2 -> op_known M op ->
  exists h' M' r X', minmax_step cmp h M op = Some (h', M', r) /\ represents cmp h' M' X' /\
    (mm_num h' <= S (mm_num h))%nat /\ (forall op, op_known M op -> op_known M' op) /\
    deque_spec cmp X op r X'.
Proof.
  intros Hrep H31 Hk. pose proof Hrep as (Hinv & HX & En).
  assert (Hfst : forall d, first_of cmp M d -> d ∈ X /\ forall y, y ∈ X -> cmp d y <= 0).
  { intros d [Hd Hm]. split; [by apply HX|]. intros y Hy. by apply Hm, HX. }
  assert (Hlst : forall d, last_of cmp M d -> d ∈ X /\ forall y, y ∈ X -> cmp y d <= 0).
  { intros d [Hd Hm]. split; [by apply HX|]. intros y Hy. by apply Hm, HX. }
  destruct op as [ok d|d| | | | | |]; cbn [minmax_step].
  - destruct (insert_step cmp h M X ok d Hrep H31 Hk) as (h' & M' & r & X' & -> & ? & ? & ? & ?).
    by eexists _, _, _, _.
  - destruct (extract_step cmp h M X d Hrep H31 Hk) as (h' & M' & r & X' & -> & ? & ? & ? & ?).
    eexists _, _, _, _. split_and!; try done; lia.
  - destruct (pop_step cmp h M X (fr_minmax_heap_min_peek h) (fun d => forall y, member M y -> cmp d y <= 0))
      as (h' & M' & r & X' & E & ? & ? & ? & Hr); [done|done|apply (min_peek_spec cmp h M Hinv)|].
    unfold fr_minmax_heap_min_pop. rewrite E. eexists _, _, _, _. split_and!; try done; try lia.
    destruct r as [d|]; [|done]. destruct Hr as (Hd & Hm & ->). split_and!; try done.
    intros y Hy. by apply Hm, HX.
  - destruct (pop_step cmp h M X (fr_minmax_heap_max_peek cmp h) (fun d => forall y, member M y -> cmp y d <= 0))
      as (h' & M' & r & X' & E & ? & ? & ? & Hr); [done|done|apply (max_peek_spec cmp h M Hinv)|].
    unfold fr_minmax_heap_max_pop. rewrite E. eexists _, _, _, _. split_and!; try done; try lia.
    destruct r as [d|]; [|done]. destruct Hr as (Hd & Hm & ->). split_and!; try done.
    intros y Hy. by apply Hm, HX.
  - destruct (peek_members cmp h M X (first_of cmp M) _ Hrep (min_peek_spec cmp h M Hinv)) as (r & -> & Hr).
    exists h, M, (ResPtr r), X. split_and!; try done; try lia.
    destruct r as [d|]; [|done]. destruct (Hfst d Hr). by split_and!.
  - destruct (peek_members cmp h M X (last_of cmp M) _ Hrep (max_peek_spec cmp h M Hinv)) as (r & -> & Hr).
    exists h, M, (ResPtr r), X. split_and!; try done; try lia.
    destruct r as [d|]; [|done]. destruct (Hlst d Hr). by split_and!.
  - exists h, M, (ResNum (mm_num h)), X. split_and!; try done; lia.
  - destruct (foreach_spec cmp h M X Hrep) as (l & -> & Hl).
    exists h, M, (ResList l), X. split_and!; try done; lia.
Qed.

Lemma minmax_run_spec ops : forall h M X,
  represents cmp h M X -> Z.of_nat (mm_num h + length ops) < 2 ^ 31 - 2 -> Forall (op_known M) ops ->
  exists h' M' rs X', minmax_run cmp h M ops = Some (h', M', rs) /\ deque_run cmp X ops rs X' /\
    represents cmp h' M' X' /\ (mm_num h' <= mm_num h + length ops)%nat.
Proof.
  induction ops as [|op ops IH]; intros h M X Hrep Hn Hk; cbn [minmax_run length] in *.
  { exists h, M, [], X. split_and!; try done; [constructor|lia]. }
  apply Forall_cons_1 in Hk as [Hop Hk].
  destruct (minmax_step_spec h M X op) as (h1 & M1 & r & X1 & -> & Hrep1 & Hn1 & Hk1 & Hspec);
    [done|lia|done|].
  cbn [mbind option_bind].
  destruct (IH h1 M1 X1) as (h' & M' & rs & X' & -> & Hrun & Hrep' & Hn');
    [done|lia|by eapply list.Forall_impl|].
  cbn [mbind option_bind]. exists h', M', (r :: rs), X'. split_and!; try done; try lia.
  by econstructor.
Qed.
End Runs.

(** ** Theorems *)

(** The consistency check [fr_minmax_heap_verify] passes exactly on heaps whose marker is
    intact, whose objects know their slots, and in which every element on a min level
    precedes, and every element on a max level follows, all of its descendants, although the
    check looks at children and grandchildren only. *)
Theorem minmax_verify_iff (cmp : Z -> Z -> Z) `{!MinmaxCmp cmp} h M :
  Z.of_nat (mm_num h) < 2 ^ 31 - 2 ->
  fr_minmax_heap_verify cmp h M = true <->
  (mm_num h <= mm_size h)%nat /\ slot (mm_p h) 0 = Some UINTPTR_MAX /\
  exists v, view (mm_p h) (mm_num h) v /\
    (forall i, (1 <= i <= mm_num h)%nat -> M !! v i = Some i) /\
    forall i j, desc i j -> (j <= mm_num h)%nat ->
      if Nat.even (Nat.log2 i) then cmp (v i) (v j) <= 0 else cmp (v j) (v i) <= 0.
Proof. exact (minmax_verify_spec cmp h M). Qed.

(** C9: a min-max heap is a double-ended priority queue: whatever a client inserts, extracts,
    pops or looks at, at either end, starting from an empty heap of any capacity, no call
    fails, loops forever or leaves the array, every result is the one of a set of objects
    ordered by the callback (pop and peek return a first or last object, and NULL exactly
    when the set is empty; inserting twice and extracting an absent object are refused;
    iteration visits every object once), and the heap passes its consistency check
    afterwards.  Refused growth of the array only refuses the insertion. *)
Theorem minmax_heap_refines (cmp : Z -> Z -> Z) `{!MinmaxCmp cmp} init h M ops :
  fr_minmax_heap_alloc true true init = Some (Some h) -> Z.of_nat init < UINT_MAX ->
  map_Forall (fun _ k => k = 0%nat) M -> Forall (op_known M) ops ->
  Z.of_nat (length ops) < 2 ^ 31 - 2 ->
  exists h' M' rs X, minmax_run cmp h M ops = Some (h', M', rs) /\ deque_run cmp ∅ ops rs X /\
    fr_minmax_heap_verify cmp h' M' = true.
Proof.
  intros Hh Hi HM Hk Hlen.
  assert (Hno : forall y, ~ member M y) by (intros y (k & Hk0 & Ek); by apply HM in Ek).
  destruct (minmax_alloc_inv cmp init h M Hh Hi Hno) as [Hinv En].
  destruct (minmax_run_spec cmp ops h M ∅) as (h' & M' & rs & X & E & Hrun & Hrep & Hn).
  - split; [done|]. split; [|done]. intros y. rewrite elem_of_empty.
    split; [done|apply Hno].
  - lia.
  - done.
  - exists h', M', rs, X. split_and!; try done. apply minmax_verify_spec; [done|lia|].
    destruct Hrep as ((_ & _ & _ & Hle & H0 & v & (Hv & _ & F1 & _) & Ho) & _).
    split; [done|]. split; [done|]. exists v. split; [done|]. split; [|done].
    intros i Hi'. apply F1; lia.
Qed.

Definition example_objects : gmap Z nat :=
  list_to_map ((fun i => (Z.of_nat i, 0%nat)) <$> seq 1 12).

Definition example_ops : list minmax_op :=
  ((fun d => OpInsert true d) <$> [7; 3; 11; 1; 9; 5; 12; 2; 10; 8; 4; 6]) ++
  [OpMaxPeek; OpMinPeek; OpInsert true 7; OpMaxPop; OpMinPop; OpExtract 9; OpExtract 12; OpExtract 10;
   OpMaxPop; OpMinPop; OpNum; OpMaxPop; OpMinPop; OpMaxPop; OpMinPop; OpMaxPop; OpMinPop; OpMaxPop; OpMinPop].

(** The observations of such a run. *)
Example minmax_example_run :
  (fun '(_, _, rs) => drop 12 rs) <$>
    minmax_run example_cmp (MinmaxHeap 2 0 [Some UINTPTR_MAX; None; None]) example_objects example_ops =
  Some [ResPtr (Some 12); ResPtr (Some 1); ResStatus (inl MmInserted); ResPtr (Some 12); ResPtr (Some 1);
        ResStatus (inr ()); ResStatus (inl MmNotInHeap); ResStatus (inr ()); ResPtr (Some 11);
        ResPtr (Some 2); ResNum 6; ResPtr (Some 8); ResPtr (Some 3); ResPtr (Some 7); ResPtr (Some 4);
        ResPtr (Some 6); ResPtr (Some 5); ResPtr None; ResPtr None].
Proof. vm_compute. reflexivity. Qed.

Lemma minmax_heap_refines_witness :
  exists h' M' rs X,
    minmax_run example_cmp (MinmaxHeap 2 0 [Some UINTPTR_MAX; None; None]) example_objects example_ops =
      Some (h', M', rs) /\
    deque_run example_cmp ∅ example_ops rs X /\ fr_minmax_heap_verify example_cmp h' M' = true.
Proof.
  apply (minmax_heap_refines example_cmp 2).
  - reflexivity.
  - unfold UINT_MAX. lia.
  - by apply (bool_decide_unpack _); vm_compute.
  - by apply (bool_decide_unpack _); vm_compute.
  - simpl. lia.
Defined.

(** [is_descendant] is meant to tell whether an element that fills a hole may have to move
    up; it never holds of a position below the root, not even of a child and its parent, so
    the shortcut of [fr_minmax_heap_extract] it guards is never taken. *)
Theorem is_descendant_never c a :
  (2 <= a)%nat -> (1 <= c)%nat -> Z.of_nat c < 2 ^ 32 -> Z.of_nat a < 2 ^ 32 ->
  is_descendant c a = false.
Proof. intros. by apply is_descendant_below_root. Qed.

Example is_descendant_child : desc 2 4 /\ is_descendant 4 2 = false.
Proof. split; [apply (desc_child 4); lia|reflexivity]. Qed.

(** As in the binary heap, the number of slots is computed in 32 bits: a full heap of more
    than 2^31 - 1 elements is reallocated to an array without slots. *)
Theorem minmax_grow_overflow (cmp : Z -> Z -> Z) h M data :
  UINT_MAX < 2 * Z.of_nat (mm_size h) -> Z.of_nat (mm_size h) < UINT_MAX ->
  mm_num h = mm_size h -> M !! data = Some 0%nat ->
  fr_minmax_heap_insert cmp true h M data = None.
Proof.
  intros Hbig Hmax En Hd. unfold fr_minmax_heap_insert, index_get. rewrite Hd.
  cbn [mbind option_bind]. change (fr_minmax_heap_entry_inserted 0) with false. cbv iota zeta.
  rewrite En, wrap32_small by (unfold UINT_MAX in *; lia). rewrite decide_True by lia.
  unfold minmax_heap_expand.
  assert (Hc : Z.of_nat (Z.to_nat UINT_MAX) = UINT_MAX) by (unfold UINT_MAX; lia).
  case_decide; [|lia]. case_decide; [lia|]. rewrite wrap32_uint_max by done.
  cbn [mm_p]. unfold set_slot. rewrite decide_False by (rewrite length_resize; lia). done.
Qed.
