(* ===== verification/Lst.v ===== *)
(** * Leftmost skeleton trees: [lib/util/lst.c] and [lib/util/lst.h]

    A priority queue that sorts itself lazily: the objects are in a circular array, from
    [idx] on, cut into buckets by pivots whose positions are on a stack.  Everything left of
    a pivot precedes it and everything right of it follows it; only the leftmost bucket is
    ever partitioned further.  Positions grow past the capacity and are reduced when the
    array is accessed.  Every object stores its place plus one in a field (0: not in the
    tree); those fields are the map [fields].  A computation fails ([None]) on an access
    outside an array, on a read of a cell that was never written, on a pointer to no object
    and when a loop runs out of fuel. *)
From S2P Require Import Prelude Heap MinmaxHeap StateMonad.

Record pivot_stack_t := PivotStack {
  st_depth : nat;
  st_size : nat;
  st_data : list (option Z)
}.

Record fr_lst_t := Lst {
  capacity : Z;
  lidx : Z;                     (** [idx] *)
  lnum : Z;                     (** [num_elements] *)
  items : list (option Z);      (** [p] *)
  lstack : pivot_stack_t;       (** [s] *)
  rand_ctx : Z * Z;
  fields : gmap Z Z             (** the index fields of the objects *)
}.

Inductive lst_err := LstFull | LstRealloc | LstInserted | LstEmpty | LstNotIn.

Definition with_idx (i : Z) (s : fr_lst_t) : fr_lst_t :=
  Lst (capacity s) i (lnum s) (items s) (lstack s) (rand_ctx s) (fields s).
Definition with_num (n : Z) (s : fr_lst_t) : fr_lst_t :=
  Lst (capacity s) (lidx s) n (items s) (lstack s) (rand_ctx s) (fields s).
Definition with_items (c : Z) (p : list (option Z)) (s : fr_lst_t) : fr_lst_t :=
  Lst c (lidx s) (lnum s) p (lstack s) (rand_ctx s) (fields s).
Definition with_stack (t : pivot_stack_t) (s : fr_lst_t) : fr_lst_t :=
  Lst (capacity s) (lidx s) (lnum s) (items s) t (rand_ctx s) (fields s).
Definition with_rand (r : Z * Z) (s : fr_lst_t) : fr_lst_t :=
  Lst (capacity s) (lidx s) (lnum s) (items s) (lstack s) r (fields s).
Definition with_fields (m : gmap Z Z) (s : fr_lst_t) : fr_lst_t :=
  Lst (capacity s) (lidx s) (lnum s) (items s) (lstack s) (rand_ctx s) m.

(** [uint32_t fr_fast_rand(fr_fast_rand_t *ctx)] *)
Definition fast_rand (c : Z * Z) : Z * (Z * Z) :=
  (let a := 36969 * Z.land c.1 0xffff +32 shr32 c.1 16 in
   let b := 18000 * Z.land c.2 0xffff +32 shr32 c.2 16 in
   (shl32 a 16 +32 b, (a, b)))%cw.

Definition fr_fast_rand : st fr_lst_t Z :=
  c ← gets rand_ctx; _ ← modify (with_rand (fast_rand c).2); mret (fast_rand c).1.

(** ** Index fields and items *)

Definition raw_item_index (data : Z) : st fr_lst_t Z := m ← gets fields; lift (m !! data).
Definition item_index (data : Z) : st fr_lst_t Z := k ← raw_item_index data; mret (u32 (k - 1)).
Definition item_index_set (data idx : Z) : st fr_lst_t unit :=
  m ← gets fields; _ ← lift (m !! data); modify (with_fields (<[data := u32 (idx + 1)]> m)).

Definition index_reduce (cap idx : Z) : Z := Z.land idx (u32 (cap - 1)).
Definition is_equivalent (cap idx1 idx2 : Z) : bool := index_reduce cap (u32 (idx1 - idx2)) =? 0.

Definition item_set (idx data : Z) : st fr_lst_t unit :=
  cap ← gets capacity; p ← gets items;
  p ← lift (set_slot p (Z.to_nat (index_reduce cap idx)) data);
  modify (with_items cap p).

Definition item (idx : Z) : st fr_lst_t Z :=
  cap ← gets capacity; p ← gets items; lift (slot p (Z.to_nat (index_reduce cap idx))).

(** ** The pivot stack *)

(** The flag says whether the reallocation succeeds; new entries are unwritten. *)
Definition stack_expand (ok : bool) : st fr_lst_t bool :=
  s ← gets lstack;
  let grow n_size :=
    if ok then
      _ ← modify (with_stack (PivotStack (st_depth s) n_size (resize n_size None (st_data s))));
      mret true
    else mret false in
  if decide (UINT_MAX - Z.of_nat (st_size s) < Z.of_nat (st_size s)) then
    if decide (Z.of_nat (st_size s) = UINT_MAX) then mret false else grow (Z.to_nat UINT_MAX)
  else grow (2 * st_size s)%nat.

Definition stack_set (k : nat) (v : Z) : st fr_lst_t unit :=
  s ← gets lstack;
  d ← lift (set_slot (st_data s) k v);
  modify (with_stack (PivotStack (st_depth s) (st_size s) d)).

(** 0, or -1 when the stack cannot grow. *)
Definition stack_push (ok : bool) (pivot : Z) : st fr_lst_t Z :=
  s ← gets lstack;
  room ← (if decide (st_depth s = st_size s) then stack_expand ok else mret true);
  if (room : bool) then
    _ ← stack_set (st_depth s) pivot;
    s ← gets lstack;
    _ ← modify (with_stack (PivotStack (S (st_depth s)) (st_size s) (st_data s)));
    mret 0
  else mret (-1).

Definition stack_pop (n : nat) : st fr_lst_t unit :=
  s ← gets lstack; modify (with_stack (PivotStack (st_depth s - n) (st_size s) (st_data s))).

Definition stack_depth : st fr_lst_t nat := s ← gets lstack; mret (st_depth s).
Definition stack_item (k : nat) : st fr_lst_t Z := s ← gets lstack; lift (slot (st_data s) k).
Definition pivot_item (k : nat) : st fr_lst_t Z := i ← stack_item k; item i.

Definition lst_length (k : nat) : st fr_lst_t nat := d ← stack_depth; mret (d - k)%nat.
Definition is_bucket (k : nat) : st fr_lst_t bool := n ← lst_length k; mret (n =? 1)%nat.

Definition lst_size (k : nat) : st fr_lst_t Z :=
  if decide (k = 0)%nat then gets lnum else
  cap ← gets capacity; idx ← gets lidx; right ← stack_item k;
  let reduced_right := index_reduce cap right in
  let reduced_idx := index_reduce cap idx in
  if decide (reduced_idx <= reduced_right) then mret (u32 (reduced_right - reduced_idx))
  else mret (u32 (cap - reduced_idx + reduced_right)).

Definition lst_flatten (k : nat) : st fr_lst_t unit := d ← stack_depth; stack_pop (d - k).

(** The size of the first stack: [for (n = 1; (1U << n) < init; n++)]. *)
Fixpoint stack_capacity (fuel n : nat) (init : Z) : nat :=
  match fuel with
  | O => n
  | S fuel' => if decide (shl32 1 (Z.of_nat n) < init) then stack_capacity fuel' (S n) init else n
  end.

(** The flags say whether the three allocations succeed; [a] and [b] are what [fr_rand]
    returned; the inner [None] is [NULL].  A shift of 1 by 32 places is undefined. *)
Definition fr_lst_alloc (lst_ok p_ok s_ok : bool) (a b init : Z) (m : gmap Z Z)
    : option (option fr_lst_t) :=
  init ← (if decide (init = 0) then Some (Z.of_nat INITIAL_CAPACITY)
          else if decide (Z.land init (init - 1) = 0) then Some init
          else let n := fr_high_bit_pos (Z.to_nat init) in
               if decide (n < 32)%nat then Some (2 ^ Z.of_nat n) else None);
  let n := stack_capacity 32 1 init in
  if negb lst_ok then Some None else
  if negb p_ok then Some None else
  if negb s_ok then Some None else
  let s := Lst init 0 0 (replicate (Z.to_nat init) None)
             (PivotStack 0 n (replicate n None)) (a, b) m in
  '(_, s) ← stack_push true 0 s;
  Some (Some s).

(** ** Moving objects *)

Definition lst_move (location data : Z) : st fr_lst_t unit :=
  _ ← item_set location data;
  cap ← gets capacity;
  item_index_set data (index_reduce cap location).

(** [for (ridx = ...; ridx < stack_index; ridx++)], [n] rounds left. *)
Fixpoint bucket_add_loop (n ridx : nat) : st fr_lst_t unit :=
  match n with
  | O => mret ()
  | S n' =>
      prev_pivot_index ← stack_item (S ridx);
      new_space ← stack_item ridx;
      _ ← stack_set ridx (u32 (new_space + 1));
      _ ← when (u32 (new_space - prev_pivot_index) <> 1)
            (x ← item (u32 (prev_pivot_index + 1)); lst_move new_space x);
      x ← item prev_pivot_index;
      _ ← lst_move (u32 (prev_pivot_index + 1)) x;
      bucket_add_loop n' (S ridx)
  end.

Definition bucket_add (k : nat) (data : Z) : st fr_lst_t unit :=
  _ ← bucket_add_loop k 0;
  new_space ← stack_item k;
  _ ← stack_set k (u32 (new_space + 1));
  _ ← lst_move new_space data;
  n ← gets lnum;
  modify (with_num (u32 (n + 1))).

(** [for (i = ...; i < depth; i++)], [n] rounds left. *)
Fixpoint indices_loop (n i : nat) (reduced_idx idx : Z) : st fr_lst_t unit :=
  match n with
  | O => mret ()
  | S n' =>
      x ← stack_item i;
      _ ← stack_set i (u32 (reduced_idx + x - idx));
      indices_loop n' (S i) reduced_idx idx
  end.

Definition lst_indices_reduce : st fr_lst_t unit :=
  cap ← gets capacity; idx ← gets lidx; depth ← stack_depth;
  _ ← indices_loop depth 0 (index_reduce cap idx) idx;
  modify (with_idx (index_reduce cap idx)).

(** [for (i = ...; i < lst->idx; i++)], [n] rounds left. *)
Fixpoint expand_loop (n : nat) (i old_capacity : Z) : st fr_lst_t unit :=
  match n with
  | O => mret ()
  | S n' =>
      to_be_moved ← item i;
      new_index ← item_index to_be_moved;
      _ ← lst_move (u32 (new_index + old_capacity)) to_be_moved;
      expand_loop n' (i + 1) old_capacity
  end.

Definition lst_expand (ok : bool) : st fr_lst_t (lst_err + unit) :=
  old_capacity ← gets capacity;
  let grow n_capacity :=
    if ok then
      p ← gets items;
      _ ← modify (with_items n_capacity (resize (Z.to_nat n_capacity) None p));
      _ ← lst_indices_reduce;
      idx ← gets lidx;
      _ ← expand_loop (Z.to_nat idx) 0 old_capacity;
      mret (inr ())
    else mret (inl LstRealloc) in
  if decide (UINT_MAX - old_capacity < old_capacity) then
    if decide (old_capacity = UINT_MAX) then mret (inl LstFull) else grow UINT_MAX
  else grow (u32 (old_capacity * 2)).

Definition bucket_lwb (k : nat) : st fr_lst_t Z :=
  b ← is_bucket k;
  if (b : bool) then gets lidx else x ← stack_item (S k); mret (u32 (x + 1)).

Definition bucket_upb (k : nat) : st fr_lst_t Z := x ← stack_item k; mret (u32 (x - 1)).

Section Ops.
Variable cmp : Z -> Z -> Z.

(** [while (lst->cmp(item(lst, --h), pivot) > 0) ;] *)
Fixpoint scan_down (fuel : nat) (pivot h : Z) : st fr_lst_t Z :=
  match fuel with
  | O => fail
  | S fuel' =>
      let h := u32 (h - 1) in
      x ← item h;
      if decide (0 < cmp x pivot) then scan_down fuel' pivot h else mret h
  end.

(** [while (lst->cmp(item(lst, ++l), pivot) < 0) ;] *)
Fixpoint scan_up (fuel : nat) (pivot l : Z) : st fr_lst_t Z :=
  match fuel with
  | O => fail
  | S fuel' =>
      let l := u32 (l + 1) in
      x ← item l;
      if decide (cmp x pivot < 0) then scan_up fuel' pivot l else mret l
  end.

(** [for (;;) { ... }]: the final [h].  [n] rounds are enough for the scans. *)
Fixpoint hoare (fuel n : nat) (pivot l h : Z) : st fr_lst_t Z :=
  match fuel with
  | O => fail
  | S fuel' =>
      h ← scan_down n pivot h;
      l ← scan_up n pivot l;
      if decide (h <= l) then mret h else
      temp ← item l;
      x ← item h;
      _ ← lst_move l x;
      _ ← lst_move h temp;
      hoare fuel' n pivot l h
  end.

(** The position of an object from its index field. *)
Definition position_of (cap low high i : Z) : Z :=
  if decide (index_reduce cap low <= i) then u32 (low + i - index_reduce cap low)
  else u32 (high - (index_reduce cap high - i)).

(** The end of [partition], from the place where the two scans met. *)
Definition settle_pivot (ok : bool) (low high pivot h : Z) : st fr_lst_t unit :=
  cap ← gets capacity;
  i ← item_index pivot;
  let pivot_index := position_of cap low high i in
  _ ← when (pivot_index < h)
        (x ← item h; _ ← lst_move pivot_index x; lst_move h pivot);
  h ← (if decide (h < pivot_index) then
         let h := u32 (h + 1) in
         x ← item h; _ ← lst_move pivot_index x; _ ← lst_move h pivot; mret h
       else mret h);
  _ ← stack_push ok h;
  mret ().

(** From the two scans on, with the pivot at [low]. *)
Definition partition_around (ok : bool) (low high pivot : Z) : st fr_lst_t unit :=
  n ← gets lnum;
  h ← hoare (S (Z.to_nat n)) (S (Z.to_nat n)) pivot (u32 (low - 1)) (u32 (high + 1));
  settle_pivot ok low high pivot h.

Definition partition (ok : bool) (k : nat) : st fr_lst_t unit :=
  low ← bucket_lwb k;
  high ← bucket_upb k;
  cap ← gets capacity;
  if is_equivalent cap low high then _ ← stack_push ok low; mret () else
  r ← fr_fast_rand;
  let range := u32 (high + 1 - low) in
  if decide (range = 0) then fail else
  let pivot_index := u32 (low + r mod range) in
  pivot ← item pivot_index;
  _ ← when (pivot_index <> low)
        (x ← item low; _ ← lst_move pivot_index x; lst_move low pivot);
  partition_around ok low high pivot.

(** [for (;;) { ... }] of [bucket_delete]. *)
Fixpoint bucket_delete_loop (k : nat) (location : Z) : st fr_lst_t unit :=
  cap ← gets capacity;
  top ← bucket_upb k;
  _ ← when (is_equivalent cap location top = false) (x ← item top; lst_move location x);
  _ ← stack_set k top;
  match k with
  | O => mret ()
  | S k' =>
      x ← item (u32 (top + 1));
      _ ← lst_move top x;
      bucket_delete_loop k' (u32 (top + 1))
  end.

Definition bucket_delete (k : nat) (data : Z) : st fr_lst_t unit :=
  location ← item_index data;
  cap ← gets capacity;
  idx ← gets lidx;
  _ ← (if is_equivalent cap location idx then
         _ ← modify (with_idx (u32 (idx + 1)));
         when (is_equivalent cap (u32 (idx + 1)) 0 = true) lst_indices_reduce
       else bucket_delete_loop k location);
  n ← gets lnum;
  _ ← modify (with_num (u32 (n - 1)));
  item_index_set data (-1).

(** ** Operations *)

Fixpoint _fr_lst_pop (fuel : nat) (ok : bool) (k : nat) : st fr_lst_t Z :=
  match fuel with
  | O => fail
  | S fuel' =>
      b ← is_bucket k;
      _ ← when (b = true) (partition ok k);
      n ← lst_size (S k);
      if decide (n = 0) then
        min ← pivot_item (S k);
        _ ← lst_flatten (S k);
        _ ← bucket_delete (S k) min;
        mret min
      else _fr_lst_pop fuel' ok (S k)
  end.

Fixpoint _fr_lst_peek (fuel : nat) (ok : bool) (k : nat) : st fr_lst_t Z :=
  match fuel with
  | O => fail
  | S fuel' =>
      b ← is_bucket k;
      _ ← when (b = true) (partition ok k);
      n ← lst_size (S k);
      if decide (n = 0) then pivot_item (S k) else _fr_lst_peek fuel' ok (S k)
  end.

Fixpoint _fr_lst_extract (fuel : nat) (k : nat) (data : Z) : st fr_lst_t unit :=
  match fuel with
  | O => fail
  | S fuel' =>
      b ← is_bucket k;
      if (b : bool) then bucket_delete k data else
      pivot ← pivot_item (S k);
      let c := cmp data pivot in
      if decide (c < 0) then _fr_lst_extract fuel' (S k) data
      else if decide (0 < c) then bucket_delete k data
      else _ ← lst_flatten (S k); bucket_delete (S k) data
  end.

Fixpoint _fr_lst_insert (fuel : nat) (k : nat) (data : Z) : st fr_lst_t unit :=
  match fuel with
  | O => fail
  | S fuel' =>
      b ← is_bucket k;
      if (b : bool) then bucket_add k data else
      r ← fr_fast_rand;
      n ← lst_size (S k);
      if decide (r mod u32 (n + 1) <> 0) then
        pivot ← pivot_item (S k);
        if decide (cmp data pivot < 0) then _fr_lst_insert fuel' (S k) data
        else bucket_add k data
      else _ ← lst_flatten (S k); bucket_add (S k) data
  end.

(** A pointer or [NULL].  [ok] says whether the stack can grow.  Every level has fewer
    objects than the one before it. *)
Definition fr_lst_pop (ok : bool) : st fr_lst_t (option Z) :=
  n ← gets lnum;
  if decide (n = 0) then mret None
  else d ← _fr_lst_pop (S (Z.to_nat n)) ok 0; mret (Some d).

Definition fr_lst_peek (ok : bool) : st fr_lst_t (option Z) :=
  n ← gets lnum;
  if decide (n = 0) then mret None
  else d ← _fr_lst_peek (S (Z.to_nat n)) ok 0; mret (Some d).

(** The recursion goes up the stack. *)
Definition fr_lst_extract (data : Z) : st fr_lst_t (lst_err + unit) :=
  n ← gets lnum;
  if decide (n = 0) then mret (inl LstEmpty) else
  raw ← raw_item_index data;
  if decide (raw = 0) then mret (inl LstNotIn) else
  depth ← stack_depth;
  _ ← _fr_lst_extract depth 0 data;
  mret (inr ()).

(** [ok] says whether the array can grow. *)
Definition fr_lst_insert (ok : bool) (data : Z) : st fr_lst_t (lst_err + unit) :=
  n ← gets lnum;
  cap ← gets capacity;
  r ← (if decide (n = cap) then lst_expand ok else mret (inr ()));
  match r with
  | inl e => mret (inl e)
  | inr _ =>
      raw ← raw_item_index data;
      if decide (0 < raw) then mret (inl LstInserted) else
      depth ← stack_depth;
      _ ← _fr_lst_insert depth 0 data;
      mret (inr ())
  end.

Definition fr_lst_num_elements : st fr_lst_t Z := gets lnum.

(** The iterator and the object, [None] for [NULL]. *)
Definition fr_lst_iter_init : st fr_lst_t (Z * option Z) :=
  n ← gets lnum;
  if decide (n = 0) then mret (0, None)
  else idx ← gets lidx; d ← item idx; mret (idx, Some d).

Definition fr_lst_iter_next (iter : Z) : st fr_lst_t (Z * option Z) :=
  s0 ← stack_item 0;
  if decide (s0 <= u32 (iter + 1)) then mret (iter, None)
  else d ← item (u32 (iter + 1)); mret (u32 (iter + 1), Some d).

(** [fr_lst_foreach]: the objects the loop body sees. *)
Fixpoint foreach_loop (fuel : nat) (state : Z * option Z) : st fr_lst_t (list Z) :=
  match fuel with
  | O => fail
  | S fuel' =>
      match state with
      | (_, None) => mret []
      | (iter, Some d) =>
          next ← fr_lst_iter_next iter; l ← foreach_loop fuel' next; mret (d :: l)
      end
  end.

Definition fr_lst_foreach : st fr_lst_t (list Z) :=
  n ← gets lnum; state ← fr_lst_iter_init; foreach_loop (S (Z.to_nat n)) state.

(** ** The consistency check

    [false] is a failed assertion; an empty cell, which the code reports or skips, makes the
    check undefined here, as every read of an empty cell does. *)

(** Loops of the check: [n] rounds from [i] on, all of which must hold. *)
Fixpoint all_rounds (n : nat) (i : Z) (body : Z -> st fr_lst_t bool) : st fr_lst_t bool :=
  match n with
  | O => mret true
  | S n' => b ← body i; if (b : bool) then all_rounds n' (i + 1) body else mret false
  end.

(** The sizes of the buckets: [None] when one exceeds the number of elements. *)
Fixpoint bucket_sizes (n k : nat) (sum : Z) : st fr_lst_t (option Z) :=
  match n with
  | O => mret (Some sum)
  | S n' =>
      upb ← bucket_upb k; lwb ← bucket_lwb k; num ← gets lnum;
      let bucket_size := u32 (upb - lwb + 1) in
      if decide (bucket_size <= num) then bucket_sizes n' (S k) (sum + bucket_size) else mret None
  end.

Definition verify_sizes : st fr_lst_t bool :=
  num ← gets lnum;
  if decide (num = 0) then mret true else
  depth ← stack_depth;
  sum ← bucket_sizes depth 0 0;
  mret (match sum with
        | Some sum => bool_decide (u32 (sum + Z.of_nat depth - 1) = num)
        | None => false
        end).

Definition verify_element (i : Z) : st fr_lst_t bool :=
  cap ← gets capacity; idx ← gets lidx;
  element ← item (u32 (idx + i));
  j ← item_index element;
  mret (is_equivalent cap (u32 (idx + i)) j).

(** One bucket against the pivots on both sides of it. *)
Definition verify_bucket (k : nat) : st fr_lst_t bool :=
  depth ← stack_depth;
  right ← (if decide (0 < k)%nat then
             lwb ← (if decide (S k = depth)%nat then gets lidx else stack_item (S k));
             upb ← stack_item k;
             pivot ← item upb;
             all_rounds (Z.to_nat (upb - lwb)) lwb (fun index =>
               element ← item index; mret (bool_decide (cmp element pivot <= 0)))
           else mret true);
  if negb right then mret false else
  if decide (S k < depth)%nat then
    upb ← stack_item k;
    lwb ← stack_item (S k);
    pivot ← item lwb;
    all_rounds (Z.to_nat (upb - lwb)) lwb (fun index =>
      element ← item index; mret (bool_decide (cmp pivot element <= 0)))
  else mret true.

Definition verify_pivots (k : Z) : st fr_lst_t bool :=
  current_pivot ← pivot_item (Z.to_nat k);
  next_pivot ← pivot_item (S (Z.to_nat k));
  mret (bool_decide (0 <= cmp current_pivot next_pivot)).

Definition verify_indices (k : Z) : st fr_lst_t bool :=
  current ← stack_item (Z.to_nat k);
  previous ← stack_item (S (Z.to_nat k));
  mret (bool_decide (previous < current)).

Definition fr_lst_verify : st fr_lst_t bool :=
  depth ← stack_depth;
  if decide (depth < 1)%nat then mret false else
  fake_pivot_index ← stack_item 0;
  cap ← gets capacity; idx ← gets lidx; num ← gets lnum;
  if decide (index_reduce cap fake_pivot_index <> index_reduce cap (u32 (idx + num)))
  then mret false else
  ok ← verify_sizes;
  if negb ok then mret false else
  ok ← all_rounds (Z.to_nat num) 0 verify_element;
  if negb ok then mret false else
  b ← is_bucket 0;
  if (b : bool) then mret true else
  ok ← all_rounds (depth - 2) 1 verify_pivots;
  if negb ok then mret false else
  ok ← all_rounds (depth - 1) 0 verify_indices;
  if negb ok then mret false else
  all_rounds depth 0 (fun k => verify_bucket (Z.to_nat k)).
End Ops.
