(* ===== verification/LstInv.v ===== *)
(** * Leftmost skeleton trees: the representation and the steps that rearrange it

    The objects of a tree are given by a function [v] on the positions of a window [lo, hi);
    at most one position, the hole, is out of date in memory while the code moves objects
    around, and [v] then says which object is in hand.  Every [lst_move] from a position to
    the hole exchanges the two, so the set of objects is preserved by construction, and the
    order around the pivots is kept by moves that do not jump over one. *)
From S2P Require Import Prelude Heap MinmaxHeap StateMonad Lst.

(** ** Positions *)

Definition cap_ok (cap : Z) : Prop := exists c, 0 <= c <= 31 /\ cap = 2 ^ c.

Lemma cap_ok_range cap : cap_ok cap -> 0 < cap <= 2 ^ 31.
Proof.
  intros (c & Hc & ->). split; [apply Z.pow_pos_nonneg; lia|apply Z.pow_le_mono_r; lia].
Qed.

Lemma cap_divide cap : cap_ok cap -> (cap | 2 ^ 32).
Proof.
  intros (c & Hc & ->). exists (2 ^ (32 - c)). rewrite <- Z.pow_add_r by lia. f_equal. lia.
Qed.

Lemma index_reduce_mod cap i : cap_ok cap -> index_reduce cap i = i mod cap.
Proof.
  intros Hcap. pose proof (cap_ok_range cap Hcap). unfold index_reduce.
  rewrite u32_small by lia. destruct Hcap as (c & Hc & ->).
  rewrite <- Z.land_ones by lia. f_equal. rewrite Z.ones_equiv. lia.
Qed.

Lemma u32_mod_cap cap i : cap_ok cap -> u32 i mod cap = i mod cap.
Proof.
  intros Hcap. unfold u32. pose proof (cap_ok_range cap Hcap).
  apply Z.mod_mod_divide. by apply cap_divide.
Qed.

Lemma is_equivalent_spec cap i j :
  cap_ok cap -> is_equivalent cap i j = bool_decide (i mod cap = j mod cap).
Proof.
  intros Hcap. pose proof (cap_ok_range cap Hcap). unfold is_equivalent.
  rewrite index_reduce_mod, u32_mod_cap by done. apply eq_iff_eq_true.
  rewrite bool_decide_eq_true, Z.eqb_eq. split; intros E.
  - apply Z.mod_divide in E; [|lia]. destruct E as [k Ek].
    replace i with (j + k * cap) by lia. apply Z.mod_add. lia.
  - rewrite Zminus_mod, E, Z.sub_diag. apply Zmod_0_l.
Qed.

(** Positions of a window no longer than the array have places of their own. *)
Lemma mod_inj cap lo hi i j :
  0 < cap -> hi - lo <= cap -> lo <= i < hi -> lo <= j < hi -> i mod cap = j mod cap -> i = j.
Proof.
  intros Hc Hw Hi Hj E.
  pose proof (Z.div_mod i cap ltac:(lia)). pose proof (Z.div_mod j cap ltac:(lia)).
  assert (i / cap = j / cap) by nia. lia.
Qed.

(** ** Objects in a window *)

Definition swap_at (v : Z -> Z) (i j k : Z) : Z :=
  if decide (k = i) then v j else if decide (k = j) then v i else v k.

Lemma swap_at_l v i j : swap_at v i j i = v j.
Proof. unfold swap_at. by rewrite decide_True. Qed.
Lemma swap_at_r v i j : swap_at v i j j = v i.
Proof. unfold swap_at. case_decide; [by subst|]. by rewrite decide_True. Qed.
Lemma swap_at_ne v i j k : k <> i -> k <> j -> swap_at v i j k = v k.
Proof. intros. unfold swap_at. by rewrite !decide_False. Qed.

(** The set of objects, one at each position. *)
Definition objects (v : Z -> Z) (lo hi : Z) (X : gset Z) : Prop :=
  (forall i j, lo <= i < hi -> lo <= j < hi -> v i = v j -> i = j) /\
  (forall d, d ∈ X <-> exists i, lo <= i < hi /\ v i = d).

Lemma objects_swap v lo hi X i j :
  objects v lo hi X -> lo <= i < hi -> lo <= j < hi -> objects (swap_at v i j) lo hi X.
Proof.
  intros [Hinj HX] Hi Hj. split.
  - intros a b Ha Hb E. unfold swap_at in E.
    repeat case_decide; subst; try done; apply Hinj in E; congruence || lia.
  - intros d. rewrite HX. split; intros (a & Ha & E).
    + destruct (decide (a = i)) as [->|]; [exists j; by rewrite swap_at_r|].
      destruct (decide (a = j)) as [->|]; [exists i; by rewrite swap_at_l|].
      exists a. by rewrite swap_at_ne.
    + unfold swap_at in E. case_decide; [by exists j|]. case_decide; [by exists i|]. by exists a.
Qed.

(** Memory holds the objects, except at position [h]; objects outside have the field 0. *)
Definition held (s : fr_lst_t) (lo hi : Z) (v : Z -> Z) (h : Z) (X : gset Z) : Prop :=
  cap_ok (capacity s) /\ length (items s) = Z.to_nat (capacity s) /\
  0 <= lo /\ hi - lo <= capacity s /\ hi < 2 ^ 32 /\ objects v lo hi X /\
  (forall i, lo <= i < hi -> i <> h ->
     slot (items s) (Z.to_nat (i mod capacity s)) = Some (v i) /\
     fields s !! v i = Some (i mod capacity s + 1)) /\
  (forall d, d ∈ X -> is_Some (fields s !! d)) /\
  (forall d k, fields s !! d = Some k -> d ∈ X \/ k = 0).

(** No hole. *)
Definition full (s : fr_lst_t) (lo hi : Z) (v : Z -> Z) (X : gset Z) : Prop := held s lo hi v hi X.

Lemma held_weaken s lo hi v h X : full s lo hi v X -> held s lo hi v h X.
Proof.
  intros (H1 & H2 & H3 & H4 & H5 & H6 & H7 & H8). repeat split; try done; try apply H6; try apply H8.
  all: apply H7; lia.
Qed.

Lemma held_ext s lo hi v v' h X :
  (forall i, lo <= i < hi -> v i = v' i) -> held s lo hi v h X -> held s lo hi v' h X.
Proof.
  intros E (H1 & H2 & H3 & H4 & H5 & [Hinj HX] & H7 & H8).
  split_and!; try done; try apply H8.
  - split; [intros i j Hi Hj; rewrite <- !E by done; auto|].
    intros d. rewrite HX. split; intros (i & Hi & Ei); exists i; (split; [done|]).
    + by rewrite <- E.
    + by rewrite E.
  - intros i Hi Hne. rewrite <- E by done. auto.
Qed.

(** What a move leaves alone. *)
Definition frame (s s' : fr_lst_t) : Prop :=
  capacity s' = capacity s /\ lidx s' = lidx s /\ lnum s' = lnum s /\ lstack s' = lstack s /\
  dom (fields s') = dom (fields s).

Lemma frame_refl s : frame s s.
Proof. done. Qed.
Lemma frame_trans s1 s2 s3 : frame s1 s2 -> frame s2 s3 -> frame s1 s3.
Proof. unfold frame. intros (?&?&?&?&?) (?&?&?&?&?). split_and!; congruence. Qed.

Lemma dom_insert_known (m : gmap Z Z) d k : is_Some (m !! d) -> dom (<[d := k]> m) = dom m.
Proof. intros H. rewrite dom_insert_L. apply elem_of_dom in H. set_solver. Qed.

Section Moves.
Context (s : fr_lst_t) (lo hi : Z) (v : Z -> Z) (h : Z) (X : gset Z).

Lemma wp_item i Q :
  held s lo hi v h X -> lo <= i < hi -> i <> h -> Q (v i) s -> wp (item i) s Q.
Proof.
  intros (Hc & _ & _ & _ & _ & _ & Hp & _) Hi Hne HQ. unfold item.
  apply wp_bind, wp_gets, wp_bind, wp_gets. rewrite index_reduce_mod by done.
  eapply wp_lift; [by apply Hp|done].
Qed.

Lemma wp_item_index i Q :
  held s lo hi v h X -> lo <= i < hi -> i <> h -> Q (i mod capacity s) s ->
  wp (item_index (v i)) s Q.
Proof.
  intros (Hc & _ & _ & _ & _ & _ & Hp & _) Hi Hne HQ. unfold item_index, raw_item_index.
  pose proof (cap_ok_range _ Hc). pose proof (Z.mod_pos_bound i (capacity s)).
  apply wp_bind, wp_bind, wp_gets. eapply wp_lift; [by apply Hp|].
  apply wp_ret. rewrite u32_small by lia. by replace (i mod capacity s + 1 - 1) with (i mod capacity s) by lia.
Qed.

(** Moving the object at [j] into the hole moves the hole to [j]; putting back the object in
    hand ([j] is [h]) closes it. *)
Lemma wp_move_gen h' loc j Q :
  held s lo hi v h X -> lo <= h < hi -> lo <= j < hi -> loc mod capacity s = h mod capacity s ->
  h' = j \/ j = h ->
  (forall s', frame s s' -> held s' lo hi (swap_at v h j) h' X -> Q () s') ->
  wp (lst_move loc (v j)) s Q.
Proof.
  intros (Hc & Hl & Hlo & Hw & Hhi & Ho & Hp & Hk & Hf) Hh Hj Hloc Hh' HQ.
  pose proof (cap_ok_range _ Hc). pose proof (Z.mod_pos_bound h (capacity s)) as Hm.
  assert (HjX : v j ∈ X) by (apply Ho; by exists j). destruct (Hk _ HjX) as [kj Ekj].
  unfold lst_move, item_set. apply wp_bind, wp_bind, wp_gets, wp_bind, wp_gets.
  rewrite index_reduce_mod, Hloc by done. unfold set_slot. rewrite decide_True by lia.
  apply wp_bind. eapply wp_lift; [done|]. apply wp_modify, wp_bind, wp_gets.
  cbn [capacity with_items]. rewrite index_reduce_mod, Hloc by done. unfold item_index_set.
  apply wp_bind, wp_gets. cbn [fields with_items]. apply wp_bind. eapply wp_lift; [exact Ekj|].
  apply wp_modify. rewrite u32_small by lia. apply HQ.
  - split_and!; try done. cbn. apply dom_insert_known. by eexists.
  - unfold held. cbn [capacity items fields with_items with_fields]. rewrite length_insert.
    split_and!; try done.
    + by apply objects_swap.
    + intros i Hi Hne. destruct (decide (i = h)) as [->|Hih].
      * rewrite swap_at_l. unfold slot. rewrite list_lookup_insert_eq by lia. split; [done|].
        by rewrite lookup_insert_eq.
      * assert (i <> j) by (intros ->; destruct Hh'; congruence). rewrite swap_at_ne by done. unfold slot. rewrite list_lookup_insert_ne.
        -- rewrite lookup_insert_ne; [by apply Hp|]. intros E. apply Ho in E; lia.
        -- intros E. apply Hih. apply (mod_inj (capacity s) lo hi); try lia.
           pose proof (Z.mod_pos_bound i (capacity s)). lia.
    + intros d Hd. destruct (decide (v j = d)) as [<-|]; [by rewrite lookup_insert_eq|].
      rewrite lookup_insert_ne by done. by apply Hk.
    + intros d k. destruct (decide (v j = d)) as [<-|]; [by left|].
      rewrite lookup_insert_ne by done. apply Hf.
Qed.

Lemma wp_move loc j Q :
  held s lo hi v h X -> lo <= h < hi -> lo <= j < hi -> loc mod capacity s = h mod capacity s ->
  (forall s', frame s s' -> held s' lo hi (swap_at v h j) j X -> Q () s') ->
  wp (lst_move loc (v j)) s Q.
Proof. intros. apply (wp_move_gen j loc j); auto. Qed.

(** Putting the object in hand into the hole. *)
Lemma wp_place loc x Q :
  held s lo hi v h X -> lo <= h < hi -> loc mod capacity s = h mod capacity s -> v h = x ->
  (forall s', frame s s' -> full s' lo hi v X -> Q () s') ->
  wp (lst_move loc x) s Q.
Proof.
  intros Hheld Hh Hloc <- HQ. apply (wp_move_gen hi loc h); [done..|by right|].
  intros s' Hfr Hs'. apply HQ; [done|]. revert Hs'. apply held_ext.
  intros i _. unfold swap_at. repeat case_decide; by subst.
Qed.
End Moves.

(** ** The pivot stack *)

(** The first [n] entries of the stack. *)
Definition stacked (s : fr_lst_t) (n : nat) (t : nat -> Z) : Prop :=
  st_size (lstack s) = length (st_data (lstack s)) /\ (n <= st_size (lstack s))%nat /\
  forall k, (k < n)%nat -> slot (st_data (lstack s)) k = Some (t k).

Definition upd (t : nat -> Z) (k : nat) (x : Z) (i : nat) : Z := if decide (i = k) then x else t i.

(** What writing to the stack leaves alone. *)
Definition frame_stack (s s' : fr_lst_t) : Prop :=
  capacity s' = capacity s /\ lidx s' = lidx s /\ lnum s' = lnum s /\
  st_depth (lstack s') = st_depth (lstack s) /\ dom (fields s') = dom (fields s).

Lemma frame_stack_of s s' : frame s s' -> frame_stack s s'.
Proof. unfold frame, frame_stack. intros (?&?&?&E&?). rewrite E. done. Qed.
Lemma frame_stack_refl s : frame_stack s s.
Proof. done. Qed.
Lemma frame_stack_trans s1 s2 s3 : frame_stack s1 s2 -> frame_stack s2 s3 -> frame_stack s1 s3.
Proof. unfold frame_stack. intros (?&?&?&?&?) (?&?&?&?&?). split_and!; congruence. Qed.

Lemma held_cong s s' lo hi v h X :
  capacity s' = capacity s -> items s' = items s -> fields s' = fields s ->
  held s lo hi v h X -> held s' lo hi v h X.
Proof. unfold held. by intros -> -> ->. Qed.

Lemma stacked_frame s s' n t : frame s s' -> stacked s n t -> stacked s' n t.
Proof. unfold stacked. by intros (_ & _ & _ & -> & _). Qed.

Lemma wp_stack_item s n t k Q :
  stacked s n t -> (k < n)%nat -> Q (t k) s -> wp (stack_item k) s Q.
Proof.
  intros (_ & _ & Ht) Hk HQ. unfold stack_item. apply wp_bind, wp_gets.
  eapply wp_lift; [by apply Ht|done].
Qed.

Lemma wp_stack_set s n t k x Q :
  stacked s n t -> (k < n)%nat ->
  (forall s', frame_stack s s' -> stacked s' n (upd t k x) ->
     items s' = items s -> fields s' = fields s -> Q () s') ->
  wp (stack_set k x) s Q.
Proof.
  intros (Hs & Hn & Ht) Hk HQ. unfold stack_set. apply wp_bind, wp_gets, wp_bind.
  unfold set_slot. rewrite decide_True by lia. eapply wp_lift; [done|]. apply wp_modify.
  apply HQ; try done. split_and!; cbn; [by rewrite length_insert|lia|].
  intros i Hi. unfold upd, slot. case_decide as E; [subst; rewrite list_lookup_insert_eq by lia; done|].
  rewrite list_lookup_insert_ne by done. by apply Ht.
Qed.

(** ** Order around the pivots *)

Section Order.
Context (cmp : Z -> Z -> Z) `{!MinmaxCmp cmp}.

(** What is left of [q] precedes it, what is right of it follows it, the hole apart. *)
Definition split_at (v : Z -> Z) (lo hi h q : Z) : Prop :=
  lo <= q < hi /\ q <> h /\
  (forall i, lo <= i < q -> i <> h -> cmp (v i) (v q) <= 0) /\
  (forall i, q < i < hi -> i <> h -> cmp (v q) (v i) <= 0).

(** A move within a bucket. *)
Lemma split_swap v lo hi h j q :
  split_at v lo hi h q -> lo <= h < hi -> lo <= j < hi -> (q < h /\ q < j \/ h < q /\ j < q) ->
  split_at (swap_at v h j) lo hi j q.
Proof.
  intros (Hq & Hne & Hl & Hr) Hh Hj Hside. split; [done|]. split; [lia|].
  rewrite (swap_at_ne _ _ _ q) by lia. split; intros i Hi Hij.
  - unfold swap_at. repeat case_decide; subst; apply Hl; lia.
  - unfold swap_at. repeat case_decide; subst; apply Hr; lia.
Qed.

(** A pivot moves to the hole beside it. *)
Lemma split_pivot v lo hi h q :
  split_at v lo hi h q -> lo <= h < hi -> h = q + 1 \/ h = q - 1 ->
  split_at (swap_at v h q) lo hi q h.
Proof.
  intros (Hq & Hne & Hl & Hr) Hh Hside. split; [done|]. split; [lia|].
  rewrite swap_at_l. split; intros i Hi Hiq; rewrite swap_at_ne by lia; [apply Hl|apply Hr]; lia.
Qed.

(** Closing the hole with an object that fits. *)
Lemma split_place v lo hi h q :
  split_at v lo hi h q -> (h < q -> cmp (v h) (v q) <= 0) -> (q < h -> cmp (v q) (v h) <= 0) ->
  split_at v lo hi hi q.
Proof.
  intros (Hq & Hne & Hl & Hr) H1 H2. split; [done|]. split; [lia|].
  split; intros i Hi _; (destruct (decide (i = h)) as [->|]; [auto with lia|]).
  - apply Hl; lia.
  - apply Hr; lia.
Qed.

Lemma split_weaken v lo hi h q : split_at v lo hi hi q -> q <> h -> split_at v lo hi h q.
Proof.
  intros (Hq & Hne & Hl & Hr) Hn. split_and!; try done; [lia..| |]; intros; [apply Hl|apply Hr]; lia.
Qed.

(** The stack goes down from [hi] to a position not below [lo]; its entries after the first
    are pivots. *)
Definition pivots (v : Z -> Z) (lo hi h : Z) (n : nat) (t : nat -> Z) : Prop :=
  t 0%nat = hi /\
  (forall i j, (i < j < n)%nat -> t j < t i) /\
  (forall k, (1 <= k < n)%nat -> split_at v lo hi h (t k)).

Lemma stacked_ext s n t t' : (forall k, (k < n)%nat -> t k = t' k) -> stacked s n t -> stacked s n t'.
Proof. intros E (H1 & H2 & H3). split_and!; try done. intros k Hk. rewrite <- E by done. auto. Qed.

Lemma pivots_ext v lo hi h n t t' :
  (0 < n)%nat -> (forall k, (k < n)%nat -> t k = t' k) -> pivots v lo hi h n t -> pivots v lo hi h n t'.
Proof.
  intros Hn E (H1 & H2 & H3). split_and!.
  - by rewrite <- E.
  - intros i j Hij. rewrite <- !E by lia. auto.
  - intros k Hk. rewrite <- E by lia. auto.
Qed.

Lemma stacked_cong s s' n t : lstack s' = lstack s -> stacked s n t -> stacked s' n t.
Proof. unfold stacked. by intros ->. Qed.

(** A pivot moves to the hole beside it: the other pivots are on the same side of both. *)
Lemma pivot_sides v lo hi h n t k q j :
  pivots v lo hi h n t -> (1 <= k < n)%nat -> t k = q -> lo <= h < hi -> h = q + 1 \/ h = q - 1 ->
  (j < n)%nat -> j <> k -> t j < q /\ t j < h \/ q < t j /\ h < t j.
Proof.
  intros (H0 & Hdesc & Hsplit) Hk Hq Hh Hside Hj Hjk.
  assert (Hne : t j <> h).
  { destruct (decide (j = 0)%nat) as [->|]; [lia|]. destruct (Hsplit j) as (_ & ? & _); lia. }
  destruct (decide (j < k)%nat).
  - pose proof (Hdesc j k ltac:(lia)). lia.
  - pose proof (Hdesc k j ltac:(lia)). lia.
Qed.

Lemma pivots_shift v lo hi h n t k q :
  pivots v lo hi h n t -> (1 <= k < n)%nat -> t k = q -> lo <= h < hi -> h = q + 1 \/ h = q - 1 ->
  pivots (swap_at v h q) lo hi q n (upd t k h) /\
  (forall j, (1 <= j < n)%nat -> swap_at v h q (upd t k h j) = v (t j)).
Proof.
  intros Hp Hk Hq Hh Hside.
  assert (Hs : forall j, (j < n)%nat -> j <> k -> t j < q /\ t j < h \/ q < t j /\ h < t j)
    by (intros j; by apply (pivot_sides v lo hi h n t k q)).
  destruct Hp as (H0 & Hdesc & Hsplit). split; [split_and!|].
  - unfold upd. case_decide; [lia|done].
  - intros i j Hij. unfold upd. pose proof (Hdesc i j Hij). repeat case_decide; subst; try lia.
    + destruct (Hs i); lia.
    + destruct (Hs j); lia.
  - intros j Hj. unfold upd. pose proof (Hsplit j Hj) as Hsj. case_decide as E.
    + subst j. rewrite Hq in Hsj. by apply split_pivot.
    + apply split_swap; [done|lia| |]; [destruct (Hsplit k Hk) as (? & _); lia|]. destruct (Hs j); lia.
  - intros j Hj. unfold upd. case_decide as E; [subst; by rewrite swap_at_l|].
    apply swap_at_ne; destruct (Hs j); lia.
Qed.

(** ** Adding to a bucket *)

(** The entries from [a] to before [b] have moved up by one. *)
Definition bump (a b : nat) (t : nat -> Z) (k : nat) : Z :=
  if decide (a <= k < b)%nat then t k + 1 else t k.

(** The hole goes from the top of a bucket to the place above the pivot on its left. *)
Lemma wp_make_room s lo hi v h X N t r q Q :
  held s lo hi v h X -> lo <= h < hi -> (S r < N)%nat ->
  t (S r) = q -> t r = h + 1 -> pivots v lo hi h N t ->
  (forall s' v', frame s s' -> held s' lo hi v' (q + 1) X -> lo <= q + 1 < hi ->
     v' (q + 1) = v h -> (forall k, (1 <= k < N)%nat -> v' (t k) = v (t k)) ->
     pivots v' lo hi (q + 1) N t -> Q () s') ->
  wp (when (u32 (h - q) <> 1) (x ← item (u32 (q + 1)); lst_move h x)) s Q.
Proof.
  intros Hheld Hh HN Hq Htr Hp HQ. pose proof Hp as (H0 & Hdesc & Hsplit).
  destruct (Hsplit (S r)) as (Hqr & Hqh & _); [lia|]. rewrite Hq in Hqr, Hqh.
  assert (Hqh' : q < h) by (pose proof (Hdesc r (S r) ltac:(lia)); lia).
  pose proof Hheld as (_ & _ & Hlo & _ & Hhi & _).
  assert (Hside : forall k, (1 <= k < N)%nat ->
    t k < h /\ t k < q + 1 \/ h < t k /\ q + 1 < t k).
  { intros k Hk. destruct (decide (k <= r)%nat) as [Hle|].
    - right. destruct (decide (k = r)) as [->|]; [lia|]. pose proof (Hdesc k r ltac:(lia)). lia.
    - left. destruct (decide (k = S r)) as [->|]; [lia|]. pose proof (Hdesc (S r) k ltac:(lia)). lia. }
  rewrite (u32_small (h - q)) by lia. destruct (decide (h - q = 1)) as [E|E].
  - apply wp_when_false; [auto|]. replace (q + 1) with h in * by lia.
    apply (HQ s v); try done.
  - apply wp_when_true; [done|]. rewrite (u32_small (q + 1)) by lia.
    apply wp_bind. eapply wp_item; [done|lia|lia|]. apply (wp_move _ lo hi v h X); [done|lia|lia|done|].
    intros s' Hfr Hs'. apply (HQ s' (swap_at v h (q + 1))); try done; [lia|by rewrite swap_at_r| |].
    + intros k Hk. destruct (Hside k Hk); apply swap_at_ne; lia.
    + split_and!; try done. intros k Hk. apply split_swap; [auto|lia|lia|auto].
Qed.

Lemma wp_bucket_add_loop n : forall s lo hi v h X N t r Q,
  stacked s N t -> held s lo hi v h X -> lo <= h < hi -> t r = h -> (r + n < N)%nat ->
  pivots v lo hi h N (upd t r (h + 1)) ->
  (forall s' v', frame_stack s s' -> stacked s' N (bump r (r + n) t) ->
     held s' lo hi v' (t (r + n)%nat) X -> lo <= t (r + n)%nat < hi ->
     v' (t (r + n)%nat) = v h -> pivots v' lo hi (t (r + n)%nat) N (bump r (r + n + 1) t) ->
     (forall k, (1 <= k < N)%nat -> v' (bump r (r + n + 1) t k) = v (upd t r (h + 1) k)) ->
     Q () s') ->
  wp (bucket_add_loop n r) s Q.
Proof.
  induction n as [|n IH]; intros s lo hi v h X N t r Q Hst Hheld Hh Htr Hn Hp HQ.
  { apply wp_ret. rewrite Nat.add_0_r, Htr in HQ.
    assert (E : forall k, upd t r (h + 1) k = bump r (r + 1) t k)
      by (intros k; unfold upd, bump; repeat case_decide; subst; lia || done).
    apply (HQ s v); try done.
    - revert Hst. apply stacked_ext. intros k _. unfold bump. case_decide; [lia|done].
    - revert Hp. apply pivots_ext; [lia|auto].
    - intros k _. by rewrite E. }
  cbn [bucket_add_loop]. set (q := t (S r)).
  pose proof Hheld as (_ & _ & Hlo & _ & Hhi & _).
  apply wp_bind. eapply (wp_stack_item _ N t); [done|lia|].
  apply wp_bind. eapply (wp_stack_item _ N t); [done|lia|]. rewrite Htr, (u32_small (h + 1)) by lia.
  apply wp_bind. eapply (wp_stack_set _ N t); [done|lia|]. intros s1 Hf1 Hst1 Ei1 Ef1.
  apply wp_bind. fold q. set (t1 := upd t r (h + 1)) in *.
  assert (Eq : t1 (S r) = q) by (unfold t1, upd; case_decide; [lia|done]).
  assert (Er : t1 r = h + 1) by (unfold t1, upd; by rewrite decide_True).
  eapply (wp_make_room s1 lo hi v h X N t1 r q);
    [eapply held_cong; [apply Hf1|done|done|done]|done|lia|done|done|done|].
  intros s2 v1 Hf2 Hh2 Hq2 Hv1 Hv1' Hp1.
  destruct (pivots_shift v1 lo hi (q + 1) N t1 (S r) q Hp1) as [Hp2 Hv2]; [lia|done|lia|by left|].
  assert (Hqr : lo <= q < hi) by (rewrite <- Eq; apply (proj2 (proj2 Hp1)); lia).
  apply wp_bind. eapply (wp_item s2 lo hi v1 (q + 1)); [done|lia|lia|].
  rewrite (u32_small (q + 1)) by lia.
  apply wp_bind, (wp_move s2 lo hi v1 (q + 1) X); [done|lia|lia|done|]. intros s3 Hf3 Hh3.
  apply (IH s3 lo hi (swap_at v1 (q + 1) q) q X N t1 (S r)); [|done|lia|done|lia|done|].
  - eapply stacked_frame; [exact Hf3|]. by eapply stacked_frame.
  - intros s' v' Hf' Hst' Hheld' Hrange Hval Hpiv Hpv.
    assert (Et : t1 (S r + n)%nat = t (r + S n)%nat).
    { unfold t1, upd. rewrite decide_False by lia. f_equal. lia. }
    rewrite Et in *.
    assert (Eb : forall m k, (S r <= m)%nat -> bump (S r) m t1 k = bump r m t k).
    { intros m k Hm. unfold bump, t1, upd. repeat case_decide; subst; lia || done. }
    replace (S r + n)%nat with (r + S n)%nat in * by lia.
    replace (S r + n + 1)%nat with (r + S n + 1)%nat in * by lia.
    apply (HQ s' v'); try done.
    + eapply frame_stack_trans; [exact Hf1|]. eapply frame_stack_trans; [by apply frame_stack_of|].
      eapply frame_stack_trans; [by apply frame_stack_of|done].
    + revert Hst'. apply stacked_ext. intros k _. apply Eb. lia.
    + by rewrite Hval, swap_at_r.
    + revert Hpiv. apply pivots_ext; [lia|]. intros k _. apply Eb. lia.
    + intros k Hk. rewrite <- Eb by lia. rewrite Hpv, Hv2 by done. by apply Hv1'.
Qed.

(** One position more at the end, with a new object in hand. *)
Definition extend (v : Z -> Z) (hi d i : Z) : Z := if decide (i = hi) then d else v i.

Lemma held_extend s lo hi v X d :
  full s lo hi v X -> hi - lo < capacity s -> hi + 1 < 2 ^ 32 -> lo <= hi -> d ∉ X ->
  is_Some (fields s !! d) -> held s lo (hi + 1) (extend v hi d) hi ({[d]} ∪ X).
Proof.
  intros (H1 & H2 & H3 & H4 & H5 & [Hinj HX] & H7 & Hk & Hf) Hc Hh Hle Hd Hs.
  assert (E : forall i, lo <= i < hi -> extend v hi d i = v i)
    by (intros i Hi; unfold extend; by rewrite decide_False by lia).
  assert (Ed : extend v hi d hi = d) by (unfold extend; by rewrite decide_True).
  assert (Hnew : forall i, lo <= i < hi -> v i <> d)
    by (intros i Hi Ei; apply Hd, HX; by exists i).
  split_and!; try done; try lia.
  - split.
    + intros i j Hi Hj. destruct (decide (i = hi)) as [->|], (decide (j = hi)) as [->|];
        rewrite ?Ed, ?E by lia; intros Eij; try done; [|by destruct (Hnew i ltac:(lia))|apply Hinj; lia || done].
      by destruct (Hnew j ltac:(lia)).
    + intros x. rewrite elem_of_union, elem_of_singleton, HX. split.
      * intros [->|(i & Hi & Ei)]; [exists hi; split; [lia|done]|].
        exists i. rewrite E by done. split; [lia|done].
      * intros (i & Hi & Ei). destruct (decide (i = hi)) as [->|]; [left; congruence|].
        right. exists i. rewrite E in Ei by lia. split; [lia|done].
  - intros i Hi Hne. rewrite E by lia. apply H7; lia.
  - intros x [->%elem_of_singleton|Hx]%elem_of_union; [done|by apply Hk].
  - intros x k Ex. destruct (Hf x k Ex); [left; set_solver|by right].
Qed.

Lemma pivots_extend v lo hi n t d :
  pivots v lo hi hi n t -> lo <= hi -> (0 < n)%nat ->
  pivots (extend v hi d) lo (hi + 1) hi n (upd t 0 (hi + 1)).
Proof.
  intros (H0 & Hdesc & Hsplit) Hle Hn. split_and!.
  - unfold upd. by rewrite decide_True.
  - intros i j Hij. unfold upd. pose proof (Hdesc i j Hij). repeat case_decide; subst; lia.
  - intros k Hk. unfold upd. rewrite decide_False by lia.
    destruct (Hsplit k Hk) as (Hq & Hne & Hl & Hr). split_and!; try lia.
    + intros i Hi _. unfold extend. rewrite !decide_False by lia. apply Hl; lia.
    + intros i Hi Hih. unfold extend. rewrite !decide_False by lia. apply Hr; lia.
Qed.

(** Closing the hole with an object that fits the first [m] entries of the stack. *)
Lemma pivots_place v lo hi h n m t :
  pivots v lo hi h n t -> (0 < m <= n)%nat ->
  (forall j, (1 <= j < m)%nat -> h < t j -> cmp (v h) (v (t j)) <= 0) ->
  (forall j, (1 <= j < m)%nat -> t j < h -> cmp (v (t j)) (v h) <= 0) ->
  pivots v lo hi hi m t.
Proof.
  intros (H0 & Hdesc & Hsplit) Hm H1 H2. split_and!; [done|intros; apply Hdesc; lia|].
  intros k Hk. eapply split_place; [apply Hsplit; lia|auto..].
Qed.

(** The object goes between the pivots [k] and [k + 1]; it must fit there as far as the first
    [m] entries go. *)
Lemma wp_bucket_add s lo hi v X n m t k d Q :
  full s lo hi v X -> stacked s n t -> pivots v lo hi hi n t -> (k < n)%nat -> (0 < m <= n)%nat ->
  lo <= hi -> hi - lo < capacity s -> hi + 1 < 2 ^ 32 -> lnum s = hi - lo -> d ∉ X ->
  is_Some (fields s !! d) ->
  (forall j, (1 <= j < m)%nat -> if decide (j <= k)%nat then cmp d (v (t j)) <= 0 else cmp (v (t j)) d <= 0) ->
  (forall s' v' t', full s' lo (hi + 1) v' ({[d]} ∪ X) -> stacked s' m t' ->
     pivots v' lo (hi + 1) (hi + 1) m t' ->
     capacity s' = capacity s -> lidx s' = lidx s -> lnum s' = lnum s + 1 ->
     st_depth (lstack s') = st_depth (lstack s) -> dom (fields s') = dom (fields s) -> Q () s') ->
  wp (bucket_add k d) s Q.
Proof.
  intros Hfull Hst Hp Hk Hm Hle Hc Hhi Hnum Hd Hs Hfit HQ.
  pose proof (cap_ok_range _ (proj1 Hfull)).
  unfold bucket_add. apply wp_bind.
  apply (wp_bucket_add_loop k s lo (hi + 1) (extend v hi d) hi ({[d]} ∪ X) n t 0);
    [done|by apply held_extend|lia|apply Hp|lia|by apply pivots_extend; [|lia|lia]|].
  intros s1 v1 Hf1 Hst1 Hh1 Hr1 Hv1 Hp1 Hpv. cbn [Nat.add] in *.
  assert (Hext : extend v hi d hi = d) by (unfold extend; by rewrite decide_True).
  rewrite Hext in Hv1. rewrite Nat.add_1_r in Hp1, Hpv.
  apply wp_bind. eapply (wp_stack_item s1 n (bump 0 k t)); [done|done|].
  assert (Ek : bump 0 k t k = t k) by (unfold bump; rewrite decide_False by lia; done).
  rewrite Ek. rewrite u32_small by (destruct Hh1 as (_ & _ & ? & _); lia).
  apply wp_bind. eapply (wp_stack_set s1 n (bump 0 k t)); [done|done|]. intros s2 Hf2 Hst2 Ei2 Ef2.
  apply wp_bind. eapply (wp_place s2 lo (hi + 1) v1 (t k) ({[d]} ∪ X));
    [eapply held_cong; [apply Hf2|done|done|done]|lia|done|done|]. intros s3 Hf3 Hfull3.
  apply wp_bind, wp_gets, wp_modify. pose proof (frame_stack_of _ _ Hf3) as Hf3'.
  pose proof (frame_stack_trans _ _ _ Hf1 (frame_stack_trans _ _ _ Hf2 Hf3')) as (F1 & F2 & F3 & F4 & F5).
  assert (Hfit' : forall j, (1 <= j < m)%nat -> v1 (bump 0 (S k) t j) = v (t j)).
  { intros j Hj. rewrite Hpv by lia. unfold upd. rewrite decide_False by lia.
    unfold extend. rewrite decide_False; [done|].
    destruct Hp as (_ & _ & Hsplit). destruct (Hsplit j) as (? & _); lia. }
  assert (Hord : forall j, (1 <= j < n)%nat -> if decide (j <= k)%nat then t k < bump 0 (S k) t j
    else bump 0 (S k) t j < t k).
  { intros j Hj. destruct Hp as (_ & Hdesc & _). unfold bump. repeat case_decide; try lia.
    - destruct (decide (j = k)) as [->|]; [lia|]. pose proof (Hdesc j k ltac:(lia)). lia.
    - apply Hdesc. lia. }
  apply (HQ _ v1 (bump 0 (S k) t)); cbn.
  - eapply held_cong; [..|exact Hfull3]; done.
  - eapply stacked_cong; [|eapply stacked_frame; [exact Hf3|]]; [done|].
    eapply (stacked_ext _ _ (upd (bump 0 k t) k (t k + 1))).
    + intros j Hj. unfold upd, bump. repeat case_decide; subst; lia || done.
    + destruct Hst2 as (? & ? & Hst2). split_and!; [done|lia|]. intros j Hj. apply Hst2. lia.
  - eapply pivots_place; [exact Hp1|done|..]; intros j Hj Hside; rewrite Hv1, Hfit' by done;
      specialize (Hfit j Hj); specialize (Hord j ltac:(lia)); case_decide; done || lia.
  - done.
  - done.
  - rewrite F3, u32_small by lia. done.
  - done.
  - done.
Qed.

(** ** Deleting from a bucket *)

(** The entries up to [k] have moved down by one. *)
Definition lower (k : nat) (t : nat -> Z) (j : nat) : Z := if decide (j <= k)%nat then t j - 1 else t j.

(** The hole goes to the top of its bucket. *)
Lemma wp_hole_to_top s lo hi v h X n t k loc Q :
  held s lo hi v h X -> lo <= h < hi -> (k < n)%nat -> loc mod capacity s = h mod capacity s ->
  h < t k -> ((S k < n)%nat -> t (S k) < h) -> pivots v lo hi h n t ->
  (forall s' v', frame s s' -> held s' lo hi v' (t k - 1) X -> v' (t k - 1) = v h ->
     lo <= t k - 1 < hi -> pivots v' lo hi (t k - 1) n t -> Q () s') ->
  wp (when (is_equivalent (capacity s) loc (t k - 1) = false)
        (x ← item (t k - 1); lst_move loc x)) s Q.
Proof.
  intros Hheld Hh Hk Hloc Hhk Hnext Hp HQ. pose proof Hheld as (Hc & _ & _ & Hw & _).
  pose proof (cap_ok_range _ Hc). pose proof Hp as (H0 & Hdesc & Hsplit).
  assert (Htop : lo <= t k - 1 < hi).
  { destruct (decide (k = 0)%nat) as [->|]; [lia|]. pose proof (Hdesc 0%nat k ltac:(lia)). lia. }
  rewrite is_equivalent_spec, Hloc by done.
  destruct (decide (h = t k - 1)) as [E|E].
  - rewrite E. rewrite bool_decide_eq_true_2 by done. apply wp_when_false; [done|].
    apply (HQ s v); try done; by rewrite <- E.
  - rewrite bool_decide_eq_false_2.
    2:{ intros Em. apply E. by apply (mod_inj (capacity s) lo hi); lia. }
    apply wp_when_true; [done|]. apply wp_bind. eapply wp_item; [done|lia|lia|].
    apply (wp_move s lo hi v h X); [done|lia|lia|done|]. intros s' Hf Hs'.
    apply (HQ s' (swap_at v h (t k - 1))); try done; [by rewrite swap_at_r|].
    split_and!; try done. intros j Hj. apply split_swap; [auto|lia|lia|].
    destruct (decide (j <= k)%nat).
    + right. destruct (decide (j = k)) as [->|]; [lia|]. pose proof (Hdesc j k ltac:(lia)). lia.
    + left. destruct (decide (j = S k)) as [->|]; [lia|]. pose proof (Hdesc (S k) j ltac:(lia)). lia.
Qed.

(** The window without its last position. *)
Lemma pivots_shrink v lo hi n t :
  pivots v lo hi (hi - 1) n t -> (0 < n)%nat -> pivots v lo (hi - 1) (hi - 1) n (upd t 0 (hi - 1)).
Proof.
  intros (H0 & Hdesc & Hsplit) Hn. split_and!.
  - unfold upd. by rewrite decide_True.
  - intros i j Hij. unfold upd. pose proof (Hdesc i j Hij). repeat case_decide; subst; try lia.
    destruct (Hsplit j) as (? & ? & _); lia.
  - intros k Hk. unfold upd. rewrite decide_False by lia.
    destruct (Hsplit k Hk) as (Hq & Hne & Hl & Hr). split_and!; try lia.
    + intros i Hi Hi'. apply Hl; lia.
    + intros i Hi Hi'. apply Hr; lia.
Qed.

Lemma wp_bucket_delete_loop k : forall s lo hi v h X n t loc Q,
  stacked s n t -> held s lo hi v h X -> lo <= h < hi -> (k < n)%nat ->
  loc mod capacity s = h mod capacity s ->
  h < t k -> ((S k < n)%nat -> t (S k) < h) -> pivots v lo hi h n t ->
  (forall s' v', frame_stack s s' -> stacked s' n (lower k t) -> held s' lo hi v' (hi - 1) X ->
     v' (hi - 1) = v h -> pivots v' lo (hi - 1) (hi - 1) n (lower k t) -> Q () s') ->
  wp (bucket_delete_loop k loc) s Q.
Proof.
  induction k as [|k IH]; intros s lo hi v h X n t loc Q Hst Hheld Hh Hk Hloc Hhk Hnext Hp HQ;
    pose proof Hheld as (Hc & _ & Hlo & _ & Hhi & _); pose proof Hp as (H0 & Hdesc & _).
  - cbn [bucket_delete_loop]. unfold bucket_upb. apply wp_bind, wp_gets, wp_bind, wp_bind.
    eapply (wp_stack_item s n t); [done|lia|]. apply wp_ret. rewrite u32_small by lia.
    apply wp_bind. eapply (wp_hole_to_top s lo hi v h X n t 0); try done.
    intros s1 v1 Hf1 Hh1 Hv1 Hr1 Hp1.
    apply wp_bind. eapply (wp_stack_set s1 n t); [by eapply stacked_frame|lia|].
    intros s2 Hf2 Hst2 Ei2 Ef2. apply wp_ret. rewrite H0 in *.
    assert (E : forall j, upd t 0 (hi - 1) j = lower 0 t j).
    { intros j. unfold upd, lower. repeat case_decide; subst; lia || done. }
    apply (HQ s2 v1).
    + eapply frame_stack_trans; [by apply frame_stack_of|done].
    + revert Hst2. apply stacked_ext. auto.
    + eapply held_cong; [apply Hf2|done..].
    + done.
    + eapply pivots_ext; [lia| |by apply pivots_shrink; [|lia]]. auto.
  - cbn [bucket_delete_loop]. unfold bucket_upb. apply wp_bind, wp_gets, wp_bind, wp_bind.
    eapply (wp_stack_item s n t); [done|lia|]. apply wp_ret.
    assert (Htk : t (S k) < hi) by (rewrite <- H0; apply Hdesc; lia).
    rewrite (u32_small (t (S k) - 1)) by lia.
    apply wp_bind. eapply (wp_hole_to_top s lo hi v h X n t (S k)); try done.
    intros s1 v1 Hf1 Hh1 Hv1 Hr1 Hp1.
    apply wp_bind. eapply (wp_stack_set s1 n t); [by eapply stacked_frame|lia|].
    intros s2 Hf2 Hst2 Ei2 Ef2. rewrite u32_small by lia.
    replace (t (S k) - 1 + 1) with (t (S k)) by lia.
    assert (Hh2 : held s2 lo hi v1 (t (S k) - 1) X) by (eapply held_cong; [apply Hf2|done..]).
    apply wp_bind. eapply (wp_item s2); [exact Hh2|lia|lia|].
    apply wp_bind, (wp_move s2 lo hi v1 (t (S k) - 1) X); [done|lia|lia|done|]. intros s3 Hf3 Hh3.
    destruct (pivots_shift v1 lo hi (t (S k) - 1) n t (S k) (t (S k)) Hp1) as [Hp3 _];
      [lia|done|lia|by right|].
    set (t1 := upd t (S k) (t (S k) - 1)) in *.
    assert (Et1 : t1 k = t k) by (unfold t1, upd; by rewrite decide_False by lia).
    assert (Et2 : t1 (S k) = t (S k) - 1) by (unfold t1, upd; by rewrite decide_True).
    assert (El : forall j, lower k t1 j = lower (S k) t j).
    { intros j. unfold lower, t1, upd. repeat case_decide; subst; lia || done. }
    eapply (IH s3 lo hi _ (t (S k)) X n t1); [by eapply stacked_frame|exact Hh3|lia|lia|done| |lia|done|].
    { rewrite Et1. apply Hdesc. lia. }
    intros s' v' Hf' Hst' Hh' Hv' Hp'. apply (HQ s' v').
    + eapply frame_stack_trans; [apply frame_stack_of, Hf1|]. eapply frame_stack_trans; [exact Hf2|].
      eapply frame_stack_trans; [apply frame_stack_of, Hf3|exact Hf'].
    + revert Hst'. by apply stacked_ext.
    + done.
    + by rewrite Hv', swap_at_r.
    + revert Hp'. apply pivots_ext; [lia|done].
Qed.

Lemma objects_sub v lo hi X lo' hi' d :
  objects v lo hi X -> lo <= lo' -> hi' <= hi ->
  (forall i, lo <= i < hi -> v i = d <-> ~ lo' <= i < hi') -> objects v lo' hi' (X ∖ {[d]}).
Proof.
  intros [Hinj HX] Hlo Hhi Hd. split; [intros; apply Hinj; lia || done|].
  intros x. rewrite elem_of_difference, elem_of_singleton, HX. split.
  - intros [(i & Hi & Ei) Hne]. exists i. split; [|done].
    destruct (decide (lo' <= i < hi')) as [|H]; [done|]. apply Hd in H; [congruence|done].
  - intros (i & Hi & Ei). split; [exists i; split; [lia|done]|]. intros ->.
    by apply (Hd i ltac:(lia)) in Ei.
Qed.

(** The object is taken out: its field becomes 0 and the window ends before or starts
    after its position. *)
Lemma held_remove s s' lo hi v p X lo' hi' :
  held s lo hi v p X -> lo <= p < hi -> lo <= lo' -> hi' <= hi ->
  (forall i, lo <= i < hi -> i = p <-> ~ lo' <= i < hi') ->
  capacity s' = capacity s -> items s' = items s -> fields s' = <[v p := 0]> (fields s) ->
  full s' lo' hi' v (X ∖ {[v p]}).
Proof.
  intros (H1 & H2 & H3 & H4 & H5 & H6 & H7 & Hk & Hf) Hp Hlo Hhi Hw Ec Ei Ef.
  assert (Hv : forall i, lo <= i < hi -> v i = v p <-> i = p).
  { intros i Hi. split; [|by intros ->]. intros E. by apply H6 in E. }
  unfold full, held. rewrite Ec, Ei, Ef. split_and!; try done; try lia.
  - eapply objects_sub; [done..|]. intros i Hi. rewrite Hv by done. by apply Hw.
  - intros i Hi _. assert (i <> p) by (intros ->; by apply (Hw p ltac:(lia))).
    rewrite lookup_insert_ne; [apply H7; lia|]. intros E. symmetry in E. apply Hv in E; lia.
  - intros d [Hd Hne]%elem_of_difference. rewrite lookup_insert_ne by set_solver. by apply Hk.
  - intros d k. destruct (decide (v p = d)) as [<-|Hne].
    + rewrite lookup_insert_eq. intros [= <-]. by right.
    + rewrite lookup_insert_ne by done. intros E. destruct (Hf d k E); [left; set_solver|by right].
Qed.

(** The window starts at the beginning of the array again. *)
Lemma full_rebase s lo hi v X :
  full s lo hi v X -> lo = capacity s -> full s 0 (hi - lo) (fun i => v (i + lo)) X.
Proof.
  intros (H1 & H2 & H3 & H4 & H5 & [Hinj HX] & H7 & H8) E. pose proof (cap_ok_range _ H1).
  split_and!; try done; try lia; try apply H8.
  - split.
    + intros i j Hi Hj Eij. apply Hinj in Eij; lia.
    + intros d. rewrite HX. split; intros (i & Hi & Ei); [exists (i - lo)|exists (i + lo)].
      * split; [lia|]. by replace (i - lo + lo) with i by lia.
      * split; [lia|done].
  - intros i Hi _. destruct (H7 (i + lo)) as [Hs Hf]; [lia|lia|].
    assert (Em : (i + lo) mod capacity s = i mod capacity s).
    { rewrite E. replace (i + capacity s) with (i + 1 * capacity s) by lia. apply Z.mod_add. lia. }
    by rewrite Em in Hs, Hf.
Qed.

Lemma pivots_rebase v lo hi n t :
  pivots v lo hi hi n t -> (0 < n)%nat ->
  pivots (fun i => v (i + lo)) 0 (hi - lo) (hi - lo) n (fun k => t k - lo).
Proof.
  intros (H0 & Hdesc & Hsplit) Hn. split_and!; [lia|intros i j Hij; specialize (Hdesc i j Hij); lia|].
  intros k Hk. destruct (Hsplit k Hk) as (Hq & Hne & Hl & Hr).
  replace (t k) with (t k - lo + lo) in Hl, Hr by lia. split_and!; try lia.
  - intros i Hi _. apply Hl; lia.
  - intros i Hi _. apply Hr; lia.
Qed.

Lemma wp_indices_loop n : forall s N t i r x Q,
  stacked s N t -> (i + n <= N)%nat ->
  (forall s', frame_stack s s' -> items s' = items s -> fields s' = fields s ->
     stacked s' N (fun k => if decide (i <= k < i + n)%nat then u32 (r + t k - x) else t k) -> Q () s') ->
  wp (indices_loop n i r x) s Q.
Proof.
  induction n as [|n IH]; intros s N t i r x Q Hst Hn HQ; cbn [indices_loop].
  { apply wp_ret, HQ; try done. revert Hst. apply stacked_ext. intros k _. case_decide; [lia|done]. }
  apply wp_bind. eapply (wp_stack_item s N t); [done|lia|].
  apply wp_bind. eapply (wp_stack_set s N t); [done|lia|]. intros s1 Hf1 Hst1 Ei1 Ef1.
  eapply (IH s1 N _ (S i)); [exact Hst1|lia|]. intros s2 Hf2 Ei2 Ef2 Hst2. apply HQ; try congruence.
  - by eapply frame_stack_trans.
  - revert Hst2. apply stacked_ext. intros k _. unfold upd. repeat case_decide; subst; lia || done.
Qed.

(** Positions are reduced so that the window starts within the array. *)
Lemma wp_indices_reduce s lo n t Q :
  cap_ok (capacity s) -> stacked s n t -> n = st_depth (lstack s) -> lidx s = lo -> 0 <= lo ->
  (forall k, (k < n)%nat -> lo <= t k < 2 ^ 32) ->
  (forall s', stacked s' n (fun k => lo mod capacity s + (t k - lo)) -> frame_stack (with_idx (lo mod capacity s) s) s' ->
     items s' = items s -> fields s' = fields s -> Q () s') ->
  wp lst_indices_reduce s Q.
Proof.
  intros Hc Hst Hd Hidx Hlo Ht HQ. pose proof (cap_ok_range _ Hc).
  unfold lst_indices_reduce, stack_depth. apply wp_bind, wp_gets, wp_bind, wp_gets, wp_bind, wp_bind,
    wp_gets, wp_ret, wp_bind. rewrite <- Hd. eapply wp_indices_loop; [done|lia|].
  intros s1 (F1 & F2 & F3 & F4 & F5) Ei1 Ef1 Hst1. apply wp_modify.
  rewrite index_reduce_mod, Hidx in * by done. apply HQ; try done.
  apply (stacked_cong s1); [done|]. revert Hst1. apply stacked_ext. intros k Hk.
  specialize (Ht k Hk). pose proof (Z.mod_pos_bound lo (capacity s)).
  pose proof (Z.mod_le lo (capacity s)). rewrite decide_True, u32_small by lia. lia.
Qed.

(** What deleting the object [d] leaves: one object less, the same stack depth. *)
Definition deleted (s : fr_lst_t) (X : gset Z) (n : nat) (d : Z) (s' : fr_lst_t) : Prop :=
  exists lo hi v t, full s' lo hi v (X ∖ {[d]}) /\ stacked s' n t /\ pivots v lo hi hi n t /\
    lo <= hi /\ lidx s' = lo /\ lo < capacity s' /\ lnum s' = hi - lo /\ lnum s' = lnum s - 1 /\
    capacity s' = capacity s /\ st_depth (lstack s') = n /\ dom (fields s') = dom (fields s).

(** The end of [bucket_delete]. *)
Lemma wp_forget s lo hi v X p lo' hi' d Q :
  held s lo hi v p X -> lo <= p < hi -> v p = d -> lo <= lo' -> hi' <= hi ->
  (forall i, lo <= i < hi -> i = p <-> ~ lo' <= i < hi') -> 1 <= lnum s < 2 ^ 32 ->
  (forall s', full s' lo' hi' v (X ∖ {[d]}) -> frame (with_num (lnum s - 1) s) s' -> Q () s') ->
  wp (n ← gets lnum; _ ← modify (with_num (u32 (n - 1))); item_index_set d (-1)) s Q.
Proof.
  intros Hheld Hpr <- Hlo Hhi Hw Hn HQ. pose proof Hheld as (_ & _ & _ & _ & _ & Ho & _ & Hk & _).
  assert (HX : v p ∈ X) by (apply Ho; by exists p). destruct (Hk _ HX) as [x Ex].
  unfold item_index_set. apply wp_bind, wp_gets, wp_bind, wp_modify, wp_bind, wp_gets. cbn [fields with_num].
  apply wp_bind. eapply wp_lift; [exact Ex|]. apply wp_modify. change (u32 (-1 + 1)) with 0.
  rewrite u32_small by lia. apply HQ.
  - by eapply (held_remove s _ lo hi).
  - split_and!; try done. cbn. by rewrite dom_insert_known by (by eexists).
Qed.

Lemma wp_bucket_delete s lo hi v X n t p k d Q :
  full s lo hi v X -> stacked s n t -> pivots v lo hi hi n t -> n = st_depth (lstack s) ->
  (0 < n)%nat -> lo <= p < hi -> v p = d -> lidx s = lo -> lo < capacity s -> lnum s = hi - lo ->
  (forall j, (1 <= j < n)%nat -> t j <> p) ->
  (lo < p -> forall Q' : () -> fr_lst_t -> Prop,
     (forall s' v' t', frame_stack s s' -> stacked s' n t' -> held s' lo hi v' (hi - 1) X ->
        v' (hi - 1) = d -> pivots v' lo (hi - 1) (hi - 1) n t' -> Q' () s') ->
     wp (bucket_delete_loop k (p mod capacity s)) s Q') ->
  (forall s', deleted s X n d s' -> Q () s') ->
  wp (bucket_delete k d) s Q.
Proof.
  intros Hfull Hst Hp Hd Hn Hpr Hv Hidx Hlo Hnum Hnp Hloop HQ.
  pose proof Hfull as (Hc & _ & H0 & Hw & Hhi & _). pose proof (cap_ok_range _ Hc).
  unfold bucket_delete. apply wp_bind. rewrite <- Hv at 1.
  eapply (wp_item_index s lo hi v hi); [exact Hfull|done|lia|].
  apply wp_bind, wp_gets, wp_bind, wp_gets, wp_bind.
  rewrite is_equivalent_spec, Hidx, Z.mod_mod by (done || lia).
  destruct (decide (p = lo)) as [->|Hne].
  - rewrite bool_decide_eq_true_2 by done. apply wp_bind, wp_modify.
    rewrite is_equivalent_spec, u32_mod_cap, Zmod_0_l, u32_small by (done || lia).
    set (s1 := with_idx (lo + 1) s).
    assert (Hp1 : pivots v (lo + 1) hi hi n t).
    { destruct Hp as (E0 & Hdesc & Hsplit). split_and!; try done. intros j Hj.
      destruct (Hsplit j Hj) as (Hq & Hqh & Hl & Hr). specialize (Hnp j Hj).
      split_and!; try lia; intros i Hi Hih; [apply Hl|apply Hr]; lia. }
    assert (Hend : forall s2, capacity s2 = capacity s -> lnum s2 = lnum s -> items s2 = items s ->
      fields s2 = fields s -> (forall s', full s' (lo + 1) hi v (X ∖ {[d]}) ->
        frame (with_num (lnum s2 - 1) s2) s' -> Q () s') ->
      wp (n ← gets lnum; _ ← modify (with_num (u32 (n - 1))); item_index_set d (-1)) s2 Q).
    { intros s2 E1 E2 E3 E4 HQ2. apply (wp_forget s2 lo hi v X lo (lo + 1) hi); try done; try lia.
      eapply held_weaken, held_cong; [exact E1|done..]. }
    destruct (decide (lo + 1 = capacity s)) as [E|E].
    + rewrite bool_decide_eq_true_2 by (rewrite E; apply Z_mod_same_full). apply wp_when_true; [done|].
      eapply (wp_indices_reduce s1 (lo + 1) n t); try done; try (cbn; lia).
      { intros j Hj. destruct Hp1 as (E0 & _ & Hsplit).
        destruct (decide (j = 0)%nat) as [->|]; [lia|]. destruct (Hsplit j) as (? & _); lia. }
      assert (Em : (lo + 1) mod capacity s1 = 0) by (rewrite E; apply Z_mod_same_full). rewrite Em.
      intros s2 Hst2 (F1 & F2 & F3 & F4 & F5) Ei Ef. apply Hend; try done.
      intros s' Hs' (G1 & G2 & G3 & G4 & G5). apply HQ.
      exists 0, (hi - (lo + 1)), (fun i => v (i + (lo + 1))), (fun k => t k - (lo + 1)).
      cbn in *. split_and!; try congruence || lia.
      * apply full_rebase; [done|congruence].
      * apply (stacked_cong s2); [done|]. revert Hst2. by apply stacked_ext.
      * by apply pivots_rebase.
    + rewrite bool_decide_eq_false_2 by (rewrite Z.mod_small; lia). apply wp_when_false; [done|].
      apply Hend; try done. intros s' Hs' (G1 & G2 & G3 & G4 & G5). apply HQ.
      exists (lo + 1), hi, v, t. cbn in *. split_and!; try done; try (congruence || lia).
      by apply (stacked_cong s).
  - rewrite bool_decide_eq_false_2.
    2:{ intros Em. apply Hne. apply (mod_inj (capacity s) lo hi); lia. }
    apply Hloop; [lia|]. intros s1 v1 t1 (F1 & F2 & F3 & F4 & F5) Hst1 Hh1 Hv1 Hp1.
    apply (wp_forget s1 lo hi v1 X (hi - 1) lo (hi - 1)); try done; try lia.
    intros s' Hs' (G1 & G2 & G3 & G4 & G5). apply HQ. exists lo, (hi - 1), v1, t1.
    cbn in *. split_and!; try done; try (congruence || lia). by apply (stacked_cong s1).
Qed.

Lemma pivots_take v lo hi h n m t : pivots v lo hi h n t -> (m <= n)%nat -> pivots v lo hi h m t.
Proof. intros (H0 & H1 & H2) Hm. split_and!; [done|intros; apply H1; lia|intros; apply H2; lia]. Qed.

Lemma stacked_take s n m t : stacked s n t -> (m <= n)%nat -> stacked s m t.
Proof. intros (H0 & H1 & H2) Hm. split_and!; [done|lia|intros; apply H2; lia]. Qed.

(** An object that is no pivot, in bucket [k]. *)
Lemma wp_delete_item s lo hi v X n t p k d Q :
  full s lo hi v X -> stacked s n t -> pivots v lo hi hi n t -> n = st_depth (lstack s) ->
  lo <= p < hi -> v p = d -> lidx s = lo -> lo < capacity s -> lnum s = hi - lo ->
  (k < n)%nat -> p < t k -> ((S k < n)%nat -> t (S k) < p) ->
  (forall s', deleted s X n d s' -> Q () s') ->
  wp (bucket_delete k d) s Q.
Proof.
  intros Hfull Hst Hp Hd Hpr Hv Hidx Hlo Hnum Hk Hpk Hnext HQ.
  assert (Hnp : forall j, (1 <= j < n)%nat -> t j <> p).
  { intros j Hj E. destruct Hp as (_ & Hdesc & _). destruct (decide (j <= k)%nat).
    - destruct (decide (j = k)) as [->|]; [lia|]. pose proof (Hdesc j k ltac:(lia)). lia.
    - destruct (decide (j = S k)) as [->|]; [lia|]. pose proof (Hdesc (S k) j ltac:(lia)). lia. }
  eapply wp_bucket_delete; try done; [lia|]. intros Hlop Q' HQ'.
  eapply (wp_bucket_delete_loop k s lo hi v p X n t); try done.
  - by apply held_weaken.
  - apply Z.mod_mod. pose proof (cap_ok_range _ (proj1 Hfull)). lia.
  - destruct Hp as (H0 & Hdesc & Hsplit). split_and!; try done. intros j Hj.
    apply split_weaken; [auto|by apply Hnp].
  - intros s' v' Hf Hst' Hh Hv' Hp'. eapply HQ'; try done. congruence.
Qed.

(** The pivot that was just taken off the stack, at level [k]: its entry is still there, and
    the first round of the loop moves the object below it up and down again. *)
Lemma wp_delete_pivot s lo hi v X k t d Q :
  full s lo hi v X -> stacked s (S k) t -> pivots v lo hi hi (S k) t -> k = st_depth (lstack s) ->
  (0 < k)%nat -> v (t k) = d -> lidx s = lo -> lo < capacity s -> lnum s = hi - lo ->
  (forall s', deleted s X k d s' -> Q () s') ->
  wp (bucket_delete k d) s Q.
Proof.
  intros Hfull Hst Hp Hd Hk Hv Hidx Hlo Hnum HQ. pose proof Hp as (E0 & Hdesc & Hsplit).
  pose proof Hfull as (Hc & _ & H0 & Hw & Hhi & _). pose proof (cap_ok_range _ Hc).
  destruct (Hsplit k) as (Hq & _); [lia|].
  assert (Hnp : forall j, (1 <= j < k)%nat -> t j <> t k)
    by (intros j Hj; pose proof (Hdesc j k ltac:(lia)); lia).
  eapply (wp_bucket_delete s lo hi v X k t (t k)); try done;
    [by eapply stacked_take; [done|lia]|by eapply pivots_take; [done|lia]|].
  intros Hlop Q' HQ'. destruct k as [|k]; [lia|]. cbn [bucket_delete_loop]. unfold bucket_upb.
  apply wp_bind, wp_gets, wp_bind, wp_bind. eapply (wp_stack_item s _ t); [done|lia|]. apply wp_ret.
  rewrite (u32_small (t (S k) - 1)) by lia.
  rewrite is_equivalent_spec, Z.mod_mod by (done || lia). rewrite bool_decide_eq_false_2.
  2:{ intros Em. apply mod_inj with (lo := lo) (hi := hi) in Em; lia. }
  apply wp_bind, wp_when_true; [done|]. apply wp_bind.
  eapply (wp_item s lo hi v hi); [done|lia|lia|].
  eapply (wp_move s lo hi v (t (S k)) X); [by apply held_weaken|lia|lia|apply Z.mod_mod; lia|].
  intros s1 Hf1 Hh1. set (v1 := swap_at v (t (S k)) (t (S k) - 1)) in *.
  apply wp_bind. eapply (wp_stack_set s1 (S (S k)) t); [by eapply stacked_frame|lia|].
  intros s2 Hf2 Hst2 Ei2 Ef2. rewrite u32_small by lia.
  replace (t (S k) - 1 + 1) with (t (S k)) by lia.
  assert (Hh2 : held s2 lo hi v1 (t (S k) - 1) X) by (eapply held_cong; [apply Hf2|done..]).
  apply wp_bind. eapply (wp_item s2); [exact Hh2|lia|lia|].
  apply wp_bind, (wp_move s2 lo hi v1 (t (S k) - 1) X); [done|lia|lia|done|]. intros s3 Hf3 Hh3.
  assert (Hh3' : held s3 lo hi v (t (S k)) X).
  { eapply held_ext; [|exact Hh3]. intros i Hi. unfold v1, swap_at.
    repeat case_decide; subst; done || lia || (f_equal; lia). }
  eapply (wp_bucket_delete_loop k s3 lo hi v (t (S k)) X (S k) t); try done; try lia.
  - eapply stacked_frame; [exact Hf3|]. eapply stacked_ext; [|eapply stacked_take; [exact Hst2|lia]].
    intros j Hj. unfold upd. by rewrite decide_False by lia.
  - apply Hdesc. lia.
  - eapply pivots_take in Hp; [|by apply (Nat.le_succ_diag_r (S k))].
    destruct Hp as (? & ? & Hs). split_and!; try done. intros j Hj. apply split_weaken; [auto|by apply Hnp].
  - intros s' v' Hf' Hst' Hh' Hv' Hp'. eapply HQ'; try done; [|congruence].
    eapply frame_stack_trans; [apply frame_stack_of, Hf1|]. eapply frame_stack_trans; [exact Hf2|].
    eapply frame_stack_trans; [apply frame_stack_of, Hf3|exact Hf'].
Qed.
End Order.
