(* ===== verification/LstOps.v ===== *)
(** * Leftmost skeleton trees: partitioning

    Hoare's partition of the leftmost bucket around a random pivot: it stays within the
    bucket, returns, and leaves the pivot in a place where it splits the window. *)
From S2P Require Import Prelude Heap MinmaxHeap StateMonad Lst LstInv.

(** ** Random numbers, the stack and exchanges *)

Lemma wp_fast_rand s Q :
  (forall r s', frame s s' -> items s' = items s -> fields s' = fields s -> 0 <= r < 2 ^ 32 -> Q r s') ->
  wp fr_fast_rand s Q.
Proof.
  intros HQ. unfold fr_fast_rand. apply wp_bind, wp_gets, wp_bind, wp_modify, wp_ret, HQ; try done.
  apply u32_range.
Qed.

Lemma wp_stack_push s n t x Q :
  stacked s n t -> st_depth (lstack s) = n -> (0 < n)%nat -> Z.of_nat n < UINT_MAX ->
  (forall s', stacked s' (S n) (upd t n x) -> st_depth (lstack s') = S n ->
     capacity s' = capacity s -> lidx s' = lidx s -> lnum s' = lnum s ->
     items s' = items s -> fields s' = fields s -> Q 0 s') ->
  wp (stack_push true x) s Q.
Proof.
  intros (Hs & Hn & Ht) Hd Hpos Hmax HQ. unfold stack_push. apply wp_bind, wp_gets, wp_bind.
  assert (Hpush : forall s', (S n <= st_size (lstack s'))%nat ->
    st_size (lstack s') = length (st_data (lstack s')) ->
    (forall k, (k < n)%nat -> slot (st_data (lstack s')) k = Some (t k)) ->
    capacity s' = capacity s -> lidx s' = lidx s -> lnum s' = lnum s ->
    items s' = items s -> fields s' = fields s -> st_depth (lstack s') = n ->
    wp (_ ← stack_set (st_depth (lstack s)) x; s ← gets lstack;
        _ ← modify (with_stack (PivotStack (S (st_depth s)) (st_size s) (st_data s))); mret 0) s' Q).
  { intros s' Hn' Hs' Ht' E1 E2 E3 E4 E5 E6. rewrite Hd. unfold stack_set, set_slot.
    apply wp_bind, wp_bind, wp_gets. rewrite decide_True by lia. apply wp_bind.
    eapply wp_lift; [done|]. apply wp_modify, wp_bind, wp_gets, wp_bind, wp_modify, wp_ret, HQ;
      cbn; try congruence.
    split_and!; [cbn; by rewrite length_insert|cbn; lia|].
    intros k Hk. cbn. unfold upd, slot. case_decide; [subst; by rewrite list_lookup_insert_eq by lia|].
    rewrite list_lookup_insert_ne by done. apply Ht'. lia. }
  case_decide as Efull; [|by apply wp_ret, Hpush; try done; lia].
  unfold stack_expand. apply wp_bind, wp_gets.
  assert (Hgrow : forall m, (n < m)%nat ->
    wp (_ ← modify (with_stack (PivotStack (st_depth (lstack s)) m (resize m None (st_data (lstack s)))));
        mret true) s (fun room s' => wp (if (room : bool) then
      _ ← stack_set (st_depth (lstack s)) x; s ← gets lstack;
      _ ← modify (with_stack (PivotStack (S (st_depth s)) (st_size s) (st_data s))); mret 0
      else mret (-1)) s' Q)).
  { intros m Hm. apply wp_bind, wp_modify, wp_ret, Hpush; cbn; try done.
    - by rewrite length_resize.
    - intros k Hk. rewrite <- Ht by done. unfold slot. rewrite lookup_resize by lia. done. }
  case_decide; [|apply Hgrow; lia]. rewrite decide_False by lia. apply Hgrow. unfold UINT_MAX in *. lia.
Qed.

(** Two objects change places. *)
Lemma wp_exchange {A} s lo hi v X a b y (k : () -> st fr_lst_t A) Q :
  full s lo hi v X -> lo <= a < hi -> lo <= b < hi -> v a = y ->
  (forall s', frame s s' -> full s' lo hi (swap_at v a b) X -> wp (k ()) s' Q) ->
  wp (_ ← lst_move a (v b); u ← lst_move b y; k u) s Q.
Proof.
  intros Hfull Ha Hb <- HQ.
  apply wp_bind, (wp_move s lo hi v a X); [by apply held_weaken|done|done|done|]. intros s1 Hf1 Hh1.
  apply wp_bind. eapply (wp_place s1 lo hi _ b X); [exact Hh1|done|done|apply swap_at_r|].
  intros s2 Hf2 Hfull2. apply HQ; [by eapply frame_trans|done].
Qed.

(** The same as the last step of a computation. *)
Lemma wp_exchange_last s lo hi v X a b y Q :
  full s lo hi v X -> lo <= a < hi -> lo <= b < hi -> v a = y ->
  (forall s', frame s s' -> full s' lo hi (swap_at v a b) X -> Q () s') ->
  wp (_ ← lst_move a (v b); lst_move b y) s Q.
Proof.
  intros Hfull Ha Hb <- HQ.
  apply wp_bind, (wp_move s lo hi v a X); [by apply held_weaken|done|done|done|]. intros s1 Hf1 Hh1.
  eapply (wp_place s1 lo hi _ b X); [exact Hh1|done|done|apply swap_at_r|].
  intros s2 Hf2 Hfull2. apply HQ; [by eapply frame_trans|done].
Qed.

Section Partition.
Context (cmp : Z -> Z -> Z) `{!MinmaxCmp cmp}.

Lemma le_refl x : cmp x x <= 0.
Proof. exact (ord_refl cmp true x). Qed.

(** The two comparisons of the scans. *)
Lemma scan_gt x y : 0 < cmp x y -> cmp y x <= 0.
Proof. intros H. apply cmp_total. lia. Qed.
Lemma scan_ge x y : 0 <= cmp x y -> cmp y x <= 0.
Proof. intros H. apply cmp_total. lia. Qed.

Lemma pivots_exchange v lo hi n t a b :
  pivots cmp v lo hi hi n t -> lo <= a -> lo <= b ->
  (forall k, (1 <= k < n)%nat -> a < t k /\ b < t k) ->
  pivots cmp (swap_at v a b) lo hi hi n t.
Proof.
  intros (H0 & Hdesc & Hsplit) Ha Hb Hs. split_and!; try done. intros k Hk.
  destruct (Hsplit k Hk) as (Hq & Hne & Hl & Hr). specialize (Hs k Hk).
  rewrite <- (swap_at_ne v a b (t k)) in Hl, Hr by lia. split_and!; try lia.
  - intros i Hi Hih. unfold swap_at at 1. repeat case_decide; apply Hl; lia.
  - intros i Hi Hih. rewrite (swap_at_ne _ _ _ i) by lia. by apply Hr.
Qed.

(** ** The scans *)

Lemma wp_scan_down fuel : forall s lo hi v X pivot h a Q,
  full s lo hi v X -> lo <= a < h -> h <= hi -> cmp (v a) pivot <= 0 -> h - a <= Z.of_nat fuel ->
  (forall h', a <= h' < h -> cmp (v h') pivot <= 0 -> (forall i, h' < i < h -> 0 < cmp (v i) pivot) ->
     Q h' s) ->
  wp (scan_down cmp fuel pivot h) s Q.
Proof.
  induction fuel as [|fuel IH]; intros s lo hi v X pivot h a Q Hfull Ha Hh Hstop Hf HQ; [lia|].
  pose proof Hfull as (_ & _ & H0 & _ & H32 & _).
  cbn [scan_down]. rewrite u32_small by lia. apply wp_bind.
  eapply (wp_item s lo hi v hi); [done|lia|lia|]. case_decide as Hc.
  - apply (IH s lo hi v X pivot (h - 1) a); try done; try lia.
    + destruct (decide (a = h - 1)) as [->|]; lia.
    + intros h' Hh' Hle Hgt. apply HQ; [lia|done|]. intros i Hi.
      destruct (decide (i = h - 1)) as [->|]; [done|]. apply Hgt. lia.
  - apply wp_ret, HQ; [lia|lia|]. intros i Hi. lia.
Qed.

Lemma wp_scan_up fuel : forall s lo hi v X pivot l b Q,
  full s lo hi v X -> lo - 1 <= l < b -> b < hi -> 0 <= cmp (v b) pivot -> b - l <= Z.of_nat fuel ->
  (forall l', l < l' <= b -> 0 <= cmp (v l') pivot -> (forall i, l < i < l' -> cmp (v i) pivot < 0) ->
     Q l' s) ->
  wp (scan_up cmp fuel pivot (u32 l)) s Q.
Proof.
  induction fuel as [|fuel IH]; intros s lo hi v X pivot l b Q Hfull Hb Hh Hstop Hf HQ; [lia|].
  pose proof Hfull as (_ & _ & H0 & _ & H32 & _).
  cbn [scan_up]. rewrite u32_add_l. rewrite (u32_small (l + 1)) by lia. apply wp_bind.
  eapply (wp_item s lo hi v hi); [done|lia|lia|]. case_decide as Hc.
  - rewrite <- (u32_small (l + 1)) by lia. apply (IH s lo hi v X pivot (l + 1) b); try done; try lia.
    + destruct (decide (b = l + 1)) as [->|]; lia.
    + intros l' Hl' Hge Hlt. apply HQ; [lia|done|]. intros i Hi.
      destruct (decide (i = l + 1)) as [->|]; [done|]. apply Hlt. lia.
  - apply wp_ret, HQ; [lia|lia|]. intros i Hi. lia.
Qed.

(** ** Partitioning a bucket *)

(** The pivot is somewhere in the bucket, smaller objects up to [h], larger ones above. *)
Definition halves (v : Z -> Z) (lo high h pivot : Z) : Prop :=
  lo <= h <= high /\
  (forall i, lo <= i <= h -> cmp (v i) pivot <= 0) /\
  (forall i, h < i <= high -> cmp pivot (v i) <= 0) /\
  exists q, lo <= q <= high /\ v q = pivot.

Lemma swap_at_onto v lo high a b x :
  lo <= a <= high -> lo <= b <= high -> (exists q, lo <= q <= high /\ v q = x) ->
  exists q, lo <= q <= high /\ swap_at v a b q = x.
Proof.
  intros Ha Hb (q & Hq & E). destruct (decide (q = a)) as [->|]; [exists b; by rewrite swap_at_r|].
  destruct (decide (q = b)) as [->|]; [exists a; by rewrite swap_at_l|].
  exists q. by rewrite swap_at_ne.
Qed.

Lemma wp_hoare fuel : forall s lo hi v X N t n high pivot l h a b Q,
  full s lo hi v X -> pivots cmp v lo hi hi N t -> (forall k, (1 <= k < N)%nat -> high < t k) ->
  high < hi -> lo - 1 <= l < h -> h <= high + 1 ->
  (forall i, lo <= i <= l -> cmp (v i) pivot <= 0) ->
  (forall i, h <= i <= high -> cmp pivot (v i) <= 0) ->
  lo <= a < h -> cmp (v a) pivot <= 0 -> l < b <= high -> 0 <= cmp (v b) pivot ->
  (exists q, lo <= q <= high /\ v q = pivot) ->
  high + 1 - lo <= Z.of_nat n -> h - lo < Z.of_nat fuel ->
  (forall s' v' h', frame s s' -> full s' lo hi v' X -> pivots cmp v' lo hi hi N t ->
     halves v' lo high h' pivot -> Q h' s') ->
  wp (hoare cmp fuel n pivot (u32 l) h) s Q.
Proof.
  induction fuel as [|fuel IH];
    intros s lo hi v X N t n high pivot l h a b Q Hfull Hp Ht Hhi Hl Hh Hleft Hright Ha Hva Hb Hvb Hq Hn Hf HQ;
    [lia|]. cbn [hoare]. pose proof Hfull as (_ & _ & H0 & _ & H32 & _).
  apply wp_bind, (wp_scan_down n s lo hi v X pivot h a); try done; try lia. intros h1 Hh1 Hvh1 Hgt.
  apply wp_bind, (wp_scan_up n s lo hi v X pivot l b); try done; try lia. intros l1 Hl1 Hvl1 Hlt.
  case_decide as Hc.
  - apply wp_ret, (HQ s v); try done. split_and!; try done; try lia; intros i Hi.
    + destruct (decide (i <= l)); [by apply Hleft; lia|].
      destruct (decide (i = h1)) as [->|]; [done|]. specialize (Hlt i). lia.
    + destruct (decide (h <= i)); [by apply Hright; lia|]. apply scan_gt, Hgt. lia.
  - apply wp_bind. eapply (wp_item s lo hi v hi); [done|lia|lia|].
    apply wp_bind. eapply (wp_item s lo hi v hi); [done|lia|lia|].
    apply (wp_exchange s lo hi v X l1 h1 (v l1)); [done|lia|lia|done|]. intros s1 Hf1 Hfull1.
    rewrite <- (u32_small l1) by lia.
    apply (IH s1 lo hi (swap_at v l1 h1) X N t n high pivot l1 h1 l1 h1); try done; try lia.
    + apply pivots_exchange; [done|lia|lia|]. intros k Hk. specialize (Ht k Hk). lia.
    + intros i Hi. destruct (decide (i = l1)) as [->|]; [by rewrite swap_at_l|].
      rewrite swap_at_ne by lia. destruct (decide (i <= l)); [apply Hleft; lia|].
      specialize (Hlt i). lia.
    + intros i Hi. destruct (decide (i = h1)) as [->|]; [rewrite swap_at_r; by apply scan_ge|].
      rewrite swap_at_ne by lia. destruct (decide (h <= i)); [apply Hright; lia|]. apply scan_gt, Hgt. lia.
    + by rewrite swap_at_l.
    + by rewrite swap_at_r.
    + apply swap_at_onto; [lia|lia|done].
    + intros s' v' h' Hf'. apply HQ. by eapply frame_trans.
Qed.

Lemma position_of_spec cap low high q :
  cap_ok cap -> 0 <= low -> low <= q <= high -> high - low < cap -> high < 2 ^ 32 ->
  position_of cap low high (q mod cap) = q.
Proof.
  intros Hc H0 Hq Hw H32. pose proof (cap_ok_range _ Hc). unfold position_of.
  rewrite !index_reduce_mod by done.
  pose proof (Z.div_mod low cap ltac:(lia)) as E1. pose proof (Z.div_mod q cap ltac:(lia)) as E2.
  pose proof (Z.div_mod high cap ltac:(lia)) as E3.
  pose proof (Z.mod_pos_bound low cap ltac:(lia)). pose proof (Z.mod_pos_bound q cap ltac:(lia)).
  pose proof (Z.mod_pos_bound high cap ltac:(lia)).
  case_decide.
  - assert (low / cap = q / cap) by nia. rewrite u32_small; nia.
  - assert (q / cap = low / cap + 1) by nia. assert (high / cap = low / cap + 1) by nia.
    rewrite u32_small; nia.
Qed.

(** The whole representation: objects, stack and counters. *)
Definition tree (s : fr_lst_t) (lo hi : Z) (v : Z -> Z) (X : gset Z) (n : nat) (t : nat -> Z) : Prop :=
  full s lo hi v X /\ stacked s n t /\ pivots cmp v lo hi hi n t /\ st_depth (lstack s) = n /\
  (0 < n)%nat /\ lidx s = lo /\ lo < capacity s /\ lnum s = hi - lo /\ lo <= hi.

(** What looking at the tree leaves alone. *)
Definition same_size (s s' : fr_lst_t) : Prop :=
  capacity s' = capacity s /\ lnum s' = lnum s /\ dom (fields s') = dom (fields s).

Lemma same_size_refl s : same_size s s.
Proof. done. Qed.
Lemma same_size_trans s1 s2 s3 : same_size s1 s2 -> same_size s2 s3 -> same_size s1 s3.
Proof. unfold same_size. intros (?&?&?) (?&?&?). split_and!; congruence. Qed.

Lemma tree_entry s lo hi v X n t k : tree s lo hi v X n t -> (k < n)%nat -> lo <= t k <= hi.
Proof.
  intros (_ & _ & (H0 & _ & Hs) & _ & _ & _ & _ & _ & Hle) Hk.
  destruct (decide (k = 0)%nat) as [->|]; [lia|]. destruct (Hs k) as (? & _); lia.
Qed.

Lemma tree_depth s lo hi v X n t k :
  tree s lo hi v X n t -> (k < n)%nat -> t k + Z.of_nat k <= hi.
Proof.
  intros (_ & _ & (H0 & Hdesc & _) & _). induction k as [|k IH]; intros Hk; [lia|].
  specialize (IH ltac:(lia)). pose proof (Hdesc k (S k) ltac:(lia)). lia.
Qed.

Lemma tree_frame s s' lo hi v X n t v' :
  tree s lo hi v X n t -> frame s s' -> full s' lo hi v' X -> pivots cmp v' lo hi hi n t ->
  tree s' lo hi v' X n t /\ same_size s s'.
Proof.
  intros (_ & Hst & _ & Hd & Hn & Hi & Hlo & Hnum & Hle) Hf Hfull Hp.
  pose proof Hf as (F1 & F2 & F3 & F4 & F5). split; [|done].
  split_and!; try done; try congruence. by eapply stacked_frame.
Qed.

(** A new pivot in the leftmost bucket. *)
Lemma pivots_push v lo hi n t h :
  pivots cmp v lo hi hi n t -> (0 < n)%nat -> lo <= h < t (n - 1)%nat ->
  (forall i, lo <= i < h -> cmp (v i) (v h) <= 0) ->
  (forall i, h < i < t (n - 1)%nat -> cmp (v h) (v i) <= 0) ->
  pivots cmp v lo hi hi (S n) (upd t n h).
Proof.
  intros (H0 & Hdesc & Hsplit) Hn Hh Hl Hr.
  assert (Hlast : forall j, (j < n)%nat -> t (n - 1)%nat <= t j).
  { intros j Hj. destruct (decide (j = n - 1)%nat) as [->|]; [lia|].
    pose proof (Hdesc j (n - 1)%nat ltac:(lia)). lia. }
  split_and!.
  - unfold upd. by rewrite decide_False by lia.
  - intros i j Hij. unfold upd. repeat case_decide; subst; try lia.
    + specialize (Hlast i). lia.
    + apply Hdesc. lia.
  - intros k Hk. unfold upd. case_decide as E; [|apply Hsplit; lia].
    specialize (Hlast 0%nat ltac:(lia)). split_and!; try lia; [intros; apply Hl; lia|].
    intros i Hi _. destruct (decide (i < t (n - 1)%nat)); [apply Hr; lia|].
    destruct (decide (n = 1)%nat) as [->|]; [cbn in *; lia|].
    destruct (Hsplit (n - 1)%nat) as (Hq & _ & Hql & Hqr); [lia|].
    destruct (decide (i = t (n - 1)%nat)) as [->|]; [apply Hql; lia|].
    eapply cmp_trans; [apply Hql; lia|apply Hqr; lia].
Qed.

Lemma wp_push_pivot s lo hi v X n t h Q :
  tree s lo hi v X n t -> lo <= h < t (n - 1)%nat ->
  (forall i, lo <= i < h -> cmp (v i) (v h) <= 0) ->
  (forall i, h < i < t (n - 1)%nat -> cmp (v h) (v i) <= 0) ->
  (forall s', tree s' lo hi v X (S n) (upd t n h) -> same_size s s' -> Q () s') ->
  wp (_ ← stack_push true h; mret ()) s Q.
Proof.
  intros Htree Hh Hl Hr HQ.
  pose proof Htree as (Hfull & Hst & Hp & Hd & Hn & Hi & Hlo & Hnum & Hle).
  pose proof (tree_depth _ _ _ _ _ _ _ (n - 1) Htree ltac:(lia)).
  pose proof Hfull as (Hc & _ & H0 & Hw & _). pose proof (cap_ok_range _ Hc).
  apply wp_bind. eapply (wp_stack_push s n t); [done|done|done|unfold UINT_MAX; lia|].
  intros s' Hst' Hd' E1 E2 E3 E4 E5. apply wp_ret, HQ.
  - split_and!; try done; try congruence; [|by apply pivots_push|lia]. by eapply held_cong.
  - split_and!; congruence.
Qed.

(** The last steps: the pivot goes between the halves. *)
Lemma halves_left v lo high h q :
  halves v lo high h (v q) -> lo <= q -> q < h ->
  let w := swap_at v q h in
  (forall i, lo <= i < h -> cmp (w i) (w h) <= 0) /\ (forall i, h < i <= high -> cmp (w h) (w i) <= 0).
Proof.
  intros (Hh & Hl & Hr & _) Hq Hqh w. unfold w. rewrite swap_at_r. split; intros i Hi.
  - unfold swap_at. repeat case_decide; try lia; apply Hl; lia.
  - rewrite swap_at_ne by lia. apply Hr. lia.
Qed.

Lemma halves_right v lo high h q :
  halves v lo high h (v q) -> h < q <= high ->
  let w := swap_at v q (h + 1) in
  (forall i, lo <= i < h + 1 -> cmp (w i) (w (h + 1)) <= 0) /\
  (forall i, h + 1 < i <= high -> cmp (w (h + 1)) (w i) <= 0).
Proof.
  intros (Hh & Hl & Hr & _) Hq w. unfold w. rewrite swap_at_r. split; intros i Hi.
  - rewrite swap_at_ne by lia. apply Hl. lia.
  - unfold swap_at. repeat case_decide; try lia; apply Hr; lia.
Qed.

Lemma wp_settle_pivot s lo hi v X n t high h q Q :
  tree s lo hi v X n t -> high + 1 = t (n - 1)%nat -> halves v lo high h (v q) -> lo <= q <= high ->
  (forall s' v' h', tree s' lo hi v' X (S n) (upd t n h') -> lo <= h' <= high -> same_size s s' -> Q () s') ->
  wp (settle_pivot true lo high (v q) h) s Q.
Proof.
  intros Htree Hhigh Hhalf Hq HQ. pose proof Htree as (Hfull & _ & Hp & _ & Hn & _).
  pose proof Hfull as (Hc & _ & H0 & Hw & H32 & _).
  pose proof (tree_entry _ _ _ _ _ _ _ (n - 1) Htree ltac:(lia)) as He.
  pose proof Hhalf as (Hh & Hl & Hr & _).
  assert (Hbelow : forall k, (1 <= k < n)%nat -> high < t k).
  { intros k Hk. destruct Hp as (_ & Hdesc & _). destruct (decide (k = n - 1)%nat) as [->|]; [lia|].
    pose proof (Hdesc k (n - 1)%nat ltac:(lia)). lia. }
  assert (Hmoved : forall s' a b, lo <= a <= high -> lo <= b <= high -> frame s s' ->
    full s' lo hi (swap_at v a b) X -> tree s' lo hi (swap_at v a b) X n t /\ same_size s s').
  { intros s' a b Ha Hb Hf Hf'. eapply tree_frame; try done.
    apply pivots_exchange; [done|lia|lia|]. intros k Hk. specialize (Hbelow k Hk). lia. }
  unfold settle_pivot. apply wp_bind, wp_gets, wp_bind.
  eapply (wp_item_index s lo hi v hi); [done|lia|lia|]. cbv zeta. rewrite position_of_spec by (done || lia). apply wp_bind.
  destruct (decide (q < h)) as [Hlt|Hge].
  - apply wp_when_true; [done|]. apply wp_bind. eapply (wp_item s lo hi v hi); [done|lia|lia|].
    eapply (wp_exchange_last s lo hi v X q h); [done|lia|lia|done|]. intros s1 Hf1 Hfull1.
    apply wp_bind. rewrite decide_False by lia. apply wp_ret.
    destruct (Hmoved s1 q h) as [Ht1 Hs1]; [lia|lia|done|done|].
    destruct (halves_left v lo high h q Hhalf) as [A B]; [lia|lia|].
    eapply wp_push_pivot; [exact Ht1|lia|done|intros i Hi; apply B; lia|].
    intros s2 Ht2 Hs2. eapply HQ; [exact Ht2|lia|by eapply same_size_trans].
  - apply wp_when_false; [done|]. apply wp_bind. case_decide as Hgt.
    + rewrite u32_small by lia. apply wp_bind. eapply (wp_item s lo hi v hi); [done|lia|lia|].
      eapply (wp_exchange s lo hi v X q (h + 1)); [done|lia|lia|done|]. intros s1 Hf1 Hfull1.
      apply wp_ret. destruct (Hmoved s1 q (h + 1)) as [Ht1 Hs1]; [lia|lia|done|done|].
      destruct (halves_right v lo high h q Hhalf) as [A B]; [lia|].
      eapply wp_push_pivot; [exact Ht1|lia|done|intros i Hi; apply B; lia|].
      intros s2 Ht2 Hs2. eapply HQ; [exact Ht2|lia|by eapply same_size_trans].
    + assert (h = q) as -> by lia. apply wp_ret.
      eapply wp_push_pivot; [exact Htree|lia|intros; apply Hl; lia|intros; apply Hr; lia|].
      intros s2 Ht2 Hs2. by eapply HQ; [exact Ht2|lia|].
Qed.

(** Partitioning around the object at the low end. *)
Lemma wp_partition_around s lo hi v X n t k Q :
  tree s lo hi v X n t -> S k = n -> lo < t k ->
  (forall s' v' h, tree s' lo hi v' X (S n) (upd t n h) -> lo <= h < t k -> same_size s s' -> Q () s') ->
  wp (partition_around cmp true lo (t k - 1) (v lo)) s Q.
Proof.
  intros Htree Hk Hlt HQ. pose proof Htree as (Hfull & _ & Hp & _ & _ & _ & _ & Hnum & _).
  pose proof (tree_entry _ _ _ _ _ _ _ k Htree ltac:(lia)) as He.
  pose proof Hfull as (_ & _ & H0 & _ & H32 & _).
  assert (Ek : t (n - 1)%nat = t k) by (f_equal; lia).
  unfold partition_around. replace (t k - 1 + 1) with (t k) by lia. rewrite (u32_small (t k)) by lia.
  apply wp_bind, wp_gets, wp_bind.
  apply (wp_hoare _ s lo hi v X n t _ (t k - 1) (v lo) (lo - 1) (t k) lo lo);
    try done; try lia; try (apply le_refl); try (apply minmax_cmp_flip, le_refl).
  - intros j Hj. destruct Hp as (_ & Hdesc & _). destruct (decide (j = k)) as [->|]; [lia|].
    pose proof (Hdesc j k ltac:(lia)). lia.
  - by exists lo; split; [lia|].
  - intros s1 v1 h Hf1 Hfull1 Hp1 Hh1. pose proof Hh1 as (_ & _ & _ & q & Hq & Eq).
    destruct (tree_frame s s1 lo hi v X n t v1) as [Ht1 Hs1]; try done. rewrite <- Eq in *.
    eapply wp_settle_pivot; [exact Ht1|lia|exact Hh1|done|].
    intros s' v' h' Ht' Hh' Hs'. eapply HQ; [exact Ht'|lia|by eapply same_size_trans].
Qed.

(** The leftmost bucket gets a pivot. *)
Lemma wp_partition s lo hi v X n t k Q :
  tree s lo hi v X n t -> S k = n -> lo < t k ->
  (forall s' v' h, tree s' lo hi v' X (S n) (upd t n h) -> lo <= h < t k -> same_size s s' -> Q () s') ->
  wp (partition cmp true k) s Q.
Proof.
  intros Htree Hk Hlt HQ. pose proof Htree as (Hfull & Hst & Hp & Hd & Hn & Hi & Hlo & Hnum & Hle).
  pose proof (tree_entry _ _ _ _ _ _ _ k Htree ltac:(lia)) as He.
  pose proof Hfull as (Hc & _ & H0 & Hw & H32 & _). pose proof (cap_ok_range _ Hc).
  assert (Ek : t (n - 1)%nat = t k) by (f_equal; lia).
  unfold partition, bucket_lwb, is_bucket, lst_length, stack_depth.
  apply wp_bind, wp_bind, wp_bind, wp_bind, wp_bind, wp_gets, wp_ret, wp_ret, wp_ret.
  rewrite Hd. assert (Eb : ((n - k) =? 1)%nat = true) by (apply Nat.eqb_eq; lia). rewrite Eb.
  apply wp_gets. rewrite Hi. unfold bucket_upb. apply wp_bind, wp_bind.
  eapply (wp_stack_item s n t); [done|lia|]. apply wp_ret. rewrite (u32_small (t k - 1)) by lia.
  apply wp_bind, wp_gets. rewrite is_equivalent_spec by done.
  destruct (decide (lo = t k - 1)) as [E|E].
  { rewrite bool_decide_eq_true_2 by congruence.
    eapply wp_push_pivot; [exact Htree|lia|intros; lia|intros; lia|].
    intros s' Ht' Hs'. eapply HQ; [exact Ht'|lia|done]. }
  rewrite bool_decide_eq_false_2.
  2:{ intros Em. apply E. apply (mod_inj (capacity s) lo hi); lia. }
  apply wp_bind, wp_fast_rand. intros r s1 Hf1 Ei1 Ef1 Hr.
  replace (t k - 1 + 1) with (t k) by lia. rewrite (u32_small (t k - lo)) by lia.
  rewrite decide_False by lia. pose proof (Z.mod_pos_bound r (t k - lo) ltac:(lia)) as Hm.
  rewrite (u32_small (lo + _)) by lia. set (p := lo + r mod (t k - lo)) in *.
  assert (Hfull1 : full s1 lo hi v X) by (eapply held_cong; [apply Hf1|done..]).
  destruct (tree_frame s s1 lo hi v X n t v) as [Ht1 Hs1]; try done.
  apply wp_bind. eapply (wp_item s1 lo hi v hi); [done|lia|lia|]. apply wp_bind.
  destruct (decide (p = lo)) as [Ep|Ep].
  - apply wp_when_false; [auto|]. rewrite Ep. eapply wp_partition_around; [exact Ht1|done|done|].
    intros s' v' h Ht' Hh Hs'. eapply HQ; [exact Ht'|done|by eapply same_size_trans].
  - apply wp_when_true; [done|]. apply wp_bind. eapply (wp_item s1 lo hi v hi); [done|lia|lia|].
    eapply (wp_exchange_last s1 lo hi v X p lo); [done|lia|lia|done|]. intros s2 Hf2 Hfull2.
    destruct (tree_frame s1 s2 lo hi v X n t (swap_at v p lo)) as [Ht2 Hs2]; try done.
    { apply pivots_exchange; [done|lia|lia|]. intros j Hj. destruct Hp as (_ & Hdesc & _).
      destruct (decide (j = k)) as [->|]; [lia|]. pose proof (Hdesc j k ltac:(lia)). lia. }
    rewrite <- (swap_at_r v p lo). eapply wp_partition_around; [exact Ht2|done|done|].
    intros s' v' h Ht' Hh Hs'. eapply HQ; [exact Ht'|done|].
    eapply same_size_trans; [exact Hs1|]. by eapply same_size_trans.
Qed.
End Partition.
