(* ===== verification/LstClient.v ===== *)
(** * Leftmost skeleton trees: operations and clients

    Insertion, extraction and looking for the first object keep the representation, the
    array doubles when it is full, and client runs observe a set of objects ordered by the
    callback. *)
From S2P Require Import Prelude Heap MinmaxHeap StateMonad Lst LstInv LstOps.

Section Ops.
Context (cmp : Z -> Z -> Z) `{!MinmaxCmp cmp}.

Lemma wp_is_bucket s k Q : Q ((st_depth (lstack s) - k =? 1)%nat) s -> wp (is_bucket k) s Q.
Proof.
  intros HQ. unfold is_bucket, lst_length, stack_depth.
  apply wp_bind, wp_bind, wp_bind, wp_gets, wp_ret, wp_ret, wp_ret. exact HQ.
Qed.

Lemma wp_lst_size s lo hi v X n t k Q :
  tree cmp s lo hi v X n t -> (1 <= k < n)%nat -> Q (t k - lo) s -> wp (lst_size k) s Q.
Proof.
  intros Htree Hk HQ. pose proof Htree as (Hfull & Hst & Hp & _ & _ & Hi & Hlo & _).
  pose proof Hfull as (Hc & _ & H0 & Hw & _). pose proof (cap_ok_range _ Hc).
  destruct (proj2 (proj2 Hp) k) as (Hq & _); [done|].
  unfold lst_size. rewrite decide_False by lia. apply wp_bind, wp_gets, wp_bind, wp_gets, wp_bind.
  eapply (wp_stack_item s n t); [done|lia|]. rewrite Hi, !index_reduce_mod, (Z.mod_small lo) by (done || lia).
  destruct (decide (t k < capacity s)).
  - rewrite Z.mod_small by lia. rewrite decide_True by lia. rewrite u32_small by lia. by apply wp_ret.
  - replace (t k mod capacity s) with (t k - capacity s).
    2:{ replace (t k) with (t k - capacity s + 1 * capacity s) at 2 by lia.
        rewrite Z.mod_add, Z.mod_small; lia. }
    rewrite decide_False by lia. apply wp_ret. rewrite u32_small by lia.
    by replace (capacity s - lo + (t k - capacity s)) with (t k - lo) by lia.
Qed.

Lemma wp_pivot_item s lo hi v X n t k Q :
  tree cmp s lo hi v X n t -> (1 <= k < n)%nat -> Q (v (t k)) s -> wp (pivot_item k) s Q.
Proof.
  intros (Hfull & Hst & Hp & _) Hk HQ. destruct (proj2 (proj2 Hp) k) as (Hq & _); [done|].
  unfold pivot_item. apply wp_bind. eapply (wp_stack_item s n t); [done|lia|].
  eapply (wp_item s lo hi v hi); [done|lia|lia|done].
Qed.

(** Taking pivots off the stack leaves their entries in its memory. *)
Lemma wp_lst_flatten s lo hi v X n t k Q :
  tree cmp s lo hi v X n t -> (0 < k < n)%nat ->
  (forall s', full s' lo hi v X -> stacked s' n t -> frame_stack (with_stack
       (PivotStack k (st_size (lstack s)) (st_data (lstack s))) s) s' -> fields s' = fields s -> Q () s') ->
  wp (lst_flatten k) s Q.
Proof.
  intros (Hfull & Hst & _ & Hd & _) Hk HQ. unfold lst_flatten, stack_depth, stack_pop.
  apply wp_bind, wp_bind, wp_gets, wp_ret, wp_bind, wp_gets, wp_modify.
  replace (st_depth (lstack s) - (st_depth (lstack s) - k))%nat with k by lia. apply HQ; done.
Qed.

(** What an operation that takes out [d] leaves. *)
Definition removed (s : fr_lst_t) (X : gset Z) (d : Z) (s' : fr_lst_t) : Prop :=
  (exists lo hi v n t, tree cmp s' lo hi v (X ∖ {[d]}) n t) /\
  capacity s' = capacity s /\ lnum s' = lnum s - 1 /\ dom (fields s') = dom (fields s).

Lemma deleted_removed s X n d s' : deleted cmp s X n d s' -> (0 < n)%nat -> removed s X d s'.
Proof.
  intros (lo & hi & v & t & H1 & H2 & H3 & H4 & H5 & H6 & H7 & H8 & H9 & H10 & H11) Hn.
  split; [|done]. by exists lo, hi, v, n, t.
Qed.

(** Flattening at a pivot and deleting it. *)
Lemma wp_flatten_delete s lo hi v X n t k Q :
  tree cmp s lo hi v X n t -> (0 < k < n)%nat ->
  (forall s', removed s X (v (t k)) s' -> Q () s') ->
  wp (lst_flatten k) s (fun _ s1 => wp (bucket_delete k (v (t k))) s1 Q).
Proof.
  intros Htree Hk HQ. pose proof Htree as (_ & _ & Hp & _ & _ & Hi & Hlo & Hnum & _).
  eapply wp_lst_flatten; [exact Htree|done|].
  intros s1 Hfull1 Hst1 (F1 & F2 & F3 & F4 & F5) Ef. cbn in *.
  eapply (wp_delete_pivot cmp s1 lo hi v X k t); [done|by eapply stacked_take; [done|lia]
    |by eapply pivots_take; [done|lia]|done|lia|done|lia|lia|lia|].
  intros s' Hdel. apply HQ. apply deleted_removed in Hdel as (H1 & H2 & H3 & H4); [|lia].
  split; [done|]. split_and!; congruence.
Qed.

(** The bucket of level [k] has a pivot afterwards. *)
Lemma wp_descend {A} s lo hi v X n t k (f : st fr_lst_t A) Q :
  tree cmp s lo hi v X n t -> (k < n)%nat -> lo < t k ->
  (forall s' v' n' t', tree cmp s' lo hi v' X n' t' -> (S k < n')%nat -> t' (S k) < t k ->
     same_size s s' -> wp f s' Q) ->
  wp (b ← is_bucket k; _ ← when (b = true) (partition cmp true k); f) s Q.
Proof.
  intros Htree Hk Hlt HQ. pose proof Htree as (_ & _ & (_ & Hdesc & _) & Hd & _).
  apply wp_bind, wp_is_bucket. rewrite Hd. apply wp_bind. destruct (decide (S k = n)) as [E|E].
  - apply wp_when_true; [apply Nat.eqb_eq; lia|]. eapply (wp_partition cmp); [exact Htree|done|done|].
    intros s' v' h Ht' Hh Hs'. eapply HQ; [exact Ht'|lia| |done].
    unfold upd. rewrite decide_True by lia. lia.
  - apply wp_when_false; [rewrite Nat.eqb_eq; lia|]. eapply HQ; [exact Htree|lia|apply Hdesc; lia|done].
Qed.

(** The object at the start of the window, when that is a pivot, comes first. *)
Lemma first_least s lo hi v X n t k y :
  tree cmp s lo hi v X n t -> (1 <= k < n)%nat -> t k = lo -> y ∈ X -> cmp (v lo) y <= 0.
Proof.
  intros (Hfull & _ & (_ & _ & Hsplit) & _) Hk E Hy. destruct Hfull as (_ & _ & _ & _ & _ & [_ HX] & _).
  apply HX in Hy as (i & Hi & <-). destruct (Hsplit k Hk) as (_ & _ & _ & Hr). rewrite E in Hr.
  destruct (decide (i = lo)) as [->|]; [by apply le_refl|]. apply Hr; lia.
Qed.

Lemma tree_first s lo hi v X n t : tree cmp s lo hi v X n t -> lo < hi -> v lo ∈ X.
Proof.
  intros (Hfull & _) Hlt. destruct Hfull as (_ & _ & _ & _ & _ & [_ HX] & _). apply HX.
  exists lo. split; [lia|done].
Qed.

Lemma wp_lst_pop_rec fuel : forall s lo hi v X n t k Q,
  tree cmp s lo hi v X n t -> (k < n)%nat -> lo < t k -> t k - lo <= Z.of_nat fuel ->
  (forall d s', d ∈ X -> (forall y, y ∈ X -> cmp d y <= 0) -> removed s X d s' -> Q d s') ->
  wp (_fr_lst_pop cmp fuel true k) s Q.
Proof.
  induction fuel as [|fuel IH]; intros s lo hi v X n t k Q Htree Hk Hlt Hf HQ; [lia|].
  cbn [_fr_lst_pop]. eapply wp_descend; [exact Htree|done|done|].
  intros s1 v1 n1 t1 Ht1 Hn1 Hlt1 (S1 & S2 & S3).
  pose proof (tree_entry _ _ _ _ _ _ _ _ (S k) Ht1 ltac:(lia)) as He.
  apply wp_bind. eapply wp_lst_size; [exact Ht1|lia|]. case_decide as Hz.
  - assert (El : t1 (S k) = lo) by lia.
    apply wp_bind. eapply wp_pivot_item; [exact Ht1|lia|]. rewrite El.
    apply wp_bind, (wp_mono _ _ (fun _ s2 => wp (bucket_delete (S k) (v1 lo)) s2
      (fun _ s' => wp (mret (v1 lo)) s' Q))); [|intros [] s2; apply wp_bind].
    rewrite <- El. eapply (wp_flatten_delete s1 lo hi v1 X); [exact Ht1|lia|].
    intros s' (H1 & H2 & H3 & H4). rewrite El in *. apply wp_ret, HQ.
    + eapply tree_first; [exact Ht1|]. destruct (proj2 (proj2 (proj1 (proj2 (proj2 Ht1)))) (S k)) as (? & _); lia.
    + intros y Hy. eapply (first_least s1); [exact Ht1| |exact El|done]. lia.
    + split; [done|]. split_and!; congruence.
  - eapply (IH s1); [exact Ht1|lia|lia|lia|]. intros d s' Hd Hmin (H1 & H2 & H3 & H4).
    apply HQ; try done. split; [done|]. split_and!; congruence.
Qed.

Lemma wp_lst_peek_rec fuel : forall s lo hi v X n t k Q,
  tree cmp s lo hi v X n t -> (k < n)%nat -> lo < t k -> t k - lo <= Z.of_nat fuel ->
  (forall d s' v' n' t', d ∈ X -> (forall y, y ∈ X -> cmp d y <= 0) ->
     tree cmp s' lo hi v' X n' t' -> same_size s s' -> Q d s') ->
  wp (_fr_lst_peek cmp fuel true k) s Q.
Proof.
  induction fuel as [|fuel IH]; intros s lo hi v X n t k Q Htree Hk Hlt Hf HQ; [lia|].
  cbn [_fr_lst_peek]. eapply wp_descend; [exact Htree|done|done|].
  intros s1 v1 n1 t1 Ht1 Hn1 Hlt1 Hs1.
  pose proof (tree_entry _ _ _ _ _ _ _ _ (S k) Ht1 ltac:(lia)) as He.
  apply wp_bind. eapply wp_lst_size; [exact Ht1|lia|]. case_decide as Hz.
  - assert (El : t1 (S k) = lo) by lia. eapply wp_pivot_item; [exact Ht1|lia|]. rewrite El.
    eapply HQ; [|intros y Hy; by eapply (first_least s1); [exact Ht1| |exact El|]; [lia|]|exact Ht1|done].
    eapply tree_first; [exact Ht1|]. pose proof (tree_entry _ _ _ _ _ _ _ _ k Htree Hk). lia.
  - eapply (IH s1); [exact Ht1|lia|lia|lia|]. intros d s' v' n' t' Hd Hmin Ht' Hs'.
    eapply HQ; try done. by eapply same_size_trans.
Qed.

(** ** Extraction *)

Lemma wp_lst_extract_rec fuel : forall s lo hi v X n t k p d Q,
  tree cmp s lo hi v X n t -> (k < n)%nat -> (n - k <= fuel)%nat -> lo <= p < t k -> v p = d ->
  (forall y, y ∈ X -> y <> d -> cmp d y <> 0) ->
  (forall s', removed s X d s' -> Q () s') ->
  wp (_fr_lst_extract cmp fuel k d) s Q.
Proof.
  induction fuel as [|fuel IH]; intros s lo hi v X n t k p d Q Htree Hk Hf Hp Hv Htie HQ; [lia|].
  pose proof Htree as (Hfull & Hst & Hpv & Hd & _ & Hi & Hlo & Hnum & _).
  pose proof Hpv as (E0 & Hdesc & Hsplit).
  pose proof (tree_entry _ _ _ _ _ _ _ _ k Htree Hk) as He.
  cbn [_fr_lst_extract]. apply wp_bind, wp_is_bucket. rewrite Hd.
  destruct ((n - k =? 1)%nat) eqn:Eb; [apply Nat.eqb_eq in Eb|apply Nat.eqb_neq in Eb].
  { eapply (wp_delete_item cmp s lo hi v X n t p k); try done; try lia.
    intros s' Hdel. apply HQ. eapply deleted_removed; [exact Hdel|lia]. }
  apply wp_bind. eapply wp_pivot_item; [exact Htree|lia|]. cbv zeta.
  destruct (Hsplit (S k)) as (Hq & _ & Hl & Hr); [lia|].
  assert (Hself : p = t (S k) -> cmp d (v (t (S k))) = 0).
  { intros <-. rewrite Hv. pose proof (le_refl cmp d). pose proof (minmax_cmp_flip d d). lia. }
  assert (Hleft : p < t (S k) -> cmp d (v (t (S k))) <= 0) by (intros; rewrite <- Hv; apply Hl; lia).
  assert (Hright : t (S k) < p -> 0 <= cmp d (v (t (S k))))
    by (intros; apply minmax_cmp_flip; rewrite <- Hv; apply Hr; lia).
  case_decide as Hc; [|case_decide as Hc2].
  - eapply (IH s lo hi v X n t (S k) p); try done; lia.
  - eapply (wp_delete_item cmp s lo hi v X n t p k); try done; try lia.
    intros s' Hdel. apply HQ. eapply deleted_removed; [exact Hdel|lia].
  - assert (Ep : v (t (S k)) = d).
    { destruct (decide (v (t (S k)) = d)) as [|Hne]; [done|]. exfalso.
      eapply Htie; [|exact Hne|lia]. destruct Hfull as (_ & _ & _ & _ & _ & [_ HX] & _).
      apply HX. by exists (t (S k)). }
    rewrite <- Ep. apply wp_bind. eapply (wp_flatten_delete s lo hi v X); [exact Htree|lia|].
    intros s' Hs'. apply HQ. by rewrite <- Ep.
Qed.

(** ** Insertion *)

(** What an insertion leaves. *)
Definition inserted (s : fr_lst_t) (X : gset Z) (d : Z) (s' : fr_lst_t) : Prop :=
  (exists lo hi v n t, tree cmp s' lo hi v ({[d]} ∪ X) n t) /\
  capacity s' = capacity s /\ lnum s' = lnum s + 1 /\ dom (fields s') = dom (fields s).

(** Adding to the bucket [k] of a tree of which the first [m] stack entries are kept. *)
Lemma wp_tree_add s lo hi v X n m t k d Q :
  full s lo hi v X -> stacked s n t -> pivots cmp v lo hi hi n t -> (k < n)%nat -> (0 < m <= n)%nat ->
  st_depth (lstack s) = m -> lidx s = lo -> lo < capacity s -> lnum s = hi - lo -> lo <= hi ->
  lnum s < capacity s -> d ∉ X -> is_Some (fields s !! d) ->
  (forall j, (1 <= j < m)%nat -> if decide (j <= k)%nat then cmp d (v (t j)) <= 0 else cmp (v (t j)) d <= 0) ->
  (forall s', inserted s X d s' -> Q () s') ->
  wp (bucket_add k d) s Q.
Proof.
  intros Hfull Hst Hp Hk Hm Hd Hi Hlo Hnum Hle Hroom HdX Hs Hfit HQ.
  pose proof (cap_ok_range _ (proj1 Hfull)).
  eapply (wp_bucket_add cmp s lo hi v X n m t k d); try done; try lia.
  intros s' v' t' Hfull' Hst' Hp' E1 E2 E3 E4 E5. apply HQ. split; [|done].
  exists lo, (hi + 1), v', m, t'. split_and!; try done; try congruence || lia.
Qed.

Lemma wp_lst_insert_rec fuel : forall s lo hi v X n t k d Q,
  tree cmp s lo hi v X n t -> (k < n)%nat -> (n - k <= fuel)%nat -> lnum s < capacity s ->
  d ∉ X -> is_Some (fields s !! d) ->
  (forall j, (1 <= j <= k)%nat -> cmp d (v (t j)) <= 0) ->
  (forall s', inserted s X d s' -> Q () s') ->
  wp (_fr_lst_insert cmp fuel k d) s Q.
Proof.
  induction fuel as [|fuel IH]; intros s lo hi v X n t k d Q Htree Hk Hf Hroom HdX Hs Hfit HQ; [lia|].
  cbn [_fr_lst_insert]. pose proof Htree as (Hfull & Hst & Hpv & Hd & Hn & Hi & Hlo & Hnum & Hle).
  apply wp_bind, wp_is_bucket. rewrite Hd.
  destruct ((n - k =? 1)%nat) eqn:Eb; [apply Nat.eqb_eq in Eb|apply Nat.eqb_neq in Eb].
  { eapply (wp_tree_add s lo hi v X n n t k); try done; try lia.
    intros j Hj. rewrite decide_True by lia. apply Hfit. lia. }
  apply wp_bind, wp_fast_rand. intros r s1 Hf1 Ei1 Ef1 Hr.
  assert (Hfull1 : full s1 lo hi v X) by (eapply held_cong; [apply Hf1|done..]).
  destruct (tree_frame cmp s s1 lo hi v X n t v) as [Ht1 (S1 & S2 & S3)]; try done.
  assert (HQ1 : forall s', inserted s1 X d s' -> Q () s').
  { intros s' (H1 & H2 & H3 & H4). apply HQ. split; [done|]. split_and!; congruence. }
  apply wp_bind. eapply wp_lst_size; [exact Ht1|lia|].
  pose proof Ht1 as (_ & Hst1 & _ & Hd1 & _ & Hi1 & Hlo1 & Hnum1 & _).
  case_decide as Hrand.
  - apply wp_bind. eapply wp_pivot_item; [exact Ht1|lia|]. case_decide as Hc.
    + eapply (IH s1 lo hi v X n t (S k)); try done; try lia; try congruence.
      intros j Hj. destruct (decide (j = S k)) as [->|]; [lia|]. apply Hfit. lia.
    + eapply (wp_tree_add s1 lo hi v X n n t k); try done; try lia; try congruence.
      intros j Hj. case_decide; [apply Hfit; lia|]. apply cmp_total in Hc.
      destruct (decide (j = S k)) as [->|]; [done|]. destruct Hpv as (_ & Hdesc & Hsplit).
      eapply cmp_trans; [|exact Hc]. destruct (Hsplit (S k)) as (_ & _ & Hl & _); [lia|].
      pose proof (Hdesc (S k) j ltac:(lia)). destruct (Hsplit j) as (? & _); [lia|]. apply Hl; lia.
  - apply wp_bind. eapply (wp_lst_flatten s1); [exact Ht1|lia|].
    intros s2 Hfull2 Hst2 (F1 & F2 & F3 & F4 & F5) Ef. cbn in *.
    eapply (wp_tree_add s2 lo hi v X (S (S k)) (S k) t (S k)); try done; try lia; try congruence.
    + eapply stacked_take; [done|lia].
    + eapply pivots_take; [done|lia].
    + intros j Hj. rewrite decide_True by lia. apply Hfit. lia.
    + intros s' (H1 & H2 & H3 & H4). apply HQ1. split; [done|]. split_and!; congruence.
Qed.

(** ** Growing *)

(** The array has doubled; the objects that had wrapped around are moved up to position
    [cap + i]. *)
Definition half_moved (s : fr_lst_t) (cap lo : Z) (v : Z -> Z) (X : gset Z) (i : Z) : Prop :=
  capacity s = 2 * cap /\ length (items s) = Z.to_nat (2 * cap) /\ objects v lo (lo + cap) X /\
  (forall a, lo <= a < lo + cap ->
     let place := if decide (a < cap + i) then a else a - cap in
     slot (items s) (Z.to_nat place) = Some (v a) /\ fields s !! v a = Some (place + 1)) /\
  (forall d k, fields s !! d = Some k -> d ∈ X \/ k = 0).

Lemma wp_expand_loop n : forall s cap lo v X i Q,
  cap_ok (2 * cap) -> 0 <= lo < cap -> 0 <= i -> i + Z.of_nat n = lo ->
  half_moved s cap lo v X i ->
  (forall s', frame s s' -> half_moved s' cap lo v X lo -> Q () s') ->
  wp (expand_loop n i cap) s Q.
Proof.
  induction n as [|n IH]; intros s cap lo v X i Q Hc Hlo Hi Hn Hm HQ; cbn [expand_loop].
  { apply wp_ret, HQ; [done|]. by replace lo with i at 2 by lia. }
  pose proof (cap_ok_range _ Hc). destruct Hm as (Ec & El & Ho & Hp & Hf).
  destruct (Hp (cap + i) ltac:(lia)) as [Hslot Hfield]. rewrite decide_False in Hslot, Hfield by lia.
  replace (cap + i - cap) with i in Hslot, Hfield by lia.
  unfold item, item_index, raw_item_index, lst_move, item_set, item_index_set, set_slot.
  apply wp_bind, wp_bind, wp_gets, wp_bind, wp_gets. rewrite index_reduce_mod by (by rewrite Ec).
  rewrite Ec, Z.mod_small by lia. eapply wp_lift; [exact Hslot|].
  apply wp_bind, wp_bind, wp_bind, wp_gets. eapply wp_lift; [exact Hfield|]. apply wp_ret.
  rewrite (u32_small (i + 1 - 1)) by lia. replace (i + 1 - 1 + cap) with (cap + i) by lia.
  rewrite (u32_small (cap + i)) by lia.
  apply wp_bind, wp_bind, wp_bind, wp_gets, wp_bind, wp_gets. rewrite index_reduce_mod by (by rewrite Ec).
  rewrite Ec, (Z.mod_small (cap + i)) by lia. rewrite decide_True by lia. apply wp_bind.
  eapply wp_lift; [done|]. apply wp_modify, wp_bind, wp_gets. cbn [capacity with_items].
  rewrite index_reduce_mod, (Z.mod_small (cap + i)), u32_small by (done || lia).
  apply wp_bind, wp_gets. cbn [fields with_items]. apply wp_bind. eapply wp_lift; [exact Hfield|].
  apply wp_modify. eapply (IH _ cap lo v X (i + 1)); try done; try lia.
  - split_and!; cbn; try done; [by rewrite length_insert| |].
    + intros a Ha. destruct (decide (a = cap + i)) as [->|Hne].
      * rewrite decide_True by lia. unfold slot. rewrite list_lookup_insert_eq by lia.
        by rewrite lookup_insert_eq.
      * specialize (Hp a Ha). cbn in Hp.
        assert (Hplace : (if decide (a < cap + (i + 1)) then a else a - cap) =
          (if decide (a < cap + i) then a else a - cap)) by (repeat case_decide; lia).
        rewrite Hplace. unfold slot. rewrite list_lookup_insert_ne by (case_decide; lia).
        rewrite lookup_insert_ne; [done|]. intros E. apply Ho in E; lia.
    + intros d k. destruct (decide (v (cap + i) = d)) as [<-|Hne].
      * intros _. left. apply Ho. exists (cap + i). split; [lia|done].
      * rewrite lookup_insert_ne by done. apply Hf.
  - intros s' (F1 & F2 & F3 & F4 & F5). apply HQ. cbn in *. split_and!; try congruence.
    rewrite F5. apply dom_insert_known. by eexists.
Qed.

Lemma half_moved_full s cap lo v X :
  half_moved s cap lo v X lo -> cap_ok (2 * cap) -> 0 <= lo < cap -> full s lo (lo + cap) v X.
Proof.
  intros (Ec & El & Ho & Hp & Hf) Hc Hlo. pose proof (cap_ok_range _ Hc).
  unfold full, held. rewrite Ec. split_and!; try done; try lia.
  - intros a Ha _. specialize (Hp a Ha). cbn in Hp. rewrite decide_True in Hp by lia.
    by rewrite Z.mod_small by lia.
  - intros d Hd. apply Ho in Hd as (a & Ha & <-). eexists. by apply Hp.
Qed.

Lemma cap_double cap : cap_ok cap -> cap < 2 ^ 31 -> cap_ok (2 * cap).
Proof.
  intros (c & Hc & ->) Hlt. exists (c + 1). rewrite Z.pow_add_r by lia. split; [|lia].
  destruct (decide (c = 31)) as [->|]; lia.
Qed.

(** A full tree gets room for as many objects again, or stays as it is. *)
Lemma wp_lst_expand s lo hi v X n t ok Q :
  tree cmp s lo hi v X n t -> lnum s = capacity s -> capacity s < 2 ^ 31 ->
  (ok = false -> Q (inl LstRealloc) s) ->
  (forall s', tree cmp s' lo hi v X n t -> capacity s' = 2 * capacity s ->
     lnum s' = lnum s -> dom (fields s') = dom (fields s) -> Q (inr ()) s') ->
  wp (lst_expand ok) s Q.
Proof.
  intros Htree Hfullness Hlt HQ0 HQ1.
  pose proof Htree as (Hfull & Hst & Hpv & Hd & Hn & Hi & Hlo & Hnum & Hle).
  pose proof Hfull as (Hc & Hl & H0 & Hw & H32 & Ho & Hp & Hk & Hf). pose proof (cap_ok_range _ Hc).
  pose proof (cap_double _ Hc Hlt) as Hc2. assert (Ehi : hi = lo + capacity s) by lia.
  unfold lst_expand. apply wp_bind, wp_gets.
  assert (Hsmall : capacity s <= 2 ^ 30).
  { destruct Hc as (c & Hc & E). rewrite E in *. apply Z.pow_le_mono_r; [lia|].
    destruct (decide (c = 31)) as [->|]; lia. }
  rewrite decide_False by (unfold UINT_MAX; lia). rewrite u32_small by lia.
  destruct ok; [|by apply wp_ret, HQ0]. replace (capacity s * 2) with (2 * capacity s) by lia.
  apply wp_bind, wp_gets, wp_bind, wp_modify, wp_bind. set (s1 := with_items _ _ s).
  apply (wp_indices_reduce s1 lo n t); try done.
  { intros k Hk'. pose proof (tree_entry _ _ _ _ _ _ _ _ k Htree Hk'). lia. }
  intros s2 Hst2 (F1 & F2 & F3 & F4 & F5) Ei Ef. cbn in F1, F2, F3, F4, F5, Ei, Ef.
  assert (Em : lo mod capacity s1 = lo) by (cbn; apply Z.mod_small; lia).
  cbn in Em. rewrite Em in F2. apply wp_bind, wp_gets. rewrite F2. apply wp_bind.
  apply (wp_expand_loop _ s2 (capacity s) lo v X 0); try done; try lia.
  - split_and!; cbn; try congruence;
      [rewrite Ei; cbn; apply length_resize| |by rewrite Ef].
    intros a Ha. rewrite Ei, Ef. cbn. rewrite Z.add_0_r. specialize (Hp a ltac:(lia) ltac:(lia)).
    assert (Ea : (if decide (a < capacity s) then a else a - capacity s) = a mod capacity s).
    { case_decide; [by rewrite Z.mod_small by lia|].
      replace a with (a - capacity s + 1 * capacity s) at 2 by lia. rewrite Z.mod_add, Z.mod_small; lia. }
    rewrite Ea. pose proof (Z.mod_pos_bound a (capacity s)). unfold slot in *.
    rewrite lookup_resize by lia. done.
  - intros s3 (G1 & G2 & G3 & G4 & G5) Hm. apply wp_ret, HQ1; try congruence.
    split_and!; try done; try congruence || lia.
    + rewrite Ehi. by apply half_moved_full.
    + apply (stacked_cong s2); [done|]. revert Hst2. apply stacked_ext. intros k _. cbn. rewrite Em. lia.
Qed.

(** ** The operations *)

(** The tree holds the objects [X]. *)
Definition represents (s : fr_lst_t) (X : gset Z) : Prop :=
  exists lo hi v n t, tree cmp s lo hi v X n t.

Lemma lst_represents_known s X d :
  represents s X -> is_Some (fields s !! d) -> exists k, fields s !! d = Some k /\ 0 <= k /\
    (d ∈ X <-> k <> 0).
Proof.
  intros (lo & hi & v & n & t & Hfull & _) [k Ek]. destruct Hfull as (Hc & _ & _ & _ & _ & [_ HX] & Hp & _ & Hf).
  exists k. split; [done|]. pose proof (cap_ok_range _ Hc).
  destruct (decide (d ∈ X)) as [Hd|Hd].
  - pose proof Hd as Hd'. apply HX in Hd as (i & Hi & Ev). destruct (Hp i Hi ltac:(lia)) as [_ E].
    rewrite Ev, Ek in E. injection E as ->. pose proof (Z.mod_pos_bound i (capacity s)).
    split; [lia|]. split; [lia|done].
  - destruct (Hf d k Ek); [done|]. split; [lia|]. tauto.
Qed.

Lemma lst_represents_size s X : represents s X -> lnum s = Z.of_nat (size X).
Proof.
  intros (lo & hi & v & n & t & Hfull & _ & _ & _ & _ & _ & _ & Hnum & Hle).
  destruct Hfull as (_ & _ & _ & _ & _ & [Hinj HX] & _). rewrite Hnum.
  assert (E : X = list_to_set (v <$> seqZ lo (hi - lo))).
  { apply leibniz_equiv. intros d. rewrite elem_of_list_to_set, list_elem_of_fmap, HX.
    setoid_rewrite elem_of_seqZ. split; intros (i & H1 & H2); exists i; split; done || lia. }
  rewrite E, size_list_to_set, length_fmap, length_seqZ; [lia|].
  apply NoDup_fmap_2_strong; [|apply NoDup_seqZ].
  intros i j Hi%elem_of_seqZ Hj%elem_of_seqZ. apply Hinj; lia.
Qed.

Lemma wp_lst_pop s X Q :
  represents s X ->
  (X = ∅ -> Q None s) ->
  (forall d s', d ∈ X -> (forall y, y ∈ X -> cmp d y <= 0) -> represents s' (X ∖ {[d]}) ->
     dom (fields s') = dom (fields s) -> Q (Some d) s') ->
  wp (fr_lst_pop cmp true) s Q.
Proof.
  intros HX HQ0 HQ1. pose proof (lst_represents_size _ _ HX) as Hsize.
  destruct HX as (lo & hi & v & n & t & Htree).
  pose proof Htree as (_ & _ & (E0 & _) & _ & Hn & _ & _ & Hnum & _).
  unfold fr_lst_pop. apply wp_bind, wp_gets. case_decide as Hz.
  - apply wp_ret, HQ0, leibniz_equiv, size_empty_iff. lia.
  - apply wp_bind. eapply wp_lst_pop_rec; [exact Htree|done|lia|lia|].
    intros d s' Hd Hmin (H1 & _ & _ & H4). by apply wp_ret, HQ1.
Qed.

Lemma wp_lst_peek s X Q :
  represents s X ->
  (X = ∅ -> Q None s) ->
  (forall d s', d ∈ X -> (forall y, y ∈ X -> cmp d y <= 0) -> represents s' X ->
     dom (fields s') = dom (fields s) -> Q (Some d) s') ->
  wp (fr_lst_peek cmp true) s Q.
Proof.
  intros HX HQ0 HQ1. pose proof (lst_represents_size _ _ HX) as Hsize.
  destruct HX as (lo & hi & v & n & t & Htree).
  pose proof Htree as (_ & _ & (E0 & _) & _ & Hn & _ & _ & Hnum & _).
  unfold fr_lst_peek. apply wp_bind, wp_gets. case_decide as Hz.
  - apply wp_ret, HQ0, leibniz_equiv, size_empty_iff. lia.
  - apply wp_bind. eapply wp_lst_peek_rec; [exact Htree|done|lia|lia|].
    intros d s' v' n' t' Hd Hmin Ht' (_ & _ & H3). apply wp_ret, HQ1; try done. by exists lo, hi, v', n', t'.
Qed.

(** An object that ties with no other one can be taken out. *)
Lemma wp_lst_extract s X d Q :
  represents s X -> is_Some (fields s !! d) -> (forall y, y ∈ X -> y <> d -> cmp d y <> 0) ->
  (X = ∅ -> Q (inl LstEmpty) s) -> (X <> ∅ -> d ∉ X -> Q (inl LstNotIn) s) ->
  (forall s', d ∈ X -> represents s' (X ∖ {[d]}) -> dom (fields s') = dom (fields s) -> Q (inr ()) s') ->
  wp (fr_lst_extract cmp d) s Q.
Proof.
  intros HX Hknown Htie HQ0 HQ1 HQ2. pose proof (lst_represents_size _ _ HX) as Hsize.
  destruct (lst_represents_known _ _ d HX Hknown) as (k & Ek & Hk0 & Hk).
  destruct HX as (lo & hi & v & n & t & Htree).
  unfold fr_lst_extract, raw_item_index, stack_depth. apply wp_bind, wp_gets. case_decide as Hz.
  { apply wp_ret, HQ0, leibniz_equiv, size_empty_iff. lia. }
  apply wp_bind, wp_bind, wp_gets. eapply wp_lift; [exact Ek|]. case_decide as Hkz.
  { apply wp_ret, HQ1; [|tauto]. intros ->. by rewrite size_empty in Hsize. }
  pose proof Htree as (Hfull & _ & (E0 & _) & Hd & Hn & _). assert (HdX : d ∈ X) by tauto.
  pose proof HdX as Hpos. apply (proj2 (proj1 (proj2 (proj2 (proj2 (proj2 (proj2 Hfull))))))) in Hpos.
  destruct Hpos as (p & Hp & Ev).
  apply wp_bind, wp_bind, wp_gets, wp_ret. rewrite Hd. apply wp_bind.
  eapply (wp_lst_extract_rec _ s lo hi v X n t 0 p); [exact Htree|lia|lia|lia|done|done|].
  intros s' (H1 & _ & _ & H4). by apply wp_ret, HQ2.
Qed.

Lemma wp_lst_insert s X ok d Q :
  represents s X -> is_Some (fields s !! d) -> lnum s < 2 ^ 31 ->
  (ok = false -> Q (inl LstRealloc) s) ->
  (forall s', d ∈ X -> represents s' X -> dom (fields s') = dom (fields s) -> Q (inl LstInserted) s') ->
  (forall s', d ∉ X -> represents s' ({[d]} ∪ X) -> dom (fields s') = dom (fields s) -> Q (inr ()) s') ->
  wp (fr_lst_insert cmp ok d) s Q.
Proof.
  intros (lo & hi & v & n & t & Htree) Hknown Hbound HQ0 HQ1 HQ2.
  assert (Hrest : forall s', tree cmp s' lo hi v X n t -> lnum s' < capacity s' ->
    dom (fields s') = dom (fields s) ->
    wp (raw ← raw_item_index d;
        if decide (0 < raw) then mret (inl LstInserted) else
        depth ← stack_depth; _ ← _fr_lst_insert cmp depth 0 d; mret (inr ())) s' Q).
  { intros s' Ht' Hroom Hdom. assert (HX : represents s' X) by (by exists lo, hi, v, n, t).
    assert (Hkn : is_Some (fields s' !! d)) by (apply elem_of_dom; rewrite Hdom; by apply elem_of_dom).
    destruct (lst_represents_known _ _ d HX Hkn) as (k & Ek & Hk0 & Hk).
    unfold raw_item_index, stack_depth. apply wp_bind, wp_bind, wp_gets. eapply wp_lift; [exact Ek|].
    case_decide as Hkz; [apply wp_ret, HQ1; [apply Hk; lia|done|done]|].
    pose proof Ht' as (_ & _ & _ & Hd & Hn & _).
    apply wp_bind, wp_bind, wp_gets, wp_ret. rewrite Hd. apply wp_bind.
    assert (HdX : d ∉ X) by (intros HdX; apply Hk in HdX; lia).
    eapply (wp_lst_insert_rec n s' lo hi v X n t 0); try done; try lia.
    intros s2 (H1 & _ & _ & H4). apply wp_ret, HQ2; [done|done|congruence]. }
  pose proof Htree as (Hfull & _ & _ & _ & _ & _ & _ & Hnum & _).
  pose proof Hfull as (Hc & _ & _ & Hw & _). pose proof (cap_ok_range _ Hc).
  unfold fr_lst_insert. apply wp_bind, wp_gets, wp_bind, wp_gets, wp_bind. case_decide as Hfullness.
  - eapply wp_lst_expand; [exact Htree|done|lia| |].
    + intros Hok. by apply wp_ret, HQ0.
    + intros s' Ht' Ec En Hdom. apply Hrest; [done|lia|done].
  - apply wp_ret. apply Hrest; [done|lia|done].
Qed.

(** ** Iteration *)

Lemma wp_foreach_loop fuel : forall s lo hi v X n t i Q,
  tree cmp s lo hi v X n t -> lo <= i < hi -> hi - i < Z.of_nat fuel ->
  Q (v <$> seqZ i (hi - i)) s -> wp (foreach_loop fuel (i, Some (v i))) s Q.
Proof.
  induction fuel as [|fuel IH]; intros s lo hi v X n t i Q Htree Hi Hf HQ; [lia|].
  pose proof Htree as (Hfull & Hst & (E0 & _) & _ & Hn & _). pose proof Hfull as (_ & _ & H0 & _ & H32 & _).
  cbn [foreach_loop]. unfold fr_lst_iter_next. apply wp_bind, wp_bind.
  eapply (wp_stack_item s n t); [done|done|]. rewrite E0, u32_small by lia.
  rewrite seqZ_cons in HQ by lia. case_decide as Hend.
  - apply wp_ret, wp_bind. destruct fuel; [lia|]. apply wp_ret, wp_ret.
    replace (Z.pred (hi - i)) with 0 in HQ by lia. exact HQ.
  - apply wp_bind. eapply (wp_item s lo hi v hi); [done|lia|lia|]. apply wp_ret, wp_bind.
    eapply IH; [exact Htree|lia|lia|]. apply wp_ret.
    replace (Z.pred (hi - i)) with (hi - (i + 1)) in HQ by lia. rewrite <- Z.add_1_r in HQ. exact HQ.
Qed.

Lemma wp_lst_foreach s X Q :
  represents s X -> (forall l, l ≡ₚ elements X -> Q l s) -> wp fr_lst_foreach s Q.
Proof.
  intros HX HQ. pose proof (lst_represents_size _ _ HX) as Hsize.
  destruct HX as (lo & hi & v & n & t & Htree). pose proof Htree as (Hfull & _ & _ & _ & _ & Hi & _ & Hnum & Hle).
  unfold fr_lst_foreach, fr_lst_iter_init. apply wp_bind, wp_gets, wp_bind, wp_bind, wp_gets.
  case_decide as Hz.
  - apply wp_ret. replace (S (Z.to_nat (lnum s))) with 1%nat by lia. apply wp_ret, HQ.
    assert (X = ∅) as -> by (apply leibniz_equiv, size_empty_iff; lia). by rewrite elements_empty.
  - apply wp_bind, wp_gets. rewrite Hi. apply wp_bind.
    eapply (wp_item s lo hi v hi); [done|lia|lia|]. apply wp_ret.
    eapply wp_foreach_loop; [exact Htree|lia|lia|]. apply HQ.
    destruct Hfull as (_ & _ & _ & _ & _ & [Hinj HX] & _). apply NoDup_Permutation.
    + apply NoDup_fmap_2_strong; [|apply NoDup_seqZ].
      intros a b Ha%elem_of_seqZ Hb%elem_of_seqZ. apply Hinj; lia.
    + apply NoDup_elements.
    + intros d. rewrite list_elem_of_fmap, elem_of_elements, HX. setoid_rewrite elem_of_seqZ.
      split; intros (a & H1 & H2); exists a; split; done || lia.
Qed.

(** ** The consistency check *)

Lemma wp_all_rounds n : forall s i body Q,
  (forall j, i <= j < i + Z.of_nat n -> wp (body j) s (fun b s' => b = true /\ s' = s)) ->
  Q true s -> wp (all_rounds n i body) s Q.
Proof.
  induction n as [|n IH]; intros s i body Q Hb HQ; cbn [all_rounds]; [by apply wp_ret|].
  apply wp_bind. eapply wp_mono; [apply Hb; lia|]. intros b s' [-> ->]. apply IH; [|done].
  intros j Hj. apply Hb. lia.
Qed.

Lemma wp_bucket_sizes m : forall s lo hi v X n t k sum Q,
  tree cmp s lo hi v X n t -> (k + m = n)%nat -> sum + Z.of_nat k = hi - t k -> (k < n)%nat ->
  Q (Some (hi - lo - (Z.of_nat n - 1))) s -> wp (bucket_sizes m k sum) s Q.
Proof.
  induction m as [|m IH]; intros s lo hi v X n t k sum Q Htree Hm Hsum Hk HQ; [lia|].
  pose proof Htree as (Hfull & Hst & (E0 & Hdesc & _) & Hd & _ & Hi & _ & Hnum & Hle).
  pose proof Hfull as (Hc & _ & H0 & _ & H32 & _).
  pose proof (tree_entry _ _ _ _ _ _ _ _ k Htree Hk) as He.
  cbn [bucket_sizes]. unfold bucket_upb, bucket_lwb.
  apply wp_bind, wp_bind. eapply (wp_stack_item s n t); [done|done|]. apply wp_ret.
  apply wp_bind, wp_bind, wp_is_bucket. rewrite Hd.
  assert (Hsize : forall x, u32 (u32 (t k - 1) - x + 1) = u32 (t k - x)).
  { intros x. unfold u32. replace (((t k - 1) mod 2 ^ 32) - x + 1) with ((t k - 1) mod 2 ^ 32 + (1 - x)) by lia.
    rewrite Zplus_mod_idemp_l. f_equal. lia. }
  destruct ((n - k =? 1)%nat) eqn:Eb; [apply Nat.eqb_eq in Eb|apply Nat.eqb_neq in Eb].
  - apply wp_gets, wp_bind, wp_gets. rewrite Hi, Hsize, u32_small by lia. rewrite decide_True by lia.
    destruct m; [|lia]. apply wp_ret.
    by replace (sum + (t k - lo)) with (hi - lo - (Z.of_nat n - 1)) by lia.
  - pose proof (tree_entry _ _ _ _ _ _ _ _ (S k) Htree ltac:(lia)).
    pose proof (Hdesc k (S k) ltac:(lia)).
    apply wp_bind. eapply (wp_stack_item s n t); [done|lia|]. apply wp_ret, wp_bind, wp_gets.
    rewrite Hsize, (u32_small (t (S k) + 1)), u32_small by lia. rewrite decide_True by lia.
    eapply (IH s lo hi v X n t (S k)); try done; lia.
Qed.

Lemma wp_verify_bucket s lo hi v X n t k :
  tree cmp s lo hi v X n t -> (k < n)%nat ->
  wp (verify_bucket cmp k) s (fun b s' => b = true /\ s' = s).
Proof.
  intros Htree Hk. pose proof Htree as (Hfull & Hst & (E0 & Hdesc & Hsplit) & Hd & _ & Hi & _ & Hnum & Hle).
  pose proof (tree_entry _ _ _ _ _ _ _ _ k Htree Hk) as He.
  assert (Hcell : forall a b (body : Z -> st fr_lst_t bool) Q,
    (forall i, a <= i < b -> wp (body i) s (fun b s' => b = true /\ s' = s)) -> Q true s ->
    wp (all_rounds (Z.to_nat (b - a)) a body) s Q).
  { intros a b body Q Hb HQ. apply wp_all_rounds; [|done]. intros i Hj. apply Hb. lia. }
  unfold verify_bucket, stack_depth. apply wp_bind, wp_bind, wp_gets, wp_ret. rewrite Hd. apply wp_bind.
  assert (Hleft : wp (if decide (S k < n)%nat then
      upb ← stack_item k; lwb ← stack_item (S k); pivot ← item lwb;
      all_rounds (Z.to_nat (upb - lwb)) lwb (fun index =>
        element ← item index; mret (bool_decide (cmp pivot element <= 0)))
    else mret true) s (fun b s' => b = true /\ s' = s)).
  { case_decide as Hlast; [|by apply wp_ret]. destruct (Hsplit (S k)) as (Hq & _ & _ & Hr); [lia|].
    apply wp_bind. eapply (wp_stack_item s n t); [done|lia|].
    apply wp_bind. eapply (wp_stack_item s n t); [done|lia|].
    apply wp_bind. eapply (wp_item s lo hi v hi); [done|lia|lia|]. apply Hcell; [|done]. intros i Hin.
    apply wp_bind. eapply (wp_item s lo hi v hi); [done|lia|lia|]. apply wp_ret. split; [|done].
    apply bool_decide_eq_true. destruct (decide (i = t (S k))) as [->|]; [by apply le_refl|]. apply Hr; lia. }
  destruct (decide (0 < k)%nat) as [Hfirst|]; [|apply wp_ret; exact Hleft]. destruct (Hsplit k) as (Hq & _ & Hl & _); [lia|].
  assert (Hright : forall lwb, lo <= lwb -> wp (upb ← stack_item k; pivot ← item upb;
      all_rounds (Z.to_nat (upb - lwb)) lwb (fun index =>
        element ← item index; mret (bool_decide (cmp element pivot <= 0)))) s
      (fun b s' => b = true /\ s' = s)).
  { intros lwb Hlwb. apply wp_bind. eapply (wp_stack_item s n t); [done|lia|].
    apply wp_bind. eapply (wp_item s lo hi v hi); [done|lia|lia|]. apply Hcell; [|done]. intros i Hin.
    apply wp_bind. eapply (wp_item s lo hi v hi); [done|lia|lia|]. apply wp_ret. split; [|done].
    apply bool_decide_eq_true, Hl; lia. }
  apply wp_bind. destruct (decide (S k = n)) as [Hlast|Hlast].
  - apply wp_gets. rewrite Hi. eapply wp_mono; [by apply Hright|]. intros b s' [-> ->]. exact Hleft.
  - eapply (wp_stack_item s n t); [done|lia|].
    pose proof (tree_entry _ _ _ _ _ _ _ _ (S k) Htree ltac:(lia)).
    eapply wp_mono; [apply Hright; lia|]. intros b s' [-> ->]. exact Hleft.
Qed.

Lemma lst_verify_passes s X :
  represents s X -> wp (fr_lst_verify cmp) s (fun b s' => b = true /\ s' = s).
Proof.
  intros (lo & hi & v & n & t & Htree).
  pose proof Htree as (Hfull & Hst & (E0 & Hdesc & Hsplit) & Hd & Hn & Hi & Hlo & Hnum & Hle).
  pose proof Hfull as (Hc & _ & H0 & Hw & H32 & _). pose proof (cap_ok_range _ Hc).
  unfold fr_lst_verify, stack_depth. apply wp_bind, wp_bind, wp_gets, wp_ret. rewrite Hd.
  rewrite decide_False by lia. apply wp_bind. eapply (wp_stack_item s n t); [done|lia|].
  apply wp_bind, wp_gets, wp_bind, wp_gets, wp_bind, wp_gets. rewrite Hi, Hnum, E0, u32_small by lia.
  replace (lo + (hi - lo)) with hi by lia. rewrite decide_False by (intros []; done).
  assert (Hsizes : wp verify_sizes s (fun b s' => b = true /\ s' = s)).
  { unfold verify_sizes, stack_depth. apply wp_bind, wp_gets. case_decide; [by apply wp_ret|].
    apply wp_bind, wp_bind, wp_gets, wp_ret. rewrite Hd. apply wp_bind.
    eapply (wp_bucket_sizes n s lo hi v X n t 0); [exact Htree|lia|lia|done|]. apply wp_ret.
    split; [|done]. apply bool_decide_eq_true. rewrite u32_small by lia. lia. }
  apply wp_bind. eapply wp_mono; [exact Hsizes|]. intros b1 s1 [-> ->]. cbn [negb].
  apply wp_bind, wp_all_rounds.
  { intros i Hin. unfold verify_element. apply wp_bind, wp_gets, wp_bind, wp_gets. rewrite Hi, u32_small by lia.
    apply wp_bind. eapply (wp_item s lo hi v hi); [done|lia|lia|].
    apply wp_bind. eapply (wp_item_index s lo hi v hi); [done|lia|lia|]. apply wp_ret.
    rewrite is_equivalent_spec, Z.mod_mod by (done || lia). by rewrite bool_decide_eq_true_2. }
  cbn [negb]. apply wp_bind, wp_is_bucket. rewrite Hd.
  destruct ((n - 0 =? 1)%nat) eqn:Eb; [by apply wp_ret|apply Nat.eqb_neq in Eb].
  apply wp_bind, wp_all_rounds.
  { intros k Hk. unfold verify_pivots. apply wp_bind. eapply wp_pivot_item; [exact Htree|lia|].
    apply wp_bind. eapply wp_pivot_item; [exact Htree|lia|]. apply wp_ret. split; [|done].
    apply bool_decide_eq_true, minmax_cmp_flip. destruct (Hsplit (Z.to_nat k)) as (_ & _ & Hl & _); [lia|].
    destruct (Hsplit (S (Z.to_nat k))) as (? & _); [lia|].
    pose proof (Hdesc (Z.to_nat k) (S (Z.to_nat k)) ltac:(lia)). apply Hl; lia. }
  cbn [negb]. apply wp_bind, wp_all_rounds.
  { intros k Hk. unfold verify_indices. apply wp_bind. eapply (wp_stack_item s n t); [done|lia|].
    apply wp_bind. eapply (wp_stack_item s n t); [done|lia|]. apply wp_ret. split; [|done].
    apply bool_decide_eq_true, Hdesc. lia. }
  cbn [negb]. apply wp_all_rounds; [|done]. intros k Hk. eapply wp_verify_bucket; [exact Htree|lia].
Qed.

(** ** Allocation *)

Lemma power_of_2 init : 0 < init -> Z.land init (init - 1) = 0 -> exists c, 0 <= c /\ init = 2 ^ c.
Proof.
  intros Hpos Hland. exists (Z.log2 init). split; [apply Z.log2_nonneg|].
  pose proof (Z.log2_spec init Hpos) as [Hle Hlt]. destruct (decide (init = 2 ^ Z.log2 init)) as [|Hne]; [done|].
  exfalso. assert (Hlog : Z.log2 (init - 1) = Z.log2 init).
  { apply Z.log2_unique; [apply Z.log2_nonneg|]. lia. }
  assert (Hbit : Z.testbit (Z.land init (init - 1)) (Z.log2 init) = true).
  { rewrite Z.land_spec, Z.bit_log2 by done. rewrite <- Hlog, Z.bit_log2; [done|].
    assert (0 < 2 ^ Z.log2 init) by (apply Z.pow_pos_nonneg; [lia|apply Z.log2_nonneg]). lia. }
  by rewrite Hland, Z.bits_0 in Hbit.
Qed.

Lemma stack_capacity_ge fuel n init : (n <= stack_capacity fuel n init)%nat.
Proof.
  revert n. induction fuel as [|fuel IH]; intros n; cbn; [done|]. case_decide; [|done].
  specialize (IH (S n)). lia.
Qed.

Lemma lst_alloc_represents a b init m s :
  fr_lst_alloc true true true a b init m = Some (Some s) -> 0 <= init <= 2 ^ 31 ->
  map_Forall (fun _ k => k = 0) m -> represents s ∅ /\ fields s = m.
Proof.
  intros Ha Hinit Hm. unfold fr_lst_alloc in Ha.
  assert (Hcap : forall cap, cap_ok cap -> forall s',
    (let n := stack_capacity 32 1 cap in
     '(_, s) ← stack_push true 0 (Lst cap 0 0 (replicate (Z.to_nat cap) None)
       (PivotStack 0 n (replicate n None)) (a, b) m); Some (Some s)) = Some (Some s') ->
    represents s' ∅ /\ fields s' = m).
  { intros cap Hc s' E. cbv zeta in E. pose proof (stack_capacity_ge 32 1 cap) as Hn.
    pose proof (cap_ok_range _ Hc). set (n := stack_capacity 32 1 cap) in *. clearbody n.
    unfold stack_push, stack_set, set_slot, mbind, st_bind, gets, lift, modify in E.
    cbn in E. rewrite decide_False in E by lia. cbn in E. rewrite length_replicate, decide_True in E by lia.
    cbn in E. injection E as <-. split; [|done].
    exists 0, 0, (fun _ => 0), 1%nat, (fun _ => 0). split_and!; cbn; try done; try lia.
    - split_and!; cbn; try done; try lia.
      + apply length_replicate.
      + split; [lia|]. intros d. split; [set_solver|]. intros (i & ? & _). lia.
      + intros d k E. right. by apply Hm in E.
    - split_and!; cbn; [by rewrite length_insert, length_replicate|lia|].
      intros k Hk. assert (k = 0)%nat as -> by lia. unfold slot. by rewrite list_lookup_insert_eq by (rewrite length_replicate; lia).
    - split_and!; try done; lia. }
  case_decide as H0; [|case_decide as H1].
  - cbn in Ha. eapply (Hcap 2048); [by exists 11|exact Ha].
  - cbn in Ha. eapply (Hcap init); [|exact Ha]. destruct (power_of_2 init) as (c & Hc & E); [lia|done|].
    exists c. split; [|done]. split; [done|]. apply Z.pow_le_mono_r_iff with 2; [lia|lia|]. lia.
  - case_decide as Hlt; [|done]. cbn in Ha. eapply Hcap; [|exact Ha].
    exists (Z.of_nat (fr_high_bit_pos (Z.to_nat init))). split; [lia|done].
Qed.
End Ops.

(** ** Clients *)

(** [OpPop] and [OpPeek] may enlarge the pivot stack; that this succeeds is part of the
    contract, since the code does not check it.  The flag of [OpInsert] says whether the array
    can grow. *)
Inductive lst_op :=
| OpInsert (realloc_ok : bool) (d : Z) | OpExtract (d : Z) | OpPop | OpPeek | OpNum | OpForeach.

Inductive lst_res :=
| ResStatus (r : lst_err + unit) | ResPtr (d : option Z) | ResNum (n : Z) | ResList (l : list Z).

Definition lst_step (cmp : Z -> Z -> Z) (op : lst_op) : st fr_lst_t lst_res :=
  match op with
  | OpInsert ok d => r ← fr_lst_insert cmp ok d; mret (ResStatus r)
  | OpExtract d => r ← fr_lst_extract cmp d; mret (ResStatus r)
  | OpPop => d ← fr_lst_pop cmp true; mret (ResPtr d)
  | OpPeek => d ← fr_lst_peek cmp true; mret (ResPtr d)
  | OpNum => n ← fr_lst_num_elements; mret (ResNum n)
  | OpForeach => l ← fr_lst_foreach; mret (ResList l)
  end.

Fixpoint lst_run (cmp : Z -> Z -> Z) (ops : list lst_op) : st fr_lst_t (list lst_res) :=
  match ops with
  | [] => mret []
  | op :: ops => r ← lst_step cmp op; rs ← lst_run cmp ops; mret (r :: rs)
  end.

(** The abstract priority queue: a set of objects. *)
Definition queue_spec (cmp : Z -> Z -> Z) (X : gset Z) (op : lst_op) (res : lst_res) (X' : gset Z) : Prop :=
  match op, res with
  | OpInsert _ d, ResStatus (inr _) => (d ∉ X) /\ X' = ({[d]} ∪ X)
  | OpInsert _ d, ResStatus (inl LstInserted) => d ∈ X /\ X' = X
  | OpInsert ok d, ResStatus (inl LstRealloc) => ok = false /\ X' = X
  | OpExtract d, ResStatus (inr _) => d ∈ X /\ X' = (X ∖ {[d]})
  | OpExtract d, ResStatus (inl LstEmpty) => X = ∅ /\ X' = X
  | OpExtract d, ResStatus (inl LstNotIn) => X <> ∅ /\ (d ∉ X) /\ X' = X
  | OpPop, ResPtr None | OpPeek, ResPtr None => X = ∅ /\ X' = X
  | OpPop, ResPtr (Some d) => d ∈ X /\ (forall y, y ∈ X -> cmp d y <= 0) /\ X' = (X ∖ {[d]})
  | OpPeek, ResPtr (Some d) => d ∈ X /\ (forall y, y ∈ X -> cmp d y <= 0) /\ X' = X
  | OpNum, ResNum n => n = Z.of_nat (size X) /\ X' = X
  | OpForeach, ResList l => l ≡ₚ elements X /\ X' = X
  | _, _ => False
  end.

Inductive queue_run (cmp : Z -> Z -> Z) : gset Z -> list lst_op -> list lst_res -> gset Z -> Prop :=
| queue_nil X : queue_run cmp X [] [] X
| queue_cons X X1 X' op ops res rs :
    queue_spec cmp X op res X1 -> queue_run cmp X1 ops rs X' ->
    queue_run cmp X (op :: ops) (res :: rs) X'.

(** Objects an operation is given exist, and one that is extracted ties with no other. *)
Definition op_ok (cmp : Z -> Z -> Z) (m : gmap Z Z) (op : lst_op) : Prop :=
  match op with
  | OpInsert _ d => is_Some (m !! d)
  | OpExtract d => is_Some (m !! d) /\ map_Forall (fun y _ => y <> d -> cmp d y <> 0) m
  | _ => True
  end.

#[global] Instance op_ok_dec cmp m op : Decision (op_ok cmp m op).
Proof. destruct op; simpl; apply _. Defined.

Section Clients.
Context (cmp : Z -> Z -> Z) `{!MinmaxCmp cmp} (m : gmap Z Z).

Lemma lst_step_spec s X op :
  represents cmp s X -> dom (fields s) = dom m -> lnum s < 2 ^ 31 -> op_ok cmp m op ->
  wp (lst_step cmp op) s (fun res s' => exists X', queue_spec cmp X op res X' /\
    represents cmp s' X' /\ dom (fields s') = dom m /\ (size X' <= S (size X))%nat).
Proof.
  intros HX Hdom Hbound Hok.
  assert (Hknown : forall d, is_Some (m !! d) -> is_Some (fields s !! d)).
  { intros d Hd. apply elem_of_dom. rewrite Hdom. by apply elem_of_dom. }
  assert (Hsub : forall d, (size (X ∖ {[d]}) <= S (size X))%nat)
    by (intros d; pose proof (subseteq_size (X ∖ {[d]}) X ltac:(set_solver)); lia).
  destruct op as [ok d|d| | | |]; cbn [lst_step]; apply wp_bind.
  - eapply (wp_lst_insert cmp); [exact HX|by apply Hknown|done|..].
    + intros ->. apply wp_ret. exists X. split_and!; try done. lia.
    + intros s' Hd HX' Hdom'. apply wp_ret. exists X. split_and!; try done; congruence || lia.
    + intros s' Hd HX' Hdom'. apply wp_ret. exists ({[d]} ∪ X). split_and!; try done; [congruence|].
      rewrite size_union by set_solver. rewrite size_singleton. lia.
  - destruct Hok as [Hd Htie]. eapply (wp_lst_extract cmp); [exact HX|by apply Hknown|..].
    + intros y Hy Hne. destruct (HX) as (lo & hi & v & n & t & Hfull & _).
      assert (Hy' : is_Some (m !! y)).
      { apply elem_of_dom. rewrite <- Hdom. apply elem_of_dom. by apply Hfull. }
      destruct Hy' as [k Ek]. by eapply Htie.
    + intros HX0. apply wp_ret. exists X. split_and!; try done. lia.
    + intros Hne Hd'. apply wp_ret. exists X. split_and!; try done. lia.
    + intros s' Hd' HX' Hdom'. apply wp_ret. exists (X ∖ {[d]}). split_and!; try done. congruence.
  - eapply (wp_lst_pop cmp); [exact HX|..].
    + intros HX0. apply wp_ret. exists X. split_and!; try done. lia.
    + intros d s' Hd Hmin HX' Hdom'. apply wp_ret. exists (X ∖ {[d]}). split_and!; try done. congruence.
  - eapply (wp_lst_peek cmp); [exact HX|..].
    + intros HX0. apply wp_ret. exists X. split_and!; try done. lia.
    + intros d s' Hd Hmin HX' Hdom'. apply wp_ret. exists X. split_and!; try done; congruence || lia.
  - apply wp_gets, wp_ret. exists X. split_and!; try done; [by apply lst_represents_size in HX|lia].
  - eapply (wp_lst_foreach cmp); [exact HX|]. intros l Hl. apply wp_ret. exists X. split_and!; try done. lia.
Qed.

Lemma lst_run_spec ops : forall s X,
  represents cmp s X -> dom (fields s) = dom m -> Forall (op_ok cmp m) ops ->
  lnum s + Z.of_nat (length ops) <= 2 ^ 31 ->
  wp (lst_run cmp ops) s (fun rs s' => exists X', queue_run cmp X ops rs X' /\ represents cmp s' X').
Proof.
  induction ops as [|op ops IH]; intros s X HX Hdom Hok Hlen; cbn [lst_run].
  { apply wp_ret. exists X. split; [constructor|done]. }
  apply Forall_cons_1 in Hok as [Hop Hok]. cbn [length] in Hlen. apply wp_bind.
  eapply wp_mono; [apply lst_step_spec; [exact HX|done|lia|done]|].
  intros res s1 (X1 & Hspec & HX1 & Hdom1 & Hsize). apply wp_bind.
  pose proof (lst_represents_size cmp s X HX). pose proof (lst_represents_size cmp s1 X1 HX1).
  eapply wp_mono; [apply (IH s1 X1); [done|done|done|lia]|].
  intros rs s2 (X2 & Hrun & HX2). apply wp_ret. exists X2. split; [by econstructor|done].
Qed.
End Clients.

(** ** Theorems *)

(** C10: a leftmost skeleton tree is a priority queue: whatever a client inserts, extracts, pops
    or looks at, starting from an empty tree of any capacity and with any random numbers, no
    call leaves the array or the pivot stack, reads a cell that was not written or loops
    forever, and every result is the one of a set of objects ordered by the callback (pop and
    peek return a first object, and NULL exactly when the set is empty; inserting twice and
    extracting an absent object are refused; iteration visits every object once); the tree passes its
    consistency check afterwards.  An object may only be extracted when no other object compares equal to it; a refused growth of the
    array only refuses the insertion. *)
Theorem lst_refines_queue (cmp : Z -> Z -> Z) `{!MinmaxCmp cmp} a b init m s ops :
  fr_lst_alloc true true true a b init m = Some (Some s) -> 0 <= init <= 2 ^ 31 ->
  map_Forall (fun _ k => k = 0) m -> Forall (op_ok cmp m) ops ->
  Z.of_nat (length ops) <= 2 ^ 31 ->
  exists rs s' X, lst_run cmp ops s = Some (rs, s') /\ queue_run cmp ∅ ops rs X /\
    fr_lst_verify cmp s' = Some (true, s').
Proof.
  intros Ha Hinit Hm Hok Hlen.
  destruct (lst_alloc_represents cmp a b init m s Ha Hinit Hm) as [Hrep Hf].
  pose proof (lst_represents_size cmp s ∅ Hrep) as Hs. rewrite size_empty in Hs.
  destruct (lst_run_spec cmp m ops s ∅ Hrep) as (rs & s' & E & X & Hrun & Hrep'); [by rewrite Hf|done|lia|].
  exists rs, s', X. split_and!; try done.
  by destruct (lst_verify_passes cmp s' X Hrep') as (? & ? & -> & -> & ->).
Qed.

(** Objects 1, 2, ... compared by their number, or all alike. *)
Definition lst_objects : gmap Z Z := list_to_map ((fun n => (Z.of_nat n, 0)) <$> seq 1 8).

Definition lst_example : list lst_op :=
  [OpInsert true 5; OpInsert true 2; OpInsert false 7; OpInsert true 7; OpInsert true 3; OpPeek;
   OpInsert true 2; OpExtract 5; OpExtract 6; OpPop; OpPop; OpNum; OpForeach; OpPop; OpPop].

Lemma lst_refines_queue_witness :
  exists s rs s' X, fr_lst_alloc true true true 17 4 2 lst_objects = Some (Some s) /\
    lst_run example_cmp lst_example s = Some (rs, s') /\ queue_run example_cmp ∅ lst_example rs X.
Proof.
  destruct (fr_lst_alloc true true true 17 4 2 lst_objects) as [[s|]|] eqn:E;
    [|by vm_compute in E..].
  destruct (lst_refines_queue example_cmp 17 4 2 lst_objects s lst_example E) as (rs & s' & X & Hr & Hq & _).
  - lia.
  - apply (bool_decide_unpack _). vm_compute. exact I.
  - apply (bool_decide_unpack _). vm_compute. exact I.
  - simpl. lia.
  - exists s, rs, s', X. split_and!; done.
Defined.

Example lst_example_run :
  (s ← mjoin (fr_lst_alloc true true true 17 4 2 lst_objects);
   '(rs, _) ← lst_run example_cmp lst_example s; Some rs) =
  Some [ResStatus (inr ()); ResStatus (inr ()); ResStatus (inl LstRealloc); ResStatus (inr ());
        ResStatus (inr ()); ResPtr (Some 2); ResStatus (inl LstInserted); ResStatus (inr ());
        ResStatus (inl LstNotIn); ResPtr (Some 2); ResPtr (Some 3); ResNum 1; ResList [7];
        ResPtr (Some 7); ResPtr None].
Proof. vm_compute. reflexivity. Qed.

(** Objects that tie: [_fr_lst_extract] takes an object that compares equal to a pivot for the
    pivot.  Of four objects that all compare equal, two are popped and one of the other two
    is extracted; the tree then holds an object that was popped, and the one that should
    have stayed is lost although its field says that it is inserted. *)
Example lst_extract_tie_corrupts :
  exists s s', fr_lst_alloc true true true 17 4 4 lst_objects = Some (Some s) /\
    lst_run (fun _ _ => 0) [OpInsert true 1; OpInsert true 2; OpInsert true 3; OpInsert true 4;
       OpPop; OpPop; OpForeach; OpExtract 2; OpForeach] s =
      Some ([ResStatus (inr ()); ResStatus (inr ()); ResStatus (inr ()); ResStatus (inr ());
             ResPtr (Some 4); ResPtr (Some 3); ResList [1; 2]; ResStatus (inr ()); ResList [3]], s') /\
    fields s' !! 1 = Some 2.
Proof.
  destruct (fr_lst_alloc true true true 17 4 4 lst_objects) as [[s|]|] eqn:E; [|by vm_compute in E..].
  vm_compute in E. injection E as <-. eexists _, _. split; [done|]. split; [vm_compute; reflexivity|].
  vm_compute. reflexivity.
Qed.

(** [partition] does not look whether the pivot stack could grow: when it cannot, the next
    access is past the end of the stack. *)
Example lst_stack_overrun :
  (s ← mjoin (fr_lst_alloc true true true 17 4 1 lst_objects);
   '(_, s) ← fr_lst_insert example_cmp true 1 s; fr_lst_pop example_cmp false s) = None.
Proof. vm_compute. reflexivity. Qed.

(** A full tree of 2^31 objects grows to the capacity [UINT_MAX], no power of two: the
    reduction of positions then gives two of them the same place. *)
Example lst_capacity_collision : index_reduce UINT_MAX 1 = index_reduce UINT_MAX 0.
Proof. reflexivity. Qed.
