(* ===== verification/HashTable.v ===== *)
(** * Hash tables: [lib/util/hash.c]

    A split-ordered hash table: each chain is sorted by the bit-reversed key, so that a
    bucket that has not been used since the table grew can be cut out of its parent's
    chain when it is needed.  The chains are lists, [None] is an uninitialised bucket and
    the sentinel [&ht->null] is the end of a list; pointers to objects are integers, [NULL]
    is 0.  The hash and comparison callbacks are parameters.  The outer [None] of an
    operation is an access outside an array, a [NULL] chain, or the fuel of the recursion
    in [fr_hash_table_fixup] running out. *)
From stdpp Require Import sorting.
From S2P Require Import Prelude Bytes.

Definition FR_HASH_NUM_BUCKETS : Z := 64.
Definition GROW_FACTOR : Z := 2.

Record fr_hash_entry_t := Entry { he_reversed : Z; he_key : Z; he_data : Z }.
#[global] Instance hash_entry_eq_dec : EqDecision fr_hash_entry_t.
Proof. solve_decision. Defined.
Abbreviation chain := (list fr_hash_entry_t).

Record fr_hash_table_t := HT {
  ht_num_elements : Z;
  ht_num_buckets : Z;
  ht_next_grow : Z;
  ht_mask : Z;
  ht_buckets : list (option chain)
}.

Definition reversed_byte : list Z := [
   0; 128; 64; 192; 32; 160; 96; 224; 16; 144; 80; 208; 48; 176; 112; 240;
   8; 136; 72; 200; 40; 168; 104; 232; 24; 152; 88; 216; 56; 184; 120; 248;
   4; 132; 68; 196; 36; 164; 100; 228; 20; 148; 84; 212; 52; 180; 116; 244;
   12; 140; 76; 204; 44; 172; 108; 236; 28; 156; 92; 220; 60; 188; 124; 252;
   2; 130; 66; 194; 34; 162; 98; 226; 18; 146; 82; 210; 50; 178; 114; 242;
   10; 138; 74; 202; 42; 170; 106; 234; 26; 154; 90; 218; 58; 186; 122; 250;
   6; 134; 70; 198; 38; 166; 102; 230; 22; 150; 86; 214; 54; 182; 118; 246;
   14; 142; 78; 206; 46; 174; 110; 238; 30; 158; 94; 222; 62; 190; 126; 254;
   1; 129; 65; 193; 33; 161; 97; 225; 17; 145; 81; 209; 49; 177; 113; 241;
   9; 137; 73; 201; 41; 169; 105; 233; 25; 153; 89; 217; 57; 185; 121; 249;
   5; 133; 69; 197; 37; 165; 101; 229; 21; 149; 85; 213; 53; 181; 117; 245;
   13; 141; 77; 205; 45; 173; 109; 237; 29; 157; 93; 221; 61; 189; 125; 253;
   3; 131; 67; 195; 35; 163; 99; 227; 19; 147; 83; 211; 51; 179; 115; 243;
   11; 139; 75; 203; 43; 171; 107; 235; 27; 155; 91; 219; 59; 187; 123; 251;
   7; 135; 71; 199; 39; 167; 103; 231; 23; 151; 87; 215; 55; 183; 119; 247;
   15; 143; 79; 207; 47; 175; 111; 239; 31; 159; 95; 223; 63; 191; 127; 255].

Definition parent_byte : list Z := [
   0; 0; 0; 1; 0; 1; 2; 3; 0; 1; 2; 3; 4; 5; 6; 7;
   0; 1; 2; 3; 4; 5; 6; 7; 8; 9; 10; 11; 12; 13; 14; 15;
   0; 1; 2; 3; 4; 5; 6; 7; 8; 9; 10; 11; 12; 13; 14; 15;
   16; 17; 18; 19; 20; 21; 22; 23; 24; 25; 26; 27; 28; 29; 30; 31;
   0; 1; 2; 3; 4; 5; 6; 7; 8; 9; 10; 11; 12; 13; 14; 15;
   16; 17; 18; 19; 20; 21; 22; 23; 24; 25; 26; 27; 28; 29; 30; 31;
   32; 33; 34; 35; 36; 37; 38; 39; 40; 41; 42; 43; 44; 45; 46; 47;
   48; 49; 50; 51; 52; 53; 54; 55; 56; 57; 58; 59; 60; 61; 62; 63;
   0; 1; 2; 3; 4; 5; 6; 7; 8; 9; 10; 11; 12; 13; 14; 15;
   16; 17; 18; 19; 20; 21; 22; 23; 24; 25; 26; 27; 28; 29; 30; 31;
   32; 33; 34; 35; 36; 37; 38; 39; 40; 41; 42; 43; 44; 45; 46; 47;
   48; 49; 50; 51; 52; 53; 54; 55; 56; 57; 58; 59; 60; 61; 62; 63;
   64; 65; 66; 67; 68; 69; 70; 71; 72; 73; 74; 75; 76; 77; 78; 79;
   80; 81; 82; 83; 84; 85; 86; 87; 88; 89; 90; 91; 92; 93; 94; 95;
   96; 97; 98; 99; 100; 101; 102; 103; 104; 105; 106; 107; 108; 109; 110; 111;
   112; 113; 114; 115; 116; 117; 118; 119; 120; 121; 122; 123; 124; 125; 126; 127].

Definition reverse (key : Z) : Z :=
  let byte i := reversed_byte !!! Z.to_nat (Z.land (Z.shiftr key i) 0xff) in
  Z.lor (Z.lor (Z.lor (Z.shiftl (byte 0) 24) (Z.shiftl (byte 8) 16)) (Z.shiftl (byte 16) 8)) (byte 24).

Definition parent_of (key : Z) : Z :=
  let top s := Z.shiftl (parent_byte !!! Z.to_nat (Z.shiftr key s)) s in
  if decide (key > 0x00ffffff) then Z.lor (Z.land key 0x00ffffff) (top 24)
  else if decide (key > 0x0000ffff) then Z.lor (Z.land key 0x0000ffff) (top 16)
  else if decide (key > 0x000000ff) then Z.lor (Z.land key 0x000000ff) (top 8)
  else top 0.

(** [ht->buckets[i]] and its assignment. *)
Definition bucket (bs : list (option chain)) (i : Z) : option (option chain) := bs !! Z.to_nat i.
Definition set_bucket (bs : list (option chain)) (i : Z) (l : chain) : option (list (option chain)) :=
  if decide (Z.to_nat i < length bs)%nat then Some (<[Z.to_nat i := Some l]> bs) else None.

(** The walk of [fr_hash_table_fixup]: [acc] is the part of the chain that belongs to
    bucket [this], last entry first. *)
Fixpoint fixup_loop (mask : Z) (cur : chain) (this : Z) (acc : chain) (bs : list (option chain))
    : option (list (option chain)) :=
  match cur with
  | [] => set_bucket bs this (rev acc)
  | e :: cur' =>
      let real_entry := Z.land (he_key e) mask in
      if decide (real_entry <> this) then
        bs ← set_bucket bs this (rev acc);
        fixup_loop mask cur' real_entry [e] bs
      else fixup_loop mask cur' this (e :: acc) bs
  end.

Fixpoint fr_hash_table_fixup (fuel : nat) (mask : Z) (bs : list (option chain)) (entry : Z)
    : option (list (option chain)) :=
  match fuel with
  | O => None
  | S fuel' =>
      let parent_entry := parent_of entry in
      b ← bucket bs parent_entry;
      bs ← (match b with
            | None => fr_hash_table_fixup fuel' mask bs parent_entry
            | Some _ => Some bs
            end);
      l ← bucket bs parent_entry;
      l ← l;
      bs ← fixup_loop mask l parent_entry [] bs;
      b ← bucket bs entry;
      match b with
      | None => set_bucket bs entry []
      | Some _ => Some bs
      end
  end.

(** [if (!ht->buckets[entry]) fr_hash_table_fixup(ht, entry)]; an index has at most 32
    bits to discard. *)
Definition ensure_bucket (ht : fr_hash_table_t) (entry : Z) : option fr_hash_table_t :=
  b ← bucket (ht_buckets ht) entry;
  match b with
  | Some _ => Some ht
  | None =>
      bs ← fr_hash_table_fixup 33 (ht_mask ht) (ht_buckets ht) entry;
      Some (HT (ht_num_elements ht) (ht_num_buckets ht) (ht_next_grow ht) (ht_mask ht) bs)
  end.

Definition get_chain (ht : fr_hash_table_t) (entry : Z) : option chain :=
  b ← bucket (ht_buckets ht) entry; b.

Definition set_chain (ht : fr_hash_table_t) (entry : Z) (l : chain) : option fr_hash_table_t :=
  bs ← set_bucket (ht_buckets ht) entry l;
  Some (HT (ht_num_elements ht) (ht_num_buckets ht) (ht_next_grow ht) (ht_mask ht) bs).

(** [_fr_hash_table_alloc]; [None] when an allocation fails is left to the caller. *)
Definition fr_hash_table_alloc : fr_hash_table_t :=
  HT 0 FR_HASH_NUM_BUCKETS
     (Z.shiftl FR_HASH_NUM_BUCKETS 1 + Z.shiftr FR_HASH_NUM_BUCKETS 1)
     (FR_HASH_NUM_BUCKETS - 1)
     (Some [] :: replicate (Z.to_nat FR_HASH_NUM_BUCKETS - 1) None).

(** [realloc] tells whether the larger array could be allocated. *)
Definition fr_hash_table_grow (realloc : bool) (ht : fr_hash_table_t) : fr_hash_table_t :=
  if realloc then
    let n := u32 (GROW_FACTOR * ht_num_buckets ht) in
    HT (ht_num_elements ht) n (u32 (ht_next_grow ht * GROW_FACTOR)) (u32 (n - 1))
       (ht_buckets ht ++
        replicate (Z.to_nat (GROW_FACTOR * ht_num_buckets ht) - length (ht_buckets ht)) None)
  else ht.

Section HashTable.
Variable hash : Z -> Z.
Variable cmp : option (Z -> Z -> Z).

(** The position of the entry found. *)
Fixpoint list_find (head : chain) (reversed data : Z) : option nat :=
  match head with
  | [] => None
  | cur :: next =>
      if decide (he_reversed cur = reversed) then
        match cmp with
        | None => Some 0%nat
        | Some f =>
            let c := f data (he_data cur) in
            if decide (c > 0) then None
            else if decide (c < 0) then S <$> list_find next reversed data
            else Some 0%nat
        end
      else if decide (he_reversed cur > reversed) then None
      else S <$> list_find next reversed data
  end.

(** [last] is moved behind [cur] before the comparison. *)
Fixpoint list_insert (head : chain) (node : fr_hash_entry_t) : option chain :=
  match head with
  | [] => Some [node]
  | cur :: next =>
      if decide (he_reversed cur > he_reversed node) then Some (node :: head)
      else if decide (he_reversed cur = he_reversed node) then
        match cmp with
        | None => None
        | Some f =>
            let c := f (he_data node) (he_data cur) in
            if decide (c > 0) then Some (cur :: node :: next)
            else if decide (c < 0) then cons cur <$> list_insert next node
            else None
        end
      else cons cur <$> list_insert next node
  end.

(** [list_delete] of the entry [list_find] returned. *)
Definition list_delete (head : chain) (node : nat) : chain := delete node head.

Definition hash_table_find (ht : fr_hash_table_t) (key data : Z)
    : option (option (Z * nat) * fr_hash_table_t) :=
  let entry := Z.land key (ht_mask ht) in
  ht ← ensure_bucket ht entry;
  l ← get_chain ht entry;
  Some (match list_find l (reverse key) data with
        | Some i => Some (entry, i)
        | None => None
        end, ht).

(** The data of a node that was found, or [NULL]. *)
Definition node_data (ht : fr_hash_table_t) (node : option (Z * nat)) : option Z :=
  match node with
  | None => Some 0
  | Some (entry, i) => l ← get_chain ht entry; e ← l !! i; Some (he_data e)
  end.

Definition fr_hash_table_find_by_key (ht : fr_hash_table_t) (key data : Z)
    : option (Z * fr_hash_table_t) :=
  '(node, ht) ← hash_table_find ht key data;
  d ← node_data ht node;
  Some (d, ht).

Definition fr_hash_table_find (ht : fr_hash_table_t) (data : Z) : option (Z * fr_hash_table_t) :=
  fr_hash_table_find_by_key ht (hash data) data.

(** [node_ok] and [realloc] tell whether the allocations succeed. *)
Definition fr_hash_table_insert (node_ok realloc : bool) (ht : fr_hash_table_t) (data : Z)
    : option (bool * fr_hash_table_t) :=
  let key := hash data in
  let entry := Z.land key (ht_mask ht) in
  ht ← ensure_bucket ht entry;
  if negb node_ok then Some (false, ht) else
  l ← get_chain ht entry;
  match list_insert l (Entry (reverse key) key data) with
  | None => Some (false, ht)
  | Some l =>
      ht ← set_chain ht entry l;
      let n := u32 (ht_num_elements ht + 1) in
      let ht := HT n (ht_num_buckets ht) (ht_next_grow ht) (ht_mask ht) (ht_buckets ht) in
      Some (true, if decide (n >= ht_next_grow ht) then fr_hash_table_grow realloc ht else ht)
  end.

(** [old] tells whether the caller asked for the old data, [frees] whether the table has a
    free function; the result holds the data handed back and the data freed. *)
Definition fr_hash_table_replace (node_ok realloc old frees : bool) (ht : fr_hash_table_t) (data : Z)
    : option (Z * option Z * list Z * fr_hash_table_t) :=
  '(node, ht) ← hash_table_find ht (hash data) data;
  match node with
  | None =>
      '(ok, ht) ← fr_hash_table_insert node_ok realloc ht data;
      Some (if (ok : bool) then 1 else -1, if old then Some 0 else None, [], ht)
  | Some (entry, i) =>
      l ← get_chain ht entry;
      e ← l !! i;
      ht ← set_chain ht entry (<[i := Entry (he_reversed e) (he_key e) data]> l);
      Some (0, if old then Some (he_data e) else None,
            if old then [] else if frees then [he_data e] else [], ht)
  end.

Definition fr_hash_table_remove (ht : fr_hash_table_t) (data : Z) : option (Z * fr_hash_table_t) :=
  let key := hash data in
  let entry := Z.land key (ht_mask ht) in
  ht ← ensure_bucket ht entry;
  l ← get_chain ht entry;
  match list_find l (reverse key) data with
  | None => Some (0, ht)
  | Some i =>
      e ← l !! i;
      ht ← set_chain ht entry (list_delete l i);
      Some (he_data e, HT (u32 (ht_num_elements ht - 1)) (ht_num_buckets ht) (ht_next_grow ht)
                          (ht_mask ht) (ht_buckets ht))
  end.

Definition fr_hash_table_delete (frees : bool) (ht : fr_hash_table_t) (data : Z)
    : option (bool * list Z * fr_hash_table_t) :=
  '(old, ht) ← fr_hash_table_remove ht data;
  if decide (old = 0) then Some (false, [], ht)
  else Some (true, if frees then [old] else [], ht).
End HashTable.

(** The calls of [ht->free] when the table is freed: every bucket that was initialised,
    first to last. *)
Definition _fr_hash_table_free (frees : bool) (ht : fr_hash_table_t) : option (list Z) :=
  if frees then
    bs ← mapM (bucket (ht_buckets ht)) (seqZ 0 (ht_num_buckets ht));
    Some (bs ≫= fun b => match b with
                         | None => []
                         | Some l => filter (fun d => d <> 0) (he_data <$> l)
                         end)
  else Some [].

Definition fr_hash_table_num_elements (ht : fr_hash_table_t) : Z := ht_num_elements ht.

(** ** Iteration *)

(** [iter->node] is the rest of the chain being read. *)
Record fr_hash_iter_t := Iter { iter_bucket : Z; iter_node : chain }.

(** The search for the next bucket that holds something, from [i] down. *)
Fixpoint iter_search (i : nat) (ht : fr_hash_table_t)
    : option (Z * fr_hash_iter_t * fr_hash_table_t) :=
  ht ← ensure_bucket ht (Z.of_nat i);
  l ← get_chain ht (Z.of_nat i);
  match l with
  | [] => match i with
          | O => Some (0, Iter 0 [], ht)
          | S i' => iter_search i' ht
          end
  | e :: l' => Some (he_data e, Iter (Z.of_nat i) l', ht)
  end.

Definition fr_hash_table_iter_next (ht : fr_hash_table_t) (iter : fr_hash_iter_t)
    : option (Z * fr_hash_iter_t * fr_hash_table_t) :=
  match iter_node iter with
  | e :: l => Some (he_data e, Iter (iter_bucket iter) l, ht)
  | [] =>
      if decide (iter_bucket iter = 0) then Some (0, iter, ht)
      else iter_search (Z.to_nat (iter_bucket iter - 1)) ht
  end.

Definition fr_hash_table_iter_init (ht : fr_hash_table_t)
    : option (Z * fr_hash_iter_t * fr_hash_table_t) :=
  fr_hash_table_iter_next ht (Iter (ht_num_buckets ht) []).

(** [list[i] = item] for every item; [room] entries of the array are left. *)
Fixpoint flatten_loop (fuel : nat) (item : Z) (iter : fr_hash_iter_t) (room : nat) (ht : fr_hash_table_t)
    : option (list Z * fr_hash_table_t) :=
  match fuel with
  | O => None
  | S fuel' =>
      if decide (item = 0) then Some ([], ht) else
      match room with
      | O => None
      | S room' =>
          '(next, iter, ht) ← fr_hash_table_iter_next ht iter;
          '(l, ht) ← flatten_loop fuel' next iter room' ht;
          Some (item :: l, ht)
      end
  end.

Definition fr_hash_table_flatten (ht : fr_hash_table_t) : option (list Z * fr_hash_table_t) :=
  let num := Z.to_nat (fr_hash_table_num_elements ht) in
  '(item, iter, ht) ← fr_hash_table_iter_init ht;
  flatten_loop (S num) item iter num ht.

(** [fr_hash_table_fill], from bucket [n - 1] down. *)
Fixpoint fill_loop (n : nat) (ht : fr_hash_table_t) : option fr_hash_table_t :=
  match n with
  | O => Some ht
  | S n' => ht ← ensure_bucket ht (Z.of_nat n'); fill_loop n' ht
  end.
Definition fr_hash_table_fill (ht : fr_hash_table_t) : option fr_hash_table_t :=
  fill_loop (Z.to_nat (ht_num_buckets ht)) ht.

(** ** Hash functions *)

Definition FNV_MAGIC_INIT : Z := 0x811c9dc5.
Definition FNV_MAGIC_PRIME : Z := 0x01000193.

Definition fr_hash (data : list Z) : Z :=
  foldl (fun h b => u32 (Z.lxor h b * FNV_MAGIC_PRIME)) FNV_MAGIC_INIT data.
Definition fr_hash_update (data : list Z) (h : Z) : Z :=
  foldl (fun h b => Z.lxor (u32 (h * FNV_MAGIC_PRIME)) b) h data.

(** A [char] converted to [uint32_t]; [char] is signed on the targets of the server. *)
Definition char32 (c : Z) : Z := u32 (if decide (c < 128) then c else c - 256).
Definition tolower (c : Z) : Z := if decide (65 <= c <= 90) then c + 32 else c.

Fixpoint hash_string_loop (fold : Z -> Z) (p : list Z) (h : Z) : option Z :=
  match p with
  | [] => None
  | c :: p =>
      if decide (c = 0) then Some h
      else hash_string_loop fold p (Z.lxor (u32 (h * FNV_MAGIC_PRIME)) (char32 (fold c)))
  end.
(** [None] is a string without its terminator. *)
Definition fr_hash_string (p : list Z) : option Z := hash_string_loop id p FNV_MAGIC_INIT.
Definition fr_hash_case_string (p : list Z) : option Z := hash_string_loop tolower p FNV_MAGIC_INIT.

(** ** Bit reversal *)

Lemma reversed_byte_ok b i :
  0 <= b < 256 -> 0 <= reversed_byte !!! Z.to_nat b < 2 ^ 8 /\
  (0 <= i < 8 -> Z.testbit (reversed_byte !!! Z.to_nat b) i = Z.testbit b (7 - i)).
Proof.
  assert (H : forallb (fun n =>
    let r := reversed_byte !!! n in
    ((0 <=? r) && (r <? 256) &&
     forallb (fun i => Bool.eqb (Z.testbit r (Z.of_nat i)) (Z.testbit (Z.of_nat n) (7 - Z.of_nat i)))
       (seq 0 8))%bool) (seq 0 256) = true) by by vm_compute.
  rewrite forallb_forall in H. intros Hb.
  specialize (H (Z.to_nat b)). rewrite in_seq in H. specialize (H ltac:(lia)). cbv zeta in H.
  rewrite !andb_true_iff, forallb_forall in H. destruct H as [[H1 H2] H3]. split; [lia|].
  intros Hi. specialize (H3 (Z.to_nat i)). rewrite in_seq in H3. specialize (H3 ltac:(lia)).
  apply Bool.eqb_prop in H3. by rewrite !Z2Nat.id in H3 by lia.
Qed.

Lemma byte_of_key key s : 0 <= s -> 0 <= Z.land (Z.shiftr key s) 0xff < 256.
Proof. intros Hs. change 0xff with (Z.ones 8). rewrite Z.land_ones by lia. apply Z.mod_pos_bound. lia. Qed.

(** Bit [i] of one of the four table lookups. *)
Lemma reverse_byte_bit key s i :
  0 <= s -> Z.testbit (reversed_byte !!! Z.to_nat (Z.land (Z.shiftr key s) 0xff)) i =
    (bool_decide (0 <= i < 8) && Z.testbit key (s + 7 - i))%bool.
Proof.
  intros Hs. pose proof (byte_of_key key s Hs) as Hb.
  destruct (reversed_byte_ok _ i Hb) as [Hr Ht]. case_bool_decide as Hi; cbn [andb].
  - rewrite Ht by done. change 0xff with (Z.ones 8).
    rewrite Z.land_spec, Z.testbit_ones_nonneg, Z.shiftr_spec by lia.
    replace (7 - i <? 8) with true by lia. rewrite andb_true_r. f_equal. lia.
  - destruct (decide (i < 0)); [by apply Z.testbit_neg_r|]. apply (testbit_high 8); lia.
Qed.

Lemma reverse_testbit key i :
  0 <= key < 2 ^ 32 -> Z.testbit (reverse key) i = (bool_decide (0 <= i < 32) && Z.testbit key (31 - i))%bool.
Proof.
  intros Hk. destruct (decide (i < 0)) as [Hi|Hi].
  { rewrite Z.testbit_neg_r by lia. by rewrite bool_decide_eq_false_2 by lia. }
  unfold reverse. rewrite !Z.lor_spec, !Z.shiftl_spec by lia.
  rewrite !reverse_byte_bit by lia.
  replace (0 + 7 - (i - 24)) with (31 - i) by lia. replace (8 + 7 - (i - 16)) with (31 - i) by lia.
  replace (16 + 7 - (i - 8)) with (31 - i) by lia. replace (24 + 7 - i) with (31 - i) by lia.
  destruct (Z.testbit key (31 - i)); rewrite ?andb_true_r, ?andb_false_r; [|done].
  destruct (bool_decide_reflect (0 <= i - 24 < 8)), (bool_decide_reflect (0 <= i - 16 < 8)),
    (bool_decide_reflect (0 <= i - 8 < 8)), (bool_decide_reflect (0 <= i < 8)),
    (bool_decide_reflect (0 <= i < 32)); try done; lia.
Qed.

Lemma reverse_range key : 0 <= key < 2 ^ 32 -> 0 <= reverse key < 2 ^ 32.
Proof.
  intros Hk. apply range_of_bits; [lia| |].
  - unfold reverse. rewrite !Z.lor_nonneg, !Z.shiftl_nonneg.
    pose proof (fun s Hs => proj1 (reversed_byte_ok _ 0 (byte_of_key key s Hs))) as H.
    pose proof (H 0 ltac:(lia)). pose proof (H 8 ltac:(lia)). pose proof (H 16 ltac:(lia)).
    pose proof (H 24 ltac:(lia)). lia.
  - intros i Hi. rewrite reverse_testbit by done. by rewrite bool_decide_eq_false_2 by lia.
Qed.

(** The top [n] bits of the reversed key are the low [n] bits of the key. *)
Lemma reverse_top n k k' :
  0 <= n <= 32 -> 0 <= k < 2 ^ 32 -> 0 <= k' < 2 ^ 32 ->
  reverse k / 2 ^ (32 - n) = reverse k' / 2 ^ (32 - n) <-> k mod 2 ^ n = k' mod 2 ^ n.
Proof.
  intros Hn Hk Hk'. rewrite <- !Z.shiftr_div_pow2 by lia. split; intros E.
  - apply Z.bits_inj'. intros i Hi. destruct (decide (i < n)) as [Hin|Hin].
    + rewrite !Z.mod_pow2_bits_low by lia.
      apply (f_equal (fun z => Z.testbit z (n - 1 - i))) in E.
      rewrite !Z.shiftr_spec, !reverse_testbit in E by lia.
      rewrite bool_decide_eq_true_2 in E by lia. cbn [andb] in E.
      by replace (31 - (n - 1 - i + (32 - n))) with i in E by lia.
    + by rewrite !Z.mod_pow2_bits_high by lia.
  - apply Z.bits_inj'. intros i Hi. rewrite !Z.shiftr_spec, !reverse_testbit by lia.
    destruct (decide (i < n)) as [Hin|Hin].
    + f_equal. apply (f_equal (fun z => Z.testbit z (31 - (i + (32 - n))))) in E.
      by rewrite !Z.mod_pow2_bits_low in E by lia.
    + by rewrite bool_decide_eq_false_2 by lia.
Qed.

Lemma reverse_inj k k' : 0 <= k < 2 ^ 32 -> 0 <= k' < 2 ^ 32 -> reverse k = reverse k' -> k = k'.
Proof.
  intros Hk Hk' E. rewrite <- (Z.mod_small k (2 ^ 32)), <- (Z.mod_small k' (2 ^ 32)) by done.
  apply (reverse_top 32); [lia|done..|by rewrite E].
Qed.

(** Keys between two keys of a bucket belong to the bucket. *)
Lemma reverse_between n k1 k2 k3 :
  0 <= n <= 32 -> 0 <= k1 < 2 ^ 32 -> 0 <= k2 < 2 ^ 32 -> 0 <= k3 < 2 ^ 32 ->
  reverse k1 <= reverse k2 <= reverse k3 -> k1 mod 2 ^ n = k3 mod 2 ^ n ->
  k2 mod 2 ^ n = k1 mod 2 ^ n.
Proof.
  intros Hn H1 H2 H3 [Ha Hb] E. apply (reverse_top n) in E; [|done..].
  apply (reverse_top n); [done..|].
  assert (0 < 2 ^ (32 - n)) by (apply Z.pow_pos_nonneg; lia).
  apply (Z.div_le_mono _ _ (2 ^ (32 - n))) in Ha; [|done].
  apply (Z.div_le_mono _ _ (2 ^ (32 - n))) in Hb; [|done]. lia.
Qed.

(** ** The parent of a bucket *)

Lemma parent_byte_ok b :
  0 < b < 256 -> parent_byte !!! Z.to_nat b = b - 2 ^ Z.log2 b.
Proof.
  assert (H : forallb (fun n => parent_byte !!! n =? Z.of_nat n - 2 ^ Z.log2 (Z.of_nat n)) (seq 1 255) = true)
    by by vm_compute.
  rewrite forallb_forall in H. intros Hb. specialize (H (Z.to_nat b)). rewrite in_seq in H.
  specialize (H ltac:(lia)). rewrite Z2Nat.id in H by lia. lia.
Qed.

(** One branch of [parent_of]: the highest set bit is in the byte at [s]. *)
Lemma parent_branch key s :
  0 <= s -> 2 ^ s <= key < 2 ^ (s + 8) ->
  Z.lor (Z.land key (2 ^ s - 1)) (Z.shiftl (parent_byte !!! Z.to_nat (Z.shiftr key s)) s) =
    key - 2 ^ Z.log2 key.
Proof.
  intros Hs Hk. assert (Hp : 0 < 2 ^ s) by (apply Z.pow_pos_nonneg; lia).
  assert (Hb : 0 < key / 2 ^ s < 256).
  { split; [apply Z.div_str_pos; lia|]. apply Z.div_lt_upper_bound; [done|].
    change 256 with (2 ^ 8). rewrite <- Z.pow_add_r by lia. lia. }
  replace (2 ^ s - 1) with (Z.ones s) by (rewrite Z.ones_equiv; lia).
  rewrite Z.land_ones, Z.shiftr_div_pow2, parent_byte_ok, Z.lor_comm by done.
  rewrite lor_shiftl_add by (try apply Z.mod_pos_bound; done).
  assert (Hl : Z.log2 key = Z.log2 (key / 2 ^ s) + s).
  { rewrite <- Z.shiftr_div_pow2, Z.log2_shiftr by lia. rewrite Z.max_r; [lia|].
    assert (s <= Z.log2 key) by (apply Z.log2_le_pow2; lia). lia. }
  rewrite Hl, Z.pow_add_r by (try apply Z.log2_nonneg; lia).
  pose proof (Z.div_mod key (2 ^ s) ltac:(lia)). lia.
Qed.

Lemma parent_of_spec key : 0 < key < 2 ^ 32 -> parent_of key = key mod 2 ^ Z.log2 key.
Proof.
  intros Hk. pose proof (Z.log2_spec key ltac:(lia)) as Hl. rewrite Z.pow_succ_r in Hl by apply Z.log2_nonneg.
  assert (E : key mod 2 ^ Z.log2 key = key - 2 ^ Z.log2 key).
  { replace key with (key - 2 ^ Z.log2 key + 1 * 2 ^ Z.log2 key) at 1 by lia.
    rewrite Z.mod_add by lia. apply Z.mod_small. lia. }
  rewrite E. unfold parent_of. repeat (case_decide; [|]).
  - apply (parent_branch key 24); lia.
  - apply (parent_branch key 16); lia.
  - apply (parent_branch key 8); lia.
  - rewrite Z.shiftr_0_r, Z.shiftl_0_r. apply parent_byte_ok. lia.
Qed.

Lemma parent_of_0 : parent_of 0 = 0.
Proof. by vm_compute. Qed.

Lemma parent_of_lt key : 0 < key < 2 ^ 32 -> 0 <= parent_of key < key.
Proof.
  intros Hk. rewrite parent_of_spec by done. pose proof (Z.log2_spec key ltac:(lia)).
  pose proof (Z.mod_pos_bound key (2 ^ Z.log2 key) ltac:(apply Z.pow_pos_nonneg; [lia|apply Z.log2_nonneg])).
  lia.
Qed.

Lemma pow2_mod_mod a b k : 0 <= a <= b -> (k mod 2 ^ b) mod 2 ^ a = k mod 2 ^ a.
Proof.
  intros Hab. replace b with (a + (b - a)) by lia. rewrite Z.pow_add_r by lia.
  rewrite Z.rem_mul_r by first [apply Z.pow_pos_nonneg; lia | apply Z.pow_nonzero; lia].
  rewrite Z.mul_comm, Z.mod_add by (apply Z.pow_nonzero; lia).
  apply Z.mod_mod. apply Z.pow_nonzero; lia.
Qed.

(** Every proper ancestor is the parent or one of its ancestors. *)
Lemma mod_parent c j :
  0 <= c < 2 ^ 32 -> 0 <= j -> c mod 2 ^ j <> c -> c mod 2 ^ j = parent_of c mod 2 ^ j.
Proof.
  intros Hc Hj Hne. assert (c <> 0) by (intros ->; by rewrite Z.mod_0_l in Hne by (apply Z.pow_nonzero; lia)).
  rewrite parent_of_spec by lia. rewrite pow2_mod_mod; [done|]. split; [done|].
  destruct (decide (j <= Z.log2 c)); [done|]. exfalso. apply Hne, Z.mod_small.
  split; [lia|]. apply Z.log2_lt_pow2; lia.
Qed.

(** ** Cutting a chain into buckets *)

Lemma land_mask n k : 0 <= n -> Z.land k (2 ^ n - 1) = k mod 2 ^ n.
Proof. intros Hn. rewrite <- Z.land_ones by done. by rewrite Z.ones_equiv, Z.sub_1_r. Qed.

(** The bucket of an entry in a table of [2 ^ n] buckets. *)
Definition home (n : Z) (e : fr_hash_entry_t) : Z := he_key e mod 2 ^ n.

Lemma home_range n e : 0 <= n -> 0 <= home n e < 2 ^ n.
Proof. intros Hn. apply Z.mod_pos_bound, Z.pow_pos_nonneg; lia. Qed.

(** No bucket appears, is left, and appears again. *)
Fixpoint grouped (rs : list Z) : Prop :=
  match rs with
  | [] => True
  | r :: rs' => grouped rs' /\ (match rs' with [] => True | r' :: _ => r' = r \/ r ∉ rs' end)
  end.

Definition at_home (n b : Z) (l : chain) : chain := filter (fun e => home n e = b) l.

Lemma at_home_nil n b l : b ∉ (home n <$> l) -> at_home n b l = [].
Proof.
  intros H. induction l as [|e l IH]; [done|]. cbn [fmap list_fmap] in H.
  apply not_elem_of_cons in H as [H1 H2]. unfold at_home. rewrite filter_cons, decide_False by done.
  by apply IH.
Qed.

Lemma set_bucket_lookup bs i l :
  (Z.to_nat i < length bs)%nat -> exists bs', set_bucket bs i l = Some bs' /\
    length bs' = length bs /\
    forall j, bs' !! j = if decide (j = Z.to_nat i) then Some (Some l) else bs !! j.
Proof.
  intros H. unfold set_bucket. rewrite decide_True by done. eexists. split; [done|].
  rewrite length_insert. split; [done|]. intros j. case_decide as Hj.
  - subst j. by apply list_lookup_insert_eq.
  - by apply list_lookup_insert_ne.
Qed.

(** The chain left in each bucket. *)
Lemma fixup_loop_spec n cur this acc bs :
  0 <= n -> length bs = Z.to_nat (2 ^ n) -> 0 <= this < 2 ^ n ->
  grouped (this :: (home n <$> cur)) \/ (acc = [] /\ grouped (home n <$> cur)) ->
  exists bs', fixup_loop (2 ^ n - 1) cur this acc bs = Some bs' /\ length bs' = length bs /\
    forall b, 0 <= b < 2 ^ n -> bs' !! Z.to_nat b =
      if decide (b = this) then Some (Some (rev acc ++ at_home n b cur))
      else if decide (b ∈ (home n <$> cur)) then Some (Some (at_home n b cur))
      else bs !! Z.to_nat b.
Proof.
  intros Hn. revert this acc bs. induction cur as [|e cur IH]; intros this acc bs Hl Ht Hg;
    cbn [fixup_loop fmap list_fmap].
  - destruct (set_bucket_lookup bs this (rev acc)) as (bs' & -> & Hl' & Hj); [lia|].
    exists bs'. split_and!; [done..|]. intros b Hb. rewrite Hj.
    destruct (decide (b = this)) as [->|Hne]; [by rewrite decide_True, app_nil_r|].
    rewrite decide_False by lia. by rewrite decide_False by apply not_elem_of_nil.
  - rewrite land_mask by done. fold (home n e). pose proof (home_range n e Hn) as Hh.
    assert (Hc : forall b, at_home n b (e :: cur) =
      if decide (home n e = b) then e :: at_home n b cur else at_home n b cur).
    { intros b. unfold at_home. by rewrite filter_cons. }
    destruct (decide (home n e <> this)) as [Hne|He].
    + destruct (set_bucket_lookup bs this (rev acc)) as (bs1 & -> & Hl1 & Hj1); [lia|].
      cbn [mbind option_bind]. destruct (IH (home n e) [e] bs1) as (bs' & -> & Hl' & Hb'); [lia|done|..].
      { left. destruct Hg as [[Hg _]|[_ Hg]]; exact Hg. }
      exists bs'. split_and!; [done|lia|]. intros b Hb. rewrite Hb', Hc by done.
      destruct (decide (b = home n e)) as [->|Hbe].
      { rewrite (decide_True (P := home n e = home n e)) by done. rewrite decide_False by done.
        rewrite decide_True by apply list_elem_of_here. done. }
      rewrite (decide_False (P := home n e = b)) by congruence.
      destruct (decide (b = this)) as [->|Hbt].
      * assert (Hth : acc = [] \/ this ∉ (home n <$> cur)).
        { destruct Hg as [[_ [H|H]]|[-> _]]; [done| |by left]. right.
          by apply not_elem_of_cons in H as [_ H]. }
        case_decide as Hin.
        -- destruct Hth as [->|H]; done.
        -- rewrite Hj1, decide_True by done. by rewrite at_home_nil, app_nil_r.
      * rewrite Hj1, (decide_False (P := Z.to_nat b = Z.to_nat this)) by lia.
        destruct (decide (b ∈ home n <$> cur)) as [Hin|Hin].
        -- by rewrite decide_True by (by apply list_elem_of_further).
        -- by rewrite decide_False by (apply not_elem_of_cons; done).
    + assert (home n e = this) as E by (destruct (decide (home n e = this)); [done|by destruct He]).
      destruct (IH this (e :: acc) bs) as (bs' & -> & Hl' & Hb'); [done|done|..].
      { left. rewrite <- E. destruct Hg as [[Hg _]|[_ Hg]]; exact Hg. }
      exists bs'. split_and!; [done|done|]. intros b Hb. rewrite Hb', Hc by done.
      destruct (decide (b = this)) as [->|Hbt].
      * rewrite decide_True by done. cbn [rev]. by rewrite <- app_assoc.
      * rewrite (decide_False (P := home n e = b)) by congruence.
        destruct (decide (b ∈ home n <$> cur)) as [Hin|Hin].
        -- by rewrite decide_True by (by apply list_elem_of_further).
        -- rewrite decide_False; [done|]. apply not_elem_of_cons. split; [congruence|done].
Qed.

(** Chains sorted by the reversed key are grouped by bucket. *)
Definition chain_sorted : chain -> Prop := StronglySorted (fun e e' => he_reversed e < he_reversed e').
Definition entry_ok (hash : Z -> Z) (e : fr_hash_entry_t) : Prop :=
  0 <= he_key e < 2 ^ 32 /\ he_reversed e = reverse (he_key e) /\ he_key e = hash (he_data e) /\
  he_data e <> 0.

Lemma sorted_grouped hash n l :
  0 <= n <= 32 -> chain_sorted l -> Forall (entry_ok hash) l -> grouped (home n <$> l).
Proof.
  intros Hn. induction l as [|e l IH]; intros Hs Ho; [done|]. cbn [fmap list_fmap grouped].
  apply StronglySorted_inv in Hs as [Hs Hlt]. apply list.Forall_cons in Ho as [He Ho].
  split; [by apply IH|]. destruct l as [|e2 l]; [done|]. cbn [fmap list_fmap].
  destruct (decide (home n e2 = home n e)) as [|Hne]; [by left|right].
  intros Hin. change (home n e2 :: (home n <$> l)) with (home n <$> (e2 :: l)) in Hin.
  apply list_elem_of_fmap in Hin as (e3 & E3 & Hin3).
  apply list.Forall_forall with (x := e3) in Hlt as H13; [|done].
  apply list.Forall_cons in Hlt as [H12 _]. pose proof (proj1 (list.Forall_forall _ _) Ho e3 Hin3) as He3.
  apply list.Forall_cons in Ho as [He2 _]. destruct He as (Hk & Er & _), He2 as (Hk2 & Er2 & _), He3 as (Hk3 & Er3 & _).
  apply Hne. unfold home in *. apply (reverse_between n _ _ (he_key e3)); try done.
  rewrite <- Er, <- Er2, <- Er3. split; [lia|].
  apply StronglySorted_inv in Hs as [_ Hs]. apply elem_of_cons in Hin3 as [->|Hin3]; [done|].
  pose proof (proj1 (list.Forall_forall _ _) Hs e3 Hin3). cbn in *. lia.
Qed.

(** ** Owners *)

Definition inited (bs : list (option chain)) (b : Z) : Prop := exists l, bs !! Z.to_nat b = Some (Some l).

(** The initialised bucket that has the chain for key [k]: the longest suffix of its bits. *)
Definition owner_at (bs : list (option chain)) (b k j : Z) : Prop :=
  inited bs b /\ 0 <= j /\ b = k mod 2 ^ j /\
  forall j', j <= j' -> inited bs (k mod 2 ^ j') -> k mod 2 ^ j' = b.
Definition owner (bs : list (option chain)) (b k : Z) : Prop := exists j, owner_at bs b k j.

Lemma owner_det bs b b' k : owner bs b k -> owner bs b' k -> b = b'.
Proof.
  intros [j (Hi & Hj & E & H)] [j' (Hi' & Hj' & E' & H')].
  destruct (decide (j <= j')) as [Hle|Hle].
  - symmetry. rewrite E'. apply H; [done|]. by rewrite <- E'.
  - rewrite E. apply H'; [lia|]. by rewrite <- E.
Qed.

Lemma owner_mod bs b k j j' : owner_at bs b k j -> j <= j' -> owner bs b (k mod 2 ^ j').
Proof.
  intros (Hi & Hj & E & H) Hle. exists j. split_and!; [done|done|by rewrite pow2_mod_mod|].
  intros x Hx Hix. destruct (decide (x <= j')) as [Hxj|Hxj].
  - rewrite pow2_mod_mod in Hix |- * by lia. by apply H.
  - assert (Es : (k mod 2 ^ j') mod 2 ^ x = k mod 2 ^ j').
    { pose proof (Z.mod_pos_bound k (2 ^ j') ltac:(apply Z.pow_pos_nonneg; lia)).
      assert (2 ^ j' < 2 ^ x) by (apply Z.pow_lt_mono_r; lia). apply Z.mod_small. lia. }
    rewrite Es in Hix |- *. by apply H.
Qed.

Lemma mod_small_pow n j k : 0 <= n <= j -> k mod 2 ^ j < 2 ^ n -> k mod 2 ^ j = k mod 2 ^ n.
Proof.
  intros Hn Hk. rewrite <- (pow2_mod_mod n j k) by done. symmetry. apply Z.mod_small.
  split; [|done]. apply Z.mod_pos_bound, Z.pow_pos_nonneg; lia.
Qed.

Section Wf.
Variable hash : Z -> Z.

Record buckets_ok (n : Z) (bs : list (option chain)) : Prop := {
  bo_range : 0 <= n <= 32;
  bo_len : length bs = Z.to_nat (2 ^ n);
  bo_zero : inited bs 0;
  bo_chain : forall b l, 0 <= b < 2 ^ n -> bs !! Z.to_nat b = Some (Some l) ->
    chain_sorted l /\ Forall (entry_ok hash) l /\ Forall (fun e => owner bs b (he_key e)) l
}.

Lemma inited_range n bs b : buckets_ok n bs -> 0 <= b -> inited bs b -> b < 2 ^ n.
Proof.
  intros Hb H0 [l E]. apply lookup_lt_Some in E. rewrite (bo_len n bs Hb) in E. lia.
Qed.

(** In its own bucket an entry is where it belongs. *)
Lemma owner_home n bs k : buckets_ok n bs -> inited bs (k mod 2 ^ n) -> owner bs (k mod 2 ^ n) k.
Proof.
  intros Hb Hi. pose proof (bo_range n bs Hb). exists n. split_and!; [done|lia|done|].
  intros j' Hj' Hi'. apply mod_small_pow; [lia|].
  eapply inited_range; [done| |done]. apply Z.mod_pos_bound, Z.pow_pos_nonneg; lia.
Qed.

(** An entry that sits in an ancestor's chain: its own bucket is not initialised. *)
Lemma chain_home n bs p e :
  buckets_ok n bs -> 0 <= p -> owner bs p (he_key e) -> home n e = p \/
    (~ inited bs (home n e) /\ owner bs p (home n e)).
Proof.
  intros Hb Hp [j Ho]. pose proof Ho as (Hi & Hj & E & H). pose proof (bo_range n bs Hb).
  destruct (decide (home n e = p)) as [|Hne]; [by left|right].
  assert (Hjn : j <= n).
  { destruct (decide (j <= n)); [done|]. exfalso. apply Hne. unfold home. rewrite E. symmetry.
    apply mod_small_pow; [lia|]. rewrite <- E. by eapply inited_range. }
  split; [|by eapply owner_mod]. intros Hi'. apply Hne. by apply (H n).
Qed.

Definition in_table (bs : list (option chain)) (e : fr_hash_entry_t) : Prop :=
  exists b l, 0 <= b /\ bs !! Z.to_nat b = Some (Some l) /\ e ∈ l.

(** ** Initialising a bucket *)

(** One level: the parent's chain is cut, and [entry] gets a chain if none was left for it. *)
Definition cut (n p entry : Z) (bs : list (option chain)) : option (list (option chain)) :=
  l ← bucket bs p;
  l ← l;
  bs ← fixup_loop (2 ^ n - 1) l p [] bs;
  b ← bucket bs entry;
  match b with
  | None => set_bucket bs entry []
  | Some _ => Some bs
  end.

Lemma cut_lookup n p entry bs l :
  buckets_ok n bs -> 0 <= p < 2 ^ n -> 0 <= entry < 2 ^ n -> entry <> p ->
  bs !! Z.to_nat p = Some (Some l) ->
  exists bs', cut n p entry bs = Some bs' /\ length bs' = length bs /\
    forall b, 0 <= b < 2 ^ n -> bs' !! Z.to_nat b =
      if decide (b = p) then Some (Some (at_home n p l))
      else if decide (b ∈ (home n <$> l)) then Some (Some (at_home n b l))
      else if decide (b = entry /\ bs !! Z.to_nat entry = Some None) then Some (Some [])
      else bs !! Z.to_nat b.
Proof.
  intros Hb Hp He Hne El. pose proof (bo_range n bs Hb) as Hn. pose proof (bo_len n bs Hb) as Hlen.
  destruct (bo_chain n bs Hb p l Hp El) as (Hs & Hok & _).
  unfold cut, bucket. rewrite El. cbn [mbind option_bind].
  destruct (fixup_loop_spec n l p [] bs) as (bs1 & -> & Hl1 & H1); [lia|done|done|..].
  { right. split; [done|]. by eapply sorted_grouped. }
  cbn [mbind option_bind].
  destruct (lookup_lt_is_Some_2 bs1 (Z.to_nat entry)) as [b Eb]; [lia|]. rewrite Eb. cbn [mbind option_bind].
  pose proof (H1 entry He) as H1e. rewrite (decide_False (P := entry = p)) in H1e by done.
  destruct b as [lb|].
  - exists bs1. split_and!; [done..|]. intros b Hb'. rewrite H1 by done.
    destruct (decide (b = p)) as [->|]; [done|]. destruct (decide (b ∈ _)); [done|].
    rewrite (decide_False (P := b = entry /\ _)); [done|]. intros [-> H0].
    rewrite decide_False in H1e by done. congruence.
  - destruct (set_bucket_lookup bs1 entry []) as (bs2 & -> & Hl2 & H2); [lia|].
    exists bs2. split_and!; [done|lia|]. intros b Hb'. rewrite H2.
    destruct (decide (b ∈ (home n <$> l))) as [Hin|Hin].
    + assert (b <> entry \/ b = p) as Hbe.
      { left. intros ->. rewrite decide_True in H1e by done. congruence. }
      destruct Hbe as [Hbe| ->].
      * rewrite decide_False by lia. rewrite H1 by done.
        destruct (decide (b = p)) as [->|]; [done|]. by rewrite decide_True.
      * rewrite decide_False by lia. rewrite H1 by done. by rewrite !decide_True.
    + destruct (decide (b = entry)) as [->|Hbe].
      * rewrite decide_True by done. rewrite (decide_False (P := entry = p)) by done.
        rewrite decide_False in H1e by done.
        rewrite (decide_True (P := entry = entry /\ _)); [done|]. split; [done|congruence].
      * rewrite decide_False by lia. rewrite H1 by done.
        destruct (decide (b = p)) as [->|]; [done|]. rewrite !decide_False; [done|by intros []|done].
Qed.

Lemma elem_at_home n b l e : e ∈ at_home n b l <-> home n e = b /\ e ∈ l.
Proof. unfold at_home. by rewrite list_elem_of_filter. Qed.

Lemma at_home_sorted n b l : chain_sorted l -> chain_sorted (at_home n b l).
Proof.
  intros H. induction H as [|e l Hs IH Hlt]; [constructor|]. unfold at_home. rewrite filter_cons.
  case_decide; [|done]. constructor; [done|]. apply list.Forall_forall. intros e' [_ He']%list_elem_of_filter.
  exact (proj1 (list.Forall_forall _ _) Hlt e' He').
Qed.

Lemma at_home_Forall (P : fr_hash_entry_t -> Prop) n b l : Forall P l -> Forall P (at_home n b l).
Proof.
  intros H. apply list.Forall_forall. intros e [_ He]%elem_at_home.
  exact (proj1 (list.Forall_forall _ _) H e He).
Qed.

(** What an initialisation changes: chains are split, nothing is lost, and the chains of
    bucket [entry] and above stay. *)
Record fixed (n entry : Z) (bs bs' : list (option chain)) : Prop := {
  fx_ok : buckets_ok n bs';
  fx_entry : inited bs' entry;
  fx_keep : forall b, 0 <= b -> inited bs b -> inited bs' b;
  fx_frame : forall b, entry <= b -> inited bs b -> bs' !! Z.to_nat b = bs !! Z.to_nat b;
  fx_same : forall e, in_table bs' e <-> in_table bs e
}.

Lemma cut_bounds n p entry bs :
  buckets_ok n bs -> 0 < entry < 2 ^ n -> p = parent_of entry ->
  0 <= n <= 32 /\ entry < 2 ^ 32 /\ 0 <= p < entry.
Proof.
  intros Hb He ->. pose proof (bo_range n bs Hb). assert (2 ^ n <= 2 ^ 32) by (apply Z.pow_le_mono_r; lia).
  pose proof (parent_of_lt entry). lia.
Qed.

Section Cut.
Context (n p entry : Z) (bs bs' : list (option chain)) (l : chain).
Context (Hb : buckets_ok n bs) (He : 0 < entry < 2 ^ n) (Ep : p = parent_of entry).
Context (El : bs !! Z.to_nat p = Some (Some l)) (Hl : length bs' = length bs).
Context (H : forall b, 0 <= b < 2 ^ n -> bs' !! Z.to_nat b =
      if decide (b = p) then Some (Some (at_home n p l))
      else if decide (b ∈ (home n <$> l)) then Some (Some (at_home n b l))
      else if decide (b = entry /\ bs !! Z.to_nat entry = Some None) then Some (Some [])
      else bs !! Z.to_nat b).

Lemma cut_index b : 0 <= b -> inited bs' b -> b < 2 ^ n.
Proof. intros H0 [lb E]. apply lookup_lt_Some in E. rewrite Hl, (bo_len n bs Hb) in E. lia. Qed.

Lemma cut_chain e : e ∈ l -> owner bs p (he_key e).
Proof.
  intros Hin. destruct (cut_bounds n p entry bs Hb He Ep) as (_ & _ & Hp).
  destruct (bo_chain n bs Hb p l ltac:(lia) El) as (_ & _ & Hown).
  exact (proj1 (list.Forall_forall _ _) Hown e Hin).
Qed.

(** A bucket that becomes initialised was served by the parent. *)
Lemma cut_new q : 0 <= q < 2 ^ n -> inited bs' q -> ~ inited bs q -> owner bs p q.
Proof.
  intros Hq [l' El'] Hni. destruct (cut_bounds n p entry bs Hb He Ep) as (Hn & He32 & Hp). rewrite H in El' by done.
  destruct (decide (q = p)) as [->|Hqp]; [by destruct Hni; exists l|].
  destruct (decide (q ∈ home n <$> l)) as [Hin|Hin].
  - apply list_elem_of_fmap in Hin as (e & -> & Hin).
    destruct (chain_home n bs p e) as [?|[_ ?]]; try done; [lia|by apply cut_chain].
  - destruct (decide (q = entry /\ _)) as [[-> H0]|]; [|by destruct Hni; exists l'].
    exists (Z.log2 entry). rewrite Ep, parent_of_spec by lia.
    split_and!; [rewrite <- parent_of_spec, <- Ep by lia; by exists l|apply Z.log2_nonneg|done|].
    intros j' Hj' Hi'. destruct (decide (j' = Z.log2 entry)) as [->|]; [done|]. exfalso. apply Hni.
    rewrite Z.mod_small in Hi'; [done|]. split; [lia|]. apply Z.log2_lt_pow2; lia.
Qed.

Lemma cut_frame b : 0 <= b -> b <> p -> inited bs b -> bs' !! Z.to_nat b = bs !! Z.to_nat b.
Proof.
  intros Hb0 Hbp Hi. destruct (cut_bounds n p entry bs Hb He Ep) as (Hn & _ & Hp).
  pose proof (inited_range n bs b Hb Hb0 Hi). rewrite H, decide_False by lia. rewrite !decide_False; [done| |].
  - intros [-> E0]. destruct Hi as [l0 El0]. congruence.
  - intros (e & -> & Hin)%list_elem_of_fmap.
    destruct (chain_home n bs p e) as [?|[Hni _]]; try done; [lia|by apply cut_chain].
Qed.

Lemma cut_keep b : 0 <= b -> inited bs b -> inited bs' b.
Proof.
  intros Hb0 Hi. destruct (cut_bounds n p entry bs Hb He Ep) as (_ & _ & Hp). pose proof (inited_range n bs b Hb Hb0 Hi).
  destruct (decide (b = p)) as [->|Hbp]; [eexists; rewrite H, decide_True by lia; done|].
  destruct Hi as [lb Elb]. exists lb. rewrite cut_frame; try done. by exists lb.
Qed.

(** Entries left in the other chains keep their owner. *)
Lemma cut_owner b k : 0 <= b -> b <> p -> owner bs b k -> owner bs' b k.
Proof.
  intros Hb0 Hbp [j Ho]. pose proof Ho as (Hi & Hj & E & Hmax).
  exists j. split_and!; [by apply cut_keep|done|done|]. intros j' Hj' Hi'.
  pose proof (Z.mod_pos_bound k (2 ^ j') ltac:(apply Z.pow_pos_nonneg; lia)) as Hk.
  pose proof (cut_index _ (proj1 Hk) Hi') as Hlt.
  destruct (lookup_lt_is_Some_2 bs (Z.to_nat (k mod 2 ^ j'))) as [[l0|] El0].
  - rewrite (bo_len n bs Hb). lia.
  - apply Hmax; [done|by exists l0].
  - exfalso. apply Hbp. apply (owner_det bs b p (k mod 2 ^ j')); [by eapply owner_mod|].
    apply cut_new; [lia|done|intros [l1 El1]; congruence].
Qed.

Lemma cut_at_home b :
  0 <= b < 2 ^ n -> inited bs' b ->
  chain_sorted (at_home n b l) /\ Forall (entry_ok hash) (at_home n b l) /\
  Forall (fun e => owner bs' b (he_key e)) (at_home n b l).
Proof.
  intros Hb' Hi. destruct (cut_bounds n p entry bs Hb He Ep) as (Hn & _ & Hp).
  destruct (bo_chain n bs Hb p l ltac:(lia) El) as (Hs & Hok & _).
  split_and!; [by apply at_home_sorted|by apply at_home_Forall|].
  apply list.Forall_forall. intros e [<- He']%elem_at_home. unfold home in *.
  exists n. split_and!; [done|lia|done|]. intros j' Hj' Hi'. apply mod_small_pow; [lia|].
  apply cut_index; [|done]. apply Z.mod_pos_bound, Z.pow_pos_nonneg; lia.
Qed.

Lemma cut_ok : buckets_ok n bs'.
Proof.
  destruct (cut_bounds n p entry bs Hb He Ep) as (Hn & _ & Hp).
  split; [done|by rewrite Hl; apply Hb|by apply cut_keep; [|apply Hb]|].
  intros b lb Hb' Elb. assert (Hib : inited bs' b) by by exists lb. rewrite H in Elb by done.
  destruct (decide (b = p)) as [->|Hbp]; [injection Elb as <-; by apply cut_at_home|].
  destruct (decide (b ∈ home n <$> l)); [injection Elb as <-; by apply cut_at_home|].
  destruct (decide (b = entry /\ _)); [injection Elb as <-; split_and!; constructor|].
  destruct (bo_chain n bs Hb b lb Hb' Elb) as (Hs' & Hok' & Hown').
  split_and!; [done..|]. eapply list.Forall_impl; [exact Hown'|]. intros e Ho.
  apply cut_owner; [lia|done|done].
Qed.

Lemma cut_entry : inited bs' entry.
Proof.
  destruct (cut_bounds n p entry bs Hb He Ep) as (Hn & _ & Hp).
  unfold inited. rewrite H, decide_False by lia. destruct (decide (entry ∈ home n <$> l)); [by eexists|].
  destruct (decide (entry = entry /\ _)) as [|Hno]; [by eexists|].
  destruct (lookup_lt_is_Some_2 bs (Z.to_nat entry)) as [[l0|] El0];
    [rewrite (bo_len n bs Hb); lia|by exists l0|by destruct Hno].
Qed.

Lemma cut_same e : in_table bs' e <-> in_table bs e.
Proof.
  destruct (cut_bounds n p entry bs Hb He Ep) as (Hn & _ & Hp). split; intros (b & lb & Hb0 & Elb & Hin).
  - pose proof (cut_index b Hb0 ltac:(by exists lb)) as Hbn.
    rewrite H in Elb by lia. destruct (decide (b = p)) as [->|].
    { injection Elb as <-. apply elem_at_home in Hin as [_ Hin]. by exists p, l. }
    destruct (decide (b ∈ home n <$> l)).
    { injection Elb as <-. apply elem_at_home in Hin as [_ Hin]. exists p, l. split; [lia|done]. }
    destruct (decide (b = entry /\ _)); [injection Elb as <-; by apply not_elem_of_nil in Hin|].
    by exists b, lb.
  - pose proof (inited_range n bs b Hb Hb0 ltac:(by exists lb)).
    destruct (decide (b = p)) as [->|Hbp].
    + assert (lb = l) as -> by congruence. pose proof (home_range n e ltac:(lia)) as Hh.
      exists (home n e), (at_home n (home n e) l). split; [lia|]. split; [|by apply elem_at_home].
      rewrite H by lia. destruct (decide (home n e = p)) as [->|]; [done|].
      rewrite decide_True; [done|]. by apply list_elem_of_fmap_2.
    + exists b, lb. split; [done|]. split; [|done]. rewrite cut_frame; try done. by exists lb.
Qed.
End Cut.

Lemma cut_fixed n p entry bs :
  buckets_ok n bs -> 0 < entry < 2 ^ n -> p = parent_of entry -> inited bs p ->
  exists bs', cut n p entry bs = Some bs' /\ fixed n entry bs bs'.
Proof.
  intros Hb He Ep [l El]. destruct (cut_bounds n p entry bs Hb He Ep) as (Hn & _ & Hp).
  destruct (cut_lookup n p entry bs l) as (bs' & Ec & Hl & H); try done; try lia.
  exists bs'. split; [done|]. split.
  - by eapply cut_ok.
  - by eapply cut_entry.
  - by eapply cut_keep.
  - intros b Hbe Hi. eapply cut_frame; try done; lia.
  - by eapply cut_same.
Qed.

Lemma fixup_unfold fuel n bs entry :
  fr_hash_table_fixup (S fuel) (2 ^ n - 1) bs entry =
    (b ← bucket bs (parent_of entry);
     bs ← (match b with
           | None => fr_hash_table_fixup fuel (2 ^ n - 1) bs (parent_of entry)
           | Some _ => Some bs
           end);
     cut n (parent_of entry) entry bs).
Proof. done. Qed.

Lemma fixed_trans n p entry bs bs1 bs2 :
  p <= entry -> fixed n p bs bs1 -> fixed n entry bs1 bs2 -> fixed n entry bs bs2.
Proof.
  intros Hp [K1 K2 K3 K4 K5] [J1 J2 J3 J4 J5]. split; [done|done| | |].
  - intros b Hb Hi. apply J3; [done|]. by apply K3.
  - intros b Hb Hi. rewrite <- K4; [|lia|done]. apply J4; [done|].
    destruct Hi as [l El]. exists l. rewrite K4; [done|lia|by exists l].
  - intros e. by rewrite J5, K5.
Qed.

(** The recursion ends and initialises the bucket. *)
Lemma fixup_ok fuel n bs entry :
  buckets_ok n bs -> 0 < entry < 2 ^ n -> entry < 2 ^ (Z.of_nat fuel - 1) ->
  exists bs', fr_hash_table_fixup fuel (2 ^ n - 1) bs entry = Some bs' /\ fixed n entry bs bs'.
Proof.
  revert bs entry. induction fuel as [|fuel IH]; intros bs entry Hb He Hf.
  { rewrite Z.pow_neg_r in Hf by lia. lia. }
  destruct (cut_bounds n _ entry bs Hb He eq_refl) as (Hn & He32 & Hp). rewrite fixup_unfold.
  unfold bucket. destruct (lookup_lt_is_Some_2 bs (Z.to_nat (parent_of entry))) as [o Eo];
    [rewrite (bo_len n bs Hb); lia|]. rewrite Eo. cbn [mbind option_bind]. destruct o as [l|].
  - cbn [mbind option_bind]. apply cut_fixed; try done. by exists l.
  - assert (Hp0 : parent_of entry <> 0).
    { intros E0. rewrite E0 in Eo. destruct (bo_zero n bs Hb) as [l0 El0].
      change (Z.to_nat 0) with 0%nat in *. congruence. }
    destruct (IH bs (parent_of entry)) as (bs1 & -> & F1); [done|lia|..].
    { rewrite parent_of_spec by lia. eapply Z.lt_le_trans; [apply Z.mod_pos_bound, Z.pow_pos_nonneg; [lia|apply Z.log2_nonneg]|].
      apply Z.pow_le_mono_r; [lia|]. apply Z.lt_succ_r.
      replace (Z.succ (Z.of_nat fuel - 1)) with (Z.of_nat (S fuel) - 1) by lia.
      apply Z.log2_lt_pow2; lia. }
    cbn [mbind option_bind].
    destruct (cut_fixed n (parent_of entry) entry bs1) as (bs2 & Ec & F2); try done;
      [apply F1|apply F1|]. exists bs2. split; [done|]. eapply fixed_trans; [|done|done]. lia.
Qed.

(** ** Tables *)

Record ht_ok (n : Z) (ht : fr_hash_table_t) : Prop := {
  ho_n : 0 < n <= 30;
  ho_num : ht_num_buckets ht = 2 ^ n;
  ho_grow : ht_next_grow ht = 5 * 2 ^ (n - 1);
  ho_mask : ht_mask ht = 2 ^ n - 1;
  ho_buckets : buckets_ok n (ht_buckets ht)
}.

Definition with_buckets (ht : fr_hash_table_t) (bs : list (option chain)) : fr_hash_table_t :=
  HT (ht_num_elements ht) (ht_num_buckets ht) (ht_next_grow ht) (ht_mask ht) bs.

Lemma fixed_refl n bs entry : buckets_ok n bs -> inited bs entry -> fixed n entry bs bs.
Proof. intros Hb Hi. by split. Qed.

Lemma ensure_bucket_ok n ht entry :
  ht_ok n ht -> 0 <= entry < 2 ^ n ->
  exists bs', ensure_bucket ht entry = Some (with_buckets ht bs') /\
    fixed n entry (ht_buckets ht) bs' /\ ht_ok n (with_buckets ht bs').
Proof.
  intros Hok He. pose proof (ho_buckets n ht Hok) as Hb. pose proof (ho_n n ht Hok) as Hn.
  assert (Hgen : forall bs', fixed n entry (ht_buckets ht) bs' -> ht_ok n (with_buckets ht bs')).
  { intros bs' F. split; try apply Hok. apply F. }
  unfold ensure_bucket, bucket.
  destruct (lookup_lt_is_Some_2 (ht_buckets ht) (Z.to_nat entry)) as [[l|] E];
    [rewrite (bo_len n _ Hb); lia|..]; rewrite E; cbn [mbind option_bind].
  - exists (ht_buckets ht). assert (F : fixed n entry (ht_buckets ht) (ht_buckets ht))
      by (apply fixed_refl; [done|by exists l]).
    split; [clear; by destruct ht|]. split; [done|by apply Hgen].
  - assert (entry <> 0).
    { intros ->. destruct (bo_zero n _ Hb) as [l0 El0]. congruence. }
    rewrite (ho_mask n ht Hok).
    assert (2 ^ n <= 2 ^ 32) by (apply Z.pow_le_mono_r; lia).
    destruct (fixup_ok 33 n (ht_buckets ht) entry) as (bs' & -> & F); [done|lia|cbn; lia|].
    cbn [mbind option_bind]. exists bs'.
    split; [unfold with_buckets; by rewrite (ho_mask n ht Hok)|]. split; [done|by apply Hgen].
Qed.

(** The table holds the objects of [m], by their keys. *)
Definition ht_repr (ht : fr_hash_table_t) (m : gmap Z Z) : Prop :=
  (exists n, ht_ok n ht) /\ ht_num_elements ht = Z.of_nat (size m) /\
  forall k d, m !! k = Some d <-> in_table (ht_buckets ht) (Entry (reverse k) k d).
End Wf.

(** ** Chains *)

Section Chains.
Variable hash : Z -> Z.
Variable cmp : option (Z -> Z -> Z).
Hypothesis hash_range : forall d, 0 <= hash d < 2 ^ 32.
(** Objects with the same hash compare equal. *)
Hypothesis no_collision : forall f a b, cmp = Some f -> hash a = hash b -> f a b = 0.

Lemma entry_reversed e d :
  entry_ok hash e -> he_reversed e = reverse (hash d) <-> he_key e = hash d.
Proof.
  intros (Hk & Er & _). rewrite Er. split; [|by intros ->]. by apply reverse_inj.
Qed.

Lemma same_hash_cmp f e d :
  cmp = Some f -> entry_ok hash e -> he_key e = hash d -> f d (he_data e) = 0.
Proof. intros Ef (_ & _ & Ek & _) E. apply (no_collision f d (he_data e) Ef). congruence. Qed.

Lemma list_find_spec l d :
  chain_sorted l -> Forall (entry_ok hash) l ->
  match list_find cmp l (reverse (hash d)) d with
  | Some i => exists e, l !! i = Some e /\ he_key e = hash d
  | None => forall e, e ∈ l -> he_key e <> hash d
  end.
Proof.
  intros Hs Ho. induction l as [|cur l IH]; cbn [list_find]; [by intros e ?%not_elem_of_nil|].
  apply StronglySorted_inv in Hs as [Hs Hlt]. apply list.Forall_cons in Ho as [Hc Ho].
  specialize (IH Hs Ho).
  destruct (decide (he_reversed cur = reverse (hash d))) as [E|Hne].
  { apply entry_reversed in E as Ek; [|done].
    pose proof (fun f Ef => same_hash_cmp f cur d Ef Hc Ek) as Hz.
    destruct cmp as [f|]; [|by exists cur]. rewrite (Hz f eq_refl). rewrite !decide_False by lia. by exists cur. }
  assert (Hkne : he_key cur <> hash d) by (intros E; by apply Hne, entry_reversed).
  destruct (decide (he_reversed cur > reverse (hash d))) as [Hgt|Hgt].
  { intros e [->|Hin]%elem_of_cons; [done|]. intros E.
    pose proof (proj1 (list.Forall_forall _ _) Hlt e Hin) as H1. cbn in H1.
    pose proof (proj1 (list.Forall_forall _ _) Ho e Hin) as H2. apply entry_reversed in E; [|done]. lia. }
  destruct (list_find cmp l (reverse (hash d)) d) as [i|]; cbn [fmap option_fmap option_map].
  - destruct IH as (e & Ee & Ek). by exists e.
  - intros e [->|Hin]%elem_of_cons; [done|by apply IH].
Qed.

Lemma sorted_cons_spec e l :
  chain_sorted (e :: l) <-> chain_sorted l /\ Forall (fun e' => he_reversed e < he_reversed e') l.
Proof. split; [apply StronglySorted_inv|]. intros [? ?]. by constructor. Qed.

Lemma list_insert_spec l d :
  chain_sorted l -> Forall (entry_ok hash) l ->
  let node := Entry (reverse (hash d)) (hash d) d in
  match list_insert cmp l node with
  | Some l' => (forall e, e ∈ l -> he_key e <> hash d) /\ chain_sorted l' /\
               (forall e, e ∈ l' <-> e = node \/ e ∈ l)
  | None => exists e, e ∈ l /\ he_key e = hash d
  end.
Proof.
  intros Hs Ho node. induction l as [|cur l IH]; cbn [list_insert].
  { split; [by intros e ?%not_elem_of_nil|]. split; [by repeat constructor|]. intros e.
    rewrite list_elem_of_singleton. split; [by left|]. by intros [?|?%not_elem_of_nil]. }
  apply StronglySorted_inv in Hs as [Hs Hlt]. apply list.Forall_cons in Ho as [Hc Ho].
  specialize (IH Hs Ho). cbn [he_reversed he_key he_data node].
  destruct (decide (he_reversed cur > reverse (hash d))) as [Hgt|Hgt].
  { assert (Hall : Forall (fun e' => reverse (hash d) < he_reversed e') (cur :: l)).
    { constructor; [lia|]. eapply list.Forall_impl; [exact Hlt|]. intros e. cbn. lia. }
    split_and!.
    - intros e Hin E. pose proof (proj1 (list.Forall_forall _ _) Hall e Hin) as H1. cbn in H1.
      assert (Hoe : entry_ok hash e)
        by (apply elem_of_cons in Hin as [->|Hin]; [done|exact (proj1 (list.Forall_forall _ _) Ho e Hin)]).
      apply entry_reversed in E; [|done]. lia.
    - apply sorted_cons_spec. split; [by apply sorted_cons_spec|done].
    - intros e. by rewrite elem_of_cons. }
  destruct (decide (he_reversed cur = reverse (hash d))) as [E|Hne].
  { apply entry_reversed in E as Ek; [|done].
    assert (Hex : exists e, e ∈ cur :: l /\ he_key e = hash d)
      by (exists cur; split; [apply list_elem_of_here|done]).
    pose proof (fun f Ef => same_hash_cmp f cur d Ef Hc Ek) as Hz.
    destruct cmp as [f|]; [|done]. rewrite (Hz f eq_refl). by rewrite !decide_False by lia. }
  assert (Hkne : he_key cur <> hash d) by (intros E; by apply Hne, entry_reversed).
  destruct (list_insert cmp l node) as [l'|]; cbn [fmap option_fmap option_map].
  - destruct IH as (H1 & H2 & H3). split_and!.
    + intros e [->|Hin]%elem_of_cons; [done|by apply H1].
    + apply sorted_cons_spec. split; [done|]. apply list.Forall_forall. intros e [->|Hin]%H3.
      * cbn. lia.
      * exact (proj1 (list.Forall_forall _ _) Hlt e Hin).
    + intros e. rewrite !elem_of_cons, H3. tauto.
  - destruct IH as (e & Hin & E). exists e. split; [by apply list_elem_of_further|done].
Qed.

Lemma sorted_distinct l : chain_sorted l -> NoDup l.
Proof.
  intros H. induction H as [|e l Hs IH Hlt]; constructor; [|done]. intros Hin.
  pose proof (proj1 (list.Forall_forall _ _) Hlt e Hin). cbn in *. lia.
Qed.

Lemma list_delete_spec l i e :
  chain_sorted l -> l !! i = Some e ->
  chain_sorted (list_delete l i) /\ forall e', e' ∈ list_delete l i <-> e' ∈ l /\ e' <> e.
Proof.
  intros Hs Ei. pose proof (delete_Permutation l i e Ei) as Hp. unfold list_delete. split.
  - clear Hp. revert i Ei. induction Hs as [|x l Hs IH Hlt]; intros [|i] Ei; try done.
    cbn [delete list_delete]. apply sorted_cons_spec. split; [by eapply IH|].
    apply list.Forall_forall. intros y Hy. apply (proj1 (list.Forall_forall _ _) Hlt y).
    rewrite (delete_Permutation l i e Ei). by apply list_elem_of_further.
  - intros e'. pose proof (sorted_distinct l Hs) as Hd. rewrite Hp in Hd. apply list.NoDup_cons in Hd as [Hd _].
    assert (He : e' ∈ l <-> e' = e \/ e' ∈ delete i l) by (by rewrite Hp at 1; rewrite elem_of_cons).
    rewrite He. split; [|tauto]. intros Hin. split; [by right|]. by intros ->.
Qed.
End Chains.

(** ** Operations *)

Section Operations.
Variable hash : Z -> Z.
Variable cmp : option (Z -> Z -> Z).
Hypothesis hash_range : forall d, 0 <= hash d < 2 ^ 32.
Hypothesis no_collision : forall f a b, cmp = Some f -> hash a = hash b -> f a b = 0.

Abbreviation ht_ok := (ht_ok hash).
Abbreviation ht_repr := (ht_repr hash).

Lemma in_table_ok n bs e : buckets_ok hash n bs -> in_table bs e -> entry_ok hash e.
Proof.
  intros Hb (b & l & H0 & El & Hin). pose proof (inited_range hash n bs b Hb H0 ltac:(by exists l)).
  destruct (bo_chain hash n bs Hb b l ltac:(lia) El) as (_ & Ho & _).
  exact (proj1 (list.Forall_forall _ _) Ho e Hin).
Qed.

(** The chain of a key, once its bucket is initialised. *)
Lemma open_bucket n ht k :
  ht_ok n ht -> exists ht' l, let entry := Z.land k (ht_mask ht) in
    entry = k mod 2 ^ n /\ ensure_bucket ht entry = Some ht' /\ ht_ok n ht' /\
    ht_num_elements ht' = ht_num_elements ht /\
    (forall e, in_table (ht_buckets ht') e <-> in_table (ht_buckets ht) e) /\
    get_chain ht' entry = Some l /\ chain_sorted l /\ Forall (entry_ok hash) l /\
    (forall e, he_key e = k -> in_table (ht_buckets ht') e <-> e ∈ l).
Proof.
  intros Hok. pose proof (ho_n hash n ht Hok) as Hn.
  assert (Ee : Z.land k (ht_mask ht) = k mod 2 ^ n) by (rewrite (ho_mask hash n ht Hok); apply land_mask; lia).
  rewrite Ee. pose proof (Z.mod_pos_bound k (2 ^ n) ltac:(apply Z.pow_pos_nonneg; lia)) as Hk.
  destruct (ensure_bucket_ok hash n ht (k mod 2 ^ n) Hok Hk) as (bs' & E & F & Hok').
  destruct (fx_entry hash n _ _ _ F) as [l El]. pose proof (ho_buckets hash n _ Hok') as Hb'.
  destruct (bo_chain hash n bs' Hb' _ l Hk El) as (Hs & Ho & _).
  exists (with_buckets ht bs'), l. cbn [with_buckets ht_buckets ht_num_elements].
  split_and!; try done.
  - apply F.
  - unfold get_chain, bucket. cbn [with_buckets ht_buckets]. by rewrite El.
  - intros e Ek. split; [|intros Hin; exists (k mod 2 ^ n), l; split; [lia|done]].
    intros (b & lb & H0 & Elb & Hin).
    pose proof (inited_range hash n bs' b Hb' H0 ltac:(by exists lb)) as Hbn.
    destruct (bo_chain hash n bs' Hb' b lb ltac:(lia) Elb) as (_ & _ & Hown).
    pose proof (proj1 (list.Forall_forall _ _) Hown e Hin) as Hob. cbn in Hob. rewrite Ek in Hob.
    assert (b = k mod 2 ^ n) as ->; [|congruence].
    apply (owner_det bs' _ _ k Hob). apply (owner_home hash); [done|by exists l].
Qed.

(** Replacing the chain of an initialised bucket. *)
Lemma set_chain_ok n ht b l l' :
  ht_ok n ht -> 0 <= b < 2 ^ n -> get_chain ht b = Some l -> chain_sorted l' ->
  Forall (entry_ok hash) l' -> (forall e, e ∈ l' -> home n e = b \/ e ∈ l) ->
  exists ht', set_chain ht b l' = Some ht' /\ ht_ok n ht' /\
    ht' = with_buckets ht (ht_buckets ht') /\
    forall e, in_table (ht_buckets ht') e <-> e ∈ l' \/ (in_table (ht_buckets ht) e /\ e ∉ l).
Proof.
  intros Hok Hb El Hs Ho Hin. pose proof (ho_buckets hash n ht Hok) as Hbo.
  unfold get_chain, bucket in El. destruct (ht_buckets ht !! Z.to_nat b) as [[l0|]|] eqn:Elb; try done.
  injection El as ->. unfold set_chain.
  destruct (set_bucket_lookup (ht_buckets ht) b l') as (bs' & -> & Hl' & H); [by apply lookup_lt_Some in Elb|].
  cbn [mbind option_bind]. eexists. split; [done|].
  assert (Hini : forall q, 0 <= q -> inited bs' q <-> inited (ht_buckets ht) q).
  { intros q Hq. unfold inited. rewrite H. case_decide as Hd; [|done]. rewrite Hd. split; intros _; by eexists. }
  assert (Hown : forall q k, 0 <= q -> owner (ht_buckets ht) q k -> owner bs' q k).
  { intros q k Hq [j (Hi & Hj & E & Hm)]. exists j. split_and!; [by apply Hini|done|done|].
    intros j' Hj' Hi'. apply Hm; [done|]. apply Hini; [|done]. apply Z.mod_pos_bound, Z.pow_pos_nonneg; lia. }
  destruct (bo_chain hash n _ Hbo b l Hb Elb) as (_ & _ & Hol).
  split_and!.
  - split; try apply Hok. split; cbn [ht_buckets]; try apply Hbo.
    + by rewrite Hl'; apply Hbo.
    + apply Hini; [done|apply Hbo].
    + intros q lq Hq Elq. rewrite H in Elq. destruct (decide (Z.to_nat q = Z.to_nat b)) as [E|Hne].
      * injection Elq as <-. assert (q = b) as -> by lia. split_and!; [done..|].
        apply list.Forall_forall. intros e He. destruct (Hin e He) as [Eh|Hel].
        -- rewrite <- Eh. apply Hown; [lia|]. apply (owner_home hash); [done|].
           fold (home n e). rewrite Eh. by exists l.
        -- apply Hown; [lia|]. exact (proj1 (list.Forall_forall _ _) Hol e Hel).
      * destruct (bo_chain hash n _ Hbo q lq Hq Elq) as (Hs' & Ho' & Hw). split_and!; [done..|].
        eapply list.Forall_impl; [exact Hw|]. intros e. apply Hown. lia.
  - done.
  - intros e. cbn [ht_buckets]. split.
    + intros (q & lq & Hq & Elq & He). rewrite H in Elq.
      destruct (decide (Z.to_nat q = Z.to_nat b)) as [E|Hne]; [injection Elq as <-; by left|right].
      split; [by exists q, lq|]. intros Hel.
      pose proof (inited_range hash n _ q Hbo Hq ltac:(by exists lq)) as Hqn.
      destruct (bo_chain hash n _ Hbo q lq ltac:(lia) Elq) as (_ & _ & Hw).
      pose proof (proj1 (list.Forall_forall _ _) Hw e He) as O1.
      pose proof (proj1 (list.Forall_forall _ _) Hol e Hel) as O2. cbn in O1, O2.
      pose proof (owner_det _ _ _ _ O1 O2). lia.
    + intros [He|[(q & lq & Hq & Elq & He) Hno]].
      * exists b, l'. split; [lia|]. split; [|done]. by rewrite H, decide_True.
      * exists q, lq. split; [done|]. split; [|done]. rewrite H.
        case_decide as Hd; [|done]. rewrite Hd in Elq. exfalso. apply Hno. congruence.
Qed.

Lemma entry_eta e : entry_ok hash e -> e = Entry (reverse (he_key e)) (he_key e) (he_data e).
Proof. intros (_ & Er & _). destruct e. cbn in *. by subst. Qed.

Lemma repr_same n ht ht' m :
  ht_repr ht m -> ht_ok n ht' -> ht_num_elements ht' = ht_num_elements ht ->
  (forall e, in_table (ht_buckets ht') e <-> in_table (ht_buckets ht) e) -> ht_repr ht' m.
Proof.
  intros (_ & Hn & Hm) Hok' Hn' Hs. split; [by exists n|]. split; [by rewrite Hn'|].
  intros k d. by rewrite Hm, Hs.
Qed.

(** An entry found in the table is the map's. *)
Lemma repr_entry ht m e : ht_repr ht m -> in_table (ht_buckets ht) e -> m !! he_key e = Some (he_data e).
Proof.
  intros ((n & Hok) & _ & Hm) Hin. apply Hm. rewrite <- entry_eta; [done|].
  eapply in_table_ok; [apply Hok|done].
Qed.

(** The bucket of an object, with what its chain says of the map. *)
Lemma open_repr ht m d :
  ht_repr ht m -> exists n ht' l, let entry := Z.land (hash d) (ht_mask ht) in
    entry = hash d mod 2 ^ n /\ ensure_bucket ht entry = Some ht' /\ ht_ok n ht' /\ ht_repr ht' m /\
    get_chain ht' entry = Some l /\ chain_sorted l /\ Forall (entry_ok hash) l /\
    (forall e, e ∈ l -> m !! he_key e = Some (he_data e)) /\
    (forall x, m !! hash d = Some x -> Entry (reverse (hash d)) (hash d) x ∈ l).
Proof.
  intros Hr. pose proof Hr as ((n & Hok) & _).
  destruct (open_bucket n ht (hash d) Hok) as (ht' & l & Ee & E & Hok' & Hn' & Hs & El & Hso & Ho & Hk).
  pose proof (repr_same n ht ht' m Hr Hok' Hn' Hs) as Hr'.
  exists n, ht', l. split_and!; try done.
  - intros e Hin. eapply repr_entry; [exact Hr'|].
    unfold get_chain, bucket in El. exists (Z.land (hash d) (ht_mask ht)), l.
    split; [rewrite Ee; apply Z.mod_pos_bound, Z.pow_pos_nonneg; [lia|by apply Hok]|]. split; [|done].
    destruct (ht_buckets ht' !! _) as [o|]; [|done]. cbn in El. by subst o.
  - intros x Hx. apply Hk; [done|]. by apply Hr'.
Qed.

(** What [list_find] says of the map. *)
Lemma find_repr (m : gmap Z Z) l d :
  chain_sorted l -> Forall (entry_ok hash) l ->
  (forall e, e ∈ l -> m !! he_key e = Some (he_data e)) ->
  (forall x, m !! hash d = Some x -> Entry (reverse (hash d)) (hash d) x ∈ l) ->
  match list_find cmp l (reverse (hash d)) d with
  | Some i => exists x, m !! hash d = Some x /\ l !! i = Some (Entry (reverse (hash d)) (hash d) x)
  | None => m !! hash d = None
  end.
Proof.
  intros Hs Ho H1 H2. pose proof (list_find_spec hash cmp hash_range no_collision l d Hs Ho) as Hf.
  destruct (list_find _ _ _ _) as [i|].
  - destruct Hf as (e & Ei & Ek). exists (he_data e).
    assert (Hin : e ∈ l) by (eapply list_elem_of_lookup_2; exact Ei).
    rewrite <- Ek. split; [by apply H1|]. rewrite Ei. f_equal.
    apply entry_eta. exact (proj1 (list.Forall_forall _ _) Ho e Hin).
  - destruct (m !! hash d) as [x|] eqn:Em; [|done]. exfalso. by eapply (Hf _ (H2 x eq_refl)).
Qed.

Lemma grow_inited bs k q : inited (bs ++ replicate k None) q <-> inited bs q.
Proof.
  unfold inited. split; intros [l E]; exists l.
  - apply lookup_app_Some in E as [E|[_ E]]; [done|]. by apply lookup_replicate in E as [E _].
  - by apply lookup_app_l_Some.
Qed.

Lemma grow_lookup (bs : list (option chain)) k i l : (bs ++ replicate k None) !! i = Some (Some l) <-> bs !! i = Some (Some l).
Proof.
  split; intros E.
  - apply lookup_app_Some in E as [E|[_ E]]; [done|]. by apply lookup_replicate in E as [E _].
  - by apply lookup_app_l_Some.
Qed.

Lemma grow_ok n realloc ht :
  ht_ok n ht -> n <= 29 -> exists n', ht_ok n' (fr_hash_table_grow realloc ht) /\
    ht_num_elements (fr_hash_table_grow realloc ht) = ht_num_elements ht /\
    forall e, in_table (ht_buckets (fr_hash_table_grow realloc ht)) e <-> in_table (ht_buckets ht) e.
Proof.
  intros Hok Hn. destruct realloc; [|by exists n]. pose proof (ho_buckets hash n ht Hok) as Hb.
  pose proof (ho_n hash n ht Hok) as Hn0. exists (n + 1). unfold fr_hash_table_grow, GROW_FACTOR.
  assert (Hp : 2 ^ (n + 1) = 2 * 2 ^ n) by (rewrite Z.pow_add_r by lia; lia).
  assert (Hpm : 2 ^ n = 2 * 2 ^ (n - 1)).
  { replace n with (n - 1 + 1) at 1 by lia. rewrite Z.pow_add_r by lia. lia. }
  assert (H29 : 2 ^ n <= 2 ^ 29) by (apply Z.pow_le_mono_r; lia).
  assert (Hpos : 0 < 2 ^ (n - 1)) by (apply Z.pow_pos_nonneg; lia).
  rewrite (ho_num hash n ht Hok), (ho_grow hash n ht Hok).
  rewrite !(u32_small (2 * 2 ^ n)) by lia. rewrite !u32_small by lia.
  split_and!; [|done|].
  - split; cbn [ht_num_buckets ht_next_grow ht_mask ht_buckets]; try lia.
    { replace (n + 1 - 1) with n by lia. lia. }
    split.
    + lia.
    + rewrite length_app, length_replicate, (bo_len hash n _ Hb), Hp. lia.
    + apply grow_inited, Hb.
    + intros b l Hb' El. apply grow_lookup in El.
      assert (Hbn : b < 2 ^ n) by (apply (inited_range hash n (ht_buckets ht)); [done|lia|by exists l]).
      destruct (bo_chain hash n _ Hb b l ltac:(lia) El) as (Hs & Ho & Hw). split_and!; [done..|].
      eapply list.Forall_impl; [exact Hw|]. intros e [j (Hi & Hj & E & Hm)]. exists j.
      split_and!; [by apply grow_inited|done|done|]. intros j' Hj' Hi'%grow_inited. by apply Hm.
  - intros e. unfold in_table. cbn [ht_buckets]. by setoid_rewrite grow_lookup.
Qed.

(** The map after a chain got a new entry. *)
Lemma repr_insert n ht1 ht2 m (l l' : chain) d :
  ht_repr ht1 m -> ht_ok n ht2 -> ht_num_elements ht2 = Z.of_nat (size m) + 1 ->
  (forall e, in_table (ht_buckets ht2) e <-> e ∈ l' \/ (in_table (ht_buckets ht1) e /\ e ∉ l)) ->
  (forall e, e ∈ l' <-> e = Entry (reverse (hash d)) (hash d) d \/ e ∈ l) ->
  (forall e, e ∈ l -> m !! he_key e = Some (he_data e)) -> m !! hash d = None ->
  ht_repr ht2 (<[hash d := d]> m).
Proof.
  intros (_ & _ & Hm) Hok2 Hc Hin2 Hel H1 Em.
  split; [by exists n|]. split; [rewrite map_size_insert_None by done; lia|].
  intros k x. rewrite Hin2, Hel, lookup_insert_Some, Hm. split.
  - intros [[<- <-]|[Hne Hin]]; [by left; left|].
    destruct (decide (Entry (reverse k) k x ∈ l)); [by left; right|by right].
  - intros [[E3|Hin]|[Hin _]].
    + injection E3 as _ -> ->. by left.
    + right. apply H1 in Hin as Hin'. cbn in Hin'. split; [|by apply Hm]. intros <-. congruence.
    + right. split; [|done]. intros <-. apply Hm in Hin. congruence.
Qed.

Lemma insert_ok node_ok realloc ht m d :
  ht_repr ht m -> d <> 0 -> Z.of_nat (size m) < 2 ^ 31 - 1 ->
  exists ht', fr_hash_table_insert hash cmp node_ok realloc ht d =
      Some (node_ok && bool_decide (m !! hash d = None), ht') /\
    ht_repr ht' (if (node_ok && bool_decide (m !! hash d = None))%bool then <[hash d := d]> m else m).
Proof.
  intros Hr Hd Hsz. destruct (open_repr ht m d Hr) as (n & ht1 & l & Ee & E & Hok1 & Hr1 & El & Hs & Ho & H1 & H2).
  unfold fr_hash_table_insert. rewrite E. cbn [mbind option_bind].
  destruct node_ok; cbn [negb andb]; [|by exists ht1]. rewrite El. cbn [mbind option_bind].
  pose proof (list_insert_spec hash cmp hash_range no_collision l d Hs Ho) as Hi. cbv zeta in Hi.
  set (node := Entry (reverse (hash d)) (hash d) d) in *.
  destruct (list_insert cmp l node) as [l'|].
  2:{ destruct Hi as (e & Hin & Ek). rewrite bool_decide_eq_false_2; [by exists ht1|].
      rewrite <- Ek, (H1 e Hin). done. }
  destruct Hi as (Hnot & Hs' & Hel).
  assert (Em : m !! hash d = None).
  { destruct (m !! hash d) as [x|] eqn:Em; [|done]. exfalso. by eapply (Hnot _ (H2 x eq_refl)). }
  rewrite bool_decide_eq_true_2 by done.
  pose proof (ho_n hash n ht1 Hok1) as Hn1.
  assert (Hnode : entry_ok hash node) by (split_and!; try done; apply hash_range).
  destruct (set_chain_ok n ht1 (Z.land (hash d) (ht_mask ht)) l l') as (ht2 & -> & Hok2 & E2 & Hin2); try done.
  { rewrite Ee. apply Z.mod_pos_bound, Z.pow_pos_nonneg; lia. }
  { apply list.Forall_forall. intros e [->|He]%Hel; [done|]. exact (proj1 (list.Forall_forall _ _) Ho e He). }
  { intros e [->|He]%Hel; [by left|by right]. }
  cbn [mbind option_bind]. pose proof Hr1 as (_ & Hcnt & _).
  assert (Hcnt2 : ht_num_elements ht2 = Z.of_nat (size m)) by (rewrite E2; exact Hcnt).
  rewrite Hcnt2, u32_small by lia.
  set (ht3 := HT _ _ _ _ _).
  assert (Hok3 : ht_ok n ht3) by (split; apply Hok2).
  assert (Hr3 : ht_repr ht3 (<[hash d := d]> m)) by (by eapply (repr_insert n ht1 ht3)).
  eexists. split; [done|]. case_decide as Hg; [|done].
  assert (Hn29 : n <= 29).
  { unfold ht3 in Hg. cbn [ht_next_grow] in Hg. rewrite (ho_grow hash n ht2 Hok2) in Hg. destruct (decide (n <= 29)); [done|].
    assert (n = 30) as -> by lia. change (5 * 2 ^ (30 - 1)) with 2684354560 in Hg. lia. }
  destruct (grow_ok n realloc ht3 Hok3 Hn29) as (n' & Hok' & Hc' & Hin').
  by eapply repr_same.
Qed.

Lemma find_ok ht m d :
  ht_repr ht m -> exists node ht', hash_table_find cmp ht (hash d) d = Some (node, ht') /\
    ht_repr ht' m /\
    match node with
    | None => m !! hash d = None
    | Some (entry, i) => exists n l x, ht_ok n ht' /\ entry = hash d mod 2 ^ n /\
        get_chain ht' entry = Some l /\ l !! i = Some (Entry (reverse (hash d)) (hash d) x) /\
        m !! hash d = Some x
    end.
Proof.
  intros Hr. destruct (open_repr ht m d Hr) as (n & ht1 & l & Ee & E & Hok1 & Hr1 & El & Hs & Ho & H1 & H2).
  unfold hash_table_find. rewrite E. cbn [mbind option_bind]. rewrite El. cbn [mbind option_bind].
  pose proof (find_repr m l d Hs Ho H1 H2) as Hf.
  destruct (list_find cmp l (reverse (hash d)) d) as [i|]; eexists _, ht1; (split; [done|]); [|done].
  split; [done|]. destruct Hf as (x & Em & Ei). by exists n, l, x.
Qed.

Lemma find_data_ok ht m d :
  ht_repr ht m -> exists ht', fr_hash_table_find hash cmp ht d = Some (default 0 (m !! hash d), ht') /\
    ht_repr ht' m.
Proof.
  intros Hr. destruct (find_ok ht m d Hr) as (node & ht' & E & Hr' & Hn).
  exists ht'. split; [|done]. unfold fr_hash_table_find, fr_hash_table_find_by_key. rewrite E.
  cbn [mbind option_bind]. destruct node as [[entry i]|]; cbn [node_data].
  - destruct Hn as (n & l & x & _ & _ & El & Ei & Em). rewrite El. cbn [mbind option_bind].
    rewrite Ei. cbn [mbind option_bind]. by rewrite Em.
  - cbn [mbind option_bind]. by rewrite Hn.
Qed.

(** The map after one chain changed at the object's key only. *)
Lemma repr_update n ht1 ht2 m m' (l l' : chain) (k : Z) :
  ht_repr ht1 m -> ht_ok n ht2 -> ht_num_elements ht2 = Z.of_nat (size m') ->
  (forall e, in_table (ht_buckets ht2) e <-> e ∈ l' \/ (in_table (ht_buckets ht1) e /\ e ∉ l)) ->
  (forall e, he_key e <> k -> e ∈ l' <-> e ∈ l) ->
  (forall e, he_key e = k -> in_table (ht_buckets ht1) e -> e ∈ l) ->
  (forall e, e ∈ l -> in_table (ht_buckets ht1) e) ->
  (forall x, m' !! k = Some x <-> Entry (reverse k) k x ∈ l') ->
  (forall k', k' <> k -> m' !! k' = m !! k') ->
  ht_repr ht2 m'.
Proof.
  intros (_ & _ & Hm) Hok2 Hc Hin2 Hother Hkey Hsub Hk Hm'.
  split; [by exists n|]. split; [done|]. intros k' x. rewrite Hin2.
  destruct (decide (k' = k)) as [->|Hne].
  - rewrite Hk. split; [by left|]. intros [?|[Hin Hno]]; [done|]. destruct Hno. by apply Hkey.
  - rewrite Hm', Hm by done. rewrite Hother by done. split.
    + intros Hin. destruct (decide (Entry (reverse k') k' x ∈ l)); [by left|by right].
    + intros [Hin|[Hin _]]; [by apply Hsub|done].
Qed.

(** The entries of an open chain. *)
Lemma chain_in_table ht b (l : chain) e : 0 <= b -> get_chain ht b = Some l -> e ∈ l -> in_table (ht_buckets ht) e.
Proof.
  intros H0 El Hin. unfold get_chain, bucket in El. exists b, l. split; [done|]. split; [|done].
  destruct (ht_buckets ht !! _) as [o|]; [|done]. cbn in El. by subst o.
Qed.

Lemma remove_ok ht m d :
  ht_repr ht m -> Z.of_nat (size m) < 2 ^ 32 ->
  exists ht', fr_hash_table_remove hash cmp ht d = Some (default 0 (m !! hash d), ht') /\
    ht_repr ht' (delete (hash d) m).
Proof.
  intros Hr Hsz. destruct (open_repr ht m d Hr) as (n & ht1 & l & Ee & E & Hok1 & Hr1 & El & Hs & Ho & H1 & H2).
  unfold fr_hash_table_remove. rewrite E. cbn [mbind option_bind]. rewrite El. cbn [mbind option_bind].
  pose proof (find_repr m l d Hs Ho H1 H2) as Hf. pose proof (ho_n hash n ht1 Hok1) as Hn1.
  set (k := hash d) in *.
  assert (Hk : 0 <= k mod 2 ^ n < 2 ^ n) by (apply Z.mod_pos_bound, Z.pow_pos_nonneg; lia).
  destruct (list_find cmp l (reverse k) d) as [i|].
  2:{ rewrite Hf. exists ht1. split; [done|]. by rewrite delete_id. }
  destruct Hf as (x & Em & Ei). rewrite Ei, Em. cbn [mbind option_bind].
  destruct (list_delete_spec l i _ Hs Ei) as [Hs' Hel].
  destruct (set_chain_ok n ht1 (Z.land k (ht_mask ht)) l (list_delete l i)) as (ht2 & -> & Hok2 & E2 & Hin2); try done.
  { by rewrite Ee. }
  { apply list.Forall_forall. intros e [He _]%Hel. exact (proj1 (list.Forall_forall _ _) Ho e He). }
  { intros e [He _]%Hel. by right. }
  cbn [mbind option_bind]. eexists. split; [done|]. pose proof Hr1 as (_ & Hcnt & Hm1).
  assert (Hsm : size m = S (size (delete k m))).
  { rewrite map_size_delete_Some by (by eexists).
    assert (size m <> 0%nat); [|lia]. intros E0%map_size_empty_inv. subst m. by rewrite lookup_empty in Em. }
  eapply (repr_update n ht1 _ m _ l (list_delete l i) k); try done.
  - split; apply Hok2.
  - cbn [ht_num_elements]. rewrite E2. cbn [with_buckets ht_num_elements]. rewrite Hcnt, u32_small; lia.
  - intros e Hne. rewrite Hel. split; [tauto|]. intros He. split; [done|]. by intros ->.
  - intros e Ek Hin. pose proof (repr_entry ht1 m e Hr1 Hin) as He. rewrite Ek in He.
    rewrite (entry_eta e) by (by eapply in_table_ok; [apply Hok1|]). rewrite Ek. by apply H2.
  - intros e He. eapply chain_in_table; [|exact El|done]. rewrite Ee. lia.
  - intros y. rewrite lookup_delete_eq, Hel. split; [done|]. intros [He Hne]. exfalso.
    apply H1 in He. cbn in He. rewrite Em in He. injection He as ->. done.
  - intros k' Hne. by apply lookup_delete_ne.
Qed.

(** Only the order of the reversed keys matters. *)
Lemma sorted_fmap l : chain_sorted l <-> StronglySorted Z.lt (he_reversed <$> l).
Proof.
  induction l as [|e l IH]; [split; constructor|]. rewrite sorted_cons_spec, IH. cbn [fmap list_fmap]. split.
  - intros [Hs Hf]. constructor; [done|]. rewrite list.Forall_fmap. exact Hf.
  - intros [Hs Hf]%StronglySorted_inv. split; [done|]. rewrite list.Forall_fmap in Hf. exact Hf.
Qed.

Lemma sorted_unique l i j e e' :
  chain_sorted l -> l !! i = Some e -> l !! j = Some e' -> he_reversed e = he_reversed e' -> i = j.
Proof.
  intros Hs. revert i j. induction Hs as [|x l Hs IH Hlt]; intros i j Ei Ej E; [done|].
  rewrite list.Forall_forall in Hlt.
  destruct i as [|i], j as [|j]; cbn in Ei, Ej; [done| | |f_equal; by eapply IH]; exfalso.
  - injection Ei as ->. apply list_elem_of_lookup_2, Hlt in Ej. cbn in Ej. lia.
  - injection Ej as ->. apply list_elem_of_lookup_2, Hlt in Ei. cbn in Ei. lia.
Qed.

Lemma replace_chain l i e e' :
  chain_sorted l -> l !! i = Some e -> he_reversed e' = he_reversed e ->
  chain_sorted (<[i := e']> l) /\
  forall x, x ∈ <[i := e']> l <-> x = e' \/ (x ∈ l /\ he_reversed x <> he_reversed e).
Proof.
  intros Hs Ei Er. split.
  - apply sorted_fmap. rewrite list_fmap_insert, Er. rewrite list_insert_id; [by apply sorted_fmap|].
    by rewrite list_lookup_fmap, Ei.
  - intros x. rewrite !list_elem_of_lookup. split.
    + intros [j Ej]. destruct (decide (i = j)) as [<-|Hne].
      * rewrite list_lookup_insert_eq in Ej by (by eapply lookup_lt_Some). left. congruence.
      * rewrite list_lookup_insert_ne in Ej by done. right. split; [by exists j|].
        intros E. apply Hne. by eapply sorted_unique.
    + intros [->|[[j Ej] Hne]].
      * exists i. apply list_lookup_insert_eq. by eapply lookup_lt_Some.
      * exists j. rewrite list_lookup_insert_ne; [done|]. intros ->. congruence.
Qed.

Lemma replace_ok node_ok realloc old frees ht m d :
  ht_repr ht m -> d <> 0 -> Z.of_nat (size m) < 2 ^ 31 - 1 ->
  exists ht', fr_hash_table_replace hash cmp node_ok realloc old frees ht d =
      Some (match m !! hash d with
            | Some x => (0, if old then Some x else None, if old then [] else if frees then [x] else [])
            | None => (if node_ok then 1 else -1, if old then Some 0 else None, [])
            end, ht') /\
    ht_repr ht' (if (node_ok || bool_decide (is_Some (m !! hash d)))%bool then <[hash d := d]> m else m).
Proof.
  intros Hr Hd Hsz. destruct (find_ok ht m d Hr) as (node & ht1 & E & Hr1 & Hn).
  unfold fr_hash_table_replace. rewrite E. cbn [mbind option_bind].
  destruct node as [[entry i]|].
  2:{ destruct (insert_ok node_ok realloc ht1 m d Hr1 Hd Hsz) as (ht2 & -> & Hr2). cbn [mbind option_bind].
      rewrite Hn in Hr2 |- *. rewrite !bool_decide_eq_true_2, !andb_true_r in * by done.
      rewrite bool_decide_eq_false_2, orb_false_r by (by intros [? ?]). exists ht2. split; [|done].
      by destruct node_ok. }
  destruct Hn as (n & l & x & Hok1 & Ee & El & Ei & Em). rewrite El. cbn [mbind option_bind].
  rewrite Ei. cbn [mbind option_bind he_reversed he_key he_data].
  pose proof (ho_n hash n ht1 Hok1) as Hn1. set (k := hash d) in *.
  assert (Hk : 0 <= k mod 2 ^ n < 2 ^ n) by (apply Z.mod_pos_bound, Z.pow_pos_nonneg; lia).
  pose proof (ho_buckets hash n ht1 Hok1) as Hb1.
  assert (Ho : forall e, e ∈ l -> entry_ok hash e).
  { intros e He. eapply in_table_ok; [exact Hb1|]. eapply chain_in_table; [|exact El|done]. rewrite Ee. lia. }
  assert (Hs : chain_sorted l).
  { unfold get_chain, bucket in El. destruct (ht_buckets ht1 !! Z.to_nat entry) as [o|] eqn:Eo; [|done].
    cbn in El. subst o. rewrite Ee in Eo. by apply (bo_chain hash n _ Hb1 (k mod 2 ^ n)). }
  destruct (replace_chain l i _ (Entry (reverse k) k d) Hs Ei eq_refl) as [Hs' Hel].
  destruct (set_chain_ok n ht1 entry l (<[i := Entry (reverse k) k d]> l)) as (ht2 & -> & Hok2 & E2 & Hin2); try done.
  { by rewrite Ee. }
  { apply list.Forall_forall. intros e [->|[He _]]%Hel; [|by apply Ho]. split_and!; try done; apply hash_range. }
  { intros e [->|[He _]]%Hel; [by left|by right]. }
  cbn [mbind option_bind]. rewrite Em. eexists. split; [done|].
  rewrite bool_decide_eq_true_2, orb_true_r by (by eexists).
  eapply (repr_update n ht1 ht2 m _ l _ k); try done.
  - rewrite E2. cbn [with_buckets ht_num_elements]. rewrite map_size_insert_Some by (by eexists). apply Hr1.
  - intros e Hne. rewrite Hel. split; [intros [->|[? _]]; done|]. intros He. right. split; [done|].
    cbn [he_reversed]. intros Er. apply Hne. by apply (entry_reversed hash hash_range) in Er; [|apply Ho].
  - intros e Ek Hin. pose proof (repr_entry ht1 m e Hr1 Hin) as He. rewrite Ek, Em in He. injection He as He.
    rewrite (entry_eta e) by (by eapply in_table_ok). rewrite Ek, <- He. by eapply list_elem_of_lookup_2.
  - intros e He. eapply chain_in_table; [|exact El|done]. rewrite Ee. lia.
  - intros y. rewrite lookup_insert_eq, Hel. split; [intros [= ->]; by left|].
    intros [[= ->]|[_ Hne]]; [done|]. by destruct Hne.
  - intros k' Hne. by apply lookup_insert_ne.
Qed.

Lemma delete_ok frees ht m d :
  ht_repr ht m -> Z.of_nat (size m) < 2 ^ 32 ->
  exists ht', fr_hash_table_delete hash cmp frees ht d =
      Some (match m !! hash d with Some x => (true, if frees then [x] else []) | None => (false, []) end, ht') /\
    ht_repr ht' (delete (hash d) m).
Proof.
  intros Hr Hsz. destruct (remove_ok ht m d Hr Hsz) as (ht' & E & Hr'). exists ht'. split; [|done].
  unfold fr_hash_table_delete. rewrite E. cbn [mbind option_bind].
  destruct (m !! hash d) as [x|] eqn:Em; cbn [default]; [|done].
  rewrite decide_False; [done|]. pose proof Hr as ((n & Hok) & _ & Hm). apply Hm in Em.
  apply (in_table_ok n) in Em as (_ & _ & _ & Hne); [done|apply Hok].
Qed.

Lemma table_alloc_ok : ht_repr fr_hash_table_alloc ∅.
Proof.
  assert (Hlk : forall i l, ht_buckets fr_hash_table_alloc !! i = Some (Some l) -> i = 0%nat /\ l = []).
  { intros [|i] l E; [by injection E as <-|]. cbn [fr_hash_table_alloc ht_buckets lookup list_lookup] in E.
    by apply lookup_replicate in E as [E _]. }
  split; [exists 6; split; try done|]. 
  - split; [lia|done|by eexists|]. intros b l Hb [_ ->]%Hlk. by repeat constructor.
  - split; [done|]. intros k d. rewrite lookup_empty. split; [done|].
    intros (b & l & _ & [_ ->]%Hlk & Hin). by apply not_elem_of_nil in Hin.
Qed.

(** ** Iteration *)

(** The entries of the buckets below [i], highest bucket first. *)
Fixpoint collect (i : nat) (ht : fr_hash_table_t) : option (chain * fr_hash_table_t) :=
  match i with
  | O => Some ([], ht)
  | S i' =>
      ht ← ensure_bucket ht (Z.of_nat i');
      l ← get_chain ht (Z.of_nat i');
      '(r, ht) ← collect i' ht;
      Some (l ++ r, ht)
  end.

(** What is left of an iteration. *)
Definition iter_rest (it : fr_hash_iter_t) (ht : fr_hash_table_t) : option (chain * fr_hash_table_t) :=
  '(r, ht) ← collect (Z.to_nat (iter_bucket it)) ht; Some (iter_node it ++ r, ht).

Lemma iter_search_spec i ht r ht' :
  collect (S i) ht = Some (r, ht') ->
  match r with
  | [] => exists it, iter_search i ht = Some (0, it, ht')
  | e :: es => exists it ht1, iter_search i ht = Some (he_data e, it, ht1) /\
      iter_rest it ht1 = Some (es, ht') /\ 0 <= iter_bucket it
  end.
Proof.
  revert ht r. induction i as [|i IH]; intros ht r E; cbn [collect] in E; cbn [iter_search].
  - destruct (ensure_bucket ht (Z.of_nat 0)) as [ht1|] eqn:E1; [|done]. cbn [mbind option_bind] in *.
    destruct (get_chain ht1 (Z.of_nat 0)) as [l|] eqn:E2; [|done]. cbn [mbind option_bind] in *.
    injection E as <- <-. rewrite app_nil_r. destruct l as [|e l]; [by eexists|].
    eexists _, _. split; [done|]. split; [|cbn; lia]. unfold iter_rest. cbn [iter_bucket iter_node].
    rewrite Nat2Z.id. cbn [collect mbind option_bind]. by rewrite app_nil_r.
  - destruct (ensure_bucket ht (Z.of_nat (S i))) as [ht1|] eqn:E1; [|done]. cbn [mbind option_bind] in *.
    destruct (get_chain ht1 (Z.of_nat (S i))) as [l|] eqn:E2; [|done]. cbn [mbind option_bind] in *.
    change (ht ← ensure_bucket ht1 (Z.of_nat i); l ← get_chain ht (Z.of_nat i); '(r, ht) ← collect i ht; Some (l ++ r, ht))
      with (collect (S i) ht1) in E.
    destruct (collect (S i) ht1) as [[r1 ht2]|] eqn:E3; [|done]. injection E as <- <-.
    destruct l as [|e l]; [by apply IH|]. cbn [app].
    eexists _, _. split; [done|]. split; [|cbn; lia]. unfold iter_rest. cbn [iter_bucket iter_node].
    by rewrite Nat2Z.id, E3.
Qed.

Lemma iter_next_spec it ht r ht' :
  0 <= iter_bucket it -> iter_rest it ht = Some (r, ht') ->
  match r with
  | [] => exists it', fr_hash_table_iter_next ht it = Some (0, it', ht')
  | e :: es => exists it1 ht1, fr_hash_table_iter_next ht it = Some (he_data e, it1, ht1) /\
      iter_rest it1 ht1 = Some (es, ht') /\ 0 <= iter_bucket it1
  end.
Proof.
  intros Hb E. unfold fr_hash_table_iter_next. destruct it as [b l]. cbn [iter_bucket iter_node] in *.
  unfold iter_rest in E. cbn [iter_bucket iter_node] in E.
  destruct (collect (Z.to_nat b) ht) as [[r1 ht1]|] eqn:Ec; [|done]. injection E as <- <-.
  destruct l as [|e l]; cbn [app].
  - case_decide as Hd; [subst b; cbn in Ec; injection Ec as <- <-; by eexists|].
    replace (Z.to_nat b) with (S (Z.to_nat (b - 1))) in Ec by lia.
    pose proof (iter_search_spec _ _ _ _ Ec) as Hs. destruct r1 as [|e es]; [done|].
    destruct Hs as (it & ht2 & Es & Er). by exists it, ht2.
  - eexists _, _. split; [done|]. unfold iter_rest. cbn [iter_bucket iter_node]. by rewrite Ec.
Qed.

(** The array is filled with the data of what is left. *)
Lemma flatten_loop_spec r fuel item it room ht ht' :
  0 <= iter_bucket it -> iter_rest it ht = Some (r, ht') ->
  Forall (fun e => he_data e <> 0) r -> item <> 0 ->
  (length r < room)%nat -> (length r + 2 <= fuel)%nat ->
  flatten_loop fuel item it room ht = Some (item :: (he_data <$> r), ht').
Proof.
  revert fuel item it room ht. induction r as [|e r IH]; intros fuel item it room ht Hb E Hd Hi Hr Hf;
    (destruct fuel as [|fuel]; [lia|]); (destruct room as [|room]; [lia|]); cbn [flatten_loop];
    rewrite decide_False by done; pose proof (iter_next_spec it ht _ ht' Hb E) as Hn.
  - destruct Hn as (it' & ->). cbn [mbind option_bind]. destruct fuel as [|fuel]; [cbn in Hf; lia|].
    cbn [flatten_loop]. by rewrite decide_True.
  - destruct Hn as (it1 & ht1 & -> & Er & Hb1). cbn [mbind option_bind].
    apply list.Forall_cons in Hd as [Hd1 Hd]. cbn [length] in Hr, Hf.
    rewrite (IH fuel (he_data e) it1 room ht1); try done; [lia|lia].
Qed.

(** Below an initialised part of the table, every entry is met once. *)
Lemma collect_ok n i ht m :
  ht_repr ht m -> ht_ok n ht -> (i <= Z.to_nat (2 ^ n))%nat ->
  (forall b, Z.of_nat i <= b < 2 ^ n -> inited (ht_buckets ht) b) ->
  exists r ht', collect i ht = Some (r, ht') /\ ht_repr ht' m /\ NoDup r /\
    forall e, e ∈ r <-> in_table (ht_buckets ht) e /\ home n e < Z.of_nat i.
Proof.
  revert ht. induction i as [|i IH]; intros ht Hr Hok Hi Hin; pose proof (ho_n hash n ht Hok) as Hn.
  { exists [], ht. split_and!; [done|done|constructor|]. intros e. split; [by intros ?%not_elem_of_nil|].
    intros [_ H]. pose proof (home_range n e). lia. }
  cbn [collect].
  destruct (ensure_bucket_ok hash n ht (Z.of_nat i) Hok) as (bs & -> & F & Hok1); [lia|]. cbn [mbind option_bind].
  set (ht1 := with_buckets ht bs) in *. pose proof (ho_buckets hash n ht1 Hok1) as Hb1.
  assert (Hr1 : ht_repr ht1 m) by (eapply (repr_same n ht ht1); [done|done|done|apply F]).
  destruct (fx_entry hash n _ _ _ F) as [l El].
  assert (get_chain ht1 (Z.of_nat i) = Some l) as ->.
  { unfold get_chain, bucket. cbn [ht1 with_buckets ht_buckets]. by rewrite El. }
  cbn [mbind option_bind].
  assert (Hin1 : forall b, Z.of_nat i <= b < 2 ^ n -> inited (ht_buckets ht1) b).
  { intros b Hbi. destruct (decide (b = Z.of_nat i)) as [->|]; [by exists l|].
    apply F; [lia|]. apply Hin. lia. }
  destruct (IH ht1 Hr1 Hok1) as (r & ht2 & -> & Hr2 & Hnd & Hel); [lia|done|].
  cbn [mbind option_bind]. destruct (bo_chain hash n bs Hb1 (Z.of_nat i) l ltac:(lia) El) as (Hs & Ho & Hw).
  rewrite list.Forall_forall in Hw.
  assert (Hl : forall e, e ∈ l <-> in_table bs e /\ home n e = Z.of_nat i).
  { intros e. split.
    - intros He. split; [exists (Z.of_nat i), l; split; [lia|done]|].
      destruct (chain_home hash n bs (Z.of_nat i) e Hb1 ltac:(lia) (Hw e He)) as [?|[Hni Ho2]]; [done|].
      exfalso. apply Hni, Hin1. pose proof (home_range n e ltac:(lia)) as Hh. split; [|lia].
      destruct Ho2 as (j & _ & Hj & E & _). rewrite E. apply Z.mod_le; [lia|]. apply Z.pow_pos_nonneg; lia.
    - intros [(b & lb & H0 & Elb & He) Eh].
      pose proof (inited_range hash n bs b Hb1 H0 ltac:(by exists lb)) as Hbn.
      destruct (bo_chain hash n bs Hb1 b lb ltac:(lia) Elb) as (_ & _ & Hw2).
      pose proof (proj1 (list.Forall_forall _ _) Hw2 e He) as O1. cbn in O1.
      assert (O2 : owner bs (home n e) (he_key e)).
      { apply (owner_home hash); [done|]. fold (home n e). rewrite Eh. by exists l. }
      rewrite (owner_det _ _ _ _ O1 O2), Eh, El in Elb. by injection Elb as <-. }
  eexists _, ht2. split; [done|]. split_and!; [done| |].
  - apply list.NoDup_app. split_and!; [by apply sorted_distinct| |done].
    intros e [_ H1]%Hl [_ H2]%Hel. lia.
  - intros e. rewrite elem_of_app, Hl, Hel. cbn [ht1 with_buckets ht_buckets].
    rewrite (fx_same hash n _ _ _ F). split; [|intros [? ?]]; [intros [[? ?]|[? ?]]; (split; [done|lia])|].
    destruct (decide (home n e = Z.of_nat i)); [by left|right; split; [done|lia]].
Qed.

(** A list of the entries of the table is a list of the objects of the map. *)
Lemma entries_values ht m r :
  ht_repr ht m -> NoDup r -> (forall e, e ∈ r <-> in_table (ht_buckets ht) e) ->
  (he_data <$> r) ≡ₚ (map_to_list m).*2 /\ length r = size m.
Proof.
  intros Hr Hnd Hall. pose proof Hr as ((n & Hok) & _ & Hm). pose proof (ho_buckets hash n ht Hok) as Hb.
  assert (Hrok : forall e, e ∈ r -> entry_ok hash e) by (intros e He; apply (in_table_ok n _ e Hb); by apply Hall).
  assert (Hp : (fun e => (he_key e, he_data e)) <$> r ≡ₚ map_to_list m).
  { apply list.NoDup_Permutation; [|apply NoDup_map_to_list|].
    - apply NoDup_fmap_2_strong; [|done]. intros e e' He He' [= E1 E2].
      rewrite (entry_eta e), (entry_eta e') by auto. by rewrite E1, E2.
    - intros [k d]. rewrite elem_of_map_to_list, Hm, list_elem_of_fmap. split.
      + intros (e & [= -> ->] & He). rewrite <- entry_eta by auto. by apply Hall.
      + intros Hin. exists (Entry (reverse k) k d). split; [done|]. by apply Hall. }
  split; [by rewrite <- Hp, <- list_fmap_compose|]. by rewrite <- length_map_to_list, <- Hp, length_fmap.
Qed.

Lemma flatten_ok ht m :
  ht_repr ht m -> exists l ht', fr_hash_table_flatten ht = Some (l, ht') /\
    l ≡ₚ (map_to_list m).*2 /\ ht_repr ht' m.
Proof.
  intros Hr. pose proof Hr as ((n & Hok) & Hcnt & Hm). pose proof (ho_buckets hash n ht Hok) as Hb.
  destruct (collect_ok n (Z.to_nat (2 ^ n)) ht m Hr Hok) as (r & ht' & Ec & Hr' & Hnd & Hel); [done|lia|].
  assert (Hall : forall e, e ∈ r <-> in_table (ht_buckets ht) e).
  { intros e. rewrite Hel. split; [tauto|]. intros H. split; [done|].
    pose proof (home_range n e). pose proof (ho_n hash n ht Hok). lia. }
  assert (Hrok : forall e, e ∈ r -> entry_ok hash e) by (intros e He; apply (in_table_ok n _ e Hb); by apply Hall).
  destruct (entries_values ht m r Hr Hnd Hall) as [Hp Hlen].
  exists (he_data <$> r), ht'. split_and!; [|done|done].
  unfold fr_hash_table_flatten, fr_hash_table_num_elements, fr_hash_table_iter_init.
  rewrite Hcnt, Nat2Z.id. set (it := Iter (ht_num_buckets ht) []).
  assert (Hb0 : 0 <= iter_bucket it).
  { cbn. rewrite (ho_num hash n ht Hok). apply Z.pow_nonneg. lia. }
  assert (Er : iter_rest it ht = Some (r, ht')).
  { unfold iter_rest. cbn [it iter_bucket iter_node]. rewrite (ho_num hash n ht Hok), Ec. done. }
  pose proof (iter_next_spec it ht r ht' Hb0 Er) as Hn. destruct r as [|e r].
  - destruct Hn as (it' & ->). cbn [mbind option_bind]. cbn [flatten_loop]. by rewrite decide_True.
  - destruct Hn as (it1 & ht1 & -> & Er1 & Hb1). cbn [mbind option_bind]. cbn [length] in Hlen.
    rewrite (flatten_loop_spec r _ _ it1 _ ht1 ht'); try done; try lia.
    + apply list.Forall_forall. intros e' He'. apply (Hrok e'). by apply list_elem_of_further.
    + apply (Hrok e). apply list_elem_of_here.
Qed.

Lemma bucket_mapM bs n :
  0 <= n -> length bs = Z.to_nat n -> mapM (bucket bs) (seqZ 0 n) = Some bs.
Proof.
  intros Hn Hl. apply mapM_Some. apply Forall2_same_length_lookup_2; [by rewrite length_seqZ|].
  intros i x y Ex Ey. apply lookup_seqZ in Ex as [-> Hi]. unfold bucket. by replace (Z.to_nat (0 + Z.of_nat i)) with i by lia.
Qed.

Lemma bind_positions (bs : list (option chain)) :
  bs ≫= default [] = seq 0 (length bs) ≫= (fun i => default [] (mjoin (bs !! i))).
Proof.
  induction bs as [|b bs IH]; [done|]. cbn [length seq]. rewrite !bind_cons, IH. f_equal.
  rewrite <- fmap_S_seq. by rewrite list_fmap_bind.
Qed.

Lemma filter_all {A} (P : A -> Prop) `{!forall x, Decision (P x)} (l : list A) :
  Forall P l -> filter P l = l.
Proof. induction 1; [done|]. rewrite filter_cons, decide_True by done. by f_equal. Qed.

Lemma free_calls (bs : list (option chain)) :
  (forall l e, Some l ∈ bs -> e ∈ l -> he_data e <> 0) ->
  bs ≫= (fun b => match b with None => [] | Some l => filter (fun d => d <> 0) (he_data <$> l) end) =
  he_data <$> (bs ≫= default []).
Proof.
  induction bs as [|b bs IH]; intros H; [done|]. rewrite !bind_cons, fmap_app, IH.
  2:{ intros l e Hl. apply H. by apply list_elem_of_further. }
  f_equal. destruct b as [l|]; [|done]. cbn [default]. apply filter_all.
  apply Forall_fmap, list.Forall_forall. intros e. apply H. apply list_elem_of_here.
Qed.

Lemma table_free_ok ht m :
  ht_repr ht m -> exists l, _fr_hash_table_free true ht = Some l /\ l ≡ₚ (map_to_list m).*2.
Proof.
  intros Hr. pose proof Hr as ((n & Hok) & Hcnt & Hm). pose proof (ho_buckets hash n ht Hok) as Hb.
  pose proof (ho_n hash n ht Hok) as Hn. assert (0 < 2 ^ n) by (apply Z.pow_pos_nonneg; lia).
  unfold _fr_hash_table_free. rewrite (ho_num hash n ht Hok), bucket_mapM by (try lia; apply Hb).
  cbn [mbind option_bind]. eexists. split; [done|].
  set (chain_at := fun i : nat => default [] (mjoin (ht_buckets ht !! i))).
  set (r := seq 0 (length (ht_buckets ht)) ≫= chain_at).
  assert (Hat : forall i e, e ∈ chain_at i -> exists l, ht_buckets ht !! i = Some (Some l) /\ chain_at i = l /\ e ∈ l).
  { intros i e He. unfold chain_at in *. destruct (ht_buckets ht !! i) as [[l|]|]; cbn in *;
      [by exists l|by apply not_elem_of_nil in He..]. }
  assert (Hall : forall e, e ∈ r <-> in_table (ht_buckets ht) e).
  { intros e. unfold r. rewrite list_elem_of_bind. split.
    - intros (i & He & _). apply Hat in He as (l & El & _ & He). exists (Z.of_nat i), l.
      rewrite Nat2Z.id. split_and!; [lia|done|done].
    - intros (b & l & Hb0 & El & He). exists (Z.to_nat b). split; [unfold chain_at; by rewrite El|].
      apply elem_of_seq. apply lookup_lt_Some in El. lia. }
  assert (Hnd : NoDup r).
  { apply NoDup_bind; [| |apply NoDup_seq].
    - intros i j e Hi Hj (l & El & _ & Hel)%Hat (l' & El' & _ & Hel')%Hat.
      apply elem_of_seq in Hi, Hj. rewrite (bo_len hash n _ Hb) in Hi, Hj.
      assert (Hown : forall i l, (i < Z.to_nat (2 ^ n))%nat -> ht_buckets ht !! i = Some (Some l) -> e ∈ l ->
        owner (ht_buckets ht) (Z.of_nat i) (he_key e)).
      { intros i' l0 Hi' E0 H0. destruct (bo_chain hash n _ Hb (Z.of_nat i') l0) as (_ & _ & Hw);
          [lia|by rewrite Nat2Z.id|]. by apply (proj1 (list.Forall_forall _ _) Hw). }
      apply Nat2Z.inj. eapply owner_det; eapply Hown; eauto; lia.
    - intros i _. destruct (chain_at i) as [|e l] eqn:E; [constructor|].
      destruct (Hat i e) as (l' & El & Ec & _); [rewrite E; apply list_elem_of_here|].
      rewrite <- E, Ec. apply sorted_distinct.
      destruct (bo_chain hash n _ Hb (Z.of_nat i) l') as (Hs & _ & _); [|by rewrite Nat2Z.id|done].
      apply lookup_lt_Some in El. rewrite (bo_len hash n _ Hb) in El. lia. }
  destruct (entries_values ht m r Hr Hnd Hall) as [Hp _]. rewrite <- Hp.
  unfold r, chain_at. rewrite <- bind_positions, <- free_calls; [done|].
  intros l e [i El]%list_elem_of_lookup He. apply (in_table_ok n _ e Hb). apply Hall, list_elem_of_bind.
  exists i. split; [unfold chain_at; by rewrite El|]. apply elem_of_seq. apply lookup_lt_Some in El. lia.
Qed.

(** ** Client runs *)

Inductive ht_op :=
| OpFind (d : Z)
| OpInsert (node_ok realloc : bool) (d : Z)
| OpReplace (node_ok realloc old frees : bool) (d : Z)
| OpRemove (d : Z)
| OpDelete (frees : bool) (d : Z).

Inductive ht_result :=
| ResData (d : Z)
| ResBool (b : bool) (freed : list Z)
| ResReplace (r : Z) (old : option Z) (freed : list Z).

Definition op_data (o : ht_op) : Z :=
  match o with
  | OpFind d | OpInsert _ _ d | OpReplace _ _ _ _ d | OpRemove d | OpDelete _ d => d
  end.

Definition ht_do (o : ht_op) (ht : fr_hash_table_t) : option (ht_result * fr_hash_table_t) :=
  match o with
  | OpFind d => '(r, ht) ← fr_hash_table_find hash cmp ht d; Some (ResData r, ht)
  | OpInsert node_ok realloc d =>
      '(r, ht) ← fr_hash_table_insert hash cmp node_ok realloc ht d; Some (ResBool r [], ht)
  | OpReplace node_ok realloc old frees d =>
      '(r, o, f, ht) ← fr_hash_table_replace hash cmp node_ok realloc old frees ht d;
      Some (ResReplace r o f, ht)
  | OpRemove d => '(r, ht) ← fr_hash_table_remove hash cmp ht d; Some (ResData r, ht)
  | OpDelete frees d =>
      '(r, f, ht) ← fr_hash_table_delete hash cmp frees ht d; Some (ResBool r f, ht)
  end.

(** The specification: a finite map from hashes to objects. *)
Definition map_do (o : ht_op) (m : gmap Z Z) : ht_result * gmap Z Z :=
  let k := hash (op_data o) in
  match o, m !! k with
  | OpFind _, x => (ResData (default 0 x), m)
  | OpInsert true _ d, None => (ResBool true [], <[k := d]> m)
  | OpInsert _ _ _, _ => (ResBool false [], m)
  | OpReplace _ _ old frees d, Some x =>
      (ResReplace 0 (if old then Some x else None) (if old then [] else if frees then [x] else []),
       <[k := d]> m)
  | OpReplace true _ old _ d, None => (ResReplace 1 (if old then Some 0 else None) [], <[k := d]> m)
  | OpReplace false _ old _ _, None => (ResReplace (-1) (if old then Some 0 else None) [], m)
  | OpRemove _, x => (ResData (default 0 x), delete k m)
  | OpDelete frees _, Some x => (ResBool true (if frees then [x] else []), delete k m)
  | OpDelete _ _, None => (ResBool false [], m)
  end.

Fixpoint ht_run (os : list ht_op) (ht : fr_hash_table_t) : option (list ht_result * fr_hash_table_t) :=
  match os with
  | [] => Some ([], ht)
  | o :: os => '(r, ht) ← ht_do o ht; '(rs, ht) ← ht_run os ht; Some (r :: rs, ht)
  end.

Fixpoint map_run (os : list ht_op) (m : gmap Z Z) : list ht_result * gmap Z Z :=
  match os with
  | [] => ([], m)
  | o :: os => let '(r, m) := map_do o m in let '(rs, m) := map_run os m in (r :: rs, m)
  end.

Lemma map_do_size o m : (size (map_do o m).2 <= S (size m))%nat.
Proof.
  assert (Hi : forall k d, (size (<[k := d]> m) <= S (size m))%nat).
  { intros k d. destruct (m !! k) eqn:E; [rewrite map_size_insert_Some by (by eexists)|
      rewrite map_size_insert_None by done]; lia. }
  assert (Hd : forall k, (size (delete k m) <= S (size m))%nat).
  { intros k. rewrite map_size_delete. destruct (m !! k); unfold id; lia. }
  destruct o as [d|[] re d|[] re old fr d|d|fr d]; unfold map_do; cbn [op_data];
    destruct (m !! hash d) as [x|]; cbn [snd]; auto.
Qed.

Lemma ht_do_ok o ht m :
  ht_repr ht m -> op_data o <> 0 -> Z.of_nat (size m) < 2 ^ 31 - 1 ->
  exists ht', ht_do o ht = Some ((map_do o m).1, ht') /\ ht_repr ht' (map_do o m).2.
Proof.
  intros Hr Hd Hsz. destruct o as [d|node_ok re d|node_ok re old fr d|d|fr d]; cbn [op_data] in Hd;
    unfold map_do; cbn [op_data ht_do].
  - destruct (find_data_ok ht m d Hr) as (ht' & -> & Hr'). by exists ht'.
  - destruct (insert_ok node_ok re ht m d Hr Hd Hsz) as (ht' & -> & Hr'). exists ht'.
    cbn [mbind option_bind]. by destruct node_ok, (m !! hash d) eqn:E.
  - destruct (replace_ok node_ok re old fr ht m d Hr Hd Hsz) as (ht' & -> & Hr'). exists ht'.
    cbn [mbind option_bind]. destruct (m !! hash d) as [x|] eqn:E.
    + rewrite bool_decide_eq_true_2, orb_true_r in Hr' by (by eexists). by destruct node_ok.
    + rewrite bool_decide_eq_false_2, orb_false_r in Hr' by (by intros [? ?]). by destruct node_ok.
  - destruct (remove_ok ht m d Hr ltac:(lia)) as (ht' & -> & Hr'). exists ht'.
    by destruct (m !! hash d).
  - destruct (delete_ok fr ht m d Hr ltac:(lia)) as (ht' & -> & Hr'). exists ht'.
    cbn [mbind option_bind]. destruct (m !! hash d) eqn:E; [done|]. by rewrite delete_id in Hr'.
Qed.

Lemma ht_run_ok os ht m :
  ht_repr ht m -> Forall (fun o => op_data o <> 0) os ->
  Z.of_nat (size m) + Z.of_nat (length os) < 2 ^ 31 ->
  exists ht', ht_run os ht = Some ((map_run os m).1, ht') /\ ht_repr ht' (map_run os m).2.
Proof.
  revert ht m. induction os as [|o os IH]; intros ht m Hr Hd Hsz; [by exists ht|].
  apply list.Forall_cons in Hd as [Hd Hds]. cbn [length] in Hsz. cbn [ht_run map_run].
  destruct (ht_do_ok o ht m Hr Hd) as (ht1 & -> & Hr1); [lia|]. pose proof (map_do_size o m) as Hs.
  destruct (map_do o m) as [r m1]. cbn [fst snd mbind option_bind] in *.
  destruct (IH ht1 m1 Hr1 Hds) as (ht2 & -> & Hr2); [lia|].
  destruct (map_run os m1) as [rs m2]. by exists ht2.
Qed.
End Operations.

(** C8: a hash table is a finite map.  For any hash function and comparison under which
    objects with the same hash are equal, every sequence of fewer than 2^31 finds,
    inserts, replacements, removals and deletions on a new table, allocation failures
    included, returns what a map from hashes to objects returns; afterwards
    [fr_hash_table_flatten] lists each object once, in an array of the right length, and
    freeing the table frees each object once.
    Growing the table and cutting chains into buckets are invisible. *)
Theorem hash_table_refines_map (hash : Z -> Z) (cmp : option (Z -> Z -> Z)) (os : list ht_op) :
  (forall d, 0 <= hash d < 2 ^ 32) ->
  (forall f a b, cmp = Some f -> hash a = hash b -> f a b = 0) ->
  Forall (fun o => op_data o <> 0) os -> Z.of_nat (length os) < 2 ^ 31 ->
  exists ht l ht' fs, ht_run hash cmp os fr_hash_table_alloc = Some ((map_run hash os ∅).1, ht) /\
    fr_hash_table_num_elements ht = Z.of_nat (size (map_run hash os ∅).2) /\
    fr_hash_table_flatten ht = Some (l, ht') /\ l ≡ₚ (map_to_list (map_run hash os ∅).2).*2 /\
    _fr_hash_table_free true ht = Some fs /\ fs ≡ₚ (map_to_list (map_run hash os ∅).2).*2.
Proof.
  intros Hh Hc Hd Hn.
  destruct (ht_run_ok hash cmp Hh Hc os fr_hash_table_alloc ∅ (table_alloc_ok hash) Hd) as (ht & E & Hr);
    [by rewrite map_size_empty|].
  destruct (flatten_ok hash ht _ Hr) as (l & ht' & Ef & Hp & _).
  destruct (table_free_ok hash ht _ Hr) as (fs & Efs & Hfs).
  exists ht, l, ht', fs. split_and!; [done|apply Hr|done..].
Qed.

Lemma hash_table_refines_map_witness :
  exists ht, ht_run u32 (Some (fun a b => u32 a - u32 b))
    [OpInsert true true 5; OpInsert true true 69; OpFind 69; OpDelete true 5; OpFind 5]
    fr_hash_table_alloc =
    Some ([ResBool true []; ResBool true []; ResData 69; ResBool true [5]; ResData 0], ht).
Proof.
  destruct (hash_table_refines_map u32 (Some (fun a b => u32 a - u32 b))
    [OpInsert true true 5; OpInsert true true 69; OpFind 69; OpDelete true 5; OpFind 5])
    as (ht & l & ht' & fs & E & _);
    [intros d; apply u32_range|intros f a b [= <-] E; lia
    |by apply (bool_decide_unpack _); vm_compute|cbn; lia|].
  exists ht. exact E.
Defined.

(** The buckets of a new table are empty. *)
Lemma alloc_bucket entry :
  0 <= entry < 64 -> exists bs, ensure_bucket fr_hash_table_alloc entry = Some (HT 0 64 160 63 bs) /\
    bs !! Z.to_nat entry = Some (Some []) /\ length bs = 64%nat.
Proof.
  assert (H : forallb (fun i => match ensure_bucket fr_hash_table_alloc (Z.of_nat i) with
    | Some ht => bool_decide (ht_num_elements ht = 0 /\ ht_num_buckets ht = 64 /\ ht_next_grow ht = 160 /\
        ht_mask ht = 63 /\ ht_buckets ht !! i = Some (Some []) /\ length (ht_buckets ht) = 64%nat)
    | None => false end) (seq 0 64) = true) by by vm_compute.
  rewrite forallb_forall in H. intros He. specialize (H (Z.to_nat entry)). rewrite in_seq in H.
  specialize (H ltac:(lia)). rewrite Z2Nat.id in H by lia.
  destruct (ensure_bucket fr_hash_table_alloc entry) as [[? ? ? ? bs]|]; [|done].
  apply bool_decide_eq_true in H as (<- & <- & <- & <- & H1 & H2). by exists bs.
Qed.

(** One insertion in a small table whose bucket is in use. *)
Lemma insert_at hash f x bs n l l' :
  let entry := Z.land (hash x) 63 in
  0 <= n < 100 -> 0 <= entry -> bs !! Z.to_nat entry = Some (Some l) ->
  list_insert (Some f) l (Entry (reverse (hash x)) (hash x) x) = Some l' ->
  fr_hash_table_insert hash (Some f) true true (HT n 64 160 63 bs) x =
    Some (true, HT (n + 1) 64 160 63 (<[Z.to_nat entry := Some l']> bs)).
Proof.
  intros entry Hn He Eb Ei. unfold fr_hash_table_insert. cbn [ht_mask]. fold entry.
  unfold ensure_bucket, bucket. cbn [ht_buckets]. rewrite Eb. cbn [mbind option_bind negb].
  unfold get_chain, bucket. cbn [ht_buckets]. rewrite Eb. cbn [mbind option_bind]. rewrite Ei.
  unfold set_chain, set_bucket. cbn [ht_buckets].
  rewrite decide_True by (by eapply lookup_lt_Some). cbn [mbind option_bind ht_num_elements
    ht_num_buckets ht_next_grow ht_mask ht_buckets].
  rewrite u32_small by lia. rewrite decide_False by lia. done.
Qed.

(** Two objects with the same hash break the table.  [list_insert] puts the greater of
    two colliding objects behind the smaller one, where [list_find] does not look: an
    object that was just inserted is not found, and can be inserted again. *)
Theorem hash_table_collision_lost (hash : Z -> Z) (f : Z -> Z -> Z) (a b : Z) :
  0 <= hash a < 2 ^ 32 -> hash a = hash b -> f b a > 0 ->
  exists ht, ht_run hash (Some f)
      [OpInsert true true a; OpInsert true true b; OpFind b; OpInsert true true b]
      fr_hash_table_alloc =
    Some ([ResBool true []; ResBool true []; ResData 0; ResBool true []], ht).
Proof.
  intros Ha E Hf. set (e := Z.land (hash a) 63).
  assert (He : 0 <= e < 64) by (unfold e; change 63 with (2 ^ 6 - 1); rewrite land_mask by lia;
    apply Z.mod_pos_bound; lia).
  destruct (alloc_bucket e He) as (bs & Eb & Ebe & Hl).
  assert (Ea : fr_hash_table_insert hash (Some f) true true fr_hash_table_alloc a =
    fr_hash_table_insert hash (Some f) true true (HT 0 64 160 63 bs) a).
  { unfold fr_hash_table_insert. cbn [ht_mask fr_hash_table_alloc]. change (FR_HASH_NUM_BUCKETS - 1) with 63.
    fold e fr_hash_table_alloc. rewrite Eb. unfold ensure_bucket at 1. cbn [ht_buckets]. unfold bucket at 1.
    by rewrite Ebe. }
  set (na := Entry (reverse (hash a)) (hash a) a). set (nb := Entry (reverse (hash b)) (hash b) b).
  assert (Hlook : forall (bs : list (option chain)) l, length bs = 64%nat ->
    (<[Z.to_nat e := Some l]> bs) !! Z.to_nat e = Some (Some l)).
  { intros bs' l Hl'. apply list_lookup_insert_eq. lia. }
  assert (Eab : forall l, list_insert (Some f) (na :: l) nb = Some (na :: nb :: l)).
  { intros l. cbn [list_insert na nb he_reversed he_data]. rewrite <- E.
    rewrite decide_False, decide_True, decide_True by lia. done. }
  assert (Efb : forall l, list_find (Some f) (na :: l) (reverse (hash b)) b = None).
  { intros l. cbn [list_find na he_reversed he_data]. rewrite E, decide_True, decide_True by done. done. }
  assert (Heb : Z.land (hash b) 63 = e) by (unfold e; by rewrite E).
  cbn [ht_run ht_do]. rewrite Ea.
  rewrite (insert_at hash f a bs 0 [] [na]) by (done || apply He).
  cbn [mbind option_bind]. fold e.
  rewrite (insert_at hash f b _ _ [na] [na; nb]) by (rewrite ?Heb; (done || lia || by apply Hlook)).
  cbn [mbind option_bind]. rewrite Heb, list_insert_insert_eq.
  unfold fr_hash_table_find, fr_hash_table_find_by_key, hash_table_find. cbn [ht_mask]. rewrite Heb.
  unfold ensure_bucket at 1, get_chain at 1, bucket. cbn [ht_buckets].
  rewrite Hlook by done. cbn [mbind option_bind ht_buckets]. rewrite Hlook by done.
  cbn [mbind option_bind]. rewrite Efb. cbn [node_data mbind option_bind].
  rewrite (insert_at hash f b _ _ [na; nb] [na; nb; nb]) by (rewrite ?Heb; (done || lia || by apply Hlook)).
  by eexists.
Qed.

Lemma hash_table_collision_lost_witness :
  exists ht, ht_run (fun d => d mod 10) (Some Z.sub)
      [OpInsert true true 1; OpInsert true true 11; OpFind 11; OpInsert true true 11]
      fr_hash_table_alloc =
    Some ([ResBool true []; ResBool true []; ResData 0; ResBool true []], ht).
Proof. apply (hash_table_collision_lost (fun d => d mod 10) Z.sub 1 11); by vm_compute. Defined.

(** [fr_hash_update] does not continue [fr_hash]: the one multiplies before it mixes the
    byte in, the other after. *)
Example fr_hash_update_differs : fr_hash_update [98] (fr_hash [97]) <> fr_hash [97; 98].
Proof. by vm_compute. Qed.
