(* ===== verification/RbTree.v ===== *)
(** * Red-black trees: [lib/util/rb.c], [lib/util/rb.h]

    The trees are linked nodes with parent pointers and one shared sentinel [NIL], as in
    the source: the memory is a map from addresses to nodes, and every operation reads
    and writes fields through it.  A left and a right version of the same code are one
    definition that takes the side.  The comparison function is a parameter; a node is
    either part of the object ([inline], at [offset]) or allocated ([alloc] gives the
    address, [NULL] when memory is exhausted).  [None] is an access outside the memory or
    fuel running out. *)
From stdpp Require Import sorting.
From S2P Require Import Prelude StateMonad.

Inductive fr_rb_colour_t := BLACK | RED.
#[global] Instance rb_colour_eq_dec : EqDecision fr_rb_colour_t.
Proof. solve_decision. Defined.

Record fr_rb_node_t := Node {
  left : Z;
  right : Z;
  parent : Z;
  data : Z;
  colour : fr_rb_colour_t;
  being_freed : bool
}.

Definition NULL : Z := 0.
(** The address of the static [sentinel]. *)
Definition NIL : Z := 1.
Definition sentinel : fr_rb_node_t := Node NIL NIL NULL NULL BLACK false.

Record fr_rb_tree_t := Tree { root : Z; tree_being_freed : bool; num_elements : Z }.

(** The memory of the nodes, the tree, and the objects [data_free] was called on. *)
Record world := World { mem : gmap Z fr_rb_node_t; tree : fr_rb_tree_t; freed : list Z }.

(** Computations that read and write the world. *)
Abbreviation M := (st world).

Definition rd {A} (f : fr_rb_node_t -> A) (p : Z) : M A :=
  fun w => n ← mem w !! p; Some (f n, w).
Definition wr (f : fr_rb_node_t -> fr_rb_node_t) (p : Z) : M unit :=
  fun w => n ← mem w !! p; Some ((), World (<[p := f n]> (mem w)) (tree w) (freed w)).
Definition rd_root : M Z := fun w => Some (root (tree w), w).
Definition wr_root (p : Z) : M unit :=
  fun w => Some ((), World (mem w) (Tree p (tree_being_freed (tree w)) (num_elements (tree w))) (freed w)).

Inductive side := L | R.
#[global] Instance side_eq_dec : EqDecision side.
Proof. solve_decision. Defined.
Definition opp (s : side) : side := match s with L => R | R => L end.

Definition child (s : side) (n : fr_rb_node_t) : Z := match s with L => left n | R => right n end.
Definition with_child (s : side) (p : Z) (n : fr_rb_node_t) : fr_rb_node_t :=
  match s with
  | L => Node p (right n) (parent n) (data n) (colour n) (being_freed n)
  | R => Node (left n) p (parent n) (data n) (colour n) (being_freed n)
  end.
Definition with_parent (p : Z) (n : fr_rb_node_t) : fr_rb_node_t :=
  Node (left n) (right n) p (data n) (colour n) (being_freed n).
Definition with_colour (c : fr_rb_colour_t) (n : fr_rb_node_t) : fr_rb_node_t :=
  Node (left n) (right n) (parent n) (data n) c (being_freed n).
Definition with_data (d : Z) (n : fr_rb_node_t) : fr_rb_node_t :=
  Node (left n) (right n) (parent n) d (colour n) (being_freed n).
Definition with_being_freed (n : fr_rb_node_t) : fr_rb_node_t :=
  Node (left n) (right n) (parent n) (data n) (colour n) true.

(** ** Rotations *)

(** The child pointer of the parent, or the root pointer, is redirected from [x] to [y]. *)
Definition relink (s : side) (x y px : Z) : M unit :=
  if decide (px <> NIL) then
    c ← rd (child s) px;
    if decide (x = c) then wr (with_child s y) px else wr (with_child (opp s) y) px
  else wr_root y.

Definition rotate (s : side) (x : Z) : M unit :=
  y ← rd (child (opp s)) x;
  (* establish x->right link *)
  yl ← rd (child s) y;
  _ ← wr (with_child (opp s) yl) x;
  _ ← when (yl <> NIL) (wr (with_parent x) yl);
  (* establish y->parent link *)
  px ← rd parent x;
  _ ← when (y <> NIL) (wr (with_parent px) y);
  _ ← relink s x y px;
  (* link x and y *)
  _ ← wr (with_child s x) y;
  when (x <> NIL) (wr (with_parent y) x).
Definition rotate_left : Z -> M unit := rotate L.
Definition rotate_right : Z -> M unit := rotate R.
Definition rotate_to (s : side) : Z -> M unit := match s with L => rotate_left | R => rotate_right end.

(** ** Insertion *)

(** The body of the loop when [x->parent] is the child of its parent on side [s]; the
    next [x]. *)
Definition insert_case (s : side) (x px gp : Z) : M Z :=
  y ← rd (child (opp s)) gp;
  cy ← rd colour y;
  if decide (cy = RED) then
    _ ← wr (with_colour BLACK) px;
    _ ← wr (with_colour BLACK) y;
    _ ← wr (with_colour RED) gp;
    mret gp
  else
    c ← rd (child (opp s)) px;
    x ← (if decide (x = c) then _ ← rotate_to s px; mret px else mret x);
    px ← rd parent x;
    _ ← wr (with_colour BLACK) px;
    gp ← rd parent px;
    _ ← wr (with_colour RED) gp;
    _ ← rotate_to (opp s) gp;
    mret x.

Fixpoint insert_fixup_loop (fuel : nat) (x : Z) : M unit :=
  match fuel with
  | O => fail
  | S fuel' =>
      r ← rd_root;
      if decide (x = r) then mret () else
      px ← rd parent x;
      cp ← rd colour px;
      if decide (cp <> RED) then mret () else
      gp ← rd parent px;
      gl ← rd left gp;
      x ← insert_case (if decide (px = gl) then L else R) x px gp;
      insert_fixup_loop fuel' x
  end.

Definition insert_fixup (fuel : nat) (x : Z) : M unit :=
  _ ← insert_fixup_loop fuel x;
  r ← rd_root;
  wr (with_colour BLACK) r.

(** ** Deletion *)

(** The second half of the loop body: the sibling [w] is black. *)
Definition delete_black_sibling (s : side) (p w : Z) : M (Z * Z) :=
  wn ← rd (child s) w;
  cn ← rd colour wn;
  wf ← rd (child (opp s)) w;
  cf ← rd colour wf;
  if decide (cn = BLACK /\ cf = BLACK) then
    _ ← when (w <> NIL) (wr (with_colour RED) w);
    pp ← rd parent p;
    mret (p, pp)
  else
    w ← (if decide (cf = BLACK) then
           _ ← when (wn <> NIL) (wr (with_colour BLACK) wn);
           _ ← wr (with_colour RED) w;
           _ ← rotate_to (opp s) w;
           rd (child (opp s)) p
         else mret w);
    cp ← rd colour p;
    _ ← wr (with_colour cp) w;
    _ ← when (p <> NIL) (wr (with_colour BLACK) p);
    wf ← rd (child (opp s)) w;
    cf ← rd colour wf;
    _ ← when (cf <> BLACK) (wr (with_colour BLACK) wf);
    _ ← rotate_to s p;
    r ← rd_root;
    mret (r, p).

(** The body of the loop when [x] is the child of [parent] on side [s]; the next [x] and
    [parent]. *)
Definition delete_case (s : side) (p : Z) : M (Z * Z) :=
  w ← rd (child (opp s)) p;
  cw ← rd colour w;
  w ← (if decide (cw = RED) then
         _ ← wr (with_colour BLACK) w;
         _ ← wr (with_colour RED) p;
         _ ← rotate_to s p;
         rd (child (opp s)) p
       else mret w);
  delete_black_sibling s p w.

(** The last [x]. *)
Fixpoint delete_fixup_loop (fuel : nat) (x p : Z) : M Z :=
  match fuel with
  | O => fail
  | S fuel' =>
      r ← rd_root;
      if decide (x = r) then mret x else
      cx ← rd colour x;
      if decide (cx <> BLACK) then mret x else
      l ← rd left p;
      '(x, p) ← delete_case (if decide (x = l) then L else R) p;
      delete_fixup_loop fuel' x p
  end.

Definition delete_fixup (fuel : nat) (x p : Z) : M unit :=
  x ← delete_fixup_loop fuel x p;
  when (x <> NIL) (wr (with_colour BLACK) x).

(** [while (y->left != NIL) y = y->left]. *)
Fixpoint leftmost (fuel : nat) (y : Z) : M Z :=
  match fuel with
  | O => fail
  | S fuel' => l ← rd left y; if decide (l <> NIL) then leftmost fuel' l else mret y
  end.

Section Operations.
Variable data_cmp : Z -> Z -> Z.
Variable inline : bool.
Variable offset : Z.
Variable frees : bool.
Variable alloc : gmap Z fr_rb_node_t -> Z.

(** Loops walk along a path of nodes. *)
Definition fuel_of (w : world) : nat := S (S (size (mem w))).
Definition with_fuel {A} (f : nat -> M A) : M A := fun w => f (fuel_of w) w.

Definition data_free (d : Z) : M unit :=
  fun w => Some ((), World (mem w) (tree w) (freed w ++ [d])).
Definition talloc_free (p : Z) : M unit :=
  fun w => Some ((), World (delete p (mem w)) (tree w) (freed w)).
Definition wr_tree (f : fr_rb_tree_t -> fr_rb_tree_t) : M unit :=
  fun w => Some ((), World (mem w) (f (tree w)) (freed w)).

Definition node_data_free (p : Z) : M unit :=
  fr ← rd being_freed p;
  if negb frees || (fr : bool) then mret () else
  _ ← wr with_being_freed p;
  d ← rd data p;
  data_free d.

Definition node_alloc (d : Z) : M Z :=
  fun w => Some (if inline then d + offset else alloc (mem w), w).

Definition node_free (p : Z) (free_data : bool) : M unit :=
  if inline then
    if free_data && frees then node_data_free p
    else wr (fun _ => Node NULL NULL NULL NULL BLACK false) p
  else
    _ ← (if free_data then node_data_free p else mret ());
    talloc_free p.

Definition add_elements (k : Z) : M unit :=
  wr_tree (fun t => Tree (root t) (tree_being_freed t) (u32 (num_elements t + k))).

Definition rd_being_freed : M bool := fun w => Some (tree_being_freed (tree w), w).

(** [*x = (fr_rb_node_t){ ... }]. *)
Definition wr_node (p : Z) (n : fr_rb_node_t) : M unit :=
  fun w => Some ((), World (<[p := n]> (mem w)) (tree w) (freed w)).

Definition delete_internal (z : Z) (free_data : bool) : M unit :=
  if decide (z = NULL \/ z = NIL) then mret () else
  zl ← rd left z;
  zr ← rd right z;
  y ← (if decide (zl = NIL \/ zr = NIL) then mret z else with_fuel (fun fuel => leftmost fuel zr));
  (* x is y's only child *)
  yl ← rd left y;
  x ← (if decide (yl <> NIL) then mret yl else rd right y);
  (* remove y from the parent chain *)
  p ← rd parent y;
  _ ← when (x <> NIL) (wr (with_parent p) x);
  _ ← relink L y x p;
  cy ← rd colour y;
  _ ← (if decide (y <> z) then
         y_data ← rd data y;
         _ ← when (cy = BLACK /\ p <> NULL) (with_fuel (fun fuel => delete_fixup fuel x p));
         nz ← rd id z;
         _ ← wr (fun _ => nz) y;
         _ ← wr (with_data y_data) y;
         py ← rd parent y;
         _ ← (if decide (py = NIL) then wr_root y
              else
                l ← rd left py;
                _ ← when (l = z) (wr (with_child L y) py);
                r ← rd right py;
                when (r = z) (wr (with_child R y) py));
         yl ← rd left y;
         pl ← rd parent yl;
         _ ← when (pl = z) (wr (with_parent y) yl);
         yr ← rd right y;
         pr ← rd parent yr;
         _ ← when (pr = z) (wr (with_parent y) yr);
         node_free z free_data
       else
         _ ← when (cy = BLACK) (with_fuel (fun fuel => delete_fixup fuel x p));
         node_free y free_data);
  add_elements (-1).

(** The search of [insert_node]: the node with equal data, or the last node visited. *)
Fixpoint insert_search (fuel : nat) (d current p : Z) : M (Z + Z) :=
  match fuel with
  | O => fail
  | S fuel' =>
      if decide (current = NIL) then mret (inr p) else
      cd ← rd data current;
      let result := data_cmp d cd in
      if decide (result = 0) then mret (inl current) else
      next ← rd (child (if decide (result < 0) then L else R)) current;
      insert_search fuel' d next current
  end.

(** The result and the existing node. *)
Definition insert_node (d : Z) : M (Z * Z) :=
  fr ← rd_being_freed;
  if (fr : bool) then mret (-1, NULL) else
  r ← rd_root;
  found ← with_fuel (fun fuel => insert_search fuel d r NIL);
  match found with
  | inl existing => mret (1, existing)
  | inr p =>
      x ← node_alloc d;
      if decide (x = NULL) then mret (-1, NULL) else
      _ ← wr_node x (Node NIL NIL p d RED false);
      _ ← (if decide (p <> NIL) then
             pd ← rd data p;
             wr (with_child (if decide (data_cmp d pd <= 0) then L else R) x) p
           else wr_root x);
      _ ← with_fuel (fun fuel => insert_fixup fuel x);
      _ ← add_elements 1;
      mret (0, NULL)
  end.

Fixpoint find_loop (fuel : nat) (d current : Z) : M Z :=
  match fuel with
  | O => fail
  | S fuel' =>
      if decide (current = NIL) then mret NULL else
      cd ← rd data current;
      let result := data_cmp d cd in
      if decide (result = 0) then mret current else
      next ← rd (child (if decide (result < 0) then L else R)) current;
      find_loop fuel' d next
  end.

Definition find_node (d : Z) : M Z :=
  fr ← rd_being_freed;
  if (fr : bool) then mret NULL else
  r ← rd_root;
  with_fuel (fun fuel => find_loop fuel d r).

Definition fr_rb_find (d : Z) : M Z :=
  fr ← rd_being_freed;
  if (fr : bool) then mret NULL else
  x ← find_node d;
  if decide (x = NULL) then mret NULL else rd data x.

(** The result and [*found]. *)
Definition fr_rb_find_or_insert (d : Z) : M (Z * Z) :=
  '(r, existing) ← insert_node d;
  if decide (r = 1) then f ← rd data existing; mret (1, f)
  else if decide (r = 0) then mret (0, NULL)
  else mret (-1, NULL).

Definition fr_rb_insert (d : Z) : M bool :=
  '(r, _) ← insert_node d;
  mret (bool_decide (r = 0)).

(** [keep_old] tells whether the caller asked for the old data; the result and [*old]. *)
Definition fr_rb_replace (keep_old : bool) (d : Z) : M (Z * option Z) :=
  '(r, node) ← insert_node d;
  if decide (r = 1) then
    old_data ← rd data node;
    _ ← (if inline then
           _ ← delete_internal node false;
           _ ← insert_node d;
           mret ()
         else wr (with_data d) node);
    _ ← (if negb keep_old && frees then data_free old_data else mret ());
    mret (1, if keep_old then Some old_data else None)
  else if decide (r = 0) then mret (0, if keep_old then Some NULL else None)
  else mret (-1, if keep_old then Some NULL else None).

Definition fr_rb_remove (d : Z) : M Z :=
  fr ← rd_being_freed;
  if (fr : bool) then mret NULL else
  node ← find_node d;
  if decide (node = NULL) then mret NULL else
  fr ← rd being_freed node;
  node_data ← rd data node;
  if (fr : bool) then mret node_data else
  _ ← delete_internal node false;
  mret node_data.

Definition fr_rb_delete (d : Z) : M bool :=
  fr ← rd_being_freed;
  if (fr : bool) then mret false else
  node ← find_node d;
  if decide (node = NULL) then mret false else
  fr ← rd being_freed node;
  if (fr : bool) then mret true else
  _ ← delete_internal node true;
  mret true.

Definition fr_rb_node_inline_in_tree (n : fr_rb_node_t) : bool :=
  bool_decide (left n <> NULL /\ right n <> NULL /\ parent n <> NULL /\ being_freed n = false).

Definition fr_rb_remove_by_inline_node (node : Z) : M Z :=
  in_tree ← rd fr_rb_node_inline_in_tree node;
  if negb in_tree then mret NULL else
  node_data ← rd data node;
  _ ← delete_internal node false;
  mret node_data.

Definition fr_rb_delete_by_inline_node (node : Z) : M bool :=
  in_tree ← rd fr_rb_node_inline_in_tree node;
  if negb in_tree then mret false else
  _ ← delete_internal node true;
  mret true.

Definition fr_rb_num_elements : M Z := fun w => Some (num_elements (tree w), w).

(** ** Freeing the tree *)

Fixpoint free_walker (fuel : nat) (x : Z) : M unit :=
  match fuel with
  | O => fail
  | S fuel' =>
      l ← rd left x;
      _ ← when (l <> NIL) (free_walker fuel' l);
      r ← rd right x;
      _ ← when (r <> NIL) (free_walker fuel' r);
      node_free x true
  end.

(** The destructor of the tree, up to [talloc_free_children]. *)
Definition _tree_free : M Z :=
  fr ← rd_being_freed;
  if (fr : bool) then mret (-1) else
  _ ← wr_tree (fun t => Tree (root t) true (num_elements t));
  r ← rd_root;
  _ ← when (r <> NIL /\ frees = true) (with_fuel (fun fuel => free_walker fuel r));
  _ ← wr_tree (fun t => Tree NIL (tree_being_freed t) 0);
  mret 0.
End Operations.

(** [_fr_rb_init], with an [offset] that is in range. *)
Definition _fr_rb_init (m : gmap Z fr_rb_node_t) : world :=
  World (<[NIL := sentinel]> m) (Tree NIL false 0) [].

(** ** Iteration *)

Record fr_rb_iter_inorder_t := InIter { in_node : Z; in_next : Z }.

(** The first object and the iterator; [None] in place of the iterator when it is not
    written. *)
Definition fr_rb_iter_init_inorder : M (Z * option fr_rb_iter_inorder_t) :=
  x ← rd_root;
  if decide (x = NIL) then mret (NULL, None) else
  x ← with_fuel (fun fuel => leftmost fuel x);
  d ← rd data x;
  mret (d, Some (InIter x NULL)).

(** [while ((x != NIL) && (y == x->right))]. *)
Fixpoint climb (fuel : nat) (x y : Z) : M Z :=
  match fuel with
  | O => fail
  | S fuel' =>
      if decide (x = NIL) then mret x else
      r ← rd right x;
      if decide (y = r) then p ← rd parent x; climb fuel' p x else mret x
  end.

Definition fr_rb_iter_next_inorder (iter : fr_rb_iter_inorder_t) : M (Z * fr_rb_iter_inorder_t) :=
  if decide (in_node iter = NIL) then mret (NULL, iter) else
  if decide (in_node iter = NULL) then
    d ← rd data (in_next iter);
    mret (d, InIter (in_next iter) NULL)
  else
    let x := in_node iter in
    r ← rd right x;
    x ← (if decide (r <> NIL) then with_fuel (fun fuel => leftmost fuel r)
         else p ← rd parent x; with_fuel (fun fuel => climb fuel p x));
    d ← rd data x;
    mret (d, InIter x (in_next iter)).

(** The iterator that holds the node saved for the next turn. *)
Definition fr_rb_iter_delete_inorder (inline frees : bool) (iter : fr_rb_iter_inorder_t)
    : M fr_rb_iter_inorder_t :=
  let x := in_node iter in
  if decide (x = NIL) then mret iter else
  '(_, iter) ← fr_rb_iter_next_inorder iter;
  _ ← delete_internal inline frees x true;
  mret (InIter NULL (in_node iter)).

Record fr_rb_iter_preorder_t := PreIter { pre_node : Z }.

Definition fr_rb_iter_init_preorder : M (Z * option fr_rb_iter_preorder_t) :=
  x ← rd_root;
  if decide (x = NIL) then mret (NULL, None) else
  d ← rd data x;
  mret (d, Some (PreIter x)).

(** [for (; (y = x->parent) != NIL; x = y)]: the right child still to be visited, or [NIL]. *)
Fixpoint climb_right (fuel : nat) (x : Z) : M Z :=
  match fuel with
  | O => fail
  | S fuel' =>
      y ← rd parent x;
      if decide (y = NIL) then mret NIL else
      r ← rd right y;
      if decide (r <> NIL /\ r <> x) then mret r else climb_right fuel' y
  end.

Definition fr_rb_iter_next_preorder (iter : fr_rb_iter_preorder_t) : M (Z * fr_rb_iter_preorder_t) :=
  let x := pre_node iter in
  if decide (x = NIL) then mret (NULL, iter) else
  l ← rd left x;
  if decide (l <> NIL) then d ← rd data l; mret (d, PreIter l) else
  r ← rd right x;
  if decide (r <> NIL) then d ← rd data r; mret (d, PreIter r) else
  x ← with_fuel (fun fuel => climb_right fuel x);
  if decide (x = NIL) then mret (NULL, PreIter NIL) else
  d ← rd data x;
  mret (d, PreIter x).

Record fr_rb_iter_postorder_t := PostIter { post_node : Z }.

(** The deepest leaf to the left. *)
Fixpoint deepest (fuel : nat) (x : Z) : M Z :=
  match fuel with
  | O => fail
  | S fuel' =>
      l ← rd left x;
      if decide (l <> NIL) then deepest fuel' l else
      r ← rd right x;
      if decide (r = NIL) then mret x else deepest fuel' r
  end.

Definition fr_rb_iter_init_postorder : M (Z * option fr_rb_iter_postorder_t) :=
  x ← rd_root;
  if decide (x = NIL) then mret (NULL, None) else
  x ← with_fuel (fun fuel => deepest fuel x);
  d ← rd data x;
  mret (d, Some (PostIter x)).

Definition fr_rb_iter_next_postorder (iter : fr_rb_iter_postorder_t) : M (Z * fr_rb_iter_postorder_t) :=
  let x := post_node iter in
  if decide (x = NIL) then mret (NULL, iter) else
  y ← rd parent x;
  if decide (y = NIL) then mret (NULL, PostIter NIL) else
  r ← rd right y;
  if decide (r = NIL \/ r = x) then d ← rd data y; mret (d, PostIter y) else
  x ← with_fuel (fun fuel => deepest fuel r);
  d ← rd data x;
  mret (d, PostIter x).

(** [DEF_RB_FLATTEN_FUNC]; [room] entries of the array are left. *)
Fixpoint flatten_loop {I} (next : I -> M (Z * I)) (fuel : nat) (item : Z) (iter : I) (room : nat) : M (list Z) :=
  match fuel with
  | O => fail
  | S fuel' =>
      if decide (item = NULL) then mret [] else
      match room with
      | O => fail
      | S room' =>
          '(item', iter) ← next iter;
          l ← flatten_loop next fuel' item' iter room';
          mret (item :: l)
      end
  end.
Definition fr_rb_flatten {I} (init : M (Z * option I)) (next : I -> M (Z * I)) : M (list Z) :=
  num ← fr_rb_num_elements;
  '(item, iter) ← init;
  match iter with
  | None => mret []
  | Some iter => flatten_loop next (S (Z.to_nat num)) item iter (Z.to_nat num)
  end.
Definition fr_rb_flatten_inorder := fr_rb_flatten fr_rb_iter_init_inorder fr_rb_iter_next_inorder.
Definition fr_rb_flatten_preorder := fr_rb_flatten fr_rb_iter_init_preorder fr_rb_iter_next_preorder.
Definition fr_rb_flatten_postorder := fr_rb_flatten fr_rb_iter_init_postorder fr_rb_iter_next_postorder.

(** ** Trees and their cells *)

Inductive rbt := E | T (c : fr_rb_colour_t) (l : rbt) (a d : Z) (r : rbt).

Definition root_of (t : rbt) : Z := match t with E => NIL | T _ _ a _ _ => a end.
Definition colour_of (t : rbt) : fr_rb_colour_t := match t with E => BLACK | T c _ _ _ _ => c end.

(** A node whose child on side [s] is [p] and whose other child is [q]. *)
Definition mk (s : side) (p q par d : Z) (c : fr_rb_colour_t) : fr_rb_node_t :=
  match s with L => Node p q par d c false | R => Node q p par d c false end.
Definition Ts (s : side) (c : fr_rb_colour_t) (t : rbt) (a d : Z) (u : rbt) : rbt :=
  match s with L => T c t a d u | R => T c u a d t end.

Abbreviation cell := (Z * fr_rb_node_t)%type.

Fixpoint cells (par : Z) (t : rbt) : list cell :=
  match t with
  | E => []
  | T c l a d r => (a, Node (root_of l) (root_of r) par d c false) :: cells a l ++ cells a r
  end.

(** The path to a subtree, innermost node first: the subtree is the child on side [s] of
    node [a], and [u] is its sibling. *)
Record frame := F { f_side : side; f_colour : fr_rb_colour_t; f_addr : Z; f_data : Z; f_sib : rbt }.
Abbreviation ctx := (list frame).

Fixpoint plug (k : ctx) (t : rbt) : rbt :=
  match k with [] => t | F s c a d u :: k => plug k (Ts s c t a d u) end.
Definition cparent (k : ctx) : Z := match k with [] => NIL | f :: _ => f_addr f end.
Fixpoint croot (k : ctx) (p : Z) : Z := match k with [] => p | f :: k => croot k (f_addr f) end.
Fixpoint ccells (k : ctx) (p : Z) : list cell :=
  match k with
  | [] => []
  | F s c a d u :: k => (a, mk s p (root_of u) (cparent k) d c) :: cells a u ++ ccells k a
  end.

Lemma root_plug k t : root_of (plug k t) = croot k (root_of t).
Proof.
  revert t. induction k as [|[s c a d u] k IH]; intros t; [done|]. cbn [plug croot f_addr].
  rewrite IH. by destruct s.
Qed.

Lemma cells_Ts par s c t a d u :
  cells par (Ts s c t a d u) ≡ₚ (a, mk s (root_of t) (root_of u) par d c) :: cells a t ++ cells a u.
Proof. destruct s; cbn [Ts cells mk]; [done|]. by rewrite (Permutation_app_comm (cells a u)). Qed.

Lemma cells_plug k t : cells NIL (plug k t) ≡ₚ cells (cparent k) t ++ ccells k (root_of t).
Proof.
  revert t. induction k as [|[s c a d u] k IH]; intros t; cbn [plug cparent ccells f_addr].
  - by rewrite app_nil_r.
  - rewrite IH, cells_Ts. assert (root_of (Ts s c t a d u) = a) as -> by (by destruct s).
    solve_Permutation.
Qed.

(** ** The world holds some cells *)

(** [C] are distinct nodes of the memory, the root is [r], and [f] is the rest. *)
Record holds (w : world) (C : list cell) (r : Z) (f : bool * Z * list Z) : Prop := {
  h_nodup : NoDup (NULL :: NIL :: C.*1);
  h_mem : forall p n, (p, n) ∈ C -> mem w !! p = Some n;
  h_nil : mem w !! NIL = Some sentinel;
  h_root : root (tree w) = r;
  h_rest : (tree_being_freed (tree w), num_elements (tree w), freed w) = f
}.

Lemma holds_perm w C C' r f : C ≡ₚ C' -> holds w C r f -> holds w C' r f.
Proof.
  intros HC [H1 H2 H3 H4 H5]. split; try done; [by rewrite <- HC|]. intros p n. rewrite <- HC. apply H2.
Qed.

#[global] Instance holds_proper w : Proper ((≡ₚ) ==> (=) ==> (=) ==> iff) (holds w).
Proof. intros C C' HC ? r -> ? f ->. split; by apply holds_perm. Qed.

Lemma holds_drop w C C' r f : holds w (C ++ C') r f -> holds w C r f.
Proof.
  intros [H1 H2 H3 H4 H5]. split; try done.
  - rewrite fmap_app, !app_comm_cons in H1. by apply list.NoDup_app in H1 as [? _].
  - intros p n Hp. apply H2. apply elem_of_app. by left.
Qed.

Lemma wp_rd {A} (g : fr_rb_node_t -> A) p n w C r f Q :
  holds w ((p, n) :: C) r f -> Q (g n) w -> wp (rd g p) w Q.
Proof.
  intros H HQ. exists (g n), w. unfold rd. rewrite (h_mem _ _ _ _ H p n) by apply list_elem_of_here. done.
Qed.
Lemma wp_rd_nil {A} (g : fr_rb_node_t -> A) w C r f Q :
  holds w C r f -> Q (g sentinel) w -> wp (rd g NIL) w Q.
Proof. intros H HQ. exists (g sentinel), w. unfold rd. by rewrite (h_nil _ _ _ _ H). Qed.
Lemma wp_rd_root w C r f Q : holds w C r f -> Q r w -> wp rd_root w Q.
Proof. intros H HQ. exists r, w. unfold rd_root. by rewrite (h_root _ _ _ _ H). Qed.

Lemma wp_wr g p n w C r f Q :
  holds w ((p, n) :: C) r f -> (forall w', holds w' ((p, g n) :: C) r f -> Q () w') -> wp (wr g p) w Q.
Proof.
  intros [H1 H2 H3 H4 H5] HQ. eexists _, _. split.
  - unfold wr. rewrite (H2 p n) by apply list_elem_of_here. done.
  - cbn [fmap list_fmap] in H1. apply HQ. rewrite !list.NoDup_cons in H1. destruct H1 as (N1 & N2 & N3 & N4).
    assert (p <> NIL) by (intros ->; apply N2; apply list_elem_of_here).
    split; cbn [mem tree freed]; try done.
    + cbn [fmap list_fmap fst]. by rewrite !list.NoDup_cons.
    + intros q m [[= -> ->]|Hq]%elem_of_cons; [by apply lookup_insert_eq|].
      rewrite lookup_insert_ne; [by apply H2, list_elem_of_further|].
      intros ->. apply N3. by apply (list_elem_of_fmap_2 fst) in Hq.
    + by rewrite lookup_insert_ne.
Qed.

Lemma wp_wr_root p w C r f Q :
  holds w C r f -> (forall w', holds w' C p f -> Q () w') -> wp (wr_root p) w Q.
Proof. intros [H1 H2 H3 H4 H5] HQ. eexists _, _. split; [done|]. apply HQ. split; done. Qed.

Lemma holds_addr w p n C r f : holds w ((p, n) :: C) r f -> p <> NIL /\ p <> NULL /\ p ∉ C.*1.
Proof.
  intros [H _ _ _ _]. cbn [fmap list_fmap fst] in H. rewrite !list.NoDup_cons in H.
  destruct H as (N1 & N2 & N3 & _). split_and!; [| |done]; intros ->.
  - apply N2, list_elem_of_here.
  - apply N1. apply list_elem_of_further, list_elem_of_here.
Qed.

Lemma root_cells par u : root_of u = NIL \/ root_of u ∈ (cells par u).*1.
Proof. destruct u; [by left|right]. apply list_elem_of_here. Qed.

Lemma root_ne w p n C r f par u :
  holds w ((p, n) :: C) r f -> cells par u ⊆+ C -> p <> root_of u.
Proof.
  intros H Hs ->. apply holds_addr in H as (H1 & _ & H3). destruct (root_cells par u) as [|Hin]; [done|].
  apply H3. rewrite list_elem_of_fmap in Hin |- *. destruct Hin as (c & Hc & Hin). exists c. split; [done|].
  by apply (elem_of_submseteq (cells par u)).
Qed.

Lemma child_mk s p q par d c : child s (mk s p q par d c) = p.
Proof. by destruct s. Qed.
Lemma child_opp_mk s p q par d c : child (opp s) (mk s p q par d c) = q.
Proof. by destruct s. Qed.
Lemma with_child_mk s p' p q par d c : with_child s p' (mk s p q par d c) = mk s p' q par d c.
Proof. by destruct s. Qed.
Lemma with_child_opp_mk s q' p q par d c : with_child (opp s) q' (mk s p q par d c) = mk s p q' par d c.
Proof. by destruct s. Qed.
Lemma with_parent_mk s par' p q par d c : with_parent par' (mk s p q par d c) = mk s p q par' d c.
Proof. by destruct s. Qed.
Lemma with_colour_mk s c' p q par d c : with_colour c' (mk s p q par d c) = mk s p q par d c'.
Proof. by destruct s. Qed.
Lemma parent_mk s p q par d c : parent (mk s p q par d c) = par.
Proof. by destruct s. Qed.
Lemma colour_mk s p q par d c : colour (mk s p q par d c) = c.
Proof. by destruct s. Qed.
Lemma data_mk s p q par d c : data (mk s p q par d c) = d.
Proof. by destruct s. Qed.
Lemma mk_opp s p q par d c : mk (opp s) p q par d c = mk s q p par d c.
Proof. by destruct s. Qed.
Lemma opp_opp s : opp (opp s) = s.
Proof. by destruct s. Qed.
Lemma root_Ts s c t a d u : root_of (Ts s c t a d u) = a.
Proof. by destruct s. Qed.
Lemma colour_Ts s c t a d u : colour_of (Ts s c t a d u) = c.
Proof. by destruct s. Qed.
Lemma Ts_opp s c t a d u : Ts (opp s) c t a d u = Ts s c u a d t.
Proof. by destruct s. Qed.
Create Rewrite HintDb rb.
#[export] Hint Rewrite child_mk child_opp_mk with_child_mk with_child_opp_mk with_parent_mk with_colour_mk
  parent_mk colour_mk data_mk mk_opp opp_opp root_Ts colour_Ts Ts_opp : rb.

(** Bring the cell of [p] of the list [C] to the front. *)
Ltac pick C p :=
  lazymatch C with
  | (p, ?n) :: ?r => constr:((n, r))
  | ?c :: ?r => let q := pick r p in lazymatch q with (?n, ?r') => constr:((n, c :: r')) end
  | ?l ++ ?r =>
      match constr:(tt) with
      | _ => let q := pick l p in lazymatch q with (?n, ?l') => constr:((n, l' ++ r)) end
      | _ => let q := pick r p in lazymatch q with (?n, ?r') => constr:((n, l ++ r')) end
      end
  end.
Ltac front p H :=
  lazymatch type of H with
  | holds ?w ?C ?r ?f =>
      let q := pick C p in
      lazymatch q with (?n, ?C') =>
        apply (holds_perm _ _ ((p, n) :: C')) in H; [|solve [solve_Permutation]]
      end
  end.
Ltac pick_list C l :=
  lazymatch C with
  | l => constr:(@nil cell)
  | l ++ ?r => r
  | ?c :: ?r => let q := pick_list r l in constr:(c :: q)
  | ?a ++ ?r =>
      match constr:(tt) with
      | _ => let q := pick_list a l in constr:(q ++ r)
      | _ => let q := pick_list r l in constr:(a ++ q)
      end
  end.
Ltac front_list l H :=
  lazymatch type of H with
  | holds ?w ?C ?r ?f =>
      let q := pick_list C l in apply (holds_perm _ _ (l ++ q)) in H; [|solve [solve_Permutation]]
  end.
(** Reorder the cells. *)
Ltac reorder H C := apply (holds_perm _ _ C) in H; [|solve [solve_Permutation]].

(** One access, with the cells in [H]. *)
Ltac step H :=
  lazymatch goal with
  | |- wp (mret _) _ _ => apply wp_ret; cbv beta
  | |- wp (rd_root ≫= _) _ _ => apply wp_bind; apply (wp_rd_root _ _ _ _ _ H); cbv beta
  | |- wp (rd _ NIL ≫= _) _ _ => apply wp_bind; apply (wp_rd_nil _ _ _ _ _ _ H); cbv beta
  | |- wp (rd _ ?p ≫= _) _ _ =>
      apply wp_bind; front p H; apply (wp_rd _ _ _ _ _ _ _ _ H); cbv beta
  | |- wp (wr _ ?p ≫= _) _ _ =>
      apply wp_bind; front p H; apply (wp_wr _ _ _ _ _ _ _ _ H); clear H; intros ? H
  | |- wp (wr _ ?p) _ _ =>
      front p H; apply (wp_wr _ _ _ _ _ _ _ _ H); clear H; intros ? H
  | |- wp (wr_root _ ≫= _) _ _ =>
      apply wp_bind; apply (wp_wr_root _ _ _ _ _ _ H); clear H; intros ? H
  end;
  autorewrite with rb in *;
  cbn [left right parent data colour being_freed with_parent with_colour with_data sentinel] in *.

Lemma wp_rd_colour w par t C r f Q :
  holds w (cells par t ++ C) r f -> Q (colour_of t) w -> wp (rd colour (root_of t)) w Q.
Proof.
  destruct t as [|c l a d rt]; cbn [cells root_of colour_of app]; intros H HQ.
  - by apply (wp_rd_nil colour _ _ _ _ _ H).
  - by apply (wp_rd colour _ _ _ _ _ _ _ H).
Qed.

(** [if (p != NIL) p->parent = q] for the root of a subtree. *)
Lemma wp_set_parent w par q t C r f Q :
  holds w (cells par t ++ C) r f -> (forall w', holds w' (cells q t ++ C) r f -> Q () w') ->
  wp (when (root_of t <> NIL) (wr (with_parent q) (root_of t))) w Q.
Proof.
  destruct t as [|c l a d rt]; cbn [cells root_of app]; intros H HQ; [by apply wp_when_false; auto|].
  apply wp_when_true; [by apply (holds_addr _ _ _ _ _ _ H)|]. by apply (wp_wr _ _ _ _ _ _ _ _ H).
Qed.

Lemma wp_relink s x y k n C f w Q :
  holds w ((x, n) :: ccells k x ++ C) (croot k x) f ->
  (forall w', holds w' ((x, n) :: ccells k y ++ C) (croot k y) f -> Q () w') ->
  wp (relink s x y (cparent k)) w Q.
Proof.
  intros H HQ. unfold relink. destruct k as [|[s' c a d u] k]; cbn [cparent ccells croot f_addr] in *.
  - rewrite decide_False by (intros []; done). by apply (wp_wr_root _ _ _ _ _ _ H).
  - assert (Hne : x <> root_of u) by (apply (root_ne _ _ _ _ _ _ a u H); cbn [app]; solve_submseteq).
    rewrite decide_True.
    2:{ reorder H ((a, mk s' x (root_of u) (cparent k) d c) :: (x, n) :: cells a u ++ ccells k a ++ C).
        by apply holds_addr in H as [? _]. }
    step H. destruct (decide (s = s')) as [<-|Hs].
    + autorewrite with rb. rewrite decide_True by done. step H. apply HQ. by front x H.
    + assert (s' = opp s) as -> by (by destruct s, s'). autorewrite with rb in *.
      rewrite decide_False by done. step H. apply HQ. by front x H.
Qed.

(** The tree [plug k t] is in memory, and so are the cells [X]. *)
Definition at_zip (w : world) (k : ctx) (t : rbt) (X : list cell) (f : bool * Z * list Z) : Prop :=
  holds w (cells (cparent k) t ++ ccells k (root_of t) ++ X) (croot k (root_of t)) f.

Lemma at_zip_plug w k t X f : at_zip w [] (plug k t) X f <-> at_zip w k t X f.
Proof.
  unfold at_zip. cbn [ccells croot app]. rewrite root_plug.
  assert (HP : cells NIL (plug k t) ++ X ≡ₚ cells (cparent k) t ++ ccells k (root_of t) ++ X)
    by (rewrite cells_plug; solve_Permutation).
  split; apply holds_perm; [exact HP|by symmetry].
Qed.

Lemma at_unplug w k t X f : at_zip w [] (plug k t) X f -> at_zip w k t X f.
Proof. apply at_zip_plug. Qed.

(** Two zippers of one tree. *)
Lemma at_zip_eq w k t k' t' X f : plug k t = plug k' t' -> at_zip w k t X f -> at_zip w k' t' X f.
Proof. intros E H. apply at_zip_plug. rewrite <- E. by apply at_zip_plug. Qed.

Lemma at_zip_perm w k t X X' f : X ≡ₚ X' -> at_zip w k t X f -> at_zip w k t X' f.
Proof. intros E. apply holds_perm. by rewrite E. Qed.

(** Give the cells in any order. *)
Ltac give H := eapply holds_perm; [|exact H]; rewrite ?cells_Ts; autorewrite with rb; solve_Permutation.

Lemma wp_rotate s cx A x dx cy B y dy C k X f w Q :
  at_zip w k (Ts s cx A x dx (Ts s cy B y dy C)) X f ->
  (forall w', at_zip w' k (Ts s cy (Ts s cx A x dx B) y dy C) X f -> Q () w') ->
  wp (rotate_to s x) w Q.
Proof.
  unfold at_zip. autorewrite with rb. intros H HQ.
  apply (holds_perm _ _ ((x, mk s (root_of A) y (cparent k) dx cx) :: (y, mk s (root_of B) (root_of C) x dy cy) ::
    cells y B ++ ccells k x ++ cells x A ++ cells y C ++ X)) in H.
  2:{ rewrite !cells_Ts. autorewrite with rb. solve_Permutation. }
  assert (Hxy : x <> NIL /\ y <> NIL).
  { pose proof (holds_addr _ _ _ _ _ _ H) as [? _]. front y H. by apply holds_addr in H as [? _]. }
  assert (Hrot : rotate_to s = rotate s) by (by destruct s). rewrite Hrot. unfold rotate.
  step H. step H. step H. apply wp_bind.
  front_list (cells y B) H. apply (wp_set_parent _ _ _ _ _ _ _ _ H). clear H w. intros w H. 
  step H. apply wp_bind, wp_when_true; [apply Hxy|]. front y H.
  apply (wp_wr _ _ _ _ _ _ _ _ H). clear H w. intros w H. apply wp_bind. autorewrite with rb in *.
  front_list (ccells k x) H. front x H. apply (wp_relink _ _ _ _ _ _ _ _ _ H). clear H w. intros w H.
  step H. apply wp_when_true; [apply Hxy|]. step H. apply HQ. give H.
Qed.

(** ** Red-black invariants *)

Definition black (t : rbt) : Prop := colour_of t = BLACK.

(** [h] black nodes on every path, and no red node has a red child. *)
Fixpoint rb (t : rbt) (h : nat) : Prop :=
  match t with
  | E => h = 0%nat
  | T BLACK l _ _ r => exists h', h = S h' /\ rb l h' /\ rb r h'
  | T RED l _ _ r => black l /\ black r /\ rb l h /\ rb r h
  end.

(** The same for the path to a subtree of black height [h]. *)
Fixpoint crb (k : ctx) (h : nat) : Prop :=
  match k with
  | [] => True
  | F _ BLACK _ _ u :: k => rb u h /\ crb k (S h)
  | F _ RED _ _ u :: k =>
      rb u h /\ black u /\ (match k with F _ BLACK _ _ _ :: _ => True | _ => False end) /\ crb k h
  end.
Definition ctop (k : ctx) : fr_rb_colour_t := match k with [] => BLACK | f :: _ => f_colour f end.

Lemma rb_black s t a d u h : rb (Ts s BLACK t a d u) (S h) <-> rb t h /\ rb u h.
Proof.
  destruct s; cbn [Ts rb]; (split; [intros (h' & [= <-] & ? & ?); auto|intros [? ?]; eauto]).
Qed.
Lemma rb_red s t a d u h : rb (Ts s RED t a d u) h <-> black t /\ black u /\ rb t h /\ rb u h.
Proof. destruct s; cbn [Ts rb]; tauto. Qed.

Definition is_rb (t : rbt) : Prop := black t /\ exists h, rb t h.

Lemma plug_rb k t h :
  crb k h -> rb t h -> (black t \/ ctop k = BLACK) ->
  (exists h', rb (plug k t) h') /\ (k <> [] -> black (plug k t)).
Proof.
  revert t h. induction k as [|[s [] a d u] k IH]; intros t h Hk Ht Hb; [split; [by exists h|done]|..];
    cbn [plug crb ctop f_colour] in *.
  - destruct Hk as [Hu Hk]. destruct (IH (Ts s BLACK t a d u) (S h)) as [H1 H2];
      [done|by apply rb_black|left; unfold black; by rewrite colour_Ts|].
    split; [done|intros _]. destruct k; [unfold black; cbn; by rewrite colour_Ts|by apply H2].
  - destruct Hk as (Hu & Hbu & Hk1 & Hk). destruct Hb as [Hb|]; [|done].
    destruct k as [|[s2 [] a2 d2 u2] k]; [done| |done].
    destruct (IH (Ts s RED t a d u) h) as [H1 H2]; [done|by apply rb_red|by right|].
    split; [done|intros _]. by apply H2.
Qed.

(** ** Elements in order *)

Fixpoint els (t : rbt) : list (Z * Z) :=
  match t with E => [] | T _ l a d r => els l ++ (a, d) :: els r end.
Fixpoint cleft (k : ctx) : list (Z * Z) :=
  match k with
  | [] => []
  | F L _ _ _ _ :: k => cleft k
  | F R _ a d u :: k => cleft k ++ els u ++ [(a, d)]
  end.
Fixpoint cright (k : ctx) : list (Z * Z) :=
  match k with
  | [] => []
  | F L _ a d u :: k => (a, d) :: els u ++ cright k
  | F R _ _ _ _ :: k => cright k
  end.

Lemma els_plug k t : els (plug k t) = cleft k ++ els t ++ cright k.
Proof.
  revert t. induction k as [|[[] c a d u] k IH]; intros t; cbn [plug cleft cright Ts].
  - by rewrite app_nil_r.
  - rewrite IH. cbn [els]. by rewrite <- !app_assoc.
  - rewrite IH. cbn [els]. by rewrite <- !app_assoc.
Qed.

(** Recolouring and rotating keep the elements. *)
Lemma els_Ts s c c' t a d u : els (Ts s c t a d u) = els (Ts s c' t a d u).
Proof. by destruct s. Qed.
Lemma els_rotate s c1 c2 c3 c4 A x dx B y dy C :
  els (Ts s c1 A x dx (Ts s c2 B y dy C)) = els (Ts s c3 (Ts s c4 A x dx B) y dy C).
Proof. destruct s; cbn [Ts els]; by rewrite <- ?app_assoc, <- ?app_comm_cons, <- ?app_assoc. Qed.
Lemma els_plug_eq k t t' : els t = els t' -> els (plug k t) = els (plug k t').
Proof. intros E. by rewrite !els_plug, E. Qed.
Lemma els_Ts_eq s c t t' a d u u' : els t = els t' -> els u = els u' -> els (Ts s c t a d u) = els (Ts s c t' a d u').
Proof. intros E1 E2. destruct s; cbn [Ts els]; by rewrite E1, E2. Qed.

Lemma els_at k c l e dd r : els (plug k (T c l e dd r)) = (cleft k ++ els l) ++ (e, dd) :: els r ++ cright k.
Proof. rewrite els_plug. cbn [els]. by rewrite <- !app_assoc, <- app_comm_cons. Qed.

(** ** Rebalancing after an insertion *)

(** The pieces of a zipper whose focus and path are known. *)
Ltac unzip H :=
  unfold at_zip in H; cbn [ccells croot cparent f_addr root_of app cells] in H; autorewrite with rb in H.
(** Show a zipper from the cells in [H]. *)
Ltac zip H :=
  unfold at_zip; cbn [ccells croot cparent f_addr root_of app cells]; autorewrite with rb;
  eapply holds_perm; [|exact H]; rewrite ?cells_Ts; autorewrite with rb;
  cbn [ccells croot cparent f_addr root_of app cells]; solve_Permutation.

(** The outer rotation: [x] and its parent lie on side [s] of their parents. *)
Lemma wp_insert_outer s t p dp C g dg v k X f w Q :
  at_zip w (F s RED p dp C :: F s BLACK g dg v :: k) t X f -> t <> E ->
  (forall w', at_zip w' (F s BLACK p dp (Ts s RED C g dg v) :: k) t X f -> Q (root_of t) w') ->
  wp (px ← rd parent (root_of t); _ ← wr (with_colour BLACK) px; gp ← rd parent px;
      _ ← wr (with_colour RED) gp; _ ← rotate_to (opp s) gp; mret (root_of t)) w Q.
Proof.
  intros H Hne HQ. destruct t as [|c l x dx r]; [done|]. cbn [root_of] in *. unzip H.
  step H. step H. step H. step H. apply wp_bind.
  eapply (wp_rotate (opp s) RED v g dg BLACK C p dp (T c l x dx r) k X f).
  { autorewrite with rb. zip H. }
  clear w H. intros w H. apply wp_ret. apply HQ. autorewrite with rb in H.
  eapply at_zip_eq; [|exact H]. done.
Qed.

(** Below a red parent and a black grandparent, with a black uncle. *)
Lemma wp_insert_black s s1 l x dx r p dp u g dg v k X f w Q :
  at_zip w (F s1 RED p dp u :: F s BLACK g dg v :: k) (T RED l x dx r) X f -> colour_of v = BLACK ->
  (forall w' t' p' dp' u', at_zip w' (F s BLACK p' dp' u' :: k) t' X f -> t' <> E ->
     els (Ts s BLACK t' p' dp' u') = els (Ts s BLACK (Ts s1 RED (T RED l x dx r) p dp u) g dg v) ->
     (forall h, rb l h -> rb r h -> black l -> black r -> rb u h -> black u -> rb v h ->
        rb t' h /\ rb u' h) ->
     Q (root_of t') w') ->
  wp (insert_case s x p g) w Q.
Proof.
  intros H Hv HQ. unfold insert_case. pose proof H as H0. unzip H.
  step H. apply wp_bind. front_list (cells g v) H. apply (wp_rd_colour _ _ _ _ _ _ _ H). rewrite Hv.
  rewrite decide_False by done. step H. destruct (decide (s1 = s)) as [->|Hs].
  - autorewrite with rb. rewrite decide_False.
    2:{ front x H. apply (root_ne _ _ _ _ _ _ p u H). solve_submseteq. }
    apply wp_bind, wp_ret. apply (wp_insert_outer s (T RED l x dx r) p dp u g dg v k X f w Q H0); [done|].
    intros w' H'. eapply HQ; [exact H'|done| |].
    + clear. destruct s; cbn [Ts els]; by rewrite <- ?app_assoc, <- ?app_comm_cons, <- ?app_assoc.
    + intros h ? ? ? ? ? ? ?. rewrite rb_red. done.
  - assert (s1 = opp s) as -> by (by destruct s, s1). autorewrite with rb. rewrite decide_True by done.
    apply wp_bind, wp_bind.
    set (ls := match s with L => l | R => r end). set (rs := match s with L => r | R => l end).
    assert (Et : T RED l x dx r = Ts s RED ls x dx rs) by (by destruct s). rewrite Et in H0.
    apply (at_zip_eq _ _ _ (F s BLACK g dg v :: k) (Ts s RED u p dp (Ts s RED ls x dx rs))) in H0;
      [|cbn [plug]; by autorewrite with rb].
    apply (wp_rotate _ _ _ _ _ _ _ _ _ _ _ _ _ _ _ H0). clear w H H0. intros w H. apply wp_ret.
    apply (at_zip_eq _ _ _ (F s RED x dx rs :: F s BLACK g dg v :: k) (Ts s RED u p dp ls)) in H; [|done].
    rewrite <- (root_Ts s RED u p dp ls). apply (wp_insert_outer s _ _ _ _ _ _ _ _ _ _ _ _ H); [by destruct s|].
    intros w' H'. eapply HQ; [exact H'|by destruct s| |].
    + rewrite Et. clear. destruct s; cbn [Ts els opp]; by rewrite <- ?app_assoc, <- ?app_comm_cons, <- ?app_assoc.
    + intros h ? ? ? ? ? ? ?. rewrite !rb_red. by destruct s.
Qed.

(** With a red uncle the violation moves two levels up. *)
Lemma wp_insert_red s s1 l x dx r p dp u g dg vl y dy vr k X f w Q :
  at_zip w (F s1 RED p dp u :: F s BLACK g dg (T RED vl y dy vr) :: k) (T RED l x dx r) X f ->
  (forall w', at_zip w' k (Ts s RED (Ts s1 BLACK (T RED l x dx r) p dp u) g dg (T BLACK vl y dy vr)) X f -> Q g w') ->
  wp (insert_case s x p g) w Q.
Proof.
  intros H HQ. unfold insert_case. unzip H. step H. step H. cbn [colour]. rewrite decide_True by done.
  step H. step H. step H. apply wp_ret, HQ. zip H.
Qed.

Lemma croot_in k p : k <> [] -> croot k p ∈ (ccells k p).*1.
Proof.
  revert p. induction k as [|[s c a d u] k IH]; intros p Hk; [done|]. cbn [croot ccells f_addr].
  destruct k as [|fr k]; [apply list_elem_of_here|].
  cbn [fmap list_fmap]. apply list_elem_of_further. rewrite fmap_app. apply elem_of_app. right. by apply IH.
Qed.

Lemma root_of_zip w k c l x dx r X f :
  at_zip w k (T c l x dx r) X f -> k <> [] -> x <> croot k x.
Proof.
  intros H Hk E. unzip H. apply holds_addr in H as (_ & _ & H). apply H. rewrite !fmap_app.
  apply elem_of_app. right. apply elem_of_app. left. rewrite E at 1. by apply croot_in.
Qed.

Definition blacken (t : rbt) : rbt := match t with E => E | T _ l a d r => T BLACK l a d r end.

Lemma blacken_rb t h : rb t h -> exists h', rb (blacken t) h'.
Proof. destruct t as [|[] l a d r]; cbn [blacken rb]; [by exists h|by exists h|]. intros (_ & _ & ? & ?). by exists (S h), h. Qed.

Lemma els_blacken t : els (blacken t) = els t.
Proof. by destruct t. Qed.

(** The side the code computes. *)
Lemma side_of w s p n g c dg v pg X r f :
  holds w ((p, n) :: (g, mk s p (root_of v) pg dg c) :: cells g v ++ X) r f ->
  (if decide (p = left (mk s p (root_of v) pg dg c)) then L else R) = s.
Proof.
  intros H. destruct s; cbn [mk left]; [by rewrite decide_True|]. rewrite decide_False; [done|].
  apply (root_ne _ _ _ _ _ _ g v H). solve_submseteq.
Qed.

Lemma plug_not_empty k c l a d r : plug k (T c l a d r) <> E.
Proof.
  intros Ee. apply (f_equal els) in Ee. rewrite els_plug in Ee. cbn [els] in Ee.
  by apply app_eq_nil in Ee as [_ [Ee _]%app_eq_nil]; destruct (els l).
Qed.

Lemma wp_insert_loop fuel k l x dx r h X f w :
  at_zip w k (T RED l x dx r) X f -> rb l h -> rb r h -> black l -> black r -> crb k h ->
  (length k < fuel)%nat ->
  wp (insert_fixup_loop fuel x) w (fun _ w' => exists t', at_zip w' [] t' X f /\ t' <> E /\
    els t' = els (plug k (T RED l x dx r)) /\ exists h', rb (blacken t') h').
Proof.
  revert k l x dx r h w. induction fuel as [|fuel IH]; intros k l x dx r h w H Hl Hr Hbl Hbr Hk Hf; [lia|].
  pose proof (plug_not_empty k RED l x dx r) as Hplug.
  cbn [insert_fixup_loop]. apply wp_bind, (wp_rd_root _ _ _ _ _ H). cbn [root_of].
  destruct k as [|[s1 c p dp u] k].
  { cbn [croot]. rewrite decide_True by done. apply wp_ret. eexists. split; [exact H|]. split_and!; [done..|].
    apply (blacken_rb _ h). done. }
  rewrite decide_False by (by apply (root_of_zip _ _ _ _ _ _ _ _ _ H)).
  pose proof H as H0. unzip H. step H. cbn [parent]. step H.
  destruct c.
  { rewrite decide_True by done. apply wp_ret. eexists. split; [by apply at_zip_plug|]. split_and!; [done..|].
    destruct (plug_rb (F s1 BLACK p dp u :: k) (T RED l x dx r) h) as [[h' Hp] _]; [done|done|by right|].
    by eapply blacken_rb. }
  rewrite decide_False by (intros []; done).
  destruct Hk as (Hu & Hbu & Hk2 & Hk). destruct k as [|[s [] g dg v] k]; [done| |done]. clear Hk2.
  cbn [cparent ccells croot f_addr crb app] in *. destruct Hk as [Hv Hk].
  step H. step H. front_list (cells g v) H. front g H. front p H. rewrite (side_of _ _ _ _ _ _ _ _ _ _ _ _ H).
  apply wp_bind. destruct (decide (colour_of v = BLACK)) as [Hbv|Hrv].
  - apply (wp_insert_black _ _ _ _ _ _ _ _ _ _ _ _ _ _ _ _ _ H0 Hbv).
    intros w' t' p' dp' u' H' Ht' He Hrb. destruct (Hrb h) as [Hrt Hru]; [done..|].
    destruct t' as [|c' l' x' dx' r']; [done|]. cbn [root_of].
    destruct fuel as [|fuel]; [cbn in Hf; lia|]. cbn [insert_fixup_loop].
    apply wp_bind, (wp_rd_root _ _ _ _ _ H').
    rewrite decide_False by (by apply (root_of_zip _ _ _ _ _ _ _ _ _ H')).
    pose proof H' as H1. unzip H'. step H'. cbn [parent]. step H'. rewrite decide_True by done. apply wp_ret.
    eexists. split; [by apply at_zip_plug|]. split_and!.
    + apply plug_not_empty.
    + cbn [plug]. by apply els_plug_eq.
    + destruct (plug_rb (F s BLACK p' dp' u' :: k) (T c' l' x' dx' r') h) as [[h' Hp] _]; [done|done|by right|].
      by eapply blacken_rb.
  - destruct v as [|[] vl y dy vr]; [done..|].
    apply (wp_insert_red _ _ _ _ _ _ _ _ _ _ _ _ _ _ _ _ _ _ _ _ H0). clear H H0 w. intros w H.
    assert (Et : exists l' r', Ts s RED (Ts s1 BLACK (T RED l x dx r) p dp u) g dg (T BLACK vl y dy vr) = T RED l' g dg r' /\
      rb l' (S h) /\ rb r' (S h) /\ black l' /\ black r').
    { destruct Hv as (? & ? & ? & ?). destruct s; eexists _, _; split; try done; split_and!;
        try (apply rb_black; split; done); try (unfold black; by rewrite ?colour_Ts); by exists h. }
    destruct Et as (l' & r' & Et & ? & ? & ? & ?). rewrite Et in H.
    eapply wp_mono; [eapply (IH k l' g dg r' (S h) w H); try done; cbn in Hf; lia|].
    intros [] w' (t' & H' & Hne & He & Hh). exists t'. split_and!; [done|done| |done]. rewrite He, <- Et. cbn [plug].
    apply els_plug_eq. by destruct s, s1.
Qed.

Lemma wp_insert_fixup fuel k x dx h X f w :
  at_zip w k (T RED E x dx E) X f -> crb k h -> h = 0%nat -> (length k < fuel)%nat ->
  wp (insert_fixup fuel x) w (fun _ w' => exists t', at_zip w' [] t' X f /\
    els t' = cleft k ++ (x, dx) :: cright k /\ is_rb t').
Proof.
  intros H Hk -> Hf. unfold insert_fixup. apply wp_bind.
  eapply wp_mono; [by eapply (wp_insert_loop fuel k E x dx E 0 X f w)|].
  clear w H. intros [] w (t' & H & Hne & He & Hh). apply wp_bind, (wp_rd_root _ _ _ _ _ H).
  destruct t' as [|c l a d r]; [done|]. cbn [croot root_of]. unzip H. step H.
  exists (T BLACK l a d r). split_and!; [zip H|by rewrite els_plug in He|done].
Qed.

(** ** Rebalancing after a deletion *)

(** A subtree of black height [h] whose root is about to become black if it is red. *)
Definition almost (t : rbt) (h : nat) : Prop :=
  match t with T RED l _ _ r => rb l h /\ rb r h | _ => rb t h end.

Lemma almost_blacken t h : almost t h -> black t \/ rb (blacken t) (S h).
Proof. destruct t as [|[] l a d r]; [by left..|]. intros [? ?]. right. by exists h. Qed.

Lemma Ts_inv s t : t <> E -> exists c l a d r, t = Ts s c l a d r.
Proof. destruct t as [|c l a d r]; [done|]. intros _. destruct s; by eexists _, _, _, _, _. Qed.

Lemma blacken_Ts s c t a d u : blacken (Ts s c t a d u) = Ts s BLACK t a d u.
Proof. by destruct s. Qed.

(** The last case: the far child of the sibling is red. *)
Lemma wp_delete_far s c t p dp n w0 dw fr k X f w Q :
  at_zip w (F s c p dp (Ts s BLACK n w0 dw fr) :: k) t X f -> colour_of fr = RED ->
  (forall w', at_zip w' k (Ts s c (Ts s BLACK t p dp n) w0 dw (blacken fr)) X f ->
     Q (croot k w0, p) w') ->
  wp (cp ← rd colour p; _ ← wr (with_colour cp) w0; _ ← when (p <> NIL) (wr (with_colour BLACK) p);
      wf ← rd (child (opp s)) w0; cf ← rd colour wf; _ ← when (cf <> BLACK) (wr (with_colour BLACK) wf);
      _ ← rotate_to s p; r ← rd_root; mret (r, p)) w Q.
Proof.
  intros H Hfr HQ. destruct fr as [|[] fl fa fd fr]; [done..|]. cbn [blacken] in HQ.
  unzip H. rewrite cells_Ts in H. cbn [cells app root_of] in H. step H. step H.
  pose proof H as Hp. front p Hp. apply holds_addr in Hp as [Hp _].
  apply wp_bind, wp_when_true; [done|]. step H. step H. step H.
  apply wp_bind, wp_when_true; [done|]. step H. apply wp_bind.
  eapply (wp_rotate s BLACK t p dp c n w0 dw (T BLACK fl fa fd fr) k X f); [zip H|].
  clear w H. intros w H. apply wp_bind, (wp_rd_root _ _ _ _ _ H). rewrite root_Ts. apply wp_ret. by apply HQ.
Qed.

(** The sibling is black. *)
Lemma wp_delete_black s c t p dp n w0 dw fa k X f w h Q :
  at_zip w (F s c p dp (Ts s BLACK n w0 dw fa) :: k) t X f -> rb t h -> black t -> rb n h -> rb fa h ->
  (forall w', at_zip w' k (Ts s c t p dp (Ts s RED n w0 dw fa)) X f -> black n -> black fa ->
     Q (p, cparent k) w') ->
  (forall w' t', at_zip w' k t' X f -> els t' = els (Ts s c t p dp (Ts s BLACK n w0 dw fa)) ->
     colour_of t' = c -> (c = BLACK -> rb t' (S (S h))) -> (c = RED -> rb t' (S h)) ->
     Q (croot k (root_of t'), p) w') ->
  wp (delete_black_sibling s p w0) w Q.
Proof.
  intros H Ht Hbt Hn Hfa HQ1 HQ2. unfold delete_black_sibling. pose proof H as H0. unzip H.
  rewrite cells_Ts in H. cbn [app] in H.
  pose proof H as Hp. front p Hp. apply holds_addr in Hp as [Hp _].
  pose proof H as Hw. front w0 Hw. apply holds_addr in Hw as [Hw _].
  step H. apply wp_bind. front_list (cells w0 n) H. apply (wp_rd_colour _ _ _ _ _ _ _ H).
  step H. apply wp_bind. front_list (cells w0 fa) H. apply (wp_rd_colour _ _ _ _ _ _ _ H).
  case_decide as Hc.
  { apply wp_bind, wp_when_true; [done|]. step H. step H. apply wp_ret. apply HQ1; [zip H|apply Hc..]. }
  destruct (decide (colour_of fa = BLACK)) as [Hf|Hf].
  - (* the near child is red *)
    destruct n as [|[] nl0 na nd nr0]; [by destruct Hc|by destruct Hc|].
    destruct (Ts_inv s (T RED nl0 na nd nr0)) as (cn & nl & na' & nd' & nr & En); [done|].
    assert (cn = RED /\ na' = na /\ nd' = nd) as (-> & -> & ->) by (destruct s; by injection En as <-).
    rewrite En in *. rewrite cells_Ts in H. apply rb_red in Hn as (? & ? & ? & ?).
    autorewrite with rb in *. cbn [app] in H.
    apply wp_bind. apply wp_bind, wp_when_true.
    { front na H. by apply holds_addr in H as [? _]. }
    step H. step H. apply wp_bind.
    eapply (wp_rotate (opp s) RED fa w0 dw BLACK nr na nd nl (F (opp s) c p dp t :: k) X f).
    { autorewrite with rb. zip H. }
    clear w H H0. intros w H. autorewrite with rb in H. pose proof H as H0. unzip H. front p H.
    apply (wp_rd (child (opp s)) _ _ _ _ _ _ _ H). autorewrite with rb.
    apply (at_zip_eq _ _ _ (F s c p dp (Ts s BLACK nl na nd (Ts s RED nr w0 dw fa)) :: k) t) in H0;
      [|cbn [plug]; by autorewrite with rb].
    apply (wp_delete_far _ _ _ _ _ _ _ _ _ _ _ _ _ _ H0); [by rewrite colour_Ts|].
    clear w H H0. intros w H. rewrite <- (root_Ts s c (Ts s BLACK t p dp nl) na nd (blacken (Ts s RED nr w0 dw fa))).
    apply HQ2; [done| |by rewrite colour_Ts|..].
    + clear. destruct s; cbn [Ts els blacken]; by rewrite <- ?app_assoc, <- ?app_comm_cons, <- ?app_assoc.
    + intros ->. rewrite blacken_Ts, !rb_black. done.
    + intros ->. rewrite blacken_Ts, rb_red, !rb_black. by split; [|split]; [unfold black; rewrite colour_Ts..|].
  - destruct fa as [|[] fl fa' fd fr]; [done..|]. apply wp_bind, wp_ret.
    apply (wp_delete_far _ _ _ _ _ _ _ _ _ _ _ _ _ _ H0); [done|].
    clear w H H0. intros w H. rewrite <- (root_Ts s c (Ts s BLACK t p dp n) w0 dw (blacken (T RED fl fa' fd fr))).
    apply HQ2; [done| |by rewrite colour_Ts|..].
    + clear. destruct s; cbn [Ts els blacken]; by rewrite <- ?app_assoc, <- ?app_comm_cons, <- ?app_assoc.
    + intros ->. rewrite !rb_black. destruct Hfa as (_ & _ & ? & ?). split; [done|]. by exists h.
    + intros ->. rewrite rb_red, rb_black. destruct Hfa as (_ & _ & ? & ?).
      split_and!; [unfold black; by rewrite colour_Ts|done..|]. by exists h.
Qed.

Lemma almost_black s t a d u h : almost (Ts s BLACK t a d u) (S h) <-> rb t h /\ rb u h.
Proof. rewrite <- (rb_black s t a d u h). by destruct s. Qed.
Lemma almost_red s t a d u h : almost (Ts s RED t a d u) h <-> rb t h /\ rb u h.
Proof. destruct s; cbn [Ts almost]; tauto. Qed.

Lemma plug_is_rb k t h :
  crb k h -> rb t h -> (black t \/ (k <> [] /\ ctop k = BLACK)) -> is_rb (plug k t).
Proof.
  intros Hk Ht Hb. destruct (plug_rb k t h) as [H1 H2]; [done|done|tauto|]. split; [|done].
  destruct k; [cbn; by destruct Hb as [|[? _]]|by apply H2].
Qed.

Lemma crb_parent s c p dp u k h :
  crb (F s c p dp u :: k) h -> rb u h /\ crb k (if decide (c = BLACK) then S h else h) /\
  (c = RED -> black u /\ k <> [] /\ ctop k = BLACK).
Proof.
  destruct c; cbn [crb].
  - intros [? ?]. by rewrite decide_True.
  - intros (? & ? & Hk & ?). rewrite decide_False by done. split_and!; [done|done|]. intros _.
    by destruct k as [|[? [] ? ? ?] k].
Qed.

(** One turn of the loop: either the deficit has moved up, or the tree is balanced and the
    loop is told to stop at the root. *)
Lemma wp_delete_case s c t p dp u k X f w h Q :
  at_zip w (F s c p dp u :: k) t X f -> rb t h -> black t -> crb (F s c p dp u :: k) (S h) ->
  (forall w' k' t' h', at_zip w' k' t' X f -> root_of t' = p -> els (plug k' t') = els (plug (F s c p dp u :: k) t) ->
     almost t' h' -> crb k' (S h') -> (black t' -> length k' = length k) -> Q (p, cparent k') w') ->
  (forall w' t', at_zip w' [] t' X f -> els t' = els (plug (F s c p dp u :: k) t) -> is_rb t' ->
     Q (root_of t', p) w') ->
  wp (delete_case s p) w Q.
Proof.
  intros H Ht Hbt Hk HQ1 HQ2. unfold delete_case. pose proof H as H0. unzip H.
  step H. apply wp_bind. front_list (cells p u) H. apply (wp_rd_colour _ _ _ _ _ _ _ H).
  apply crb_parent in Hk as (Hu & Hk & Hred).
  destruct (Ts_inv s u) as (cu & n & w0 & dw & fa & ->); [by destruct u|]. autorewrite with rb.
  destruct cu.
  - rewrite decide_False by done. apply wp_bind, wp_ret. rewrite rb_black in Hu. destruct Hu as [Hn Hfa].
    apply (wp_delete_black _ _ _ _ _ _ _ _ _ _ _ _ _ _ _ H0 Ht Hbt Hn Hfa).
    + intros w' H' Bn Bf. apply (HQ1 w' k _ (if decide (c = BLACK) then S h else h) H');
        [by rewrite root_Ts|cbn [plug]; apply els_plug_eq; by destruct s| |by case_decide|done].
      destruct c; [rewrite decide_True by done; apply almost_black|rewrite decide_False by done; apply almost_red];
        (split; [done|by apply rb_red]).
    + intros w' t' H' He Hc Hb Hr. rewrite <- root_plug. apply HQ2; [by apply at_zip_plug|cbn [plug]; by apply els_plug_eq|].
      destruct c; [rewrite decide_True in Hk by done; apply (plug_is_rb k t' (S (S h))); [done|auto|by left]|].
      rewrite decide_False in Hk by done. apply (plug_is_rb k t' (S h)); [done|auto|right; by apply Hred].
  - rewrite decide_True by done. destruct c; [|by destruct Hred as [Hb _]; [done|unfold black in Hb; rewrite colour_Ts in Hb]].
    apply rb_red in Hu as (Bn & Bf & Hn & Hfa). rewrite decide_True in Hk by done. rewrite cells_Ts in H. cbn [app] in H.
    apply wp_bind. step H. step H. apply wp_bind.
    eapply (wp_rotate s RED t p dp BLACK n w0 dw fa k X f); [zip H|]. clear w H H0. intros w H.
    apply (at_zip_eq _ _ _ (F s RED p dp n :: F s BLACK w0 dw fa :: k) t) in H; [|done]. pose proof H as H0.
    unzip H. front p H. apply (wp_rd (child (opp s)) _ _ _ _ _ _ _ H). autorewrite with rb. clear H.
    destruct (Ts_inv s n) as (cn & n1 & a1 & d1 & n2 & ->); [by destruct n|]. unfold black in Bn. rewrite colour_Ts in Bn. subst cn.
    apply rb_black in Hn as [Hn1 Hn2]. rewrite root_Ts.
    assert (He : forall c1 c2 c3 c4 c5 c6, els (Ts s c1 (Ts s c2 t p dp (Ts s c3 n1 a1 d1 n2)) w0 dw fa) =
      els (Ts s c4 t p dp (Ts s c5 (Ts s c6 n1 a1 d1 n2) w0 dw fa))).
    { clear. intros. destruct s; cbn [Ts els]; by rewrite <- ?app_assoc, <- ?app_comm_cons, <- ?app_assoc. }
    apply (wp_delete_black _ _ _ _ _ _ _ _ _ _ _ _ _ _ _ H0 Ht Hbt Hn1 Hn2).
    + intros w3 H' Bn1 Bn2. apply (HQ1 w3 _ _ h H');
        [by rewrite root_Ts|cbn [plug]; by apply els_plug_eq|apply almost_red; split; [done|by apply rb_red]|done|].
      intros Hb. unfold black in Hb. by rewrite colour_Ts in Hb.
    + intros w3 t' H' He' Hc Hb Hr. rewrite <- root_plug. apply HQ2; [by apply at_zip_plug| |].
      * cbn [plug]. apply els_plug_eq. rewrite <- (He BLACK RED BLACK). by apply els_Ts_eq.
      * apply (plug_is_rb _ t' (S h)); [done|auto|by right].
Qed.

Lemma holds_not_nil w C r f p : holds w C r f -> p ∈ C.*1 -> p <> NIL.
Proof. intros [H _ _ _ _] Hp ->. apply list.NoDup_cons in H as [_ [H _]%list.NoDup_cons]. done. Qed.

Lemma root_not_croot w k t X f : at_zip w k t X f -> k <> [] -> root_of t <> croot k (root_of t).
Proof.
  intros H Hk. destruct t as [|c l x dx r]; [|by eapply root_of_zip].
  apply not_eq_sym. eapply holds_not_nil; [exact H|]. cbn [cells app]. rewrite fmap_app. apply elem_of_app.
  left. by apply croot_in.
Qed.

Lemma roots_differ w pt pu t u C r f :
  holds w (cells pt t ++ cells pu u ++ C) r f -> u <> E -> root_of t <> root_of u.
Proof.
  intros H Hu. destruct u as [|c l a d rt]; [done|]. cbn [cells root_of app] in *. apply not_eq_sym.
  front a H. apply (root_ne _ _ _ _ _ _ pt t H). solve_submseteq.
Qed.

Lemma blacken_is_rb k t h :
  almost t h -> crb k (S h) -> k = [] \/ colour_of t = RED -> is_rb (plug k (blacken t)).
Proof.
  intros Ht Hk Hc. destruct (almost_blacken t h Ht) as [Hb|Hr].
  - destruct Hc as [->|Hc]; [|unfold black in Hb; congruence]. cbn [plug].
    assert (blacken t = t) as -> by (by destruct t as [|[]]). split; [done|]. exists h. by destruct t as [|[]].
  - apply (plug_is_rb k _ (S h)); [done|done|left]. by destruct t.
Qed.

Lemma wp_delete_loop fuel k t h X f w :
  at_zip w k t X f -> almost t h -> crb k (S h) -> (0 < fuel)%nat -> (black t -> length k + 1 < fuel)%nat ->
  wp (delete_fixup_loop fuel (root_of t) (cparent k)) w (fun x w' => exists k' t', at_zip w' k' t' X f /\
    x = root_of t' /\ els (plug k' t') = els (plug k t) /\ is_rb (plug k' (blacken t'))).
Proof.
  revert k t h w. induction fuel as [|fuel IH]; intros k t h w H Ht Hk H0 Hf; [lia|]. cbn [delete_fixup_loop].
  apply wp_bind, (wp_rd_root _ _ _ _ _ H).
  destruct k as [|[s c p dp u] k].
  { cbn [croot]. rewrite decide_True by done. apply wp_ret. exists [], t. split_and!; [done..|].
    apply (blacken_is_rb _ _ h); auto. }
  rewrite decide_False by (by apply (root_not_croot _ _ _ _ _ H)).
  apply wp_bind. apply (wp_rd_colour _ _ _ _ _ _ _ H). destruct (decide (colour_of t <> BLACK)) as [Hc|Hc].
  { apply wp_ret. eexists _, t. split_and!; [exact H|done..|]. apply (blacken_is_rb _ _ h); [done..|]. right.
    by destruct (colour_of t). }
  assert (Hb : black t) by (unfold black; destruct (colour_of t); [done|by destruct Hc]).
  specialize (Hf Hb). cbn [length] in Hf. cbn [cparent f_addr]. pose proof H as H1. unzip H. step H.
  assert ((if decide (root_of t = left (mk s (root_of t) (root_of u) (cparent k) dp c)) then L else R) = s) as ->.
  { destruct s; cbn [mk left]; [by rewrite decide_True|]. rewrite decide_False; [done|].
    front_list (cells p u) H. front_list (cells p t) H. apply (roots_differ _ _ _ _ _ _ _ _ H).
    apply crb_parent in Hk as [Hu _]. by destruct u. }
  assert (Hrt : rb t h) by (destruct t as [|[]]; done).
  apply wp_bind. apply (wp_delete_case _ _ _ _ _ _ _ _ _ _ _ _ H1 Hrt Hb Hk).
  - clear w H H1. intros w k' t' h' H <- He Ht' Hk' Hlen. 
    eapply wp_mono; [apply (IH k' t' h' w H Ht' Hk'); [lia|intros Hb'; rewrite Hlen by done; lia]|].
    intros x w' (k2 & t2 & H2 & -> & He2 & Hr2). exists k2, t2. split_and!; [done|done|congruence|done].
  - clear w H H1. intros w t' H He Hrb. destruct fuel as [|fuel]; [lia|]. cbn [delete_fixup_loop].
    apply wp_bind, (wp_rd_root _ _ _ _ _ H). cbn [croot]. rewrite decide_True by done. apply wp_ret.
    exists [], t'. split_and!; [done..|]. cbn [plug]. destruct Hrb as [Hbt Hh].
    assert (blacken t' = t') as -> by (by destruct t' as [|[]]). done.
Qed.

Lemma wp_delete_fixup fuel k t h X f w :
  at_zip w k t X f -> almost t h -> crb k (S h) -> (length k + 1 < fuel)%nat ->
  wp (delete_fixup fuel (root_of t) (cparent k)) w (fun _ w' => exists t', at_zip w' [] t' X f /\
    els t' = els (plug k t) /\ is_rb t').
Proof.
  intros H Ht Hk Hf. unfold delete_fixup. apply wp_bind.
  eapply wp_mono; [apply (wp_delete_loop fuel k t h X f w H Ht Hk); lia|].
  clear w H. intros x w (k' & t' & H & -> & He & Hrb).
  assert (He' : els (plug k' (blacken t')) = els (plug k t)).
  { rewrite <- He. apply els_plug_eq, els_blacken. }
  destruct t' as [|c l a d r]; cbn [root_of blacken] in *.
  - apply wp_when_false; [intros []; done|]. exists (plug k' E). split_and!; [by apply at_zip_plug|done|done].
  - unzip H. apply wp_when_true; [by apply holds_addr in H as [? _]|]. step H.
    exists (plug k' (T BLACK l a d r)). split_and!; [apply at_zip_plug; zip H|done|done].
Qed.
