(* ===== verification/RbClient.v ===== *)
(** * Red-black trees: the operations of [lib/util/rb.c] and their clients

    Search, insertion, deletion, iteration and freeing, on top of the rotations and
    recolourings of RbTree; the specification is a strictly sorted list of objects. *)
From stdpp Require Import sorting.
From S2P Require Import Prelude StateMonad RbTree.

(** ** Sizes *)

Lemma holds_size w C r f : holds w C r f -> (length C < size (mem w))%nat.
Proof.
  intros H. assert (Hs : list_to_map ((NIL, sentinel) :: C) ⊆ mem w).
  { apply map_subseteq_spec. intros p n Hp. apply elem_of_list_to_map_2 in Hp.
    apply elem_of_cons in Hp as [[= -> ->]|Hp]; [by apply (h_nil _ _ _ _ H)|by apply (h_mem _ _ _ _ H)]. }
  apply map_subseteq_size in Hs. pose proof (h_nodup _ _ _ _ H) as Hn. apply list.NoDup_cons in Hn as [_ Hn].
  rewrite map_size_list_to_map in Hs by done. cbn [length] in Hs. lia.
Qed.

Fixpoint height (t : rbt) : nat := match t with E => 0 | T _ l _ _ r => S (max (height l) (height r)) end.

Lemma height_cells p t : (height t <= length (cells p t))%nat.
Proof.
  revert p. induction t as [|c l IHl a d r IHr]; intros p; [done|]. cbn [height cells length].
  rewrite length_app. pose proof (IHl a). pose proof (IHr a). lia.
Qed.
Lemma length_ccells k p : (length k <= length (ccells k p))%nat.
Proof.
  revert p. induction k as [|[s c a d u] k IH]; intros p; [done|]. cbn [ccells length]. rewrite length_app.
  pose proof (IH a). lia.
Qed.

Lemma fuel_enough w k t X f : at_zip w k t X f -> (height t + length k + 1 < fuel_of w)%nat.
Proof.
  intros H. apply holds_size in H. rewrite !length_app in H. unfold fuel_of.
  pose proof (height_cells (cparent k) t). pose proof (length_ccells k (root_of t)). lia.
Qed.

(** ** Taking a tree apart *)

Lemma unplug_rb k t h0 :
  rb (plug k t) h0 -> black (plug k t) ->
  exists h, crb k h /\ rb t h /\ (black t \/ (k <> [] /\ ctop k = BLACK)).
Proof.
  revert t. induction k as [|[s c a d u] k IH]; intros t Ht Hb; cbn [plug] in *.
  - exists h0. split_and!; [done..|by left].
  - destruct (IH _ Ht Hb) as (h & Hk & Hr & Hc). destruct c.
    + destruct h as [|h]; [by destruct s; destruct Hr as (? & ? & _)|]. apply rb_black in Hr as [? ?].
      exists h. split_and!; [done..|by right].
    + destruct Hc as [Hc|[Hk0 Hc]]; [unfold black in Hc; by rewrite colour_Ts in Hc|].
      apply rb_red in Hr as (? & ? & ? & ?). exists h. split_and!; [|done|by left].
      destruct k as [|[? [] ? ? ?] k]; done.
Qed.

(** Some node of a tree. *)
Lemma zip_at t a d : (a, d) ∈ els t -> exists k c l r, t = plug k (T c l a d r).
Proof.
  induction t as [|c l IHl a' d' r IHr]; cbn [els]; [by intros ?%not_elem_of_nil|].
  rewrite elem_of_app, elem_of_cons. intros [Hl|[[= <- <-]|Hr]].
  - destruct (IHl Hl) as (k & c1 & l1 & r1 & ->). exists (k ++ [F L c a' d' r]), c1, l1, r1.
    clear. generalize (T c1 l1 a d r1). induction k as [|[[] ? ? ? ?] k IH]; intros t; [done|apply IH..].
  - by exists [], c, l, r.
  - destruct (IHr Hr) as (k & c1 & l1 & r1 & ->). exists (k ++ [F R c a' d' l]), c1, l1, r1.
    clear. generalize (T c1 l1 a d r1). induction k as [|[[] ? ? ? ?] k IH]; intros t; [done|apply IH..].
Qed.

Lemma els_cells p t : (els t).*1 ≡ₚ (cells p t).*1.
Proof.
  revert p. induction t as [|c l IHl a d r IHr]; intros p; [done|]. cbn [els cells].
  rewrite fmap_app, !fmap_cons, fmap_app. cbn [fst]. rewrite (IHl a), (IHr a). solve_Permutation.
Qed.

Section Laws.
Context (data_cmp : Z -> Z -> Z).
Hypothesis cmp_antisym : forall a b, data_cmp a b < 0 <-> data_cmp b a > 0.
Hypothesis cmp_trans : forall a b c, data_cmp a b <= 0 -> data_cmp b c <= 0 -> data_cmp a c <= 0.

Lemma cmp_refl a : data_cmp a a = 0.
Proof. pose proof (cmp_antisym a a). lia. Qed.
Lemma cmp_sym a b : data_cmp a b = 0 -> data_cmp b a = 0.
Proof. pose proof (cmp_antisym a b). pose proof (cmp_antisym b a). lia. Qed.
Lemma cmp_le_lt a b c : data_cmp a b <= 0 -> data_cmp b c < 0 -> data_cmp a c < 0.
Proof.
  intros H1 H2. pose proof (cmp_trans a b c). destruct (decide (data_cmp a c = 0)) as [E0|]; [|lia].
  apply cmp_sym in E0. pose proof (cmp_trans c a b). pose proof (cmp_antisym b c). lia.
Qed.
Lemma cmp_lt_le a b c : data_cmp a b < 0 -> data_cmp b c <= 0 -> data_cmp a c < 0.
Proof.
  intros H1 H2. pose proof (cmp_trans a b c). destruct (decide (data_cmp a c = 0)) as [E0|]; [|lia].
  apply cmp_sym in E0. pose proof (cmp_trans b c a). pose proof (cmp_antisym a b). lia.
Qed.
Lemma cmp_gt_trans a b c : data_cmp a b > 0 -> data_cmp c b < 0 -> data_cmp a c > 0.
Proof.
  intros H1 H2. apply cmp_antisym in H1. apply cmp_antisym.
  apply (cmp_le_lt c b a); lia.
Qed.

(** The objects of the tree, in order. *)
Definition ordered (l : list (Z * Z)) : Prop := StronglySorted (fun x y => data_cmp x.2 y.2 < 0) l.
Definition above (d : Z) (l : list (Z * Z)) : Prop := Forall (fun x => data_cmp d x.2 > 0) l.
Definition below (d : Z) (l : list (Z * Z)) : Prop := Forall (fun x => data_cmp d x.2 < 0) l.

Lemma ordered_app l1 l2 : ordered (l1 ++ l2) <->
  ordered l1 /\ ordered l2 /\ forall x y, x ∈ l1 -> y ∈ l2 -> data_cmp x.2 y.2 < 0.
Proof.
  unfold ordered. induction l1 as [|x l1 IH]; cbn [app].
  - split; [intros H; split_and!; [constructor|done|by intros x y ?%not_elem_of_nil]|tauto].
  - split.
    + intros [Hs Hf]%StronglySorted_inv. apply IH in Hs as (H1 & H2 & H3).
      apply list.Forall_app in Hf as [Hf1 Hf2]. split_and!; [by constructor|done|].
      intros a b [->|Ha]%elem_of_cons Hb; [by apply (proj1 (list.Forall_forall _ _) Hf2)|by apply H3].
    + intros ([Hs Hf]%StronglySorted_inv & H2 & H3). constructor.
      * apply IH. split_and!; [done..|]. intros a b Ha. apply H3. by apply list_elem_of_further.
      * apply list.Forall_app. split; [done|]. apply list.Forall_forall. intros b Hb. apply H3; [apply list_elem_of_here|done].
Qed.

Lemma ordered_cons x l : ordered (x :: l) <-> ordered l /\ Forall (fun y => data_cmp x.2 y.2 < 0) l.
Proof. split; [by intros ?%StronglySorted_inv|intros [? ?]; by constructor]. Qed.

(** ** Searching *)

Lemma wp_insert_search fuel d k t X f w :
  at_zip w k t X f -> ordered (els (plug k t)) -> above d (cleft k) -> below d (cright k) -> (height t < fuel)%nat ->
  wp (insert_search data_cmp fuel d (root_of t) (cparent k)) w (fun res w' => w' = w /\
    match res with
    | inl p => exists k' c l dd r, plug k' (T c l p dd r) = plug k t /\ data_cmp d dd = 0
    | inr p => exists k', plug k' E = plug k t /\ p = cparent k' /\ above d (cleft k') /\ below d (cright k')
    end).
Proof.
  intros H Ho. assert (Hpl : plug k t = plug k t) by done. revert Hpl. generalize (plug k t) at 2 3 4. intros T0 HT.
  rewrite HT in Ho. revert k t HT H. induction fuel as [|fuel IH]; intros k t HT H Ha Hb Hf; [lia|].
  cbn [insert_search]. destruct t as [|c l a dd r]; cbn [root_of].
  { rewrite decide_True by done. apply wp_ret. split; [done|]. by exists k. }
  pose proof H as H0. unzip H. rewrite decide_False by (by apply holds_addr in H as [? _]). step H.
  cbn [height] in Hf. case_decide as Hd.
  { apply wp_ret. split; [done|]. by exists k, c, l, dd, r. }
  pose proof Ho as Ho'. rewrite <- HT, els_plug in Ho'. cbn [els] in Ho'.
  apply ordered_app in Ho' as (_ & Ho' & _). apply ordered_app in Ho' as (Ho' & _ & _).
  apply ordered_app in Ho' as (_ & Hr & Hl). apply ordered_cons in Hr as [_ Hr].
  destruct (decide (data_cmp d dd < 0)) as [Hlt|Hge]; step H; cbn [child left right].
  - change a with (cparent (F L c a dd r :: k)). apply IH.
    + done.
    + by apply (at_zip_eq _ k (T c l a dd r)).
    + done.
    + cbn [cright]. apply list.Forall_cons. split; [done|]. apply list.Forall_app. split; [|done].
      apply list.Forall_forall. intros y Hy. apply (cmp_le_lt d dd); [lia|]. by apply (proj1 (list.Forall_forall _ _) Hr).
    + lia.
  - change a with (cparent (F R c a dd l :: k)). apply IH.
    + done.
    + by apply (at_zip_eq _ k (T c l a dd r)).
    + cbn [cleft]. apply list.Forall_app. split; [done|]. apply list.Forall_app. split.
      * apply list.Forall_forall. intros y Hy. apply (cmp_gt_trans d dd); [lia|].
        apply (Hl y (a, dd)); [done|apply list_elem_of_here].
      * apply list.Forall_singleton. cbn [snd]. lia.
    + done.
    + lia.
Qed.

Lemma find_search fuel d current p w :
  find_loop data_cmp fuel d current w =
    match insert_search data_cmp fuel d current p w with
    | Some (inl c, w') => Some (c, w')
    | Some (inr _, w') => Some (NULL, w')
    | None => None
    end.
Proof.
  revert current p w. induction fuel as [|fuel IH]; intros current p w; [done|]. cbn [find_loop insert_search].
  case_decide; [done|]. unfold mbind, st_bind. destruct (rd data current w) as [[cd w1]|]; [|done].
  case_decide; [done|]. by destruct (rd (child _) current w1) as [[next w2]|].
Qed.

(** ** Insertion *)

Context (inline : bool) (offset : Z) (frees : bool) (alloc : gmap Z fr_rb_node_t -> Z).
Hypothesis alloc_fresh : forall m, alloc m = NULL \/ m !! alloc m = None.

(** An object whose node does not overlap the sentinel. *)
Definition object (d : Z) : Prop := d <> NULL /\ (inline = true -> d + offset <> NULL /\ d + offset <> NIL).

Record rb_repr (w : world) (t : rbt) (fs : list Z) : Prop := {
  r_zip : at_zip w [] t [] (false, u32 (Z.of_nat (length (els t))), fs);
  r_rb : is_rb t;
  r_ordered : ordered (els t);
  r_nodes : Forall (fun x => object x.2 /\ (inline = true -> x.1 = x.2 + offset)) (els t)
}.

Lemma wp_with_fuel {A} (g : nat -> M A) w Q : wp (g (fuel_of w)) w Q -> wp (with_fuel g) w Q.
Proof. done. Qed.
Lemma wp_not_freed w C r n fs Q :
  holds w C r (false, n, fs) -> Q false w -> wp rd_being_freed w Q.
Proof. intros H HQ. exists false, w. split; [|done]. unfold rd_being_freed. by injection (h_rest _ _ _ _ H) as -> _ _. Qed.
Lemma wp_add_elements k w C r b n fs Q :
  holds w C r (b, n, fs) -> (forall w', holds w' C r (b, u32 (n + k), fs) -> Q () w') -> wp (add_elements k) w Q.
Proof.
  intros [H1 H2 H3 H4 H5] HQ. eexists _, _. split; [done|]. apply HQ.
  injection H5 as <- <- <-. by split.
Qed.
Lemma wp_wr_node x n w C r f Q :
  holds w C r f -> x <> NULL -> x <> NIL -> x ∉ C.*1 ->
  (forall w', holds w' ((x, n) :: C) r f -> Q () w') -> wp (wr_node x n) w Q.
Proof.
  intros [H1 H2 H3 H4 H5] Hx0 Hx1 Hx HQ. eexists _, _. split; [done|]. apply HQ.
  split; cbn [mem tree freed]; try done.
  - cbn [fmap list_fmap fst]. apply list.NoDup_cons in H1 as [N1 [N2 N3]%list.NoDup_cons].
    rewrite !list.NoDup_cons, !not_elem_of_cons in *. split_and!; try done; by destruct N1.
  - intros p m [[= -> ->]|Hp]%elem_of_cons; [by apply lookup_insert_eq|].
    rewrite lookup_insert_ne; [by apply H2|]. intros ->. apply Hx. by apply (list_elem_of_fmap_2 fst) in Hp.
  - by rewrite lookup_insert_ne.
Qed.

(** The address given to a new node. *)
Lemma node_alloc_ok w t fs d :
  rb_repr w t fs -> object d -> (forall x, x ∈ els t -> data_cmp d x.2 <> 0) ->
  let x := if inline then d + offset else alloc (mem w) in
  (x = NULL /\ inline = false) \/
  (x <> NULL /\ x <> NIL /\ (x ∉ (cells NIL t).*1) /\ (inline = true -> x = d + offset)).
Proof.
  intros [Hz _ _ Hn] [_ Hd] Hne. destruct inline.
  - right. destruct (Hd eq_refl) as [? ?]. split_and!; [done..| |done]. rewrite <- els_cells.
    intros ([a d'] & Ea & Hin)%list_elem_of_fmap. cbn [fst] in Ea.
    destruct (proj1 (list.Forall_forall _ _) Hn _ Hin) as [_ Ha]. cbn [fst snd] in Ha. specialize (Ha eq_refl).
    apply (Hne _ Hin). cbn [snd]. assert (d' = d) as -> by lia. by apply cmp_refl.
  - destruct (decide (alloc (mem w) = NULL)) as [|H0]; [by left|right].
    destruct (alloc_fresh (mem w)) as [E0|Ef]; [done|]. split_and!; [done| | |done].
    + intros E1. rewrite E1, (h_nil _ _ _ _ Hz) in Ef. done.
    + intros ([p n] & Ea & Hin)%list_elem_of_fmap. cbn [fst] in Ea. rewrite Ea in Ef.
      rewrite (h_mem _ _ _ _ Hz p n) in Ef; [done|]. apply elem_of_app. by left.
Qed.

(** Linking a new red node below the node the search stopped at. *)
Lemma wp_link d k x X f w Q :
  holds w ((x, Node NIL NIL (cparent k) d RED false) :: ccells k NIL ++ X) (croot k NIL) f ->
  above d (cleft k) -> below d (cright k) ->
  (forall w', at_zip w' k (T RED E x d E) X f -> Q () w') ->
  wp (if decide (cparent k <> NIL) then
        pd ← rd data (cparent k);
        wr (with_child (if decide (data_cmp d pd <= 0) then L else R) x) (cparent k)
      else wr_root x) w Q.
Proof.
  intros H Ha Hb HQ. destruct k as [|[s c p dp u] k]; cbn [cparent ccells croot f_addr app] in *.
  - rewrite decide_False by (intros []; done). apply (wp_wr_root _ _ _ _ _ _ H). intros w' H'. apply HQ. zip H'.
  - rewrite decide_True.
    2:{ front p H. by apply holds_addr in H as [? _]. }
    step H. assert ((if decide (data_cmp d dp <= 0) then L else R) = s) as ->.
    { destruct s; cbn [cleft cright] in *.
      - apply list.Forall_cons in Hb as [Hb _]. cbn [snd] in Hb. by rewrite decide_True by lia.
      - apply list.Forall_app in Ha as [_ Ha]. apply list.Forall_app in Ha as [_ Ha].
        apply list.Forall_cons in Ha as [Ha _]. cbn [snd] in Ha. by rewrite decide_False by lia. }
    step H. apply HQ. zip H.
Qed.

Lemma ordered_insert x d ls rs :
  ordered (ls ++ rs) -> above d ls -> below d rs -> ordered (ls ++ (x, d) :: rs).
Proof.
  intros Ho Ha Hb. apply ordered_app in Ho as (H1 & H2 & H3). apply ordered_app. split_and!; [done| |].
  - by apply ordered_cons.
  - intros a b Hin [->|Hb']%elem_of_cons; [|by apply H3]. cbn [snd]. apply cmp_antisym.
    by apply (proj1 (list.Forall_forall _ _) Ha).
Qed.

(** What [insert_node] does in each case. *)
Lemma insert_node_ok w t fs d :
  rb_repr w t fs -> object d ->
  wp (insert_node data_cmp inline offset alloc d) w (fun res w' =>
    (exists k c l e dd r, t = plug k (T c l e dd r) /\ data_cmp d dd = 0 /\ res = (1, e) /\ w' = w) \/
    (exists ls rs, els t = ls ++ rs /\ above d ls /\ below d rs /\
      ((res = (-1, NULL) /\ w' = w /\ inline = false /\ alloc (mem w) = NULL) \/
       (res = (0, NULL) /\ exists t' x, rb_repr w' t' fs /\ els t' = ls ++ (x, d) :: rs)))).
Proof.
  intros Hr Hd. pose proof Hr as [Hz Hrb Ho Hn]. unfold insert_node.
  apply wp_bind, (wp_not_freed _ _ _ _ _ _ Hz). apply wp_bind, (wp_rd_root _ _ _ _ _ Hz). cbn [croot].
  apply wp_bind, wp_with_fuel. eapply wp_mono.
  { apply (wp_insert_search (fuel_of w) d [] t [] _ w Hz); [done|constructor..|].
    pose proof (fuel_enough _ _ _ _ _ Hz). lia. }
  intros [e|p] w' [-> Hs].
  { destruct Hs as (k' & c & l & dd & r & Et & Hc). apply wp_ret. left. exists k', c, l, e, dd, r. cbn [plug] in Et. auto. }
  destruct Hs as (k & Et & -> & Ha & Hb). cbn [plug] in Et.
  assert (Hel : els t = cleft k ++ cright k) by (rewrite <- Et, els_plug; done).
  assert (Hne : forall x, x ∈ els t -> data_cmp d x.2 <> 0).
  { intros x Hx. rewrite Hel in Hx. apply elem_of_app in Hx as [Hx|Hx];
      [pose proof (proj1 (list.Forall_forall _ _) Ha x Hx)|pose proof (proj1 (list.Forall_forall _ _) Hb x Hx)]; cbn in *; lia. }
  pose proof (node_alloc_ok w t fs d Hr Hd Hne) as Hx. cbv zeta in Hx.
  apply wp_bind. exists (if inline then d + offset else alloc (mem w)), w. split; [done|].
  set (x := if inline then d + offset else alloc (mem w)) in *.
  destruct Hx as [[Hx0 Hi]|(Hx0 & Hx1 & Hx & Hxi)].
  { rewrite decide_True by done. apply wp_ret. right. exists (cleft k), (cright k). split_and!; [done..|].
    left. split_and!; [done..|]. unfold x in Hx0. by rewrite Hi in Hx0. }
  rewrite decide_False by done. apply wp_bind.
  assert (Hzk : at_zip w k E [] (false, u32 (Z.of_nat (length (els t))), fs)) by (apply at_zip_plug; by rewrite Et).
  assert (Hxk : x ∉ (ccells k NIL ++ []).*1).
  { rewrite app_nil_r. rewrite <- Et, cells_plug in Hx. exact Hx. }
  apply (wp_wr_node _ _ _ _ _ _ _ Hzk Hx0 Hx1 Hxk). clear Hzk Hxk. intros w1 H. apply wp_bind.
  apply (wp_link _ _ _ _ _ _ _ H Ha Hb). clear w1 H. intros w1 H. apply wp_bind, wp_with_fuel.
  destruct Hrb as [Hbt [h0 Hrb]]. rewrite <- Et in Hrb, Hbt. destruct (unplug_rb _ _ _ Hrb Hbt) as (h & Hk & Hh & _).
  eapply wp_mono; [apply (wp_insert_fixup _ _ _ _ h _ _ _ H Hk Hh); pose proof (fuel_enough _ _ _ _ _ H); lia|].
  clear w1 H. intros [] w1 (t' & H & He & Hrb'). apply wp_bind, (wp_add_elements _ _ _ _ _ _ _ _ H).
  clear w1 H. intros w1 H. apply wp_ret. right. exists (cleft k), (cright k). split_and!; [done..|]. right.
  split; [done|]. exists t', x. split; [|done]. split.
  - rewrite u32_add_l in H. rewrite Hel, length_app in H. rewrite He, length_app. cbn [length].
    by replace (Z.of_nat (length (cleft k) + S (length (cright k))))
      with (Z.of_nat (length (cleft k) + length (cright k)) + 1) by lia.
  - done.
  - rewrite He. rewrite Hel in Ho. by apply ordered_insert.
  - rewrite He. rewrite Hel, list.Forall_app in Hn. rewrite list.Forall_app, list.Forall_cons. tauto.
Qed.

(** ** Deletion *)

Lemma wp_leftmost fuel k t X f w :
  at_zip w k t X f -> t <> E -> (height t <= fuel)%nat ->
  wp (leftmost fuel (root_of t)) w (fun y w' => w' = w /\ exists k' c d r,
    plug k' (T c E y d r) = plug k t /\ cleft k' = cleft k).
Proof.
  revert k t. induction fuel as [|fuel IH]; intros k t H Ht Hf;
    (destruct t as [|c l a d r]; [done|]); cbn [height] in Hf; [lia|].
  cbn [leftmost root_of]. pose proof H as H0. unzip H. step H. destruct l as [|c' l' a' d' r'].
  - cbn [root_of]. rewrite decide_False by (intros []; done). apply wp_ret. split; [done|]. by exists k, c, d, r.
  - rewrite decide_True.
    2:{ cbn [cells root_of app] in *. front a' H. by apply holds_addr in H as [? _]. }
    change (plug k (T c (T c' l' a' d' r') a d r)) with (plug (F L c a d r :: k) (T c' l' a' d' r')).
    apply (IH (F L c a d r :: k)); [by apply (at_zip_eq _ k (T c (T c' l' a' d' r') a d r))|done|].
    cbn [height] in *. lia.
Qed.

(** The tree without a node that has at most one child. *)
Definition only_child (l r : rbt) : rbt := match l with E => r | _ => l end.

Lemma wp_splice {A} k c l y dy r X f w (G : Z -> Z -> M A) Q :
  at_zip w k (T c l y dy r) X f -> l = E \/ r = E ->
  (forall w', at_zip w' k (only_child l r) ((y, Node (root_of l) (root_of r) (cparent k) dy c false) :: X) f ->
     wp (G (root_of (only_child l r)) (cparent k)) w' Q) ->
  wp (yl ← rd left y; x ← (if decide (yl <> NIL) then mret yl else rd right y); p ← rd parent y;
      _ ← when (x <> NIL) (wr (with_parent p) x); _ ← relink L y x p; G x p) w Q.
Proof.
  intros H Hlr HQ. unzip H. step H. apply wp_bind.
  assert (Hx : wp (if decide (root_of l <> NIL) then mret (root_of l) else rd right y) w
    (fun x w' => x = root_of (only_child l r) /\ w' = w)).
  { destruct l as [|c' l' a' d' r']; cbn [root_of only_child].
    - rewrite decide_False by (intros []; done). by apply (wp_rd right _ _ _ _ _ _ _ H).
    - rewrite decide_True; [by apply wp_ret|]. cbn [cells root_of app] in H. front a' H. by apply holds_addr in H as [? _]. }
  eapply wp_mono; [exact Hx|]. intros x w' [-> ->]. clear Hx. step H. apply wp_bind.
  set (t := only_child l r) in *.
  assert (H' : holds w (cells y t ++ (y, Node (root_of l) (root_of r) (cparent k) dy c false) :: ccells k y ++ X) (croot k y) f).
  { eapply holds_perm; [|exact H]. unfold t. destruct l; cbn [only_child]; [|destruct Hlr as [| ->]; [done|]];
      cbn [cells app]; solve_Permutation. }
  apply (wp_set_parent _ _ _ _ _ _ _ _ H'). clear w H H'. intros w H. apply wp_bind.
  front_list (ccells k y) H. front y H. apply (wp_relink _ _ _ _ _ _ _ _ _ H). clear w H. intros w H. apply HQ.
  unfold at_zip. eapply holds_perm; [|exact H]. solve_Permutation.
Qed.

Lemma rb_almost t h : rb t h -> almost t h.
Proof. destruct t as [|[] l a d r]; [done..|]. cbn. tauto. Qed.

(** Balance is restored after the node was taken out. *)
Lemma wp_rebalance P `{!Decision P} k c l y dy r X f w h0 :
  rb (plug k (T c l y dy r)) h0 -> black (plug k (T c l y dy r)) -> l = E \/ r = E -> (P <-> c = BLACK) ->
  at_zip w k (only_child l r) X f ->
  wp (when P (with_fuel (fun fuel => delete_fixup fuel (root_of (only_child l r)) (cparent k)))) w
    (fun _ w' => exists t', at_zip w' [] t' X f /\ els t' = cleft k ++ els (only_child l r) ++ cright k /\ is_rb t').
Proof.
  intros Hrb Hb Hlr HP H. destruct (unplug_rb _ _ _ Hrb Hb) as (h & Hk & Ht & Hc). rewrite <- els_plug.
  destruct c.
  - apply wp_when_true; [by apply HP|]. apply wp_with_fuel. destruct Ht as (h' & -> & Hl & Hr).
    apply (wp_delete_fixup _ _ _ h'); [done| |done|].
    + apply rb_almost. destruct l; [done|]. by destruct Hlr.
    + pose proof (fuel_enough _ _ _ _ _ H). lia.
  - apply wp_when_false; [by rewrite HP|]. destruct Ht as (Hbl & Hbr & Hl & Hr).
    assert (only_child l r = E) as Eo.
    { destruct Hlr as [->| ->]; cbn in *; subst h; [by destruct r as [|[]]; [|destruct Hr as (? & ? & _)|]|].
      by destruct l as [|[]]; [|destruct Hl as (? & ? & _)|]. }
    rewrite Eo in *. exists (plug k E). split_and!; [by apply at_zip_plug|done|].
    apply (plug_is_rb k E h); [done| |by left]. destruct Hlr as [->| ->]; [exact Hl|exact Hr].
Qed.

Lemma holds_tail w c C r f : holds w (c :: C) r f -> holds w C r f.
Proof. intros H. apply (holds_drop w C [c]). eapply holds_perm; [|exact H]. solve_Permutation. Qed.

Lemma wp_node_data_free p n C r b m fs w Q :
  holds w ((p, n) :: C) r (b, m, fs) -> being_freed n = false ->
  (forall w' n', holds w' ((p, n') :: C) r (b, m, fs ++ (if frees then [data n] else [])) -> Q () w') ->
  wp (node_data_free frees p) w Q.
Proof.
  intros H Hn HQ. unfold node_data_free. step H. rewrite Hn. destruct frees; cbn [negb orb].
  - step H. step H. destruct H as [H1 H2 H3 H4 H5]. eexists _, _. split; [done|].
    apply (HQ _ (with_being_freed n)). injection H5 as <- <- <-. by split.
  - apply wp_ret. apply (HQ _ n). by rewrite app_nil_r.
Qed.

Lemma wp_talloc_free p n C r f w Q :
  holds w ((p, n) :: C) r f -> (forall w', holds w' C r f -> Q () w') -> wp (talloc_free p) w Q.
Proof.
  intros H HQ. pose proof (holds_addr _ _ _ _ _ _ H) as (Hp & _ & Hn). apply holds_tail in H as [H1 H2 H3 H4 H5].
  eexists _, _. split; [done|]. apply HQ. split; cbn [mem tree freed]; try done.
  - intros q m Hq. rewrite lookup_delete_ne; [by apply H2|]. intros ->. apply Hn. by apply (list_elem_of_fmap_2 fst) in Hq.
  - by rewrite lookup_delete_ne.
Qed.

Lemma wp_node_free p n C r b m fs fd w Q :
  holds w ((p, n) :: C) r (b, m, fs) -> being_freed n = false ->
  (forall w', holds w' C r (b, m, fs ++ (if fd && frees then [data n] else [])) -> Q () w') ->
  wp (node_free inline frees p fd) w Q.
Proof.
  intros H Hn HQ. unfold node_free. destruct inline.
  - destruct (fd && frees)%bool eqn:Ef.
    + apply (wp_node_data_free _ _ _ _ _ _ _ _ _ H Hn). intros w' n' H'. apply holds_tail in H'.
      apply andb_true_iff in Ef as [_ Ef]. rewrite Ef in H'. by apply HQ.
    + step H. apply holds_tail in H. apply HQ. by rewrite app_nil_r.
  - apply wp_bind. destruct fd; cbn [andb] in *.
    + apply (wp_node_data_free _ _ _ _ _ _ _ _ _ H Hn). intros w' n' H'. by apply (wp_talloc_free _ _ _ _ _ _ _ H').
    + apply wp_ret. apply (wp_talloc_free _ _ _ _ _ _ _ H). rewrite app_nil_r in HQ. exact HQ.
Qed.

(** ** The successor takes the place of the deleted node *)

Lemma wp_repoint {A} z y t C r f w (m : M A) Q :
  holds w (cells z t ++ C) r f -> z <> NULL ->
  (forall w', holds w' (cells y t ++ C) r f -> wp m w' Q) ->
  wp (pl ← rd parent (root_of t); _ ← when (pl = z) (wr (with_parent y) (root_of t)); m) w Q.
Proof.
  intros H Hz HQ. destruct t as [|c l a d rt]; cbn [root_of cells app] in *.
  - step H. apply wp_bind, wp_when_false; [by apply not_eq_sym|]. by apply HQ.
  - step H. apply wp_bind, wp_when_true; [done|]. step H. by apply HQ.
Qed.

Lemma wp_replace_child z y n k C f w Q :
  holds w ((z, n) :: ccells k z ++ C) (croot k z) f ->
  (forall w', holds w' ((z, n) :: ccells k y ++ C) (croot k y) f -> Q () w') ->
  wp (if decide (cparent k = NIL) then wr_root y
      else l ← rd left (cparent k); _ ← when (l = z) (wr (with_child L y) (cparent k));
           r ← rd right (cparent k); when (r = z) (wr (with_child R y) (cparent k))) w Q.
Proof.
  intros H HQ. destruct k as [|[s c p dp u] k]; cbn [cparent ccells croot f_addr] in *.
  - rewrite decide_True by done. by apply (wp_wr_root _ _ _ _ _ _ H).
  - cbn [app] in H.
    assert (Hne : root_of u <> z) by (apply not_eq_sym, (root_ne _ _ _ _ _ _ p u H); solve_submseteq).
    rewrite decide_False.
    2:{ front p H. by apply holds_addr in H as [? _]. }
    destruct s; cbn [mk] in *; step H; apply wp_bind.
    + apply wp_when_true; [done|]. step H. cbn [with_child left right parent data colour being_freed] in H. step H.
      apply wp_when_false; [done|]. apply HQ. cbn [app]. by front z H.
    + apply wp_when_false; [done|]. step H. apply wp_when_true; [done|]. step H.
      cbn [with_child left right parent data colour being_freed] in H. apply HQ. cbn [app]. by front z H.
Qed.

Lemma wp_take_place {A} k c l z dz r y ny dy X f w (m : M A) Q :
  at_zip w k (T c l z dz r) ((y, ny) :: X) f ->
  (forall w' nz, at_zip w' k (T c l y dy r) ((z, nz) :: X) f -> data nz = dz -> being_freed nz = false -> wp m w' Q) ->
  wp (nz ← rd id z; _ ← wr (fun _ => nz) y; _ ← wr (with_data dy) y; py ← rd parent y;
      _ ← (if decide (py = NIL) then wr_root y
           else l ← rd left py; _ ← when (l = z) (wr (with_child L y) py);
                r ← rd right py; when (r = z) (wr (with_child R y) py));
      yl ← rd left y; pl ← rd parent yl; _ ← when (pl = z) (wr (with_parent y) yl);
      yr ← rd right y; pr ← rd parent yr; _ ← when (pr = z) (wr (with_parent y) yr); m) w Q.
Proof.
  intros H HQ. unzip H. pose proof (holds_addr _ _ _ _ _ _ H) as (_ & Hz & _).
  step H. step H. step H. step H. apply wp_bind.
  front_list (ccells k z) H. front z H. apply (wp_replace_child _ _ _ _ _ _ _ _ H). clear w H. intros w H.
  step H. front_list (cells z l) H. apply (wp_repoint _ _ _ _ _ _ _ _ _ H Hz). clear w H. intros w H.
  step H. front_list (cells z r) H. apply (wp_repoint _ _ _ _ _ _ _ _ _ H Hz). clear w H. intros w H.
  unfold id in H. cbn [with_data left right parent data colour being_freed] in H.
  apply (HQ _ (Node (root_of l) (root_of r) (cparent k) dz c false)); [|done..]. zip H.
Qed.

(** The place of an element in a list without repetitions. *)
Lemma pivot_unique {A B} (l1 l2 m1 m2 : list (A * B)) x :
  NoDup (l1 ++ x :: l2).*1 -> l1 ++ x :: l2 = m1 ++ x :: m2 -> l1 = m1 /\ l2 = m2.
Proof.
  revert m1. induction l1 as [|y l1 IH]; intros [|z m1] Hn E; cbn [app fmap list_fmap] in *.
  - by injection E as ->.
  - injection E as Ex El. apply list.NoDup_cons in Hn as [Hn _]. destruct Hn. rewrite El, fmap_app.
    apply elem_of_app. right. apply list_elem_of_here.
  - injection E as Ex El. apply list.NoDup_cons in Hn as [Hn _]. destruct Hn. rewrite Ex, fmap_app.
    apply elem_of_app. right. apply list_elem_of_here.
  - injection E as -> E. apply list.NoDup_cons in Hn as [_ Hn]. by destruct (IH m1 Hn E) as [-> ->].
Qed.

Lemma zip_nodup w t X f : at_zip w [] t X f -> NoDup (els t).*1.
Proof.
  intros H. rewrite (els_cells NIL). apply h_nodup in H. apply list.NoDup_cons in H as [_ [_ H]%list.NoDup_cons].
  rewrite fmap_app in H. by apply list.NoDup_app in H as [H _].
Qed.

Lemma rb_rename k c l z dz r y dy : is_rb (plug k (T c l z dz r)) -> is_rb (plug k (T c l y dy r)).
Proof.
  intros [Hb [h0 Hr]]. destruct (unplug_rb _ _ _ Hr Hb) as (h & Hk & Ht & Hc). by apply (plug_is_rb k _ h).
Qed.

Lemma cparent_not_null w k t X f : at_zip w k t X f -> cparent k <> NULL.
Proof.
  intros H. destruct k as [|[s c p dp u] k]; [done|]. cbn [cparent f_addr]. unzip H. front p H.
  by apply holds_addr in H as (_ & ? & _).
Qed.

Lemma els_leftmost k c y d r k0 t :
  plug k (T c E y d r) = plug k0 t -> cleft k = cleft k0 -> els t ++ cright k0 = (y, d) :: els r ++ cright k.
Proof.
  intros Ep Hc. apply (f_equal els) in Ep. rewrite !els_plug, Hc in Ep. cbn [els app] in Ep. by simplify_list_eq.
Qed.

Lemma successor_differs w k c y dy r X f pre z dz l :
  at_zip w k (T c E y dy r) X f -> cleft k = pre ++ l ++ [(z, dz)] -> y <> z.
Proof.
  intros H Hcl ->. apply at_zip_plug, zip_nodup in H. rewrite els_plug, Hcl in H. rewrite !fmap_app in H.
  apply list.NoDup_app in H as (_ & H & _). apply (H z); [|apply elem_of_app; left; apply list_elem_of_here].
  apply elem_of_app. right. apply elem_of_app. right. apply list_elem_of_here.
Qed.

Lemma wp_delete_internal k c l z dz r n fs fd w :
  at_zip w k (T c l z dz r) [] (false, n, fs) -> is_rb (plug k (T c l z dz r)) ->
  wp (delete_internal inline frees z fd) w (fun _ w' => exists t',
    at_zip w' [] t' [] (false, u32 (n - 1), fs ++ (if fd && frees then [dz] else [])) /\ is_rb t' /\
    els t' = cleft k ++ els l ++ els r ++ cright k).
Proof.
  intros H [Hb [h0 Hrb]]. unfold delete_internal. pose proof H as H0. unzip H.
  pose proof (holds_addr _ _ _ _ _ _ H) as (Hz1 & Hz0 & _). rewrite decide_False by tauto.
  step H. step H. destruct (decide (root_of l = NIL \/ root_of r = NIL)) as [Hn|Hn].
  - assert (Hlr : l = E \/ r = E).
    { destruct l as [|c1 l1 a1 d1 r1], r as [|c2 l2 a2 d2 r2]; [by left|by left|by right|]. exfalso.
      cbn [root_of cells app] in *. destruct Hn as [->| ->]; [front NIL H|front NIL H];
        by apply holds_addr in H as [? _]. }
    apply wp_bind, wp_ret. apply (wp_splice _ _ _ _ _ _ _ _ _ _ _ H0 Hlr). clear w H H0. intros w H.
    pose proof H as H1. unfold at_zip in H1. front z H1. apply wp_bind, (wp_rd colour _ _ _ _ _ _ _ H1). clear H1.
    cbn [colour]. rewrite decide_False by (intros []; done). apply wp_bind, wp_bind.
    eapply wp_mono; [eapply (wp_rebalance _ k c l z dz r); done|]. clear w H. intros [] w (t' & H & He & Hr').
    unfold at_zip in H. front z H. apply (wp_node_free _ _ _ _ _ _ _ _ _ _ H); [done|]. clear w H. intros w H.
    apply (wp_add_elements _ _ _ _ _ _ _ _ H). clear w H. intros w H. exists t'. split_and!; [exact H|done|].
    rewrite He. destruct Hlr as [->| ->]; cbn [only_child els app]; [done|]. by destruct l.
  - assert (Hr : r <> E) by (intros ->; apply Hn; by right).
    apply (at_zip_eq _ _ _ (F R c z dz l :: k) r) in H0; [|done]. apply wp_bind, wp_with_fuel.
    eapply wp_mono; [apply (wp_leftmost _ _ _ _ _ _ H0 Hr); pose proof (fuel_enough _ _ _ _ _ H0); lia|].
    intros y w' [-> (k' & cy & dy & yr & Ep & Hcl)]. cbn [plug Ts cleft] in Ep, Hcl.
    apply (at_zip_eq _ _ _ k' (T cy E y dy yr)) in H0; [|done]. clear H. rename H0 into H. rewrite <- Ep in Hrb, Hb.
    pose proof (els_leftmost k' cy y dy yr (F R c z dz l :: k) r Ep Hcl) as Hel. cbn [cright] in Hel.
    pose proof (successor_differs _ _ _ _ _ _ _ _ _ _ _ _ H Hcl) as Hyz.
    apply (wp_splice _ _ _ _ _ _ _ _ _ _ _ H (or_introl eq_refl)). clear w H. intros w H. cbn [only_child] in *.
    pose proof (cparent_not_null _ _ _ _ _ H) as Hp. pose proof H as H1. unfold at_zip in H1. front y H1.
    apply wp_bind, (wp_rd colour _ _ _ _ _ _ _ H1). rewrite decide_True by done. apply wp_bind.
    apply wp_bind, (wp_rd data _ _ _ _ _ _ _ H1). clear H1. cbn [colour data]. apply wp_bind.
    eapply wp_mono; [eapply (wp_rebalance _ k' cy E y dy yr); [done|done|by left|tauto|done]|].
    clear w H. intros [] w (t' & H & He & Hr'). rewrite Hcl, <- !app_assoc in He. cbn [app] in He.
    assert (Hin : (z, dz) ∈ els t').
    { rewrite He. apply elem_of_app. right. apply elem_of_app. right. apply list_elem_of_here. }
    destruct (zip_at t' z dz Hin) as (k2 & c2 & l2 & r2 & ->). pose proof (zip_nodup _ _ _ _ H) as Hnd.
    rewrite els_plug in He, Hnd. cbn [els] in He, Hnd. rewrite <- app_assoc, <- app_comm_cons, app_assoc in He, Hnd.
    rewrite app_assoc in He. apply pivot_unique in He as [He1 He2]; [|done].
    apply (at_zip_eq _ _ _ k2 (T c2 l2 z dz r2)) in H; [|done].
    apply (wp_take_place _ _ _ _ _ _ _ _ _ _ _ _ _ _ H). clear w H. intros w nz H Hd Hf.
    unfold at_zip in H. front z H. apply (wp_node_free _ _ _ _ _ _ _ _ _ _ H Hf). clear w H. intros w H.
    apply (wp_add_elements _ _ _ _ _ _ _ _ H). clear w H. intros w H. rewrite Hd in H.
    exists (plug k2 (T c2 l2 y dy r2)). split_and!; [apply at_zip_plug; unfold at_zip; give H|by apply (rb_rename _ _ _ z dz)|].
    rewrite els_plug. cbn [els]. rewrite <- app_assoc, <- app_comm_cons, app_assoc, He1, He2, Hel.
    by rewrite <- app_assoc.
Qed.

(** ** The specification: a sorted list without equal objects *)

Definition spec_find (d : Z) (l : list Z) : option Z := head (filter (fun x => data_cmp d x = 0) l).
Definition spec_put (d : Z) (l : list Z) : list Z :=
  filter (fun x => data_cmp d x > 0) l ++ d :: filter (fun x => data_cmp d x < 0) l.
Definition spec_remove (d : Z) (l : list Z) : list Z := filter (fun x => data_cmp d x <> 0) l.

Definition sorted : list Z -> Prop := StronglySorted (fun x y => data_cmp x y < 0).

Lemma ordered_sorted l : ordered l <-> sorted l.*2.
Proof.
  unfold ordered, sorted. induction l as [|x l IH]; [split; constructor|]. cbn [fmap list_fmap].
  split; intros [Hs Hf]%StronglySorted_inv; (constructor; [by apply IH|]);
    [by apply Forall_fmap|by apply Forall_fmap in Hf].
Qed.

Lemma filter_none {A} (P : A -> Prop) `{!forall x, Decision (P x)} (l : list A) :
  Forall (fun x => ~ P x) l -> filter P l = [].
Proof. induction 1; [done|]. by rewrite filter_cons, decide_False. Qed.
Lemma filter_every {A} (P : A -> Prop) `{!forall x, Decision (P x)} (l : list A) :
  Forall P l -> filter P l = l.
Proof. induction 1; [done|]. rewrite filter_cons, decide_True by done. by f_equal. Qed.

(** The list split at an object that is equal to [d], or where it would be. *)
Definition all_gt (d : Z) (l : list Z) : Prop := Forall (fun x => data_cmp d x > 0) l.
Definition all_lt (d : Z) (l : list Z) : Prop := Forall (fun x => data_cmp d x < 0) l.

Lemma filter_gt d l : all_gt d l ->
  filter (fun x => data_cmp d x = 0) l = [] /\ filter (fun x => data_cmp d x <> 0) l = l /\
  filter (fun x => data_cmp d x > 0) l = l /\ filter (fun x => data_cmp d x < 0) l = [].
Proof.
  intros H. split_and!; (apply filter_none || apply filter_every);
    (eapply Forall_impl; [|exact H]); intros x Hx; cbv beta in *; lia.
Qed.
Lemma filter_lt d l : all_lt d l ->
  filter (fun x => data_cmp d x = 0) l = [] /\ filter (fun x => data_cmp d x <> 0) l = l /\
  filter (fun x => data_cmp d x > 0) l = [] /\ filter (fun x => data_cmp d x < 0) l = l.
Proof.
  intros H. split_and!; (apply filter_none || apply filter_every);
    (eapply Forall_impl; [|exact H]); intros x Hx; cbv beta in *; lia.
Qed.

Lemma spec_present d x l1 l2 :
  all_gt d l1 -> all_lt d l2 -> data_cmp d x = 0 ->
  spec_find d (l1 ++ x :: l2) = Some x /\ spec_remove d (l1 ++ x :: l2) = l1 ++ l2 /\
  spec_put d (l1 ++ x :: l2) = l1 ++ d :: l2.
Proof.
  intros (E1 & E2 & E3 & E4)%filter_gt (F1 & F2 & F3 & F4)%filter_lt Hx. unfold spec_find, spec_remove, spec_put.
  rewrite !list.filter_app, !filter_cons, E1, E2, E3, E4, F1, F2, F3, F4.
  rewrite decide_True, decide_False, decide_False, decide_False by lia. by rewrite !app_nil_r.
Qed.

Lemma spec_absent d l1 l2 :
  all_gt d l1 -> all_lt d l2 ->
  spec_find d (l1 ++ l2) = None /\ spec_remove d (l1 ++ l2) = l1 ++ l2 /\ spec_put d (l1 ++ l2) = l1 ++ d :: l2.
Proof.
  intros (E1 & E2 & E3 & E4)%filter_gt (F1 & F2 & F3 & F4)%filter_lt. unfold spec_find, spec_remove, spec_put.
  rewrite !list.filter_app, E1, E2, E3, E4, F1, F2, F3, F4. by rewrite !app_nil_r.
Qed.

(** The tree represents a list of objects. *)
Definition repr (w : world) (l : list Z) (fs : list Z) : Prop := exists t, rb_repr w t fs /\ (els t).*2 = l.

Lemma around d k c l e dd r :
  ordered (els (plug k (T c l e dd r))) -> data_cmp d dd = 0 ->
  els (plug k (T c l e dd r)) = (cleft k ++ els l) ++ (e, dd) :: els r ++ cright k /\
  above d (cleft k ++ els l) /\ below d (els r ++ cright k).
Proof.
  intros Ho Hc. rewrite els_at in *.
  apply ordered_app in Ho as (_ & Hr & Hl). apply ordered_cons in Hr as [_ Hr]. split_and!; [done|..].
  - apply list.Forall_forall. intros x Hx. apply cmp_antisym. apply (cmp_lt_le _ dd); [|by apply cmp_sym in Hc; lia].
    apply (Hl x (e, dd)); [done|apply list_elem_of_here].
  - apply list.Forall_forall. intros x Hx. apply (cmp_le_lt d dd); [lia|]. by apply (proj1 (list.Forall_forall _ _) Hr).
Qed.

Lemma above_gt d l : above d l -> all_gt d l.*2.
Proof. intros H. by apply Forall_fmap. Qed.
Lemma below_lt d l : below d l -> all_lt d l.*2.
Proof. intros H. by apply Forall_fmap. Qed.

(** The specification at a node found, and where no node was found. *)
Lemma spec_at d k c l e dd r :
  ordered (els (plug k (T c l e dd r))) -> data_cmp d dd = 0 ->
  let ds := (els (plug k (T c l e dd r))).*2 in
  spec_find d ds = Some dd /\ spec_remove d ds = (cleft k ++ els l ++ els r ++ cright k).*2 /\
  spec_put d ds = ((cleft k ++ els l) ++ (e, d) :: els r ++ cright k).*2.
Proof.
  intros Ho Hc. destruct (around d k c l e dd r Ho Hc) as (-> & Ha%above_gt & Hb%below_lt). cbv zeta.
  rewrite fmap_app, fmap_cons. cbn [snd]. destruct (spec_present d dd _ _ Ha Hb Hc) as (-> & -> & ->).
  split_and!; [done| |].
  - by rewrite <- fmap_app, <- app_assoc.
  - by rewrite (fmap_app _ (cleft k ++ els l)), fmap_cons.
Qed.
Lemma spec_hole d t ls rs x :
  els t = ls ++ rs -> above d ls -> below d rs ->
  spec_find d (els t).*2 = None /\ spec_remove d (els t).*2 = (els t).*2 /\
  spec_put d (els t).*2 = (ls ++ (x, d) :: rs).*2.
Proof.
  intros -> Ha%above_gt Hb%below_lt. rewrite !fmap_app, fmap_cons. by apply spec_absent.
Qed.

Lemma wp_find_node w t fs d :
  rb_repr w t fs ->
  wp (find_node data_cmp d) w (fun p w' => w' = w /\
    ((p = NULL /\ exists ls rs, els t = ls ++ rs /\ above d ls /\ below d rs) \/
     (p <> NULL /\ exists k c l dd r, t = plug k (T c l p dd r) /\ data_cmp d dd = 0))).
Proof.
  intros [Hz _ Ho _]. unfold find_node. apply wp_bind, (wp_not_freed _ _ _ _ _ _ Hz).
  apply wp_bind, (wp_rd_root _ _ _ _ _ Hz). cbn [croot]. apply wp_with_fuel.
  destruct (wp_insert_search (fuel_of w) d [] t [] _ w Hz) as (res & w' & E0 & -> & Hs); [done|constructor..| |].
  { pose proof (fuel_enough _ _ _ _ _ Hz). lia. }
  destruct res as [p|p].
  - exists p, w. rewrite (find_search _ _ _ (cparent [])), E0. split; [done|]. split; [done|right].
    destruct Hs as (k & c & l & dd & r & Et & Hc). cbn [plug] in Et. split; [|by exists k, c, l, dd, r].
    rewrite <- Et in Hz. apply at_unplug in Hz. unzip Hz. by apply holds_addr in Hz as (_ & ? & _).
  - exists NULL, w. rewrite (find_search _ _ _ (cparent [])), E0. split; [done|]. split; [done|left]. split; [done|].
    destruct Hs as (k & Et & _ & Ha & Hb). cbn [plug] in Et. exists (cleft k), (cright k).
    rewrite <- Et, els_plug. done.
Qed.

Lemma u32_pred (a b : nat) : a = S b -> u32 (u32 (Z.of_nat a) - 1) = u32 (Z.of_nat b).
Proof. intros ->. unfold Z.sub. rewrite u32_add_l. f_equal. lia. Qed.

Lemma delete_repr k c l z dz r fs fd w d :
  rb_repr w (plug k (T c l z dz r)) fs -> data_cmp d dz = 0 ->
  wp (delete_internal inline frees z fd) w (fun _ w' => exists t',
    rb_repr w' t' (fs ++ (if fd && frees then [dz] else [])) /\ els t' = cleft k ++ els l ++ els r ++ cright k).
Proof.
  intros [Hz Hrb Ho Hn] Hc. apply at_unplug in Hz.
  eapply wp_mono; [by apply (wp_delete_internal _ _ _ _ _ _ _ _ _ _ Hz)|].
  intros [] w' (t' & H & Hrb' & He). exists t'. split; [|done].
  rewrite els_at in H, Ho, Hn. split.
  - rewrite (u32_pred _ (length (els t'))) in H; [exact H|].
    rewrite He, !length_app. cbn [length]. rewrite !length_app. lia.
  - done.
  - rewrite He, app_assoc. apply ordered_app in Ho as (? & Hr & Hl). apply ordered_cons in Hr as [? _].
    apply ordered_app. split_and!; [done..|]. intros x y Hx Hy. apply Hl; [done|by apply list_elem_of_further].
  - rewrite He, app_assoc. rewrite list.Forall_app, list.Forall_cons in Hn. rewrite list.Forall_app. tauto.
Qed.

(** ** Clients *)

Inductive rb_op :=
| RbFind (d : Z)
| RbFindOrInsert (d : Z)
| RbInsert (d : Z)
| RbReplace (keep_old : bool) (d : Z)
| RbRemove (d : Z)
| RbDelete (d : Z).

Inductive rb_res := RbData (d : Z) | RbBool (b : bool) | RbCode (r : Z) (d : option Z).

Definition rb_op_data (o : rb_op) : Z :=
  match o with RbFind d | RbFindOrInsert d | RbInsert d | RbReplace _ d | RbRemove d | RbDelete d => d end.

Definition rb_do (o : rb_op) : M rb_res :=
  match o with
  | RbFind d => x ← fr_rb_find data_cmp d; mret (RbData x)
  | RbFindOrInsert d => '(r, x) ← fr_rb_find_or_insert data_cmp inline offset alloc d; mret (RbCode r (Some x))
  | RbInsert d => b ← fr_rb_insert data_cmp inline offset alloc d; mret (RbBool b)
  | RbReplace keep d => '(r, x) ← fr_rb_replace data_cmp inline offset frees alloc keep d; mret (RbCode r x)
  | RbRemove d => x ← fr_rb_remove data_cmp inline frees d; mret (RbData x)
  | RbDelete d => b ← fr_rb_delete data_cmp inline frees d; mret (RbBool b)
  end.

(** The result, the new list and the objects freed; [ok] tells whether a node can be
    allocated. *)
Definition spec_do (ok : bool) (o : rb_op) (l : list Z) : rb_res * list Z * list Z :=
  match o, spec_find (rb_op_data o) l with
  | RbFind d, x => (RbData (default NULL x), l, [])
  | RbFindOrInsert d, Some x => (RbCode 1 (Some x), l, [])
  | RbFindOrInsert d, None =>
      if ok then (RbCode 0 (Some NULL), spec_put d l, []) else (RbCode (-1) (Some NULL), l, [])
  | RbInsert d, Some _ => (RbBool false, l, [])
  | RbInsert d, None => if ok then (RbBool true, spec_put d l, []) else (RbBool false, l, [])
  | RbReplace keep d, Some x =>
      (RbCode 1 (if keep then Some x else None), spec_put d l, if negb keep && frees then [x] else [])
  | RbReplace keep d, None =>
      if ok then (RbCode 0 (if keep then Some NULL else None), spec_put d l, [])
      else (RbCode (-1) (if keep then Some NULL else None), l, [])
  | RbRemove d, x => (RbData (default NULL x), spec_remove d l, [])
  | RbDelete d, Some x => (RbBool true, spec_remove d l, if frees then [x] else [])
  | RbDelete d, None => (RbBool false, l, [])
  end.

(** The world after an operation represents what the specification says. *)
Definition does (m : M rb_res) (o : rb_op) (w : world) (l fs : list Z) : Prop :=
  wp m w (fun r w' => exists ok, (inline = true -> ok = true) /\
    (let '(r', l', freed) := spec_do ok o l in r = r' /\ repr w' l' (fs ++ freed))).

Lemma repr_at w t fs : rb_repr w t fs -> repr w (els t).*2 (fs ++ []).
Proof. intros H. rewrite app_nil_r. by exists t. Qed.

Lemma data_at w k c l e dd r X f {A} (g : fr_rb_node_t -> A) Q :
  at_zip w k (T c l e dd r) X f -> Q (g (Node (root_of l) (root_of r) (cparent k) dd c false)) w -> wp (rd g e) w Q.
Proof. intros H HQ. by apply (wp_rd g _ _ _ _ _ _ _ H). Qed.

Lemma rb_find_ok w t fs d :
  rb_repr w t fs -> does (rb_do (RbFind d)) (RbFind d) w (els t).*2 fs.
Proof.
  intros Hr. pose proof (r_zip _ _ _ Hr) as Hz. unfold does. cbn [rb_do]. apply wp_bind. unfold fr_rb_find.
  apply wp_bind, (wp_not_freed _ _ _ _ _ _ Hz). apply wp_bind.
  eapply wp_mono; [by apply (wp_find_node w t fs d)|]. intros p w' [-> [[-> (ls & rs & He & Ha & Hb)]|[Hp (k & c & l & dd & r & Et & Hc)]]].
  - rewrite decide_True by done. apply wp_ret, wp_ret. exists true. split; [done|].
    destruct (spec_hole d t ls rs 0 He Ha Hb) as (Hf & _). unfold spec_do. cbn [rb_op_data]. rewrite Hf.
    split; [done|]. by apply repr_at.
  - rewrite decide_False by done. rewrite Et in Hz. apply at_unplug in Hz. apply (data_at _ _ _ _ _ _ _ _ _ _ _ Hz).
    apply wp_ret. exists true. split; [done|]. pose proof (r_ordered _ _ _ Hr) as Ho. rewrite Et in Ho.
    destruct (spec_at d k c l p dd r Ho Hc) as (Hf & _). unfold spec_do. cbn [rb_op_data]. rewrite Et, Hf.
    split; [done|]. rewrite <- Et. by apply repr_at.
Qed.

(** [insert_node], with what the specification says in each case. *)
Lemma insert_node_spec w t fs d :
  rb_repr w t fs -> object d ->
  wp (insert_node data_cmp inline offset alloc d) w (fun res w' =>
    (exists k c l e dd r, t = plug k (T c l e dd r) /\ data_cmp d dd = 0 /\ res = (1, e) /\ w' = w /\
       spec_find d (els t).*2 = Some dd) \/
    (spec_find d (els t).*2 = None /\
      ((res = (-1, NULL) /\ w' = w /\ inline = false) \/ (res = (0, NULL) /\ repr w' (spec_put d (els t).*2) fs)))).
Proof.
  intros Hr Hd. eapply wp_mono; [by apply (insert_node_ok w t fs d)|].
  intros res w' [(k & c & l & e & dd & r & Et & Hc & -> & ->)|(ls & rs & He & Ha & Hb & Hres)].
  - left. exists k, c, l, e, dd, r. split_and!; [done..|]. pose proof (r_ordered _ _ _ Hr) as Ho. rewrite Et in *.
    by apply (spec_at d k c l e dd r).
  - right. split; [by apply (spec_hole d t ls rs 0)|]. destruct Hres as [(-> & -> & Hi & _)|(-> & t' & x & Hr' & He')];
      [by left|right]. split; [done|]. destruct (spec_hole d t ls rs x He Ha Hb) as (_ & _ & ->).
    exists t'. by rewrite He'.
Qed.

Lemma rb_find_or_insert_ok w t fs d :
  rb_repr w t fs -> object d -> does (rb_do (RbFindOrInsert d)) (RbFindOrInsert d) w (els t).*2 fs.
Proof.
  intros Hr Hd. unfold does. cbn [rb_do]. apply wp_bind. unfold fr_rb_find_or_insert. apply wp_bind.
  eapply wp_mono; [by apply (insert_node_spec w t fs d)|]. unfold spec_do. cbn [rb_op_data].
  intros res w' [(k & c & l & e & dd & r & Et & Hc & -> & -> & Hf)|(Hf & [(-> & -> & Hi)|(-> & Hr')])]; rewrite Hf; cbv beta iota.
  - rewrite decide_True by done. pose proof (r_zip _ _ _ Hr) as Hz. rewrite Et in Hz. apply at_unplug in Hz.
    apply wp_bind, (data_at _ _ _ _ _ _ _ _ _ _ _ Hz). apply wp_ret, wp_ret. exists true. split; [done|].
    split; [done|]. by apply repr_at.
  - rewrite decide_False, decide_False by lia. apply wp_ret, wp_ret. exists false. split; [by rewrite Hi|].
    split; [done|]. by apply repr_at.
  - rewrite decide_False, decide_True by lia. apply wp_ret, wp_ret. exists true. split; [done|]. split; [done|]. by rewrite app_nil_r.
Qed.

Lemma rb_insert_ok w t fs d :
  rb_repr w t fs -> object d -> does (rb_do (RbInsert d)) (RbInsert d) w (els t).*2 fs.
Proof.
  intros Hr Hd. unfold does. cbn [rb_do]. apply wp_bind. unfold fr_rb_insert. apply wp_bind.
  eapply wp_mono; [by apply (insert_node_spec w t fs d)|]. unfold spec_do. cbn [rb_op_data].
  intros res w' [(k & c & l & e & dd & r & Et & Hc & -> & -> & Hf)|(Hf & [(-> & -> & Hi)|(-> & Hr')])]; rewrite Hf; cbv beta iota;
    apply wp_ret, wp_ret.
  - exists true. split; [done|]. split; [done|]. by apply repr_at.
  - exists false. split; [by rewrite Hi|]. split; [done|]. by apply repr_at.
  - exists true. split; [done|]. split; [done|]. by rewrite app_nil_r.
Qed.

Lemma rb_remove_ok w t fs d :
  rb_repr w t fs -> does (rb_do (RbRemove d)) (RbRemove d) w (els t).*2 fs.
Proof.
  intros Hr. pose proof (r_zip _ _ _ Hr) as Hz. unfold does. cbn [rb_do]. apply wp_bind. unfold fr_rb_remove.
  apply wp_bind, (wp_not_freed _ _ _ _ _ _ Hz). apply wp_bind.
  eapply wp_mono; [by apply (wp_find_node w t fs d)|]. unfold spec_do. cbn [rb_op_data].
  intros p w' [-> [[-> (ls & rs & He & Ha & Hb)]|[Hp (k & c & l & dd & r & Et & Hc)]]].
  - rewrite decide_True by done. apply wp_ret, wp_ret. exists true. split; [done|].
    destruct (spec_hole d t ls rs 0 He Ha Hb) as (-> & -> & _). split; [done|]. by apply repr_at.
  - rewrite decide_False by done. pose proof (r_ordered _ _ _ Hr) as Ho. rewrite Et in Hz, Ho. apply at_unplug in Hz.
    apply wp_bind, (data_at _ _ _ _ _ _ _ _ _ _ _ Hz). apply wp_bind, (data_at _ _ _ _ _ _ _ _ _ _ _ Hz).
    cbn [being_freed data]. apply wp_bind. rewrite Et in Hr |- *.
    eapply wp_mono; [by apply (delete_repr _ _ _ _ _ _ _ false _ d Hr)|]. intros [] w' (t' & Hr' & He).
    apply wp_ret, wp_ret. exists true. split; [done|]. destruct (spec_at d k c l p dd r Ho Hc) as (-> & -> & _).
    split; [done|]. exists t'. by rewrite He.
Qed.

Lemma rb_delete_ok w t fs d :
  rb_repr w t fs -> does (rb_do (RbDelete d)) (RbDelete d) w (els t).*2 fs.
Proof.
  intros Hr. pose proof (r_zip _ _ _ Hr) as Hz. unfold does. cbn [rb_do]. apply wp_bind. unfold fr_rb_delete.
  apply wp_bind, (wp_not_freed _ _ _ _ _ _ Hz). apply wp_bind.
  eapply wp_mono; [by apply (wp_find_node w t fs d)|]. unfold spec_do. cbn [rb_op_data].
  intros p w' [-> [[-> (ls & rs & He & Ha & Hb)]|[Hp (k & c & l & dd & r & Et & Hc)]]].
  - rewrite decide_True by done. apply wp_ret, wp_ret. exists true. split; [done|].
    destruct (spec_hole d t ls rs 0 He Ha Hb) as (-> & _). split; [done|]. by apply repr_at.
  - rewrite decide_False by done. pose proof (r_ordered _ _ _ Hr) as Ho. rewrite Et in Hz, Ho. apply at_unplug in Hz.
    apply wp_bind, (data_at _ _ _ _ _ _ _ _ _ _ _ Hz). cbn [being_freed]. apply wp_bind. rewrite Et in Hr |- *.
    eapply wp_mono; [by apply (delete_repr _ _ _ _ _ _ _ true _ d Hr)|]. intros [] w' (t' & Hr' & He).
    apply wp_ret, wp_ret. exists true. split; [done|]. destruct (spec_at d k c l p dd r Ho Hc) as (-> & -> & _).
    split; [done|]. exists t'. by rewrite He.
Qed.

(** [data_free] on an object that is not in the tree any more. *)
Lemma wp_data_free x w l fs Q :
  repr w l fs -> (forall w', repr w' l (fs ++ [x]) -> Q () w') -> wp (data_free x) w Q.
Proof.
  intros (t & [[H1 H2 H3 H4 H5] Hrb Ho Hn] & Hl) HQ. eexists _, _. split; [done|]. apply HQ. exists t. split; [|done].
  injection H5 as H5 H6 <-. split; try done. split; cbn [mem tree freed]; try done. by rewrite H5, H6.
Qed.

(** The old object is taken out and the new one put in. *)
Lemma wp_swap w k c l e dd r fs d :
  rb_repr w (plug k (T c l e dd r)) fs -> object d -> data_cmp d dd = 0 ->
  wp (if inline then
        _ ← delete_internal inline frees e false;
        _ ← insert_node data_cmp inline offset alloc d;
        mret ()
      else wr (with_data d) e) w
    (fun _ w' => repr w' (spec_put d (els (plug k (T c l e dd r))).*2) fs).
Proof.
  intros Hr Hd Hc. pose proof (r_ordered _ _ _ Hr) as Ho. destruct (around d k c l e dd r Ho Hc) as (He & Ha & Hb).
  destruct (spec_at d k c l e dd r Ho Hc) as (_ & _ & ->). destruct inline eqn:Ei.
  - apply wp_bind. rewrite <- Ei. eapply wp_mono; [by apply (delete_repr _ _ _ _ _ _ _ false _ d Hr)|].
    cbn [andb]. intros [] w' (t' & Hr' & He'). rewrite app_nil_r in Hr'. apply wp_bind.
    eapply wp_mono; [by apply (insert_node_ok w' t' fs d)|]. rewrite app_assoc in He'.
    intros res w2 [(k' & c' & l' & e' & dd' & r' & Et & Hc' & _)|(ls & rs & Hels & Ha' & Hb' & Hres)].
    + exfalso. assert (Hin : (e', dd') ∈ els t').
      { rewrite Et, els_at. apply elem_of_app. right. apply list_elem_of_here. }
      rewrite He' in Hin. apply elem_of_app in Hin as [Hin|Hin];
        [pose proof (proj1 (list.Forall_forall _ _) Ha _ Hin)|pose proof (proj1 (list.Forall_forall _ _) Hb _ Hin)]; cbn in *; lia.
    + apply wp_ret. destruct Hres as [(_ & _ & Hi & _)|(_ & t2 & x & Hr2 & He2)]; [congruence|].
      exists t2. split; [done|]. rewrite He2.
      assert (E2 : (ls ++ (x, d) :: rs).*2 = spec_put d (els t').*2) by (symmetry; by apply (spec_hole d t' ls rs x)).
      rewrite E2. destruct (spec_hole d t' _ _ e He' Ha Hb) as (_ & _ & Hput). exact Hput.
  - pose proof (r_zip _ _ _ Hr) as Hz. apply at_unplug in Hz. unzip Hz. step Hz.
    exists (plug k (T c l e d r)). rewrite els_at. split; [|done]. destruct Hr as [_ Hrb _ Hn].
    rewrite els_at in Hn, Ho, Hz. split; rewrite ?els_at.
    + apply at_zip_plug. replace (length ((cleft k ++ els l) ++ (e, d) :: els r ++ cright k))
        with (length ((cleft k ++ els l) ++ (e, dd) :: els r ++ cright k)) by (rewrite !length_app; cbn [length]; lia).
      zip Hz.
    + by apply (rb_rename _ _ _ e dd).
    + apply ordered_insert; [|done|done]. apply ordered_app in Ho as (H1 & [H2 _]%ordered_cons & H3).
      apply ordered_app. split_and!; [done..|]. intros x y Hx Hy. apply H3; [done|by apply list_elem_of_further].
    + rewrite list.Forall_app, list.Forall_cons in Hn |- *. destruct Hn as (? & _ & ?). split; [done|]. split; [|done].
      cbn [snd]. split; [done|congruence].
Qed.

Lemma rb_replace_ok w t fs keep d :
  rb_repr w t fs -> object d -> does (rb_do (RbReplace keep d)) (RbReplace keep d) w (els t).*2 fs.
Proof.
  intros Hr Hd. unfold does. cbn [rb_do]. apply wp_bind. unfold fr_rb_replace. apply wp_bind.
  eapply wp_mono; [by apply (insert_node_spec w t fs d)|]. unfold spec_do. cbn [rb_op_data].
  intros res w' [(k & c & l & e & dd & r & Et & Hc & -> & -> & Hf)|(Hf & [(-> & -> & Hi)|(-> & Hr')])]; rewrite Hf; cbv beta iota.
  - rewrite decide_True by done. pose proof (r_zip _ _ _ Hr) as Hz. rewrite Et in Hz. apply at_unplug in Hz.
    apply wp_bind, (data_at _ _ _ _ _ _ _ _ _ _ _ Hz). cbn [data]. rewrite Et in Hr |- *. apply wp_bind.
    eapply wp_mono; [by apply (wp_swap w k c l e dd r fs d)|]. intros [] w' Hr'. apply wp_bind.
    destruct (negb keep && frees)%bool.
    + apply (wp_data_free _ _ _ _ _ Hr'). intros w2 Hr2. apply wp_ret, wp_ret. by exists true.
    + apply wp_ret, wp_ret, wp_ret. exists true. rewrite app_nil_r. done.
  - rewrite decide_False, decide_False by lia. apply wp_ret, wp_ret. exists false. split; [by rewrite Hi|].
    split; [done|]. by apply repr_at.
  - rewrite decide_False, decide_True by lia. apply wp_ret, wp_ret. exists true. split; [done|]. split; [done|]. by rewrite app_nil_r.
Qed.

Lemma rb_do_ok w l fs o : repr w l fs -> object (rb_op_data o) -> does (rb_do o) o w l fs.
Proof.
  intros (t & Hr & <-) Hd. destruct o; cbn [rb_op_data] in Hd;
    [by apply rb_find_ok|by apply rb_find_or_insert_ok|by apply rb_insert_ok|by apply rb_replace_ok
    |by apply rb_remove_ok|by apply rb_delete_ok].
Qed.

Fixpoint rb_run (os : list rb_op) : M (list rb_res) :=
  match os with [] => mret [] | o :: os => r ← rb_do o; rs ← rb_run os; mret (r :: rs) end.
Fixpoint spec_run (oks : list bool) (os : list rb_op) (l : list Z) : list rb_res * list Z * list Z :=
  match oks, os with
  | ok :: oks, o :: os =>
      let '(r, l, fs) := spec_do ok o l in let '(rs, l, fs') := spec_run oks os l in (r :: rs, l, fs ++ fs')
  | _, _ => ([], l, [])
  end.

Lemma rb_run_ok os w l fs :
  repr w l fs -> Forall (fun o => object (rb_op_data o)) os ->
  wp (rb_run os) w (fun rs w' => exists oks, length oks = length os /\ (inline = true -> Forall (eq true) oks) /\
    (let '(rs', l', fs') := spec_run oks os l in rs = rs' /\ repr w' l' (fs ++ fs'))).
Proof.
  revert w l fs. induction os as [|o os IH]; intros w l fs Hr Ho; cbn [rb_run].
  - apply wp_ret. exists []. split; [done|]. split; [by constructor|]. split; [done|by rewrite app_nil_r].
  - apply list.Forall_cons in Ho as [Ho Hos]. apply wp_bind. eapply wp_mono; [by apply (rb_do_ok w l fs o)|].
    intros r w1 (ok & Hi & H1). destruct (spec_do ok o l) as [[r' l'] f1] eqn:E1. destruct H1 as [-> Hr1].
    apply wp_bind. eapply wp_mono; [by apply (IH w1 l')|]. intros rs w2 (oks & Hlen & His & H2).
    destruct (spec_run oks os l') as [[rs' l2] f2] eqn:E2. destruct H2 as [-> Hr2]. apply wp_ret.
    exists (ok :: oks). split; [cbn; lia|]. split; [intros Hi'; constructor; [by rewrite Hi|by apply His]|].
    cbn [spec_run]. rewrite E1, E2. split; [done|]. by rewrite app_assoc.
Qed.

(** ** Depth *)

Lemma rb_height t h : rb t h -> (height t <= 2 * h + (if decide (black t) then 0 else 1))%nat.
Proof.
  revert h. induction t as [|[] l IHl a d r IHr]; intros h H; cbn [height]; [lia|..].
  - destruct H as (h' & -> & Hl & Hr). rewrite decide_True by done. apply IHl in Hl. apply IHr in Hr.
    do 2 case_decide; lia.
  - destruct H as (Hbl & Hbr & Hl & Hr). rewrite decide_False by done. apply IHl in Hl. apply IHr in Hr.
    rewrite decide_True in Hl by done. rewrite decide_True in Hr by done. lia.
Qed.

Lemma rb_size t h : rb t h -> (2 ^ h <= S (length (els t)))%nat.
Proof.
  revert h. induction t as [|[] l IHl a d r IHr]; intros h H; cbn [els]; rewrite ?length_app; cbn [length rb] in *.
  - subst h. cbn. lia.
  - destruct H as (h' & -> & Hl & Hr). apply IHl in Hl. apply IHr in Hr. cbn [Nat.pow]. lia.
  - destruct H as (_ & _ & Hl & Hr). apply IHl in Hl. lia.
Qed.

Lemma height_bound t : is_rb t -> (height t <= 2 * Nat.log2 (S (length (els t))))%nat.
Proof.
  intros [Hb [h H]]. pose proof (rb_height t h H) as Hh. rewrite decide_True in Hh by done.
  apply rb_size in H. apply Nat.log2_le_pow2 in H; lia.
Qed.

Lemma find_bound w l fs d :
  repr w l fs -> exists p, find_loop data_cmp (S (2 * Nat.log2 (S (length l)))) d (root (tree w)) w = Some (p, w).
Proof.
  intros (t & [Hz Hrb Ho _] & <-). rewrite length_fmap. set (fuel := S _). rewrite (h_root _ _ _ _ Hz). cbn [croot].
  destruct (wp_insert_search fuel d [] t [] _ w Hz) as (res & w' & E0 & -> & _); [done|constructor..| |].
  { pose proof (height_bound t Hrb). unfold fuel. lia. }
  rewrite (find_search _ _ _ (cparent [])), E0. destruct res; by eexists.
Qed.

(** ** Iteration *)

(** The next element in a traversal order. *)
Definition next_is (post : list (Z * Z)) (d a : Z) : Prop :=
  match post with [] => d = NULL /\ a = NIL | (a1, d1) :: _ => d = d1 /\ a = a1 end.

Lemma wp_rd_data w t X f p d Q :
  at_zip w [] t X f -> (p, d) ∈ els t -> Q d w -> wp (rd data p) w Q.
Proof.
  intros H Hin HQ. destruct (zip_at t p d Hin) as (k & c & l & r & ->). apply at_unplug in H.
  by apply (data_at _ _ _ _ _ _ _ _ _ _ _ H).
Qed.

(** Reading the data of the node an order says is next, [NIL] included. *)
Lemma wp_rd_next w t X f p post pre Q :
  at_zip w [] t X f -> pre ++ post ≡ₚ els t -> (match post with [] => p = NIL | x :: _ => p = x.1 end) ->
  (forall d, next_is post d p -> Q d w) -> wp (rd data p) w Q.
Proof.
  intros H Hp Hpost HQ. destruct post as [|[a1 d1] post]; [subst p|subst p].
  - apply (wp_rd_nil data _ _ _ _ _ H). by apply HQ.
  - apply (wp_rd_data _ _ _ _ _ d1 _ H); [|by apply HQ]. rewrite <- Hp. apply elem_of_app. right. apply list_elem_of_here.
Qed.

Lemma wp_climb fuel k t X f w :
  at_zip w k t X f -> t <> E -> (length k < fuel)%nat ->
  wp (climb fuel (cparent k) (root_of t)) w (fun x w' => w' = w /\
    match cright k with [] => x = NIL | y :: _ => x = y.1 end).
Proof.
  revert k t. induction fuel as [|fuel IH]; intros k t H Ht Hf; [lia|]. cbn [climb].
  destruct k as [|[s c a d u] k]; cbn [cparent f_addr].
  { rewrite decide_True by done. by apply wp_ret. }
  pose proof H as H0. unzip H. rewrite decide_False.
  2:{ front a H. by apply holds_addr in H as [? _]. }
  destruct s; cbn [mk] in H; step H; cbn [cright].
  - rewrite decide_False; [by apply wp_ret|]. front_list (cells a t) H. front_list (cells a u) H.
    apply not_eq_sym. by apply (roots_differ _ _ _ _ _ _ _ _ H).
  - rewrite decide_True by done. step H. 
    apply (at_zip_eq _ _ _ k (Ts R c t a d u)) in H0; [|done]. apply (IH k _ H0); [done|cbn [length] in Hf; lia].
Qed.

Lemma next_inorder_ok w t X f pre a d post nx :
  at_zip w [] t X f -> els t = pre ++ (a, d) :: post ->
  wp (fr_rb_iter_next_inorder (InIter a nx)) w (fun res w' => w' = w /\ next_is post res.1 (in_node res.2)).
Proof.
  intros H He. assert (Hin : (a, d) ∈ els t) by (rewrite He; apply elem_of_app; right; apply list_elem_of_here).
  destruct (zip_at t a d Hin) as (k & c & l & r & Et). pose proof (zip_nodup _ _ _ _ H) as Hnd.
  rewrite Et, els_at in He, Hnd. apply pivot_unique in He as [<- <-]; [|done].
  assert (Hz : at_zip w k (T c l a d r) X f) by (apply at_unplug; by rewrite <- Et).
  unfold fr_rb_iter_next_inorder. cbn [in_node in_next]. pose proof Hz as H1. unzip H1.
  pose proof (holds_addr _ _ _ _ _ _ H1) as (? & ? & _). rewrite decide_False, decide_False by done. step H1.
  apply wp_bind.
  assert (Hx : wp (if decide (root_of r <> NIL) then with_fuel (fun fuel => leftmost fuel (root_of r))
     else p ← rd parent a; with_fuel (fun fuel => climb fuel p a)) w (fun x w' => w' = w /\
       match els r ++ cright k with [] => x = NIL | y :: _ => x = y.1 end)).
  { destruct r as [|c' l' a' d' r'].
    - cbn [root_of]. rewrite decide_False by (intros []; done). step H1. apply wp_with_fuel.
      apply (wp_climb _ k (T c l a d E) _ _ _ Hz); [done|]. pose proof (fuel_enough _ _ _ _ _ Hz). lia.
    - rewrite decide_True.
      2:{ cbn [root_of cells app] in *. front a' H1. by apply holds_addr in H1 as [? _]. }
      apply wp_with_fuel. apply (at_zip_eq _ _ _ (F R c a d l :: k) (T c' l' a' d' r')) in Hz; [|done].
      eapply wp_mono; [apply (wp_leftmost _ _ _ _ _ _ Hz); [done|pose proof (fuel_enough _ _ _ _ _ Hz); lia]|].
      intros y w' [-> (k' & cy & dy & yr & Ep & Hc)]. split; [done|].
      pose proof (els_leftmost _ _ _ _ _ _ _ Ep Hc) as Ee. cbn [cright] in Ee. by rewrite Ee. }
  eapply wp_mono; [exact Hx|]. intros x w' [-> Hnext]. apply wp_bind.
  apply (wp_rd_next _ _ _ _ _ (els r ++ cright k) ((cleft k ++ els l) ++ [(a, d)]) _ H).
  - rewrite Et, els_at. by rewrite <- !app_assoc.
  - done.
  - intros d' Hd. by apply wp_ret.
Qed.

(** An iterator visits [order] if each step goes to the next element. *)
Definition visits {I} (next : I -> M (Z * I)) (node : I -> Z) (w : world) (order : list (Z * Z)) : Prop :=
  forall pre a d post it, order = pre ++ (a, d) :: post -> node it = a ->
    wp (next it) w (fun res w' => w' = w /\ next_is post res.1 (node res.2)).

Lemma flatten_loop_ok {I} (next : I -> M (Z * I)) node w order fuel pre a d post it room :
  visits next node w order -> order = pre ++ (a, d) :: post -> node it = a ->
  Forall (fun x => x.2 <> NULL) order -> (length post + 2 <= fuel)%nat -> (S (length post) <= room)%nat ->
  wp (flatten_loop next fuel d it room) w (fun l w' => w' = w /\ l = ((a, d) :: post).*2).
Proof.
  intros Hv Eo Hn Hd. revert fuel pre a d it room Eo Hn. induction post as [|[a1 d1] post IH];
    intros fuel pre a d it room Eo Hn Hf Hroom; (destruct fuel as [|fuel]; [lia|]); cbn [flatten_loop];
    (assert (Hdn : d <> NULL) by (rewrite Eo in Hd; apply list.Forall_app in Hd as [_ [Hd _]%list.Forall_cons]; exact Hd));
    rewrite decide_False by done; (destruct room as [|room]; [lia|]); apply wp_bind;
    (eapply wp_mono; [by apply (Hv pre a d _ it Eo Hn)|]); intros [d' it'] w' [-> Hnext]; cbn [fst snd] in Hnext;
    apply wp_bind.
  - destruct Hnext as [-> _]. destruct fuel as [|fuel]; [cbn in Hf; lia|]. cbn [flatten_loop].
    rewrite decide_True by done. apply wp_ret. by apply wp_ret.
  - destruct Hnext as [-> Hn']. cbn [length] in *. eapply wp_mono.
    + apply (IH fuel (pre ++ [(a, d)]) a1 d1 it' room); [by rewrite <- app_assoc|done|lia|lia].
    + intros l w' [-> ->]. by apply wp_ret.
Qed.

(** The first element of an order, from [init]. *)
Definition starts {I} (init : M (Z * option I)) (node : I -> Z) (w : world) (order : list (Z * Z)) : Prop :=
  wp init w (fun res w' => w' = w /\
    match order, res.2 with
    | [], None => True
    | (a, d) :: _, Some it => res.1 = d /\ node it = a
    | _, _ => False
    end).

Lemma flatten_visits {I} (init : M (Z * option I)) next node w t fs order :
  rb_repr w t fs -> order ≡ₚ els t -> Z.of_nat (length (els t)) < 2 ^ 32 ->
  starts init node w order -> visits next node w order ->
  wp (fr_rb_flatten init next) w (fun l w' => w' = w /\ l = order.*2).
Proof.
  intros [Hz _ _ Hn] Hp Hlen Hs Hv. unfold fr_rb_flatten. apply wp_bind.
  exists (Z.of_nat (length (els t))), w. split.
  { unfold fr_rb_num_elements. injection (h_rest _ _ _ _ Hz) as _ -> _. by rewrite u32_small by lia. }
  apply wp_bind. eapply wp_mono; [exact Hs|]. intros [item it] w' [-> H]. cbn [fst snd] in H. rewrite Nat2Z.id.
  destruct order as [|[a d] post], it as [it|]; try done; [by apply wp_ret|]. destruct H as [-> Hnode].
  rewrite <- Hp. cbn [length].
  apply (flatten_loop_ok next node w ((a, d) :: post) _ [] a d post it); [done|done|done| |lia|lia].
  rewrite Hp. eapply Forall_impl; [|exact Hn]. intros x [[? _] _]. done.
Qed.

Lemma inorder_visits w t fs : rb_repr w t fs -> visits fr_rb_iter_next_inorder in_node w (els t).
Proof.
  intros [Hz _ _ _] pre a d post [nd nx] Eo Hn. cbn [in_node] in Hn. subst nd.
  by apply (next_inorder_ok w t [] _ pre a d post nx Hz).
Qed.

Lemma inorder_starts w t fs : rb_repr w t fs -> starts fr_rb_iter_init_inorder in_node w (els t).
Proof.
  intros [Hz _ _ _]. unfold starts, fr_rb_iter_init_inorder. apply wp_bind, (wp_rd_root _ _ _ _ _ Hz). cbn [croot].
  assert (Ht : t = E \/ t <> E) by (destruct t; [by left|by right]).
  destruct Ht as [->|Ht]; [by rewrite decide_True by done; apply wp_ret|].
  rewrite decide_False.
  2:{ destruct t as [|c l a d r]; [done|]. unzip Hz. by apply holds_addr in Hz as [? _]. }
  apply wp_bind, wp_with_fuel.
  eapply wp_mono; [apply (wp_leftmost _ _ _ _ _ _ Hz Ht); pose proof (fuel_enough _ _ _ _ _ Hz); lia|].
  intros y w' [-> (k & c & d & r & Ep & Hc)]. pose proof (els_leftmost _ _ _ _ _ _ _ Ep Hc) as Ee.
  cbn [cright] in Ee. rewrite app_nil_r in Ee. apply wp_bind. apply (wp_rd_data _ _ _ _ _ d _ Hz).
  { rewrite Ee. apply list_elem_of_here. }
  apply wp_ret. split; [done|]. by rewrite Ee.
Qed.

(** *** Pre-order *)

Fixpoint pre (t : rbt) : list (Z * Z) := match t with E => [] | T _ l a d r => (a, d) :: pre l ++ pre r end.
Fixpoint pre_right (k : ctx) : list (Z * Z) :=
  match k with [] => [] | F L _ _ _ u :: k => pre u ++ pre_right k | F R _ _ _ _ :: k => pre_right k end.
Fixpoint pre_left (k : ctx) : list (Z * Z) :=
  match k with
  | [] => []
  | F L _ a d _ :: k => pre_left k ++ [(a, d)]
  | F R _ a d u :: k => pre_left k ++ (a, d) :: pre u
  end.

Lemma pre_plug k t : pre (plug k t) = pre_left k ++ pre t ++ pre_right k.
Proof.
  revert t. induction k as [|[[] c a d u] k IH]; intros t; cbn [plug pre_left pre_right Ts].
  - by rewrite app_nil_r.
  - rewrite IH. cbn [pre]. rewrite <- !app_assoc. cbn [app]. by rewrite <- !app_assoc.
  - rewrite IH. cbn [pre]. rewrite <- !app_assoc. cbn [app]. by rewrite <- !app_assoc.
Qed.
Lemma pre_els t : pre t ≡ₚ els t.
Proof. induction t as [|c l IHl a d r IHr]; [done|]. cbn [pre els]. rewrite IHl, IHr. solve_Permutation. Qed.

Lemma wp_climb_right fuel k t X f w :
  at_zip w k t X f -> t <> E -> (length k < fuel)%nat ->
  wp (climb_right fuel (root_of t)) w (fun x w' => w' = w /\
    match pre_right k with [] => x = NIL | y :: _ => x = y.1 end).
Proof.
  revert k t. induction fuel as [|fuel IH]; intros k t H Ht Hf; [lia|]. cbn [climb_right].
  destruct t as [|c l x dx r]; [done|]. cbn [root_of]. pose proof H as H0. unzip H. step H.
  destruct k as [|[s ck a d u] k]; cbn [cparent f_addr ccells app] in *.
  { rewrite decide_True by done. by apply wp_ret. }
  rewrite decide_False.
  2:{ front a H. by apply holds_addr in H as [? _]. }
  assert (Hup : at_zip w k (Ts s ck (T c l x dx r) a d u) X f) by (by apply (at_zip_eq _ (F s ck a d u :: k) (T c l x dx r))).
  assert (IHk : wp (climb_right fuel a) w (fun y w' => w' = w /\
    match pre_right k with [] => y = NIL | z :: _ => y = z.1 end)).
  { rewrite <- (root_Ts s ck (T c l x dx r) a d u). apply (IH k _ Hup); [by destruct s|cbn [length] in Hf; lia]. }
  assert (Hne : root_of u <> x).
  { front_list (cells a u) H. front x H. apply not_eq_sym, (root_ne _ _ _ _ _ _ a u H). solve_submseteq. }
  destruct s; cbn [mk] in H; step H; cbn [pre_right].
  - destruct u as [|cu ul ua ud ur]; cbn [root_of pre app].
    + rewrite decide_False by (intros [[] _]; done). exact IHk.
    + rewrite decide_True; [by apply wp_ret|]. split; [|done]. cbn [cells app] in H. front ua H.
      by apply holds_addr in H as [? _].
  - rewrite decide_False by (intros [_ []]; done). exact IHk.
Qed.

Lemma root_not_nil w C par t r f : holds w (cells par t ++ C) r f -> t <> E -> root_of t <> NIL.
Proof. intros H Ht. destruct t; [done|]. by apply holds_addr in H as [? _]. Qed.

Lemma preorder_visits w t fs : rb_repr w t fs -> visits fr_rb_iter_next_preorder pre_node w (pre t).
Proof.
  intros [Hz _ _ _] p0 a d post [nd] He Hn. cbn [pre_node] in Hn. subst nd.
  assert (Hin : (a, d) ∈ els t) by (rewrite <- pre_els, He; apply elem_of_app; right; apply list_elem_of_here).
  destruct (zip_at t a d Hin) as (k & c & l & r & Et). pose proof (zip_nodup _ _ _ _ Hz) as Hnd.
  assert (Hnd' : NoDup (pre t).*1) by (by rewrite pre_els). clear Hnd.
  rewrite Et, pre_plug in He, Hnd'. cbn [pre] in He, Hnd'. rewrite <- app_comm_cons, <- app_assoc in He, Hnd'.
  apply pivot_unique in He as [<- <-]; [|done].
  assert (H : at_zip w k (T c l a d r) [] (false, u32 (Z.of_nat (length (els t))), fs)) by (apply at_unplug; by rewrite <- Et).
  unfold fr_rb_iter_next_preorder. cbn [pre_node]. pose proof H as H1. unzip H1.
  rewrite decide_False by (by apply holds_addr in H1 as [? _]). step H1. destruct l as [|c1 l1 a1 d1 r1].
  2:{ cbn [root_of cells pre app] in *. rewrite decide_True by (front a1 H1; by apply holds_addr in H1 as [? _]).
      step H1. by apply wp_ret. }
  cbn [root_of cells pre app] in *. rewrite decide_False by (intros []; done). step H1. destruct r as [|c1 l1 a1 d1 r1].
  2:{ cbn [root_of cells pre app] in *. rewrite decide_True by (front a1 H1; by apply holds_addr in H1 as [? _]).
      step H1. by apply wp_ret. }
  cbn [root_of pre app] in *. rewrite decide_False by (intros []; done). apply wp_bind, wp_with_fuel.
  eapply wp_mono; [apply (wp_climb_right _ _ _ _ _ _ H); [done|pose proof (fuel_enough _ _ _ _ _ H); lia]|].
  intros x w' [-> Hx]. case_decide as Hx0.
  - apply wp_ret. split; [done|]. cbn [fst snd pre_node]. destruct (pre_right k) as [|[a1 d1] post] eqn:Ek; [done|].
    cbn [fst] in Hx. subst x. exfalso. revert Hx0. eapply holds_not_nil; [exact Hz|]. rewrite app_nil_r, <- els_cells, <- pre_els, Et, pre_plug, Ek.
    apply (list_elem_of_fmap_2 fst _ (a1, d1)). rewrite !elem_of_app. right. right. apply list_elem_of_here.
  - destruct (pre_right k) as [|[a1 d1] post] eqn:Ek; [done|]. cbn [fst] in Hx. subst x.
    apply wp_bind, (wp_rd_data _ _ _ _ _ d1 _ Hz); [|by apply wp_ret].
    rewrite <- pre_els, Et, pre_plug, Ek, !elem_of_app. right. right. apply list_elem_of_here.
Qed.

Lemma preorder_starts w t fs : rb_repr w t fs -> starts fr_rb_iter_init_preorder pre_node w (pre t).
Proof.
  intros [Hz _ _ _]. unfold starts, fr_rb_iter_init_preorder. apply wp_bind, (wp_rd_root _ _ _ _ _ Hz). cbn [croot].
  destruct t as [|c l a d r]; [by rewrite decide_True by done; apply wp_ret|]. unzip Hz. cbn [root_of].
  rewrite decide_False by (by apply holds_addr in Hz as [? _]). step Hz. by apply wp_ret.
Qed.

(** *** Post-order *)

Fixpoint post (t : rbt) : list (Z * Z) := match t with E => [] | T _ l a d r => post l ++ post r ++ [(a, d)] end.
Fixpoint post_right (k : ctx) : list (Z * Z) :=
  match k with
  | [] => []
  | F L _ a d u :: k => post u ++ (a, d) :: post_right k
  | F R _ a d _ :: k => (a, d) :: post_right k
  end.
Fixpoint post_left (k : ctx) : list (Z * Z) :=
  match k with [] => [] | F L _ _ _ _ :: k => post_left k | F R _ _ _ u :: k => post_left k ++ post u end.

Lemma post_plug k t : post (plug k t) = post_left k ++ post t ++ post_right k.
Proof.
  revert t. induction k as [|[[] c a d u] k IH]; intros t; cbn [plug post_left post_right Ts].
  - by rewrite app_nil_r.
  - rewrite IH. cbn [post]. by rewrite <- !app_assoc.
  - rewrite IH. cbn [post]. by rewrite <- !app_assoc.
Qed.
Lemma post_els t : post t ≡ₚ els t.
Proof. induction t as [|c l IHl a d r IHr]; [done|]. cbn [post els]. rewrite IHl, IHr. solve_Permutation. Qed.

Lemma wp_deepest fuel k t X f w :
  at_zip w k t X f -> t <> E -> (height t <= fuel)%nat ->
  wp (deepest fuel (root_of t)) w (fun y w' => w' = w /\ exists d rest, post t = (y, d) :: rest).
Proof.
  revert k t. induction fuel as [|fuel IH]; intros k t H Ht Hf;
    (destruct t as [|c l a d r]; [done|]); cbn [height] in Hf; [lia|]. cbn [deepest root_of].
  pose proof H as H0. unzip H. step H. assert (Hl : l = E \/ l <> E) by (destruct l; [by left|by right]).
  destruct Hl as [->|Hl].
  - cbn [root_of]. rewrite decide_False by (intros []; done). step H. cbn [post app].
    assert (Hr : r = E \/ r <> E) by (destruct r; [by left|by right]). destruct Hr as [->|Hr].
    + rewrite decide_True by done. apply wp_ret. split; [done|]. by eexists _, _.
    + front_list (cells a r) H. rewrite decide_False by (by eapply root_not_nil).
      eapply wp_mono; [apply (IH (F R c a d E :: k) r); [by apply (at_zip_eq _ k (T c E a d r))|done|lia]|].
      intros y w' [-> (d' & rest & ->)]. split; [done|]. by eexists _, _.
  - front_list (cells a l) H. rewrite decide_True by (by eapply root_not_nil).
    eapply wp_mono; [apply (IH (F L c a d r :: k) l); [by apply (at_zip_eq _ k (T c l a d r))|done|lia]|].
    intros y w' [-> (d' & rest & Ep)]. split; [done|]. cbn [post]. rewrite Ep. by eexists _, _.
Qed.

Lemma postorder_visits w t fs : rb_repr w t fs -> visits fr_rb_iter_next_postorder post_node w (post t).
Proof.
  intros [Hz _ _ _] p0 a d rest [nd] He Hn. cbn [post_node] in Hn. subst nd.
  assert (Hin : (a, d) ∈ els t) by (rewrite <- post_els, He; apply elem_of_app; right; apply list_elem_of_here).
  destruct (zip_at t a d Hin) as (k & c & l & r & Et). pose proof (zip_nodup _ _ _ _ Hz) as Hnd.
  assert (Hnd' : NoDup (post t).*1) by (by rewrite post_els). clear Hnd.
  assert (Hpost : forall k', post (plug k' (T c l a d r)) = (post_left k' ++ post l ++ post r) ++ (a, d) :: post_right k').
  { intros k'. rewrite post_plug. cbn [post]. by rewrite <- !app_assoc. }
  rewrite Et, Hpost in He, Hnd'. apply pivot_unique in He as [_ <-]; [|done].
  assert (H : at_zip w k (T c l a d r) [] (false, u32 (Z.of_nat (length (els t))), fs)) by (apply at_unplug; by rewrite <- Et).
  unfold fr_rb_iter_next_postorder. cbn [post_node]. pose proof H as H1. unzip H1.
  rewrite decide_False by (by apply holds_addr in H1 as [? _]). step H1.
  destruct k as [|[s ck p dp u] k]; cbn [cparent f_addr ccells app] in *; [by rewrite decide_True by done; apply wp_ret|].
  rewrite decide_False by (front p H1; by apply holds_addr in H1 as [? _]).
  assert (Hne : root_of u <> a) by (front a H1; apply not_eq_sym, (root_ne _ _ _ _ _ _ p u H1); solve_submseteq).
  destruct s; cbn [mk] in H1; step H1; cbn [post_right].
  - assert (Hu : u = E \/ u <> E) by (destruct u; [by left|by right]). destruct Hu as [->|Hu].
    + rewrite decide_True by (by left). step H1. by apply wp_ret.
    + front_list (cells p u) H1. rewrite decide_False by (intros [?|?]; [by eapply root_not_nil|done]).
      apply wp_bind, wp_with_fuel. assert (Hu' : at_zip w (F R ck p dp (T c l a d r) :: k) u [] (false, u32 (Z.of_nat (length (els t))), fs))
        by (by apply (at_zip_eq _ (F L ck p dp u :: k) (T c l a d r))).
      eapply wp_mono; [apply (wp_deepest _ _ _ _ _ _ Hu' Hu); pose proof (fuel_enough _ _ _ _ _ Hu'); lia|].
      intros y w' [-> (d' & rest & Ep)]. apply wp_bind, (wp_rd_data _ _ _ _ _ d' _ Hz).
      { rewrite <- post_els, Et, Hpost. cbn [post_right]. rewrite Ep. apply elem_of_app. right. apply list_elem_of_further.
        apply list_elem_of_here. }
      apply wp_ret. rewrite Ep. done.
  - rewrite decide_True by (by right). step H1. by apply wp_ret.
Qed.

Lemma postorder_starts w t fs : rb_repr w t fs -> starts fr_rb_iter_init_postorder post_node w (post t).
Proof.
  intros [Hz _ _ _]. unfold starts, fr_rb_iter_init_postorder. apply wp_bind, (wp_rd_root _ _ _ _ _ Hz). cbn [croot].
  assert (Ht : t = E \/ t <> E) by (destruct t; [by left|by right]).
  destruct Ht as [->|Ht]; [by rewrite decide_True by done; apply wp_ret|].
  rewrite decide_False by (by eapply (root_not_nil _ _ NIL)). apply wp_bind, wp_with_fuel.
  eapply wp_mono; [apply (wp_deepest _ _ _ _ _ _ Hz Ht); pose proof (fuel_enough _ _ _ _ _ Hz); lia|].
  intros y w' [-> (d & rest & Ep)]. apply wp_bind, (wp_rd_data _ _ _ _ _ d _ Hz).
  { rewrite <- post_els, Ep. apply list_elem_of_here. }
  apply wp_ret. rewrite Ep. done.
Qed.

(** ** Freeing the tree *)

Lemma wp_free_walker fuel par t C r b n fs w :
  holds w (cells par t ++ C) r (b, n, fs) -> t <> E -> frees = true -> (height t <= fuel)%nat ->
  wp (free_walker inline frees fuel (root_of t)) w (fun _ w' => holds w' C r (b, n, fs ++ (post t).*2)).
Proof.
  intros H Ht Hfr. revert par t C fs w H Ht. induction fuel as [|fuel IH]; intros par t C fs w H Ht Hf;
    (destruct t as [|c l a d rt]; [done|]); cbn [height] in Hf; [lia|]. cbn [free_walker root_of cells app] in *.
  assert (Hsub : forall t' C' fs' w', (height t' <= fuel)%nat -> holds w' (cells a t' ++ C') r (b, n, fs') ->
    wp (when (root_of t' <> NIL) (free_walker inline frees fuel (root_of t'))) w'
      (fun _ w2 => holds w2 C' r (b, n, fs' ++ (post t').*2))).
  { intros t' C' fs' w' Hh H'. assert (Hu : t' = E \/ t' <> E) by (destruct t'; [by left|by right]).
    destruct Hu as [->|Hu].
    - apply wp_when_false; [intros []; done|]. by rewrite app_nil_r.
    - apply wp_when_true; [by eapply root_not_nil|]. by apply (IH a). }
  step H. apply wp_bind. front_list (cells a l) H. eapply wp_mono; [eapply Hsub; [lia|exact H]|].
  clear w H. intros [] w H. step H. apply wp_bind. front_list (cells a rt) H.
  eapply wp_mono; [eapply Hsub; [lia|exact H]|]. clear w H. intros [] w H. front a H.
  apply (wp_node_free _ _ _ _ _ _ _ _ _ _ H); [done|]. rewrite Hfr. cbn [andb data].
  intros w' H'. cbn [post]. rewrite !fmap_app. cbn [fmap list_fmap snd].
  eapply (eq_ind _ (fun x => holds w' C r (b, n, x))); [exact H'|]. by rewrite <- !app_assoc.
Qed.

Lemma wp_tree_free w t fs :
  rb_repr w t fs -> wp (_tree_free inline frees) w (fun r w' => r = 0 /\ tree w' = Tree NIL true 0 /\
    freed w' = fs ++ (if frees then (post t).*2 else [])).
Proof.
  intros [Hz _ _ _]. unfold _tree_free. apply wp_bind, (wp_not_freed _ _ _ _ _ _ Hz). apply wp_bind.
  destruct w as [m [r0 b0 n0] fs0]. pose proof Hz as [H1 H2 H3 H4 H5]. cbn [tree freed root tree_being_freed num_elements mem] in *.
  injection H5 as -> -> ->. eexists _, _. split; [done|]. cbn [mem tree root num_elements tree_being_freed freed].
  set (w := World _ _ _).
  assert (Hz' : holds w (cells NIL t ++ []) (root_of t) (true, u32 (Z.of_nat (length (els t))), fs)) by (by split).
  apply wp_bind, (wp_rd_root _ _ _ _ _ Hz'). apply wp_bind.
  assert (Hwalk : wp (when (root_of t <> NIL /\ frees = true) (with_fuel (fun fuel => free_walker inline frees fuel (root_of t)))) w
    (fun _ w' => tree_being_freed (tree w') = true /\ freed w' = fs ++ (if frees then (post t).*2 else []))).
  { assert (Ht : t = E \/ t <> E) by (destruct t; [by left|by right]). destruct Ht as [->|Ht].
    - apply wp_when_false; [intros [[] _]; done|]. split; [done|]. destruct frees; by rewrite app_nil_r.
    - destruct frees eqn:Ef.
      + apply wp_when_true; [split; [by eapply root_not_nil|done]|]. apply wp_with_fuel. rewrite <- Ef.
        eapply wp_mono; [eapply (wp_free_walker _ NIL t [] _ _ _ _ _ Hz' Ht Ef)|].
        * pose proof (height_cells NIL t). apply holds_size in Hz'. rewrite length_app in Hz'. unfold fuel_of. lia.
        * intros [] w' [_ _ _ _ H5]. by injection H5 as -> _ ->.
      + apply wp_when_false; [intros [_ ?]; done|]. split; [done|]. by rewrite app_nil_r. }
  eapply wp_mono; [exact Hwalk|]. intros [] w' [Hb Hfs]. apply wp_bind. eexists _, _. split; [done|]. cbn [mem tree freed].
  apply wp_ret. split_and!; [done| |done]. by rewrite Hb.
Qed.

Lemma init_repr m : repr (_fr_rb_init m) [] [].
Proof.
  exists E. split; [|done]. split; [|split; [done|by exists 0%nat]|constructor|constructor].
  split; cbn; try done; [|by intros p n ?%not_elem_of_nil|by apply lookup_insert_eq].
  by apply (bool_decide_unpack _); vm_compute.
Qed.

Lemma repr_num w l fs : repr w l fs -> num_elements (tree w) = u32 (Z.of_nat (length l)) /\ freed w = fs /\ sorted l.
Proof.
  intros (t & [Hz _ Ho _] & <-). injection (h_rest _ _ _ _ Hz) as _ -> ->. rewrite length_fmap.
  split_and!; [done..|]. by apply ordered_sorted.
Qed.

Lemma flatten_all w l fs :
  repr w l fs -> Z.of_nat (length l) < 2 ^ 32 ->
  fr_rb_flatten_inorder w = Some (l, w) /\
  (exists l', fr_rb_flatten_preorder w = Some (l', w) /\ l' ≡ₚ l) /\
  (exists l', fr_rb_flatten_postorder w = Some (l', w) /\ l' ≡ₚ l).
Proof.
  intros (t & Hr & <-) Hlen. rewrite length_fmap in Hlen. split_and!.
  - destruct (flatten_visits fr_rb_iter_init_inorder fr_rb_iter_next_inorder in_node w t fs (els t) Hr) as (l & w' & E0 & -> & ->);
      [done|done|by eapply inorder_starts|by eapply inorder_visits|done].
  - destruct (flatten_visits fr_rb_iter_init_preorder fr_rb_iter_next_preorder pre_node w t fs (pre t) Hr) as (l & w' & E0 & -> & ->);
      [apply pre_els|done|by eapply preorder_starts|by eapply preorder_visits|].
    exists (pre t).*2. split; [done|]. by rewrite pre_els.
  - destruct (flatten_visits fr_rb_iter_init_postorder fr_rb_iter_next_postorder post_node w t fs (post t) Hr) as (l & w' & E0 & -> & ->);
      [apply post_els|done|by eapply postorder_starts|by eapply postorder_visits|].
    exists (post t).*2. split; [done|]. by rewrite post_els.
Qed.

(** ** Access by the inline node *)

Lemma root_not_null w C par t r f : holds w (cells par t ++ C) r f -> root_of t <> NULL.
Proof. intros H. destruct t; [done|]. by apply holds_addr in H as (_ & ? & _). Qed.

Lemma wp_in_tree w k c l a d r X f Q :
  at_zip w k (T c l a d r) X f -> Q true w -> wp (rd fr_rb_node_inline_in_tree a) w Q.
Proof.
  intros H HQ. pose proof (cparent_not_null _ _ _ _ _ H) as Hp. apply (data_at _ _ _ _ _ _ _ _ _ _ _ H).
  unfold fr_rb_node_inline_in_tree. cbn [left right parent being_freed]. unzip H.
  rewrite bool_decide_eq_true_2; [done|]. split_and!; [| |done|done].
  - front_list (cells a l) H. by eapply root_not_null.
  - front_list (cells a r) H. by eapply root_not_null.
Qed.

(** Removing or deleting by the node of an object in the tree is removing or deleting the
    object. *)
Lemma by_inline_node_ok w t fs a d :
  rb_repr w t fs -> (a, d) ∈ els t ->
  wp (fr_rb_remove_by_inline_node inline frees a) w (fun x w' => x = d /\ repr w' (spec_remove d (els t).*2) fs) /\
  wp (fr_rb_delete_by_inline_node inline frees a) w (fun b w' => b = true /\
    repr w' (spec_remove d (els t).*2) (fs ++ (if frees then [d] else []))).
Proof.
  intros Hr Hin. destruct (zip_at t a d Hin) as (k & c & l & r & Et). rewrite Et in Hr |- *.
  pose proof (r_zip _ _ _ Hr) as Hz. apply at_unplug in Hz. pose proof (cmp_refl d) as Hc.
  destruct (spec_at d k c l a d r (r_ordered _ _ _ Hr) Hc) as (_ & -> & _).
  unfold fr_rb_remove_by_inline_node, fr_rb_delete_by_inline_node. split; apply wp_bind, (wp_in_tree _ _ _ _ _ _ _ _ _ _ Hz); cbn [negb].
  - apply wp_bind, (data_at _ _ _ _ _ _ _ _ _ _ _ Hz). apply wp_bind.
    eapply wp_mono; [by apply (delete_repr _ _ _ _ _ _ _ false _ d Hr)|]. cbn [andb]. rewrite app_nil_r.
    intros [] w' (t' & Hr' & He). apply wp_ret. split; [done|]. exists t'. by rewrite He.
  - apply wp_bind. eapply wp_mono; [by apply (delete_repr _ _ _ _ _ _ _ true _ d Hr)|].
    intros [] w' (t' & Hr' & He). apply wp_ret. split; [done|]. exists t'. by rewrite He.
Qed.

(** ** Deleting while iterating *)

(** A client that walks over the tree and deletes the objects [p] selects; the objects it
    met. *)
Fixpoint sweep (p : Z -> bool) (fuel : nat) (item : Z) (iter : fr_rb_iter_inorder_t) : M (list Z) :=
  match fuel with
  | O => fail
  | S fuel' =>
      if decide (item = NULL) then mret [] else
      iter ← (if p item then fr_rb_iter_delete_inorder inline frees iter else mret iter);
      '(item', iter) ← fr_rb_iter_next_inorder iter;
      l ← sweep p fuel' item' iter;
      mret (item :: l)
  end.

Lemma delete_iter_ok w t fs p0 a d rest nx :
  rb_repr w t fs -> els t = p0 ++ (a, d) :: rest ->
  wp (fr_rb_iter_delete_inorder inline frees (InIter a nx)) w (fun it w' => exists t',
    rb_repr w' t' (fs ++ (if frees then [d] else [])) /\ els t' = p0 ++ rest /\
    in_node it = NULL /\ in_next it = match rest with [] => NIL | x :: _ => x.1 end).
Proof.
  intros Hr He. pose proof (r_zip _ _ _ Hr) as Hz.
  assert (Hin : (a, d) ∈ els t) by (rewrite He; apply elem_of_app; right; apply list_elem_of_here).
  destruct (zip_at t a d Hin) as (k & c & l & r & Et). unfold fr_rb_iter_delete_inorder. cbn [in_node].
  assert (Ha : a <> NIL).
  { rewrite Et in Hz. apply at_unplug in Hz. unzip Hz. by apply holds_addr in Hz as [? _]. }
  rewrite decide_False by done. apply wp_bind. eapply wp_mono; [by apply (next_inorder_ok w t [] _ p0 a d rest nx Hz)|].
  intros [d' it'] w' [-> Hnext]. cbn [fst snd] in Hnext. apply wp_bind.
  pose proof (zip_nodup _ _ _ _ Hz) as Hnd. rewrite Et, els_at in He, Hnd. apply pivot_unique in He as [E1 E2]; [|done].
  rewrite Et in Hr. eapply wp_mono; [by apply (delete_repr _ _ _ _ _ _ _ true _ d Hr), cmp_refl|].
  intros [] w' (t' & Hr' & He'). apply wp_ret. exists t'. split_and!; [done| |done|].
  - by rewrite He', app_assoc, E1, E2.
  - cbn [in_next]. destruct rest as [|[a1 d1] rest]; by destruct Hnext.
Qed.

Lemma sweep_ok p fuel w t fs p0 a d rest nx :
  rb_repr w t fs -> els t = p0 ++ (a, d) :: rest -> (length rest + 2 <= fuel)%nat ->
  wp (sweep p fuel d (InIter a nx)) w (fun l w' => l = d :: rest.*2 /\
    repr w' (p0.*2 ++ filter (fun x => p x = false) (d :: rest.*2))
      (fs ++ (if frees then filter (fun x => p x = true) (d :: rest.*2) else []))).
Proof.
  revert fuel w t fs p0 a d nx. induction rest as [|[a1 d1] rest IH]; intros fuel w t fs p0 a d nx Hr He Hf;
    (destruct fuel as [|fuel]; [lia|]); cbn [sweep length] in *;
    (assert (Hd : d <> NULL) by (pose proof (r_nodes _ _ _ Hr) as Hn; rewrite He in Hn;
       apply list.Forall_app in Hn as [_ [[[Hn _] _] _]%list.Forall_cons]; exact Hn));
    rewrite decide_False by done; apply wp_bind; rewrite !filter_cons; destruct (p d) eqn:Ep;
    rewrite ?(decide_True (P := true = true)), ?(decide_False (P := true = false)), ?(decide_False (P := false = true)),
      ?(decide_True (P := false = false)) by done.
  - eapply wp_mono; [by apply (delete_iter_ok w t fs p0 a d [] nx)|].
    intros [nd nx'] w' (t' & Hr' & He' & En & Ex). cbn [in_node in_next] in En, Ex. subst nd nx'. unfold fr_rb_iter_next_inorder. cbn [in_node in_next].
    rewrite decide_False, decide_True by done. apply wp_bind, wp_bind, (wp_rd_nil data _ _ _ _ _ (r_zip _ _ _ Hr')).
    apply wp_ret. destruct fuel as [|fuel]; [lia|]. cbn [sweep]. rewrite decide_True by done. apply wp_bind, wp_ret, wp_ret.
    split; [done|]. exists t'. rewrite He', app_nil_r. split; [done|]. by rewrite app_nil_r.
  - apply wp_ret. apply wp_bind. eapply wp_mono; [by apply (next_inorder_ok w t [] _ p0 a d [] nx (r_zip _ _ _ Hr))|].
    intros [d' it'] w' [-> [Hd' _]]. cbn [fst] in Hd'. subst d'. destruct fuel as [|fuel]; [lia|]. cbn [sweep].
    rewrite decide_True by done. apply wp_bind, wp_ret, wp_ret. split; [done|]. exists t. split.
    + destruct frees; by rewrite app_nil_r.
    + by rewrite He, fmap_app.
  - eapply wp_mono; [by apply (delete_iter_ok w t fs p0 a d ((a1, d1) :: rest) nx)|].
    intros [nd nx'] w' (t' & Hr' & He' & En & Ex). cbn [in_node in_next fst] in En, Ex. subst nd nx'. unfold fr_rb_iter_next_inorder. cbn [in_node in_next].
    rewrite decide_False, decide_True by done. apply wp_bind, wp_bind, (wp_rd_data _ _ _ _ _ d1 _ (r_zip _ _ _ Hr')).
    { rewrite He'. apply elem_of_app. right. apply list_elem_of_here. }
    apply wp_ret. apply wp_bind. eapply wp_mono; [apply (IH fuel w' t' _ p0 a1 d1 NULL Hr' He'); lia|].
    intros l w2 [-> Hr2]. apply wp_ret. split; [done|].
    eapply (eq_ind _ (fun x => repr w2 _ x)); [exact Hr2|]. destruct frees; cbn [app]; by rewrite <- ?app_assoc, ?app_nil_r.
  - apply wp_ret. apply wp_bind.
    eapply wp_mono; [by apply (next_inorder_ok w t [] _ p0 a d ((a1, d1) :: rest) nx (r_zip _ _ _ Hr))|].
    intros [d' [nd nx']] w' [-> [Hd' Hnd]]. cbn [fst snd in_node] in Hd', Hnd. subst d' nd. apply wp_bind.
    eapply wp_mono; [apply (IH fuel w t fs (p0 ++ [(a, d)]) a1 d1 nx' Hr); [by rewrite <- app_assoc|lia]|].
    intros l w2 [-> Hr2]. apply wp_ret. split; [done|]. rewrite fmap_app, <- app_assoc in Hr2. exact Hr2.
Qed.
End Laws.

(** ** Properties *)

Lemma filter_length {A} (P : A -> Prop) `{!forall x, Decision (P x)} (l : list A) : (length (filter P l) <= length l)%nat.
Proof. apply length_filter. Qed.

Lemma spec_put_length cmp d l : (length (spec_put cmp d l) <= S (length l))%nat.
Proof.
  unfold spec_put. rewrite length_app. cbn [length].
  assert (length (filter (fun x => (cmp d x > 0)%Z) l) + length (filter (fun x => (cmp d x < 0)%Z) l) <= length l)%nat.
  { induction l as [|x l IH]; [done|]. rewrite !filter_cons. do 2 case_decide; cbn [length]; lia. }
  lia.
Qed.

Lemma spec_do_length cmp frees ok o l : (length (spec_do cmp frees ok o l).1.2 <= S (length l))%nat.
Proof.
  pose proof (fun d => spec_put_length cmp d l) as Hp.
  assert (Hr : forall d, (length (spec_remove cmp d l) <= S (length l))%nat) by (intros d; etrans; [apply filter_length|lia]).
  unfold spec_do. destruct o as [d|d|d|keep d|d|d], (spec_find cmp _ l), ok; cbn [fst snd]; auto.
Qed.

Lemma spec_run_length cmp frees oks os l :
  (length (spec_run cmp frees oks os l).1.2 <= length os + length l)%nat.
Proof.
  revert os l. induction oks as [|ok oks IH]; intros [|o os] l; cbn [spec_run fst snd length]; try lia.
  pose proof (spec_do_length cmp frees ok o l). destruct (spec_do cmp frees ok o l) as [[r l1] f1]. cbn [fst snd] in *.
  specialize (IH os l1). destruct (spec_run cmp frees oks os l1) as [[rs l2] f2]. cbn [fst snd] in *. lia.
Qed.

Lemma all_true oks n : length oks = n -> Forall (eq true) oks -> oks = replicate n true.
Proof. intros <- H. induction H; [done|]. cbn [length replicate]. by f_equal. Qed.

(** The comparison is a total preorder and the allocator returns unused memory. *)
Class RbClient (data_cmp : Z -> Z -> Z) (alloc : gmap Z fr_rb_node_t -> Z) : Prop := {
  rc_antisym : forall a b, data_cmp a b < 0 <-> data_cmp b a > 0;
  rc_trans : forall a b c, data_cmp a b <= 0 -> data_cmp b c <= 0 -> data_cmp a c <= 0;
  rc_fresh : forall m, alloc m = NULL \/ m !! alloc m = None
}.

Lemma run_repr data_cmp inline offset frees alloc `{!RbClient data_cmp alloc} m os :
  Forall (fun o => object inline offset (rb_op_data o)) os ->
  exists rs w oks l fs, rb_run data_cmp inline offset frees alloc os (_fr_rb_init m) = Some (rs, w) /\
    length oks = length os /\ (inline = true -> Forall (eq true) oks) /\
    spec_run data_cmp frees oks os [] = (rs, l, fs) /\ repr data_cmp inline offset w l fs /\ (length l <= length os)%nat.
Proof.
  intros Ho. destruct (rb_run_ok data_cmp rc_antisym rc_trans inline offset frees alloc rc_fresh os (_fr_rb_init m) [] [])
    as (rs & w & E0 & oks & Hlen & Hi & H); [by apply init_repr|done|].
  pose proof (spec_run_length data_cmp frees oks os []) as Hl.
  destruct (spec_run data_cmp frees oks os []) as [[rs' l] fs] eqn:Es. destruct H as [-> Hr].
  exists rs', w, oks, l, fs. cbn [fst snd length] in Hl. split_and!; try done. lia.
Qed.

(** C7: a red-black tree is a sorted list.  With a comparison that is a total preorder, any
    sequence of finds, inserts, replacements, removals and deletions on an empty tree
    returns, never follows a bad pointer, and gives the results of a strictly sorted list
    of objects, whether the nodes are inline or allocated (an insertion can then fail for
    lack of memory, and changes nothing); the element counter and the objects handed to
    the free function are those of the list. *)
Theorem rb_tree_refines data_cmp inline offset frees alloc `{!RbClient data_cmp alloc} m os :
  Forall (fun o => object inline offset (rb_op_data o)) os ->
  exists rs w oks l fs, rb_run data_cmp inline offset frees alloc os (_fr_rb_init m) = Some (rs, w) /\
    length oks = length os /\ (inline = true -> Forall (eq true) oks) /\
    spec_run data_cmp frees oks os [] = (rs, l, fs) /\
    sorted data_cmp l /\ num_elements (tree w) = u32 (Z.of_nat (length l)) /\ freed w = fs.
Proof.
  intros Ho. destruct (run_repr data_cmp inline offset frees alloc m os Ho) as (rs & w & oks & l & fs & E0 & Hl & Hi & Es & Hr & _).
  destruct (repr_num _ _ _ _ _ _ Hr) as (Hn & Hf & Hs). exists rs, w, oks, l, fs. by split_and!.
Qed.

#[global] Instance z_client : RbClient Z.sub (fun _ => NULL).
Proof. split; [intros; lia|intros; lia|by left]. Qed.

Lemma rb_tree_refines_witness :
  exists w, rb_run Z.sub true 100 true (fun _ => NULL)
    [RbInsert 5; RbInsert 7; RbInsert 5; RbFind 7; RbDelete 5; RbReplace true 7; RbFind 5] (_fr_rb_init ∅) =
    Some ([RbBool true; RbBool true; RbBool false; RbData 7; RbBool true; RbCode 1 (Some 7); RbData 0], w) /\
    freed w = [5].
Proof.
  destruct (rb_tree_refines Z.sub true 100 true (fun _ => NULL) ∅
    [RbInsert 5; RbInsert 7; RbInsert 5; RbFind 7; RbDelete 5; RbReplace true 7; RbFind 5])
    as (rs & w & oks & l & fs & E0 & Hl & Hi & Es & _ & _ & Hf).
  - repeat constructor; discriminate.
  - assert (Eo : oks = replicate 7 true) by (by apply all_true, Hi).
    rewrite Eo in Es.
    exists w. rewrite Hf. vm_compute in Es. injection Es as <- _ <-. by split.
Defined.

(** C24: the tree stays balanced: after any sequence of operations, looking for an object
    among [n] takes at most 2 log2 (n + 1) comparisons. *)
Theorem rb_tree_depth data_cmp inline offset frees alloc `{!RbClient data_cmp alloc} m os rs w d :
  Forall (fun o => object inline offset (rb_op_data o)) os ->
  rb_run data_cmp inline offset frees alloc os (_fr_rb_init m) = Some (rs, w) ->
  exists oks l fs p, length oks = length os /\ (inline = true -> Forall (eq true) oks) /\
    spec_run data_cmp frees oks os [] = (rs, l, fs) /\
    find_loop data_cmp (S (2 * Nat.log2 (S (length l)))) d (root (tree w)) w = Some (p, w).
Proof.
  intros Ho E0. destruct (run_repr data_cmp inline offset frees alloc m os Ho) as (rs' & w' & oks & l & fs & E1 & Hlen & Hi & Es & Hr & _).
  rewrite E0 in E1. injection E1 as <- <-. destruct (find_bound data_cmp rc_antisym rc_trans inline offset w l fs d Hr) as [p Hp].
  by exists oks, l, fs, p.
Qed.

Lemma rb_tree_depth_witness :
  exists rs w p, rb_run Z.sub true 100 true (fun _ => NULL) [RbInsert 5; RbInsert 7; RbInsert 6] (_fr_rb_init ∅) = Some (rs, w) /\
    find_loop Z.sub 5 6 (root (tree w)) w = Some (p, w).
Proof.
  destruct (rb_run Z.sub true 100 true (fun _ => NULL) [RbInsert 5; RbInsert 7; RbInsert 6] (_fr_rb_init ∅)) as [[rs w]|] eqn:E0;
    [|vm_compute in E0; discriminate].
  destruct (rb_tree_depth Z.sub true 100 true (fun _ => NULL) ∅ [RbInsert 5; RbInsert 7; RbInsert 6] rs w 6)
    as (oks & l & fs & p & Hlen & Hi & Es & H); [repeat constructor; discriminate|exact E0|].
  assert (Ers : rs = [RbBool true; RbBool true; RbBool true]) by (vm_compute in E0; injection E0 as <- _; reflexivity).
  rewrite Ers in Es.
  assert (El : length l = 3%nat).
  { rewrite (all_true oks 3 Hlen (Hi eq_refl)) in Es. vm_compute in Es. injection Es as <- _. reflexivity. }
  exists rs, w, p. split; [reflexivity|]. rewrite El in H. exact H.
Defined.

(** Flattening a tree of fewer than 2^32 objects in order lists the objects sorted, and
    the pre-order and post-order list each of them once, within the array that was
    allocated. *)
Theorem rb_tree_flatten data_cmp inline offset frees alloc `{!RbClient data_cmp alloc} m os rs w :
  Forall (fun o => object inline offset (rb_op_data o)) os -> Z.of_nat (length os) < 2 ^ 32 ->
  rb_run data_cmp inline offset frees alloc os (_fr_rb_init m) = Some (rs, w) ->
  exists oks l fs, length oks = length os /\ (inline = true -> Forall (eq true) oks) /\
    spec_run data_cmp frees oks os [] = (rs, l, fs) /\
    fr_rb_flatten_inorder w = Some (l, w) /\
    (exists l', fr_rb_flatten_preorder w = Some (l', w) /\ l' ≡ₚ l) /\
    (exists l', fr_rb_flatten_postorder w = Some (l', w) /\ l' ≡ₚ l).
Proof.
  intros Ho Hn E0. destruct (run_repr data_cmp inline offset frees alloc m os Ho) as (rs' & w' & oks & l & fs & E1 & Hlen & Hi & Es & Hr & Hl).
  rewrite E0 in E1. injection E1 as <- <-. exists oks, l, fs. do 3 (split; [done|]).
  apply (flatten_all data_cmp inline offset w l fs Hr). lia.
Qed.

Lemma rb_tree_flatten_witness :
  exists rs w l, rb_run Z.sub true 100 true (fun _ => NULL) [RbInsert 5; RbInsert 7; RbInsert 6] (_fr_rb_init ∅) = Some (rs, w) /\
    fr_rb_flatten_inorder w = Some (l, w).
Proof.
  destruct (rb_run Z.sub true 100 true (fun _ => NULL) [RbInsert 5; RbInsert 7; RbInsert 6] (_fr_rb_init ∅)) as [[rs w]|] eqn:E0;
    [|vm_compute in E0; discriminate].
  destruct (rb_tree_flatten Z.sub true 100 true (fun _ => NULL) ∅ [RbInsert 5; RbInsert 7; RbInsert 6] rs w)
    as (oks & l & fs & _ & _ & _ & H & _); [repeat constructor; discriminate|cbn; lia|exact E0|].
  exists rs, w, l. split; [reflexivity|exact H].
Defined.

(** C23: deleting the current object of an in-order iteration is safe.  Walking over a tree
    and deleting any selection of the objects met visits every object once, in order,
    leaves the others, and frees those deleted; freeing the tree then frees the rest. *)
Theorem rb_tree_sweep data_cmp inline offset frees alloc `{!RbClient data_cmp alloc} m os rs w p :
  Forall (fun o => object inline offset (rb_op_data o)) os ->
  rb_run data_cmp inline offset frees alloc os (_fr_rb_init m) = Some (rs, w) ->
  exists oks l fs, length oks = length os /\ (inline = true -> Forall (eq true) oks) /\
    spec_run data_cmp frees oks os [] = (rs, l, fs) /\
    (forall d l', l = d :: l' -> exists it w' w2 fs', fr_rb_iter_init_inorder w = Some ((d, Some it), w) /\
      sweep inline frees p (S (S (length l'))) d it w = Some (l, w') /\
      num_elements (tree w') = u32 (Z.of_nat (length (filter (fun x => p x = false) l))) /\
      freed w' = fs ++ (if frees then filter (fun x => p x = true) l else []) /\
      _tree_free inline frees w' = Some (0, w2) /\ freed w2 = freed w' ++ fs' /\
      fs' ≡ₚ (if frees then filter (fun x => p x = false) l else [])).
Proof.
  intros Ho E0. destruct (run_repr data_cmp inline offset frees alloc m os Ho) as (rs' & w' & oks & l & fs & E1 & Hlen & Hi & Es & Hr & _).
  rewrite E0 in E1. injection E1 as <- <-. exists oks, l, fs. do 3 (split; [done|]). destruct Hr as (t & Hr & Hl).
  destruct (inorder_starts data_cmp inline offset w t fs Hr) as ([item it] & w1 & Ei & -> & Hs). cbn [fst snd] in Hs.
  intros d l' El. destruct (els t) as [|[a d'] rest] eqn:Ee; [by rewrite <- Hl in El|].
  cbn [fmap list_fmap snd] in Hl. rewrite <- Hl in El. injection El as -> <-. destruct it as [[nd nx]|]; [|done].
  destruct Hs as [-> Hnd]. cbn [in_node] in Hnd. subst nd. rewrite length_fmap.
  destruct (sweep_ok data_cmp rc_antisym inline offset frees p (S (S (length rest))) w t fs [] a d rest nx Hr Ee)
    as (l2 & w' & E2 & -> & Hr'); [lia|].
  destruct (repr_num _ _ _ _ _ _ Hr') as (Hn' & Hf' & _). destruct Hr' as (t' & Hr' & Hl').
  destruct (wp_tree_free data_cmp inline offset frees w' t' _ Hr') as (z & w2 & E3 & -> & _ & Hf2).
  exists (InIter a nx), w', w2, (if frees then (post t').*2 else []). rewrite <- Hl. split_and!; [done..| |].
  - by rewrite Hf2, Hf'.
  - destruct frees; [|done]. by rewrite post_els, Hl'.
Qed.

Lemma rb_tree_sweep_witness :
  exists rs w it w', rb_run Z.sub true 100 true (fun _ => NULL) [RbInsert 5; RbInsert 7; RbInsert 6] (_fr_rb_init ∅) = Some (rs, w) /\
    fr_rb_iter_init_inorder w = Some ((5, Some it), w) /\
    sweep true true (Z.eqb 6) 4 5 it w = Some ([5; 6; 7], w') /\ freed w' = [6].
Proof.
  destruct (rb_run Z.sub true 100 true (fun _ => NULL) [RbInsert 5; RbInsert 7; RbInsert 6] (_fr_rb_init ∅)) as [[rs w]|] eqn:E0;
    [|vm_compute in E0; discriminate].
  destruct (rb_tree_sweep Z.sub true 100 true (fun _ => NULL) ∅ [RbInsert 5; RbInsert 7; RbInsert 6] rs w (Z.eqb 6))
    as (oks & l & fs & Hlen & Hi & Es & H); [repeat constructor; discriminate|exact E0|].
  assert (Ers : rs = [RbBool true; RbBool true; RbBool true]) by (vm_compute in E0; injection E0 as <- _; reflexivity).
  rewrite Ers in Es.
  assert (El : l = [5; 6; 7] /\ fs = []).
  { rewrite (all_true oks 3 Hlen (Hi eq_refl)) in Es. vm_compute in Es. injection Es as <- <-. split; reflexivity. }
  destruct El as [-> ->]. destruct (H 5 [6; 7] eq_refl) as (it & w' & w2 & fs' & E1 & E2 & _ & E3 & _).
  change (S (S (length [6; 7]))) with 4%nat in E2.
  exists rs, w, it, w'. split; [reflexivity|]. split; [exact E1|]. split; [exact E2|]. rewrite E3. by vm_compute.
Defined.

(** Replacing an object by itself, without asking for the old one, frees an object that is
    in the tree. *)
Example rb_replace_self_freed :
  (w ← rb_run Z.sub true 100 true (fun _ => NULL) [RbInsert 5; RbReplace false 5; RbFind 5] (_fr_rb_init ∅);
   Some (w.1, freed w.2)) = Some ([RbBool true; RbCode 1 None; RbData 5], [5]).
Proof. by vm_compute. Qed.
