(* ===== verification/RadiusPassword.v ===== *)
(** * Password hiding: [protocols/radius/encode.c] and [protocols/radius/decode.c]

    User-Password (RFC 2865, 5.2), CHAP-Password and Tunnel-Password (RFC 2868,
    3.5), over the digest interface, with the in-place loops of the code.  Copying
    a digest context ([fr_md5_ctx_copy]) is copying its value.  [None] is an access
    outside a buffer. *)
From S2P Require Import Prelude Bytes BlockHash Md5.

Definition AUTH_PASS_LEN : nat := 16.
Definition RADIUS_MAX_PASS_LENGTH : nat := 128.
Definition RADIUS_MAX_STRING_LENGTH : nat := 253.

(** [for (i = 0; i < n; i++) buf[off + i] ^= digest[i];] *)
Definition xor_at (off n : nat) (digest buf : list Z) : option (list Z) :=
  s ← rd_slice off n buf; wr_slice off (zip_with Z.lxor s digest) buf.

(** [fr_dbuff_in_memcpy]: the bytes written, or how many did not fit. *)
Definition dbuff_in_memcpy (room : nat) (bytes : list Z) : nat + list Z :=
  if decide (length bytes <= room)%nat then inr bytes else inl (length bytes - room)%nat.

Section Passwords.
Context {ctx : Type} `{DigestApi ctx}.

(** ** [fr_radius_encode_chap_password]: the 17 bytes written *)
Definition fr_radius_encode_chap_password (id : Z) (vector password : list Z)
    : option (list Z) :=
  let c : ctx := dg_update (dg_update dg_alloc [id]) password in
  v ← rd_slice 0 16 vector;
  Some (id :: (dg_final (dg_update c v)).1).

(** ** [encode_password] *)

(** [for (n = 0; n < len; n += AUTH_PASS_LEN) { ... }] *)
Fixpoint encode_loop (fuel n len : nat) (c c_old : ctx) (passwd : list Z) : option (list Z) :=
  match fuel with
  | O => None
  | S fuel' =>
      if decide (n < len)%nat then
        c ← (if decide (0 < n)%nat then
               b ← rd_slice (n - AUTH_PASS_LEN) AUTH_PASS_LEN passwd;
               Some (dg_update c_old b)
             else Some c);
        let '(digest, c) := dg_final c in
        passwd ← xor_at n AUTH_PASS_LEN digest passwd;
        encode_loop fuel' (n + AUTH_PASS_LEN) len c c_old passwd
      else Some passwd
  end.

(** [input] is the [inlen] bytes at the marker. *)
Definition encode_password (room : nat) (input secret vector : list Z)
    : option (nat + list Z) :=
  let len := Nat.min (length input) RADIUS_MAX_PASS_LENGTH in
  let passwd := take len input ++ replicate (RADIUS_MAX_PASS_LENGTH - len) 0 in
  let len := if decide (len = 0)%nat then AUTH_PASS_LEN
             else if decide (Z.land (Z.of_nat len) 0x0f <> 0)
             then Z.to_nat (Z.land (Z.of_nat len + 0x0f) (Z.lnot 0x0f))
             else len in
  let c : ctx := dg_update dg_alloc secret in
  let c_old := c in
  v ← rd_slice 0 AUTH_PASS_LEN vector;
  passwd ← encode_loop (S len) 0 len (dg_update c v) c_old passwd;
  out ← rd_slice 0 len passwd;
  Some (dbuff_in_memcpy room out).

(** ** [fr_radius_decode_password] *)

Fixpoint decode_loop (fuel n pwlen : nat) (c c_old : ctx) (passwd vector : list Z)
    : option (list Z) :=
  match fuel with
  | O => None
  | S fuel' =>
      if decide (n < pwlen)%nat then
        c ← (if decide (n = 0)%nat then v ← rd_slice 0 16 vector; Some (dg_update c v)
             else Some c);
        let '(digest, _) := dg_final c in
        c ← (if decide (n + AUTH_PASS_LEN < pwlen)%nat then
               b ← rd_slice n AUTH_PASS_LEN passwd; Some (dg_update c_old b)
             else Some c_old);
        passwd ← xor_at n AUTH_PASS_LEN digest passwd;
        decode_loop fuel' (n + AUTH_PASS_LEN) pwlen c c_old passwd vector
      else Some passwd
  end.

(** [strlen]: the position of the first NUL. *)
Fixpoint strlen (s : list Z) : option nat :=
  match s with
  | [] => None
  | x :: s => if decide (x = 0) then Some 0%nat else n ← strlen s; Some (S n)
  end.

(** The buffer left behind and the value returned. *)
Definition fr_radius_decode_password (passwd : list Z) (pwlen : nat) (secret vector : list Z)
    : option (list Z * nat) :=
  let pwlen := if decide (128 < pwlen)%nat then 128%nat else pwlen in
  passwd ← (if decide (pwlen = 0)%nat then Some passwd else
    let c : ctx := dg_update dg_alloc secret in
    decode_loop (S pwlen) 0 pwlen c c passwd vector);
  passwd ← wr_slice pwlen [0] passwd;
  n ← strlen passwd;
  Some (passwd, n).
End Passwords.

(** ** RFC 2865, section 5.2 *)

Section Reference.
Variable digest : list Z -> list Z.

Fixpoint pw_encrypt (secret prev : list Z) (blocks : list (list Z)) : list (list Z) :=
  match blocks with
  | [] => []
  | b :: bs => let c := zip_with Z.lxor b (digest (secret ++ prev)) in
               c :: pw_encrypt secret c bs
  end.

Fixpoint pw_decrypt (secret prev : list Z) (blocks : list (list Z)) : list (list Z) :=
  match blocks with
  | [] => []
  | c :: cs => zip_with Z.lxor c (digest (secret ++ prev)) :: pw_decrypt secret c cs
  end.

(** Cut into blocks of 16. *)
Fixpoint blocks16 (n : nat) (l : list Z) : list (list Z) :=
  match n with
  | O => []
  | S n' => take 16 l :: blocks16 n' (drop 16 l)
  end.

Lemma concat_blocks16 n l : length l = (16 * n)%nat -> concat (blocks16 n l) = l.
Proof.
  revert l. induction n as [|n IH]; intros l Hl; simpl; [by destruct l|].
  rewrite IH; [apply take_drop|]. rewrite length_drop. lia.
Qed.

Lemma length_blocks16 n l : length (blocks16 n l) = n.
Proof. revert l. induction n as [|n IH]; intros l; simpl; [done|]. by rewrite IH. Qed.

Lemma Forall_blocks16 n l :
  length l = (16 * n)%nat -> Forall (fun b => length b = 16%nat) (blocks16 n l).
Proof.
  revert l. induction n as [|n IH]; intros l Hl; simpl; constructor.
  - rewrite length_take. lia.
  - apply IH. rewrite length_drop. lia.
Qed.

Hypothesis digest_len : forall d, length (digest d) = 16%nat.

Lemma zip_xor_cancel (b k : list Z) :
  (length b <= length k)%nat -> zip_with Z.lxor (zip_with Z.lxor b k) k = b.
Proof.
  revert k. induction b as [|x b IH]; intros [|y k] H'; simpl in *; try lia; [done..|].
  rewrite lxor_cancel, IH by lia. done.
Qed.

Lemma pw_decrypt_encrypt secret prev blocks :
  Forall (fun b => length b = 16%nat) blocks ->
  pw_decrypt secret prev (pw_encrypt secret prev blocks) = blocks.
Proof.
  revert prev. induction blocks as [|b bs IH]; intros prev Hb; simpl; [done|].
  apply Forall_cons_1 in Hb as [Hb Hbs].
  rewrite zip_xor_cancel by (rewrite digest_len; lia). by rewrite IH.
Qed.

Lemma pw_encrypt_len secret prev blocks :
  Forall (fun b => length b = 16%nat) blocks ->
  Forall (fun b => length b = 16%nat) (pw_encrypt secret prev blocks) /\
  length (pw_encrypt secret prev blocks) = length blocks.
Proof.
  revert prev. induction blocks as [|b bs IH]; intros prev Hb; simpl; [done|].
  apply Forall_cons_1 in Hb as [Hb Hbs].
  destruct (IH (zip_with Z.lxor b (digest (secret ++ prev))) Hbs) as [H1 H2].
  split; [|lia]. constructor; [|done]. rewrite length_zip_with, digest_len. lia.
Qed.
End Reference.

Lemma length_concat16 (bs : list (list Z)) :
  Forall (fun b => length b = 16%nat) bs -> length (concat bs) = (16 * length bs)%nat.
Proof.
  induction 1 as [|b bs Hb Hbs IH]; simpl; [done|]. rewrite length_app, IH, Hb. lia.
Qed.

(** ** The loops compute the reference *)

Lemma slice_app_mid (a b c : list Z) : slice (length a) (length b) (a ++ b ++ c) = b.
Proof. unfold slice. rewrite drop_app_length, take_app_length. done. Qed.

Lemma inserts_app_mid (a b c b' : list Z) :
  length b' = length b -> list_inserts (length a) b' (a ++ b ++ c) = a ++ b' ++ c.
Proof.
  intros Hl. rewrite <- (Nat.add_0_r (length a)), list_inserts_app_r. f_equal.
  by rewrite list_inserts_0_r.
Qed.

Lemma xor_at_app (a b c d : list Z) :
  (length b <= length d)%nat ->
  xor_at (length a) (length b) d (a ++ b ++ c) = Some (a ++ zip_with Z.lxor b d ++ c).
Proof.
  intros Hd. unfold xor_at. rewrite rd_slice_Some by (rewrite !length_app; lia). simpl.
  rewrite slice_app_mid, wr_slice_Some.
  - rewrite inserts_app_mid; [done|]. rewrite length_zip_with. lia.
  - rewrite length_zip_with, !length_app. lia.
Qed.

(** The number of 16-byte blocks of a hidden password. *)
Definition pw_blocks (len : nat) : nat := Nat.max 1 ((len + 15) / 16).

Lemma encoded_len len :
  (if decide (len = 0)%nat then 16%nat
   else if decide (Z.land (Z.of_nat len) 0x0f <> 0)
   then Z.to_nat (Z.land (Z.of_nat len + 0x0f) (Z.lnot 0x0f))
   else len) = (16 * pw_blocks len)%nat.
Proof.
  unfold pw_blocks. pose proof (Nat.div_mod_eq (len + 15) 16) as Hd.
  pose proof (Nat.mod_upper_bound (len + 15) 16 ltac:(lia)) as Hm.
  destruct (decide (len = 0)%nat) as [->|Hn]; [done|].
  change 0x0f with (Z.ones 4). rewrite Z.land_ones by lia.
  destruct (decide (Z.of_nat len mod 2 ^ 4 <> 0)) as [Hz|Hz].
  - rewrite <- Z.ldiff_land, Z.ldiff_ones_r by lia.
    rewrite Z.shiftl_mul_pow2, Z.shiftr_div_pow2 by lia.
    change (2 ^ 4) with 16. change (Z.ones 4) with 15.
    assert (E : (Z.of_nat len + 15) / 16 = Z.of_nat ((len + 15) / 16)).
    { rewrite Nat2Z.inj_div. f_equal. lia. }
    rewrite E. lia.
  - assert (Hz' : Z.of_nat len mod 16 = 0) by (change 16 with (2 ^ 4); lia).
    pose proof (Z.div_mod (Z.of_nat len) 16 ltac:(lia)). lia.
Qed.

(** A password padded with zeros to whole blocks, as blocks. *)
Definition pw_padded (pw : list Z) : list (list Z) :=
  let p := take 128 pw in
  blocks16 (pw_blocks (length p)) (p ++ replicate (16 * pw_blocks (length p) - length p) 0).

Lemma pw_blocks_bounds len :
  (len <= 128)%nat -> (len <= 16 * pw_blocks len /\ 1 <= pw_blocks len <= 8)%nat.
Proof.
  intros H'. unfold pw_blocks. pose proof (Nat.div_mod_eq (len + 15) 16).
  pose proof (Nat.mod_upper_bound (len + 15) 16 ltac:(lia)). lia.
Qed.

Lemma pw_padded_spec pw (p := take 128 pw) :
  Forall (fun b => length b = 16%nat) (pw_padded pw) /\
  length (pw_padded pw) = pw_blocks (length p) /\
  concat (pw_padded pw) = p ++ replicate (16 * pw_blocks (length p) - length p) 0.
Proof.
  assert (Hp : (length p <= 128)%nat) by (unfold p; rewrite length_take; lia).
  pose proof (pw_blocks_bounds _ Hp) as [Hb _]. unfold pw_padded. fold p. cbv zeta.
  split_and!.
  - apply Forall_blocks16. rewrite length_app, length_replicate. lia.
  - apply length_blocks16.
  - apply concat_blocks16. rewrite length_app, length_replicate. lia.
Qed.

Lemma strlen_app (a b : list Z) :
  Forall (fun x => x <> 0) a -> strlen (a ++ 0 :: b) = Some (length a).
Proof.
  induction 1 as [|x a Hx Ha IH]; simpl; [done|]. by rewrite decide_False, IH.
Qed.

Section PasswordFacts.
Context {ctx : Type} `{DigestApi ctx} {digest : list Z -> list Z}.
Context `{!DigestLaws ctx digest 16}.
Context (secret : list Z) (Hsecret : Z.of_nat (length secret) + 274 < dg_limit).

Lemma keyed_digest c x :
  dg_absorbed c secret -> (length x <= 273)%nat ->
  (dg_final (dg_update c x)).1 = digest (secret ++ x).
Proof.
  intros Hc Hx. apply dg_final_spec, dg_update_spec; [done|]. rewrite length_app. lia.
Qed.

Lemma secret_absorbed : dg_absorbed (dg_update (dg_alloc : ctx) secret) secret.
Proof. apply (dg_update_spec _ []); [apply dg_alloc_spec|simpl; lia]. Qed.

Lemma encode_loop_spec bs : forall fuel (done_ tail prev : list Z) (c : ctx) c_old,
  Forall (fun b => length b = 16%nat) bs -> (length bs < fuel)%nat ->
  dg_absorbed c_old secret ->
  (if decide (0 < length done_)%nat
   then (16 <= length done_)%nat /\ slice (length done_ - 16) 16 done_ = prev
   else (dg_final c).1 = digest (secret ++ prev)) ->
  encode_loop (ctx := ctx) fuel (length done_) (length done_ + 16 * length bs) c c_old
    (done_ ++ concat bs ++ tail) =
  Some (done_ ++ concat (pw_encrypt digest secret prev bs) ++ tail).
Proof.
  induction bs as [|b bs IH]; intros fuel done_ tail prev c c_old Hbs Hf Hold Hprev;
    (destruct fuel as [|fuel]; [simpl in Hf; lia|]).
  { cbn [encode_loop]. rewrite decide_False by (simpl; lia). done. }
  apply Forall_cons_1 in Hbs as [Hb Hbs]. cbn [encode_loop length].
  rewrite decide_True by lia. unfold AUTH_PASS_LEN.
  set (c' := if decide (0 < length done_)%nat then _ else _).
  assert (Hc' : exists c1, c' = Some c1 /\ (dg_final c1).1 = digest (secret ++ prev)).
  { unfold c'. destruct (decide (0 < length done_)%nat); [|by exists c].
    destruct Hprev as [H16 Hprev]. rewrite rd_slice_Some by (rewrite length_app; lia).
    simpl. eexists. split; [done|].
    assert (E : slice (length done_ - 16) 16 (done_ ++ concat (b :: bs) ++ tail) = prev).
    { rewrite <- Hprev. apply slice_eq. intros i Hi. by rewrite lookup_app_l by lia. }
    simpl in E. rewrite E. apply keyed_digest; [done|].
    rewrite <- Hprev, length_slice; lia. }
  destruct Hc' as (c1 & -> & Hd). cbn [mbind option_bind].
  destruct (dg_final c1) as [d c2]. simpl in Hd. subst d.
  simpl concat. rewrite <- (app_assoc b).
  set (k := digest (secret ++ prev)).
  assert (Hk : length k = 16%nat) by apply dg_length.
  rewrite <- Hb at 1. rewrite xor_at_app by lia. cbn [mbind option_bind].
  set (x := zip_with Z.lxor b k).
  assert (Hx : length x = 16%nat) by (unfold x; rewrite length_zip_with; lia).
  specialize (IH fuel (done_ ++ x) tail x c2 c_old Hbs ltac:(simpl in Hf; lia) Hold).
  rewrite length_app, Hx in IH. rewrite <- !app_assoc in IH.
  replace (length done_ + 16 * S (length bs))%nat
    with (length done_ + 16 + 16 * length bs)%nat by lia.
  rewrite IH; [simpl; by rewrite <- app_assoc|].
  rewrite decide_True by lia. split; [lia|]. replace (length done_ + 16 - 16)%nat with (length done_) by lia.
  unfold slice. rewrite drop_app_length. rewrite take_ge by lia. done.
Qed.

Lemma decode_loop_spec cs : forall fuel (done_ tail prev vector : list Z) (c : ctx) c_old,
  Forall (fun b => length b = 16%nat) cs -> (length cs < fuel)%nat ->
  dg_absorbed c_old secret -> length vector = 16%nat ->
  (if decide (length done_ = 0)%nat then c = c_old /\ prev = vector
   else cs <> [] -> (dg_final c).1 = digest (secret ++ prev)) ->
  decode_loop (ctx := ctx) fuel (length done_) (length done_ + 16 * length cs) c c_old
    (done_ ++ concat cs ++ tail) vector =
  Some (done_ ++ concat (pw_decrypt digest secret prev cs) ++ tail).
Proof.
  induction cs as [|b cs IH]; intros fuel done_ tail prev vector c c_old Hcs Hf Hold Hv Hprev;
    (destruct fuel as [|fuel]; [simpl in Hf; lia|]).
  { cbn [decode_loop]. rewrite decide_False by (simpl; lia). done. }
  apply Forall_cons_1 in Hcs as [Hb Hcs]. cbn [decode_loop length].
  rewrite decide_True by lia. unfold AUTH_PASS_LEN.
  set (c' := if decide (length done_ = 0)%nat then _ else _).
  assert (Hc' : exists c1, c' = Some c1 /\ (dg_final c1).1 = digest (secret ++ prev)).
  { unfold c'. destruct (decide (length done_ = 0)%nat).
    - destruct Hprev as [-> ->]. rewrite rd_slice_Some by lia. simpl. eexists. split; [done|].
      rewrite <- Hv at 1. rewrite slice_all. apply keyed_digest; [done|lia].
    - exists c. split; [done|]. by apply Hprev. }
  destruct Hc' as (c1 & -> & Hd). cbn [mbind option_bind].
  destruct (dg_final c1) as [d c2]. simpl in Hd. subst d.
  simpl concat. rewrite <- (app_assoc b).
  set (k := digest (secret ++ prev)).
  assert (Hk : length k = 16%nat) by apply dg_length.
  set (c3 := if decide (length done_ + 16 < _)%nat then _ else _).
  assert (Hc3 : exists c4, c3 = Some c4 /\ (cs <> [] -> (dg_final c4).1 = digest (secret ++ b))).
  { unfold c3. destruct (decide (length done_ + 16 < _)%nat) as [Hlast|Hlast].
    - rewrite rd_slice_Some by (rewrite !length_app; lia). simpl. eexists. split; [done|].
      intros _. rewrite <- Hb at 1. rewrite slice_app_mid. apply keyed_digest; [done|lia].
    - exists c_old. split; [done|]. destruct cs; [done|simpl in Hlast; lia]. }
  destruct Hc3 as (c4 & -> & Hd4). cbn [mbind option_bind].
  rewrite <- Hb at 1. rewrite xor_at_app by lia. cbn [mbind option_bind].
  set (x := zip_with Z.lxor b k).
  assert (Hx : length x = 16%nat) by (unfold x; rewrite length_zip_with; lia).
  specialize (IH fuel (done_ ++ x) tail b vector c4 c_old Hcs ltac:(simpl in Hf; lia) Hold Hv).
  rewrite length_app, Hx in IH. rewrite <- !app_assoc in IH.
  replace (length done_ + 16 * S (length cs))%nat
    with (length done_ + 16 + 16 * length cs)%nat by lia.
  rewrite IH; [simpl; by rewrite <- app_assoc|].
  rewrite decide_False by lia. done.
Qed.

Lemma encode_password_eq room pw vector :
  length vector = 16%nat ->
  encode_password (ctx := ctx) room pw secret vector =
  Some (dbuff_in_memcpy room (concat (pw_encrypt digest secret vector (pw_padded pw)))).
Proof.
  intros Hv. unfold encode_password, AUTH_PASS_LEN, RADIUS_MAX_PASS_LENGTH.
  rewrite encoded_len. destruct (pw_padded_spec pw) as (Hbs & Hlen & Hcat).
  set (p := take 128 pw) in *.
  assert (Ep : take (Nat.min (length pw) 128) pw = p).
  { unfold p. destruct (decide (length pw <= 128)%nat).
    - rewrite Nat.min_l, !take_ge by lia. done.
    - by rewrite Nat.min_r by lia. }
  assert (Elen : Nat.min (length pw) 128 = length p) by (unfold p; rewrite length_take; lia).
  rewrite Ep, Elen. assert (Hp : (length p <= 128)%nat) by lia.
  destruct (pw_blocks_bounds _ Hp) as [Hle Hn].
  assert (Hpass : p ++ replicate (128 - length p) 0 =
    [] ++ concat (pw_padded pw) ++ replicate (128 - 16 * pw_blocks (length p)) 0).
  { rewrite Hcat. simpl. rewrite <- app_assoc, <- replicate_add. do 2 f_equal. lia. }
  rewrite Hpass. rewrite rd_slice_Some by lia. cbn [mbind option_bind].
  assert (Ev : slice 0 16 vector = vector) by (rewrite <- Hv; apply slice_all).
  rewrite Ev.
  pose proof (encode_loop_spec (pw_padded pw) (S (16 * pw_blocks (length p))) []
    (replicate (128 - 16 * pw_blocks (length p)) 0) vector
    (dg_update (dg_update dg_alloc secret) vector) (dg_update dg_alloc secret)) as HE.
  rewrite Hlen in HE. simpl length in HE. rewrite Nat.add_0_l in HE. rewrite HE;
    [|done|lia|apply secret_absorbed|].
  - cbn [mbind option_bind].
    destruct (pw_encrypt_len digest dg_length secret vector _ Hbs) as [He Hel].
    pose proof (length_concat16 _ He) as Hc. rewrite Hel, Hlen in Hc. simpl.
    rewrite rd_slice_Some by (rewrite length_app; lia). cbn [mbind option_bind].
    unfold slice. by rewrite drop_0, take_app_length'.
  - simpl. apply keyed_digest; [apply secret_absorbed|lia].
Qed.

(** Decoding what was encoded, in the buffer it arrived in. *)
Lemma decode_password_blocks cs vector rest :
  Forall (fun b => length b = 16%nat) cs -> (1 <= length cs <= 8)%nat ->
  length vector = 16%nat -> (1 <= length rest)%nat ->
  fr_radius_decode_password (ctx := ctx) (concat cs ++ rest) (16 * length cs) secret vector =
  (n ← strlen (concat (pw_decrypt digest secret vector cs) ++ 0 :: drop 1 rest);
   Some (concat (pw_decrypt digest secret vector cs) ++ 0 :: drop 1 rest, n)).
Proof.
  intros Hcs Hn Hv Hrest. unfold fr_radius_decode_password.
  rewrite (decide_False (P := (128 < _)%nat)) by lia.
  rewrite (decide_False (P := (16 * length cs = 0)%nat)) by lia.
  pose proof (decode_loop_spec cs (S (16 * length cs)) [] rest vector vector
    (dg_update dg_alloc secret) (dg_update dg_alloc secret) Hcs) as HD.
  simpl length in HD. rewrite Nat.add_0_l, app_nil_l in HD. cbv zeta. rewrite HD;
    [|lia|apply secret_absorbed|done|done].
  cbn [mbind option_bind app].
  assert (Hl : forall prev, length (concat (pw_decrypt digest secret prev cs)) = (16 * length cs)%nat).
  { clear -Hcs DigestLaws0. induction Hcs as [|c cs Hc Hcs IH]; intros prev; simpl; [done|].
    rewrite length_app, length_zip_with, dg_length, Hc, IH. lia. }
  specialize (Hl vector). destruct rest as [|r rest]; [simpl in Hrest; lia|].
  rewrite wr_slice_Some by (rewrite length_app; simpl; lia). cbn [mbind option_bind].
  rewrite <- Hl. rewrite (inserts_app_mid _ [r] rest [0]) by done. done.
Qed.
End PasswordFacts.

(** ** Theorems on User-Password and CHAP-Password *)

(** [encode_password] hides a password as RFC 2865 prescribes: the first 128 bytes
    of the password, padded with zeros to one or more whole blocks, each block
    combined with MD5(secret + previous hidden block), the first one with
    MD5(secret + vector); the output is all of it, or the number of bytes the
    output buffer lacks. *)
Theorem encode_password_rfc2865 room pw secret vector :
  Z.of_nat (length secret) + 274 < 2 ^ 29 -> length vector = 16%nat ->
  encode_password (ctx := fr_md5_ctx_local_t) room pw secret vector =
  Some (dbuff_in_memcpy room (concat (pw_encrypt md5_spec secret vector (pw_padded pw)))).
Proof. intros Hs Hv. by apply encode_password_eq. Qed.

Definition example_vector : list Z := [1; 2; 3; 4; 5; 6; 7; 8; 9; 10; 11; 12; 13; 14; 15; 16].
Definition example_pw_secret : list Z := [115; 51; 99; 114; 51; 116].

Lemma encode_password_rfc2865_witness :
  encode_password (ctx := fr_md5_ctx_local_t) 253 [104; 101; 108; 108; 111] example_pw_secret
    example_vector =
  Some (dbuff_in_memcpy 253 (concat (pw_encrypt md5_spec example_pw_secret example_vector
    [[104; 101; 108; 108; 111; 0; 0; 0; 0; 0; 0; 0; 0; 0; 0; 0]]))).
Proof. apply (encode_password_rfc2865 253 [104; 101; 108; 108; 111]); [simpl; lia|done]. Defined.

(** C34: a password without NUL bytes, up to 128 bytes long, survives hiding and
    recovery: [fr_radius_decode_password], given what [encode_password] wrote (at the
    start of any larger buffer) with the same secret and vector, recovers the
    password in place, NUL-terminated, and returns its length. *)
Theorem user_password_roundtrip room pw secret vector hidden rest :
  Z.of_nat (length secret) + 274 < 2 ^ 29 -> length vector = 16%nat ->
  (length pw <= 128)%nat -> Forall (fun x => x <> 0) pw -> (1 <= length rest)%nat ->
  encode_password (ctx := fr_md5_ctx_local_t) room pw secret vector = Some (inr hidden) ->
  exists buf,
    fr_radius_decode_password (ctx := fr_md5_ctx_local_t) (hidden ++ rest) (length hidden)
      secret vector = Some (buf, length pw) /\ take (length pw) buf = pw.
Proof.
  intros Hs Hv Hl Hnz Hrest Henc.
  rewrite encode_password_eq in Henc by done. unfold dbuff_in_memcpy in Henc.
  case_decide; [|done]. injection Henc as <-.
  destruct (pw_padded_spec pw) as (Hbs & Hlen & Hcat).
  rewrite (take_ge pw 128) in Hlen, Hcat by done.
  destruct (pw_blocks_bounds (length pw)) as [Hle Hn]; [done|].
  destruct (pw_encrypt_len md5_spec dg_length secret vector _ Hbs) as [He Hel].
  rewrite (length_concat16 _ He). rewrite decode_password_blocks by (done || lia).
  rewrite (pw_decrypt_encrypt md5_spec dg_length) by done. rewrite Hcat.
  set (k := (16 * pw_blocks (length pw) - length pw)%nat).
  assert (E : exists t, (pw ++ replicate k 0) ++ 0 :: drop 1 rest = pw ++ 0 :: t).
  { destruct k as [|k]; simpl; [rewrite app_nil_r; eauto|]. rewrite <- app_assoc. simpl. eauto. }
  destruct E as [t ->]. rewrite strlen_app by done. cbn [mbind option_bind].
  eexists. split; [done|]. by rewrite take_app_length.
Qed.

Lemma user_password_roundtrip_witness :
  exists hidden,
    encode_password (ctx := fr_md5_ctx_local_t) 253 [104; 101; 108; 108; 111] example_pw_secret
      example_vector = Some (inr hidden) /\
  exists buf,
    fr_radius_decode_password (ctx := fr_md5_ctx_local_t) (hidden ++ [7; 7]) (length hidden)
      example_pw_secret example_vector = Some (buf, 5%nat) /\
    take 5 buf = [104; 101; 108; 108; 111].
Proof.
  eexists. split; [vm_compute; reflexivity|].
  apply (user_password_roundtrip 253 [104; 101; 108; 108; 111]); try (simpl; lia).
  - by apply (bool_decide_unpack _); vm_compute.
  - vm_compute. reflexivity.
Defined.

(** [fr_radius_encode_chap_password] writes the identifier followed by
    MD5(identifier + password + challenge), as RFC 1994 defines the CHAP response. *)
Theorem chap_password_rfc1994 id vector password :
  length vector = 16%nat -> Z.of_nat (length password) + 17 < 2 ^ 29 ->
  fr_radius_encode_chap_password (ctx := fr_md5_ctx_local_t) id vector password =
  Some (id :: md5_spec (id :: password ++ vector)).
Proof.
  intros Hv Hp. unfold fr_radius_encode_chap_password. rewrite rd_slice_Some by lia.
  cbn [mbind option_bind].
  assert (Ev : slice 0 16 vector = vector) by (rewrite <- Hv; apply slice_all). rewrite Ev.
  do 2 f_equal. pose proof (dg_chunks (ctx := fr_md5_ctx_local_t) [[id]; password; vector]) as HC.
  simpl concat in HC. rewrite app_nil_r in HC. apply HC.
  simpl. rewrite length_app. lia.
Qed.

Lemma chap_password_rfc1994_witness :
  fr_radius_encode_chap_password (ctx := fr_md5_ctx_local_t) 5 example_vector [112; 119] =
  Some (5 :: md5_spec (5 :: [112; 119] ++ example_vector)).
Proof. apply chap_password_rfc1994; [done|simpl; lia]. Defined.
