(* ===== verification/RadiusTunnel.v ===== *)
(** * Tunnel-Password: [encode_tunnel_password] and [fr_radius_decode_tunnel_password]

    RFC 2868, section 3.5: a two-byte salt, then the length byte and the password
    hidden under a key stream that depends on the secret, the vector and the salt.
    The decoder works in place, moving the plaintext three bytes towards the start
    of the buffer. *)
From S2P Require Import Prelude Bytes BlockHash Md5 RadiusPassword.

(** [ROUND_UP(n, 16)] *)
Definition ROUND_UP16 (n : nat) : nat := ((n + 15) / 16 * 16)%nat.

Section Tunnel.
Context {ctx : Type} `{DigestApi ctx}.

Fixpoint tunnel_encode_loop (fuel n encrypted_len : nat) (c c_old : ctx) (tpasswd : list Z)
    : option (list Z) :=
  match fuel with
  | O => None
  | S fuel' =>
      if decide (n < encrypted_len)%nat then
        c ← (if decide (0 < n)%nat then
               b ← rd_slice (2 + n - AUTH_PASS_LEN) AUTH_PASS_LEN tpasswd;
               Some (dg_update c_old b)
             else Some c);
        let '(digest, c) := dg_final c in
        let block_len := Nat.min (encrypted_len - n) AUTH_PASS_LEN in
        tpasswd ← xor_at (2 + n) block_len digest tpasswd;
        tunnel_encode_loop fuel' (n + AUTH_PASS_LEN) encrypted_len c c_old tpasswd
      else Some tpasswd
  end.

(** [room] is the space left in the output buffer, [rand k] the [k]-th value drawn
    from the generator.  [inl n] is the failure [-n]; otherwise the bytes written
    and the new [salt_offset]. *)
Definition encode_tunnel_password (room : nat) (input secret vector : list Z)
    (salt_offset : Z) (rand : nat -> Z) : option (nat + list Z * Z) :=
  let room := Nat.min room RADIUS_MAX_STRING_LENGTH in
  let inlen := length input in
  let fail := Some (inl (inlen + 3)%nat) in
  if decide (RADIUS_MAX_STRING_LENGTH - 3 < inlen)%nat then fail else
  let encrypted_len := Nat.min (ROUND_UP16 (inlen + 1)) (RADIUS_MAX_STRING_LENGTH - 2) in
  let padding := (encrypted_len - (inlen + 1))%nat in
  let output_len := (encrypted_len + 2)%nat in
  let missing := (output_len - room)%nat in
  if decide (padding < missing)%nat then fail else
  let output_len := (output_len - missing)%nat in
  let pad := (RADIUS_MAX_STRING_LENGTH - (3 + inlen))%nat in
  let r := rand pad in
  let tpasswd :=
    [u8 (Z.lor (Z.lor 0x80 (Z.shiftl (Z.land salt_offset 0x07) 4))
               (Z.land (Z.shiftr r 8) 0x0f)); Z.land r 0xff; u8 (Z.of_nat inlen)]
    ++ input ++ map (fun k => u8 (rand k)) (seq 0 pad) in
  let c : ctx := dg_update dg_alloc secret in
  let c_old := c in
  v ← rd_slice 0 16 vector;
  salt ← rd_slice 0 2 tpasswd;
  tpasswd ← tunnel_encode_loop (S encrypted_len) 0 encrypted_len
              (dg_update (dg_update c v) salt) c_old tpasswd;
  out ← rd_slice 0 output_len tpasswd;
  Some (inr (out, salt_offset + 1)).

(** [for (i = base; i < block_len; i++) passwd[n + i - 1] = passwd[n + i + 2] ^ digest[i];]
    with [ks] the digest bytes from [base] on, [src] and [dst] the first indexes. *)
Fixpoint shift_xor (ks : list Z) (src dst : nat) (passwd : list Z) : option (list Z) :=
  match ks with
  | [] => Some passwd
  | k :: ks =>
      b ← rd passwd src;
      passwd ← wr_slice dst [Z.lxor b k] passwd;
      shift_xor ks (S src) (S dst) passwd
  end.

(** [inl ()] is [return -1] (password too long for the attribute). *)
Fixpoint tunnel_decode_loop (fuel n pwlen encrypted_len embedded_len : nat) (c c_old : ctx)
    (passwd : list Z) : option (unit + list Z * nat) :=
  match fuel with
  | O => None
  | S fuel' =>
      if decide (n < encrypted_len)%nat then
        let block_len := if decide (pwlen < n + 2 + AUTH_PASS_LEN)%nat
                         then (pwlen - n - 2)%nat else AUTH_PASS_LEN in
        let '(digest, _) := dg_final c in
        if decide (n = 0)%nat then
          p2 ← rd passwd 2;
          d0 ← rd digest 0;
          let embedded_len := Z.to_nat (Z.lxor p2 d0) in
          if decide (encrypted_len < embedded_len)%nat then Some (inl ()) else
          b ← rd_slice 2 block_len passwd;
          let c := dg_update c_old b in
          ks ← rd_slice 1 (block_len - 1) digest;
          passwd ← shift_xor ks (n + 3) n passwd;
          tunnel_decode_loop fuel' (n + AUTH_PASS_LEN) pwlen encrypted_len embedded_len
            c c_old passwd
        else
          b ← rd_slice (n + 2) block_len passwd;
          let c := dg_update c_old b in
          ks ← rd_slice 0 block_len digest;
          passwd ← shift_xor ks (n + 2) (n - 1) passwd;
          tunnel_decode_loop fuel' (n + AUTH_PASS_LEN) pwlen encrypted_len embedded_len
            c c_old passwd
      else Some (inr (passwd, embedded_len))
  end.

Definition fr_radius_decode_tunnel_password (passwd : list Z) (pwlen : nat)
    (secret vector : list Z) (tunnel_password_zeros : bool)
    : option (unit + list Z * nat) :=
  if decide (pwlen < 2)%nat then Some (inl ()) else
  if decide (pwlen <= 3)%nat then
    passwd ← wr_slice 0 [0] passwd; Some (inr (passwd, 0%nat)) else
  let encrypted_len := (pwlen - 2)%nat in
  let c_old : ctx := dg_update dg_alloc secret in
  v ← rd_slice 0 16 vector;
  salt ← rd_slice 0 2 passwd;
  r ← tunnel_decode_loop (S encrypted_len) 0 pwlen encrypted_len 0
        (dg_update (dg_update c_old v) salt) c_old passwd;
  match r with
  | inl _ => Some (inl ())
  | inr (passwd, embedded_len) =>
      trailing ← rd_slice embedded_len (encrypted_len - 1 - embedded_len) passwd;
      if tunnel_password_zeros && negb (forallb (fun b => bool_decide (b = 0)) trailing)
      then Some (inl ()) else
      passwd ← wr_slice embedded_len [0] passwd;
      Some (inr (passwd, embedded_len))
  end.
End Tunnel.

(** ** The key stream *)

Section Stream.
Variable digest : list Z -> list Z.
Hypothesis digest_len : forall d, length (digest d) = 16%nat.
Variable secret : list Z.

Definition stream_enc (prev : list Z) (n : nat) (l : list Z) : list Z :=
  concat (pw_encrypt digest secret prev (blocks16 n l)).
Definition stream_dec (prev : list Z) (n : nat) (l : list Z) : list Z :=
  concat (pw_decrypt digest secret prev (blocks16 n l)).

Lemma stream_enc_S prev n l (c := zip_with Z.lxor (take 16 l) (digest (secret ++ prev))) :
  stream_enc prev (S n) l = c ++ stream_enc c n (drop 16 l).
Proof. done. Qed.

Lemma stream_dec_S prev n l :
  stream_dec prev (S n) l =
  zip_with Z.lxor (take 16 l) (digest (secret ++ prev)) ++ stream_dec (take 16 l) n (drop 16 l).
Proof. done. Qed.

Lemma length_block (l k : list Z) :
  length k = 16%nat -> length (zip_with Z.lxor (take 16 l) k) = Nat.min 16 (length l).
Proof. intros Hk. rewrite length_zip_with, length_take. lia. Qed.

Lemma stream_enc_nil prev n : stream_enc prev n [] = [].
Proof. revert prev. induction n as [|n IH]; intros prev; [done|]. rewrite stream_enc_S. apply IH. Qed.

Lemma length_stream_enc prev n l :
  (length l <= 16 * n)%nat -> length (stream_enc prev n l) = length l.
Proof.
  revert prev l. induction n as [|n IH]; intros prev l Hl; [by destruct l; [|simpl in Hl; lia]|].
  rewrite stream_enc_S, length_app, length_block, IH by (rewrite ?length_drop; done || lia).
  rewrite length_drop. lia.
Qed.

Lemma length_stream_dec prev n l :
  (length l <= 16 * n)%nat -> length (stream_dec prev n l) = length l.
Proof.
  revert prev l. induction n as [|n IH]; intros prev l Hl; [by destruct l; [|simpl in Hl; lia]|].
  rewrite stream_dec_S, length_app, length_block, IH by (rewrite ?length_drop; done || lia).
  rewrite length_drop. lia.
Qed.

Lemma stream_dec_nil prev n : stream_dec prev n [] = [].
Proof. apply nil_length_inv. rewrite length_stream_dec; simpl; lia. Qed.

Lemma zip_with_take_l (b k : list Z) m :
  zip_with Z.lxor (take m b) k = take m (zip_with Z.lxor b k).
Proof.
  revert b k. induction m as [|m IH]; intros [|x b] [|y k]; simpl; try done. by rewrite IH.
Qed.

(** Dropping the end of the plaintext drops the end of the ciphertext. *)
Lemma stream_enc_take prev n l k :
  stream_enc prev n (take k l) = take k (stream_enc prev n l).
Proof.
  revert prev l k. induction n as [|n IH]; intros prev l k;
    [unfold stream_enc; simpl; by rewrite take_nil|].
  rewrite !stream_enc_S. set (K := digest (secret ++ prev)).
  assert (HK : length K = 16%nat) by apply digest_len.
  destruct (decide (k <= 16)%nat) as [Hk|Hk].
  - rewrite take_take, Nat.min_r by lia. rewrite (drop_ge (take k l)) by (rewrite length_take; lia).
    rewrite stream_enc_nil, app_nil_r.
    destruct (decide (length l <= k)%nat).
    + rewrite !(take_ge l), (drop_ge l), stream_enc_nil, app_nil_r, take_ge by
        (rewrite ?length_zip_with; lia). done.
    + rewrite take_app_le by (rewrite length_block by done; lia).
      rewrite <- zip_with_take_l, take_take, Nat.min_l by lia. done.
  - rewrite take_take, Nat.min_l by lia. rewrite skipn_firstn_comm, IH.
    destruct (decide (length l <= 16)%nat).
    + rewrite !(drop_ge l), stream_enc_nil, take_nil, !app_nil_r by lia.
      symmetry. apply take_ge. rewrite length_block by done. lia.
    + rewrite take_app_ge by (rewrite length_block by done; lia).
      rewrite length_block by done. do 2 f_equal. lia.
Qed.

Lemma stream_dec_enc prev n l :
  (length l <= 16 * n)%nat -> stream_dec prev n (stream_enc prev n l) = l.
Proof.
  revert prev l. induction n as [|n IH]; intros prev l Hl; [by destruct l; [|simpl in Hl; lia]|].
  rewrite stream_enc_S, stream_dec_S. set (K := digest (secret ++ prev)).
  assert (HK : length K = 16%nat) by apply digest_len. set (c := zip_with _ (take 16 l) K).
  assert (Hc : length c = Nat.min 16 (length l)) by (by apply length_block).
  destruct (decide (length l <= 16)%nat).
  - rewrite (drop_ge l), stream_enc_nil, app_nil_r by lia.
    rewrite (take_ge c), (drop_ge c), stream_dec_nil, app_nil_r by lia.
    unfold c. rewrite zip_xor_cancel by (rewrite length_take; lia). by rewrite take_ge by lia.
  - rewrite take_app_length', drop_app_length' by lia.
    rewrite IH by (rewrite length_drop; lia).
    unfold c. rewrite zip_xor_cancel by (rewrite length_take; lia). apply take_drop.
Qed.
End Stream.

(** ** The loops *)

Lemma shift_xor_spec (b : list Z) : forall ks out g t,
  length ks = length b -> length g = 3%nat ->
  shift_xor ks (length out + 3) (length out) (out ++ g ++ b ++ t) =
  Some (out ++ zip_with Z.lxor b ks ++ drop (length b) (g ++ b) ++ t).
Proof.
  induction b as [|y b IH]; intros ks out g t Hk Hg.
  { destruct ks; [|done]. simpl. by rewrite app_nil_r. }
  destruct ks as [|k ks]; [done|]. destruct g as [|g0 g]; [done|].
  cbn [shift_xor]. unfold rd.
  assert (E : (out ++ (g0 :: g) ++ (y :: b) ++ t) !! (length out + 3)%nat = Some y).
  { rewrite lookup_app_r by lia. replace (length out + 3 - length out)%nat with 3%nat by lia.
    rewrite <- Hg. rewrite lookup_app_r by lia. by rewrite Nat.sub_diag. }
  rewrite E. cbn [mbind option_bind].
  rewrite wr_slice_Some by (rewrite !length_app; simpl in *; lia). cbn [mbind option_bind].
  change ((g0 :: g) ++ (y :: b) ++ t) with ([g0] ++ g ++ (y :: b) ++ t).
  rewrite (inserts_app_mid out [g0] (g ++ (y :: b) ++ t) [Z.lxor y k]) by done.
  specialize (IH ks (out ++ [Z.lxor y k]) (g ++ [y]) t ltac:(simpl in Hk; lia)
    ltac:(rewrite length_app; simpl in *; lia)).
  rewrite length_app in IH. cbn [length] in IH. rewrite <- !app_assoc in IH.
  replace (length out + 1 + 3)%nat with (S (length out + 3)) in IH by lia.
  replace (length out + 1)%nat with (S (length out)) in IH by lia.
  simpl app in IH |- *. rewrite IH. simpl. done.
Qed.

Lemma zip_with_slice (b K : list Z) :
  zip_with Z.lxor b (slice 0 (length b) K) = zip_with Z.lxor b K.
Proof.
  unfold slice. rewrite drop_0. revert K.
  induction b as [|x b IH]; intros [|y K]; simpl; try done. by rewrite IH.
Qed.

Section TunnelFacts.
Context {ctx : Type} `{DigestApi ctx} {digest : list Z -> list Z}.
Context `{!DigestLaws ctx digest 16}.
Context (secret : list Z) (Hsecret : Z.of_nat (length secret) + 274 < dg_limit).

Lemma tunnel_encode_loop_spec nb : forall fuel (salt done_ rem tail prev : list Z) (c c_old : ctx),
  length salt = 2%nat -> (length rem <= 16 * nb)%nat -> (length rem < fuel)%nat ->
  dg_absorbed c_old secret ->
  (if decide (0 < length done_)%nat
   then (16 <= length done_)%nat /\ slice (length done_ - 16) 16 done_ = prev
   else (dg_final c).1 = digest (secret ++ prev)) ->
  tunnel_encode_loop (ctx := ctx) fuel (length done_) (length done_ + length rem) c c_old
    (salt ++ done_ ++ rem ++ tail) =
  Some (salt ++ done_ ++ stream_enc digest secret prev nb rem ++ tail).
Proof.
  induction nb as [|nb IH]; intros fuel salt done_ rem tail prev c c_old Hsalt Hnb Hf Hold Hprev;
    (destruct fuel as [|fuel]; [lia|]).
  { destruct rem; [|simpl in Hnb; lia]. cbn [tunnel_encode_loop].
    by rewrite decide_False by (simpl; lia). }
  destruct (decide (rem = [])) as [->|Hne].
  { cbn [tunnel_encode_loop]. rewrite decide_False by (simpl; lia).
    by rewrite stream_enc_nil. }
  assert (Hpos : (0 < length rem)%nat) by (destruct rem; [done|simpl; lia]).
  cbn [tunnel_encode_loop]. rewrite decide_True by lia. unfold AUTH_PASS_LEN.
  set (c' := if decide (0 < length done_)%nat then _ else _).
  assert (Hc' : exists c1, c' = Some c1 /\ (dg_final c1).1 = digest (secret ++ prev)).
  { unfold c'. destruct (decide (0 < length done_)%nat); [|by exists c].
    destruct Hprev as [H16 Hprev]. rewrite rd_slice_Some by (rewrite !length_app; lia).
    cbn [mbind option_bind]. eexists. split; [done|].
    assert (E : slice (2 + length done_ - 16) 16 (salt ++ done_ ++ rem ++ tail) = prev).
    { rewrite <- Hprev. apply list_eq. intros i. destruct (decide (i < 16)%nat).
      - rewrite !lookup_slice, lookup_app_r, lookup_app_l by lia. f_equal. lia.
      - rewrite !lookup_slice_ge by lia. done. }
    rewrite E. apply keyed_digest; [done..|]. rewrite <- Hprev, length_slice; lia. }
  destruct Hc' as (c1 & -> & Hd). cbn [mbind option_bind].
  destruct (dg_final c1) as [d c2]. simpl in Hd. subst d.
  rewrite stream_enc_S. set (K := digest (secret ++ prev)).
  assert (HK : length K = 16%nat) by apply dg_length.
  set (b := take 16 rem).
  assert (Hb : length b = Nat.min (length done_ + length rem - length done_) 16)
    by (unfold b; rewrite length_take; lia).
  rewrite <- Hb.
  assert (Hsplit : salt ++ done_ ++ rem ++ tail = (salt ++ done_) ++ b ++ drop 16 rem ++ tail).
  { rewrite <- !app_assoc. do 2 f_equal. unfold b.
    by rewrite (app_assoc (take 16 rem)), take_drop. }
  rewrite Hsplit.
  assert (Hoff : (2 + length done_)%nat = length (salt ++ done_)) by (rewrite length_app; lia).
  rewrite Hoff.
  rewrite xor_at_app by (unfold b; rewrite length_take; lia). cbn [mbind option_bind]. set (x := zip_with Z.lxor b K).
  assert (Hx : length x = length b) by (unfold x; rewrite length_zip_with; lia).
  destruct (decide (length rem <= 16)%nat) as [Hlast|Hmore].
  - rewrite (drop_ge rem), stream_enc_nil, app_nil_r by lia. simpl app.
    destruct fuel as [|fuel]; [lia|]. cbn [tunnel_encode_loop].
    rewrite decide_False by lia. by rewrite <- app_assoc.
  - specialize (IH fuel salt (done_ ++ x) (drop 16 rem) tail x c2 c_old Hsalt).
    rewrite length_app, length_drop in IH.
    replace (length done_ + length x + (length rem - 16))%nat
      with (length done_ + length rem)%nat in IH by lia.
    replace (length done_ + length x)%nat with (length done_ + 16)%nat in IH by lia.
    rewrite <- !app_assoc in IH. rewrite <- !app_assoc. apply IH; [lia|lia|done|].
    rewrite decide_True by lia. split; [lia|].
    replace (length done_ + 16 - 16)%nat with (length done_) by lia.
    unfold slice. rewrite drop_app_length. rewrite take_ge by lia. done.
Qed.

Lemma drop_split (g rem : list Z) :
  (16 <= length rem)%nat ->
  drop (length (drop 16 rem)) (drop 16 (g ++ take 16 rem) ++ drop 16 rem) =
  drop (length rem) (g ++ rem).
Proof.
  intros Hl. rewrite length_drop.
  replace (drop 16 (g ++ take 16 rem) ++ drop 16 rem) with (drop 16 (g ++ rem)).
  - rewrite drop_drop. f_equal. lia.
  - rewrite <- (take_drop 16 rem) at 1. rewrite app_assoc.
    rewrite drop_app_le by (rewrite length_app, length_take; lia). done.
Qed.

(** One round of the loop after the first: the next block is moved down by three places. *)
Lemma tunnel_decode_block fuel (out g rem rest prev : list Z) (c c_old : ctx) emb (b := take 16 rem) :
  length g = 3%nat -> rem <> [] -> (dg_final c).1 = digest (secret ++ prev) ->
  tunnel_decode_loop (ctx := ctx) (S fuel) (S (length out)) (S (length out) + 2 + length rem)
    (S (length out) + length rem) emb c c_old (out ++ g ++ rem ++ rest) =
  tunnel_decode_loop fuel (S (length out) + 16) (S (length out) + 2 + length rem)
    (S (length out) + length rem) emb (dg_update c_old b) c_old
    (out ++ zip_with Z.lxor b (digest (secret ++ prev)) ++ drop (length b) (g ++ b) ++ drop 16 rem ++ rest).
Proof.
  intros Hg Hne Hd. assert (Hpos : (0 < length rem)%nat) by (destruct rem; [done|simpl; lia]).
  cbn [tunnel_decode_loop]. rewrite decide_True by lia. unfold AUTH_PASS_LEN.
  destruct (dg_final c) as [d c2]. simpl in Hd. subst d.
  rewrite (decide_False (P := S (length out) = 0%nat)) by lia. set (K := digest (secret ++ prev)).
  assert (HK : length K = 16%nat) by apply dg_length. set (bl := if decide _ then _ else 16%nat).
  assert (Hbl : bl = length b) by (unfold bl, b; rewrite length_take; case_decide; lia).
  rewrite Hbl. clear bl Hbl.
  assert (Hsplit : out ++ g ++ rem ++ rest = out ++ g ++ b ++ drop 16 rem ++ rest).
  { do 2 f_equal. unfold b. by rewrite (app_assoc (take 16 rem)), take_drop. }
  assert (Hbrem : length b = Nat.min 16 (length rem)) by (unfold b; by rewrite length_take).
  rewrite Hsplit, (rd_slice_Some (S (length out) + 2)) by (rewrite !length_app; lia).
  replace (slice (S (length out) + 2) (length b) (out ++ g ++ b ++ drop 16 rem ++ rest)) with b.
  2: { replace (S (length out) + 2)%nat with (length (out ++ g)) by (rewrite length_app; lia).
       rewrite (app_assoc out g). symmetry. apply slice_app_mid. }
  cbn [mbind option_bind]. rewrite (rd_slice_Some 0 _ K) by lia. cbn [mbind option_bind].
  replace (S (length out) + 2)%nat with (length out + 3)%nat by lia.
  replace (S (length out) - 1)%nat with (length out) by lia.
  rewrite shift_xor_spec by (done || (apply length_slice; lia)).
  cbn [mbind option_bind]. by rewrite zip_with_slice.
Qed.

(** Blocks after the first. *)
Lemma tunnel_decode_loop_spec nb : forall fuel (out g rem rest prev : list Z) (c c_old : ctx) emb,
  length g = 3%nat -> (length rem <= 16 * nb)%nat -> (length rem < fuel)%nat ->
  dg_absorbed c_old secret ->
  (rem <> [] -> (dg_final c).1 = digest (secret ++ prev)) ->
  tunnel_decode_loop (ctx := ctx) fuel (S (length out)) (S (length out) + 2 + length rem)
    (S (length out) + length rem) emb c c_old (out ++ g ++ rem ++ rest) =
  Some (inr (out ++ stream_dec digest secret prev nb rem ++
             drop (length rem) (g ++ rem) ++ rest, emb)).
Proof.
  induction nb as [|nb IH]; intros fuel out g rem rest prev c c_old emb Hg Hnb Hf Hold Hprev;
    (destruct fuel as [|fuel]; [lia|]).
  { destruct rem; [|simpl in Hnb; lia]. cbn [tunnel_decode_loop].
    rewrite decide_False by (simpl; lia). simpl. by rewrite app_nil_r. }
  destruct (decide (rem = [])) as [->|Hne].
  { cbn [tunnel_decode_loop]. rewrite decide_False by (simpl; lia).
    rewrite stream_dec_nil by apply dg_length. simpl. by rewrite app_nil_r. }
  rewrite (tunnel_decode_block fuel out g rem rest prev) by auto. rewrite stream_dec_S.
  set (b := take 16 rem). set (x := zip_with Z.lxor b _).
  assert (Hbrem : length b = Nat.min 16 (length rem)) by (unfold b; by rewrite length_take).
  assert (Hx : length x = length b) by (unfold x; rewrite length_zip_with, dg_length; lia).
  destruct (decide (length rem <= 16)%nat) as [Hlast|Hmore].
  - destruct fuel as [|fuel]; [destruct rem; [done|simpl in *; lia]|]. cbn [tunnel_decode_loop].
    rewrite decide_False by lia. rewrite (drop_ge rem), stream_dec_nil, app_nil_r
      by (apply dg_length || lia).
    assert (Eb : b = rem) by (unfold b; by rewrite take_ge by lia). rewrite Eb. simpl app. done.
  - specialize (IH fuel (out ++ x) (drop (length b) (g ++ b)) (drop 16 rem) rest b
      (dg_update c_old b) c_old emb).
    pose proof (length_drop rem 16) as El. rewrite length_app, El in IH.
    replace (S (length out + length x) + 2 + (length rem - 16))%nat
      with (S (length out) + 2 + length rem)%nat in IH by lia.
    replace (S (length out + length x) + (length rem - 16))%nat
      with (S (length out) + length rem)%nat in IH by lia.
    replace (S (length out + length x)) with (S (length out) + 16)%nat in IH by lia.
    rewrite <- !app_assoc in IH. rewrite Hbrem, Nat.min_l in IH |- * by lia.
    rewrite IH; [|rewrite length_drop, length_app; lia|lia|lia|done|].
    + rewrite <- app_assoc. do 5 f_equal.
      pose proof (drop_split g rem ltac:(lia)) as HD. rewrite length_drop in HD.
      fold b in HD. rewrite HD. done.
    + intros _. apply keyed_digest; [done..|lia].
Qed.

(** The first round: the first decrypted byte is the length, and the others of the block are
    moved down over the salt. *)
Lemma tunnel_decode_block0 fuel (salt C1 rest prev K1 : list Z) (c c_old : ctx) c0 k0
    (C := c0 :: C1) (b1 := take 15 C1) :
  length salt = 2%nat -> (2 <= length C)%nat -> (dg_final c).1 = digest (secret ++ prev) ->
  digest (secret ++ prev) = k0 :: K1 ->
  tunnel_decode_loop (ctx := ctx) (S fuel) 0 (length C + 2) (length C) 0 c c_old (salt ++ C ++ rest) =
  if decide (length C < Z.to_nat (Z.lxor c0 k0))%nat then Some (inl ()) else
  tunnel_decode_loop fuel 16 (length C + 2) (length C) (Z.to_nat (Z.lxor c0 k0))
    (dg_update c_old (take 16 C)) c_old
    (zip_with Z.lxor b1 K1 ++ drop (length b1) (salt ++ take 16 C) ++ drop 16 C ++ rest).
Proof.
  intros Hsalt H2 Hd EK. cbn [tunnel_decode_loop]. rewrite decide_True by lia. unfold AUTH_PASS_LEN.
  destruct (dg_final c) as [d c2]. simpl in Hd. subst d.
  assert (EK1 : length (k0 :: K1) = 16%nat) by (rewrite <- EK; apply dg_length). rewrite EK.
  assert (HC : length C = S (length C1)) by done.
  assert (Hb1 : length b1 = Nat.min 15 (length C1)) by (unfold b1; by rewrite length_take).
  rewrite (decide_True (P := 0%nat = 0%nat)) by done.
  assert (E2 : rd (salt ++ C ++ rest) 2 = Some c0) by (unfold rd; by rewrite lookup_app_r, Hsalt by lia).
  rewrite E2. cbn [mbind option_bind rd lookup list_lookup].
  destruct (decide (length C < Z.to_nat (Z.lxor c0 k0))%nat); [done|].
  set (bl := if decide _ then _ else 16%nat).
  assert (Hbl : bl = S (length b1)) by (unfold bl; destruct (decide _); lia). rewrite Hbl. clear bl Hbl.
  assert (Hsplit : salt ++ C ++ rest = [] ++ (salt ++ [c0]) ++ b1 ++ drop 16 C ++ rest).
  { simpl. rewrite <- app_assoc. do 2 f_equal. simpl.
    unfold b1. by rewrite (app_assoc (take 15 C1)), take_drop. }
  assert (Hr : rd_slice 2 (S (length b1)) (salt ++ C ++ rest) = Some (take 16 C)).
  { rewrite rd_slice_Some by (rewrite !length_app; lia). f_equal.
    replace (salt ++ C ++ rest) with (salt ++ (c0 :: b1) ++ drop 16 C ++ rest).
    - pose proof (slice_app_mid salt (c0 :: b1) (drop 16 C ++ rest)) as Hmid. by rewrite Hsalt in Hmid.
    - rewrite Hsplit. simpl. by rewrite <- app_assoc. }
  rewrite Hr. cbn [mbind option_bind]. simpl Nat.sub. rewrite Nat.sub_0_r.
  rewrite (rd_slice_Some 1) by lia. cbn [mbind option_bind]. simpl in EK1.
  change (slice 1 (length b1) (k0 :: K1)) with (slice 0 (length b1) K1). rewrite Hsplit.
  pose proof (shift_xor_spec b1 (slice 0 (length b1) K1) [] (salt ++ [c0]) (drop 16 C ++ rest)) as Hsh.
  rewrite length_slice, length_app in Hsh by lia. simpl length in Hsh.
  rewrite Hsh by (simpl; lia). cbn [mbind option_bind]. rewrite zip_with_slice. by rewrite <- (app_assoc salt).
Qed.

(** The first block: its first byte is the length. *)
Lemma tunnel_decode_first nb fuel (salt C rest prev : list Z) (c c_old : ctx) c0 C1
    (D := stream_dec digest secret prev (S nb) C) :
  length salt = 2%nat -> C = c0 :: C1 -> (2 <= length C)%nat ->
  (length C <= 16 * S nb)%nat -> (length C < fuel)%nat -> dg_absorbed c_old secret ->
  (dg_final c).1 = digest (secret ++ prev) ->
  exists d0 D1, D = d0 :: D1 /\
  tunnel_decode_loop (ctx := ctx) fuel 0 (length C + 2) (length C) 0 c c_old
    (salt ++ C ++ rest) =
  if decide (length C < Z.to_nat d0)%nat then Some (inl ()) else
  Some (inr (D1 ++ drop (length C - 1) (salt ++ C) ++ rest, Z.to_nat d0)).
Proof.
  intros Hsalt EC H2 Hnb Hf Hold Hd. unfold D. rewrite stream_dec_S.
  destruct fuel as [|fuel]; [lia|]. pose proof (dg_length (DigestLaws := _) (secret ++ prev)) as HK.
  destruct (digest (secret ++ prev)) as [|k0 K1] eqn:EK; [done|].
  subst C. set (C := c0 :: C1) in *. set (b1 := take 15 C1).
  exists (Z.lxor c0 k0), (zip_with Z.lxor b1 K1 ++ stream_dec digest secret (take 16 C) nb (drop 16 C)).
  split; [done|]. unfold C. rewrite (tunnel_decode_block0 fuel salt C1 rest prev K1 c c_old c0 k0) by (done || congruence).
  fold C b1. destruct (decide (length C < Z.to_nat (Z.lxor c0 k0))%nat); [done|].
  assert (HC : length C = S (length C1)) by done. simpl in HK.
  assert (Hb1 : length b1 = Nat.min 15 (length C1)) by (unfold b1; by rewrite length_take).
  set (x := zip_with Z.lxor b1 K1).
  assert (Hx : length x = length b1) by (unfold x; rewrite length_zip_with; lia).
  destruct (decide (length C <= 16)%nat) as [Hlast|Hmore].
  - destruct fuel as [|fuel]; [lia|]. cbn [tunnel_decode_loop]. rewrite decide_False by lia.
    rewrite (take_ge C), (drop_ge C), stream_dec_nil by (apply dg_length || lia).
    rewrite app_nil_r. by replace (length b1) with (length C - 1)%nat by lia.
  - pose proof (tunnel_decode_loop_spec nb fuel x (drop (length b1) (salt ++ take 16 C))
      (drop 16 C) rest (take 16 C) (dg_update c_old (take 16 C)) c_old
      (Z.to_nat (Z.lxor c0 k0))) as HL.
    rewrite (length_drop C 16) in HL.
    replace (S (length x)) with 16%nat in HL by lia.
    replace (16 + 2 + (length C - 16))%nat with (length C + 2)%nat in HL by lia.
    replace (16 + (length C - 16))%nat with (length C) in HL by lia.
    rewrite HL; [|rewrite length_drop, length_app, length_take; lia|lia|lia|done|].
    + rewrite <- !app_assoc. do 5 f_equal.
      replace (length b1) with 15%nat by lia.
      assert (E15 : drop 15 (salt ++ take 16 C) ++ drop 16 C = drop 15 (salt ++ C)).
      { symmetry. rewrite <- (take_drop 16 C) at 1. rewrite app_assoc. apply drop_app_le.
        rewrite length_app, length_take. lia. }
      rewrite E15, drop_drop. do 2 f_equal. lia.
    + intros _. apply keyed_digest; [done..|]. rewrite length_take. lia.
Qed.

(** Decoding [salt ++ C] with [C] of at least two bytes, in the buffer it came in:
    [D] is the decrypted length byte and password. *)
Lemma decode_tunnel_eq (salt C rest vector : list Z) zeros
    (D := stream_dec digest secret (vector ++ salt) 16 C)
    (buf := drop 1 D ++ drop (length C - 1) (salt ++ C) ++ rest) :
  length salt = 2%nat -> length vector = 16%nat -> (2 <= length C <= 251)%nat ->
  exists d0, D !! 0%nat = Some d0 /\
  fr_radius_decode_tunnel_password (ctx := ctx) (salt ++ C ++ rest) (length C + 2) secret vector
    zeros =
  if decide (length C < Z.to_nat d0)%nat then Some (inl ()) else
  let emb := Z.to_nat d0 in
  if zeros && negb (forallb (fun b => bool_decide (b = 0))
                      (slice emb (length C - 1 - emb) buf))
  then Some (inl ()) else Some (inr (list_inserts emb [0] buf, emb)).
Proof.
  intros Hsalt Hv HC.
  assert (EC : exists c0 C1, C = c0 :: C1) by (destruct C; [simpl in HC; lia|eauto]).
  destruct EC as (c0 & C1 & EC).
  destruct (tunnel_decode_first 15 (S (length C)) salt C rest (vector ++ salt)
    (dg_update (dg_update (dg_update dg_alloc secret) vector) salt)
    (dg_update dg_alloc secret) c0 C1) as (d0 & D1 & ED & HL); try done; try lia.
  { apply secret_absorbed. done. }
  { apply dg_final_spec. rewrite app_assoc. apply dg_update_spec.
    - apply dg_update_spec; [by apply secret_absorbed|]. rewrite length_app. lia.
    - rewrite !length_app. lia. }
  exists d0. unfold buf, D. rewrite ED. split; [done|]. simpl drop at 1 4.
  unfold fr_radius_decode_tunnel_password.
  rewrite (decide_False (P := (length C + 2 < 2)%nat)),
    (decide_False (P := (length C + 2 <= 3)%nat)) by lia.
  rewrite (rd_slice_Some 0 16 vector) by lia. cbn [mbind option_bind].
  assert (Ev : slice 0 16 vector = vector) by (rewrite <- Hv; apply slice_all).
  rewrite Ev, rd_slice_Some by (rewrite !length_app; lia). cbn [mbind option_bind].
  assert (Es : slice 0 2 (salt ++ C ++ rest) = salt)
    by (unfold slice; rewrite drop_0, take_app_length'; done).
  rewrite Es. replace (length C + 2 - 2)%nat with (length C) by lia. rewrite HL.
  assert (HD : length D1 = (length C - 1)%nat).
  { pose proof (length_stream_dec digest dg_length secret (vector ++ salt) 16 C ltac:(lia)) as Hlen.
    rewrite ED in Hlen. simpl in Hlen. lia. }
  destruct (decide (length C < Z.to_nat d0)%nat) as [|Hok]; [done|]. cbn [mbind option_bind].
  rewrite rd_slice_Some by (rewrite !length_app, length_drop, length_app; lia).
  cbn [mbind option_bind]. destruct (_ && _); [done|].
  rewrite wr_slice_Some by (rewrite !length_app, length_drop, length_app; simpl; lia). done.
Qed.

Lemma ROUND_UP16_bound n : (n <= ROUND_UP16 n)%nat.
Proof.
  unfold ROUND_UP16. pose proof (Nat.div_mod_eq (n + 15) 16).
  pose proof (Nat.mod_upper_bound (n + 15) 16 ltac:(lia)). lia.
Qed.

(** What is sent: two salt bytes with the high bit set, and the hidden length byte,
    password and padding, without the padding that does not fit. *)
Lemma encode_tunnel_eq room input vector so rand out so' :
  length vector = 16%nat ->
  encode_tunnel_password (ctx := ctx) room input secret vector so rand =
    Some (inr (out, so')) ->
  exists salt pads m,
    length salt = 2%nat /\ (length input <= 250)%nat /\ so' = so + 1 /\
    (S (length input) <= m <= 251)%nat /\ (m <= S (length input) + length pads)%nat /\
    (m + 2 <= Nat.max room 3)%nat /\
    out = salt ++ take m (stream_enc digest secret (vector ++ salt) 16
            (take m (Z.of_nat (length input) :: input ++ pads))) /\
    (m + 2)%nat = length out /\ pads = map (fun k => u8 (rand k)) (seq 0 (250 - length input)).
Proof.
  intros Hv. unfold encode_tunnel_password, RADIUS_MAX_STRING_LENGTH. cbv zeta.
  destruct (decide (253 - 3 < length input)%nat) as [|Hin]; [done|].
  set (el := Nat.min (ROUND_UP16 (length input + 1)) (253 - 2)).
  assert (Hel : (S (length input) <= el <= 251)%nat).
  { unfold el. pose proof (ROUND_UP16_bound (length input + 1)). lia. }
  clearbody el. destruct (decide _) as [|Hroom]; [done|].
  set (ol := (el + 2 - (el + 2 - Nat.min room 253))%nat).
  assert (Hol : (S (length input) + 2 <= ol <= el + 2)%nat /\ (ol <= Nat.max room 3)%nat) by (unfold ol; lia).
  clearbody ol. destruct Hol as [Hol Holr].
  set (pads := map (fun k => u8 (rand k)) (seq 0 _)).
  assert (Hpads : (length pads + 3 + length input = 253)%nat)
    by (unfold pads; rewrite length_map, length_seq; lia).
  assert (Epads : pads = map (fun k => u8 (rand k)) (seq 0 (250 - length input)))
    by (unfold pads; do 2 f_equal; lia).
  clearbody pads. rewrite (u8_small (Z.of_nat (length input))) by lia.
  set (s0 := u8 _). set (s1 := Z.land _ 0xff). clearbody s0 s1.
  set (P := Z.of_nat (length input) :: input ++ pads).
  assert (HP : length P = 251%nat) by (unfold P; simpl; rewrite length_app; lia).
  assert (ET : [s0; s1; Z.of_nat (length input)] ++ input ++ pads =
    [s0; s1] ++ [] ++ take el P ++ drop el P) by (simpl; rewrite take_drop; done).
  rewrite ET. rewrite (rd_slice_Some 0 16 vector) by lia. cbn [mbind option_bind].
  assert (Ev : slice 0 16 vector = vector) by (rewrite <- Hv; apply slice_all). rewrite Ev.
  rewrite (rd_slice_Some 0 2 ([s0; s1] ++ _)) by (simpl; lia). cbn [mbind option_bind].
  change (slice 0 2 ([s0; s1] ++ [] ++ take el P ++ drop el P)) with [s0; s1].
  pose proof (tunnel_encode_loop_spec 16 (S el) [s0; s1] [] (take el P) (drop el P)
    (vector ++ [s0; s1]) (dg_update (dg_update (dg_update dg_alloc secret) vector) [s0; s1])
    (dg_update dg_alloc secret)) as HL.
  assert (Htk : length (take el P) = el) by (rewrite length_take; lia).
  rewrite Htk in HL. cbn [length Nat.add] in HL. rewrite HL; [|done|lia|lia|by apply secret_absorbed|].
  - cbn [mbind option_bind]. set (E := stream_enc _ _ _ _ (take el P)).
    assert (HE : length E = el) by (unfold E; rewrite length_stream_enc by (apply dg_length || lia); lia).
    rewrite rd_slice_Some by (rewrite !length_app; simpl; lia). cbn [mbind option_bind].
    assert (Eo : slice 0 ol ([s0; s1] ++ [] ++ E ++ drop el P) = [s0; s1] ++ take (ol - 2) E).
    { unfold slice. rewrite drop_0, app_nil_l, app_assoc, take_app_le
        by (rewrite length_app; simpl; lia).
      rewrite take_app_ge by (simpl; lia). done. }
    rewrite Eo. intros E'. assert (out = [s0; s1] ++ take (ol - 2) E) as -> by congruence.
    exists [s0; s1], pads, (ol - 2)%nat.
    rewrite length_app, length_take. simpl length. fold P.
    assert (so' = so + 1) by congruence.
    split_and!; try done; try lia.
    f_equal. unfold E. rewrite !stream_enc_take by apply dg_length.
    rewrite !take_take. f_equal. lia.
  - simpl. apply dg_final_spec. rewrite app_assoc. apply dg_update_spec.
    + apply dg_update_spec; [by apply secret_absorbed|]. rewrite length_app. lia.
    + rewrite !length_app. simpl. lia.
Qed.
End TunnelFacts.

(** ** Theorems *)

(** The random bytes behind a password of [inlen] bytes that are sent in [outlen] bytes. *)
Definition sent_padding (rand : nat -> Z) (inlen outlen : nat) : list Z :=
  map (fun k => u8 (rand k)) (seq 0 (outlen - 3 - inlen)).

(** C35: a tunnel password survives hiding and recovery: whatever the random salt and
    padding, and even when the output buffer forced padding to be cut off,
    [fr_radius_decode_tunnel_password] without the option [tunnel_password_zeros] recovers
    from the output of [encode_tunnel_password] exactly the bytes that went in (NUL bytes
    included) and returns their number.  With the option it does so only if every padding
    byte sent happens to be zero, and otherwise refuses the attribute: the encoder fills the
    padding with random bytes. *)
Theorem tunnel_password_roundtrip room input secret vector so rand out so' rest zeros :
  Z.of_nat (length secret) + 274 < 2 ^ 29 -> length vector = 16%nat ->
  encode_tunnel_password (ctx := fr_md5_ctx_local_t) room input secret vector so rand =
    Some (inr (out, so')) ->
  let decoded := fr_radius_decode_tunnel_password (ctx := fr_md5_ctx_local_t) (out ++ rest)
    (length out) secret vector zeros in
  if zeros && negb (forallb (fun b => bool_decide (b = 0))
                      (sent_padding rand (length input) (length out)))
  then decoded = Some (inl ())
  else exists buf, decoded = Some (inr (buf, length input)) /\ take (length input) buf = input.
Proof.
  intros Hs0 Hv Henc decoded.
  assert (Hs : Z.of_nat (length secret) + 274 < dg_limit (ctx := fr_md5_ctx_local_t)) by exact Hs0.
  destruct (encode_tunnel_eq secret Hs _ _ _ _ _ _ _ Hv Henc)
    as (salt & pads & m & Hsalt & Hin & _ & Hm & Hmp & _ & Eo & Hlen & Epads).
  set (P := Z.of_nat (length input) :: input ++ pads) in *.
  set (C := take m (stream_enc md5_spec secret (vector ++ salt) 16 (take m P))) in *.
  assert (HP : (m <= length P)%nat) by (unfold P; simpl; rewrite length_app; lia).
  assert (EC : C = stream_enc md5_spec secret (vector ++ salt) 16 (take m P)).
  { unfold C. rewrite take_ge; [done|].
    rewrite length_stream_enc by (apply dg_length || (rewrite length_take; lia)).
    rewrite length_take. lia. }
  assert (HC : length C = m) by (rewrite Eo, length_app in Hlen; lia).
  assert (Hpad : sent_padding rand (length input) (length out) = take (m - 1 - length input) pads).
  { unfold sent_padding. rewrite Epads, <- Hlen, firstn_map, take_seq. do 2 f_equal.
    rewrite Epads, length_map, length_seq in Hmp. lia. }
  rewrite Hpad.
  destruct (decide (m = 1%nat)) as [E1|E1].
  { assert (E0 : input = []) by (destruct input; [done|simpl in Hm; lia]). subst input.
    rewrite E1. cbn [length Nat.sub take forallb negb]. rewrite andb_false_r.
    unfold decoded, fr_radius_decode_tunnel_password.
    rewrite (decide_False (P := (length out < 2)%nat)), decide_True by lia.
    rewrite wr_slice_Some by (rewrite length_app; simpl; lia). cbn [mbind option_bind]. eauto. }
  destruct (decode_tunnel_eq secret Hs salt C rest vector zeros Hsalt Hv) as (d0 & Hd0 & HD); [lia|].
  assert (ED : stream_dec md5_spec secret (vector ++ salt) 16 C = take m P).
  { rewrite EC. apply stream_dec_enc; [apply dg_length|]. rewrite length_take. lia. }
  rewrite ED in Hd0, HD. rewrite lookup_take_lt in Hd0 by lia. simpl in Hd0. injection Hd0 as <-.
  rewrite Nat2Z.id in HD. rewrite decide_False in HD by lia. cbv zeta in HD.
  assert (Hdrop : drop 1 (take m P) = input ++ take (m - 1 - length input) pads).
  { rewrite skipn_firstn_comm. change (drop 1 P) with (input ++ pads). by rewrite take_app_ge by lia. }
  rewrite Hdrop, HC in HD.
  replace (slice (length input) (m - 1 - length input) _) with (take (m - 1 - length input) pads) in HD.
  2: { unfold slice. rewrite <- app_assoc, drop_app_length, take_app_le by (rewrite length_take; lia).
       symmetry. apply take_ge. rewrite length_take. lia. }
  unfold decoded. rewrite <- Hlen, Eo, <- app_assoc. rewrite HD. destruct (zeros && _); [done|].
  eexists. split; [done|]. apply list_eq. intros i. destruct (decide (i < length input)%nat).
  - by rewrite lookup_take_lt, list_lookup_inserts_lt, <- app_assoc, lookup_app_l by lia.
  - rewrite lookup_take_ge by lia. symmetry. apply lookup_ge_None. lia.
Qed.

(** Decoded without the option, and refused with it. *)
Lemma tunnel_password_roundtrip_witness :
  exists out so' buf,
    encode_tunnel_password (ctx := fr_md5_ctx_local_t) 12 [104; 0; 108; 108; 111]
      example_pw_secret example_vector 3 (fun k => Z.of_nat k * 77) = Some (inr (out, so')) /\
    fr_radius_decode_tunnel_password (ctx := fr_md5_ctx_local_t) (out ++ []) (length out)
      example_pw_secret example_vector false = Some (inr (buf, 5%nat)) /\
    take 5 buf = [104; 0; 108; 108; 111] /\
    fr_radius_decode_tunnel_password (ctx := fr_md5_ctx_local_t) (out ++ []) (length out)
      example_pw_secret example_vector true = Some (inl ()).
Proof.
  eexists _, _.
  match goal with |- exists buf, ?A /\ ?B => assert (HA : A) by (vm_compute; reflexivity) end.
  pose proof (fun zeros => tunnel_password_roundtrip 12 [104; 0; 108; 108; 111] example_pw_secret
    example_vector 3 (fun k => Z.of_nat k * 77) _ _ [] zeros ltac:(simpl; lia) eq_refl HA) as H.
  destruct (H false) as (buf & H1 & H2). exists buf.
  split; [exact HA|]. split; [exact H1|]. split; [exact H2|exact (H true)].
Defined.

(** Decoding a received Tunnel-Password never leaves the buffer and always returns:
    for any attribute of at most 253 bytes at the start of any buffer, the result is
    an error or a length not larger than the attribute's data (salt excluded), and
    the buffer keeps its size. *)
Theorem tunnel_decode_safe passwd pwlen secret vector zeros :
  Z.of_nat (length secret) + 274 < 2 ^ 29 -> length vector = 16%nat ->
  (pwlen <= length passwd)%nat -> (pwlen <= 253)%nat ->
  exists res,
    fr_radius_decode_tunnel_password (ctx := fr_md5_ctx_local_t) passwd pwlen secret vector zeros
      = Some res /\
    match res with
    | inl _ => True
    | inr (buf, n) => length buf = length passwd /\ (n <= pwlen - 2)%nat
    end.
Proof.
  intros Hs0 Hv Hl Hmax.
  assert (Hs : Z.of_nat (length secret) + 274 < dg_limit (ctx := fr_md5_ctx_local_t)) by exact Hs0.
  destruct (decide (pwlen < 2)%nat) as [H2|H2].
  { exists (inl ()). unfold fr_radius_decode_tunnel_password. by rewrite decide_True. }
  destruct (decide (pwlen <= 3)%nat) as [H3|H3].
  { unfold fr_radius_decode_tunnel_password.
    rewrite (decide_False (P := (pwlen < 2)%nat)), decide_True by lia.
    rewrite wr_slice_Some by (simpl; lia). cbn [mbind option_bind]. eexists. split; [done|].
    split; [apply length_inserts|lia]. }
  set (salt := take 2 passwd). set (C := slice 2 (pwlen - 2) passwd). set (rest := drop pwlen passwd).
  assert (HC : length C = (pwlen - 2)%nat) by (apply length_slice; lia).
  assert (E : passwd = salt ++ C ++ rest).
  { unfold salt, C, rest, slice. rewrite <- (take_drop 2 passwd) at 1. f_equal.
    rewrite <- (take_drop (pwlen - 2) (drop 2 passwd)) at 1. f_equal.
    rewrite drop_drop. f_equal. lia. }
  assert (Hsalt : length salt = 2%nat) by (unfold salt; rewrite length_take; lia).
  destruct (decode_tunnel_eq secret Hs salt C rest vector zeros Hsalt Hv) as (d0 & _ & HD); [lia|].
  assert (HDl : length (stream_dec md5_spec secret (vector ++ salt) 16 C) = length C)
    by (apply length_stream_dec; [apply dg_length|lia]).
  rewrite <- E in HD. replace (length C + 2)%nat with pwlen in HD by lia. rewrite HD.
  case_decide as Hd; [by exists (inl ())|]. cbv zeta.
  destruct (zeros && _); [by exists (inl ())|]. eexists. split; [done|]. cbv beta iota.
  split; [|lia]. rewrite length_inserts, !length_app, !length_drop, length_app, HDl.
  unfold rest. rewrite length_drop. lia.
Qed.

Lemma tunnel_decode_safe_witness :
  exists res,
    fr_radius_decode_tunnel_password (ctx := fr_md5_ctx_local_t) [128; 1; 2; 3; 4; 5] 6
      example_pw_secret example_vector true = Some res /\
    match res with
    | inl _ => True
    | inr (buf, n) => length buf = 6%nat /\ (n <= 4)%nat
    end.
Proof.
  apply (tunnel_decode_safe [128; 1; 2; 3; 4; 5] 6); simpl; (reflexivity || lia).
Defined.

(** The length check of [fr_radius_decode_tunnel_password] is off by one.  A length
    byte equal to the number of hidden bytes (itself included) is accepted although
    only one byte less of password was received, and the last byte of the returned
    password is a byte of the attribute as received, not a decrypted one. *)
Theorem tunnel_decode_stale_byte salt C rest secret vector :
  Z.of_nat (length secret) + 274 < 2 ^ 29 -> length vector = 16%nat ->
  length salt = 2%nat -> (2 <= length C <= 251)%nat ->
  stream_dec md5_spec secret (vector ++ salt) 16 C !! 0%nat = Some (Z.of_nat (length C)) ->
  exists buf,
    fr_radius_decode_tunnel_password (ctx := fr_md5_ctx_local_t) (salt ++ C ++ rest)
      (length C + 2) secret vector false = Some (inr (buf, length C)) /\
    buf !! (length C - 1)%nat = (salt ++ C) !! (length C - 1)%nat.
Proof.
  intros Hs0 Hv Hsalt HC H0.
  assert (Hs : Z.of_nat (length secret) + 274 < dg_limit (ctx := fr_md5_ctx_local_t)) by exact Hs0.
  destruct (decode_tunnel_eq secret Hs salt C rest vector false Hsalt Hv HC) as (d0 & Hd0 & ->).
  assert (HDl : length (stream_dec md5_spec secret (vector ++ salt) 16 C) = length C)
    by (apply length_stream_dec; [apply dg_length|lia]).
  rewrite H0 in Hd0. injection Hd0 as <-. rewrite Nat2Z.id, decide_False by lia.
  eexists. split; [done|]. rewrite list_lookup_inserts_lt by lia.
  rewrite lookup_app_r by (rewrite length_drop, HDl; lia).
  rewrite length_drop, HDl. rewrite lookup_app_l by (rewrite length_drop, length_app; lia).
  rewrite lookup_drop. f_equal. lia.
Qed.

(** Two hidden bytes whose length byte decrypts to 2: the second password byte is the
    second salt byte. *)
Lemma tunnel_decode_stale_byte_witness :
  exists C buf,
    length C = 2%nat /\
    fr_radius_decode_tunnel_password (ctx := fr_md5_ctx_local_t) ([128; 1] ++ C ++ [])
      (length C + 2) example_pw_secret example_vector false = Some (inr (buf, length C)) /\
    buf !! 1%nat = Some 1.
Proof.
  set (C := [Z.lxor 2 (hd 0 (md5_spec (example_pw_secret ++ example_vector ++ [128; 1]))); 9]).
  exists C. destruct (tunnel_decode_stale_byte [128; 1] C [] example_pw_secret example_vector)
    as (buf & H1 & H2); [simpl; lia|done|done|simpl; lia|vm_compute; reflexivity|].
  exists buf. split; [done|]. split; [exact H1|exact H2].
Defined.
