(* ===== verification/RadiusTlv.v ===== *)
(** * Nested TLVs: [fr_radius_decode_tlv_ok] of [protocols/radius/decode.c]

    The check made before vendor-specific and nested attributes are decoded: the
    data must be a sequence of TLVs with type fields of [dv_type] bytes and length
    fields of [dv_length] bytes.  [None] is a read outside the data. *)
From S2P Require Import Prelude Bytes.

Inductive tlv_err :=
| TlvArguments | TlvHeaderOverflow | TlvZero | TlvTooLarge | TlvSanity | TlvLong
| TlvInvalidLength | TlvOverflow.

(** [switch (dv_type)]: the check of the type field at [data]. *)
Definition tlv_check_type (b : list Z) (data dv_type : nat) : option (option tlv_err) :=
  if decide (dv_type = 4)%nat then
    d0 ← rd b data; d1 ← rd b (data + 1); d2 ← rd b (data + 2); d3 ← rd b (data + 3);
    if decide (d0 = 0 /\ d1 = 0 /\ d2 = 0 /\ d3 = 0) then Some (Some TlvZero) else
    if decide (d0 <> 0) then Some (Some TlvTooLarge) else Some None
  else if decide (dv_type = 2)%nat then
    d0 ← rd b data; d1 ← rd b (data + 1);
    if decide (d0 = 0 /\ d1 = 0) then Some (Some TlvZero) else Some None
  else if decide (dv_type = 1)%nat then Some None
  else Some (Some TlvSanity).

(** [while (data < end) { ... }]; [inr ()] is [return 0]. *)
Fixpoint tlv_loop (fuel : nat) (b : list Z) (data endp length_ dv_type dv_length : nat)
    : option (tlv_err + unit) :=
  match fuel with
  | O => None
  | S fuel' =>
      if decide (data < endp)%nat then
        if decide (endp < data + dv_type + dv_length)%nat then Some (inl TlvHeaderOverflow) else
        t ← tlv_check_type b data dv_type;
        match t with
        | Some e => Some (inl e)
        | None =>
            let one_byte :=
              n ← rd b (data + (dv_type + dv_length - 1));
              let attrlen := Z.to_nat n in
              if decide (attrlen < dv_type + dv_length)%nat then Some (inl TlvInvalidLength) else
              if decide (length_ < attrlen)%nat then Some (inl TlvOverflow) else
              tlv_loop fuel' b (data + attrlen) endp (length_ - attrlen) dv_type dv_length in
            if decide (dv_length = 0)%nat then Some (inr ()) else
            if decide (dv_length = 2)%nat then
              h ← rd b (data + dv_type);
              if decide (h <> 0) then Some (inl TlvLong) else one_byte
            else if decide (dv_length = 1)%nat then one_byte
            else Some (inl TlvSanity)
        end
      else Some (inr ())
  end.

Definition fr_radius_decode_tlv_ok (b : list Z) (dv_type dv_length : nat)
    : option (tlv_err + unit) :=
  if decide (2 < dv_length \/ dv_type = 0 \/ 4 < dv_type)%nat then Some (inl TlvArguments)
  else tlv_loop (S (length b)) b 0 (length b) (length b) dv_type dv_length.

(** ** What the check accepts *)

(** The type fields allowed for each width. *)
Definition tlv_type_ok (dv_type : nat) (t : list Z) : Prop :=
  length t = dv_type /\
  match dv_type with
  | 4%nat => t !! 0%nat = Some 0 /\ t <> [0; 0; 0; 0]
  | 2%nat => t <> [0; 0]
  | 1%nat => True
  | _ => False
  end.

(** One TLV: type field and value; the length counts the whole TLV. *)
Definition tlv_enc (dv_length : nat) (tv : list Z * list Z) : list Z :=
  let n := Z.of_nat (length tv.1 + dv_length + length tv.2) in
  tv.1 ++ replicate (dv_length - 1) 0 ++ n :: tv.2.

Definition tlv_wf (dv_type dv_length : nat) (tv : list Z * list Z) : Prop :=
  tlv_type_ok dv_type tv.1 /\ (dv_type + dv_length + length tv.2 <= 255)%nat.

Lemma length_tlv_enc dv_length tv :
  (1 <= dv_length)%nat ->
  length (tlv_enc dv_length tv) = (length tv.1 + dv_length + length tv.2)%nat.
Proof.
  intros H. unfold tlv_enc. rewrite !length_app, length_replicate. simpl. lia.
Qed.

Lemma tlv_check_type_spec b data dv_type :
  (1 <= dv_type <= 4)%nat -> (data + dv_type <= length b)%nat ->
  exists r, tlv_check_type b data dv_type = Some r /\
    (r = None <-> tlv_type_ok dv_type (slice data dv_type b)).
Proof.
  intros Ht Hl. unfold tlv_check_type, tlv_type_ok, rd.
  pose proof (length_slice data dv_type b Hl) as Hs.
  assert (Hget : forall i, (i < dv_type)%nat ->
    exists x, b !! (data + i)%nat = Some x /\ slice data dv_type b !! i = Some x).
  { intros i Hi. destruct (lookup_lt_is_Some_2 b (data + i)) as [x Ex]; [lia|].
    exists x. split; [done|]. by rewrite lookup_slice. }
  destruct (decide (dv_type = 4)%nat) as [->|H4].
  { destruct (Hget 0%nat) as (d0 & E0 & S0); [lia|]. destruct (Hget 1%nat) as (d1 & E1 & S1); [lia|].
    destruct (Hget 2%nat) as (d2 & E2 & S2); [lia|]. destruct (Hget 3%nat) as (d3 & E3 & S3); [lia|].
    rewrite Nat.add_0_r in E0. rewrite E0, E1, E2, E3. cbn [mbind option_bind].
    assert (Esl : slice data 4 b = [d0; d1; d2; d3]).
    { destruct (slice data 4 b) as [|x0 [|x1 [|x2 [|x3 [|]]]]]; simpl in *; try lia. congruence. }
    rewrite Esl. case_decide as Hz.
    - destruct Hz as (-> & -> & -> & ->). eexists. split; [done|]. split; [done|]. by intros (_ & _ & []).
    - case_decide as Hd; (eexists; split; [done|]; split; try done).
      + intros (_ & [= ->] & _). done.
      + intros _. split; [done|]. split; [simpl; f_equal; lia|]. intros [= -> -> -> ->]. tauto. }
  destruct (decide (dv_type = 2)%nat) as [->|H2].
  { destruct (Hget 0%nat) as (d0 & E0 & S0); [lia|]. destruct (Hget 1%nat) as (d1 & E1 & S1); [lia|].
    rewrite Nat.add_0_r in E0. rewrite E0, E1. cbn [mbind option_bind].
    assert (Esl : slice data 2 b = [d0; d1]).
    { destruct (slice data 2 b) as [|x0 [|x1 [|]]]; simpl in *; try lia. congruence. }
    rewrite Esl. case_decide as Hz.
    - destruct Hz as (-> & ->). eexists. split; [done|]. split; [done|]. by intros (_ & []).
    - eexists. split; [done|]. split; [|done]. intros _. split; [done|].
      intros [= -> ->]. tauto. }
  destruct (decide (dv_type = 1)%nat) as [->|H1].
  { eexists. split; [done|]. done. }
  eexists. split; [done|]. split; [done|]. intros [_ H'].
  by destruct dv_type as [|[|[|[|[|]]]]]; try lia.
Qed.

(** A TLV header at the start of [l]. *)
Lemma tlv_header (l : list Z) dv_type dv_length :
  (1 <= dv_length)%nat -> (dv_type + dv_length <= length l)%nat ->
  exists t h n r, l = t ++ h ++ n :: r /\ length t = dv_type /\ length h = (dv_length - 1)%nat.
Proof.
  intros H1 Hl. destruct (lookup_lt_is_Some_2 l (dv_type + (dv_length - 1))) as [n En]; [lia|].
  exists (take dv_type l), (take (dv_length - 1) (drop dv_type l)), n,
    (drop (S (dv_type + (dv_length - 1))) l).
  rewrite !length_take, length_drop. split; [|lia].
  rewrite <- (drop_S l n _ En), <- drop_drop.
  by rewrite !take_drop.
Qed.

(** Which TLV sequences start with that header. *)
Lemma tlv_enc_inv dv_length tv (X t h r : list Z) n :
  tlv_enc dv_length tv ++ X = t ++ h ++ n :: r -> length tv.1 = length t ->
  length h = (dv_length - 1)%nat ->
  tv.1 = t /\ h = replicate (dv_length - 1) 0 /\
  n = Z.of_nat (length t + dv_length + length tv.2) /\ r = tv.2 ++ X.
Proof.
  unfold tlv_enc. rewrite <- !app_assoc. intros E Ht Hh.
  apply app_inj_1 in E as [E1 E]; [|done]. apply app_inj_1 in E as [E2 E];
    [|rewrite length_replicate; lia].
  simpl in E. injection E as En Er. rewrite <- E1. by subst.
Qed.

(** [l] is a sequence of TLVs. *)
Definition tlv_seq (dv_type dv_length : nat) (l : list Z) : Prop :=
  exists tvs, Forall (tlv_wf dv_type dv_length) tvs /\ l = concat (map (tlv_enc dv_length) tvs).

Lemma tlv_seq_inv dv_type dv_length (t h r : list Z) n :
  (1 <= dv_length)%nat -> length t = dv_type -> length h = (dv_length - 1)%nat ->
  tlv_seq dv_type dv_length (t ++ h ++ n :: r) ->
  exists v rest, tlv_wf dv_type dv_length (t, v) /\ h = replicate (dv_length - 1) 0 /\
    n = Z.of_nat (length t + dv_length + length v) /\ r = v ++ rest /\
    tlv_seq dv_type dv_length rest.
Proof.
  intros H1 Lt Lh (tvs & Hwf & E). destruct tvs as [|tv tvs].
  { apply (f_equal length) in E. rewrite !length_app in E. simpl in E. lia. }
  apply Forall_cons_1 in Hwf as [Hw Hwf]. pose proof Hw as [[Htl _] _].
  simpl in E. symmetry in E. apply tlv_enc_inv in E as (E1 & E2 & E3 & E4); [|congruence|done].
  exists tv.2, (concat (map (tlv_enc dv_length) tvs)). destruct tv as [tt v]. simpl in *. subst tt.
  split_and!; try done. by exists tvs.
Qed.

(** A sequence of TLVs is a TLV followed by one. *)
Lemma tlv_seq_step dv_type dv_length (t r : list Z) n
    (k := (Z.to_nat n - (dv_type + dv_length))%nat) :
  (1 <= dv_length)%nat -> length t = dv_type -> tlv_type_ok dv_type t -> 0 <= n < 256 ->
  (dv_type + dv_length <= Z.to_nat n)%nat -> (k <= length r)%nat ->
  tlv_seq dv_type dv_length (t ++ replicate (dv_length - 1) 0 ++ n :: r) <->
  tlv_seq dv_type dv_length (drop k r).
Proof.
  intros H1 Lt Htok Hn Hlow Hk. split.
  - intros Hs. apply tlv_seq_inv in Hs as (v & rest & _ & _ & En & -> & Hs);
      [|done|done|apply length_replicate].
    rewrite drop_app_length'; [done|]. unfold k. lia.
  - intros (tvs & Hwf & E). exists ((t, take k r) :: tvs).
    assert (Lk : length (take k r) = k) by (rewrite length_take; lia).
    split; [constructor; [|done]; split; [done|]; cbn [snd]; unfold k in *; lia|].
    simpl. rewrite <- E. unfold tlv_enc. cbn [fst snd].
    rewrite <- !app_assoc. do 2 f_equal. simpl. rewrite take_drop. f_equal.
    rewrite Lk. unfold k. lia.
Qed.

(** The checks on the length byte [n] of a header [t ++ h], and the TLVs after it. *)
Lemma tlv_length_iff dv_type dv_length b fuel data t h n r :
  drop data b = t ++ h ++ n :: r -> length t = dv_type -> h = replicate (dv_length - 1) 0 ->
  (1 <= dv_type)%nat -> (1 <= dv_length)%nat -> tlv_type_ok dv_type t -> 0 <= n < 256 ->
  (data <= length b)%nat ->
  (forall next, (data < next <= length b)%nat -> exists res,
     tlv_loop fuel b next (length b) (length b - next) dv_type dv_length = Some res /\
     (res = inr () <-> tlv_seq dv_type dv_length (drop next b))) ->
  exists res,
    (if decide (Z.to_nat n < dv_type + dv_length)%nat then Some (inl TlvInvalidLength) else
     if decide (length b - data < Z.to_nat n)%nat then Some (inl TlvOverflow) else
     tlv_loop fuel b (data + Z.to_nat n) (length b) (length b - data - Z.to_nat n)
       dv_type dv_length) = Some res /\
    (res = inr () <-> tlv_seq dv_type dv_length (t ++ h ++ n :: r)).
Proof.
  intros El Lt Eh Ht Hdl Htok Hn Hd IH.
  assert (Lh : length h = (dv_length - 1)%nat) by (rewrite Eh; apply length_replicate).
  pose proof (tlv_seq_inv dv_type dv_length t h r n Hdl Lt Lh) as Hinv.
  assert (Lr : (length r + (dv_type + dv_length) = length b - data)%nat).
  { apply (f_equal length) in El. rewrite length_drop, !length_app in El. simpl in El. lia. }
  destruct (decide (Z.to_nat n < _)%nat) as [Hsm|Hsm].
  { eexists. split; [done|]. split; [done|]. intros Hs.
    destruct (Hinv Hs) as (v & _ & _ & _ & -> & _). lia. }
  destruct (decide (length b - data < _)%nat) as [Hbig|Hbig].
  { eexists. split; [done|]. split; [done|]. intros Hs.
    destruct (Hinv Hs) as (v & rest & _ & _ & -> & -> & _). rewrite length_app in Lr. lia. }
  destruct (IH (data + Z.to_nat n)%nat) as (res & Hres & Hiff); [lia|].
  replace (length b - data - Z.to_nat n)%nat with (length b - (data + Z.to_nat n))%nat by lia.
  exists res. split; [done|]. rewrite Hiff, Eh, tlv_seq_step by (done || lia).
  rewrite <- drop_drop, El, app_assoc, drop_app_ge by (rewrite length_app; lia).
  rewrite length_app. by replace (Z.to_nat n - (length t + length h))%nat
    with (S (Z.to_nat n - (dv_type + dv_length))) by lia.
Qed.

(** The loop decides whether the rest of the data is a sequence of TLVs. *)
Lemma tlv_loop_iff dv_type dv_length b fuel : forall data,
  bytes_ok b -> (1 <= dv_type <= 4)%nat -> (1 <= dv_length <= 2)%nat ->
  (data <= length b)%nat -> (length b - data < fuel)%nat ->
  exists r, tlv_loop fuel b data (length b) (length b - data) dv_type dv_length = Some r /\
    (r = inr () <-> tlv_seq dv_type dv_length (drop data b)).
Proof.
  induction fuel as [|fuel IH]; intros data Hb Ht Hdl Hd Hf; [lia|]. cbn [tlv_loop].
  destruct (decide (data < length b)%nat) as [Hlt|Hge]; cycle 1.
  { eexists. split; [done|]. split; [|done]. intros _. exists []. split; [constructor|].
    by rewrite drop_ge by lia. }
  destruct (decide (length b < data + dv_type + dv_length)%nat) as [Hov|Hok].
  { eexists. split; [done|]. split; [done|]. intros (tvs & Hwf & E).
    apply (f_equal length) in E. rewrite length_drop in E.
    destruct tvs as [|tv tvs]; simpl in E; [lia|].
    apply Forall_cons_1 in Hwf as [[[Htl _] _] _].
    rewrite length_app, length_tlv_enc in E by lia. lia. }
  destruct (tlv_check_type_spec b data dv_type Ht) as (tc & -> & Htc); [lia|].
  cbn [mbind option_bind].
  destruct (tlv_header (drop data b) dv_type dv_length) as (t & h & n & r & El & Lt & Lh);
    [lia|rewrite length_drop; lia|].
  assert (Hget : forall i x, (t ++ h ++ n :: r) !! i = Some x -> b !! (data + i)%nat = Some x)
    by (intros i x Hx; by rewrite <- El, lookup_drop in Hx).
  assert (Et : slice data dv_type b = t) by (unfold slice; by rewrite El, take_app_length').
  pose proof (tlv_seq_inv dv_type dv_length t h r n ltac:(lia) Lt Lh) as Hinv.
  rewrite Et in Htc. rewrite El. destruct tc as [e|].
  { eexists. split; [done|]. split; [done|]. intros Hs.
    destruct (Hinv Hs) as (v & _ & [Htok _] & _). by apply Htc in Htok. }
  assert (Hn : rd b (data + (dv_type + dv_length - 1)) = Some n).
  { apply Hget. rewrite app_assoc, lookup_app_r by (rewrite length_app; lia).
    rewrite length_app. by replace (_ - _)%nat with 0%nat by lia. }
  pose proof (bytes_ok_lookup _ _ _ Hb Hn) as Hnb. unfold byte_ok in Hnb.
  rewrite (decide_False (P := dv_length = 0%nat)) by lia. rewrite Hn. cbn [mbind option_bind].
  assert (Hone : h = replicate (dv_length - 1) 0 -> _)
    by (intros Eh; apply (tlv_length_iff dv_type dv_length b fuel data t h n r El Lt Eh);
        [lia|lia|by apply Htc|done|done|intros next Hnext; apply IH; done || lia]).
  destruct (decide (dv_length = 2)%nat) as [E2|E2].
  - destruct h as [|h0 [|]]; simpl in Lh; try lia.
    assert (Hh : rd b (data + dv_type) = Some h0).
    { apply Hget. rewrite lookup_app_r by lia. by rewrite Lt, Nat.sub_diag. }
    rewrite Hh. cbn [mbind option_bind]. destruct (decide (h0 <> 0)) as [Hh0|Hh0].
    { eexists. split; [done|]. split; [done|]. intros Hs.
      destruct (Hinv Hs) as (v & _ & _ & Eh & _). rewrite E2 in Eh. by injection Eh. }
    apply Hone. rewrite E2. simpl. f_equal. lia.
  - rewrite (decide_True (P := dv_length = 1%nat)) by lia. apply Hone.
    assert (E1 : dv_length = 1%nat) by lia. rewrite E1 in *. simpl in *. by destruct h.
Qed.

(** [fr_radius_decode_tlv_ok] accepts exactly the data that is a sequence of TLVs
    filling it to the last byte: non-zero types (zero is allowed in one-byte types,
    and four-byte types stay below 2^24), length fields that count the whole TLV
    and fit in a byte.  It always returns and never reads outside the data. *)
Theorem tlv_ok_iff b dv_type dv_length :
  bytes_ok b -> (1 <= dv_type <= 4)%nat -> (1 <= dv_length <= 2)%nat ->
  exists r, fr_radius_decode_tlv_ok b dv_type dv_length = Some r /\
    (r = inr () <-> tlv_seq dv_type dv_length b).
Proof.
  intros Hb Ht Hl. unfold fr_radius_decode_tlv_ok. rewrite decide_False by lia.
  destruct (tlv_loop_iff dv_type dv_length b (S (length b)) 0 Hb Ht Hl) as (r & Hr & Hiff); [lia..|].
  rewrite Nat.sub_0_r in Hr. exists r. by rewrite drop_0 in Hiff.
Qed.

Lemma tlv_ok_iff_witness :
  exists r, fr_radius_decode_tlv_ok [0; 7; 0; 6; 1; 2; 0; 1; 0; 4] 2 2 = Some r /\
    (r = inr () <-> tlv_seq 2 2 [0; 7; 0; 6; 1; 2; 0; 1; 0; 4]).
Proof.
  apply tlv_ok_iff; [by apply (bool_decide_unpack _); vm_compute|lia|lia].
Defined.
