(* ===== verification/Totp.v ===== *)
(** * One-time passwords: [modules/rlm_totp/rlm_totp.c]

    The whole module: the in-place RFC 4648 base32 decoder of the shared secret, the
    RFC 6238 comparison, and the authentication method.  Buffers are byte lists with
    partial reads and writes, so [Some _] results are memory-safety results. *)
From S2P Require Import Prelude Bytes BlockHash Sha1 Hmac.

Definition TIME_STEP : Z := 30.

(** ** [base32_decode] *)

(** [alphabet[UINT8_MAX]]: 255 entries; 1 to 26 for ['A'] to ['Z'], 27 to 32 for
    ['2'] to ['7']. *)
Definition alphabet : list Z :=
  replicate 50 0 ++ map Z.of_nat (seq 27 6) ++ replicate 9 0 ++
  map Z.of_nat (seq 1 26) ++ replicate 164 0.

(** [for (q = in; *q != '\0'; q++) { ... }]: [inr (p, out)] when the loop ends with
    [p] symbols stored, [inl out] for [return -1]. *)
Fixpoint b32_symbols (q out : list Z) (p outlen : nat) : option (list Z + nat * list Z) :=
  match q with
  | [] => None
  | c :: q' =>
      if decide (c = 0) then Some (inr (p, out))
      else if decide (c = 61) then Some (inr (p, out))
      else
        a ← alphabet !! Z.to_nat c;
        if decide (a = 0) then Some (inl out)
        else
          out ← wr_slice p [u8 (a - 1)] out;
          if decide (S p = outlen) then Some (inl out)
          else b32_symbols q' out (S p) outlen
  end.

(** [out[dst] = out[src] << sh] and [out[dst] |= out[src] << sh]; a negative [sh] is
    a right shift. *)
Definition b32_set (dst src : nat) (sh : Z) (out : list Z) : option (list Z) :=
  x ← rd out src; wr_slice dst [u8 (Z.shiftl x sh)] out.
Definition b32_or (dst src : nat) (sh : Z) (out : list Z) : option (list Z) :=
  x ← rd out src; o ← rd out dst; wr_slice dst [u8 (Z.lor o (Z.shiftl x sh))] out.

(** The body of the regrouping loop, for the pointers [p] and [b]. *)
Definition b32_block (p b : nat) (out : list Z) : option (list Z) :=
  out ← b32_set b p 3 out;
  out ← b32_or b (p + 1) (-2) out;
  out ← b32_set (b + 1) (p + 1) 6 out;
  out ← b32_or (b + 1) (p + 2) 1 out;
  out ← b32_or (b + 1) (p + 3) (-4) out;
  out ← b32_set (b + 2) (p + 3) 4 out;
  out ← b32_or (b + 2) (p + 4) (-1) out;
  out ← b32_set (b + 3) (p + 4) 7 out;
  out ← b32_or (b + 3) (p + 5) 2 out;
  out ← b32_or (b + 3) (p + 6) (-3) out;
  out ← b32_set (b + 4) (p + 6) 5 out;
  out ← b32_or (b + 4) (p + 7) 0 out;
  wr_slice (b + 5) [0; 0; 0] out.

(** [for (p = b = out; p < end; p += 8)]: the final [b] and the buffer. *)
Fixpoint b32_regroup (fuel p b end_ : nat) (out : list Z) : option (nat * list Z) :=
  match fuel with
  | O => None
  | S fuel' =>
      if decide (p < end_)%nat then
        out ← b32_block p b out; b32_regroup fuel' (p + 8) (b + 5) end_ out
      else Some (b, out)
  end.

(** The return value and the buffer left behind.  [outlen] turns of the second loop
    are more than enough: [p] grows by eight. *)
Definition base32_decode (out : list Z) (outlen : nat) (inp : list Z) : option (Z * list Z) :=
  out ← wr_zero 0 outlen out;
  r ← b32_symbols inp out 0 outlen;
  match r with
  | inl out => Some (-1, out)
  | inr (end_, out) =>
      '(b, out) ← b32_regroup (S outlen) 0 0 end_ out;
      Some (Z.of_nat b, out)
  end.

(** ** [totp_cmp] *)

Definition LEN : nat := 6.
Definition DIV : Z := 1000000.

(** [snprintf(buffer, sizeof(buffer), "%06u", n)] with [char buffer[9]]: the decimal
    digits, most significant first, zero-padded to six, cut to eight, and the
    terminating NUL. *)
Fixpoint dec_digits (fuel : nat) (n : Z) (acc : list Z) : list Z :=
  match fuel with
  | O => acc
  | S fuel' =>
      let acc := (48 + n mod 10) :: acc in
      if decide (n / 10 = 0) then acc else dec_digits fuel' (n / 10) acc
  end.
Definition snprintf_06u (size : nat) (n : Z) : list Z :=
  let ds := dec_digits 10 n [] in
  take (size - 1) (replicate (6 - length ds) 48 ++ ds) ++ [0].

(** [tctx] and [ctx] are the uninitialised contexts of [fr_hmac_sha1]. *)
Definition totp_cmp (tctx ctx : fr_sha1_ctx) (now : Z) (key totp : list Z) : option Z :=
  let padded := u64 now / TIME_STEP in
  let data := [u8 (Z.shiftr padded 56); u8 (Z.shiftr padded 48); u8 (Z.shiftr padded 40);
               u8 (Z.shiftr padded 32); u8 (Z.shiftr padded 24); u8 (Z.shiftr padded 16);
               u8 (Z.shiftr padded 8); u8 (Z.land padded 0xff)] in
  let digest := fr_hmac_sha1 tctx ctx data key in
  last ← rd digest 19;
  let offset := Z.to_nat (Z.land last 0x0f) in
  d0 ← rd digest offset;
  d1 ← rd digest (offset + 1);
  d2 ← rd digest (offset + 2);
  d3 ← rd digest (offset + 3);
  let challenge := shl32 (Z.land d0 0x7f) 24 in
  let challenge := Z.lor challenge (shl32 d1 16) in
  let challenge := Z.lor challenge (shl32 d2 8) in
  let challenge := Z.lor challenge d3 in
  fr_digest_cmp (snprintf_06u 9 (challenge mod DIV)) totp 0 LEN.

(** ** [mod_authenticate] *)

(** The return codes of [lib/server/rcode.h]. *)
Inductive rlm_rcode_t :=
  | RLM_MODULE_REJECT | RLM_MODULE_FAIL | RLM_MODULE_OK | RLM_MODULE_HANDLED
  | RLM_MODULE_INVALID | RLM_MODULE_DISALLOW | RLM_MODULE_NOTFOUND | RLM_MODULE_NOOP
  | RLM_MODULE_UPDATED | RLM_MODULE_NUMCODES | RLM_MODULE_NOT_SET.

(** The attributes the module names, any other, and pairs of attribute and value. *)
Inductive totp_attr := attr_totp_secret | attr_totp_key | attr_totp_user_password | attr_other.
#[global] Instance totp_attr_eq_dec : EqDecision totp_attr.
Proof. solve_decision. Defined.

Record request_t := Request {
  request_pairs : list (totp_attr * list Z);
  control_pairs : list (totp_attr * list Z);
  timestamp : Z
}.

(** The value of the first pair of the attribute. *)
Definition fr_pair_find_by_da (l : list (totp_attr * list Z)) (da : totp_attr)
    : option (list Z) :=
  snd <$> head (filter (fun vp => vp.1 = da) l).

(** [buffer] is the uninitialised [uint8_t buffer[80]].  String values are stored with
    a terminating NUL. *)
Definition mod_authenticate (tctx ctx : fr_sha1_ctx) (buffer : list Z) (request : request_t)
    : option rlm_rcode_t :=
  match fr_pair_find_by_da (request_pairs request) attr_totp_user_password with
  | None => Some RLM_MODULE_NOOP
  | Some password =>
      if decide (length password <> 6%nat) then Some RLM_MODULE_FAIL
      else
        let compare key :=
          r ← totp_cmp tctx ctx (timestamp request) key (password ++ [0]);
          Some (if decide (r <> 0) then RLM_MODULE_FAIL else RLM_MODULE_OK) in
        match fr_pair_find_by_da (control_pairs request) attr_totp_key with
        | Some key => compare key
        | None =>
            match fr_pair_find_by_da (control_pairs request) attr_totp_secret with
            | None => Some RLM_MODULE_NOOP
            | Some secret =>
                '(len, buffer) ← base32_decode buffer 80 (secret ++ [0]);
                if decide (len < 0) then Some RLM_MODULE_FAIL
                else compare (take (Z.to_nat len) buffer)
            end
        end
  end.

(** ** References *)

(** RFC 4648, section 6: five octets as eight 5-bit symbols. *)
Definition b32_enc5 (g : list Z) : list Z :=
  let b i := g !!! i in
  [Z.shiftr (b 0%nat) 3;
   Z.lor (Z.shiftl (Z.land (b 0%nat) 7) 2) (Z.shiftr (b 1%nat) 6);
   Z.land (Z.shiftr (b 1%nat) 1) 31;
   Z.lor (Z.shiftl (Z.land (b 1%nat) 1) 4) (Z.shiftr (b 2%nat) 4);
   Z.lor (Z.shiftl (Z.land (b 2%nat) 15) 1) (Z.shiftr (b 3%nat) 7);
   Z.land (Z.shiftr (b 3%nat) 2) 31;
   Z.lor (Z.shiftl (Z.land (b 3%nat) 3) 3) (Z.shiftr (b 4%nat) 5);
   Z.land (b 4%nat) 31].

Definition b32_char (s : Z) : Z := if decide (s < 26) then 65 + s else 24 + s.

(** A last group of one to four octets is zero-filled; two, four, five or seven of its
    symbols are written, then ['=']. *)
Definition b32_count (r : nat) : nat :=
  match r with 0%nat => 0 | 1%nat => 2 | 2%nat => 4 | 3%nat => 5 | 4%nat => 7 | _ => 8 end.

Fixpoint rfc4648_symbols (n : nat) (l : list Z) : list Z :=
  match n with
  | O => take (b32_count (length l)) (b32_enc5 (l ++ replicate (5 - length l) 0))
  | S n' => b32_enc5 (take 5 l) ++ rfc4648_symbols n' (drop 5 l)
  end.
Definition rfc4648_base32 (l : list Z) : list Z :=
  let syms := rfc4648_symbols (length l / 5) l in
  map b32_char syms ++ replicate ((8 - length syms mod 8) mod 8) 61.

(** RFC 4226 dynamic truncation and RFC 6238, six digits, SHA-1. *)
Definition be_value (l : list Z) : Z := foldl (fun v b => 256 * v + b) 0 l.
Definition be64 (n : Z) : list Z :=
  map (fun i => n / 256 ^ i mod 256) [7; 6; 5; 4; 3; 2; 1; 0].
Definition hotp_truncate (hs : list Z) : Z :=
  let offset := Z.to_nat (hs !!! 19%nat mod 16) in
  be_value (slice offset 4 hs) mod 2 ^ 31 mod 10 ^ 6.
Definition hotp (key : list Z) (counter : Z) : Z :=
  hotp_truncate (hmac_spec sha1_spec key (be64 counter)).
Definition six_digits (n : Z) : list Z :=
  map (fun k => 48 + n / 10 ^ k mod 10) [5; 4; 3; 2; 1; 0].
Definition rfc6238_totp (key : list Z) (time : Z) : list Z :=
  six_digits (hotp key (time / 30)).

(** ** The decoder *)

(** One block decoded on its own. *)
Definition b32_dec8 (s : list Z) : list Z :=
  let p i := s !!! i in
  let set i sh := u8 (Z.shiftl (p i) sh) in
  let or o i sh := u8 (Z.lor o (Z.shiftl (p i) sh)) in
  [or (set 0%nat 3) 1%nat (-2);
   or (or (set 1%nat 6) 2%nat 1) 3%nat (-4);
   or (set 3%nat 4) 4%nat (-1);
   or (or (set 4%nat 7) 5%nat 2) 6%nat (-3);
   or (set 6%nat 5) 7%nat 0].

Lemma inserts_app (b : nat) (vals ws l : list Z) :
  (b + length vals + length ws <= length l)%nat ->
  list_inserts (b + length vals) ws (list_inserts b vals l) = list_inserts b (vals ++ ws) l.
Proof.
  intros H. apply list_eq. intros i.
  destruct (decide (i < b)%nat); [by rewrite !list_lookup_inserts_lt by lia|].
  destruct (decide (i < b + length vals)%nat).
  { rewrite list_lookup_inserts_lt, !list_lookup_inserts by (rewrite ?length_app; lia).
    by rewrite lookup_app_l by lia. }
  destruct (decide (i < b + length vals + length ws)%nat).
  - rewrite !list_lookup_inserts by (rewrite ?length_inserts, ?length_app; lia).
    rewrite lookup_app_r by lia. f_equal. lia.
  - by rewrite !list_lookup_inserts_ge by (rewrite ?length_app; lia).
Qed.

Lemma inserts_snoc (b : nat) (vals l : list Z) v :
  (b + length vals < length l)%nat ->
  wr_slice (b + length vals) [v] (list_inserts b vals l) = Some (list_inserts b (vals ++ [v]) l).
Proof.
  intros H. rewrite wr_slice_Some by (cbn [length]; rewrite length_inserts; lia). f_equal.
  apply inserts_app. cbn [length]. lia.
Qed.

Lemma inserts_last (b : nat) (vals l : list Z) w v :
  (b + length vals < length l)%nat ->
  rd (list_inserts b (vals ++ [w]) l) (b + length vals) = Some w /\
  wr_slice (b + length vals) [v] (list_inserts b (vals ++ [w]) l) =
    Some (list_inserts b (vals ++ [v]) l).
Proof.
  intros H. split.
  - unfold rd. rewrite list_lookup_inserts by (rewrite ?length_app; simpl; lia).
    rewrite lookup_app_r by lia. by replace (b + length vals - b - length vals)%nat with 0%nat by lia.
  - pose proof (inserts_snoc b vals l w H) as E1.
    pose proof (inserts_snoc b vals l v H) as E2.
    apply wr_slice_inv in E1 as [Hl ->], E2 as [Hl' ->].
    rewrite wr_slice_Some by (cbn [length]; rewrite !length_inserts; lia).
    f_equal. apply inserts_inserts_same. done.
Qed.

(** A statement of the block reads a byte the block has not written yet. *)
Lemma b32_set_step (dst b src : nat) sh (vals l : list Z) :
  dst = (b + length vals)%nat -> (dst <= src < length l)%nat ->
  b32_set dst src sh (list_inserts b vals l) =
    Some (list_inserts b (vals ++ [u8 (Z.shiftl (l !!! src) sh)]) l).
Proof.
  intros -> Hs. unfold b32_set, rd.
  rewrite list_lookup_inserts_ge, list_lookup_lookup_total_lt by lia. apply inserts_snoc. lia.
Qed.

Lemma b32_or_step (dst b src : nat) sh (vals l : list Z) :
  vals <> [] -> S dst = (b + length vals)%nat -> (dst < src < length l)%nat ->
  b32_or dst src sh (list_inserts b vals l) =
    Some (list_inserts b (removelast vals ++
      [u8 (Z.lor (List.last vals 0) (Z.shiftl (l !!! src) sh))]) l).
Proof.
  intros Hv Hd Hs. unfold b32_or.
  assert (Er : rd (list_inserts b vals l) src = Some (l !!! src)).
  { unfold rd. by rewrite list_lookup_inserts_ge, list_lookup_lookup_total_lt by lia. }
  rewrite Er. cbn [mbind option_bind].
  pose proof (app_removelast_last 0 Hv) as E.
  assert (Hd' : dst = (b + length (removelast vals))%nat).
  { rewrite E, length_app in Hd. cbn [length] in Hd. lia. }
  destruct (inserts_last b (removelast vals) l (List.last vals 0)
    (u8 (Z.lor (List.last vals 0) (Z.shiftl (l !!! src) sh)))) as [E1 E2]; [lia|].
  rewrite <- E in E1, E2. rewrite Hd', E1. exact E2.
Qed.

Ltac b32_step :=
  first [rewrite b32_set_step by (cbn [length]; lia)
        |rewrite b32_or_step by (done || cbn [length]; lia)];
  cbn [mbind option_bind app removelast List.last].

Lemma b32_block_spec p b out :
  (b <= p)%nat -> (p + 8 <= length out)%nat ->
  b32_block p b out = Some (list_inserts b (b32_dec8 (slice p 8 out) ++ [0; 0; 0]) out).
Proof.
  intros Hb Hp. assert (Hx : forall i, (i < 8)%nat -> slice p 8 out !!! i = out !!! (p + i)%nat).
  { intros i Hi. rewrite !list_lookup_total_alt. by rewrite lookup_slice. }
  unfold b32_block, b32_dec8. rewrite !Hx, Nat.add_0_r by lia.
  change out with (list_inserts b [] out) at 1. do 12 b32_step.
  match goal with |- wr_slice _ _ (list_inserts _ ?v _) = _ => set (vals := v) end.
  rewrite wr_slice_Some by (cbn [length]; rewrite length_inserts; lia). f_equal.
  apply (inserts_app b vals). unfold vals. cbn [length]. lia.
Qed.

Lemma length_b32_dec8 s : length (b32_dec8 s) = 5%nat.
Proof. done. Qed.
Arguments b32_dec8 : simpl never.

(** The first loop stores the symbols in order, behind the [p] it has. *)
Definition is_b32 (c : Z) : Prop := 65 <= c <= 90 \/ 50 <= c <= 55.
#[global] Instance is_b32_dec c : Decision (is_b32 c).
Proof. unfold is_b32. apply _. Defined.
Definition b32_value (c : Z) : Z := if decide (65 <= c) then c - 65 else c - 24.

Lemma alphabet_lookup c :
  0 <= c < 255 ->
  alphabet !! Z.to_nat c = Some (if decide (is_b32 c) then b32_value c + 1 else 0).
Proof.
  intros Hc.
  assert (H : Forall (fun n => alphabet !! n =
    Some (if decide (is_b32 (Z.of_nat n)) then b32_value (Z.of_nat n) + 1 else 0)) (seq 0 255)).
  { by apply (bool_decide_unpack _); vm_compute. }
  rewrite list.Forall_forall in H. specialize (H (Z.to_nat c)). rewrite Z2Nat.id in H by lia.
  apply H. apply list_elem_of_In, in_seq. lia.
Qed.

Lemma b32_value_range c : is_b32 c -> 0 <= b32_value c < 32.
Proof. unfold is_b32, b32_value. case_decide; lia. Qed.

(** What ends the first loop. *)
Definition b32_stop (q : list Z) : Prop :=
  match q with c :: _ => c = 0 \/ c = 61 | [] => False end.

Lemma b32_symbols_ok cs q out p outlen :
  Forall is_b32 cs -> b32_stop q -> (p + length cs < outlen <= length out)%nat ->
  b32_symbols (cs ++ q) out p outlen =
    Some (inr ((p + length cs)%nat, list_inserts p (map b32_value cs) out)).
Proof.
  revert out p. induction cs as [|c cs IH]; intros out p Hcs Hq Hl.
  - cbn [app length map]. rewrite Nat.add_0_r. destruct q as [|c q]; [done|].
    cbn [b32_symbols]. destruct (decide (c = 0)); [done|].
    destruct (decide (c = 61)); [done|]. by destruct Hq.
  - apply list.Forall_cons in Hcs as [Hc Hcs]. cbn [length] in Hl.
    assert (Hr := b32_value_range c Hc).
    cbn [app b32_symbols]. rewrite !decide_False by (unfold is_b32 in Hc; lia).
    rewrite alphabet_lookup, decide_True by (done || unfold is_b32 in Hc; lia).
    cbn [mbind option_bind]. rewrite decide_False by lia.
    replace (b32_value c + 1 - 1) with (b32_value c) by lia.
    rewrite u8_small by lia. rewrite wr_slice_Some by (cbn [length]; lia).
    cbn [mbind option_bind]. rewrite decide_False by lia.
    rewrite IH by (done || rewrite length_inserts; lia).
    cbn [length map]. do 3 f_equal; [lia|].
    change (b32_value c :: map b32_value cs) with ([b32_value c] ++ map b32_value cs).
    rewrite <- (inserts_app p [b32_value c]) by (cbn [length]; rewrite length_map; lia).
    f_equal. cbn [length]. lia.
Qed.

(** [k] blocks of eight symbols decoded. *)
Fixpoint b32_blocks (k : nat) (s : list Z) : list Z :=
  match k with
  | O => []
  | S k' => b32_dec8 (take 8 s) ++ b32_blocks k' (drop 8 s)
  end.

Lemma length_b32_blocks k s : length (b32_blocks k s) = (5 * k)%nat.
Proof.
  revert s. induction k as [|k IH]; intros s; [done|].
  cbn [b32_blocks]. rewrite length_app, length_b32_dec8, IH. lia.
Qed.

Lemma take_inserts_split (b : nat) (v w out : list Z) :
  (b + length (v ++ w) <= length out)%nat ->
  take (b + length v) (list_inserts b (v ++ w) out) = take b out ++ v.
Proof.
  intros H. rewrite length_app in H. apply list_eq. intros i.
  destruct (decide (i < b + length v)%nat); cycle 1.
  { rewrite !lookup_ge_None_2; [done| |]; rewrite ?length_app, ?length_take, ?length_inserts; lia. }
  rewrite lookup_take_lt by done. destruct (decide (i < b)%nat).
  - rewrite list_lookup_inserts_lt, lookup_app_l, lookup_take_lt by (rewrite ?length_take; lia).
    done.
  - rewrite list_lookup_inserts by (rewrite ?length_app; lia).
    rewrite lookup_app_l, lookup_app_r by (rewrite ?length_take; lia).
    f_equal. rewrite length_take. lia.
Qed.

Lemma drop_inserts_ge (b p : nat) (v out : list Z) :
  (b + length v <= p)%nat -> drop p (list_inserts b v out) = drop p out.
Proof.
  intros H. apply list_eq. intros i. rewrite !lookup_drop.
  by rewrite list_lookup_inserts_ge by lia.
Qed.

Lemma b32_regroup_spec fuel p b end_ out (k := ((end_ - p + 7) / 8)%nat) :
  (b <= p)%nat -> (p + 8 * k <= length out)%nat -> (k < fuel)%nat ->
  exists out', b32_regroup fuel p b end_ out = Some ((b + 5 * k)%nat, out') /\
    take (b + 5 * k) out' = take b out ++ b32_blocks k (drop p out) /\
    length out' = length out.
Proof.
  revert p b out k. induction fuel as [|fuel IH]; intros p b out k Hb Hl Hf; [lia|].
  cbn [b32_regroup]. case_decide as Hp.
  - assert (Ek : k = S ((end_ - (p + 8) + 7) / 8)).
    { unfold k. destruct (decide (p + 8 <= end_)%nat).
      - replace (end_ - p + 7)%nat with (end_ - (p + 8) + 7 + 1 * 8)%nat by lia.
        rewrite Nat.div_add by lia. lia.
      - replace (end_ - (p + 8))%nat with 0%nat by lia.
        replace (end_ - p + 7)%nat with (end_ - p - 1 + 1 * 8)%nat by lia.
        rewrite Nat.div_add, Nat.div_small by lia. done. }
    rewrite b32_block_spec by lia. cbn [mbind option_bind].
    set (d := b32_dec8 (slice p 8 out)).
    assert (Ld : length (d ++ [0; 0; 0]) = 8%nat) by done.
    destruct (IH (p + 8)%nat (b + 5)%nat (list_inserts b (d ++ [0; 0; 0]) out))
      as (out' & E & Ht & L'); [lia|rewrite length_inserts; lia|lia|].
    exists out'. rewrite E. rewrite Ek. split; [do 2 f_equal; lia|].
    split; [|by rewrite L', length_inserts].
    replace (b + 5 * S ((end_ - (p + 8) + 7) / 8))%nat
      with (b + 5 + 5 * ((end_ - (p + 8) + 7) / 8))%nat by lia.
    rewrite Ht. change (b + 5)%nat with (b + length d)%nat.
    rewrite take_inserts_split, drop_inserts_ge by lia.
    cbn [b32_blocks]. rewrite drop_drop, <- app_assoc. done.
  - assert (Ek : k = 0%nat).
    { unfold k. replace (end_ - p)%nat with 0%nat by lia. done. }
    exists out. rewrite Ek, Nat.add_0_r. cbn [b32_blocks]. by rewrite app_nil_r.
Qed.

Lemma b32_blocks_app k s t :
  length s = (8 * k)%nat -> b32_blocks k (s ++ t) = b32_blocks k s.
Proof.
  revert s. induction k as [|k IH]; intros s Hs; [done|]. cbn [b32_blocks].
  rewrite take_app_le, drop_app_le, IH by (rewrite ?length_drop; lia). done.
Qed.

Lemma inserts_zeros n (v : list Z) :
  (length v <= n)%nat ->
  list_inserts 0 v (replicate n 0) = v ++ replicate (n - length v) 0.
Proof.
  intros H. replace n with (length v + (n - length v))%nat at 1 by lia.
  rewrite replicate_add, list_inserts_0_r; [done|]. by rewrite length_replicate.
Qed.

(** Symbols below the limit: the buffer holds the decoded blocks, zero-filled. *)
Lemma base32_decode_ok out cs q outlen (k := ((length cs + 7) / 8)%nat) :
  Forall is_b32 cs -> b32_stop q -> (outlen mod 8 = 0)%nat ->
  (length cs < outlen)%nat -> length out = outlen ->
  exists out', base32_decode out outlen (cs ++ q) = Some (Z.of_nat (5 * k), out') /\
    take (5 * k) out' =
      b32_blocks k (map b32_value cs ++ replicate (8 * k - length cs) 0) /\
    length out' = outlen.
Proof.
  intros Hcs Hq Ho Hl Hout. unfold base32_decode, wr_zero.
  rewrite wr_slice_Some by (rewrite length_replicate; lia). cbn [mbind option_bind].
  set (z := list_inserts 0 (replicate outlen 0) out).
  assert (Ez : z = replicate outlen 0).
  { unfold z. rewrite <- (app_nil_r out). rewrite list_inserts_0_r; [by rewrite app_nil_r|].
    by rewrite length_replicate. }
  rewrite b32_symbols_ok by (done || rewrite Ez, length_replicate; lia).
  cbn [mbind option_bind]. rewrite Nat.add_0_l.
  assert (Hk : (8 * k <= outlen)%nat).
  { unfold k. pose proof (Nat.div_mod_eq (length cs + 7) 8). pose proof (Nat.div_mod_eq outlen 8).
    lia. }
  assert (Hk2 : (length cs <= 8 * k)%nat).
  { unfold k. pose proof (Nat.div_mod_eq (length cs + 7) 8).
    assert ((length cs + 7) mod 8 < 8)%nat by (apply Nat.mod_upper_bound; lia). lia. }
  pose proof (b32_regroup_spec (S outlen) 0 0 (length cs)
    (list_inserts 0 (map b32_value cs) z)) as R.
  cbv zeta in R. rewrite Nat.sub_0_r in R. fold k in R.
  rewrite length_inserts, Ez, length_replicate, drop_0, inserts_zeros in R
    by (rewrite length_map; lia).
  destruct R as (out' & E & Ht & L'); [lia..|].
  rewrite Ez, inserts_zeros, E by (rewrite length_map; lia). exists out'.
  split; [done|]. split; [|done].
  rewrite Nat.add_0_l in Ht. rewrite Ht, length_map. cbn [take app].
  replace (outlen - length cs)%nat with (8 * k - length cs + (outlen - 8 * k))%nat by lia.
  rewrite replicate_add, app_assoc. apply b32_blocks_app.
  rewrite length_app, length_map, length_replicate. lia.
Qed.

(** ** Round trip with RFC 4648 *)

(** Evaluate the index of every bit test at a concrete position, and the tests of
    constants. *)
Ltac bit_index :=
  repeat match goal with
  | |- context [Z.testbit ?x ?e] =>
      lazymatch e with _ - _ => idtac | _ + _ => idtac end;
      let e' := eval vm_compute in e in change (Z.testbit x e) with (Z.testbit x e')
  end;
  repeat match goal with
  | |- context [Z.testbit (Zpos ?p) ?e] =>
      let v := eval vm_compute in (Z.testbit (Zpos p) e) in change (Z.testbit (Zpos p) e) with v
  end.

(** A byte equation, bit by bit; bits eight and above vanish on both sides. *)
Ltac byte_eq :=
  apply Z.bits_inj'; intros i Hi; unfold u8;
  destruct (decide (i < 8)) as [Hi8|Hi8];
  [ assert (Hc : i = 0 \/ i = 1 \/ i = 2 \/ i = 3 \/ i = 4 \/ i = 5 \/ i = 6 \/ i = 7) by lia;
    destruct Hc as [->|[->|[->|[->|[->|[->|[->| ->]]]]]]];
    repeat first
      [ rewrite Z.lor_spec | rewrite Z.land_spec | rewrite Z.mod_pow2_bits_low by lia
      | rewrite Z.shiftl_spec by lia | rewrite Z.shiftr_spec by lia
      | rewrite (Z.testbit_neg_r _ (_ - _)) by lia ];
    bit_index;
    repeat match goal with
    | |- context [Z.testbit ?x ?e] => rewrite (testbit_high 8 x e) by (unfold byte_ok in *; lia)
    end;
    repeat match goal with |- context [Z.testbit ?x ?e] => destruct (Z.testbit x e) end;
    reflexivity
  | rewrite Z.mod_pow2_bits_high by lia; by rewrite (testbit_high 8) by (unfold byte_ok in *; lia) ].

Lemma b32_dec8_enc5 b0 b1 b2 b3 b4 :
  bytes_ok [b0; b1; b2; b3; b4] ->
  b32_dec8 (b32_enc5 [b0; b1; b2; b3; b4]) = [b0; b1; b2; b3; b4].
Proof.
  unfold bytes_ok. rewrite !list.Forall_cons. intros (H0 & H1 & H2 & H3 & H4 & _).
  unfold b32_dec8, b32_enc5. cbn [lookup_total list_lookup_total].
  f_equal; [byte_eq|]. f_equal; [byte_eq|]. f_equal; [byte_eq|]. f_equal; [byte_eq|].
  f_equal. byte_eq.
Qed.

Lemma b32_char_value s : 0 <= s < 32 -> is_b32 (b32_char s) /\ b32_value (b32_char s) = s.
Proof. intros H. unfold is_b32, b32_value, b32_char. repeat case_decide; lia. Qed.

Lemma lor_5 a b : 0 <= a < 32 -> 0 <= b < 32 -> 0 <= Z.lor a b < 32.
Proof. apply (lor_range 5); lia. Qed.

Lemma b32_enc5_range g :
  bytes_ok g -> length g = 5%nat -> Forall (fun s => 0 <= s < 32) (b32_enc5 g).
Proof.
  intros Hg Hl. destruct g as [|b0 [|b1 [|b2 [|b3 [|b4 [|]]]]]]; try done. clear Hl.
  unfold bytes_ok in Hg. rewrite !list.Forall_cons in Hg.
  destruct Hg as (H0 & H1 & H2 & H3 & H4 & _). unfold byte_ok in *.
  assert (Hs : forall b k, 0 <= b < 256 -> 3 <= k -> 0 <= Z.shiftr b k < 32).
  { intros b k Hb Hk. rewrite Z.shiftr_div_pow2 by lia.
    assert (2 ^ 3 <= 2 ^ k) by (apply Z.pow_le_mono_r; lia).
    split; [apply Z.div_pos; lia|]. apply Z.div_lt_upper_bound; lia. }
  assert (Hm : forall x, 0 <= Z.land x 31 < 32).
  { intros x. change 31 with (Z.ones 5). rewrite Z.land_ones by lia. by apply Z.mod_pos_bound. }
  assert (Ho : forall x n k, 0 <= n -> 0 <= k -> n + k <= 5 ->
    0 <= Z.shiftl (Z.land x (Z.ones n)) k < 32).
  { intros x n k Hn Hk Hnk. rewrite Z.land_ones, Z.shiftl_mul_pow2 by lia.
    pose proof (Z.mod_pos_bound x (2 ^ n) ltac:(lia)).
    assert (2 ^ n * 2 ^ k = 2 ^ (n + k)) by (rewrite Z.pow_add_r by lia; done).
    assert (2 ^ (n + k) <= 2 ^ 5) by (apply Z.pow_le_mono_r; lia).
    assert (0 < 2 ^ k) by lia. nia. }
  unfold b32_enc5. cbn [lookup_total list_lookup_total].
  repeat (apply list.Forall_cons; split); try apply Forall_nil_2.
  all: try apply lor_5; try apply Hm; try (apply Hs; lia).
  - by apply (Ho b0 3 2).
  - by apply (Ho b1 1 4).
  - by apply (Ho b2 4 1).
  - by apply (Ho b3 2 3).
Qed.

(** The symbols a partial group drops are zero. *)
Lemma b32_enc5_tail l :
  (length l < 5)%nat ->
  take (b32_count (length l)) (b32_enc5 (l ++ replicate (5 - length l) 0)) ++
    replicate (8 - b32_count (length l)) 0 =
  b32_enc5 (l ++ replicate (5 - length l) 0) \/ l = [].
Proof.
  intros Hl. destruct l as [|b0 [|b1 [|b2 [|b3 [|b4 l]]]]]; simpl in Hl; try lia; [by right|..];
    left; unfold b32_enc5; cbn -[Z.lor Z.land Z.shiftl Z.shiftr];
    rewrite ?Z.land_0_l, ?Z.shiftl_0_l, ?Z.shiftr_0_l, ?Z.lor_0_r; done.
Qed.

(** Groups of a key: five octets each, the last one zero-filled. *)
Definition b32_groups (len : nat) : nat := ((len + 4) / 5)%nat.

Lemma b32_groups_small n : (0 < n <= 5)%nat -> b32_groups n = 1%nat.
Proof.
  intros H. unfold b32_groups. replace (n + 4)%nat with (n - 1 + 1 * 5)%nat by lia.
  rewrite Nat.div_add, Nat.div_small by lia. done.
Qed.

Lemma b32_groups_add n : (5 <= n)%nat -> b32_groups n = S (b32_groups (n - 5)).
Proof.
  intros H. unfold b32_groups. replace (n + 4)%nat with (n - 5 + 4 + 1 * 5)%nat by lia.
  rewrite Nat.div_add by lia. lia.
Qed.

Lemma dec8_enc5 g : bytes_ok g -> length g = 5%nat -> b32_dec8 (b32_enc5 g) = g.
Proof.
  intros Hg Hl. destruct g as [|b0 [|b1 [|b2 [|b3 [|b4 [|]]]]]]; try done.
  by apply b32_dec8_enc5.
Qed.

(** The symbols of a key, and what the decoder makes of them once zero-filled. *)
Lemma rfc4648_symbols_spec n l (k := b32_groups (length l)) (s := rfc4648_symbols n l) :
  bytes_ok l -> (length l / 5)%nat = n ->
  Forall (fun s => 0 <= s < 32) s /\
  ((length s + 7) / 8 = k)%nat /\ (length s <= 8 * k)%nat /\ (5 * length s <= 8 * length l + 4)%nat /\
  b32_blocks k (s ++ replicate (8 * k - length s) 0) = l ++ replicate (5 * k - length l) 0.
Proof.
  revert l k s. induction n as [|n IH]; intros l k s Hb Hn.
  - assert (Hl : (length l < 5)%nat) by (apply Nat.div_small_iff in Hn; lia).
    destruct (decide (l = [])) as [->|Hne]; [by repeat split; auto; simpl; lia|].
    destruct (b32_enc5_tail l Hl) as [Ht|]; [|done].
    assert (Hp : (0 < length l)%nat) by (destruct l; simpl in *; [done|lia]).
    assert (Hk : k = 1%nat) by (apply b32_groups_small; lia).
    set (g := l ++ replicate (5 - length l) 0) in *.
    assert (Lg : length g = 5%nat) by (unfold g; rewrite length_app, length_replicate; lia).
    assert (Hg : bytes_ok g) by (apply bytes_ok_app; auto with bytes).
    assert (Hc : (2 <= b32_count (length l) <= 8)%nat).
    { destruct l as [|? [|? [|? [|? [|]]]]]; simpl in *; lia. }
    assert (Ls : length s = b32_count (length l)).
    { unfold s. cbn [rfc4648_symbols]. rewrite length_take. change (length (b32_enc5 _)) with 8%nat. lia. }
    split; [by apply Forall_take, b32_enc5_range|].
    rewrite Ls, Hk. split; [|split; [lia|split]].
    + destruct l as [|? [|? [|? [|? [|]]]]]; simpl in *; try lia; done.
    + destruct l as [|? [|? [|? [|? [|]]]]]; simpl in *; lia.
    + change (8 * 1)%nat with 8%nat. unfold s. cbn [rfc4648_symbols]. fold g. rewrite Ht.
      cbn [b32_blocks]. rewrite take_ge, app_nil_r by (simpl; lia). by apply dec8_enc5.
  - assert (Hl : (5 <= length l)%nat).
    { destruct (decide (length l < 5)%nat); [|lia]. rewrite Nat.div_small in Hn; lia. }
    set (t := take 5 l) in *. assert (Lt : length t = 5%nat) by (unfold t; rewrite length_take; lia).
    assert (Hk : k = S (b32_groups (length (drop 5 l)))).
    { unfold k. rewrite length_drop. by apply b32_groups_add. }
    destruct (IH (drop 5 l)) as (HF & Hlen & Hle & Hlen5 & Hbl); [by apply Forall_drop| |].
    { rewrite length_drop. replace (length l) with (length l - 5 + 1 * 5)%nat in Hn by lia.
      rewrite Nat.div_add in Hn by lia. lia. }
    assert (Ls : length s = (8 + length (rfc4648_symbols n (drop 5 l)))%nat) by done.
    assert (Ht : bytes_ok t) by by apply Forall_take.
    split; [by apply Forall_app; split; [apply b32_enc5_range|]|].
    rewrite Ls, Hk. split; [|split; [lia|split; [rewrite length_drop in Hlen5; lia|]]].
    + rewrite <- Hlen. replace (8 + length (rfc4648_symbols n (drop 5 l)) + 7)%nat with
        (length (rfc4648_symbols n (drop 5 l)) + 7 + 1 * 8)%nat by lia.
      rewrite Nat.div_add by lia. lia.
    + unfold s. cbn [rfc4648_symbols b32_blocks]. fold t.
      rewrite <- app_assoc, take_app_le, drop_app_ge by (simpl; lia).
      change (length (b32_enc5 t)) with 8%nat.
      rewrite (take_ge (b32_enc5 t)), dec8_enc5 by (done || simpl; lia).
      rewrite Nat.sub_diag, drop_0.
      transitivity (t ++ (drop 5 l ++ replicate
        (5 * b32_groups (length (drop 5 l)) - length (drop 5 l)) 0)).
      * f_equal. etransitivity; [|exact Hbl]. do 3 f_equal. lia.
      * rewrite app_assoc. unfold t. rewrite take_drop, length_drop. do 2 f_equal. lia.
Qed.

(** The decoder on an encoded key: the key, zero-filled to a multiple of five. *)
Lemma base32_decode_encode out key (k := b32_groups (length key)) :
  bytes_ok key -> (length key <= 49)%nat -> length out = 80%nat ->
  exists out', base32_decode out 80 (rfc4648_base32 key ++ [0]) =
      Some (Z.of_nat (5 * k), out') /\
    take (5 * k) out' = key ++ replicate (5 * k - length key) 0.
Proof.
  intros Hb Hl Ho. unfold rfc4648_base32.
  destruct (rfc4648_symbols_spec (length key / 5) key Hb eq_refl) as (HF & Hk & Hle & H5 & Hbl).
  set (s := rfc4648_symbols (length key / 5) key) in *. fold k in Hk, Hle, Hbl.
  assert (H79 : (length s < 80)%nat).
  { fold s in H5. lia. }
  rewrite <- app_assoc.
  destruct (base32_decode_ok out (map b32_char s)
    (replicate ((8 - length s mod 8) mod 8) 61 ++ [0]) 80) as (out' & E & Ht & _).
  - apply Forall_map. eapply list.Forall_impl; [exact HF|]. intros c Hc. by apply b32_char_value.
  - destruct ((8 - length s mod 8) mod 8)%nat; simpl; auto.
  - done.
  - by rewrite length_map.
  - done.
  - rewrite length_map, Hk in E, Ht. exists out'. split; [done|]. rewrite Ht, <- Hbl.
    do 2 f_equal. rewrite map_map. etransitivity; [|apply map_id].
    apply map_ext_Forall. eapply list.Forall_impl; [exact HF|]. intros c Hc. by apply b32_char_value.
Qed.

(** ** The comparison *)

(** [k] digits of [n], most significant first, before [acc]. *)
Fixpoint fixed_digits (k : nat) (n : Z) (acc : list Z) : list Z :=
  match k with
  | O => acc
  | S k' => fixed_digits k' (n / 10) ((48 + n mod 10) :: acc)
  end.

Lemma fixed_digits_zero k acc : fixed_digits k 0 acc = replicate k 48 ++ acc.
Proof.
  revert acc. induction k as [|k IH]; intros acc; [done|]. cbn [fixed_digits].
  change (0 / 10) with 0. change (48 + 0 mod 10) with 48. rewrite IH.
  rewrite replicate_S_end, <- app_assoc. done.
Qed.

Lemma dec_digits_length fuel n acc : (length acc <= length (dec_digits fuel n acc))%nat.
Proof.
  revert n acc. induction fuel as [|fuel IH]; intros n acc; cbn [dec_digits]; [done|].
  case_decide; [simpl; lia|]. etransitivity; [|apply IH]. simpl. lia.
Qed.

Lemma dec_digits_fixed k fuel n acc :
  0 <= n < 10 ^ Z.of_nat k -> (0 < k <= fuel)%nat ->
  replicate (k + length acc - length (dec_digits fuel n acc)) 48 ++ dec_digits fuel n acc =
  fixed_digits k n acc.
Proof.
  revert k n acc. induction fuel as [|fuel IH]; intros k n acc Hn Hk; [lia|].
  destruct k as [|k]; [lia|]. cbn [dec_digits fixed_digits].
  destruct (decide (n / 10 = 0)) as [E|E].
  - rewrite E, fixed_digits_zero. f_equal. f_equal. simpl. lia.
  - assert (0 <= n / 10) by (apply Z.div_pos; lia).
    rewrite <- IH.
    + f_equal. f_equal. simpl. lia.
    + split; [done|]. apply Z.div_lt_upper_bound; [lia|].
      rewrite Nat2Z.inj_succ, Z.pow_succ_r in Hn by lia. lia.
    + destruct k; [|lia]. change (10 ^ Z.of_nat 1) with 10 in Hn.
      rewrite Z.div_small in E by lia. done.
Qed.

Lemma snprintf_06u_spec n : 0 <= n < 10 ^ 6 -> snprintf_06u 9 n = six_digits n ++ [0].
Proof.
  intros Hn. unfold snprintf_06u.
  pose proof (dec_digits_fixed 6 10 n []) as E. cbn [length] in E. rewrite Nat.add_0_r in E.
  rewrite E by (done || lia). cbn [fixed_digits]. rewrite take_ge by (simpl; lia).
  unfold six_digits. cbn [map]. rewrite !Z.div_div by lia. f_equal.
  rewrite (Z.pow_0_r 10), Z.div_1_r. reflexivity.
Qed.

Lemma u8_shiftr p k : 0 <= k -> u8 (Z.shiftr p (8 * k)) = p / 256 ^ k mod 256.
Proof.
  intros Hk. unfold u8. rewrite Z.shiftr_div_pow2, Z.pow_mul_r by lia. done.
Qed.

Lemma totp_data padded :
  [u8 (Z.shiftr padded 56); u8 (Z.shiftr padded 48); u8 (Z.shiftr padded 40);
   u8 (Z.shiftr padded 32); u8 (Z.shiftr padded 24); u8 (Z.shiftr padded 16);
   u8 (Z.shiftr padded 8); u8 (Z.land padded 0xff)] = be64 padded.
Proof.
  unfold be64. cbn [map]. rewrite <- !u8_shiftr by lia.
  assert (E : u8 (Z.land padded 0xff) = u8 (Z.shiftr padded (8 * 0))).
  { change 255 with (Z.ones 8). rewrite Z.land_ones, Z.shiftr_0_r by lia. unfold u8.
    by rewrite Z.mod_mod by lia. }
  rewrite E. reflexivity.
Qed.

Lemma slice_4 hs o d0 d1 d2 d3 :
  hs !! o = Some d0 -> hs !! (o + 1)%nat = Some d1 -> hs !! (o + 2)%nat = Some d2 ->
  hs !! (o + 3)%nat = Some d3 -> slice o 4 hs = [d0; d1; d2; d3].
Proof.
  intros E0 E1 E2 E3.
  replace (o + 1)%nat with (S o) in E1 by lia.
  replace (o + 2)%nat with (S (S o)) in E2 by lia.
  replace (o + 3)%nat with (S (S (S o))) in E3 by lia.
  by rewrite (slice_cons _ _ _ _ E0), (slice_cons _ _ _ _ E1), (slice_cons _ _ _ _ E2),
    (slice_cons _ _ _ _ E3).
Qed.

Lemma challenge_value d0 d1 d2 d3 :
  byte_ok d0 -> byte_ok d1 -> byte_ok d2 -> byte_ok d3 ->
  Z.lor (Z.lor (Z.lor (shl32 (Z.land d0 0x7f) 24) (shl32 d1 16)) (shl32 d2 8)) d3 =
  be_value [d0; d1; d2; d3] mod 2 ^ 31.
Proof.
  unfold byte_ok. intros H0 H1 H2 H3. change 0x7f with (Z.ones 7).
  rewrite Z.land_ones by lia. pose proof (Z.mod_pos_bound d0 (2 ^ 7) ltac:(lia)).
  unfold shl32. rewrite !u32_small by (rewrite Z.shiftl_mul_pow2 by lia; lia).
  rewrite <- !Z.lor_assoc.
  rewrite (lor_shiftl_add d2 d3), (lor_shiftl_add d1), (lor_shiftl_add (d0 mod 2 ^ 7)) by lia.
  unfold be_value. cbn [foldl].
  replace (256 * (256 * (256 * (256 * 0 + d0) + d1) + d2) + d3) with
    (d0 mod 2 ^ 7 * 2 ^ 24 + (d1 * 2 ^ 16 + (d2 * 2 ^ 8 + d3)) + (d0 / 2 ^ 7) * 2 ^ 31).
  - rewrite Z.mod_add by lia. symmetry. apply Z.mod_small. lia.
  - pose proof (Z.div_mod d0 (2 ^ 7)). lia.
Qed.

Lemma length_hmac_sha1 key text : length (hmac_spec sha1_spec key text) = 20%nat.
Proof. done. Qed.

Lemma bytes_hmac_sha1 key text : bytes_ok (hmac_spec sha1_spec key text).
Proof. apply (dg_bytes (ctx := fr_sha1_ctx) (digest := sha1_spec)). Qed.

(** The part of [totp_cmp] behind the HMAC. *)
Definition totp_compare (digest totp : list Z) : option Z :=
  last ← rd digest 19;
  let offset := Z.to_nat (Z.land last 0x0f) in
  d0 ← rd digest offset;
  d1 ← rd digest (offset + 1);
  d2 ← rd digest (offset + 2);
  d3 ← rd digest (offset + 3);
  let challenge := shl32 (Z.land d0 0x7f) 24 in
  let challenge := Z.lor challenge (shl32 d1 16) in
  let challenge := Z.lor challenge (shl32 d2 8) in
  let challenge := Z.lor challenge d3 in
  fr_digest_cmp (snprintf_06u 9 (challenge mod DIV)) totp 0 LEN.

Lemma totp_compare_ok hs totp :
  length hs = 20%nat -> bytes_ok hs -> (6 <= length totp)%nat ->
  exists r, totp_compare hs totp = Some r /\
    (r = 0 <-> take 6 totp = six_digits (hotp_truncate hs)).
Proof.
  intros Lh Bh Hl. unfold totp_compare, hotp_truncate.
  assert (Hr : forall i, (i < 20)%nat -> rd hs i = Some (hs !!! i) /\ byte_ok (hs !!! i)).
  { intros i Hi. assert (E : rd hs i = Some (hs !!! i)) by (apply list_lookup_lookup_total_lt; lia).
    split; [done|]. by apply (bytes_ok_lookup hs i). }
  destruct (Hr 19%nat) as [-> H19]; [lia|]. cbn [mbind option_bind].
  change 0x0f with (Z.ones 4). rewrite Z.land_ones by lia.
  pose proof (Z.mod_pos_bound (hs !!! 19%nat) (2 ^ 4) ltac:(lia)) as Ho.
  change (2 ^ 4) with 16 in *. set (o := Z.to_nat (hs !!! 19%nat mod 16)) in *.
  assert (Ho' : (o < 16)%nat) by lia.
  destruct (Hr o) as [E0 B0]; [lia|]. destruct (Hr (o + 1)%nat) as [E1 B1]; [lia|].
  destruct (Hr (o + 2)%nat) as [E2 B2]; [lia|]. destruct (Hr (o + 3)%nat) as [E3 B3]; [lia|].
  rewrite E0, E1, E2, E3. cbn [mbind option_bind]. rewrite challenge_value by done.
  rewrite (slice_4 hs o _ _ _ _ E0 E1 E2 E3). set (v := be_value _ mod 2 ^ 31).
  unfold DIV, LEN. set (w := v mod 1000000). change (v mod 10 ^ 6) with w.
  assert (Hv : 0 <= w < 10 ^ 6) by (apply Z.mod_pos_bound; lia).
  rewrite snprintf_06u_spec by done.
  destruct (fr_digest_cmp_defined (six_digits w ++ [0]) totp 0 6) as [r Hcmp];
    [rewrite length_app; simpl; lia|done|].
  exists r. split; [done|]. assert (Z6 : take 6 (six_digits w ++ [0]) = six_digits w) by done.
  split.
  - intros ->. apply fr_digest_cmp_zero in Hcmp as (_ & _ & _ & E). by rewrite Z6 in E.
  - intros E. assert (fr_digest_cmp (six_digits w ++ [0]) totp 0 6 = Some 0) as H0.
    { apply fr_digest_cmp_zero. rewrite Z6. repeat split; auto with lia. simpl; lia. }
    congruence.
Qed.

Lemma totp_cmp_unfold tctx ctx now key totp :
  0 <= now < 2 ^ 64 ->
  totp_cmp tctx ctx now key totp =
    totp_compare (fr_hmac_sha1 tctx ctx (be64 (now / 30)) key) totp.
Proof.
  intros Hn. unfold totp_cmp, TIME_STEP, totp_compare. by rewrite u64_small, totp_data.
Qed.

Lemma totp_cmp_ok tctx ctx now key totp :
  length (sha1_buffer tctx) = 64%nat -> length (sha1_buffer ctx) = 64%nat ->
  0 <= now < 2 ^ 64 -> Z.of_nat (length key) < 2 ^ 29 -> (6 <= length totp)%nat ->
  exists r, totp_cmp tctx ctx now key totp = Some r /\
    (r = 0 <-> take 6 totp = rfc6238_totp key now).
Proof.
  intros Ht Hc Hn Hk Hl. rewrite totp_cmp_unfold, fr_hmac_sha1_ok by (done || simpl; lia).
  unfold rfc6238_totp, hotp. generalize (length_hmac_sha1 key (be64 (now / 30))),
    (bytes_hmac_sha1 key (be64 (now / 30))).
  generalize (hmac_spec sha1_spec key (be64 (now / 30))). intros hs Lh Bh.
  by apply totp_compare_ok.
Qed.

(** The first loop gives up when the buffer is full or at a bad character. *)
Lemma b32_symbols_fail cs q out p outlen :
  Forall is_b32 cs -> (p < outlen <= length out)%nat ->
  (outlen <= p + length cs)%nat \/
    (exists c q', q = c :: q' /\ 0 <= c < 255 /\ ~ is_b32 c /\ c <> 0 /\ c <> 61) ->
  exists out', b32_symbols (cs ++ q) out p outlen = Some (inl out').
Proof.
  revert out p. induction cs as [|c cs IH]; intros out p Hcs Hp Hq.
  - destruct Hq as [Hq|(c & q' & -> & Hc & Hn & H0 & H61)]; [simpl in Hq; lia|].
    cbn [app b32_symbols]. rewrite !decide_False by done.
    rewrite alphabet_lookup, decide_False by done. cbn [mbind option_bind].
    rewrite decide_True by done. eauto.
  - apply list.Forall_cons in Hcs as [Hc Hcs]. assert (Hr := b32_value_range c Hc).
    cbn [app b32_symbols]. rewrite !decide_False by (unfold is_b32 in Hc; lia).
    rewrite alphabet_lookup, decide_True by (done || unfold is_b32 in Hc; lia).
    cbn [mbind option_bind]. rewrite decide_False by lia.
    rewrite wr_slice_Some by (cbn [length]; lia). cbn [mbind option_bind].
    destruct (decide (S p = outlen)); [eauto|].
    apply IH; [done|rewrite length_inserts; lia|].
    destruct Hq as [Hq|Hq]; [left; simpl in Hq; lia|by right].
Qed.

(** Zero bytes at the end of a key of at most a block do not change its HMAC. *)
Lemma hmac_spec_zeros H key text m :
  (length key + m <= 64)%nat ->
  hmac_spec H (key ++ replicate m 0) text = hmac_spec H key text.
Proof.
  intros Hl. unfold hmac_spec.
  assert (E : hmac_key H (key ++ replicate m 0) = hmac_key H key).
  { unfold hmac_key. rewrite length_app, length_replicate, !decide_False by lia.
    rewrite length_app, length_replicate, <- app_assoc, <- replicate_add. do 2 f_equal. lia. }
  by rewrite E.
Qed.

Lemma rfc6238_zeros key m time :
  (length key + m <= 64)%nat -> rfc6238_totp (key ++ replicate m 0) time = rfc6238_totp key time.
Proof. intros H. unfold rfc6238_totp, hotp. by rewrite hmac_spec_zeros. Qed.

(** ** Properties *)

(** [totp_cmp] returns zero exactly when the first six bytes of the submitted
    string are the six decimal digits of the RFC 6238 one-time password (SHA-1,
    30-second steps) of the key at the given time, whatever the uninitialised HMAC
    contexts hold, and it never reads outside its buffers. *)
Theorem totp_cmp_rfc6238 tctx ctx now key totp :
  length (sha1_buffer tctx) = 64%nat -> length (sha1_buffer ctx) = 64%nat ->
  0 <= now < 2 ^ 64 -> Z.of_nat (length key) < 2 ^ 29 -> (6 <= length totp)%nat ->
  exists r, totp_cmp tctx ctx now key totp = Some r /\
    (r = 0 <-> take 6 totp = rfc6238_totp key now).
Proof. apply totp_cmp_ok. Qed.

(** RFC 6238, appendix B: the key "12345678901234567890" at time 59. *)
Lemma totp_cmp_rfc6238_witness :
  rfc6238_totp (map (fun i => 48 + Z.of_nat i mod 10) (seq 1 20)) 59 =
    [50; 56; 55; 48; 56; 50] /\
  exists r, totp_cmp sha1_wiped sha1_wiped 59
      (map (fun i => 48 + Z.of_nat i mod 10) (seq 1 20)) [50; 56; 55; 48; 56; 50; 0] = Some r /\
    (r = 0 <-> take 6 [50; 56; 55; 48; 56; 50; 0] =
      rfc6238_totp (map (fun i => 48 + Z.of_nat i mod 10) (seq 1 20)) 59).
Proof.
  split; [vm_compute; reflexivity|].
  apply totp_cmp_rfc6238; (reflexivity || (simpl; lia)).
Defined.

(** [base32_decode] on every input string: the leading base32 characters [cs]
    are decoded if there are fewer of them than the buffer has bytes and a NUL or
    ['='] follows, into their 8-symbol groups, zero-filled; otherwise it returns
    [-1].  It stays inside its buffer even though it decodes in place, and it
    returns, provided no byte is 0xff. *)
Theorem base32_decode_spec out cs c q outlen (k := ((length cs + 7) / 8)%nat) :
  Forall is_b32 cs -> 0 <= c < 255 -> ~ is_b32 c ->
  length out = outlen -> (0 < outlen)%nat -> (outlen mod 8 = 0)%nat ->
  exists r out', base32_decode out outlen (cs ++ c :: q) = Some (r, out') /\
    if decide ((length cs < outlen)%nat /\ (c = 0 \/ c = 61)) then
      r = Z.of_nat (5 * k) /\ length out' = outlen /\
      take (5 * k) out' = b32_blocks k (map b32_value cs ++ replicate (8 * k - length cs) 0)
    else r = -1.
Proof.
  intros Hcs Hc Hn Hout H0 H8. case_decide as Hd.
  - destruct Hd as [Hl Hq].
    destruct (base32_decode_ok out cs (c :: q) outlen) as (out' & E & Ht & L'); eauto 10.
  - unfold base32_decode, wr_zero. rewrite wr_slice_Some by (rewrite length_replicate; lia).
    cbn [mbind option_bind].
    destruct (b32_symbols_fail cs (c :: q) (list_inserts 0 (replicate outlen 0) out) 0 outlen)
      as [out' ->]; [done|rewrite length_inserts; lia| |].
    { destruct (decide (length cs < outlen)%nat); [right|left; lia].
      exists c, q. split; [done|]. split; [done|]. split; [done|].
      split; intros ->; apply Hd; auto. }
    cbn [mbind option_bind]. eauto.
Qed.

Lemma base32_decode_spec_witness :
  exists r out', base32_decode (replicate 80 7) 80
      ([77; 90; 88; 87; 54; 89; 84; 66; 79; 73] ++ 61 :: [0]) = Some (r, out') /\
    if decide ((10 < 80)%nat /\ (61 = 0 \/ 61 = 61)) then
      r = Z.of_nat (5 * 2) /\ length out' = 80%nat /\
      take (5 * 2) out' = b32_blocks 2 (map b32_value
        [77; 90; 88; 87; 54; 89; 84; 66; 79; 73] ++ replicate (8 * 2 - 10) 0)
    else r = -1.
Proof.
  apply (base32_decode_spec (replicate 80 7) [77; 90; 88; 87; 54; 89; 84; 66; 79; 73] 61 [0] 80);
    [by apply (bool_decide_unpack _); vm_compute|lia
    |by apply (bool_decide_unpack (~ is_b32 61)); vm_compute|reflexivity|lia|reflexivity].
Defined.

(** A byte 0xff in the secret makes [base32_decode] read past the end of its
    [alphabet] table, which has [UINT8_MAX], that is 255, entries. *)
Theorem base32_decode_alphabet_overrun out cs q outlen :
  Forall is_b32 cs -> (length cs < outlen)%nat -> length out = outlen ->
  base32_decode out outlen (cs ++ 255 :: q) = None.
Proof.
  intros Hcs Hl Ho. unfold base32_decode, wr_zero.
  rewrite wr_slice_Some by (rewrite length_replicate; lia). cbn [mbind option_bind].
  assert (E : forall p o, (p + length cs < outlen <= length o)%nat ->
    b32_symbols (cs ++ 255 :: q) o p outlen = None); [|rewrite E; [done|rewrite length_inserts; lia]].
  clear Hl. induction cs as [|c cs IH]; intros p o Hp; [done|].
  apply list.Forall_cons in Hcs as [Hc Hcs]. assert (Hr := b32_value_range c Hc).
  cbn [length] in Hp. cbn [app b32_symbols]. rewrite !decide_False by (unfold is_b32 in Hc; lia).
  rewrite alphabet_lookup, decide_True by (done || unfold is_b32 in Hc; lia).
  cbn [mbind option_bind]. rewrite decide_False by lia.
  rewrite wr_slice_Some by (cbn [length]; lia). cbn [mbind option_bind].
  rewrite decide_False by lia. apply IH; [done|]. rewrite length_inserts. lia.
Qed.

Lemma base32_decode_alphabet_overrun_witness :
  base32_decode (replicate 80 0) 80 ([65] ++ 255 :: [0]) = None.
Proof.
  apply base32_decode_alphabet_overrun;
    [by apply (bool_decide_unpack _); vm_compute|simpl; lia|reflexivity].
Defined.

(** The key a request is authenticated with: the raw key, or else the base32 secret. *)
Definition totp_key_of (control : list (totp_attr * list Z)) (key : list Z) : Prop :=
  fr_pair_find_by_da control attr_totp_key = Some key /\ Z.of_nat (length key) < 2 ^ 29 \/
  fr_pair_find_by_da control attr_totp_key = None /\
  fr_pair_find_by_da control attr_totp_secret = Some (rfc4648_base32 key) /\
  bytes_ok key /\ (length key <= 49)%nat.

(** C12: the authentication method accepts exactly the RFC 6238 password of the user's
    key at the time of the packet.  The key is the raw [TOTP.Key], or the RFC 4648
    base32 [TOTP.Secret] of a key of up to 49 bytes: the decoder returns that key
    zero-filled to a multiple of five bytes, which HMAC does not distinguish from
    the key itself.  A password of another length fails. *)
Theorem mod_authenticate_totp tctx ctx buffer request password key :
  length (sha1_buffer tctx) = 64%nat -> length (sha1_buffer ctx) = 64%nat ->
  length buffer = 80%nat -> 0 <= timestamp request < 2 ^ 64 ->
  fr_pair_find_by_da (request_pairs request) attr_totp_user_password = Some password ->
  totp_key_of (control_pairs request) key ->
  mod_authenticate tctx ctx buffer request =
    Some (if decide (password = rfc6238_totp key (timestamp request))
          then RLM_MODULE_OK else RLM_MODULE_FAIL).
Proof.
  intros Ht Hc Hb Hn Hp Hk. unfold mod_authenticate. rewrite Hp.
  destruct (decide (length password <> 6%nat)) as [H6|H6].
  { rewrite decide_False; [done|]. intros ->. by apply H6. }
  assert (H6' : length password = 6%nat) by lia.
  assert (Hcmp : forall k, Z.of_nat (length k) < 2 ^ 29 ->
    (r ← totp_cmp tctx ctx (timestamp request) k (password ++ [0]);
     Some (if decide (r <> 0) then RLM_MODULE_FAIL else RLM_MODULE_OK)) =
    Some (if decide (password = rfc6238_totp k (timestamp request))
          then RLM_MODULE_OK else RLM_MODULE_FAIL)).
  { intros k Hl.
    destruct (totp_cmp_ok tctx ctx (timestamp request) k (password ++ [0])) as (r & -> & Hr);
      [done..|rewrite length_app; lia|].
    rewrite take_app_length' in Hr by done. cbn [mbind option_bind]. f_equal.
    destruct (decide (r <> 0)), (decide (password = _)); tauto. }
  destruct Hk as [[-> Hl]|(-> & -> & Hbk & Hl)]; [by apply Hcmp|].
  destruct (base32_decode_encode buffer key) as (out' & -> & Hd); [done..|].
  cbn [mbind option_bind]. rewrite decide_False by lia. rewrite Nat2Z.id, Hd.
  assert (Hg : (5 * b32_groups (length key) <= 64)%nat).
  { unfold b32_groups. pose proof (Nat.div_mod_eq (length key + 4) 5). lia. }
  rewrite Hcmp by (rewrite length_app, length_replicate; lia).
  by rewrite rfc6238_zeros by lia.
Qed.

Lemma mod_authenticate_totp_witness :
  let key := map (fun i => 48 + Z.of_nat i mod 10) (seq 1 20) in
  let request := Request [(attr_other, []); (attr_totp_user_password, [50; 56; 55; 48; 56; 50])]
                   [(attr_totp_secret, rfc4648_base32 key)] 59 in
  mod_authenticate sha1_wiped sha1_wiped (replicate 80 1) request = Some RLM_MODULE_OK.
Proof.
  intros key request. etransitivity.
  - apply (mod_authenticate_totp sha1_wiped sha1_wiped (replicate 80 1) request
      [50; 56; 55; 48; 56; 50] key); [reflexivity..|simpl; lia|reflexivity|].
    right. split; [reflexivity|]. split; [reflexivity|].
    split; [by apply (bool_decide_unpack _); vm_compute|simpl; lia].
  - vm_compute. reflexivity.
Defined.
