(* ===== verification/ArduinoTotp.v ===== *)
(** * One-time passwords on the door: [arduino-libraries/TOTP_library/src]

    [sha1.cpp] and [TOTP.cpp]: a byte-at-a-time SHA-1 with a rolled loop over a schedule
    kept in the message buffer, the two-pass HMAC that shares the object, and the code
    generator.  The target is little-endian with 32-bit [long]: the unions of the source
    store byte [4i + k] as bits [8k] to [8k + 7] of word [i].  The references are those
    of the server side: FIPS 180-4, RFC 2104, RFC 6238. *)
From S2P Require Import Prelude Bytes BlockHash Sha1 Hmac Totp.

(** ** [Sha1Class] *)

Definition HASH_LENGTH : nat := 20.
Definition BLOCK_LENGTH : nat := 64.
Definition SHA1_K0 : Z := 0x5a827999.
Definition SHA1_K20 : Z := 0x6ed9eba1.
Definition SHA1_K40 : Z := 0x8f1bbcdc.
Definition SHA1_K60 : Z := 0xca62c1d6.
Definition HMAC_IPAD : Z := 0x36.
Definition HMAC_OPAD : Z := 0x5c.

Definition sha1InitState : list Z :=
  [0x01; 0x23; 0x45; 0x67; 0x89; 0xab; 0xcd; 0xef; 0xfe; 0xdc; 0xba; 0x98;
   0x76; 0x54; 0x32; 0x10; 0xf0; 0xe1; 0xd2; 0xc3].

(** [buffer] is kept as its bytes [buffer.b], [state] as its words [state.w]. *)
Record Sha1Class := Sha1Obj {
  so_buffer : list Z;
  so_bufferOffset : nat;
  so_state : sha1_state;
  so_byteCount : Z;
  so_keyBuffer : list Z;
  so_innerHash : list Z
}.

(** Reading the other member of a union. *)
Definition le_word (b : list Z) (i : nat) : Z :=
  let k := (4 * i)%nat in
  b !!! k + 2 ^ 8 * b !!! (k + 1)%nat + 2 ^ 16 * b !!! (k + 2)%nat + 2 ^ 24 * b !!! (k + 3)%nat.
Definition le_bytes (w : Z) : list Z :=
  [u8 w; u8 (Z.shiftr w 8); u8 (Z.shiftr w 16); u8 (Z.shiftr w 24)].
Definition buffer_words (b : list Z) : list Z := map (le_word b) (seq 0 16).
Definition buffer_bytes (w : list Z) : list Z := concat (map le_bytes w).
Definition state_words (b : list Z) : sha1_state :=
  Sha1State (le_word b 0) (le_word b 1) (le_word b 2) (le_word b 3) (le_word b 4).
Definition state_bytes (st : sha1_state) : list Z :=
  le_bytes (sha_a st) ++ le_bytes (sha_b st) ++ le_bytes (sha_c st) ++
  le_bytes (sha_d st) ++ le_bytes (sha_e st).

Definition init (o : Sha1Class) : Sha1Class :=
  Sha1Obj (so_buffer o) 0 (state_words sha1InitState) 0 (so_keyBuffer o) (so_innerHash o).

Definition rol32 (number bits : Z) : Z :=
  Z.lor (shl32 number bits) (shr32 number (32 - bits)).

(** The body of the loop of [hashBlock]: [a] to [e] and [buffer.w]. *)
Definition hash_round (s : Z * Z * Z * Z * Z * list Z) (i : nat) : Z * Z * Z * Z * Z * list Z :=
  let '(a, b, c, d, e, w) := s in
  let w :=
    if decide (16 <= i)%nat then
      let t := Z.lxor (Z.lxor (Z.lxor (w !!! ((i + 13) mod 16)%nat) (w !!! ((i + 8) mod 16)%nat))
                              (w !!! ((i + 2) mod 16)%nat)) (w !!! (i mod 16)%nat) in
      <[(i mod 16)%nat := rol32 t 1]> w
    else w in
  let t :=
    if decide (i < 20)%nat then u32 (Z.lxor d (Z.land b (Z.lxor c d)) + SHA1_K0)
    else if decide (i < 40)%nat then u32 (Z.lxor (Z.lxor b c) d + SHA1_K20)
    else if decide (i < 60)%nat then
      u32 (Z.lor (Z.land b c) (Z.land d (Z.lor b c)) + SHA1_K40)
    else u32 (Z.lxor (Z.lxor b c) d + SHA1_K60) in
  let t := u32 (t + u32 (u32 (rol32 a 5 + e) + w !!! (i mod 16)%nat)) in
  (t, a, rol32 b 30, c, d, w).

Definition hashBlock (o : Sha1Class) : Sha1Class :=
  let st := so_state o in
  let '(a, b, c, d, e, w) :=
    foldl hash_round
      (sha_a st, sha_b st, sha_c st, sha_d st, sha_e st, buffer_words (so_buffer o)) (seq 0 80) in
  Sha1Obj (buffer_bytes w) (so_bufferOffset o)
    (Sha1State (u32 (sha_a st + a)) (u32 (sha_b st + b)) (u32 (sha_c st + c))
               (u32 (sha_d st + d)) (u32 (sha_e st + e)))
    (so_byteCount o) (so_keyBuffer o) (so_innerHash o).

(** [bufferOffset] stays below [BLOCK_LENGTH], so the [uint8_t] does not wrap. *)
Definition addUncounted (o : Sha1Class) (data : Z) : Sha1Class :=
  let o := Sha1Obj (<[Nat.lxor (so_bufferOffset o) 3 := data]> (so_buffer o))
             (S (so_bufferOffset o)) (so_state o) (so_byteCount o) (so_keyBuffer o)
             (so_innerHash o) in
  if decide (so_bufferOffset o = BLOCK_LENGTH) then
    let o := hashBlock o in
    Sha1Obj (so_buffer o) 0 (so_state o) (so_byteCount o) (so_keyBuffer o) (so_innerHash o)
  else o.

Definition write (o : Sha1Class) (data : Z) : Sha1Class :=
  addUncounted (Sha1Obj (so_buffer o) (so_bufferOffset o) (so_state o)
                  (u32 (so_byteCount o + 1)) (so_keyBuffer o) (so_innerHash o)) data.

(** [while (bufferOffset != 56) addUncounted(0x00);] *)
Fixpoint pad_zeros (fuel : nat) (o : Sha1Class) : option Sha1Class :=
  match fuel with
  | O => None
  | S fuel' =>
      if decide (so_bufferOffset o = 56%nat) then Some o else pad_zeros fuel' (addUncounted o 0)
  end.

Definition pad (o : Sha1Class) : option Sha1Class :=
  let o := addUncounted o 0x80 in
  o ← pad_zeros 65 o;
  let n := so_byteCount o in
  Some (foldl addUncounted o
    [0; 0; 0; u8 (shr32 n 29); u8 (shr32 n 21); u8 (shr32 n 13); u8 (shr32 n 5);
     u8 (shl32 n 3)]).

(** [b=a<<24; b|=(a<<8) & 0x00ff0000; b|=(a>>8) & 0x0000ff00; b|=a>>24;] *)
Definition swap_word (a : Z) : Z :=
  Z.lor (Z.lor (Z.lor (shl32 a 24) (Z.land (shl32 a 8) 0x00ff0000))
               (Z.land (shr32 a 8) 0x0000ff00)) (shr32 a 24).

(** The bytes the returned pointer points to, and the object. *)
Definition result (o : Sha1Class) : option (list Z * Sha1Class) :=
  o ← pad o;
  let st := so_state o in
  let st := Sha1State (swap_word (sha_a st)) (swap_word (sha_b st)) (swap_word (sha_c st))
                      (swap_word (sha_d st)) (swap_word (sha_e st)) in
  Some (state_bytes st,
        Sha1Obj (so_buffer o) (so_bufferOffset o) st (so_byteCount o) (so_keyBuffer o)
                (so_innerHash o)).

Definition initHmac (o : Sha1Class) (key : list Z) : option Sha1Class :=
  let o := Sha1Obj (so_buffer o) (so_bufferOffset o) (so_state o) (so_byteCount o)
             (replicate BLOCK_LENGTH 0) (so_innerHash o) in
  o ← (if decide (BLOCK_LENGTH < length key)%nat then
         '(h, o) ← result (foldl write (init o) key);
         Some (Sha1Obj (so_buffer o) (so_bufferOffset o) (so_state o) (so_byteCount o)
                 (list_inserts 0 h (so_keyBuffer o)) (so_innerHash o))
       else
         Some (Sha1Obj (so_buffer o) (so_bufferOffset o) (so_state o) (so_byteCount o)
                 (list_inserts 0 key (so_keyBuffer o)) (so_innerHash o)));
  let o := init o in
  Some (foldl write o (map (fun b => Z.lxor b HMAC_IPAD) (so_keyBuffer o))).

Definition resultHmac (o : Sha1Class) : option (list Z * Sha1Class) :=
  '(h, o) ← result o;
  let o := Sha1Obj (so_buffer o) (so_bufferOffset o) (so_state o) (so_byteCount o)
             (so_keyBuffer o) h in
  let o := init o in
  let o := foldl write o (map (fun b => Z.lxor b HMAC_OPAD) (so_keyBuffer o)) in
  let o := foldl write o (so_innerHash o) in
  result o.

(** ** [TOTP] *)

Record TOTP := Totp { _hmacKey : list Z; _timeStep : Z }.

(** The constructor with the default time step. *)
Definition TOTP_new (hmacKey : list Z) : TOTP := Totp hmacKey 30.

(** The bits of a 32-bit [long]: [sprintf(_code, "%06ld", n)] with [n] not negative. *)
Definition sprintf_06ld (n : Z) : list Z :=
  let ds := dec_digits 10 n [] in replicate (6 - length ds) 48 ++ ds ++ [0].

(** Steps 2 and 3: dynamic truncation and printing. *)
Definition truncate_code (hash : list Z) : option (list Z) :=
  last ← rd hash (20 - 1);
  let offset := Z.to_nat (Z.land last 0xf) in
  h0 ← rd hash offset;
  h1 ← rd hash (offset + 1);
  h2 ← rd hash (offset + 2);
  h3 ← rd hash (offset + 3);
  let step v h := Z.lor (shl32 v 8) h in
  let truncated := step (step (step (step 0 h0) h1) h2) h3 in
  let truncated := Z.land truncated 0x7fffffff in
  let truncated := Z.rem truncated 1000000 in
  Some (sprintf_06ld truncated).

(** [o] is the global object [Sha1].  The bytes of [_code], its NUL included. *)
Definition getCodeFromSteps (t : TOTP) (o : Sha1Class) (steps : Z) : option (list Z * Sha1Class) :=
  let byteArray := [0; 0; 0; 0; Z.land (Z.shiftr steps 24) 0xff; Z.land (Z.shiftr steps 16) 0xff;
                    Z.land (Z.shiftr steps 8) 0xff; Z.land steps 0xff] in
  o ← initHmac o (_hmacKey t);
  '(hash, o) ← resultHmac (foldl write o byteArray);
  code ← truncate_code hash;
  Some (code, o).

Definition getCode (t : TOTP) (o : Sha1Class) (timeStamp : Z) : option (list Z * Sha1Class) :=
  getCodeFromSteps t o (Z.quot timeStamp (_timeStep t)).

(** ** The rolled loop is the reference compression function *)

Lemma u32_sum5 x k r e w :
  u32 (u32 (x + k) + u32 (u32 (r + e) + w)) = u32 (r + x + e + k + w).
Proof. rewrite u32_add_l, u32_add_r, Z.add_comm, <- Z.add_assoc, u32_add_l. f_equal. lia. Qed.

(** The boolean functions as [hashBlock] writes them. *)
Lemma hash_f_fips t b c d :
  word_ok b -> word_ok c -> word_ok d ->
  (if decide (t < 20)%nat then u32 (Z.lxor d (Z.land b (Z.lxor c d)) + SHA1_K0)
   else if decide (t < 40)%nat then u32 (Z.lxor (Z.lxor b c) d + SHA1_K20)
   else if decide (t < 60)%nat then
     u32 (Z.lor (Z.land b c) (Z.land d (Z.lor b c)) + SHA1_K40)
   else u32 (Z.lxor (Z.lxor b c) d + SHA1_K60)) = u32 (fips_f t b c d + fips_k t).
Proof.
  intros Hb Hc Hd. unfold fips_f, fips_k.
  destruct (decide (t < 20)%nat); [|destruct (decide (t < 40)%nat); [|destruct (decide (t < 60)%nat)]].
  - by rewrite <- sha1_ch_fips, (Z.lxor_comm d) by done.
  - by rewrite <- sha1_parity_fips.
  - rewrite <- sha1_maj_fips by done. unfold sha1_maj.
    by rewrite (Z.lor_comm (Z.land b c)), (Z.land_comm d).
  - by rewrite <- sha1_parity_fips.
Qed.

Lemma hash_round_fips block t a b c d e w :
  ws_ok block (t `max` 16) w -> word_ok b -> word_ok c -> word_ok d ->
  exists w', hash_round (a, b, c, d, e, w) t =
      (u32 (rol a 5 + fips_f t b c d + e + fips_k t + fips_w block t), a, rol b 30, c, d, w') /\
    ws_ok block (S t `max` 16) w'.
Proof.
  intros Hws Hb Hc Hd. unfold hash_round. rewrite hash_f_fips by done.
  set (w' := if decide (16 <= t)%nat then _ else w).
  assert (Hw' : ws_ok block (S t `max` 16) w' /\ w' !!! (t mod 16)%nat = fips_w block t).
  { unfold w'. destruct (decide (16 <= t)%nat) as [Ht|Ht].
    - replace (t `max` 16)%nat with t in Hws by lia.
      pose proof (f_equal fst (sha1_blk_spec block t w Hws)) as E. unfold sha1_blk in E.
      rewrite bool_decide_eq_false_2 in E by lia. cbv zeta in E.
      cbn [fst] in E. rewrite Nat.add_0_r in E.
      replace (S t `max` 16)%nat with (S t) by lia. change rol32 with rol. rewrite E.
      pose proof (ws_ok_insert block t w Hws) as Hi. split; [done|].
      apply (proj2 Hi t). lia.
    - replace (S t `max` 16)%nat with (t `max` 16)%nat by lia. split; [done|].
      apply (proj2 Hws t). lia. }
  destruct Hw' as [Hok Hw]. exists w'. split; [|done]. rewrite Hw. change rol32 with rol.
  by rewrite u32_sum5.
Qed.

Lemma hash_rounds_fips block n t a b c d e w :
  ws_ok block (t `max` 16) w -> word_ok a -> word_ok b -> word_ok c -> word_ok d ->
  exists w', foldl hash_round (a, b, c, d, e, w) (seq t n) =
      (let r := fips_rounds (fips_w block) n t a b c d e in
       (sha_a r, sha_b r, sha_c r, sha_d r, sha_e r, w')) /\ length w' = 16%nat.
Proof.
  revert t a b c d e w. induction n as [|n IH]; intros t a b c d e w Hws Ha Hb Hc Hd.
  { exists w. split; [done|]. apply Hws. }
  destruct (hash_round_fips block t a b c d e w Hws Hb Hc Hd) as (w1 & E & Hw1).
  cbn [seq foldl fips_rounds]. rewrite E.
  apply IH; [done|apply word_ok_u32|done|by apply word_ok_rol|done].
Qed.

Lemma length_buffer_bytes w : length (buffer_bytes w) = (4 * length w)%nat.
Proof.
  unfold buffer_bytes. induction w as [|x w IH]; [done|]. cbn [map concat].
  rewrite length_app, IH. cbn [length]. unfold le_bytes. cbn [length]. lia.
Qed.

(** When the words of the buffer are those of [block], [hashBlock] compresses it. *)
Lemma hashBlock_fips o block :
  (forall i, (i < 16)%nat -> le_word (so_buffer o) i = be_word block i) ->
  sha1_state_ok (so_state o) ->
  exists buf, length buf = 64%nat /\
    hashBlock o = Sha1Obj buf (so_bufferOffset o) (fips_compress (so_state o) block)
                    (so_byteCount o) (so_keyBuffer o) (so_innerHash o).
Proof.
  intros Hw (Ha & Hb & Hc & Hd & _). unfold hashBlock.
  destruct (hash_rounds_fips block 80 0 (sha_a (so_state o)) (sha_b (so_state o))
    (sha_c (so_state o)) (sha_d (so_state o)) (sha_e (so_state o)) (buffer_words (so_buffer o)))
    as (w' & E & Hl); [|done..|].
  - split; [done|]. intros j Hj. rewrite Nat.mod_small by lia.
    unfold buffer_words. rewrite list_lookup_total_alt, list_lookup_fmap.
    rewrite lookup_seq_lt by lia. cbn. rewrite fips_w_first by lia. apply Hw. lia.
  - rewrite E. cbv zeta. exists (buffer_bytes w'). split; [|done].
    rewrite length_buffer_bytes. lia.
Qed.

(** ** Bytes of words *)

(** Flipping the low two bits reverses the bytes of each word. *)
Lemma lxor3_spec j : (j < 64)%nat ->
  Nat.lxor j 3 = (4 * (j / 4) + (3 - j mod 4))%nat /\ (Nat.lxor j 3 < 64)%nat /\
  Nat.lxor (Nat.lxor j 3) 3 = j.
Proof.
  intros Hj.
  assert (H : Forall (fun j => Nat.lxor j 3 = (4 * (j / 4) + (3 - j mod 4))%nat /\
    (Nat.lxor j 3 < 64)%nat /\ Nat.lxor (Nat.lxor j 3) 3 = j) (seq 0 64)).
  { by apply (bool_decide_unpack _); vm_compute. }
  rewrite list.Forall_forall in H. apply H. apply list_elem_of_In, in_seq. lia.
Qed.

Lemma be_word_sum block i :
  bytes_ok block -> (4 * i + 3 < length block)%nat ->
  be_word block i = block !!! (4 * i + 3)%nat + 2 ^ 8 * block !!! (4 * i + 2)%nat +
    2 ^ 16 * block !!! (4 * i + 1)%nat + 2 ^ 24 * block !!! (4 * i)%nat.
Proof.
  intros Hb Hl.
  assert (Hr : forall k, (k < length block)%nat -> 0 <= block !!! k < 256).
  { intros k Hk. apply (bytes_ok_lookup block k); [done|]. by apply list_lookup_lookup_total_lt. }
  pose proof (Hr (4 * i)%nat ltac:(lia)). pose proof (Hr (4 * i + 1)%nat ltac:(lia)).
  pose proof (Hr (4 * i + 2)%nat ltac:(lia)). pose proof (Hr (4 * i + 3)%nat ltac:(lia)).
  unfold be_word, shl32. cbv zeta. rewrite !u32_small by (rewrite Z.shiftl_mul_pow2 by lia; lia).
  rewrite <- !Z.lor_assoc. rewrite (lor_shiftl_add (block !!! (4 * i + 2)%nat)) by lia.
  rewrite (lor_shiftl_add (block !!! (4 * i + 1)%nat)) by lia.
  rewrite (lor_shiftl_add (block !!! (4 * i)%nat)) by lia. lia.
Qed.

(** A buffer filled with the bytes of [block], each at its flipped index, holds the
    big-endian words of [block]. *)
Lemma le_word_flipped buf block i :
  length block = 64%nat -> bytes_ok block ->
  (forall j, (j < 64)%nat -> buf !!! Nat.lxor j 3 = block !!! j) ->
  (i < 16)%nat -> le_word buf i = be_word block i.
Proof.
  intros Hl Hb Hbuf Hi. rewrite be_word_sum by (done || lia). unfold le_word. cbv zeta.
  assert (E : forall k, (k < 4)%nat -> buf !!! (4 * i + k)%nat = block !!! (4 * i + (3 - k))%nat).
  { intros k Hk. rewrite <- Hbuf by lia.
    destruct (lxor3_spec (4 * i + (3 - k))) as (-> & _); [lia|]. f_equal.
    rewrite (Nat.mul_comm 4 i), Nat.div_add_l, (Nat.div_small (3 - k)) by lia.
    rewrite (Nat.add_comm (i * 4) (3 - k)), Nat.Div0.mod_add, Nat.mod_small by lia. lia. }
  rewrite <- (Nat.add_0_r (4 * i)) at 1. rewrite !E by lia.
  rewrite Nat.sub_0_r, Nat.sub_diag, Nat.add_0_r. done.
Qed.

(** ** Feeding bytes *)

(** [d] has been fed since [init]. *)
Definition so_ok (o : Sha1Class) (d : list Z) : Prop :=
  so_state o = md_absorb fips_compress sha1_init_state d /\
  so_bufferOffset o = (length d mod 64)%nat /\
  length (so_buffer o) = 64%nat /\
  forall j, (j < length d mod 64)%nat -> so_buffer o !!! Nat.lxor j 3 = md_rest d !!! j.

(** The members hashing does not touch. *)
Definition so_rest (o : Sha1Class) : Z * list Z * list Z :=
  (so_byteCount o, so_keyBuffer o, so_innerHash o).

Lemma init_ok o : length (so_buffer o) = 64%nat -> so_ok (init o) [].
Proof. intros H. split; [done|]. split; [done|]. split; [done|]. intros j Hj. simpl in Hj. lia. Qed.

(** The buffer with one more byte. *)
Lemma buffer_add o d x j :
  so_ok o d -> (j <= length d mod 64)%nat ->
  <[Nat.lxor (so_bufferOffset o) 3 := x]> (so_buffer o) !!! Nat.lxor j 3 = (md_rest d ++ [x]) !!! j.
Proof.
  intros (_ & Ho & Hl & Hb) Hj. rewrite Ho.
  assert (Hm : (length d mod 64 < 64)%nat) by (apply Nat.mod_upper_bound; lia).
  destruct (lxor3_spec (length d mod 64)) as (_ & Hlt & E1); [lia|].
  destruct (lxor3_spec j) as (_ & _ & E2); [lia|].
  destruct (decide (j = length d mod 64)%nat) as [->|].
  - rewrite list_lookup_total_insert_eq by lia.
    rewrite list_lookup_total_alt, lookup_app_r by (rewrite length_md_rest; lia).
    by rewrite length_md_rest, Nat.sub_diag.
  - rewrite list_lookup_total_insert_ne by congruence. rewrite Hb by lia.
    rewrite !list_lookup_total_alt, lookup_app_l by (rewrite length_md_rest; lia). done.
Qed.

Lemma addUncounted_ok o d x :
  so_ok o d -> bytes_ok (d ++ [x]) ->
  so_ok (addUncounted o x) (d ++ [x]) /\ so_rest (addUncounted o x) = so_rest o.
Proof.
  intros Hok Hb. pose proof (fun j => buffer_add o d x j Hok) as Hadd.
  destruct Hok as (Hst & Ho & Hl & _). unfold addUncounted. cbn [so_bufferOffset].
  rewrite Ho in *. assert (Hm : (length d mod 64 < 64)%nat) by (apply Nat.mod_upper_bound; lia).
  destruct (md_absorb_rest fips_compress sha1_init_state d [x]) as [HA HR].
  pose proof (length_md_rest d) as Hlr.
  assert (Hlen : (length (d ++ [x]) mod 64 = if decide (length d mod 64 = 63) then 0 else S (length d mod 64))%nat).
  { rewrite length_app, Nat.Div0.add_mod. cbn [length]. change (1 mod 64)%nat with 1%nat.
    destruct (decide (length d mod 64 = 63)%nat) as [->|]; [done|].
    rewrite (Nat.mod_small (length d mod 64 + 1)) by lia. lia. }
  destruct (decide (S (length d mod 64) = BLOCK_LENGTH)) as [E|E]; unfold BLOCK_LENGTH in E.
  - assert (Hblk : length (md_rest d ++ [x]) = 64%nat) by (rewrite length_app, Hlr; cbn [length]; lia).
    destruct (md_absorb_block fips_compress (md_absorb fips_compress sha1_init_state d)
      (md_rest d ++ [x]) [] Hblk) as [HA' HR'].
    rewrite app_nil_r in HA', HR'.
    match goal with |- context [hashBlock ?o'] => set (o1 := o') end.
    destruct (hashBlock_fips o1 (md_rest d ++ [x])) as (buf & Hlb & ->).
    + intros i Hi. apply le_word_flipped; [done| |intros j Hj; apply Hadd; lia|done].
      apply Forall_app in Hb as [Hb1 Hb2]. apply bytes_ok_app; [by apply Forall_drop|done].
    + cbn [so_state o1]. rewrite Hst. apply sha1_absorb_state_ok.
    + split; [|done]. split; [|split; [|split]]; cbn [so_state so_bufferOffset so_buffer].
      * by rewrite HA, HA', <- Hst.
      * rewrite Hlen. by rewrite decide_True by lia.
      * done.
      * intros j Hj. rewrite Hlen, decide_True in Hj by lia. lia.
  - split; [|done].
    destruct (md_absorb_small fips_compress (md_absorb fips_compress sha1_init_state d)
      (md_rest d ++ [x])) as [HA' HR']; [rewrite length_app, Hlr; cbn [length]; lia|].
    split; [|split; [|split]]; cbn [so_state so_bufferOffset so_buffer].
    + by rewrite HA, HA'.
    + rewrite Hlen, decide_False by lia. done.
    + by rewrite length_insert.
    + intros j Hj. rewrite Hlen, decide_False in Hj by lia. rewrite HR, HR'. apply Hadd. lia.
Qed.

Lemma adds_ok xs o d :
  so_ok o d -> bytes_ok (d ++ xs) ->
  so_ok (foldl addUncounted o xs) (d ++ xs) /\ so_rest (foldl addUncounted o xs) = so_rest o.
Proof.
  revert o d. induction xs as [|x xs IH]; intros o d Hok Hb; [by rewrite app_nil_r|].
  rewrite cons_middle, app_assoc in *. cbn [foldl].
  assert (Hb' : bytes_ok (d ++ [x])) by (apply Forall_app in Hb; apply Hb).
  destruct (addUncounted_ok o d x Hok Hb') as [Hok1 Hr1].
  destruct (IH _ _ Hok1 Hb) as [Hok2 Hr2]. split; [done|]. by rewrite Hr2.
Qed.

(** A message being hashed: the bytes and their number. *)
Definition so_msg (o : Sha1Class) (d : list Z) : Prop :=
  so_ok o d /\ so_byteCount o = u32 (Z.of_nat (length d)).

Lemma write_ok o d x :
  so_msg o d -> bytes_ok (d ++ [x]) ->
  so_msg (write o x) (d ++ [x]) /\
  so_keyBuffer (write o x) = so_keyBuffer o /\ so_innerHash (write o x) = so_innerHash o.
Proof.
  intros [Hok Hc] Hb. unfold write. set (o1 := Sha1Obj _ _ _ _ _ _).
  destruct (addUncounted_ok o1 d x Hok Hb) as [Hok' Hr].
  unfold so_rest in Hr. injection Hr as H1 H2 H3. split; [|done]. split; [done|].
  rewrite H1. cbn [so_byteCount o1]. rewrite Hc, u32_add_l, length_app. cbn [length].
  f_equal. lia.
Qed.

Lemma writes_ok xs o d :
  so_msg o d -> bytes_ok (d ++ xs) ->
  so_msg (foldl write o xs) (d ++ xs) /\
  so_keyBuffer (foldl write o xs) = so_keyBuffer o /\
  so_innerHash (foldl write o xs) = so_innerHash o.
Proof.
  revert o d. induction xs as [|x xs IH]; intros o d Hok Hb; [by rewrite app_nil_r|].
  rewrite cons_middle, app_assoc in *. cbn [foldl].
  assert (Hb' : bytes_ok (d ++ [x])) by (apply Forall_app in Hb; apply Hb).
  destruct (write_ok o d x Hok Hb') as (Hok1 & K1 & I1).
  destruct (IH _ _ Hok1 Hb) as (Hok2 & K2 & I2). by rewrite K2, I2, K1, I1.
Qed.

(** ** Padding and the result *)

Lemma pad_zeros_ok fuel o d (n := ((56 + 64 - length d mod 64) mod 64)%nat) :
  so_ok o d -> bytes_ok d -> (n < fuel)%nat ->
  exists o', pad_zeros fuel o = Some o' /\ so_ok o' (d ++ replicate n 0) /\ so_rest o' = so_rest o.
Proof.
  revert o d n. induction fuel as [|fuel IH]; intros o d n Hok Hb Hf; [lia|].
  cbn [pad_zeros]. pose proof Hok as (_ & Ho & _). rewrite Ho.
  destruct (decide (length d mod 64 = 56)%nat) as [E|E].
  - exists o. unfold n. rewrite E. change ((56 + 64 - 56) mod 64)%nat with 0%nat.
    by rewrite app_nil_r.
  - assert (Hb' : bytes_ok (d ++ [0])) by (apply bytes_ok_app; [done|repeat constructor; lia]).
    destruct (addUncounted_ok o d 0 Hok Hb') as [Hok' Hr].
    set (n' := ((56 + 64 - length (d ++ [0%Z]) mod 64) mod 64)%nat).
    assert (En : n = S n').
    { unfold n, n'. rewrite length_app. cbn [length]. by apply pad_count_succ. }
    destruct (IH (addUncounted o 0) (d ++ [0]) Hok' Hb') as (o' & E' & Hok2 & Hr2); [fold n'; lia|].
    exists o'. split; [done|]. split; [|by rewrite Hr2].
    rewrite En. cbn [replicate]. by rewrite cons_middle, app_assoc.
Qed.

(** Equality of bytes by their eight bits. *)
Lemma byte_bits x y :
  (forall i, 0 <= i < 8 -> Z.testbit x i = Z.testbit y i) -> u8 x = u8 y.
Proof.
  intros H. unfold u8. rewrite <- !Z.land_ones by lia. apply Z.bits_inj'. intros i Hi.
  rewrite !Z.land_spec. destruct (decide (i < 8)).
  - by rewrite H by lia.
  - by rewrite Z.ones_spec_high, !andb_false_r by lia.
Qed.

Ltac byte_cases :=
  intros i Hi;
  assert (i = 0 \/ i = 1 \/ i = 2 \/ i = 3 \/ i = 4 \/ i = 5 \/ i = 6 \/ i = 7)
    as [->|[->|[->|[->|[->|[->|[->| ->]]]]]]] by lia.

Lemma testbit_u32 z i : 0 <= i -> Z.testbit (u32 z) i = (i <? 32) && Z.testbit z i.
Proof.
  intros Hi. unfold u32. rewrite <- Z.land_ones, Z.land_spec by lia.
  rewrite Z.testbit_ones by lia. rewrite andb_comm. f_equal.
  destruct (0 <=? i) eqn:E; [done|lia].
Qed.

Ltac bit_norm :=
  unfold shl32, shr32;
  repeat first [rewrite Z.lor_spec | rewrite Z.land_spec | rewrite Z.shiftr_spec by lia
               | rewrite testbit_u32 by lia | rewrite Z.shiftl_spec by lia].

Lemma swap_word_be a : word_ok a -> le_bytes (swap_word a) = be_bytes a.
Proof.
  intros Ha. unfold le_bytes, be_bytes.
  assert (L : forall z, Z.land z 255 = u8 z).
  { intros z. change 255 with (Z.ones 8). apply Z.land_ones. lia. }
  rewrite !L. unfold swap_word.
  assert (T : forall i, 32 <= i -> Z.testbit a i = false).
  { intros i Hi. apply (testbit_high 32); [exact Ha|lia]. }
  repeat (apply (f_equal2 cons); [apply byte_bits|]); [..|done]; byte_cases;
  bit_norm; repeat match goal with
    | |- context [Z.testbit a ?i] =>
        first [rewrite (T i) by lia | rewrite (Z.testbit_neg_r a i) by lia] end;
  clear T Ha L; generalize (Z.testbit a); intros f; lazy;
    repeat match goal with |- context [f ?n] => destruct (f n) end; done.
Qed.

Lemma length_bytes_fips n :
  0 <= n < 2 ^ 32 ->
  [0; 0; 0; u8 (shr32 n 29); u8 (shr32 n 21); u8 (shr32 n 13); u8 (shr32 n 5); u8 (shl32 n 3)] =
  fips_len64 (8 * n).
Proof.
  intros Hn. unfold fips_len64, be_bytes. cbn [app].
  assert (L : forall z, Z.land z 255 = u8 z).
  { intros z. change 255 with (Z.ones 8). apply Z.land_ones. lia. }
  rewrite !L. unfold shr32, shl32. rewrite !Z.shiftr_div_pow2, Z.shiftl_mul_pow2 by lia.
  rewrite (u32_small (8 * n / 2 ^ 32)) by (Z.to_euclidean_division_equations; lia).
  unfold u8, u32. repeat (apply (f_equal2 cons); [Z.to_euclidean_division_equations; lia|]).
  done.
Qed.

Lemma result_ok o d :
  so_msg o d -> bytes_ok d -> Z.of_nat (length d) < 2 ^ 32 ->
  exists o', result o = Some (sha1_spec d, o') /\ length (so_buffer o') = 64%nat /\
    so_keyBuffer o' = so_keyBuffer o /\ so_innerHash o' = so_innerHash o.
Proof.
  intros [Hok Hc] Hb Hl. unfold result, pad.
  assert (Hb1 : bytes_ok (d ++ [128])) by (apply bytes_ok_app; [done|repeat constructor; lia]).
  destruct (addUncounted_ok o d 128 Hok Hb1) as [Hok1 Hr1].
  destruct (pad_zeros_ok 65 _ _ Hok1 Hb1) as (o2 & E2 & Hok2 & Hr2).
  { pose proof (Nat.mod_upper_bound (56 + 64 - length (d ++ [128]) mod 64) 64). lia. }
  rewrite E2. cbn [mbind option_bind].
  assert (Hn : so_byteCount o2 = Z.of_nat (length d)).
  { rewrite Hr1 in Hr2. unfold so_rest in Hr2. injection Hr2 as -> _ _. rewrite Hc.
    apply u32_small. lia. }
  rewrite Hn, length_bytes_fips by lia. set (lb := fips_len64 _).
  assert (Hb2 : bytes_ok ((d ++ [128]) ++ replicate ((56 + 64 - length (d ++ [128]) mod 64) mod 64) 0)).
  { apply bytes_ok_app; [done|]. apply bytes_ok_zeros. }
  destruct (adds_ok lb o2 _ Hok2) as [Hok3 Hr3].
  { apply bytes_ok_app; [done|]. apply bytes_ok_app; apply bytes_be_bytes. }
  set (o3 := foldl addUncounted o2 lb) in *. rewrite Hr2, Hr1 in Hr3. clearbody o3.
  unfold so_rest in Hr3. injection Hr3 as _ Hk Hi. eexists.
  split; [apply (f_equal Some), (f_equal2 pair); [|reflexivity]
         |split; [apply Hok3|split; [exact Hk|exact Hi]]].
  destruct Hok3 as [Hst _].
  assert (Hs : sha1_state_ok (so_state o3)) by (rewrite Hst; apply sha1_absorb_state_ok).
  destruct Hs as (H1 & H2 & H3 & H4 & H5). unfold state_bytes. cbn [sha_a sha_b sha_c sha_d sha_e].
  rewrite !swap_word_be by done. rewrite Hst. unfold sha1_spec, sha1_digest, md_pad.
  rewrite length_app, pad_count_119, <- !app_assoc. done.
Qed.

(** ** HMAC *)

(** Conversion treats the hash as a black box. *)
#[local] Opaque sha1_spec result.
#[local] Strategy 1000 [sha1_spec result initHmac resultHmac write addUncounted hashBlock foldl].

Lemma bytes_sha1 d : bytes_ok (sha1_spec d).
Proof. apply (dg_bytes (ctx := fr_sha1_ctx) (digest := sha1_spec)). Qed.
Lemma length_sha1 d : length (sha1_spec d) = 20%nat.
Proof. apply (dg_length (ctx := fr_sha1_ctx) (digest := sha1_spec)). Qed.

Lemma hmac_key_ok key :
  bytes_ok key ->
  bytes_ok (hmac_key sha1_spec key) /\ length (hmac_key sha1_spec key) = 64%nat.
Proof.
  intros Hb. unfold hmac_key. split.
  - apply bytes_ok_app; [|apply bytes_ok_zeros]. case_decide; [apply bytes_sha1|done].
  - rewrite length_app, length_replicate. case_decide; rewrite ?length_sha1; lia.
Qed.

Lemma bytes_xor c l : byte_ok c -> bytes_ok l -> bytes_ok (map (fun b => Z.lxor b c) l).
Proof.
  intros Hc Hl. apply Forall_map. eapply list.Forall_impl; [exact Hl|].
  intros b Hb. by apply byte_lxor.
Qed.

Lemma key_buffer key :
  (length key <= 64)%nat ->
  list_inserts 0 key (replicate BLOCK_LENGTH 0) = key ++ replicate (64 - length key) 0.
Proof.
  intros Hk. unfold BLOCK_LENGTH. replace 64%nat with (length key + (64 - length key))%nat at 1 by lia.
  rewrite replicate_add, list_inserts_0_r; [done|]. by rewrite length_replicate.
Qed.

Lemma initHmac_ok o key :
  length (so_buffer o) = 64%nat -> bytes_ok key -> Z.of_nat (length key) < 2 ^ 32 ->
  exists o', initHmac o key = Some o' /\
    so_msg o' (map (fun b => Z.lxor b 0x36) (hmac_key sha1_spec key)) /\
    so_keyBuffer o' = hmac_key sha1_spec key.
Proof.
  intros Hbuf Hb Hk. unfold initHmac.
  match goal with |- context [mbind _ ?m] => set (M := m) end.
  assert (HM : exists o1, M = Some o1 /\ length (so_buffer o1) = 64%nat /\
    so_keyBuffer o1 = hmac_key sha1_spec key).
  { unfold M, hmac_key. change (decide (BLOCK_LENGTH < length key)%nat)
      with (decide (64 < length key)%nat). destruct (decide (64 < length key)%nat) as [Hc|Hc].
    - set (o0 := Sha1Obj _ _ _ _ _ _).
      destruct (writes_ok key (init o0) []) as (Hm & K & _);
        [split; [by apply init_ok|done]|done|].
      destruct (result_ok _ _ Hm Hb Hk) as (o1 & -> & Hb1 & K1 & _).
      cbn [mbind option_bind]. eexists. split; [done|]. split; [done|].
      cbn [so_keyBuffer]. rewrite K1, K. cbn [so_keyBuffer init o0]. apply key_buffer.
      rewrite length_sha1. lia.
    - eexists. split; [done|]. split; [done|].
      cbn [so_keyBuffer]. apply key_buffer. lia. }
  destruct HM as (o1 & -> & Hb1 & K1). cbn [mbind option_bind].
  change (so_keyBuffer (init o1)) with (so_keyBuffer o1). rewrite K1. eexists. split; [done|].
  destruct (hmac_key_ok key Hb) as [Hkb _].
  destruct (writes_ok (map (fun b => Z.lxor b HMAC_IPAD) (hmac_key sha1_spec key)) (init o1) [])
    as (Hm & K & _); [split; [by apply init_ok|done]|by apply bytes_xor|].
  split; [done|]. by rewrite K.
Qed.

Lemma resultHmac_ok o key text :
  so_msg o (map (fun b => Z.lxor b 0x36) (hmac_key sha1_spec key) ++ text) ->
  so_keyBuffer o = hmac_key sha1_spec key ->
  bytes_ok key -> bytes_ok text -> Z.of_nat (64 + length text) < 2 ^ 32 ->
  exists o', resultHmac o = Some (hmac_spec sha1_spec key text, o') /\
    length (so_buffer o') = 64%nat.
Proof.
  intros Hm K Hb Ht Hl. destruct (hmac_key_ok key Hb) as [Hkb Hkl]. unfold resultHmac.
  destruct (result_ok o _ Hm) as (o1 & -> & Hb1 & K1 & _).
  { apply bytes_ok_app; [by apply bytes_xor|done]. }
  { rewrite length_app, length_map, Hkl. lia. }
  cbn [mbind option_bind]. set (h := sha1_spec _). set (o2 := Sha1Obj _ _ _ _ _ h).
  change (so_keyBuffer (init o2)) with (so_keyBuffer o1). rewrite K1, K.
  destruct (writes_ok (map (fun b => Z.lxor b HMAC_OPAD) (hmac_key sha1_spec key)) (init o2) [])
    as (Hm2 & _ & I2); [split; [by apply init_ok|done]|by apply bytes_xor|].
  set (o3 := foldl write (init o2) _) in *. rewrite I2. change (so_innerHash (init o2)) with h.
  destruct (writes_ok h o3 _ Hm2) as (Hm3 & _).
  { apply bytes_ok_app; [by apply bytes_xor|apply bytes_sha1]. }
  destruct (result_ok _ _ Hm3) as (o4 & E4 & Hb4 & _).
  { apply bytes_ok_app; [by apply bytes_xor|apply bytes_sha1]. }
  { rewrite !length_app, length_map, Hkl. unfold h. rewrite length_sha1. simpl. lia. }
  exists o4. split; [|done]. exact E4.
Qed.

(** ** Codes *)

Lemma long_truncated h0 h1 h2 h3 :
  byte_ok h0 -> byte_ok h1 -> byte_ok h2 -> byte_ok h3 ->
  let step v h := Z.lor (shl32 v 8) h in
  Z.land (step (step (step (step 0 h0) h1) h2) h3) 0x7fffffff =
  be_value [h0; h1; h2; h3] mod 2 ^ 31.
Proof.
  intros H0 H1 H2 H3 step. unfold byte_ok in *.
  assert (E : forall v h, 0 <= v < 2 ^ 24 -> 0 <= h < 256 -> step v h = 256 * v + h).
  { intros v h Hv Hh. unfold step, shl32.
    rewrite u32_small by (rewrite Z.shiftl_mul_pow2 by lia; lia).
    rewrite lor_shiftl_add by lia. lia. }
  rewrite (E 0 h0) by lia. rewrite (E (256 * 0 + h0) h1) by lia. rewrite (E _ h2) by lia.
  rewrite (E _ h3) by lia. change 0x7fffffff with (Z.ones 31). rewrite Z.land_ones by lia.
  unfold be_value. cbn [foldl]. done.
Qed.

Lemma sprintf_06ld_spec n : 0 <= n < 10 ^ 6 -> sprintf_06ld n = six_digits n ++ [0].
Proof.
  intros Hn. rewrite <- snprintf_06u_spec by done. unfold sprintf_06ld, snprintf_06u.
  rewrite take_ge; [by rewrite <- app_assoc|].
  pose proof (dec_digits_fixed 6 10 n [] Hn ltac:(lia)) as E. cbn [length] in E.
  rewrite Nat.add_0_r in E. rewrite E. cbn [fixed_digits length]. lia.
Qed.

Lemma counter_bytes steps :
  0 <= steps < 2 ^ 32 ->
  [0; 0; 0; 0; Z.land (Z.shiftr steps 24) 0xff; Z.land (Z.shiftr steps 16) 0xff;
   Z.land (Z.shiftr steps 8) 0xff; Z.land steps 0xff] = be64 steps.
Proof.
  intros Hs. rewrite <- totp_data.
  assert (Hz : forall k, 32 <= k -> u8 (Z.shiftr steps k) = 0).
  { intros k Hk. rewrite Z.shiftr_div_pow2, Z.div_small; [done| |lia].
    split; [lia|]. eapply Z.lt_le_trans; [apply Hs|]. apply Z.pow_le_mono_r; lia. }
  rewrite !Hz by lia.
  assert (L : forall z, Z.land z 255 = u8 z).
  { intros z. change 255 with (Z.ones 8). apply Z.land_ones. lia. }
  rewrite !L. repeat (apply (f_equal2 cons); [done|]). apply (f_equal2 cons); [|done].
  symmetry. apply u8_small, u8_range.
Qed.

Lemma truncate_code_ok hs :
  length hs = 20%nat -> bytes_ok hs ->
  truncate_code hs = Some (six_digits (hotp_truncate hs) ++ [0]).
Proof.
  intros Lh Bh. unfold truncate_code, hotp_truncate.
  assert (Hr : forall i, (i < 20)%nat -> rd hs i = Some (hs !!! i) /\ byte_ok (hs !!! i)).
  { intros i Hi. assert (E : rd hs i = Some (hs !!! i)) by (apply list_lookup_lookup_total_lt; lia).
    split; [done|]. by apply (bytes_ok_lookup hs i). }
  change (20 - 1)%nat with 19%nat. destruct (Hr 19%nat) as [-> H19]; [lia|].
  cbn [mbind option_bind]. change 0xf with (Z.ones 4). rewrite Z.land_ones by lia.
  pose proof (Z.mod_pos_bound (hs !!! 19%nat) (2 ^ 4) ltac:(lia)) as Ho.
  change (2 ^ 4) with 16 in *.
  set (f := Z.to_nat (hs !!! 19%nat mod 16)) in *. assert (Ho' : (f < 16)%nat) by lia.
  destruct (Hr f) as [E0 B0]; [lia|]. destruct (Hr (f + 1)%nat) as [E1 B1]; [lia|].
  destruct (Hr (f + 2)%nat) as [E2 B2]; [lia|]. destruct (Hr (f + 3)%nat) as [E4 B4]; [lia|].
  rewrite E0, E1, E2, E4. cbn [mbind option_bind].
  rewrite long_truncated by done. rewrite (slice_4 hs f _ _ _ _ E0 E1 E2 E4).
  set (v := be_value _ mod 2 ^ 31).
  assert (Hv : 0 <= v) by (apply Z.mod_pos_bound; lia).
  rewrite Z.rem_mod_nonneg by lia. change 1000000 with (10 ^ 6).
  rewrite sprintf_06ld_spec by (apply Z.mod_pos_bound; lia). done.
Qed.

Lemma bytes_be64 n : bytes_ok (be64 n).
Proof. unfold be64. apply Forall_map, Forall_true. intros x. apply u8_range. Qed.

Lemma getCodeFromSteps_eq t o steps :
  0 <= steps < 2 ^ 32 ->
  getCodeFromSteps t o steps =
  (o ← initHmac o (_hmacKey t);
   '(hash, o) ← resultHmac (foldl write o (be64 steps));
   code ← truncate_code hash; Some (code, o)).
Proof. intros Hs. unfold getCodeFromSteps. by rewrite counter_bytes. Qed.

Lemma bind_eq {A B} (m : option A) (f : A -> option B) x : m = Some x -> m ≫= f = f x.
Proof. by intros ->. Qed.

Lemma getCodeFromSteps_ok key ts o steps :
  length (so_buffer o) = 64%nat -> bytes_ok key -> Z.of_nat (length key) < 2 ^ 31 ->
  0 <= steps < 2 ^ 31 ->
  exists o', getCodeFromSteps (Totp key ts) o steps = Some (six_digits (hotp key steps) ++ [0], o') /\
    length (so_buffer o') = 64%nat.
Proof.
  intros Hbuf Hb Hk Hs. rewrite getCodeFromSteps_eq by lia.
  destruct (initHmac_ok o key Hbuf Hb) as (o1 & E1 & Hm1 & K1); [lia|].
  destruct (hmac_key_ok key Hb) as [Hkb _].
  destruct (writes_ok (be64 steps) o1 _ Hm1) as (Hm2 & K2 & _).
  { apply bytes_ok_app; [by apply bytes_xor|apply bytes_be64]. }
  rewrite K1 in K2.
  destruct (resultHmac_ok _ key (be64 steps) Hm2 K2 Hb (bytes_be64 steps)) as (o3 & E3 & Hb3);
    [unfold be64; cbn [map length]; lia|].
  exists o3. split; [|exact Hb3].
  etransitivity; [exact (bind_eq _ _ _ E1)|]. etransitivity; [exact (bind_eq _ _ _ E3)|].
  exact (bind_eq _ _ _ (truncate_code_ok _ (length_hmac_sha1 key (be64 steps))
    (bytes_hmac_sha1 key (be64 steps)))).
Qed.

Lemma getCode_ok key o time :
  length (so_buffer o) = 64%nat -> bytes_ok key -> Z.of_nat (length key) < 2 ^ 31 ->
  0 <= time < 2 ^ 31 ->
  exists o', getCode (TOTP_new key) o time = Some (rfc6238_totp key time ++ [0], o') /\
    length (so_buffer o') = 64%nat.
Proof.
  intros Hbuf Hb Hk Ht. unfold getCode, TOTP_new, rfc6238_totp. cbn [_timeStep].
  rewrite Z.quot_div_nonneg by lia. apply getCodeFromSteps_ok; [done..|].
  split; [apply Z.div_pos; lia|]. apply Z.div_lt_upper_bound; lia.
Qed.

(** ** Properties *)

(** C17: the door's SHA-1 object hashes any byte string of less than 2^32 bytes to its
    FIPS 180-4 digest, whatever the object held before: the byte-reversed buffer, the
    rolled rounds with the schedule kept in the buffer, the padding loop and the byte
    swap of the result compute the same function as the server's unrolled [sha1.c]. *)
Theorem arduino_sha1_fips o d :
  length (so_buffer o) = 64%nat -> bytes_ok d -> Z.of_nat (length d) < 2 ^ 32 ->
  exists o', result (foldl write (init o) d) = Some (sha1_spec d, o').
Proof.
  intros Hbuf Hb Hl.
  destruct (writes_ok d (init o) []) as (Hm & _); [split; [by apply init_ok|done]|done|].
  destruct (result_ok _ _ Hm Hb Hl) as (o' & E & _). by exists o'.
Qed.

Lemma arduino_sha1_fips_witness :
  exists o', result (foldl write (init (Sha1Obj (replicate 64 7) 3 (Sha1State 1 2 3 4 5) 9
      (replicate 64 1) (replicate 20 1))) [97; 98; 99]) = Some (sha1_spec [97; 98; 99], o').
Proof.
  apply arduino_sha1_fips;
    [reflexivity|by apply (bool_decide_unpack _); vm_compute|simpl; lia].
Defined.

(** C33: [TOTP::getCode] with the default time step returns the six ASCII digits, and the
    terminating NUL, of the RFC 6238 password of the key at the given time, for every
    non-negative 32-bit time: the code the server's [totp_cmp] accepts.  It never reads
    outside its buffers and leaves the shared SHA-1 object reusable. *)
Theorem getCode_rfc6238 key o time :
  length (so_buffer o) = 64%nat -> bytes_ok key -> Z.of_nat (length key) < 2 ^ 31 ->
  0 <= time < 2 ^ 31 ->
  exists o', getCode (TOTP_new key) o time = Some (rfc6238_totp key time ++ [0], o') /\
    length (so_buffer o') = 64%nat.
Proof. apply getCode_ok. Qed.

Lemma getCode_rfc6238_witness :
  exists o', getCode (TOTP_new (map (fun i => 48 + Z.of_nat i mod 10) (seq 1 20)))
      (Sha1Obj (replicate 64 7) 3 (Sha1State 1 2 3 4 5) 9 (replicate 64 1) (replicate 20 1)) 59 =
      Some (rfc6238_totp (map (fun i => 48 + Z.of_nat i mod 10) (seq 1 20)) 59 ++ [0], o') /\
    length (so_buffer o') = 64%nat.
Proof.
  apply getCode_rfc6238;
    [reflexivity|by apply (bool_decide_unpack _); vm_compute|simpl; lia|lia].
Defined.
