(* ===== verification/Ndef.v ===== *)
(** * NDEF messages: [arduino-libraries/NDEF]

    [NdefRecord.cpp] and [NdefMessage.cpp]: the message format the phone writes to the
    door.  A record owns copies of its type, id and payload, whose stored lengths are the
    lengths of the lists.  [data] is the memory from the decoder's pointer to the end of
    the object it points into; [None] is an access outside it. *)
From S2P Require Import Prelude Bytes.

Definition MAX_NDEF_RECORDS : nat := 4.

Record NdefRecord := Record_ {
  r_tnf : Z;
  r_type : list Z;
  r_payload : list Z;
  r_id : list Z
}.

#[global] Instance NdefRecord_eq_dec : EqDecision NdefRecord.
Proof. solve_decision. Defined.

(** ** Encoding *)

Definition getEncodedSize (r : NdefRecord) : nat :=
  2 + (if decide (255 < length (r_payload r))%nat then 4 else 1) +
  (if decide (length (r_id r) <> 0%nat) then 1 else 0) +
  (length (r_type r) + length (r_payload r) + length (r_id r)).

Definition getTnfByte (r : NdefRecord) (firstRecord lastRecord : bool) : Z :=
  let value := r_tnf r in
  let value := if firstRecord then Z.lor value 0x80 else value in
  let value := if lastRecord then Z.lor value 0x40 else value in
  let value := if decide (length (r_payload r) <= 255)%nat then Z.lor value 0x10 else value in
  let value := if decide (length (r_id r) <> 0%nat) then Z.lor value 0x8 else value in
  u8 value.

(** [NdefRecord::encode]: the bytes stored from [data] on. *)
Definition encode_record (r : NdefRecord) (firstRecord lastRecord : bool) : list Z :=
  let n := Z.of_nat (length (r_payload r)) in
  [getTnfByte r firstRecord lastRecord; u8 (Z.of_nat (length (r_type r)))] ++
  (if decide (n <= 0xff) then [u8 n]
   else [0; 0; Z.land (Z.shiftr n 8) 0xff; Z.land n 0xff]) ++
  (if decide (length (r_id r) <> 0%nat) then [u8 (Z.of_nat (length (r_id r)))] else []) ++
  r_type r ++
  (if decide (length (r_id r) <> 0%nat) then r_id r else []) ++
  r_payload r.

(** [NdefMessage::encode] from record [i] of [count] on, at [ptr] of the buffer. *)
Fixpoint ndef_encode_loop (i count : nat) (rs : list NdefRecord) (ptr : nat) (data : list Z)
    : option (list Z) :=
  match rs with
  | [] => Some data
  | r :: rs' =>
      data ← wr_slice ptr (encode_record r (bool_decide (i = 0%nat))
                             (bool_decide (S i = count))) data;
      ndef_encode_loop (S i) count rs' (ptr + getEncodedSize r) data
  end.

Definition encode_message (rs : list NdefRecord) (data : list Z) : option (list Z) :=
  ndef_encode_loop 0 (length rs) rs 0 data.

(** ** Decoding *)

(** The body of the loop: the record, the next index, and the flag of the last record. *)
Definition decode_record (data : list Z) (index : nat) : option (NdefRecord * nat * bool) :=
  tnf_byte ← rd data index;
  let me := negb (bool_decide (Z.land tnf_byte 0x40 = 0)) in
  let sr := negb (bool_decide (Z.land tnf_byte 0x10 = 0)) in
  let il := negb (bool_decide (Z.land tnf_byte 0x8 = 0)) in
  let tnf := Z.land tnf_byte 0x7 in
  let index := S index in
  typeLength ← rd data index;
  '(payloadLength, index) ←
    (if sr then
       let index := S index in
       n ← rd data index; Some (n, index)
     else
       b0 ← rd data index;
       b1 ← rd data (index + 1);
       b2 ← rd data (index + 2);
       b3 ← rd data (index + 3);
       Some (Z.lor (Z.lor (Z.lor (shl32 b0 24) (shl32 b1 16)) (shl32 b2 8)) b3, (index + 4)%nat));
  '(idLength, index) ←
    (if il then let index := S index in n ← rd data index; Some (n, index)
     else Some (0, index));
  let index := S index in
  type ← rd_slice index (Z.to_nat typeLength) data;
  let index := (index + Z.to_nat typeLength)%nat in
  '(id, index) ←
    (if il then
       id ← rd_slice index (Z.to_nat idLength) data;
       Some (id, (index + Z.to_nat idLength)%nat)
     else Some ([], index));
  payload ← rd_slice index (Z.to_nat payloadLength) data;
  Some (Record_ tnf type payload id, (index + Z.to_nat payloadLength)%nat, me).

(** [addRecord]: records beyond the capacity are dropped. *)
Definition addRecord (rs : list NdefRecord) (r : NdefRecord) : list NdefRecord :=
  if decide (length rs < MAX_NDEF_RECORDS)%nat then rs ++ [r] else rs.

(** [while (index <= numBytes) { ... }] *)
Fixpoint ndef_decode_loop (fuel : nat) (data : list Z) (numBytes index : nat) (rs : list NdefRecord)
    : option (list NdefRecord) :=
  match fuel with
  | O => None
  | S fuel' =>
      if decide (index <= numBytes)%nat then
        '(r, index, me) ← decode_record data index;
        let rs := addRecord rs r in
        if (me : bool) then Some rs else ndef_decode_loop fuel' data numBytes index rs
      else Some rs
  end.

(** The constructor [NdefMessage(data, numBytes)]; every turn reads at least one byte
    behind the previous one. *)
Definition decode_message (data : list Z) (numBytes : nat) : option (list NdefRecord) :=
  ndef_decode_loop (S (length data)) data numBytes 0 [].

Definition getRecord (rs : list NdefRecord) (index : Z) : NdefRecord :=
  if decide (-1 < index /\ index < Z.of_nat (length rs))
  then default (Record_ 0 [] [] []) (rs !! Z.to_nat index)
  else Record_ 0 [] [] [].

(** [getType()] and [getId()] as [String]: up to the first NUL. *)
Fixpoint c_string (l : list Z) : list Z :=
  match l with
  | [] => []
  | c :: l' => if decide (c = 0) then [] else c :: c_string l'
  end.
Definition getType (r : NdefRecord) : list Z := c_string (r_type r).
Definition getId (r : NdefRecord) : list Z := c_string (r_id r).

(** ** Records *)

(** What [encode] can represent in the short format. *)
Definition record_short (r : NdefRecord) : Prop :=
  0 <= r_tnf r < 8 /\ (length (r_type r) <= 255)%nat /\ (length (r_payload r) <= 255)%nat /\
  (length (r_id r) <= 255)%nat.
#[global] Instance record_short_dec r : Decision (record_short r).
Proof. unfold record_short. apply _. Defined.

Lemma length_encode_record r f l : length (encode_record r f l) = getEncodedSize r.
Proof.
  unfold encode_record, getEncodedSize. rewrite !length_app. cbn [length].
  destruct (decide (Z.of_nat (length (r_payload r)) <= 0xff));
    destruct (decide (255 < length (r_payload r))%nat); try lia;
    destruct (decide (length (r_id r) <> 0%nat)); cbn [length]; lia.
Qed.

(** The flags of the first byte of a record. *)
Lemma tnf_flags (tnf : Z) (f l s i : bool) :
  0 <= tnf < 8 ->
  let v := tnf in
  let v := if f then Z.lor v 0x80 else v in
  let v := if l then Z.lor v 0x40 else v in
  let v := if s then Z.lor v 0x10 else v in
  let v := if i then Z.lor v 0x8 else v in
  negb (bool_decide (Z.land (u8 v) 0x40 = 0)) = l /\
  negb (bool_decide (Z.land (u8 v) 0x10 = 0)) = s /\
  negb (bool_decide (Z.land (u8 v) 0x8 = 0)) = i /\
  Z.land (u8 v) 0x7 = tnf.
Proof.
  intros Ht. assert (tnf = 0 \/ tnf = 1 \/ tnf = 2 \/ tnf = 3 \/ tnf = 4 \/ tnf = 5 \/
    tnf = 6 \/ tnf = 7) as [->|[->|[->|[->|[->|[->|[->| ->]]]]]]] by lia;
    destruct f, l, s, i; vm_compute; done.
Qed.

Lemma rd_at (pre l : list Z) off k : off = (length pre + k)%nat -> rd (pre ++ l) off = l !! k.
Proof. intros ->. unfold rd. rewrite lookup_app_r by lia. f_equal. lia. Qed.

Ltac rd_step pre off k :=
  rewrite (rd_at pre _ off k) by lia; cbn [lookup list_lookup mbind option_bind].

Lemma rd_slice_split (data a b c : list Z) off n :
  data = a ++ b ++ c -> off = length a -> n = length b -> rd_slice off n data = Some b.
Proof.
  intros -> -> ->. rewrite rd_slice_Some by (rewrite !length_app; lia). f_equal.
  unfold slice. rewrite drop_app_length. apply take_app_length.
Qed.

(** The three variable fields behind a header [h]. *)
Lemma rd_fields (pre h ty id pl post : list Z) (off := (length pre + length h)%nat)
    (data := pre ++ h ++ ty ++ id ++ pl ++ post) :
  rd_slice off (length ty) data = Some ty /\
  rd_slice (off + length ty) (length id) data = Some id /\
  rd_slice (off + length ty + length id) (length pl) data = Some pl.
Proof.
  split; [|split].
  - apply (rd_slice_split _ (pre ++ h) _ (id ++ pl ++ post));
      [by rewrite <- app_assoc|by rewrite length_app|done].
  - apply (rd_slice_split _ (pre ++ h ++ ty) _ (pl ++ post));
      [by rewrite <- !app_assoc|rewrite !length_app; unfold off; lia|done].
  - apply (rd_slice_split _ (pre ++ h ++ ty ++ id) _ post);
      [by rewrite <- !app_assoc|rewrite !length_app; unfold off; lia|done].
Qed.

(** A short record is decoded to itself, wherever it stands. *)
Lemma decode_encode_record r f l (pre post : list Z) :
  record_short r ->
  decode_record (pre ++ encode_record r f l ++ post) (length pre) =
    Some (r, (length pre + getEncodedSize r)%nat, l).
Proof.
  intros (Ht & Hty & Hp & Hi). unfold decode_record, encode_record.
  assert (E255 : forall n, (n <= 255)%nat -> Z.to_nat (u8 (Z.of_nat n)) = n).
  { intros n Hn. rewrite u8_small by lia. lia. }
  rewrite (decide_True (P := Z.of_nat (length (r_payload r)) <= 0xff)) by lia.
  unfold getEncodedSize. rewrite (decide_False (P := (255 < length (r_payload r))%nat)) by lia.
  rewrite <- !app_assoc.
  destruct (decide (length (r_id r) <> 0%nat)) as [Hid|Hid].
  - destruct (tnf_flags (r_tnf r) f l true true Ht) as (Fl & Fs & Fi & Ft).
    assert (Eb : getTnfByte r f l = u8 (Z.lor (Z.lor
      (if l then Z.lor (if f then Z.lor (r_tnf r) 0x80 else r_tnf r) 0x40
       else if f then Z.lor (r_tnf r) 0x80 else r_tnf r) 0x10) 0x8)).
    { unfold getTnfByte. rewrite !decide_True by done. done. }
    rewrite Eb. set (b0 := u8 (Z.lor (Z.lor _ _) _)) in *. cbv zeta in *.
    destruct (rd_fields pre [b0; u8 (Z.of_nat (length (r_type r)));
      u8 (Z.of_nat (length (r_payload r))); u8 (Z.of_nat (length (r_id r)))]
      (r_type r) (r_id r) (r_payload r) post) as (R1 & R2 & R3).
    cbn [app length] in *.
    rd_step pre (length pre) 0%nat. rewrite Fl, Fs, Fi, Ft. rd_step pre (S (length pre)) 1%nat.
    rd_step pre (S (S (length pre))) 2%nat. rd_step pre (S (S (S (length pre)))) 3%nat.
    rewrite !E255 by lia. replace (length pre + 4)%nat with (S (S (S (S (length pre))))) in R1, R2, R3 by lia.
    rewrite R1. cbn [mbind option_bind].
    rewrite R2. cbn [mbind option_bind]. rewrite R3. cbn [mbind option_bind].
    apply (f_equal Some), (f_equal2 pair); [|done]. apply (f_equal2 pair); [by destruct r|lia].
  - assert (Hnil : r_id r = []) by (destruct (r_id r); [done|simpl in Hid; lia]).
    destruct (tnf_flags (r_tnf r) f l true false Ht) as (Fl & Fs & Fi & Ft).
    assert (Eb : getTnfByte r f l = u8 (Z.lor
      (if l then Z.lor (if f then Z.lor (r_tnf r) 0x80 else r_tnf r) 0x40
       else if f then Z.lor (r_tnf r) 0x80 else r_tnf r) 0x10)).
    { unfold getTnfByte. rewrite decide_False, decide_True by (done || lia). done. }
    rewrite Eb. set (b0 := u8 (Z.lor _ _)) in *. cbv zeta in *.
    destruct (rd_fields pre [b0; u8 (Z.of_nat (length (r_type r)));
      u8 (Z.of_nat (length (r_payload r)))] (r_type r) [] (r_payload r) post) as (R1 & _ & R3).
    cbn [app length] in *.
    rd_step pre (length pre) 0%nat. rewrite Fl, Fs, Fi, Ft. rd_step pre (S (length pre)) 1%nat.
    rd_step pre (S (S (length pre))) 2%nat.
    rewrite !E255 by lia. rewrite Nat.add_0_r in R3.
    replace (length pre + 3)%nat with (S (S (S (length pre)))) in R1, R3 by lia. rewrite R1. cbn [mbind option_bind].
    rewrite R3. cbn [mbind option_bind].
    apply (f_equal Some), (f_equal2 pair); [|done].
    apply (f_equal2 pair); [rewrite <- Hnil; by destruct r|rewrite Hnil; cbn [length]; lia].
Qed.

(** ** Messages *)

(** The bytes of a message, from record [i] of [count] on. *)
Fixpoint message_bytes (i count : nat) (rs : list NdefRecord) : list Z :=
  match rs with
  | [] => []
  | r :: rs' =>
      encode_record r (bool_decide (i = 0%nat)) (bool_decide (S i = count)) ++
      message_bytes (S i) count rs'
  end.

Lemma ndef_encode_loop_spec rs i count (a b c : list Z) :
  length b = length (message_bytes i count rs) ->
  ndef_encode_loop i count rs (length a) (a ++ b ++ c) = Some (a ++ message_bytes i count rs ++ c).
Proof.
  revert i a b. induction rs as [|r rs IH]; intros i a b Hl.
  { by destruct b. }
  cbn [ndef_encode_loop message_bytes] in *. set (e := encode_record _ _ _) in *.
  rewrite length_app in Hl. rewrite wr_slice_Some by (rewrite !length_app; lia).
  cbn [mbind option_bind].
  assert (E : list_inserts (length a) e (a ++ b ++ c) = (a ++ e) ++ drop (length e) b ++ c).
  { rewrite <- (Nat.add_0_r (length a)), list_inserts_app_r. rewrite <- app_assoc. f_equal.
    rewrite <- (take_drop (length e) b) at 1. rewrite <- app_assoc, list_inserts_0_r; [done|].
    rewrite length_take. lia. }
  rewrite E, <- (length_encode_record r (bool_decide (i = 0%nat)) (bool_decide (S i = count))).
  fold e. rewrite <- length_app, IH by (rewrite length_drop; lia). by rewrite <- !app_assoc.
Qed.

(** Decoding an encoded message, the last record of which carries the end flag. *)
Lemma ndef_decode_loop_spec rs i (pre post : list Z) acc count numBytes fuel :
  Forall record_short rs -> rs <> [] -> count = (i + length rs)%nat ->
  (length acc + length rs <= MAX_NDEF_RECORDS)%nat ->
  (length pre + length (message_bytes i count rs) <= numBytes)%nat ->
  (length rs <= fuel)%nat ->
  ndef_decode_loop fuel (pre ++ message_bytes i count rs ++ post) numBytes (length pre) acc =
    Some (acc ++ rs).
Proof.
  revert i pre acc fuel. induction rs as [|r rs IH]; intros i pre acc fuel Hs Hne -> Hc Hn Hf; [done|].
  apply list.Forall_cons in Hs as [Hr Hs]. cbn [message_bytes length] in *.
  destruct fuel as [|fuel]; [lia|]. cbn [ndef_decode_loop].
  rewrite length_app in Hn. rewrite decide_True by lia. rewrite <- app_assoc.
  rewrite decode_encode_record by done. cbn [mbind option_bind].
  unfold addRecord. rewrite decide_True by lia.
  destruct rs as [|r2 rs].
  - rewrite bool_decide_eq_true_2 by (cbn [length]; lia). done.
  - rewrite bool_decide_eq_false_2 by (cbn [length]; lia).
    set (e := encode_record r _ _). rewrite app_assoc.
    replace (length pre + getEncodedSize r)%nat with (length (pre ++ e))
      by (unfold e; rewrite length_app, length_encode_record; lia).
    rewrite IH; [by rewrite <- app_assoc|done|done|cbn [length]; lia|..|lia].
    + rewrite length_app. cbn [length] in *. lia.
    + rewrite length_app. unfold e. rewrite length_encode_record in Hn |- *. cbn [length] in *. lia.
Qed.

Lemma length_message_bytes i count rs :
  (2 * length rs <= length (message_bytes i count rs))%nat.
Proof.
  revert i. induction rs as [|r rs IH]; intros i; [done|]. cbn [message_bytes length].
  rewrite length_app, length_encode_record. unfold getEncodedSize. specialize (IH (S i)). lia.
Qed.

(** Each turn of the loop moves forward from a byte inside the data. *)
Lemma decode_record_progress data index r index' me :
  decode_record data index = Some (r, index', me) -> (index < length data /\ index < index')%nat.
Proof.
  unfold decode_record. intros E.
  destruct (rd data index) as [b|] eqn:E0; [|done]. cbn [mbind option_bind] in E.
  assert (Hl : (index < length data)%nat) by (by eapply lookup_lt_Some).
  split; [done|]. destruct (rd data (S index)) as [tl|]; [|done]. cbn [mbind option_bind] in E.
  set (sr := negb (bool_decide (Z.land b 0x10 = 0))) in E. set (il := negb (bool_decide (Z.land b 0x8 = 0))) in E.
  match type of E with (?m ≫= _) = _ => destruct m as [[pl i1]|] eqn:E1; [|done] end.
  assert (H1 : (S index < i1)%nat).
  { destruct sr.
    - destruct (rd data (S (S index))); [|done]. injection E1 as _ <-. lia.
    - cbn [mbind option_bind] in E1. destruct (rd data (S index + 1)); [|done].
      destruct (rd data (S index + 2)); [|done]. destruct (rd data (S index + 3)); [|done].
      injection E1 as _ <-. lia. }
  cbn [mbind option_bind] in E.
  match type of E with (?m ≫= _) = _ => destruct m as [[idl i2]|] eqn:E2; [|done] end.
  assert (H2 : (i1 <= i2)%nat).
  { destruct il; [|by injection E2 as _ <-]. destruct (rd data (S i1)); [|done].
    injection E2 as _ <-. lia. }
  cbn [mbind option_bind] in E. destruct (rd_slice (S i2) (Z.to_nat tl) data); [|done].
  cbn [mbind option_bind] in E.
  match type of E with (?m ≫= _) = _ => destruct m as [[id i3]|] eqn:E3; [|done] end.
  assert (H3 : (i2 < i3)%nat).
  { destruct il; [|injection E3 as _ <-; lia].
    destruct (rd_slice (S i2 + Z.to_nat tl) (Z.to_nat idl) data); [|done].
    injection E3 as _ <-. lia. }
  cbn [mbind option_bind] in E. destruct (rd_slice i3 (Z.to_nat pl) data); [|done].
  injection E as _ <- _. lia.
Qed.

(** So the fuel of [decode_message] never runs out: more fuel changes nothing. *)
Lemma ndef_decode_fuel fuel data numBytes index rs :
  (length data - index < fuel)%nat ->
  ndef_decode_loop fuel data numBytes index rs = ndef_decode_loop (S fuel) data numBytes index rs.
Proof.
  revert index rs. induction fuel as [|fuel IH]; intros index rs Hf; [lia|].
  remember (S fuel) as f eqn:Ef. cbn [ndef_decode_loop]. rewrite Ef at 1. cbn [ndef_decode_loop].
  case_decide; [|done]. destruct (decode_record data index) as [[[r i'] me]|] eqn:E; [|done].
  cbn [mbind option_bind]. destruct me; [done|]. subst f.
  apply decode_record_progress in E as [H1 H2]. apply IH. lia.
Qed.

(** ** Properties *)

(** C29: encoding a message of one to four records whose type, id and payload have at most
    255 bytes, and decoding the buffer it was written to, gives the records back, with
    whatever follows the message in the buffer; the encoder writes only the bytes its
    size functions announce, and neither leaves the buffer. *)
Theorem ndef_roundtrip rs (data : list Z) numBytes (n := sum_list_with getEncodedSize rs) :
  Forall record_short rs -> (0 < length rs <= MAX_NDEF_RECORDS)%nat ->
  (n <= length data)%nat -> (n <= numBytes)%nat ->
  exists data', encode_message rs data = Some data' /\
    drop n data' = drop n data /\ length data' = length data /\
    decode_message data' numBytes = Some rs.
Proof.
  intros Hs Hc Hl Hn.
  assert (Hb : forall i c, length (message_bytes i c rs) = n).
  { unfold n. clear. induction rs as [|r rs IH]; intros i c; [done|].
    cbn [message_bytes sum_list_with]. by rewrite length_app, length_encode_record, IH. }
  set (m := message_bytes 0 (length rs) rs).
  exists (m ++ drop n data).
  assert (Hm : length m = n) by apply Hb.
  split; [|split; [|split]].
  - unfold encode_message. rewrite <- (take_drop n data) at 1.
    apply (ndef_encode_loop_spec rs 0 (length rs) []). rewrite Hb, length_take. lia.
  - rewrite drop_app_ge by lia. by rewrite Hm, Nat.sub_diag, drop_0.
  - rewrite length_app, length_drop, Hm. lia.
  - unfold decode_message. pose proof (length_message_bytes 0 (length rs) rs) as H2. fold m in H2.
    apply (ndef_decode_loop_spec rs 0 [] _ []);
      [done|intros ->; simpl in Hc; lia|done|simpl; lia|fold m; simpl; lia|].
    rewrite length_app, length_drop. lia.
Qed.

Definition example_records : list NdefRecord :=
  [Record_ 4 [107; 101; 121] [1; 2; 3] []; Record_ 2 [] [9] [117; 105; 100]].

Lemma ndef_roundtrip_witness :
  exists data', encode_message example_records (replicate 126 7) = Some data' /\
    drop 17 data' = drop 17 (replicate 126 7) /\ length data' = 126%nat /\
    decode_message data' 100 = Some example_records.
Proof.
  apply (ndef_roundtrip example_records (replicate 126 7) 100);
    [by apply (bool_decide_unpack _); vm_compute
    |unfold MAX_NDEF_RECORDS; simpl; lia|vm_compute; lia|vm_compute; lia].
Defined.

(** A record with a payload of more than 255 bytes does not survive: the decoder
    takes the four length bytes one byte too early, so that the type length becomes the
    top byte of the payload length, and with a non-empty type it reads outside any
    buffer of less than 16 MB. *)
Theorem ndef_long_record_lost r (post : list Z) numBytes :
  0 <= r_tnf r < 8 -> (0 < length (r_type r) <= 255)%nat -> (255 < length (r_payload r))%nat ->
  Z.of_nat (length (encode_record r true true ++ post)) < 2 ^ 24 ->
  decode_message (encode_record r true true ++ post) numBytes = None.
Proof.
  intros Ht Hty Hp Hl. unfold decode_message. cbn [ndef_decode_loop]. rewrite decide_True by lia.
  set (data := encode_record r true true ++ post) in *.
  assert (E : decode_record data 0 = None); [|by rewrite E].
  set (n := Z.of_nat (length (r_payload r))) in *.
  assert (Hd : exists rest, data = getTnfByte r true true :: u8 (Z.of_nat (length (r_type r))) ::
    0 :: 0 :: Z.land (Z.shiftr n 8) 0xff :: rest).
  { unfold data, encode_record. fold n. rewrite (decide_False (P := n <= 0xff)) by lia.
    cbn [app]. by eexists. }
  destruct Hd as [rest Hd].
  destruct (tnf_flags (r_tnf r) true true false (bool_decide (length (r_id r) <> 0%nat)) Ht)
    as (_ & Fs & _).
  assert (Eb : getTnfByte r true true = u8 (if bool_decide (length (r_id r) <> 0%nat)
    then Z.lor (Z.lor (Z.lor (r_tnf r) 0x80) 0x40) 0x8
    else Z.lor (Z.lor (r_tnf r) 0x80) 0x40)).
  { unfold getTnfByte. rewrite (decide_False (P := (length (r_payload r) <= 255)%nat)) by lia.
    clear Fs. destruct (decide (length (r_id r) <> 0%nat)); case_bool_decide; first [done | lia]. }
  cbv zeta in Fs. rewrite <- Eb in Fs.
  unfold decode_record, rd. rewrite Hd. cbn [lookup list_lookup mbind option_bind]. rewrite Fs.
  cbn [lookup list_lookup mbind option_bind Nat.add]. rewrite <- Hd.
  rewrite u8_small by lia. set (pl := Z.lor _ _).
  assert (Hpl : 2 ^ 24 <= pl).
  { unfold pl, shl32. rewrite (u32_small (Z.shiftl (Z.of_nat _) 24))
      by (rewrite Z.shiftl_mul_pow2 by lia; lia).
    rewrite <- !Z.lor_assoc. change (u32 (Z.shiftl 0 16)) with 0. change (u32 (Z.shiftl 0 8)) with 0.
    rewrite !Z.lor_0_l. change 0xff with (Z.ones 8). rewrite Z.land_ones by lia.
    pose proof (Z.mod_pos_bound (Z.shiftr n 8) (2 ^ 8) ltac:(lia)).
    rewrite lor_shiftl_add by lia. lia. }
  assert (Hno : forall off, rd_slice off (Z.to_nat pl) data = None).
  { intros off. unfold rd_slice. rewrite decide_False; [done|]. lia. }
  match goal with |- (?m ≫= _) = _ => destruct m as [[idl i2]|]; [|done] end.
  cbn [mbind option_bind]. match goal with |- (?m ≫= _) = _ => destruct m; [|done] end.
  cbn [mbind option_bind]. match goal with |- (?m ≫= _) = _ => destruct m as [[id i3]|]; [|done] end.
  cbn [mbind option_bind]. by rewrite Hno.
Qed.

Lemma ndef_long_record_lost_witness :
  decode_message (encode_record (Record_ 2 [116] (replicate 256 0) []) true true ++ []) 300 = None.
Proof. apply ndef_long_record_lost; simpl; lia. Defined.

(** A message whose last record lacks the end flag is read past its end: the loop
    continues while [index <= numBytes].  The empty message is an instance. *)
Theorem ndef_unterminated_overread rs count :
  Forall record_short rs -> (length rs < count)%nat ->
  decode_message (message_bytes 0 count rs) (length (message_bytes 0 count rs)) = None.
Proof.
  intros Hs Hc. unfold decode_message. generalize (S (length (message_bytes 0 count rs))).
  change 0%nat with (length (@nil Z)) at 3. change (message_bytes 0 count rs) with
    ([] ++ message_bytes 0 count rs).
  generalize (@nil Z) as pre, (@nil NdefRecord) as acc.
  assert (Hi : (0 + length rs < count)%nat) by done. revert Hi. generalize 0%nat as i.
  induction rs as [|r rs IH]; intros i Hi pre acc fuel; destruct fuel as [|fuel]; [done| |done|].
  - cbn [ndef_decode_loop message_bytes]. rewrite app_nil_r, decide_True by lia.
    assert (E : decode_record pre (length pre) = None); [|by rewrite E].
    unfold decode_record, rd. rewrite (lookup_ge_None_2 pre (length pre)) by lia. done.
  - apply list.Forall_cons in Hs as [Hr Hs]. cbn [ndef_decode_loop message_bytes].
    rewrite decide_True by (rewrite length_app; lia).
    rewrite decode_encode_record by done. cbn [mbind option_bind].
    rewrite bool_decide_eq_false_2 by (cbn [length] in Hi; lia).
    set (e := encode_record r _ _). rewrite (app_assoc pre e).
    replace (length pre + getEncodedSize r)%nat with (length (pre ++ e))
      by (unfold e; rewrite length_app, length_encode_record; lia).
    apply IH; [done|cbn [length] in Hi; lia..].
Qed.
