(* ===== verification/EmulateTag.v ===== *)
(** * The emulated NFC tag: [arduino-libraries/PN532/emulatetag.cpp]

    [EmulateTag::emulate] serves ISO 7816 commands from the phone (the initiator): it
    selects a file, reads it, and updates the NDEF file.  The PN532 chip is the
    environment: a command is the contents [tgGetData] leaves in [rwbuf], a negative
    status ends the loop.  [None] is an access outside [rwbuf], the NDEF file or the
    compatibility container. *)
From S2P Require Import Prelude Bytes.

Definition NDEF_MAX_LENGTH : nat := 128.

(** Offsets into a command. *)
Definition C_APDU_INS : nat := 1.
Definition C_APDU_P1 : nat := 2.
Definition C_APDU_P2 : nat := 3.
Definition C_APDU_LC : nat := 4.
Definition C_APDU_DATA : nat := 5.

Definition ISO7816_SELECT_FILE : Z := 0xA4.
Definition ISO7816_READ_BINARY : Z := 0xB0.
Definition ISO7816_UPDATE_BINARY : Z := 0xD6.

Inductive tag_file := NONE | CC | NDEF.
#[global] Instance tag_file_eq_dec : EqDecision tag_file.
Proof. solve_decision. Defined.
Inductive responseCommand :=
  | COMMAND_COMPLETE | TAG_NOT_FOUND | FUNCTION_NOT_SUPPORTED | MEMORY_FAILURE
  | END_OF_FILE_BEFORE_REACHED_LE_BYTES.

(** The members of [EmulateTag] that change. *)
Record tag_t := Tag {
  ndef_file : list Z;
  tagWrittenByInitiator : bool;
  tagWriteable : bool
}.

(** The local variables of [emulate]. *)
Record emu_t := Emu {
  e_tag : tag_t;
  e_rwbuf : list Z;
  e_sendlen : Z;
  e_file : tag_file
}.

Definition compatibility_container (writeable : bool) : list Z :=
  [0; 0x0F; 0x20; 0; 0x54; 0; 0xFF; 0x04; 0x06; 0xE1; 0x04; 0; 128; 0;
   if writeable then 0 else 0xFF].

(** [setResponse(cmd, rwbuf + off, &sendlen, offset)] *)
Definition setResponse (cmd : responseCommand) (rwbuf : list Z) (off : nat) (offset : Z)
    : option (list Z * Z) :=
  match cmd with
  | COMMAND_COMPLETE => b ← wr_slice off [0x90; 0x00] rwbuf; Some (b, u8 (2 + offset))
  | TAG_NOT_FOUND => b ← wr_slice off [0x6a; 0x82] rwbuf; Some (b, 2)
  | FUNCTION_NOT_SUPPORTED => b ← wr_slice off [0x6A; 0x81] rwbuf; Some (b, 2)
  | MEMORY_FAILURE => b ← wr_slice off [0x65; 0x81] rwbuf; Some (b, 2)
  | END_OF_FILE_BEFORE_REACHED_LE_BYTES => b ← wr_slice off [0x62; 0x82] rwbuf; Some (b, 2)
  end.

(** The state after a response at the start of the buffer. *)
Definition respond (cmd : responseCommand) (s : emu_t) : option emu_t :=
  '(b, n) ← setResponse cmd (e_rwbuf s) 0 0; Some (Emu (e_tag s) b n (e_file s)).

(** [case ISO7816_SELECT_FILE] *)
Definition select_file (s : emu_t) : option emu_t :=
  p1 ← rd (e_rwbuf s) C_APDU_P1;
  p2 ← rd (e_rwbuf s) C_APDU_P2;
  lc ← rd (e_rwbuf s) C_APDU_LC;
  if decide (p1 = 0x00) then
    if decide (p2 <> 0x0c) then respond COMMAND_COMPLETE s
    else
      d0 ← rd (e_rwbuf s) C_APDU_DATA;
      d1 ← rd (e_rwbuf s) (C_APDU_DATA + 1);
      if decide (lc = 2 /\ d0 = 0xE1 /\ (d1 = 0x03 \/ d1 = 0x04)) then
        s ← respond COMMAND_COMPLETE s;
        Some (Emu (e_tag s) (e_rwbuf s) (e_sendlen s) (if decide (d1 = 0x03) then CC else NDEF))
      else respond TAG_NOT_FOUND s
  else if decide (p1 = 0x04) then
    name ← rd_slice C_APDU_P2 9 (e_rwbuf s);
    if decide (name = [0; 0x7; 0xD2; 0x76; 0x00; 0x00; 0x85; 0x01; 0x01])
    then respond COMMAND_COMPLETE s else respond FUNCTION_NOT_SUPPORTED s
  else Some s.

(** [case ISO7816_READ_BINARY] *)
Definition read_binary (s : emu_t) : option emu_t :=
  p1 ← rd (e_rwbuf s) C_APDU_P1;
  p2 ← rd (e_rwbuf s) C_APDU_P2;
  lc ← rd (e_rwbuf s) C_APDU_LC;
  let p1p2_length := u16 (Z.shiftl p1 8 + p2) in
  let from file :=
    if decide (Z.of_nat NDEF_MAX_LENGTH < p1p2_length)
    then respond END_OF_FILE_BEFORE_REACHED_LE_BYTES s
    else
      d ← rd_slice (Z.to_nat p1p2_length) (Z.to_nat lc) file;
      b ← wr_slice 0 d (e_rwbuf s);
      '(b, n) ← setResponse COMMAND_COMPLETE b (Z.to_nat lc) lc;
      Some (Emu (e_tag s) b n (e_file s)) in
  match e_file s with
  | NONE => respond TAG_NOT_FOUND s
  | CC => from (compatibility_container (tagWriteable (e_tag s)))
  | NDEF => from (ndef_file (e_tag s))
  end.

(** [case ISO7816_UPDATE_BINARY]; no callback is attached by the door. *)
Definition update_binary (s : emu_t) : option emu_t :=
  p1 ← rd (e_rwbuf s) C_APDU_P1;
  p2 ← rd (e_rwbuf s) C_APDU_P2;
  lc ← rd (e_rwbuf s) C_APDU_LC;
  let p1p2_length := u16 (Z.shiftl p1 8 + p2) in
  if negb (tagWriteable (e_tag s)) then respond FUNCTION_NOT_SUPPORTED s
  else if decide (Z.of_nat NDEF_MAX_LENGTH < p1p2_length) then respond MEMORY_FAILURE s
  else
    d ← rd_slice C_APDU_DATA (Z.to_nat lc) (e_rwbuf s);
    f ← wr_slice (Z.to_nat p1p2_length) d (ndef_file (e_tag s));
    s ← respond COMMAND_COMPLETE s;
    Some (Emu (Tag f true (tagWriteable (e_tag s))) (e_rwbuf s) (e_sendlen s) (e_file s)).

(** One turn of the loop: the command is in [rwbuf]. *)
Definition command_step (s : emu_t) : option emu_t :=
  ins ← rd (e_rwbuf s) C_APDU_INS;
  if decide (ins = ISO7816_SELECT_FILE) then select_file s
  else if decide (ins = ISO7816_READ_BINARY) then read_binary s
  else if decide (ins = ISO7816_UPDATE_BINARY) then update_binary s
  else respond FUNCTION_NOT_SUPPORTED s.

(** What [tgGetData(rwbuf, 128)] leaves at the start of the buffer: the command, and behind
    it a copy of its last byte, since the answer had a status byte in front. *)
Definition command_bytes (c : list Z) : list Z := c ++ [default 0 (list.last c)].
Definition receive_command (c : list Z) (s : emu_t) : option emu_t :=
  b ← wr_slice 0 (command_bytes c) (e_rwbuf s); Some (Emu (e_tag s) b (e_sendlen s) (e_file s)).

(** The commands until [tgGetData] fails; the responses sent, and the final state. *)
Fixpoint emulate_loop (cmds : list (list Z)) (s : emu_t) : option (list (list Z) * emu_t) :=
  match cmds with
  | [] => Some ([], s)
  | c :: cmds' =>
      s ← receive_command c s;
      s ← command_step s;
      '(out, s') ← emulate_loop cmds' s;
      Some (take (Z.to_nat (e_sendlen s)) (e_rwbuf s) :: out, s')
  end.

(** [emulate()]: [initialised] is the outcome of [tgInitAsTarget]; [rwbuf] and [sendlen]
    start with what is on the stack. *)
Definition emulate (initialised : bool) (tag : tag_t) (rwbuf : list Z) (sendlen : Z)
    (cmds : list (list Z)) : option (list (list Z) * tag_t) :=
  if negb initialised then Some ([], tag) else
  let tag := Tag (ndef_file tag) false (tagWriteable tag) in
  '(out, s) ← emulate_loop cmds (Emu tag rwbuf sendlen NONE);
  Some (out, e_tag s).

(** [getContent]: the memory behind the two length bytes, and the length. *)
Definition getContent (tag : tag_t) : option (list Z * Z) :=
  b0 ← rd (ndef_file tag) 0;
  b1 ← rd (ndef_file tag) 1;
  Some (drop 2 (ndef_file tag), u16 (Z.shiftl b0 8 + b1)).

Definition setNdefFile (tag : tag_t) (ndef : list Z) : option tag_t :=
  let n := Z.of_nat (length ndef) in
  if decide (Z.of_nat (NDEF_MAX_LENGTH - 2) < n) then Some tag
  else
    f ← wr_slice 0 [u8 (Z.shiftr n 8); Z.land n 0xFF] (ndef_file tag);
    f ← wr_slice 2 ndef f;
    Some (Tag f (tagWrittenByInitiator tag) (tagWriteable tag)).

(** ** Well-typed states *)

Definition tag_ok (t : tag_t) : Prop :=
  length (ndef_file t) = NDEF_MAX_LENGTH /\ bytes_ok (ndef_file t).
Definition emu_ok (s : emu_t) : Prop :=
  tag_ok (e_tag s) /\ length (e_rwbuf s) = 128%nat /\ bytes_ok (e_rwbuf s) /\
  0 <= e_sendlen s < 256.

Lemma bytes_command_bytes c : bytes_ok c -> bytes_ok (command_bytes c).
Proof.
  intros H. apply bytes_ok_app; [done|]. apply list.Forall_singleton.
  destruct (list.last c) as [x|] eqn:E; [|done]. apply last_Some in E as [l ->].
  apply list.Forall_app in H as [_ H]. by rewrite list.Forall_singleton in H.
Qed.

Lemma wr_slice_bytes off src b b' :
  wr_slice off src b = Some b' -> bytes_ok src -> bytes_ok b ->
  length b' = length b /\ bytes_ok b'.
Proof.
  intros E Hs Hb. apply wr_slice_inv in E as [_ ->]. split; [apply length_inserts|].
  by apply bytes_ok_inserts.
Qed.

Lemma rd_slice_bytes off n b d : rd_slice off n b = Some d -> bytes_ok b -> bytes_ok d.
Proof. intros E Hb. apply rd_slice_inv in E as [_ ->]. by apply bytes_ok_slice. Qed.

Lemma setResponse_ok cmd b off offset b' n :
  setResponse cmd b off offset = Some (b', n) -> bytes_ok b ->
  length b' = length b /\ bytes_ok b' /\ 0 <= n < 256.
Proof.
  intros E Hb.
  assert (H : forall x y m, (r ← wr_slice off [x; y] b; Some (r, m)) = Some (b', n) ->
    byte_ok x -> byte_ok y -> 0 <= m < 256 -> length b' = length b /\ bytes_ok b' /\ 0 <= n < 256).
  { intros x y m E' Hx Hy Hm. destruct (wr_slice off [x; y] b) as [r|] eqn:Er; [|done].
    injection E' as <- <-. apply wr_slice_bytes in Er as [? ?];
      [done|by constructor; [|constructor; [|constructor]]|done]. }
  destruct cmd; (eapply H; [exact E|unfold byte_ok; lia..|]); solve [lia | apply u8_range].
Qed.

Lemma respond_ok cmd s s' :
  respond cmd s = Some s' -> emu_ok s ->
  emu_ok s' /\ e_tag s' = e_tag s /\ e_file s' = e_file s.
Proof.
  intros E (Ht & Hl & Hb & _). unfold respond in E.
  destruct (setResponse cmd (e_rwbuf s) 0 0) as [[b n]|] eqn:Er; [|done]. injection E as <-.
  apply setResponse_ok in Er as (H1 & H2 & H3); [|done]. split; [|done].
  split; [done|]. split; [cbn; lia|]. by split.
Qed.

Lemma respond_Some cmd s : emu_ok s -> is_Some (respond cmd s).
Proof.
  intros (_ & Hl & _). unfold respond, setResponse.
  destruct cmd; rewrite wr_slice_Some by (cbn [length]; lia); by eexists.
Qed.

(** Selecting changes neither the tag nor, unless it answers, anything else. *)
Lemma select_file_ok s s' :
  select_file s = Some s' -> emu_ok s -> emu_ok s' /\ e_tag s' = e_tag s.
Proof.
  intros E Hok. unfold select_file in E.
  destruct (rd (e_rwbuf s) C_APDU_P1) as [p1|]; [|done].
  destruct (rd (e_rwbuf s) C_APDU_P2) as [p2|]; [|done].
  destruct (rd (e_rwbuf s) C_APDU_LC) as [lc|]; [|done]. cbn [mbind option_bind] in E.
  assert (H : forall c, respond c s = Some s' -> emu_ok s' /\ e_tag s' = e_tag s).
  { intros c Ec. by apply respond_ok in Ec as (? & ? & _). }
  destruct (decide (p1 = 0x00)); [destruct (decide (p2 <> 0x0c)); [by eapply H|]|].
  - destruct (rd (e_rwbuf s) C_APDU_DATA) as [d0|]; [|done].
    destruct (rd (e_rwbuf s) (C_APDU_DATA + 1)) as [d1|]; [|done]. cbn [mbind option_bind] in E.
    case_decide; [|by eapply H].
    destruct (respond COMMAND_COMPLETE s) as [s1|] eqn:E1; [|done]. injection E as <-.
    by apply respond_ok in E1 as (? & ? & _).
  - destruct (decide (p1 = 0x04)); [|by injection E as <-].
    destruct (rd_slice C_APDU_P2 9 (e_rwbuf s)) as [name|]; [|done]. cbn [mbind option_bind] in E.
    case_decide; by eapply H.
Qed.

Lemma read_binary_ok s s' :
  read_binary s = Some s' -> emu_ok s -> emu_ok s' /\ e_tag s' = e_tag s.
Proof.
  intros E Hok. unfold read_binary in E.
  destruct (rd (e_rwbuf s) C_APDU_P1) as [p1|]; [|done].
  destruct (rd (e_rwbuf s) C_APDU_P2) as [p2|]; [|done].
  destruct (rd (e_rwbuf s) C_APDU_LC) as [lc|]; [|done]. cbn [mbind option_bind] in E.
  set (p := u16 _) in E.
  assert (H : forall c, respond c s = Some s' -> emu_ok s' /\ e_tag s' = e_tag s).
  { intros c Ec. by apply respond_ok in Ec as (? & ? & _). }
  pose proof Hok as (Ht & Hl & Hb & _).
  assert (Hfrom : forall file, bytes_ok file ->
    (if decide (Z.of_nat NDEF_MAX_LENGTH < p) then respond END_OF_FILE_BEFORE_REACHED_LE_BYTES s
     else d ← rd_slice (Z.to_nat p) (Z.to_nat lc) file; b ← wr_slice 0 d (e_rwbuf s);
          '(b, n) ← setResponse COMMAND_COMPLETE b (Z.to_nat lc) lc;
          Some (Emu (e_tag s) b n (e_file s))) = Some s' -> emu_ok s' /\ e_tag s' = e_tag s).
  { intros file Hf E'. case_decide; [by eapply H|].
    destruct (rd_slice _ _ file) as [d|] eqn:Ed; [|done]. cbn [mbind option_bind] in E'.
    destruct (wr_slice 0 d (e_rwbuf s)) as [b|] eqn:Eb; [|done]. cbn [mbind option_bind] in E'.
    destruct (setResponse _ b _ lc) as [[b' n]|] eqn:Er; [|done]. injection E' as <-.
    apply wr_slice_bytes in Eb as [L1 B1]; [|by eapply rd_slice_bytes|done].
    apply setResponse_ok in Er as (L2 & B2 & Hn); [|done]. split; [|done].
    split; [done|]. split; [cbn; lia|]. by split. }
  destruct (e_file s); [by eapply H| |].
  - eapply Hfrom; [|exact E]. unfold compatibility_container.
    destruct (tagWriteable (e_tag s)); repeat constructor; lia.
  - eapply Hfrom; [apply Ht|exact E].
Qed.

(** An update: refused, or its data is stored in the NDEF file. *)
Lemma update_binary_ok s s' :
  update_binary s = Some s' -> emu_ok s -> emu_ok s'.
Proof.
  intros E Hok. unfold update_binary in E.
  destruct (rd (e_rwbuf s) C_APDU_P1) as [p1|]; [|done].
  destruct (rd (e_rwbuf s) C_APDU_P2) as [p2|]; [|done].
  destruct (rd (e_rwbuf s) C_APDU_LC) as [lc|]; [|done]. cbn [mbind option_bind] in E.
  set (p := u16 _) in E. pose proof Hok as (Ht & Hl & Hb & _).
  destruct (negb _); [by apply respond_ok in E as (? & _)|].
  case_decide; [by apply respond_ok in E as (? & _)|].
  destruct (rd_slice C_APDU_DATA _ _) as [d|] eqn:Ed; [|done]. cbn [mbind option_bind] in E.
  destruct (wr_slice (Z.to_nat p) d _) as [f|] eqn:Ef; [|done]. cbn [mbind option_bind] in E.
  destruct (respond COMMAND_COMPLETE s) as [s1|] eqn:E1; [|done]. injection E as <-.
  apply respond_ok in E1 as ((_ & Hs1) & _); [|done].
  apply wr_slice_bytes in Ef as [L1 B1]; [|by eapply rd_slice_bytes|apply Ht].
  split; [|exact Hs1]. split; [|done]. cbn. rewrite L1. apply Ht.
Qed.

Lemma command_step_ok s s' :
  command_step s = Some s' -> emu_ok s ->
  emu_ok s' /\ (e_tag s' = e_tag s \/ rd (e_rwbuf s) C_APDU_INS = Some ISO7816_UPDATE_BINARY).
Proof.
  intros E Hok. unfold command_step in E.
  destruct (rd (e_rwbuf s) C_APDU_INS) as [ins|]; [|done]. cbn [mbind option_bind] in E.
  destruct (decide (ins = ISO7816_SELECT_FILE)); [apply select_file_ok in E as [? ?]; auto|].
  destruct (decide (ins = ISO7816_READ_BINARY)); [apply read_binary_ok in E as [? ?]; auto|].
  destruct (decide (ins = ISO7816_UPDATE_BINARY)) as [->|].
  - split; [by eapply update_binary_ok|by right].
  - apply respond_ok in E as (? & ? & _); auto.
Qed.

Lemma emulate_loop_ok cmds s out s' :
  emulate_loop cmds s = Some (out, s') -> emu_ok s -> Forall bytes_ok cmds -> emu_ok s'.
Proof.
  revert s out. induction cmds as [|c cmds IH]; intros s out E Hok Hc; [by injection E as _ <-|].
  apply list.Forall_cons in Hc as [Hc Hcs]. cbn [emulate_loop] in E.
  destruct (receive_command c s) as [s1|] eqn:E1; [|done]. cbn [mbind option_bind] in E.
  destruct (command_step s1) as [s2|] eqn:E2; [|done]. cbn [mbind option_bind] in E.
  destruct (emulate_loop cmds s2) as [[o s3]|] eqn:E3; [|done]. injection E as _ <-.
  eapply IH; [exact E3| |done]. eapply command_step_ok; [exact E2|].
  unfold receive_command in E1. destruct (wr_slice 0 (command_bytes c) (e_rwbuf s)) as [b|] eqn:Eb; [|done].
  injection E1 as <-. destruct Hok as (Ht & Hl & Hb & Hn).
  apply wr_slice_bytes in Eb as [L1 B1]; [|by apply bytes_command_bytes|done]. split; [done|]. split; [cbn; lia|]. by split.
Qed.

(** ** Writing the NDEF file *)

(** An UPDATE BINARY command. *)
Definition update_command (off : nat) (d : list Z) : list Z :=
  [0; ISO7816_UPDATE_BINARY; Z.shiftr (Z.of_nat off) 8; Z.land (Z.of_nat off) 0xff;
   Z.of_nat (length d)] ++ d.

Definition update_fits (w : nat * list Z) : Prop :=
  (w.1 + length w.2 <= NDEF_MAX_LENGTH)%nat /\ (length w.2 <= 121)%nat /\ bytes_ok w.2.
#[global] Instance update_fits_dec w : Decision (update_fits w).
Proof. unfold update_fits. apply _. Defined.

(** The two bytes of an offset. *)
Lemma offset_bytes off : Z.of_nat off < 65536 ->
  u16 (Z.shiftl (Z.shiftr (Z.of_nat off) 8) 8 + Z.land (Z.of_nat off) 0xff) = Z.of_nat off /\
  byte_ok (Z.shiftr (Z.of_nat off) 8) /\ byte_ok (Z.land (Z.of_nat off) 0xff).
Proof.
  intros H. change 0xff with (Z.ones 8).
  rewrite Z.land_ones, Z.shiftr_div_pow2, Z.shiftl_mul_pow2 by lia. unfold byte_ok.
  change (2 ^ 8) with 256. rewrite u16_small; Z.to_euclidean_division_equations; lia.
Qed.

Lemma bytes_update_command w : update_fits w -> bytes_ok (update_command w.1 w.2).
Proof.
  intros (H1 & H2 & H3). unfold NDEF_MAX_LENGTH in H1.
  destruct (offset_bytes w.1) as (_ & B1 & B2); [lia|].
  unfold update_command. apply bytes_ok_app; [|done].
  unfold ISO7816_UPDATE_BINARY. repeat (constructor; [first [done | unfold byte_ok; lia]|]). constructor.
Qed.

(** ** A type 4 tag *)

(** The commands of the NFC Forum type 4 tag application, and any other instruction. *)
Inductive apdu :=
| SelectName (name : list Z)
| SelectFile (id0 id1 : Z)
| ReadBinary (off len : nat)
| UpdateBinary (off : nat) (d : list Z)
| OtherCommand (ins : Z).

Definition apdu_bytes (a : apdu) : list Z :=
  match a with
  | SelectName name => [0; 0xA4; 0x04; 0x00; 0x07] ++ name
  | SelectFile id0 id1 => [0; 0xA4; 0x00; 0x0C; 0x02; id0; id1]
  | ReadBinary off len =>
      [0; 0xB0; Z.shiftr (Z.of_nat off) 8; Z.land (Z.of_nat off) 0xff; Z.of_nat len]
  | UpdateBinary off d => update_command off d
  | OtherCommand ins => [0; ins; 0; 0; 0]
  end.

Definition type4_state : Type := tag_t * tag_file.

Definition selected (s : type4_state) : list Z :=
  match s.2 with
  | NONE => []
  | CC => [0; 0x0F; 0x20; 0; 0x54; 0; 0xFF; 0x04; 0x06; 0xE1; 0x04; 0; 128; 0;
           if tagWriteable s.1 then 0 else 0xFF]
  | NDEF => ndef_file s.1
  end.

(** What a tag answers, and its new state: status 9000 for success, 6A82 when no file is
    selected or there is none of that name, 6282 and 6581 for a position behind the 128
    bytes, 6A81 for what is not supported, writing to a protected tag included. *)
Definition type4_step (a : apdu) (s : type4_state) : list Z * type4_state :=
  match a with
  | SelectName name =>
      (if decide (name = [0xD2; 0x76; 0x00; 0x00; 0x85; 0x01; 0x01]) then [0x90; 0x00]
       else [0x6A; 0x81], s)
  | SelectFile id0 id1 =>
      if decide (id0 = 0xE1 /\ id1 = 0x03) then ([0x90; 0x00], (s.1, CC))
      else if decide (id0 = 0xE1 /\ id1 = 0x04) then ([0x90; 0x00], (s.1, NDEF))
      else ([0x6A; 0x82], s)
  | ReadBinary off len =>
      (if decide (s.2 = NONE) then [0x6A; 0x82]
       else if decide (128 < off)%nat then [0x62; 0x82]
       else slice off len (selected s) ++ [0x90; 0x00], s)
  | UpdateBinary off d =>
      if negb (tagWriteable s.1) then ([0x6A; 0x81], s)
      else if decide (128 < off)%nat then ([0x65; 0x81], s)
      else ([0x90; 0x00], (Tag (list_inserts off d (ndef_file s.1)) true true, s.2))
  | OtherCommand _ => ([0x6A; 0x81], s)
  end.

Fixpoint type4_run (cmds : list apdu) (s : type4_state) : list (list Z) * type4_state :=
  match cmds with
  | [] => ([], s)
  | a :: cmds =>
      let '(r, s) := type4_step a s in let '(out, s) := type4_run cmds s in (r :: out, s)
  end.

(** Commands the 128-byte buffer holds, with its response, and that are refused or stay
    within the file. *)
Definition apdu_fits (a : apdu) (s : type4_state) : Prop :=
  match a with
  | SelectName name => length name = 7%nat /\ bytes_ok name
  | SelectFile id0 id1 => byte_ok id0 /\ byte_ok id1
  | ReadBinary off len =>
      Z.of_nat off < 65536 /\ (len <= 126)%nat /\
      (s.2 = NONE \/ (128 < off)%nat \/ (off + len <= length (selected s))%nat)
  | UpdateBinary off d =>
      Z.of_nat off < 65536 /\ (length d <= 122)%nat /\ bytes_ok d /\
      (tagWriteable s.1 = false \/ (128 < off)%nat \/ (off + length d <= 128)%nat)
  | OtherCommand ins => byte_ok ins /\ ins <> 0xA4 /\ ins <> 0xB0 /\ ins <> 0xD6
  end.

Fixpoint apdus_fit (cmds : list apdu) (s : type4_state) : Prop :=
  match cmds with
  | [] => True
  | a :: cmds => apdu_fits a s /\ apdus_fit cmds (type4_step a s).2
  end.

Lemma apdu_bytes_ok a s : apdu_fits a s -> bytes_ok (apdu_bytes a) /\ (length (apdu_bytes a) < 128)%nat.
Proof.
  assert (H0 : forall z, 0 <= z < 256 -> byte_ok z) by done.
  destruct a as [name|id0 id1|off len|off d|ins]; cbn [apdu_fits apdu_bytes].
  - intros [Hl Hb]. rewrite length_app, Hl. split; [|cbn; lia]. apply bytes_ok_app; [|done].
    by apply (bool_decide_unpack _); vm_compute.
  - intros [H1 H2]. split; [|cbn; lia]. repeat (constructor; [done || (apply H0; lia)|]). constructor.
  - intros (Ho & Hl & _). destruct (offset_bytes off Ho) as (_ & B1 & B2). split; [|cbn; lia].
    repeat (constructor; [done || (apply H0; lia)|]). constructor.
  - intros (Ho & Hl & Hb & _). destruct (offset_bytes off Ho) as (_ & B1 & B2). unfold update_command.
    split; [|rewrite length_app; cbn [length]; lia]. apply bytes_ok_app; [|done].
    unfold ISO7816_UPDATE_BINARY. repeat (constructor; [done || (apply H0; lia)|]). constructor.
  - intros (Hi & _). split; [|cbn; lia]. repeat (constructor; [done || (apply H0; lia)|]). constructor.
Qed.

(** The command at the start of the buffer. *)
Lemma receive_command_eq c s :
  emu_ok s -> (length c < 128)%nat -> bytes_ok c ->
  exists rest, receive_command c s = Some (Emu (e_tag s) (c ++ rest) (e_sendlen s) (e_file s)) /\
    emu_ok (Emu (e_tag s) (c ++ rest) (e_sendlen s) (e_file s)).
Proof.
  intros (Ht & Hl & Hb & Hn) Hc Hbc.
  assert (Lb : length (command_bytes c) = S (length c))
    by (unfold command_bytes; rewrite length_app; cbn [length]; lia).
  unfold receive_command. rewrite wr_slice_Some by lia. cbn [mbind option_bind].
  assert (Ei : list_inserts 0 (command_bytes c) (e_rwbuf s) =
    c ++ [default 0 (list.last c)] ++ drop (S (length c)) (e_rwbuf s)).
  { rewrite <- (take_drop (S (length c)) (e_rwbuf s)) at 1.
    rewrite list_inserts_0_r by (rewrite length_take; lia). unfold command_bytes. by rewrite <- app_assoc. }
  eexists. split; [by rewrite Ei|]. rewrite <- Ei.
  split; [done|]. split; [cbn; by rewrite length_inserts|]. split; [|done].
  cbn. apply bytes_ok_inserts; [done|by apply bytes_command_bytes].
Qed.

(** What the phone sees of a state: the response, and the tag. *)
Definition seen (s : emu_t) : list Z * type4_state :=
  (take (Z.to_nat (e_sendlen s)) (e_rwbuf s), (e_tag s, e_file s)).

Definition status_bytes (cmd : responseCommand) : list Z :=
  match cmd with
  | COMMAND_COMPLETE => [0x90; 0x00] | TAG_NOT_FOUND => [0x6A; 0x82]
  | FUNCTION_NOT_SUPPORTED => [0x6A; 0x81] | MEMORY_FAILURE => [0x65; 0x81]
  | END_OF_FILE_BEFORE_REACHED_LE_BYTES => [0x62; 0x82]
  end.

Lemma respond_seen cmd s :
  emu_ok s -> exists s', respond cmd s = Some s' /\ seen s' = (status_bytes cmd, (e_tag s, e_file s)).
Proof.
  intros (_ & Hl & _). destruct s as [t b n f]. cbn [e_rwbuf] in Hl.
  destruct b as [|b0 [|b1 b]]; [done..|]. unfold respond, setResponse. cbn [e_rwbuf e_tag e_file].
  destruct cmd; rewrite wr_slice_Some by (cbn [length]; lia); eexists; (split; [reflexivity|]); done.
Qed.

(** Each command, at the start of the buffer, is answered as the tag's specification says. *)
Lemma select_name_step name rest t n f (s := Emu t (apdu_bytes (SelectName name) ++ rest) n f) :
  emu_ok s -> length name = 7%nat ->
  exists s', command_step s = Some s' /\ seen s' = type4_step (SelectName name) (t, f).
Proof.
  intros Hok Hl. unfold command_step. cbn [s e_rwbuf apdu_bytes app rd lookup list_lookup C_APDU_INS mbind option_bind].
  rewrite decide_True by done. unfold select_file. fold s.
  cbn [s e_rwbuf apdu_bytes app rd lookup list_lookup C_APDU_P1 C_APDU_P2 C_APDU_LC mbind option_bind].
  rewrite decide_False, decide_True by done. fold s.
  assert (Er : rd_slice C_APDU_P2 9 (0 :: 0xA4 :: 4 :: 0 :: 7 :: name ++ rest) = Some (0 :: 7 :: name)).
  { rewrite rd_slice_Some by (unfold C_APDU_P2; cbn [length]; rewrite length_app; lia).
    unfold slice, C_APDU_P2. cbn [drop take]. do 3 f_equal. rewrite take_app_le by lia. apply take_ge. lia. }
  rewrite Er. cbn [mbind option_bind type4_step].
  destruct (decide (name = [0xD2; 0x76; 0x00; 0x00; 0x85; 0x01; 0x01])) as [->|Hne].
  - rewrite decide_True by done. apply (respond_seen COMMAND_COMPLETE s Hok).
  - rewrite decide_False by congruence. apply (respond_seen FUNCTION_NOT_SUPPORTED s Hok).
Qed.

Lemma select_file_step id0 id1 rest t n f (s := Emu t (apdu_bytes (SelectFile id0 id1) ++ rest) n f) :
  emu_ok s -> exists s', command_step s = Some s' /\ seen s' = type4_step (SelectFile id0 id1) (t, f).
Proof.
  intros Hok. unfold command_step. cbn [s e_rwbuf apdu_bytes app rd lookup list_lookup C_APDU_INS mbind option_bind].
  rewrite decide_True by done. unfold select_file. fold s.
  cbn [s e_rwbuf apdu_bytes app rd lookup list_lookup C_APDU_P1 C_APDU_P2 C_APDU_LC C_APDU_DATA Nat.add mbind option_bind].
  rewrite decide_True, decide_False by (done || (intros []; done)). fold s. cbn [type4_step fst snd].
  destruct (respond_seen COMMAND_COMPLETE s Hok) as (s1 & E1 & Hs1), (respond_seen TAG_NOT_FOUND s Hok) as (s2 & E2 & Hs2).
  unfold seen in *. cbn [s e_tag e_file] in Hs1, Hs2. injection Hs1 as H1 H2 H3.
  destruct (decide (2 = 2 /\ id0 = 0xE1 /\ (id1 = 0x03 \/ id1 = 0x04))) as [(_ & -> & Hid)|Hid].
  - rewrite E1. cbn [mbind option_bind]. eexists. split; [done|]. cbn [e_sendlen e_rwbuf e_tag e_file].
    rewrite H1, H2. destruct Hid as [->| ->]; [by rewrite !decide_True by done|].
    rewrite !(decide_False (P := 4 = 3)), (decide_False (P := _ /\ 4 = 3)), decide_True by (done || (intros []; done)).
    done.
  - exists s2. split; [done|]. rewrite Hs2. by rewrite !decide_False by (intros []; apply Hid; tauto).
Qed.

Lemma read_step off len rest t n f (s := Emu t (apdu_bytes (ReadBinary off len) ++ rest) n f) :
  emu_ok s -> apdu_fits (ReadBinary off len) (t, f) ->
  exists s', command_step s = Some s' /\ seen s' = type4_step (ReadBinary off len) (t, f).
Proof.
  intros Hok (Ho & Hl & Hfit). pose proof Hok as (_ & Hlen & _).
  destruct (offset_bytes off Ho) as (Eo & _). cbn [snd] in Hfit.
  unfold command_step. cbn [s e_rwbuf apdu_bytes app rd lookup list_lookup C_APDU_INS mbind option_bind].
  rewrite decide_False, decide_True by done. unfold read_binary. fold s.
  cbn [s e_rwbuf e_tag e_file apdu_bytes app rd lookup list_lookup C_APDU_P1 C_APDU_P2 C_APDU_LC mbind option_bind].
  rewrite Eo. fold s. cbn [type4_step fst snd].
  assert (Hfrom : forall file, f <> NONE -> selected (t, f) = file ->
    exists s', (if decide (Z.of_nat NDEF_MAX_LENGTH < Z.of_nat off)
      then respond END_OF_FILE_BEFORE_REACHED_LE_BYTES s
      else d ← rd_slice (Z.to_nat (Z.of_nat off)) (Z.to_nat (Z.of_nat len)) file;
           b ← wr_slice 0 d (e_rwbuf s);
           '(b, m) ← setResponse COMMAND_COMPLETE b (Z.to_nat (Z.of_nat len)) (Z.of_nat len);
           Some (Emu t b m f)) = Some s' /\
      seen s' = (if decide (f = NONE) then [0x6A; 0x82]
        else if decide (128 < off)%nat then [0x62; 0x82]
        else slice off len (selected (t, f)) ++ [0x90; 0x00], (t, f))).
  { intros file Hf Es. rewrite (decide_False (P := f = NONE)) by done. unfold NDEF_MAX_LENGTH.
    destruct (decide (128 < off)%nat) as [Hb|Hb].
    - rewrite decide_True by lia. apply (respond_seen END_OF_FILE_BEFORE_REACHED_LE_BYTES s Hok).
    - destruct Hfit as [|[|Hfit]]; [done|lia|]. rewrite Es in *. rewrite decide_False, !Nat2Z.id by lia.
      rewrite rd_slice_Some by lia. cbn [mbind option_bind].
      pose proof (length_slice off len file Hfit) as Ls. set (d := slice off len file) in *.
      rewrite wr_slice_Some by lia. cbn [mbind option_bind]. unfold setResponse.
      rewrite wr_slice_Some by (rewrite length_inserts; cbn [length]; lia). cbn [mbind option_bind].
      eexists. split; [done|]. unfold seen. cbn [e_sendlen e_rwbuf e_tag e_file]. f_equal.
      rewrite u8_small by lia. replace (Z.to_nat (2 + Z.of_nat len)) with (length (d ++ [0x90; 0x00]))
        by (rewrite length_app; cbn [length]; lia).
      rewrite <- (take_drop (length d) (e_rwbuf s)), list_inserts_0_r by (rewrite length_take; lia).
      rewrite <- Ls, <- (Nat.add_0_r (length d)) at 1. rewrite list_inserts_app_r.
      rewrite <- (take_drop 2 (drop _ _)), list_inserts_0_r
        by (rewrite length_take, length_drop; cbn [length]; lia).
      rewrite app_assoc. apply take_app_length. }
  destruct f; [|by apply Hfrom..].
  rewrite decide_True by done. apply (respond_seen TAG_NOT_FOUND s Hok).
Qed.

Lemma update_binary_step off d rest t n f (s := Emu t (apdu_bytes (UpdateBinary off d) ++ rest) n f) :
  emu_ok s -> apdu_fits (UpdateBinary off d) (t, f) ->
  exists s', command_step s = Some s' /\ seen s' = type4_step (UpdateBinary off d) (t, f).
Proof.
  intros Hok (Ho & Hl & Hbd & Hfit). pose proof Hok as ((Htl & _) & Hlen & _).
  destruct (offset_bytes off Ho) as (Eo & _). cbn [fst] in Hfit.
  unfold command_step. cbn [s e_rwbuf apdu_bytes update_command app rd lookup list_lookup C_APDU_INS mbind option_bind].
  unfold ISO7816_UPDATE_BINARY at 1 2 3. rewrite decide_False, decide_False, decide_True by done.
  unfold update_binary. fold s.
  cbn [s e_rwbuf e_tag e_file apdu_bytes update_command app rd lookup list_lookup C_APDU_P1 C_APDU_P2 C_APDU_LC mbind option_bind].
  rewrite Eo, !Nat2Z.id. fold s. cbn [type4_step fst snd]. unfold NDEF_MAX_LENGTH.
  destruct (tagWriteable t) eqn:Hw; cbn [negb]; [|apply (respond_seen FUNCTION_NOT_SUPPORTED s Hok)].
  destruct (decide (128 < off)%nat) as [Hb|Hb].
  { rewrite decide_True by lia. apply (respond_seen MEMORY_FAILURE s Hok). }
  destruct Hfit as [|[|Hfit]]; [done|lia|]. rewrite decide_False by lia.
  assert (Er : rd_slice C_APDU_DATA (length d) (e_rwbuf s) = Some d).
  { unfold s. cbn [e_rwbuf apdu_bytes update_command app]. rewrite rd_slice_Some.
    - f_equal. unfold slice, C_APDU_DATA. cbn [drop]. apply take_app_length.
    - cbn [length]. rewrite length_app. unfold C_APDU_DATA. lia. }
  cbn [s e_rwbuf apdu_bytes update_command app] in Er. rewrite Er. cbn [mbind option_bind].
  cbn [e_tag s] in Htl. rewrite wr_slice_Some by (rewrite Htl; unfold NDEF_MAX_LENGTH; lia).
  cbn [mbind option_bind]. destruct (respond_seen COMMAND_COMPLETE s Hok) as (s1 & E1 & Hs1).
  rewrite E1. cbn [mbind option_bind].
  eexists. split; [done|]. unfold seen in *. cbn [e_sendlen e_rwbuf e_tag e_file].
  cbn [s e_tag e_file] in Hs1. injection Hs1 as H1 H2 H3. by rewrite H1, H2, H3, Hw.
Qed.

Lemma apdu_step a s :
  emu_ok s -> apdu_fits a (e_tag s, e_file s) ->
  exists s1 s2, receive_command (apdu_bytes a) s = Some s1 /\ command_step s1 = Some s2 /\
    emu_ok s2 /\ seen s2 = type4_step a (e_tag s, e_file s).
Proof.
  intros Hok Hfit. destruct (apdu_bytes_ok a _ Hfit) as [Hb Hl].
  destruct (receive_command_eq (apdu_bytes a) s Hok Hl Hb) as (rest & E1 & Hok1).
  eexists. assert (Hstep : exists s2, command_step (Emu (e_tag s) (apdu_bytes a ++ rest) (e_sendlen s) (e_file s)) =
    Some s2 /\ seen s2 = type4_step a (e_tag s, e_file s)).
  { destruct a as [name|id0 id1|off len|off d|ins].
    - apply select_name_step; [done|apply Hfit].
    - by apply select_file_step.
    - by apply read_step.
    - by apply update_binary_step.
    - destruct Hfit as (_ & H1 & H2 & H3). unfold command_step.
      cbn [e_rwbuf apdu_bytes app rd lookup list_lookup C_APDU_INS mbind option_bind].
      rewrite !decide_False by done. by apply (respond_seen FUNCTION_NOT_SUPPORTED). }
  destruct Hstep as (s2 & E2 & Hs2). exists s2. split_and!; [done..| |done].
  by eapply command_step_ok.
Qed.

Lemma emulate_loop_type4 cmds : forall s,
  emu_ok s -> apdus_fit cmds (e_tag s, e_file s) ->
  exists s', emulate_loop (map apdu_bytes cmds) s =
      Some ((type4_run cmds (e_tag s, e_file s)).1, s') /\ emu_ok s' /\
    (e_tag s', e_file s') = (type4_run cmds (e_tag s, e_file s)).2.
Proof.
  induction cmds as [|a cmds IH]; intros s Hok Hfit; [by exists s|].
  destruct Hfit as [Ha Hfit]. cbn [map emulate_loop type4_run].
  destruct (apdu_step a s Hok Ha) as (s1 & s2 & E1 & E2 & Hok2 & Hs2).
  rewrite E1. cbn [mbind option_bind]. rewrite E2. cbn [mbind option_bind].
  rewrite <- Hs2 in *. cbn [seen snd] in Hfit. destruct (IH s2 Hok2 Hfit) as (s' & E & Hok' & Es).
  exists s'. rewrite E. cbn [mbind option_bind seen]. unfold seen.
  destruct (type4_run cmds (e_tag s2, e_file s2)) as [out st]. done.
Qed.

(** A fitting update is carried out and acknowledged. *)
Lemma update_step s w :
  emu_ok s -> tagWriteable (e_tag s) = true -> update_fits w ->
  exists s1 s2, receive_command (update_command w.1 w.2) s = Some s1 /\
    command_step s1 = Some s2 /\
    e_tag s2 = Tag (list_inserts w.1 w.2 (ndef_file (e_tag s))) true true /\
    take (Z.to_nat (e_sendlen s2)) (e_rwbuf s2) = [0x90; 0x00].
Proof.
  intros Hok Hw (H1 & H2 & H3). unfold NDEF_MAX_LENGTH in H1.
  destruct (apdu_step (UpdateBinary w.1 w.2) s Hok) as (s1 & s2 & E1 & E2 & _ & Hs2).
  { cbn [apdu_fits]. split_and!; [lia|lia|done|]. right. right. lia. }
  exists s1, s2. split; [done|]. split; [done|]. unfold seen, type4_step in Hs2.
  cbn [fst snd] in Hs2. rewrite Hw in Hs2. cbn [negb] in Hs2. rewrite decide_False in Hs2 by lia.
  by injection Hs2 as -> -> _.
Qed.

Lemma emulate_updates s ws :
  emu_ok s -> tagWriteable (e_tag s) = true -> Forall update_fits ws ->
  exists s', emulate_loop (map (fun w => update_command w.1 w.2) ws) s =
      Some (replicate (length ws) [0x90; 0x00], s') /\ emu_ok s' /\
    ndef_file (e_tag s') = foldl (fun f w => list_inserts w.1 w.2 f) (ndef_file (e_tag s)) ws /\
    tagWriteable (e_tag s') = true /\
    (ws <> [] -> tagWrittenByInitiator (e_tag s') = true).
Proof.
  revert s. induction ws as [|w ws IH]; intros s Hok Hw Hf; [by exists s|].
  apply list.Forall_cons in Hf as [Hfit Hfs]. cbn [map emulate_loop length replicate foldl].
  destruct (update_step s w Hok Hw Hfit) as (s1 & s2 & E1 & E2 & Et & Eo).
  rewrite E1. cbn [mbind option_bind]. rewrite E2. cbn [mbind option_bind].
  assert (Hok2 : emu_ok s2).
  { assert (E : emulate_loop [update_command w.1 w.2] s = Some ([[0x90; 0x00]], s2)).
    { cbn [emulate_loop]. rewrite E1. cbn [mbind option_bind]. rewrite E2.
      cbn [mbind option_bind]. by rewrite Eo. }
    apply emulate_loop_ok in E; [done|done|]. by constructor; [apply bytes_update_command|]. }
  destruct (IH s2 Hok2) as (s' & E & Hok' & Hn & Hw' & Hwr); [by rewrite Et|done|].
  exists s'. rewrite E. cbn [mbind option_bind]. rewrite Eo. split; [done|].
  split; [done|]. split; [by rewrite Hn, Et|]. split; [done|]. intros _.
  destruct ws as [|w2 ws]; [|by apply Hwr]. cbn in E. injection E as <-. by rewrite Et.
Qed.

(** ** Properties *)

Lemma type4_protected cmds : forall s,
  tagWriteable s.1 = false -> (type4_run cmds s).2.1 = s.1.
Proof.
  induction cmds as [|a cmds IH]; intros s Hw; [done|]. cbn [type4_run].
  assert (Ht : (type4_step a s).2.1 = s.1).
  { destruct a; cbn [type4_step]; rewrite ?Hw; repeat case_decide; done. }
  destruct (type4_step a s) as [r s1]. cbn [snd] in Ht.
  specialize (IH s1). rewrite Ht in IH. specialize (IH Hw).
  destruct (type4_run cmds s1) as [out s2]. exact IH.
Qed.


Definition example_tag : tag_t := Tag (replicate 128 7) false true.


(** What the phone writes is what the door reads.  UPDATE BINARY commands that stay
    within the file are all carried out, in order, and acknowledged; after them the file
    holds the data and the tag reports that it was written. *)
Theorem tag_write_read tag rwbuf sendlen ws :
  tag_ok tag -> tagWriteable tag = true -> length rwbuf = 128%nat -> bytes_ok rwbuf ->
  0 <= sendlen < 256 -> Forall update_fits ws -> ws <> [] ->
  emulate true tag rwbuf sendlen (map (fun w => update_command w.1 w.2) ws) =
    Some (replicate (length ws) [0x90; 0x00],
          Tag (foldl (fun f w => list_inserts w.1 w.2 f) (ndef_file tag) ws) true true).
Proof.
  intros Ht Hw Hl Hb Hn Hf Hne. unfold emulate. cbn [negb]. rewrite Hw. set (s := Emu _ _ _ _).
  assert (Hok : emu_ok s) by (split; [exact Ht|]; split; [done|]; by split).
  destruct (emulate_updates s ws Hok eq_refl Hf) as (s' & -> & _ & En & Ew & Er).
  cbn [mbind option_bind]. do 2 f_equal. destruct (e_tag s') as [f wr wb]; cbn in *.
  by rewrite En, Ew, Er.
Qed.

Lemma tag_write_read_witness :
  emulate true example_tag (replicate 128 0) 0
    (map (fun w => update_command w.1 w.2) [(2%nat, [5; 6]); (0%nat, [0; 2])]) =
  Some ([[0x90; 0x00]; [0x90; 0x00]], Tag ([0; 2; 5; 6] ++ replicate 124 7) true true).
Proof.
  etransitivity; [apply tag_write_read|reflexivity];
    [split; [reflexivity|by apply (bool_decide_unpack _); vm_compute]|reflexivity|reflexivity
    |by apply (bool_decide_unpack _); vm_compute|lia
    |by apply (bool_decide_unpack _); vm_compute|done].
Defined.

(** C39: the bounds check of UPDATE BINARY is on the offset alone.  A command within
    [rwbuf] is memory-safe exactly when it is refused (offset above 128) or its data ends
    inside the 128-byte file; offset 128 with one byte of data already writes outside. *)
Theorem tag_update_bounds s p1 p2 lc :
  emu_ok s -> tagWriteable (e_tag s) = true ->
  e_rwbuf s !! C_APDU_INS = Some ISO7816_UPDATE_BINARY ->
  e_rwbuf s !! C_APDU_P1 = Some p1 -> e_rwbuf s !! C_APDU_P2 = Some p2 ->
  e_rwbuf s !! C_APDU_LC = Some lc -> lc <= 123 ->
  is_Some (command_step s) <-> 128 < 256 * p1 + p2 \/ 256 * p1 + p2 + lc <= 128.
Proof.
  intros Hok Hw Ei E1 E2 E3 Hlc. pose proof Hok as (Ht & Hl & Hb & _).
  unfold command_step, rd. rewrite Ei. cbn [mbind option_bind].
  rewrite (decide_False (P := ISO7816_UPDATE_BINARY = ISO7816_SELECT_FILE)) by done.
  rewrite (decide_False (P := ISO7816_UPDATE_BINARY = ISO7816_READ_BINARY)) by done.
  rewrite decide_True by done. unfold update_binary, rd. rewrite E1, E2, E3, Hw.
  cbn [mbind option_bind negb].
  pose proof (bytes_ok_lookup _ _ _ Hb E1) as B1. pose proof (bytes_ok_lookup _ _ _ Hb E2) as B2.
  pose proof (bytes_ok_lookup _ _ _ Hb E3) as B3. unfold byte_ok in *.
  rewrite Z.shiftl_mul_pow2, u16_small by lia. unfold NDEF_MAX_LENGTH.
  destruct (decide (Z.of_nat 128 < p1 * 2 ^ 8 + p2)) as [Hp|Hp].
  { split; [intros _; left; lia|intros _; by apply respond_Some]. }
  assert (L5 : (C_APDU_DATA + Z.to_nat lc <= length (e_rwbuf s))%nat)
    by (unfold C_APDU_DATA; lia).
  rewrite rd_slice_Some by done. cbn [mbind option_bind]. unfold wr_slice.
  rewrite length_slice, (proj1 Ht) by done. unfold NDEF_MAX_LENGTH.
  destruct (decide (Z.to_nat (p1 * 2 ^ 8 + p2) + Z.to_nat lc <= 128)%nat) as [Hd|Hd].
  - cbn [mbind option_bind]. destruct (respond_Some COMMAND_COMPLETE s Hok) as [s1 ->].
    split; [intros _; right; lia|intros _; by eexists].
  - split; [intros [? ?]; done|lia].
Qed.

Lemma tag_update_bounds_witness :
  is_Some (command_step (Emu example_tag ([0; 0xD6; 0; 128; 1] ++ replicate 123 0) 0 NDEF)) <->
  128 < 256 * 0 + 128 \/ 256 * 0 + 128 + 1 <= 128.
Proof.
  apply (tag_update_bounds (Emu example_tag ([0; 0xD6; 0; 128; 1] ++ replicate 123 0) 0 NDEF) 0 128 1);
    [split; [split; [reflexivity|by apply (bool_decide_unpack _); vm_compute]|];
     split; [reflexivity|split; [by apply (bool_decide_unpack _); vm_compute|simpl; lia]]
    |reflexivity..|lia].
Defined.
