(* ===== verification/Door.v ===== *)
(** * The door: [door-verifier] and [door-module]

    The verifier emulates an NFC tag, reads the employee's identifier and one-time
    password from the NDEF message a phone wrote to it, looks up the shared secret in
    Redis and compares the password with the one it computes; when they agree it asks
    the door module, over a serial line, to energise the relay for seven seconds.  Redis
    is a parameter, the function from keys to the stored strings (empty: no entry). *)
From Stdlib Require Import Ascii String.
From S2P Require Import Prelude Bytes Sha1 Hmac Totp ArduinoTotp Ndef EmulateTag.

(** The bytes of a string literal. *)
Definition lit (s : string) : list Z :=
  map (fun c => Z.of_N (N_of_ascii c)) (list_ascii_of_string s).

Definition ENDPOINT_ID : list Z :=
  lit "0xf3308b44f566cc09a64772b46773f9e933c43c791ab17147336b60c1dcb0154f".
Definition OPEN_CMD : list Z := lit "0x21".
Definition CLOSED_RSP : list Z := lit "0x22".

(** ** Reading the phone's message: [nfc.cpp] *)

Record READ_RESULT := ReadResult { good : bool; rr_uid : list Z; rr_code : list Z }.

(** The loop over the records; [uid] and [code] are the members of the result, [count]
    the number of fields found. *)
Fixpoint scan_records (rs : list NdefRecord) (uid code : list Z) (count : nat)
    : option (list Z * list Z * nat) :=
  match rs with
  | [] => Some (uid, code, count)
  | r :: rs' =>
      let key := getType r ++ lit "/" ++ getId r in
      if decide (key = lit "key/uid/") then
        if decide (length (r_payload r) = 64%nat) then
          uid ← wr_slice 0 (r_payload r) uid;
          uid ← wr_slice 64 [0] uid;
          scan_records rs' uid code (S count)
        else scan_records rs' uid code count
      else if decide (key = lit "key/otp/") then
        if decide (length (r_payload r) = 6%nat) then
          code ← wr_slice 0 (r_payload r) code;
          code ← wr_slice 6 [0] code;
          scan_records rs' uid code (S count)
        else scan_records rs' uid code count
      else scan_records rs' uid code count
  end.

(** [NFC::try_get] behind [tag.emulate()]: [uid] and [code] are what the uninitialised
    members of [result] hold. *)
Definition try_get (tag : tag_t) (uid code : list Z) : option (READ_RESULT * tag_t) :=
  let tag := Tag (ndef_file tag) (tagWrittenByInitiator tag) true in
  if tagWrittenByInitiator tag then
    '(buf, len) ← getContent tag;
    msg ← decode_message buf (Z.to_nat len);
    '(uid, code, count) ← scan_records msg uid code 0;
    Some (ReadResult (bool_decide (count = 2%nat)) uid code, tag)
  else Some (ReadResult false uid code, tag).

(** ** The verifier's loop: [door_sketch.ino] *)

(** [strcmp(a, b)], up to the first difference or the common NUL. *)
Fixpoint strcmp (a b : list Z) : option Z :=
  match a, b with
  | x :: a', y :: b' =>
      if decide (x = y) then if decide (x = 0) then Some 0 else strcmp a' b'
      else Some (x - y)
  | _, _ => None
  end.

Definition secret_key (uid : list Z) : list Z :=
  lit "endpoint_" ++ ENDPOINT_ID ++ lit "/tickets/employee_0x" ++ c_string uid ++ lit "/secret".

Inductive door_event := TftOk | TftReject | TftNormal | DoorOpen | Delay (ms : Z).

Definition accepted : list door_event := [TftOk; DoorOpen; TftNormal; Delay 250].
Definition rejected : list door_event := [TftReject; Delay 2000; TftNormal; Delay 250].

(** [loop()] behind [try_get]; [o] is the global SHA-1 object. *)
Definition verifier_loop (redis : list Z -> list Z) (o : Sha1Class) (r : READ_RESULT)
    : option (list door_event * Sha1Class) :=
  if negb (good r) then Some (rejected, o) else
  let value := redis (secret_key (rr_uid r)) in
  if decide (value = []) then Some (rejected, o) else
  '(code, o) ← getCode (TOTP_new value) o 0;
  c ← strcmp code (rr_code r);
  if decide (c <> 0) then Some (rejected, o) else Some (accepted, o).

(** One turn of the verifier: the emulation of the tag, the read, and the decision. *)
Definition verifier_turn (redis : list Z -> list Z) (o : Sha1Class) (initialised : bool)
    (tag : tag_t) (rwbuf : list Z) (sendlen : Z) (uid code : list Z) (cmds : list (list Z))
    : option (list door_event * Sha1Class * tag_t) :=
  '(_, tag) ← emulate initialised tag rwbuf sendlen cmds;
  '(r, tag) ← try_get tag uid code;
  '(ev, o) ← verifier_loop redis o r;
  Some (ev, o, tag).

(** ** The serial link: [door.cpp] and [door_module.ino] *)

(** [isspace] and [String::trim] *)
Definition is_space (c : Z) : bool := bool_decide (9 <= c <= 13 \/ c = 32).
Fixpoint trim_left (l : list Z) : list Z :=
  match l with
  | [] => []
  | c :: l' => if is_space c then trim_left l' else l
  end.
Definition trim (l : list Z) : list Z := rev (trim_left (rev (trim_left l))).

(** [println(s)] *)
Definition println (s : list Z) : list Z := s ++ [13; 10].

(** One round of the loop of [Door::open]: whether it waits on after [readString] returned
    [line]. *)
Definition open_wait (line : list Z) : bool := negb (bool_decide (trim line = CLOSED_RSP)).

Inductive module_event := Relay (on : bool) | Led (on : bool) | Wait (ms : Z) | Send (line : list Z).

(** [loop()] of the module, on one line received. *)
Definition module_loop (line : list Z) : list module_event :=
  if decide (trim line <> OPEN_CMD) then []
  else [Relay true; Led true; Wait 7000; Relay false; Led false; Wait 10;
        Send (println CLOSED_RSP); Wait 1000].

(** ** Verifier and module together *)

(** The two devices and the lines in flight, each of which one [readString] returns; [granted] and [opened] count the accepted
    requests and the times the relay was energised. *)
Record system := Sys {
  v_sha : Sha1Class;
  v_tag : tag_t;
  v_waiting : bool;                   (** in [Door::open] *)
  to_module : list (list Z);
  to_verifier : list (list Z);
  m_todo : list module_event;         (** the rest of the module's [loop] *)
  relay : bool;
  granted : nat;
  opened : nat
}.

(** What the module does next. *)
Definition module_do (e : module_event) (s : system) : system :=
  let 'Sys o t w c v todo r g k := s in
  match e with
  | Relay on => Sys o t w c v (tail todo) on g (if on then S k else k)
  | Led _ | Wait _ => Sys o t w c v (tail todo) r g k
  | Send line => Sys o t w c (v ++ [line]) (tail todo) r g k
  end.

Section Link.
Variable redis : list Z -> list Z.

Inductive link_step : system -> system -> Prop :=
| step_reject o t c v todo r g k initialised rwbuf n uid code cmds o' t' :
    verifier_turn redis o initialised t rwbuf n uid code cmds = Some (rejected, o', t') ->
    link_step (Sys o t false c v todo r g k) (Sys o' t' false c v todo r g k)
| step_grant o t c v todo r g k initialised rwbuf n uid code cmds o' t' :
    verifier_turn redis o initialised t rwbuf n uid code cmds = Some (accepted, o', t') ->
    link_step (Sys o t false c v todo r g k)
              (Sys o' t' true (c ++ [println OPEN_CMD]) v todo r (S g) k)
| step_verifier_line o t c line v todo r g k :
    link_step (Sys o t true c (line :: v) todo r g k)
              (Sys o t (open_wait line) c v todo r g k)
| step_module_line o t w line c v r g k :
    link_step (Sys o t w (line :: c) v [] r g k) (Sys o t w c v (module_loop line) r g k)
| step_module_event o t w c v e todo r g k :
    link_step (Sys o t w c v (e :: todo) r g k) (module_do e (Sys o t w c v (e :: todo) r g k)).

(** After [setup] on both sides. *)
Definition link_start (o : Sha1Class) (t : tag_t) : system := Sys o t false [] [] [] false 0 0.

(** Between two openings the module may still be in its last [delay]. *)
Definition quiet (todo : list module_event) : Prop := todo = [] \/ todo = [Wait 1000].

Definition serving : list module_event := module_loop (println OPEN_CMD).

(** An opening: not asked for, asked for, served up to event [i], answered. *)
Inductive phase : system -> Prop :=
| phase_idle o t todo g : quiet todo -> phase (Sys o t false [] [] todo false g g)
| phase_asked o t todo g :
    quiet todo -> phase (Sys o t true [println OPEN_CMD] [] todo false (S g) g)
| phase_serving o t i g :
    (i <= 6)%nat ->
    phase (Sys o t true [] [] (drop i serving) (bool_decide (1 <= i <= 3)%nat) (S g)
             (if decide (i = 0%nat) then g else S g))
| phase_answered o t todo g :
    quiet todo -> phase (Sys o t true [] [println CLOSED_RSP] todo false g g).

Lemma serving_eq : serving = [Relay true; Led true; Wait 7000; Relay false; Led false; Wait 10;
  Send (println CLOSED_RSP); Wait 1000].
Proof. vm_compute. reflexivity. Qed.

Lemma phase_event s e todo :
  phase s -> m_todo s = e :: todo -> phase (module_do e s).
Proof.
  intros Hp E. destruct Hp as [o t l g Hq|o t l g Hq|o t i g Hi|o t l g Hq]; cbn [m_todo] in E.
  - destruct Hq as [->| ->]; [done|]. injection E as <- <-. constructor. by left.
  - destruct Hq as [->| ->]; [done|]. injection E as <- <-. constructor. by left.
  - rewrite serving_eq in *.
    destruct i as [|[|[|[|[|[|[|i]]]]]]]; [..|lia]; cbn [drop] in *; injection E as <- <-;
      cbn [module_do tail app].
    + exact (phase_serving o t 1 g ltac:(lia)).
    + exact (phase_serving o t 2 g ltac:(lia)).
    + exact (phase_serving o t 3 g ltac:(lia)).
    + exact (phase_serving o t 4 g ltac:(lia)).
    + exact (phase_serving o t 5 g ltac:(lia)).
    + exact (phase_serving o t 6 g ltac:(lia)).
    + apply phase_answered. by right.
  - destruct Hq as [->| ->]; [done|]. injection E as <- <-. constructor. by left.
Qed.

Lemma phase_step s s' : phase s -> link_step s s' -> phase s'.
Proof.
  intros Hp Hs. destruct Hs as [o t c v l r g k init rw n uid code cmds o' t' Ht
    |o t c v l r g k init rw n uid code cmds o' t' Ht|o t c line v l r g k|o t w line c v r g k
    |o t w c v e l r g k].
  - inversion Hp; subst. by constructor.
  - inversion Hp; subst. by constructor.
  - inversion Hp; subst. assert (E : trim (println CLOSED_RSP) = CLOSED_RSP) by reflexivity.
    unfold open_wait. rewrite bool_decide_eq_true_2 by done. by constructor.
  - inversion Hp; subst. exact (phase_serving o t 0 k ltac:(lia)).
  - by eapply phase_event.
Qed.

Lemma link_reachable_phase o t s : rtc link_step (link_start o t) s -> phase s.
Proof.
  intros Hr. refine (rtc_ind_r phase (link_start o t) _ _ s Hr).
  - apply phase_idle. by left.
  - intros s1 s2 _ Hs Hp. by eapply phase_step.
Qed.

(** *** A noisy line *)

(** Other lines may turn up on the wires at any time: what the guards of the two loops are
    for. *)
Inductive noisy_step : system -> system -> Prop :=
| noisy_link s s' : link_step s s' -> noisy_step s s'
| noise_to_module o t w c v todo r g k line :
    trim line <> OPEN_CMD ->
    noisy_step (Sys o t w c v todo r g k) (Sys o t w (c ++ [line]) v todo r g k)
| noise_to_verifier o t w c v todo r g k line :
    trim line <> CLOSED_RSP ->
    noisy_step (Sys o t w c v todo r g k) (Sys o t w c (v ++ [line]) todo r g k).

(** The system without the noise in flight. *)
Definition is_open_cmd (line : list Z) : Prop := trim line = OPEN_CMD.
Definition is_closed_rsp (line : list Z) : Prop := trim line = CLOSED_RSP.
#[global] Instance is_open_cmd_dec line : Decision (is_open_cmd line).
Proof. unfold is_open_cmd. apply _. Defined.
#[global] Instance is_closed_rsp_dec line : Decision (is_closed_rsp line).
Proof. unfold is_closed_rsp. apply _. Defined.

Definition quieten (s : system) : system :=
  let 'Sys o t w c v todo r g k := s in
  Sys o t w (filter is_open_cmd c) (filter is_closed_rsp v) todo r g k.

(** What the module does next is what it does without the noise. *)
Lemma quieten_event s e todo :
  phase (quieten s) -> m_todo s = e :: todo -> quieten (module_do e s) = module_do e (quieten s).
Proof.
  intros Hp E. destruct s as [o t w c v td r g k]. cbn [m_todo quieten] in *. subst td.
  destruct e as [on|on|ms|line]; try done. cbn [module_do quieten]. f_equal.
  rewrite list.filter_app, list.filter_cons, list.filter_nil. rewrite decide_True; [done|].
  inversion Hp as [? ? ? ? [Hq|Hq]|? ? ? ? [Hq|Hq]|? ? i ? Hi|? ? ? ? [Hq|Hq]]; subst; try done.
  rewrite serving_eq in *. destruct i as [|[|[|[|[|[|[|i]]]]]]]; [..|lia]; cbn [drop] in *; try done.
  assert (line = println CLOSED_RSP) as -> by congruence. reflexivity.
Qed.

(** The guards make noise harmless: a step with noise is a step without, or none. *)
Lemma noisy_phase s s' : phase (quieten s) -> noisy_step s s' -> phase (quieten s').
Proof.
  intros Hp Hs. destruct Hs as [s s' Hs|o t w c v todo r g k line Hn|o t w c v todo r g k line Hn].
  - destruct Hs as [o t c v l r g k init rw n uid code cmds o' t' Ht
      |o t c v l r g k init rw n uid code cmds o' t' Ht|o t c line v l r g k|o t w line c v r g k
      |o t w c v e l r g k].
    + eapply phase_step; [exact Hp|]. by eapply step_reject.
    + cbn [quieten]. rewrite list.filter_app, list.filter_cons, list.filter_nil, decide_True by reflexivity.
      eapply phase_step; [exact Hp|]. by eapply step_grant.
    + cbn [quieten] in *. rewrite filter_cons in Hp. destruct (decide (is_closed_rsp line)) as [H|H].
      * eapply phase_step; [exact Hp|]. constructor.
      * unfold open_wait. rewrite bool_decide_eq_false_2 by done. exact Hp.
    + cbn [quieten] in *. rewrite filter_cons in Hp. destruct (decide (is_open_cmd line)) as [H|H].
      * eapply phase_step; [exact Hp|]. constructor.
      * unfold module_loop. rewrite decide_True by done. exact Hp.
    + rewrite (quieten_event _ e l) by done. by eapply phase_event.
  - cbn [quieten] in *. by rewrite list.filter_app, list.filter_cons, list.filter_nil, decide_False, app_nil_r by done.
  - cbn [quieten] in *. by rewrite list.filter_app, list.filter_cons, list.filter_nil, decide_False, app_nil_r by done.
Qed.

Lemma noisy_reachable_phase o t s : rtc noisy_step (link_start o t) s -> phase (quieten s).
Proof.
  intros Hr. refine (rtc_ind_r (fun s => phase (quieten s)) (link_start o t) _ _ s Hr).
  - apply phase_idle. by left.
  - intros s1 s2 _ Hs Hp. by eapply noisy_phase.
Qed.

(** ** Progress *)

(** A bound on the steps until [Door::open] returns. *)
Definition link_measure (s : system) : nat :=
  9 * length (to_module s) + length (m_todo s) + (if v_waiting s then 1 else 0).

Definition waiting_step (s s' : system) : Prop := v_waiting s = true /\ link_step s s'.

Lemma waiting_decreases s s' :
  phase s -> waiting_step s s' -> (link_measure s' < link_measure s)%nat.
Proof.
  intros Hp [Hw Hs]. destruct Hs; cbn [v_waiting] in Hw; try done.
  - inversion Hp; subst. unfold open_wait. rewrite bool_decide_eq_true_2 by reflexivity.
    unfold link_measure. cbn [to_module m_todo v_waiting negb length]. lia.
  - inversion Hp; subst. change (module_loop (println OPEN_CMD)) with serving.
    rewrite serving_eq. unfold link_measure. cbn [to_module m_todo v_waiting length]. lia.
  - destruct e as [[]| | |]; unfold link_measure;
      cbn [module_do to_module m_todo v_waiting tail length]; lia.
Qed.

Lemma waiting_progress s : phase s -> v_waiting s = true -> exists s', link_step s s'.
Proof.
  intros Hp Hw. destruct Hp as [o t l g Hq|o t l g Hq|o t i g Hi|o t l g Hq]; [done| | |].
  - destruct Hq as [->| ->]; eexists; constructor.
  - rewrite serving_eq. destruct i as [|[|[|[|[|[|[|i]]]]]]]; [..|lia]; cbn [drop];
      eexists; constructor.
  - eexists. constructor.
Qed.

Lemma waiting_run n s s' :
  phase s -> nsteps waiting_step n s s' ->
  phase s' /\ (n + link_measure s' <= link_measure s)%nat.
Proof.
  intros Hp Hn. induction Hn as [s|n s s1 s' Hs Hn IH]; [split; [done|lia]|].
  assert (Hp1 : phase s1) by (eapply phase_step; [exact Hp|apply Hs]).
  destruct (IH Hp1) as [Hp' Hm]. split; [done|].
  pose proof (waiting_decreases s s1 Hp Hs). lia.
Qed.

Lemma measure_bound s : phase s -> (link_measure s <= 11)%nat.
Proof.
  intros Hp. destruct Hp as [o t l g Hq|o t l g Hq|o t i g Hi|o t l g Hq]; unfold link_measure;
    cbn [to_module m_todo v_waiting length]; try (destruct Hq as [->| ->]; cbn [length]; lia).
  rewrite serving_eq, length_drop. cbn [length]. lia.
Qed.
End Link.

(** ** The decision *)

Lemma strcmp_spec ds c :
  Forall (fun x => x <> 0) ds -> length c = length ds ->
  exists r, strcmp (ds ++ [0]) (c ++ [0]) = Some r /\ (r = 0 <-> c = ds).
Proof.
  revert c. induction ds as [|d ds IH]; intros c Hd Hl.
  { destruct c; [|done]. by exists 0. }
  destruct c as [|x c]; [done|]. apply list.Forall_cons in Hd as [Hd Hds]. injection Hl as Hl.
  cbn [app strcmp]. destruct (decide (d = x)) as [->|Hne].
  - rewrite decide_False by done. destruct (IH c Hds Hl) as (r & -> & Hr). exists r.
    split; [done|]. rewrite Hr. split; [by intros ->|by injection 1].
  - exists (d - x). split; [done|]. split; [lia|]. injection 1 as <- _. done.
Qed.

Lemma digits_nonzero n : Forall (fun x => x <> 0) (six_digits n).
Proof.
  unfold six_digits. apply Forall_map, Forall_true. intros k.
  pose proof (Z.mod_pos_bound (n / 10 ^ k) 10). lia.
Qed.

(** The verdict on a code: the secret must exist and the code be its password at time
    zero. *)
Definition code_valid (secret c : list Z) : Prop := secret <> [] /\ c = rfc6238_totp secret 0.
#[global] Instance code_valid_dec secret c : Decision (code_valid secret c).
Proof. unfold code_valid. apply _. Defined.

Lemma verifier_loop_ok redis o uid c :
  length (so_buffer o) = 64%nat -> length c = 6%nat ->
  bytes_ok (redis (secret_key uid)) -> Z.of_nat (length (redis (secret_key uid))) < 2 ^ 31 ->
  exists o', verifier_loop redis o (ReadResult true uid (c ++ [0])) =
      Some (if decide (code_valid (redis (secret_key uid)) c) then accepted else rejected, o') /\
    length (so_buffer o') = 64%nat.
Proof.
  intros Hbuf Hc Hb Hl. unfold verifier_loop. cbn [good negb rr_uid rr_code].
  set (secret := redis (secret_key uid)) in *. destruct (decide (secret = [])) as [E|E].
  { exists o. rewrite decide_False; [done|]. by intros [? _]. }
  destruct (getCode_ok secret o 0 Hbuf Hb Hl) as (o1 & E1 & Hb1); [lia|].
  exists o1. split; [|done]. etransitivity; [exact (bind_eq _ _ _ E1)|].
  destruct (strcmp_spec (rfc6238_totp secret 0) c) as (r & Er & Hr);
    [apply digits_nonzero|by rewrite Hc|].
  etransitivity; [exact (bind_eq _ _ _ Er)|].
  destruct (decide (r <> 0)) as [Hn|Hn]; [rewrite decide_False|rewrite decide_True]; try done.
  - intros [_ ->]. by apply Hn, Hr.
  - split; [done|]. apply Hr. lia.
Qed.

(** ** The phone's message *)

Lemma bytes_encode_record r f l :
  bytes_ok (r_type r) -> bytes_ok (r_id r) -> bytes_ok (r_payload r) ->
  bytes_ok (encode_record r f l).
Proof.
  intros Ht Hi Hp. unfold encode_record.
  assert (L : forall z, byte_ok (Z.land z 0xff)).
  { intros z. change 0xff with (Z.ones 8). rewrite Z.land_ones by lia. apply u8_range. }
  assert (U : forall z, byte_ok (u8 z)) by (intros z; apply u8_range).
  assert (H0 : byte_ok 0) by (unfold byte_ok; lia).
  assert (T : byte_ok (getTnfByte r f l)) by apply U.
  repeat first [assumption | apply Forall_nil_2 | apply Forall_cons_2; [by auto|]
    | apply bytes_ok_app | case_decide].
Qed.

Definition phone_message (tnf1 tnf2 : Z) (u c : list Z) : list NdefRecord :=
  [Record_ tnf1 (lit "key/uid") u []; Record_ tnf2 (lit "key/otp") c []].
Definition phone_bytes (tnf1 tnf2 : Z) (u c : list Z) : list Z :=
  message_bytes 0 2 (phone_message tnf1 tnf2 u c).

Lemma length_phone_bytes tnf1 tnf2 u c :
  length u = 64%nat -> length c = 6%nat -> length (phone_bytes tnf1 tnf2 u c) = 90%nat.
Proof.
  intros Hu Hc. unfold phone_bytes, phone_message. cbn [message_bytes].
  rewrite !length_app, !length_encode_record. unfold getEncodedSize. cbn [r_payload r_id r_type].
  rewrite Hu, Hc. reflexivity.
Qed.

Lemma bytes_phone_bytes tnf1 tnf2 u c :
  bytes_ok u -> bytes_ok c -> bytes_ok (phone_bytes tnf1 tnf2 u c).
Proof.
  intros Hu Hc. unfold phone_bytes, phone_message. cbn [message_bytes].
  assert (Hlit : forall s, bytes_ok (lit s)).
  { intros s. unfold lit. apply Forall_map, Forall_true. intros a.
    pose proof (N_ascii_bounded a). unfold byte_ok. lia. }
  apply bytes_ok_app; [|apply bytes_ok_app; [|apply Forall_nil_2]];
    apply bytes_encode_record; cbn [r_payload r_id r_type]; auto; apply Forall_nil_2.
Qed.

(** A field copied behind its NUL. *)
Lemma copy_terminated (n : nat) (x g : list Z) :
  length x = n -> length g = S n ->
  exists b, wr_slice 0 x g = Some b /\ wr_slice n [0] b = Some (x ++ [0]).
Proof.
  intros Hx Hg. rewrite wr_slice_Some by lia. eexists. split; [done|].
  rewrite wr_slice_Some by (rewrite length_inserts; simpl; lia). f_equal.
  rewrite <- (take_drop n g). rewrite list_inserts_0_r by (rewrite length_take; lia).
  rewrite <- Hx at 1. rewrite <- (Nat.add_0_r (length x)), list_inserts_app_r. f_equal.
  assert (Hd : length (drop n g) = 1%nat) by (rewrite length_drop; lia).
  destruct (drop n g) as [|y [|]]; done.
Qed.

Lemma scan_phone tnf1 tnf2 u c guid gcode :
  length u = 64%nat -> length c = 6%nat -> length guid = 65%nat -> length gcode = 7%nat ->
  scan_records (phone_message tnf1 tnf2 u c) guid gcode 0 = Some (u ++ [0], c ++ [0], 2%nat).
Proof.
  intros Hu Hc Hgu Hgc. unfold phone_message. cbn [scan_records].
  rewrite decide_True by reflexivity. cbn [r_payload]. rewrite decide_True by done.
  destruct (copy_terminated 64 u guid Hu Hgu) as (b1 & -> & W1).
  destruct (copy_terminated 6 c gcode Hc Hgc) as (b2 & E2 & W2).
  cbn [mbind option_bind]. rewrite W1. cbn [mbind option_bind].
  rewrite decide_False by done. rewrite decide_True by reflexivity. rewrite decide_True by done.
  rewrite E2. cbn [mbind option_bind]. by rewrite W2.
Qed.

(** The tag's file after the phone wrote the message and then its length. *)
Definition phone_writes (tnf1 tnf2 : Z) (u c : list Z) : list (nat * list Z) :=
  [(2%nat, phone_bytes tnf1 tnf2 u c); (0%nat, [0; 90])].

Lemma phone_writes_fit tnf1 tnf2 u c :
  length u = 64%nat -> length c = 6%nat -> bytes_ok u -> bytes_ok c ->
  Forall update_fits (phone_writes tnf1 tnf2 u c).
Proof.
  intros Hu Hc Hbu Hbc. unfold phone_writes, update_fits, NDEF_MAX_LENGTH.
  pose proof (length_phone_bytes tnf1 tnf2 u c Hu Hc) as Hl.
  constructor; [cbn [fst snd]; rewrite Hl; split; [lia|split; [lia|by apply bytes_phone_bytes]]|].
  constructor; [|constructor]. cbn. split; [lia|]. split; [lia|]. repeat constructor; lia.
Qed.

Lemma phone_file tnf1 tnf2 u c file :
  length u = 64%nat -> length c = 6%nat -> length file = 128%nat ->
  foldl (fun f w => list_inserts w.1 w.2 f) file (phone_writes tnf1 tnf2 u c) =
    [0; 90] ++ phone_bytes tnf1 tnf2 u c ++ drop 92 file.
Proof.
  intros Hu Hc Hf. pose proof (length_phone_bytes tnf1 tnf2 u c Hu Hc) as Hl.
  unfold phone_writes. cbn [foldl fst snd]. set (m := phone_bytes tnf1 tnf2 u c) in *.
  destruct file as [|x [|y file]]; [done..|]. cbn [length] in Hf.
  assert (E : list_inserts 2 m (x :: y :: file) = x :: y :: (m ++ drop 90 file)).
  { change (x :: y :: file) with ([x; y] ++ file).
    change 2%nat with (length [x; y] + 0)%nat at 1. rewrite list_inserts_app_r.
    cbn [app]. do 2 f_equal. rewrite <- (take_drop 90 file) at 1.
    apply list_inserts_0_r. rewrite length_take. lia. }
  rewrite E. reflexivity.
Qed.

(** Reading a tag that holds a message and its length. *)
Lemma try_get_message rs rest wr n guid gcode :
  Forall record_short rs -> (0 < length rs <= MAX_NDEF_RECORDS)%nat ->
  length (message_bytes 0 (length rs) rs) = n -> (n < 256)%nat ->
  let tag := Tag ([0; Z.of_nat n] ++ message_bytes 0 (length rs) rs ++ rest) true wr in
  try_get tag guid gcode =
    ('(uid, code, count) ← scan_records rs guid gcode 0;
     Some (ReadResult (bool_decide (count = 2%nat)) uid code, Tag (ndef_file tag) true true)).
Proof.
  intros Hs Hc Hl Hn tag. unfold try_get. cbn [tagWrittenByInitiator tag].
  assert (Eg : getContent (Tag (ndef_file tag) true true) =
    Some (message_bytes 0 (length rs) rs ++ rest, Z.of_nat n)).
  { unfold getContent, rd. cbn [tag ndef_file app lookup list_lookup mbind option_bind drop].
    do 2 f_equal. apply u16_small. lia. }
  assert (Ed : decode_message (message_bytes 0 (length rs) rs ++ rest) (Z.to_nat (Z.of_nat n)) =
    Some rs).
  { rewrite Nat2Z.id. unfold decode_message.
    pose proof (length_message_bytes 0 (length rs) rs).
    apply (ndef_decode_loop_spec rs 0 [] rest [] (length rs)); [done|..].
    - intros ->. simpl in Hc. lia.
    - done.
    - simpl. lia.
    - rewrite Hl. simpl. lia.
    - rewrite length_app. lia. }
  etransitivity; [exact (bind_eq _ _ _ Eg)|]. exact (bind_eq _ _ _ Ed).
Qed.

Lemma phone_short tnf1 tnf2 u c :
  0 <= tnf1 < 8 -> 0 <= tnf2 < 8 -> length u = 64%nat -> length c = 6%nat ->
  Forall record_short (phone_message tnf1 tnf2 u c).
Proof.
  intros H1 H2 Hu Hc. unfold phone_message.
  apply Forall_cons_2; [|apply Forall_cons_2; [|apply Forall_nil_2]];
    unfold record_short; cbn [r_tnf r_type r_payload r_id]; rewrite ?Hu, ?Hc; simpl; lia.
Qed.

(** What the tag holds after the phone's writes. *)
Definition phone_tag (tnf1 tnf2 : Z) (u c rest : list Z) : tag_t :=
  Tag ([0; 90] ++ phone_bytes tnf1 tnf2 u c ++ rest) true true.

Lemma try_get_phone tnf1 tnf2 u c guid gcode rest :
  0 <= tnf1 < 8 -> 0 <= tnf2 < 8 ->
  length u = 64%nat -> length c = 6%nat -> length guid = 65%nat -> length gcode = 7%nat ->
  try_get (phone_tag tnf1 tnf2 u c rest) guid gcode =
    Some (ReadResult true (u ++ [0]) (c ++ [0]), phone_tag tnf1 tnf2 u c rest).
Proof.
  intros H1 H2 Hu Hc Hgu Hgc.
  pose proof (try_get_message (phone_message tnf1 tnf2 u c) rest true 90 guid gcode
    (phone_short tnf1 tnf2 u c H1 H2 Hu Hc) ltac:(unfold MAX_NDEF_RECORDS; simpl; lia)
    (length_phone_bytes tnf1 tnf2 u c Hu Hc) ltac:(lia)) as E.
  etransitivity; [exact E|].
  exact (bind_eq _ _ _ (scan_phone tnf1 tnf2 u c guid gcode Hu Hc Hgu Hgc)).
Qed.

Lemma emulate_phone tag rwbuf sendlen tnf1 tnf2 u c :
  tag_ok tag -> tagWriteable tag = true -> length rwbuf = 128%nat -> bytes_ok rwbuf ->
  0 <= sendlen < 256 -> length u = 64%nat -> length c = 6%nat -> bytes_ok u -> bytes_ok c ->
  emulate true tag rwbuf sendlen
    (map (fun w => update_command w.1 w.2) (phone_writes tnf1 tnf2 u c)) =
    Some ([[0x90; 0x00]; [0x90; 0x00]], phone_tag tnf1 tnf2 u c (drop 92 (ndef_file tag))).
Proof.
  intros Ht Hw Hrl Hrb Hn Hu Hc Hbu Hbc.
  pose proof (phone_writes_fit tnf1 tnf2 u c Hu Hc Hbu Hbc) as Hf.
  unfold emulate. cbn [negb]. rewrite Hw. set (s := Emu _ _ _ _).
  assert (Hok : emu_ok s) by (split; [exact Ht|]; split; [done|]; by split).
  destruct (emulate_updates s _ Hok eq_refl Hf) as (s' & -> & _ & En & Ew & Er).
  cbn [mbind option_bind]. rewrite phone_file in En by (done || apply Ht).
  unfold phone_tag. destruct (e_tag s') as [f wr wb]; cbn in *. by rewrite En, Ew, Er.
Qed.

(** ** Properties *)

(** C3: the door opens exactly for the right code, through every component.  A phone
    writes an NDEF message with an identifier and a six-byte code to the emulated tag;
    the verifier serves the commands, parses the message, fetches the secret stored for
    that identifier and endpoint, and recomputes the code.  Whatever memory held before,
    the turn ends with the door opened if there is a secret and the code is its RFC 6238
    password at time 0, and with a rejection otherwise; no buffer is overrun. *)
Theorem door_opens_iff redis o tag rwbuf sendlen guid gcode tnf1 tnf2 u c
    (secret := redis (secret_key (u ++ [0]))) :
  length (so_buffer o) = 64%nat -> tag_ok tag -> tagWriteable tag = true ->
  length rwbuf = 128%nat -> bytes_ok rwbuf -> 0 <= sendlen < 256 ->
  length guid = 65%nat -> length gcode = 7%nat ->
  0 <= tnf1 < 8 -> 0 <= tnf2 < 8 -> length u = 64%nat -> length c = 6%nat ->
  bytes_ok u -> bytes_ok c -> bytes_ok secret -> Z.of_nat (length secret) < 2 ^ 31 ->
  exists o', verifier_turn redis o true tag rwbuf sendlen guid gcode
      (map (fun w => update_command w.1 w.2) (phone_writes tnf1 tnf2 u c)) =
    Some (if decide (code_valid secret c) then accepted else rejected, o',
          phone_tag tnf1 tnf2 u c (drop 92 (ndef_file tag))).
Proof.
  intros Ho Ht Hw Hrl Hrb Hn Hgu Hgc H1 H2 Hu Hc Hbu Hbc Hbs Hls.
  destruct (verifier_loop_ok redis o (u ++ [0]) c Ho Hc Hbs Hls) as (o' & El & _).
  exists o'. unfold verifier_turn.
  etransitivity; [refine (bind_eq _ _ _ (emulate_phone tag rwbuf sendlen tnf1 tnf2 u c
    Ht Hw Hrl Hrb Hn Hu Hc Hbu Hbc))|].
  etransitivity; [exact (bind_eq _ _ _ (try_get_phone tnf1 tnf2 u c guid gcode _
    H1 H2 Hu Hc Hgu Hgc))|].
  exact (bind_eq _ _ _ El).
Qed.

Definition example_redis (key : list Z) : list Z := map (fun i => 48 + Z.of_nat i mod 10) (seq 1 20).
Definition example_sha : Sha1Class :=
  Sha1Obj (replicate 64 7) 3 (Sha1State 1 2 3 4 5) 9 (replicate 64 1) (replicate 20 1).

(** The code of RFC 4226's test secret for counter 0 is 755224. *)
Lemma door_opens_iff_witness :
  exists o' tag', verifier_turn example_redis example_sha true example_tag (replicate 128 0) 0
      (replicate 65 1) (replicate 7 1)
      (map (fun w => update_command w.1 w.2)
         (phone_writes 4 4 (replicate 64 97) [55; 53; 53; 50; 50; 52])) =
    Some (accepted, o', tag').
Proof.
  destruct (door_opens_iff example_redis example_sha example_tag (replicate 128 0) 0
    (replicate 65 1) (replicate 7 1) 4 4 (replicate 64 97) [55; 53; 53; 50; 50; 52])
    as (o' & E);
    [reflexivity|split; [reflexivity|by apply (bool_decide_unpack _); vm_compute]
    |reflexivity|reflexivity|by apply (bool_decide_unpack _); vm_compute|lia|reflexivity
    |reflexivity|lia|lia|reflexivity|reflexivity|by apply (bool_decide_unpack _); vm_compute
    |by apply (bool_decide_unpack _); vm_compute|by apply (bool_decide_unpack _); vm_compute
    |simpl; lia|].
  exists o'. eexists. rewrite decide_True in E; [exact E|].
  apply (bool_decide_unpack _). vm_compute. exact I.
Defined.

Lemma example_turn :
  exists o' t', verifier_turn example_redis example_sha true example_tag (replicate 128 0) 0
      (replicate 65 1) (replicate 7 1)
      (map (fun w => update_command w.1 w.2)
         (phone_writes 4 4 (replicate 64 97) [55; 53; 53; 50; 50; 52])) = Some (accepted, o', t').
Proof.
  assert (E : (fun x => x.1.1) <$> verifier_turn example_redis example_sha true example_tag
    (replicate 128 0) 0 (replicate 65 1) (replicate 7 1)
    (map (fun w => update_command w.1 w.2)
       (phone_writes 4 4 (replicate 64 97) [55; 53; 53; 50; 50; 52])) = Some accepted)
    by (vm_compute; reflexivity).
  apply fmap_Some in E as ([[ev o'] t'] & E & Ev). exists o', t'. rewrite E. by rewrite Ev.
Qed.

(** C13: the relay obeys the verifier.  In every reachable state of the verifier, the serial
    line and the door module, also when any other lines turn up on the wires at any time, the
    relay has been energised at most once per accepted request, and while it is on the
    verifier is inside [Door::open] for the request being served. *)
Theorem door_relay_safe redis o t s :
  rtc (noisy_step redis) (link_start o t) s ->
  (opened s <= granted s <= S (opened s))%nat /\
  (relay s = true -> v_waiting s = true /\ opened s = granted s).
Proof.
  intros Hr. apply (noisy_reachable_phase redis o t) in Hr.
  destruct s as [o1 t1 w c v todo r g k]. cbn [quieten opened granted relay v_waiting] in *.
  inversion Hr; subst; try (split; [lia|done]).
  destruct (decide (i = 0%nat)) as [->|]; split; (lia || done).
Qed.

(** The relay while a request is served, after a line of noise. *)
Lemma door_relay_safe_witness :
  exists s, rtc (noisy_step example_redis) (link_start example_sha example_tag) s /\
    relay s = true /\ v_waiting s = true /\ opened s = granted s.
Proof.
  destruct example_turn as (o' & t' & E).
  assert (Hr : rtc (noisy_step example_redis) (link_start example_sha example_tag)
    (Sys o' t' true [] [] (tail serving) true 1 1)).
  { eapply rtc_l; [apply (noise_to_module example_redis _ _ _ _ _ _ _ _ _ [1; 2; 3]); by vm_compute|].
    eapply rtc_l; [apply noisy_link; eapply (step_module_line example_redis)|].
    eapply rtc_l; [apply noisy_link; eapply (step_grant example_redis); exact E|].
    eapply rtc_l; [apply noisy_link; eapply (step_module_line example_redis)|].
    apply rtc_once, noisy_link. exact (step_module_event example_redis o' t' true [] [] (Relay true) (tail serving) false 1 0). }
  eexists. split; [exact Hr|]. split; [done|].
  destruct (door_relay_safe example_redis example_sha example_tag _ Hr) as [_ H]. by apply H.
Defined.

(** C19: an accepted request is served to the end.  From any reachable state in which
    [Door::open] is waiting, every run of the two devices makes at most eleven steps
    before it returns, can always make another step until then, and when it returns the
    relay is off and every accepted request has been served. *)
Theorem door_open_returns redis o t s n s' :
  rtc (link_step redis) (link_start o t) s -> nsteps (waiting_step redis) n s s' ->
  (n <= 11)%nat /\
  (v_waiting s' = true -> exists s'', link_step redis s' s'') /\
  (v_waiting s' = false -> relay s' = false /\ opened s' = granted s').
Proof.
  intros Hr Hn. apply (link_reachable_phase redis o t) in Hr.
  destruct (waiting_run redis n s s' Hr Hn) as [Hp Hm]. pose proof (measure_bound s Hr).
  split; [lia|]. split; [by apply waiting_progress|].
  intros Hw. by destruct Hp.
Qed.

Lemma door_open_returns_witness :
  exists s, rtc (link_step example_redis) (link_start example_sha example_tag) s /\
    v_waiting s = true /\ exists s', link_step example_redis s s'.
Proof.
  destruct example_turn as (o' & t' & E).
  assert (Hr : rtc (link_step example_redis) (link_start example_sha example_tag)
    (Sys o' t' true ([] ++ [println OPEN_CMD]) [] [] false 1 0)).
  { apply rtc_once. eapply (step_grant example_redis). exact E. }
  eexists. split; [exact Hr|]. split; [done|].
  destruct (door_open_returns example_redis example_sha example_tag _ 0 _ Hr (nsteps_O _ _))
    as (_ & Hp & _). by apply Hp.
Defined.

(** A message with two codes and no identifier is taken as complete.  [try_get] only
    counts the fields it finds, so the identifier used to fetch the secret is whatever
    the uninitialised member of the result held. *)
Theorem door_uninitialised_uid tnf c1 c2 rest guid gcode :
  0 <= tnf < 8 -> length c1 = 6%nat -> length c2 = 6%nat -> length gcode = 7%nat ->
  let rs := [Record_ tnf (lit "key/otp") c1 []; Record_ tnf (lit "key/otp") c2 []] in
  exists tag', try_get (Tag ([0; 32] ++ message_bytes 0 2 rs ++ rest) true true) guid gcode =
    Some (ReadResult true guid (c2 ++ [0]), tag').
Proof.
  intros Ht H1 H2 Hg rs.
  assert (Hs : Forall record_short rs).
  { apply Forall_cons_2; [|apply Forall_cons_2; [|apply Forall_nil_2]];
      unfold record_short; cbn [r_tnf r_type r_payload r_id]; rewrite ?H1, ?H2; simpl; lia. }
  assert (Hl : length (message_bytes 0 (length rs) rs) = 32%nat).
  { cbn [rs message_bytes length]. rewrite !length_app, !length_encode_record.
    unfold getEncodedSize. cbn [r_payload r_id r_type]. rewrite H1, H2. reflexivity. }
  eexists. etransitivity; [exact (try_get_message rs rest true 32 guid gcode Hs
    ltac:(unfold MAX_NDEF_RECORDS; simpl; lia) Hl ltac:(lia))|].
  assert (Es : scan_records rs guid gcode 0 = Some (guid, c2 ++ [0], 2%nat)).
  { unfold rs. cbn [scan_records r_payload].
    destruct (copy_terminated 6 c1 gcode H1 Hg) as (b & E1 & E2).
    destruct (copy_terminated 6 c2 (c1 ++ [0]) H2) as (b' & E3 & E4).
    { rewrite length_app, H1. done. }
    rewrite decide_False by done. rewrite decide_True by reflexivity. rewrite decide_True by done.
    rewrite E1. cbn [mbind option_bind]. rewrite E2. cbn [mbind option_bind].
    rewrite decide_False by done. rewrite decide_True by reflexivity. rewrite decide_True by done.
    rewrite E3. cbn [mbind option_bind]. rewrite E4. done. }
  exact (bind_eq _ _ _ Es).
Qed.

Lemma door_uninitialised_uid_witness :
  exists tag', try_get (Tag ([0; 32] ++ message_bytes 0 2
      [Record_ 4 (lit "key/otp") (replicate 6 48) []; Record_ 4 (lit "key/otp") (replicate 6 49) []] ++
      replicate 94 0) true true) (replicate 65 120) (replicate 7 0) =
    Some (ReadResult true (replicate 65 120) (replicate 6 49 ++ [0]), tag').
Proof. apply door_uninitialised_uid; (reflexivity || lia). Defined.

(** C40: a failed initialisation reopens the door.  [emulate] clears the flag that reports
    a write only after the chip was initialised, and [try_get] ignores its result; so
    after a turn that accepted a phone's code, a turn in which [tgInitAsTarget] fails
    accepts the message still in the tag, with no phone present. *)
Theorem door_stale_write_reopens redis o rwbuf sendlen guid gcode tnf1 tnf2 u c rest cmds
    (secret := redis (secret_key (u ++ [0]))) :
  length (so_buffer o) = 64%nat -> length guid = 65%nat -> length gcode = 7%nat ->
  0 <= tnf1 < 8 -> 0 <= tnf2 < 8 -> length u = 64%nat -> length c = 6%nat ->
  bytes_ok secret -> Z.of_nat (length secret) < 2 ^ 31 -> code_valid secret c ->
  exists o', verifier_turn redis o false (phone_tag tnf1 tnf2 u c rest) rwbuf sendlen guid gcode
      cmds = Some (accepted, o', phone_tag tnf1 tnf2 u c rest).
Proof.
  intros Ho Hgu Hgc H1 H2 Hu Hc Hbs Hls Hv.
  destruct (verifier_loop_ok redis o (u ++ [0]) c Ho Hc Hbs Hls) as (o' & El & _).
  rewrite decide_True in El by done. exists o'.
  etransitivity; [exact (bind_eq _ _ _ (try_get_phone tnf1 tnf2 u c guid gcode rest
    H1 H2 Hu Hc Hgu Hgc))|].
  exact (bind_eq _ _ _ El).
Qed.

Lemma door_stale_write_reopens_witness :
  exists o', verifier_turn example_redis example_sha false
      (phone_tag 4 4 (replicate 64 97) [55; 53; 53; 50; 50; 52] []) [] 0
      (replicate 65 1) (replicate 7 1) [] =
    Some (accepted, o', phone_tag 4 4 (replicate 64 97) [55; 53; 53; 50; 50; 52] []).
Proof.
  apply door_stale_write_reopens; try reflexivity; try lia;
    [by apply (bool_decide_unpack _); vm_compute|].
  apply (bool_decide_unpack _). vm_compute. exact I.
Defined.
