(* ===== verification/Pn532.v ===== *)
(** * The radio chip: [door-verifier/MY_PN532_HSU.cpp] and the target mode of
    [arduino-libraries/PN532/PN532.cpp]

    Frames on the serial line to the PN532, and the calls of [PN532] that
    [EmulateTag::emulate] makes.  The chip is a parameter: what it puts on the line in
    answer to a frame.  Its documented behaviour is the class [TargetMode]; the loop of
    [emulate] over the driver refines the loop over a list of commands in EmulateTag. *)
From S2P Require Import Prelude Bytes ArduinoTotp EmulateTag Door.

(** ** Outcomes *)

(** A call returns, leaves a buffer, or does not return (waiting for ever, or longer than
    the number of turns given). *)
Inductive run (A : Type) := Ret (a : A) | Overrun | Blocked.
Arguments Ret {A} a.
Arguments Overrun {A}.
Arguments Blocked {A}.

#[global] Instance run_ret : MRet run := @Ret.
#[global] Instance run_bind : MBind run := fun A B f m =>
  match m with Ret a => f a | Overrun => Overrun | Blocked => Blocked end.

Definition of_option {A} (m : option A) : run A :=
  match m with Some a => Ret a | None => Overrun end.

(** Conversion to [int8_t]. *)
Definition s8 (z : Z) : Z := if decide (u8 z < 128) then u8 z else u8 z - 256.

(** ** [PN532Interface.h] and [PN532.h] *)

Definition PN532_HOSTTOPN532 : Z := 0xD4.
Definition PN532_PN532TOHOST : Z := 0xD5.
Definition PN532_ACK_WAIT_TIME : Z := 10.
Definition PN532_INVALID_ACK : Z := -1.
Definition PN532_TIMEOUT : Z := -2.
Definition PN532_INVALID_FRAME : Z := -3.
Definition PN532_NO_SPACE : Z := -4.
Definition PN532_COMMAND_INRELEASE : Z := 0x52.
Definition PN532_COMMAND_TGINITASTARGET : Z := 0x8C.
Definition PN532_COMMAND_TGGETDATA : Z := 0x86.
Definition PN532_COMMAND_TGSETDATA : Z := 0x8E.

(** ** The serial line: [MY_PN532_HSU.cpp] *)

(** What arrives: a byte in time, or a silence longer than the timeout of the call. *)
Inductive rx_event := RxByte (b : Z) | RxSilence.

(** What the chip puts on the line after a frame. *)
Class Chip (C : Type) := chip_write : C -> list Z -> list rx_event * C.

(** [h_stack] is what uninitialised local arrays hold. *)
Record hsu (C : Type) := Hsu {
  h_command : Z;
  h_rx : list rx_event;
  h_stack : list Z;
  h_chip : C
}.
Arguments Hsu {C} h_command h_rx h_stack h_chip.
Arguments h_command {C}.
Arguments h_rx {C}.
Arguments h_stack {C}.
Arguments h_chip {C}.

(** The inner loop of [receive]: [Ret None] is a timeout; without one it waits on. *)
Fixpoint wait_byte (timeout : Z) (rx : list rx_event) : run (option Z * list rx_event) :=
  match rx with
  | [] => if decide (timeout = 0) then Blocked else Ret (None, [])
  | RxByte b :: rx' => Ret (Some b, rx')
  | RxSilence :: rx' => if decide (timeout = 0) then wait_byte timeout rx' else Ret (None, rx')
  end.

(** The outer loop: [n] bytes are left to read. *)
Fixpoint receive_loop (n : nat) (timeout : Z) (buf : list Z) (read_bytes : nat)
    (rx : list rx_event) : run (Z * list Z * list rx_event) :=
  match n with
  | O => Ret (s8 (Z.of_nat read_bytes), buf, rx)
  | S n' =>
      '(b, rx) ← wait_byte timeout rx;
      match b with
      | None =>
          Ret (if decide (read_bytes = 0%nat) then PN532_TIMEOUT else s8 (Z.of_nat read_bytes),
               buf, rx)
      | Some b =>
          buf ← of_option (wr_slice read_bytes [b] buf);
          receive_loop n' timeout buf (S read_bytes) rx
      end
  end.

Section Driver.
Context {C : Type} `{!Chip C}.

Definition receive (buf : list Z) (len : nat) (timeout : Z) (h : hsu C) : run (Z * list Z * hsu C) :=
  '(n, buf, rx) ← receive_loop len timeout buf 0 (h_rx h);
  Ret (n, buf, Hsu (h_command h) rx (h_stack h) (h_chip h)).

Definition readAckFrame (h : hsu C) : run (Z * hsu C) :=
  '(n, ackBuf, h) ← receive (take 6 (h_stack h)) 6 PN532_ACK_WAIT_TIME h;
  if decide (n <= 0) then Ret (PN532_TIMEOUT, h)
  else if decide (ackBuf <> [0; 0; 0xFF; 0; 0xFF; 0]) then Ret (PN532_INVALID_ACK, h)
  else Ret (0, h).

(** What was received before is dumped; [write(~length + 1)] sends the low byte. *)
Definition writeCommand (header body : list Z) (h : hsu C) : run (Z * hsu C) :=
  command ← of_option (rd header 0);
  let length := u8 (Z.of_nat (length header) + Z.of_nat (length body) + 1) in
  let sum := foldl (fun sum b => u8 (sum + b)) PN532_HOSTTOPN532 (header ++ body) in
  let '(rx, chip) := chip_write (h_chip h)
    ([0; 0; 0xFF; length; u8 (Z.lnot length + 1); PN532_HOSTTOPN532] ++ header ++ body ++
     [u8 (Z.lnot sum + 1); 0]) in
  readAckFrame (Hsu command rx (h_stack h) chip).

(** The end of [readResponse]: the data, their checksum and the postamble. *)
Definition read_data (buf tmp : list Z) (l0 cmd timeout : Z) (h : hsu C) : run (Z * list Z * hsu C) :=
  '(n, buf, h) ← receive buf (Z.to_nat l0) timeout h;
  if decide (n <> l0) then Ret (PN532_TIMEOUT, buf, h) else
  data ← of_option (rd_slice 0 (Z.to_nat l0) buf);
  let sum := foldl (fun sum b => u8 (sum + b)) (u8 (PN532_PN532TOHOST + cmd)) data in
  '(n, tmp, h) ← receive tmp 2 timeout h;
  if decide (n <= 0) then Ret (PN532_TIMEOUT, buf, h) else
  t0 ← of_option (rd tmp 0);
  t1 ← of_option (rd tmp 1);
  if decide (u8 (sum + t0) <> 0 \/ t1 <> 0) then Ret (PN532_INVALID_FRAME, buf, h) else
  Ret (l0, buf, h).

(** The command byte, behind a length [l0] that was checked. *)
Definition read_command (buf tmp : list Z) (l0 timeout : Z) (h : hsu C) : run (Z * list Z * hsu C) :=
  let cmd := u8 (h_command h + 1) in
  '(n, tmp, h) ← receive tmp 2 timeout h;
  if decide (n <= 0) then Ret (PN532_TIMEOUT, buf, h) else
  t0 ← of_option (rd tmp 0);
  t1 ← of_option (rd tmp 1);
  if decide (PN532_PN532TOHOST <> t0 \/ cmd <> t1) then Ret (PN532_INVALID_FRAME, buf, h) else
  read_data buf tmp l0 cmd timeout h.

(** The length and its complement. *)
Definition read_length (buf tmp : list Z) (len timeout : Z) (h : hsu C) : run (Z * list Z * hsu C) :=
  '(n, length, h) ← receive (take 2 (h_stack h)) 2 timeout h;
  if decide (n <= 0) then Ret (PN532_TIMEOUT, buf, h) else
  l0 ← of_option (rd length 0);
  l1 ← of_option (rd length 1);
  if decide (u8 (l0 + l1) <> 0) then Ret (PN532_INVALID_FRAME, buf, h) else
  let l0 := u8 (l0 - 2) in
  if decide (len < l0) then Ret (PN532_NO_SPACE, buf, h) else
  read_command buf tmp l0 timeout h.

Definition readResponse (buf : list Z) (len : Z) (timeout : Z) (h : hsu C)
    : run (Z * list Z * hsu C) :=
  '(n, tmp, h) ← receive (take 3 (h_stack h)) 3 timeout h;
  if decide (n <= 0) then Ret (PN532_TIMEOUT, buf, h) else
  if decide (tmp <> [0; 0; 0xFF]) then Ret (PN532_INVALID_FRAME, buf, h) else
  read_length buf tmp len timeout h.

(** ** Target mode: [PN532.cpp] *)

(** [p_buf] is [pn532_packetbuffer], 64 bytes. *)
Record pn532 := Pn { p_hsu : hsu C; p_buf : list Z }.

Definition tgInitAsTarget (command : list Z) (timeout : Z) (p : pn532) : run (Z * pn532) :=
  '(status, h) ← writeCommand command [] (p_hsu p);
  if decide (status < 0) then Ret (-1, Pn h (p_buf p)) else
  '(status, buf, h) ← readResponse (p_buf p) 64 timeout h;
  let status := s8 status in
  Ret (if decide (0 < status) then 1 else if decide (PN532_TIMEOUT = status) then 0 else -2,
       Pn h buf).

(** [for (i = 0; i < length; i++) buf[i] = buf[i + 1]], [n] turns left. *)
Fixpoint shift_down (n i : nat) (buf : list Z) : option (list Z) :=
  match n with
  | O => Some buf
  | S n' => b ← rd buf (i + 1); buf ← wr_slice i [b] buf; shift_down n' (S i) buf
  end.

Definition tgGetData (buf : list Z) (len : Z) (p : pn532) : run (Z * list Z * pn532) :=
  buf ← of_option (wr_slice 0 [PN532_COMMAND_TGGETDATA] buf);
  '(status, h) ← writeCommand (take 1 buf) [] (p_hsu p);
  if decide (status <> 0) then Ret (-1, buf, Pn h (p_buf p)) else
  '(status, buf, h) ← readResponse buf len 3000 h;
  if decide (status <= 0) then Ret (status, buf, Pn h (p_buf p)) else
  let length := u16 (status - 1) in
  b0 ← of_option (rd buf 0);
  if decide (b0 <> 0) then Ret (-5, buf, Pn h (p_buf p)) else
  buf ← of_option (shift_down (Z.to_nat length) 0 buf);
  Ret (length, buf, Pn h (p_buf p)).

(** [tgSetData(header, hlen)], with [header] outside [pn532_packetbuffer]. *)
Definition tgSetData (header : list Z) (p : pn532) : run (bool * pn532) :=
  let hlen := length header in
  '(status, h, buf) ← (if decide (63 < hlen)%nat then
      buf ← of_option (wr_slice 0 [PN532_COMMAND_TGSETDATA] (p_buf p));
      '(status, h) ← writeCommand (take 1 buf) header (p_hsu p);
      Ret (status, h, buf)
    else
      buf ← of_option (wr_slice 1 header (p_buf p));
      buf ← of_option (wr_slice 0 [PN532_COMMAND_TGSETDATA] buf);
      '(status, h) ← writeCommand (take (hlen + 1) buf) [] (p_hsu p);
      Ret (status, h, buf));
  if decide (status <> 0) then Ret (false, Pn h buf) else
  '(status, buf, h) ← readResponse buf 64 3000 h;
  if decide (status < 0) then Ret (false, Pn h buf) else
  b0 ← of_option (rd buf 0);
  Ret (bool_decide (b0 = 0), Pn h buf).

Definition inRelease (relevantTarget : Z) (p : pn532) : run (Z * pn532) :=
  buf ← of_option (wr_slice 0 [PN532_COMMAND_INRELEASE; relevantTarget] (p_buf p));
  '(status, h) ← writeCommand (take 2 buf) [] (p_hsu p);
  if decide (status <> 0) then Ret (0, Pn h buf) else
  '(status, buf, h) ← readResponse buf 64 1000 h;
  Ret (status, Pn h buf).

(** ** [EmulateTag::emulate] over the driver *)

(** The command that makes the chip a tag, with the three bytes of [uidPtr]. *)
Definition init_command (uid : list Z) : list Z :=
  [PN532_COMMAND_TGINITASTARGET; 5; 0x04; 0x00] ++ uid ++ [0x20] ++ replicate 18 0 ++
  replicate 10 0 ++ [0; 0].

(** The loop; [tgSetData] returns a [bool], so [status < 0] never holds behind it. *)
Fixpoint target_loop (fuel : nat) (p : pn532) (s : emu_t) : run (emu_t * pn532) :=
  match fuel with
  | O => Blocked
  | S fuel' =>
      '(status, rwbuf, p) ← tgGetData (e_rwbuf s) 128 p;
      let s := Emu (e_tag s) rwbuf (e_sendlen s) (e_file s) in
      if decide (status < 0) then '(_, p) ← inRelease 0 p; Ret (s, p) else
      s ← of_option (command_step s);
      header ← of_option (rd_slice 0 (Z.to_nat (e_sendlen s)) (e_rwbuf s));
      '(_, p) ← tgSetData header p;
      target_loop fuel' p s
  end.

Definition target_emulate (fuel : nat) (uid : list Z) (tgInitAsTargetTimeout : Z) (tag : tag_t)
    (rwbuf : list Z) (sendlen : Z) (p : pn532) : run (bool * tag_t * pn532) :=
  '(status, p) ← tgInitAsTarget (init_command uid) tgInitAsTargetTimeout p;
  if decide (status <> 1) then Ret (false, tag, p) else
  '(s, p) ← target_loop fuel p
     (Emu (Tag (ndef_file tag) false (tagWriteable tag)) rwbuf sendlen NONE);
  Ret (true, e_tag s, p).
End Driver.
Arguments pn532 C : clear implicits.

(** ** Frames *)

Definition byte_sum (l : list Z) : Z := foldr Z.add 0 l.

(** A frame of the protocol: length, its complement, the data and their checksum. *)
Definition frame (tfi : Z) (data : list Z) : list Z :=
  let n := Z.of_nat (length data) + 1 in
  [0; 0; 0xFF; u8 n; u8 (- n); tfi] ++ data ++ [u8 (- (tfi + byte_sum data)); 0].

Definition ack : list Z := [0; 0; 0xFF; 0; 0xFF; 0].

(** What the chip sends after a command: the acknowledgement and the response. *)
Definition answer (data : list Z) : list rx_event := map RxByte (ack ++ frame PN532_PN532TOHOST data).

Lemma u8_lnot z : u8 (Z.lnot z + 1) = u8 (- z).
Proof. f_equal. unfold Z.lnot. lia. Qed.

Lemma u8_opp z : u8 (- u8 z) = u8 (- z).
Proof.
  unfold u8. rewrite <- (Z.sub_0_l (z mod 2 ^ 8)), <- (Z.sub_0_l z).
  apply Zminus_mod_idemp_r.
Qed.

Lemma u8_add_l x y : u8 (u8 x + y) = u8 (x + y).
Proof. unfold u8. apply Zplus_mod_idemp_l. Qed.

Lemma u8_add_r x y : u8 (x + u8 y) = u8 (x + y).
Proof. unfold u8. apply Zplus_mod_idemp_r. Qed.

Lemma checksum_fold x l : u8 (foldl (fun sum b => u8 (sum + b)) x l) = u8 (x + byte_sum l).
Proof.
  revert x. induction l as [|b l IH]; intros x; cbn [foldl byte_sum foldr]; [by rewrite Z.add_0_r|].
  rewrite IH. rewrite u8_add_l. f_equal. unfold byte_sum. lia.
Qed.

Lemma s8_small z : 0 <= z < 128 -> s8 z = z.
Proof. intros H. unfold s8. rewrite u8_small by lia. rewrite decide_True by lia. done. Qed.

(** A byte is its own checksum's negation only when the sum vanishes. *)
Lemma u8_zero_iff x y : byte_ok y -> u8 (x + y) = 0 <-> y = u8 (- x).
Proof.
  unfold byte_ok, u8. intros Hy. split.
  - intros H. apply Z.mod_divide in H as [k Hk]; [|lia].
    replace (- x) with (y + (- k) * 2 ^ 8) by lia. rewrite Z.mod_add by lia. by rewrite Z.mod_small.
  - intros ->. rewrite Zplus_mod_idemp_r. by replace (x + - x) with 0 by lia.
Qed.

(** ** Receiving *)

(** Bytes that are all there. *)
Lemma receive_loop_bytes l timeout buf k rx :
  (k + length l <= length buf)%nat ->
  receive_loop (length l) timeout buf k (map RxByte l ++ rx) =
    Ret (s8 (Z.of_nat (k + length l)), list_inserts k l buf, rx).
Proof.
  revert k buf. induction l as [|b l IH]; intros k buf Hk; cbn [length map app receive_loop] in *.
  - by rewrite Nat.add_0_r.
  - cbn [wait_byte mbind run_bind]. rewrite wr_slice_Some by (cbn [length]; lia).
    cbn [of_option mbind run_bind]. rewrite IH by (rewrite length_inserts; lia).
    replace (S k + length l)%nat with (k + S (length l))%nat by lia. do 3 f_equal.
    cbn [list_inserts]. symmetry. apply list_insert_inserts_lt. lia.
Qed.

(** Fewer bytes than asked for, and then nothing. *)
Lemma receive_loop_short n l timeout buf k :
  timeout <> 0 -> (length l < n)%nat -> (k + length l <= length buf)%nat ->
  receive_loop n timeout buf k (map RxByte l) =
    Ret (if decide (k + length l = 0)%nat then PN532_TIMEOUT else s8 (Z.of_nat (k + length l)),
         list_inserts k l buf, []).
Proof.
  intros Ht. revert n k buf. induction l as [|b l IH]; intros [|n] k buf Hn Hk;
    cbn [length map receive_loop] in *; try lia.
  - cbn [wait_byte]. rewrite (decide_False (P := timeout = 0)) by done. cbn [mbind run_bind list_inserts].
    destruct (decide (k = 0%nat)), (decide (k + 0 = 0)%nat); try lia; by rewrite ?Nat.add_0_r.
  - cbn [wait_byte mbind run_bind]. rewrite wr_slice_Some by (cbn [length]; lia).
    cbn [of_option mbind run_bind]. rewrite IH by (rewrite ?length_inserts; lia).
    replace (S k + length l)%nat with (k + S (length l))%nat by lia. do 2 f_equal. f_equal.
    cbn [list_inserts]. symmetry. apply list_insert_inserts_lt. lia.
Qed.

Section Frames.
Context {C : Type} `{!Chip C}.
Implicit Types h : hsu C.

Definition rx_set h (rx : list rx_event) : hsu C := Hsu (h_command h) rx (h_stack h) (h_chip h).

Lemma receive_full h buf timeout l rx :
  h_rx h = map RxByte l ++ rx -> (length l <= length buf)%nat ->
  receive buf (length l) timeout h =
    Ret (s8 (Z.of_nat (length l)), list_inserts 0 l buf, rx_set h rx).
Proof.
  intros E Hl. unfold receive. rewrite E, receive_loop_bytes by lia. done.
Qed.

(** A whole array filled. *)
Lemma receive_array h buf timeout l rx n :
  h_rx h = map RxByte l ++ rx -> length l = n -> length buf = n -> (n < 128)%nat ->
  receive buf n timeout h = Ret (Z.of_nat n, l, rx_set h rx).
Proof.
  intros E <- Hb Hn. rewrite (receive_full h buf timeout l rx) by (done || lia).
  rewrite s8_small by lia. do 3 f_equal.
  rewrite <- (app_nil_r buf) at 1. rewrite list_inserts_0_r by lia. apply app_nil_r.
Qed.

Lemma receive_short h buf timeout l n :
  h_rx h = map RxByte l -> timeout <> 0 -> (length l < n)%nat -> (n <= length buf)%nat ->
  receive buf n timeout h =
    Ret (if decide (length l = 0%nat) then PN532_TIMEOUT else s8 (Z.of_nat (length l)),
         list_inserts 0 l buf, rx_set h []).
Proof. intros E Ht Hl Hb. unfold receive. rewrite E, receive_loop_short by lia. done. Qed.

(** [writeCommand] sends one well-formed frame, and succeeds when the chip acknowledges it. *)
Lemma writeCommand_frame h header body c0 rx chip :
  rd header 0 = Some c0 -> (6 <= length (h_stack h))%nat ->
  chip_write (h_chip h) (frame PN532_HOSTTOPN532 (header ++ body)) = (map RxByte ack ++ rx, chip) ->
  writeCommand header body h = Ret (0, Hsu c0 rx (h_stack h) chip).
Proof.
  intros E0 Hs Ec. unfold writeCommand. rewrite E0. cbn [of_option mbind run_bind].
  rewrite !u8_lnot, <- (u8_opp (foldl _ _ _)), checksum_fold, !u8_opp.
  unfold frame in Ec. rewrite length_app, Nat2Z.inj_add, <- app_assoc in Ec. rewrite Ec.
  unfold readAckFrame. rewrite (receive_array _ _ _ ack rx 6); [|done|done|rewrite length_take; cbn [h_stack]; lia|lia].
  cbn [mbind run_bind]. rewrite decide_False by lia. rewrite decide_False by (intros []; done). done.
Qed.

Lemma frame_split tfi c data :
  frame tfi (c :: data) =
    [0; 0; 0xFF] ++ [u8 (Z.of_nat (length data) + 2); u8 (- (Z.of_nat (length data) + 2))] ++
    [tfi; c] ++ data ++ [u8 (- (tfi + c + byte_sum data)); 0].
Proof.
  unfold frame. cbn [length byte_sum foldr app]. rewrite Nat2Z.inj_succ.
  replace (Z.succ (Z.of_nat (length data)) + 1) with (Z.of_nat (length data) + 2) by lia.
  do 7 f_equal. f_equal. unfold byte_sum. by rewrite Z.add_assoc.
Qed.

Definition response_cmd h : Z := u8 (h_command h + 1).

(** The data and the end of a frame. *)
Lemma read_data_frame h buf tmp c timeout data l rx :
  length tmp = 3%nat -> (length data <= length buf)%nat -> (length data < 128)%nat ->
  h_rx h = map RxByte data ++ map RxByte [u8 (- (PN532_PN532TOHOST + c + byte_sum data)); 0] ++ rx ->
  tmp = [PN532_PN532TOHOST; c; l] ->
  read_data buf tmp (Z.of_nat (length data)) c timeout h =
    Ret (Z.of_nat (length data), list_inserts 0 data buf, rx_set h rx).
Proof.
  intros Ht Hb Hd E ->. unfold read_data. rewrite Nat2Z.id.
  rewrite (receive_full _ _ _ data _ E) by lia.
  cbn [mbind run_bind]. rewrite s8_small by lia. rewrite decide_False by lia.
  rewrite rd_slice_Some by (rewrite length_inserts; lia). cbn [of_option mbind run_bind].
  rewrite slice_inserts_same by lia.
  erewrite (receive_full _ _ _ [_; 0]); [|reflexivity|cbn [length]; lia].
  cbn [mbind run_bind]. rewrite decide_False by (rewrite s8_small; cbn [length]; lia).
  cbn [list_inserts insert list_insert rd lookup list_lookup of_option mbind run_bind].
  rewrite <- u8_add_l, checksum_fold, u8_add_l, <- Z.add_assoc, u8_add_l.
  rewrite Z.add_assoc, u8_add_r.
  rewrite decide_False; [done|]. intros [[]|[]]; [|done].
  replace (_ + _) with 0; [done|]. unfold byte_sum. lia.
Qed.

(** A frame that fits is read: its data are in the buffer. *)
Lemma readResponse_frame h buf len timeout data rx :
  (3 <= length (h_stack h))%nat -> length buf = Z.to_nat len -> 0 <= len < 256 ->
  (length data <= Z.to_nat len)%nat -> (length data < 128)%nat ->
  h_rx h = map RxByte (frame PN532_PN532TOHOST (response_cmd h :: data)) ++ rx ->
  readResponse buf len timeout h = Ret (Z.of_nat (length data), list_inserts 0 data buf, rx_set h rx).
Proof.
  intros Hs Hb Hlen Hd Hd2 E. rewrite frame_split, !map_app, <- !app_assoc in E.
  set (n := Z.of_nat (length data)) in *. set (c := response_cmd h) in *.
  unfold readResponse. rewrite (receive_array _ _ _ _ _ 3 E); [|done|rewrite length_take; lia|lia].
  cbn [mbind run_bind]. rewrite decide_False by lia. rewrite decide_False by (intros []; done).
  unfold read_length.
  erewrite (receive_array _ _ _ [u8 (n + 2); u8 (- (n + 2))] _ 2); [|reflexivity|done|rewrite length_take; cbn [rx_set h_stack]; lia|lia].
  cbn [mbind run_bind]. rewrite decide_False by lia. cbn [rd lookup list_lookup of_option mbind run_bind].
  rewrite (u8_small (n + 2)) by lia. rewrite u8_add_r.
  replace (n + 2 + - (n + 2)) with 0 by lia. rewrite decide_False by (intros []; done).
  replace (n + 2 - 2) with n by lia. rewrite (u8_small n) by lia. rewrite decide_False by lia.
  unfold read_command. change (u8 (h_command _ + 1)) with c.
  erewrite (receive_full _ _ _ [PN532_PN532TOHOST; c]); [|reflexivity|cbn [length]; lia].
  cbn [mbind run_bind]. rewrite decide_False by (rewrite s8_small; cbn [length]; lia).
  cbn [list_inserts insert list_insert rd lookup list_lookup of_option mbind run_bind].
  rewrite decide_False by (intros [[]|[]]; done).
  unfold n at 1. rewrite (read_data_frame _ buf _ c timeout data 0xFF rx) by (done || lia). done.
Qed.

(** A frame with more data than the buffer holds is refused before they are read. *)
Lemma readResponse_no_space h buf len timeout data rx :
  (3 <= length (h_stack h))%nat -> 0 <= len < 256 ->
  (Z.to_nat len < length data)%nat -> (length data <= 253)%nat ->
  h_rx h = map RxByte (frame PN532_PN532TOHOST (response_cmd h :: data)) ++ rx ->
  exists h', readResponse buf len timeout h = Ret (PN532_NO_SPACE, buf, h') /\
    h_stack h' = h_stack h /\ h_chip h' = h_chip h.
Proof.
  intros Hs Hlen Hd Hd2 E. rewrite frame_split, !map_app, <- !app_assoc in E.
  set (n := Z.of_nat (length data)) in *.
  unfold readResponse. rewrite (receive_array _ _ _ _ _ 3 E); [|done|rewrite length_take; lia|lia].
  cbn [mbind run_bind]. rewrite decide_False by lia. rewrite decide_False by (intros []; done).
  unfold read_length.
  erewrite (receive_array _ _ _ [u8 (n + 2); u8 (- (n + 2))] _ 2); [|reflexivity|done|rewrite length_take; cbn [rx_set h_stack]; lia|lia].
  cbn [mbind run_bind]. rewrite decide_False by lia. cbn [rd lookup list_lookup of_option mbind run_bind].
  rewrite (u8_small (n + 2)) by lia. rewrite u8_add_r.
  replace (n + 2 + - (n + 2)) with 0 by lia. rewrite decide_False by (intros []; done).
  replace (n + 2 - 2) with n by lia. rewrite (u8_small n), decide_True by lia. by eexists.
Qed.

(** *** Streams of bytes *)

Lemma receive_prefix h buf timeout t l n :
  h_rx h = map RxByte (t ++ l) -> length t = n -> (n <= length buf)%nat ->
  receive buf n timeout h =
    Ret (s8 (Z.of_nat n), list_inserts 0 t buf, rx_set h (map RxByte l)).
Proof. intros E <- Hn. apply receive_full; [by rewrite E, map_app|done]. Qed.

Lemma receive_nothing h buf timeout n :
  h_rx h = [] -> timeout <> 0 -> (0 < n <= length buf)%nat ->
  receive buf n timeout h = Ret (PN532_TIMEOUT, buf, rx_set h []).
Proof. intros E Ht Hn. rewrite (receive_short h buf timeout [] n); [done|done|done|cbn [length]; lia|lia]. Qed.

(** The outcomes that are not a frame. *)
Definition no_frame (m : run (Z * list Z * hsu C)) : Prop :=
  exists n buf' h', m = Ret (n, buf', h') /\ n < 0.

Lemma no_frame_Ret n buf' h' : n < 0 -> no_frame (Ret (n, buf', h')).
Proof. intros H. by exists n, buf', h'. Qed.

(** Enough bytes, or only some of them. *)
Lemma bytes_split (l : list Z) n :
  (length l < n)%nat \/ exists t l', l = t ++ l' /\ length t = n.
Proof.
  destruct (decide (length l < n)%nat); [by left|right]. exists (take n l), (drop n l).
  rewrite take_drop, length_take. split; [done|lia].
Qed.

Ltac not_a_frame := apply no_frame_Ret; unfold PN532_TIMEOUT, PN532_INVALID_FRAME, PN532_NO_SPACE; lia.

(** Once nothing more comes, each stage fails. *)
Lemma read_data_silent h buf tmp l0 cmd timeout :
  h_rx h = [] -> timeout <> 0 -> (2 <= length tmp)%nat -> 0 <= l0 <= Z.of_nat (length buf) ->
  no_frame (read_data buf tmp l0 cmd timeout h).
Proof.
  intros E Ht Hl Hb. unfold read_data. destruct (decide (l0 = 0)) as [->|H0].
  - change (Z.to_nat 0) with 0%nat. rewrite (receive_prefix h buf timeout [] [] 0) by (done || lia).
    cbn [mbind run_bind]. rewrite decide_False by (intros []; done).
    cbn [list_inserts]. rewrite rd_slice_Some by lia. cbn [of_option mbind run_bind].
    rewrite receive_nothing by (done || lia). cbn [mbind run_bind].
    rewrite decide_True by (unfold PN532_TIMEOUT; lia). not_a_frame.
  - rewrite receive_nothing by (done || lia). cbn [mbind run_bind].
    rewrite decide_True by (unfold PN532_TIMEOUT; lia). not_a_frame.
Qed.

Lemma read_length_silent h buf tmp len timeout :
  h_rx h = [] -> timeout <> 0 -> (2 <= length (h_stack h))%nat ->
  no_frame (read_length buf tmp len timeout h).
Proof.
  intros E Ht Hs. unfold read_length. rewrite receive_nothing by (done || rewrite length_take; lia).
  cbn [mbind run_bind]. rewrite decide_True by (unfold PN532_TIMEOUT; lia). not_a_frame.
Qed.

Lemma read_command_silent h buf tmp l0 timeout :
  h_rx h = [] -> timeout <> 0 -> (2 <= length tmp)%nat ->
  no_frame (read_command buf tmp l0 timeout h).
Proof.
  intros E Ht Hs. unfold read_command. rewrite receive_nothing by (done || lia).
  cbn [mbind run_bind]. rewrite decide_True by (unfold PN532_TIMEOUT; lia). not_a_frame.
Qed.

(** A value read from an array that is long enough. *)
Lemma rd_defined (l : list Z) i : (i < length l)%nat -> exists x, rd l i = Some x.
Proof. apply lookup_lt_is_Some_2. Qed.

(** The last stage: no frame, or the data and their checksum are what was received. *)
Lemma read_data_inv h buf c timeout l l0 x :
  h_rx h = map RxByte l -> bytes_ok l -> timeout <> 0 -> 0 <= l0 <= Z.of_nat (length buf) ->
  l0 < 256 -> c <> 0 ->
  no_frame (read_data buf [PN532_PN532TOHOST; c; x] l0 c timeout h) \/
  exists data rest, l = data ++ [u8 (- (PN532_PN532TOHOST + c + byte_sum data)); 0] ++ rest /\
    Z.of_nat (length data) = l0 /\ l0 < 128.
Proof.
  intros E Hb Ht Hl Hl2 Hc. set (tmp := [_; c; x]). unfold read_data.
  assert (Htl : length tmp = 3%nat) by done.
  destruct (bytes_split l (Z.to_nat l0)) as [Hs|(data & l2 & -> & Hd)].
  - left. rewrite (receive_short _ _ _ l) by (done || lia). cbn [mbind run_bind].
    rewrite decide_True; [not_a_frame|]. destruct (decide (length l = 0%nat)); [unfold PN532_TIMEOUT; lia|].
    unfold s8. rewrite u8_small by lia. destruct (decide (Z.of_nat (length l) < 128)); lia.
  - rewrite (receive_prefix _ _ _ data l2) by (done || lia). cbn [mbind run_bind].
    rewrite Z2Nat.id by lia. destruct (decide (l0 < 128)) as [H128|H128].
    2:{ left. rewrite decide_True; [not_a_frame|]. unfold s8. rewrite u8_small by lia.
        destruct (decide (l0 < 128)); lia. }
    rewrite s8_small, decide_False by lia. rewrite rd_slice_Some by (rewrite length_inserts; lia).
    cbn [of_option mbind run_bind]. rewrite <- Hd, slice_inserts_same by lia.
    apply list.Forall_app in Hb as [_ Hb].
    destruct l2 as [|y [|z rest]].
    + left. rewrite receive_nothing by (done || (cbn [length]; lia)). cbn [mbind run_bind].
      rewrite decide_True by (unfold PN532_TIMEOUT; lia). not_a_frame.
    + left. rewrite (receive_short _ _ _ [y]) by (done || (cbn [length]; lia)). cbn [mbind run_bind].
      rewrite decide_False by (vm_compute; intros H; by apply H).
      cbn [list_inserts insert list_insert rd lookup list_lookup of_option mbind run_bind tmp].
      rewrite decide_True by (by right). not_a_frame.
    + rewrite (receive_prefix _ _ _ [y; z] rest) by (done || (cbn [length]; lia)).
      cbn [mbind run_bind]. rewrite decide_False by (rewrite s8_small; lia).
      cbn [list_inserts insert list_insert rd lookup list_lookup of_option mbind run_bind tmp].
      case_decide as Hsum; [left; not_a_frame|]. right. exists data, rest.
      destruct (decide (z = 0)) as [->|]; [|by destruct Hsum; right].
      split; [|lia]. f_equal. cbn [app]. f_equal. apply u8_zero_iff.
      * by apply list.Forall_cons in Hb as [? _].
      * destruct (decide (u8 (foldl (fun sum b => u8 (sum + b)) (u8 (PN532_PN532TOHOST + c)) data + y) = 0))
          as [H0|]; [|by destruct Hsum; left].
        by rewrite <- u8_add_l, checksum_fold, u8_add_l, <- Z.add_assoc, u8_add_l, Z.add_assoc in H0.
Qed.

(** The stages in front of it. *)
Lemma read_command_inv h buf x timeout l l0 :
  h_rx h = map RxByte l -> bytes_ok l -> timeout <> 0 -> 0 <= l0 <= Z.of_nat (length buf) ->
  l0 < 256 -> response_cmd h <> 0 ->
  no_frame (read_command buf [0; 0; x] l0 timeout h) \/
  exists data rest, l = [PN532_PN532TOHOST; response_cmd h] ++ data ++
      [u8 (- (PN532_PN532TOHOST + response_cmd h + byte_sum data)); 0] ++ rest /\
    Z.of_nat (length data) = l0 /\ l0 < 128.
Proof.
  intros E Hb Ht Hl Hl2 Hc.
  destruct l as [|y [|z l2]]; [left; apply read_command_silent; [done|done|cbn [length]; lia]|..];
    unfold read_command; fold (response_cmd h).
  - left. rewrite (receive_short _ _ _ [y]) by (done || (cbn [length]; lia)). cbn [mbind run_bind].
    rewrite decide_False by (vm_compute; intros H; by apply H).
    cbn [list_inserts insert list_insert rd lookup list_lookup of_option mbind run_bind].
    case_decide; [not_a_frame|]. apply read_data_silent; [done|done|cbn [length]; lia|lia].
  - rewrite (receive_prefix _ _ _ [y; z] l2) by (done || (cbn [length]; lia)).
    cbn [mbind run_bind]. rewrite decide_False by (rewrite s8_small; lia).
    cbn [list_inserts insert list_insert rd lookup list_lookup of_option mbind run_bind].
    case_decide as Hd; [left; not_a_frame|].
    destruct (decide (PN532_PN532TOHOST = y)) as [<-|]; [|by destruct Hd; left].
    destruct (decide (response_cmd h = z)) as [<-|]; [|by destruct Hd; right].
    apply list.Forall_cons in Hb as [_ Hb]. apply list.Forall_cons in Hb as [_ Hb].
    destruct (read_data_inv (rx_set h (map RxByte l2)) buf (response_cmd h) timeout l2 l0 x)
      as [H|(data & rest & -> & Hn)]; try done; [by left|].
    right. by exists data, rest.
Qed.

Lemma read_length_inv h buf x len timeout l :
  h_rx h = map RxByte l -> bytes_ok l -> timeout <> 0 -> length buf = Z.to_nat len ->
  0 <= len < 256 -> (2 <= length (h_stack h))%nat -> response_cmd h <> 0 ->
  no_frame (read_length buf [0; 0; x] len timeout h) \/
  exists data rest, l =
      [u8 (Z.of_nat (length data) + 2); u8 (- (Z.of_nat (length data) + 2))] ++
      [PN532_PN532TOHOST; response_cmd h] ++ data ++
      [u8 (- (PN532_PN532TOHOST + response_cmd h + byte_sum data)); 0] ++ rest /\
    Z.of_nat (length data) <= len /\ (length data < 128)%nat.
Proof.
  intros E Hb Ht Hl Hlen Hst Hc.
  destruct l as [|y [|z l2]]; [left; by apply read_length_silent|..]; unfold read_length;
    (destruct (h_stack h) as [|s0 [|s1 st]] eqn:Es; cbn [length] in Hst; [lia..|]); cbn [take].
  - left. rewrite (receive_short _ _ _ [y]) by (done || (cbn [length]; lia)). cbn [mbind run_bind].
    rewrite decide_False by (vm_compute; intros H; by apply H).
    cbn [list_inserts insert list_insert rd lookup list_lookup of_option mbind run_bind].
    do 2 (case_decide; [not_a_frame|]). apply read_command_silent; [done|done|cbn [length]; lia].
  - rewrite (receive_prefix _ _ _ [y; z] l2) by (done || (cbn [length]; lia)).
    cbn [mbind run_bind]. rewrite decide_False by (rewrite s8_small; lia).
    cbn [list_inserts insert list_insert rd lookup list_lookup of_option mbind run_bind].
    case_decide as Hs; [left; not_a_frame|]. case_decide as Hn; [left; not_a_frame|].
    apply list.Forall_cons in Hb as [Hy Hb]. apply list.Forall_cons in Hb as [Hz Hb].
    pose proof (u8_range (y - 2)).
    destruct (read_command_inv (rx_set h (map RxByte l2)) buf x timeout l2 (u8 (y - 2)))
      as [H2|(data & rest & -> & Hd & H128)]; try done; [lia|lia|by left|].
    right. exists data, rest. split; [|lia].
    assert (y = Z.of_nat (length data) + 2) as ->.
    { unfold byte_ok in Hy. destruct (decide (2 <= y)); [rewrite u8_small in Hd; lia|].
      exfalso. unfold u8 in *. replace (y - 2) with (y + 254 + (-1) * 2 ^ 8) in * by lia.
      rewrite Z.mod_add, Z.mod_small in H128 by lia. lia. }
    rewrite (u8_small (_ + 2)) by lia. cbn [app]. do 2 f_equal. apply u8_zero_iff; [done|].
    destruct (decide (u8 (Z.of_nat (length data) + 2 + z) = 0)) as [H0|H0]; [done|by destruct Hs].
Qed.

(** Reading a stream of bytes that ends: a frame, or an error. *)
Lemma readResponse_inv h buf len timeout l :
  h_rx h = map RxByte l -> bytes_ok l -> timeout <> 0 -> length buf = Z.to_nat len ->
  0 <= len < 256 -> (3 <= length (h_stack h))%nat -> response_cmd h <> 0 ->
  no_frame (readResponse buf len timeout h) \/
  exists data rest, l = frame PN532_PN532TOHOST (response_cmd h :: data) ++ rest /\
    Z.of_nat (length data) <= len /\ (length data < 128)%nat.
Proof.
  intros E Hb Ht Hl Hlen Hst Hc. unfold readResponse.
  assert (H3 : length (take 3 (h_stack h)) = 3%nat) by (rewrite length_take; lia).
  destruct (bytes_split l 3) as [Hs|(t & l2 & -> & Htl)].
  - left. rewrite (receive_short _ _ _ l) by (done || lia). cbn [mbind run_bind].
    set (m := if decide (length l = 0%nat) then _ else _). clearbody m.
    do 2 (case_decide; [not_a_frame|]). apply read_length_silent; [done|done|cbn; lia].
  - rewrite (receive_prefix _ _ _ t l2) by (done || lia). cbn [mbind run_bind].
    rewrite decide_False by (rewrite s8_small; lia).
    assert (list_inserts 0 t (take 3 (h_stack h)) = t) as ->.
    { rewrite <- (app_nil_r (take _ _)), list_inserts_0_r by lia. apply app_nil_r. }
    case_decide as Hd; [left; not_a_frame|].
    destruct (decide (t = [0; 0; 0xFF])) as [->|]; [|by destruct Hd].
    apply list.Forall_app in Hb as [_ Hb].
    destruct (read_length_inv (rx_set h (map RxByte l2)) buf 0xFF len timeout l2)
      as [H2|(data & rest & -> & Hd1 & Hd2)]; try done; [cbn; lia|by left|].
    right. exists data, rest. split; [|done]. rewrite frame_split, <- !app_assoc. done.
Qed.
End Frames.

(** ** The chip as a tag *)

(** What the chip promises in target mode (PN532 user manual, 7.3.14 to 7.3.17 and 7.3.11):
    [chip_todo] are the commands the phone has still to send, [chip_sent] the responses
    passed on to it.  [TgInitAsTarget] answers with the mode and the first command of the
    initiator, [chip_first], the one that activated the target (not one of [chip_todo]; the
    driver ignores it); once the phone is gone, [TgGetData] answers with an error status.
    The length of a frame, its TFI included, is one byte; [TgSetData] is promised for what fits
    a frame. *)
Class TargetMode (C : Type) `{!Chip C} := {
  chip_todo : C -> list (list Z);
  chip_sent : C -> list (list Z);
  chip_first : C -> list Z;
  chip_first_frame c : (length (chip_first c) <= 252)%nat;
  chip_init c uid : length uid = 3%nat -> exists c' mode,
    chip_write c (frame PN532_HOSTTOPN532 (init_command uid)) =
      (answer (PN532_COMMAND_TGINITASTARGET + 1 :: mode :: chip_first c), c') /\
    chip_todo c' = chip_todo c /\ chip_sent c' = chip_sent c;
  chip_get c a todo : chip_todo c = a :: todo -> exists c',
    chip_write c (frame PN532_HOSTTOPN532 [PN532_COMMAND_TGGETDATA]) =
      (answer (PN532_COMMAND_TGGETDATA + 1 :: 0 :: a), c') /\
    chip_todo c' = todo /\ chip_sent c' = chip_sent c;
  chip_gone c : chip_todo c = [] -> exists c' status, status <> 0 /\
    chip_write c (frame PN532_HOSTTOPN532 [PN532_COMMAND_TGGETDATA]) =
      (answer [PN532_COMMAND_TGGETDATA + 1; status], c') /\
    chip_todo c' = [] /\ chip_sent c' = chip_sent c;
  chip_set c data : (length data <= 253)%nat -> exists c',
    chip_write c (frame PN532_HOSTTOPN532 (PN532_COMMAND_TGSETDATA :: data)) =
      (answer [PN532_COMMAND_TGSETDATA + 1; 0], c') /\
    chip_todo c' = chip_todo c /\ chip_sent c' = chip_sent c ++ [data];
  chip_release c target : exists c',
    chip_write c (frame PN532_HOSTTOPN532 [PN532_COMMAND_INRELEASE; target]) =
      (answer [PN532_COMMAND_INRELEASE + 1; 0], c') /\
    chip_todo c' = chip_todo c /\ chip_sent c' = chip_sent c
}.

Lemma shift_down_spec n i buf :
  (i + n < length buf)%nat ->
  exists buf', shift_down n i buf = Some buf' /\ length buf' = length buf /\
    forall j, buf' !! j = if decide (i <= j < i + n)%nat then buf !! (j + 1)%nat else buf !! j.
Proof.
  revert i buf. induction n as [|n IH]; intros i buf Hn; cbn [shift_down].
  - exists buf. split_and!; [done..|]. intros j. by rewrite decide_False by lia.
  - destruct (rd_defined buf (i + 1)) as [b Eb]; [lia|]. rewrite Eb. cbn [mbind option_bind].
    rewrite wr_slice_Some by (cbn [length]; lia). cbn [mbind option_bind list_inserts].
    destruct (IH (S i) (<[i := b]> buf)) as (buf' & -> & Hl & Hj); [rewrite length_insert; lia|].
    exists buf'. rewrite length_insert in Hl. split_and!; [done..|]. intros j. rewrite Hj.
    destruct (decide (j = i)) as [->|Hne].
    + rewrite decide_False, decide_True by lia. rewrite list_lookup_insert_eq by lia. by rewrite <- Eb.
    + destruct (decide (i <= j < i + S n)%nat); [rewrite decide_True by lia|rewrite decide_False by lia];
        by rewrite list_lookup_insert_ne by lia.
Qed.

(** A response that arrived with its status byte, after the shift. *)
Lemma shift_command a b :
  (length a < length b)%nat ->
  shift_down (length a) 0 (list_inserts 0 (0 :: a) b) = Some (list_inserts 0 (command_bytes a) b).
Proof.
  intros Hl. destruct (shift_down_spec (length a) 0 (list_inserts 0 (0 :: a) b)) as (b' & -> & Hl' & Hj).
  { by rewrite length_inserts. }
  f_equal. apply list_eq. intros j. rewrite Hj. rewrite length_inserts in Hl'.
  assert (Lc : length (command_bytes a) = S (length a))
    by (unfold command_bytes; rewrite length_app; cbn [length]; lia).
  destruct (decide (j <= length a)%nat) as [Hja|Hja].
  - rewrite (list_lookup_inserts _ 0 (command_bytes a)) by lia. rewrite Nat.sub_0_r.
    unfold command_bytes. case_decide.
    + rewrite list_lookup_inserts by (cbn [length]; lia). rewrite Nat.sub_0_r, Nat.add_1_r.
      cbn [lookup list_lookup]. by rewrite lookup_app_l by lia.
    + assert (j = length a) as -> by lia. rewrite list_lookup_inserts by (cbn [length]; lia).
      rewrite Nat.sub_0_r, lookup_app_r, Nat.sub_diag by lia.
      destruct a as [|x a]; [done|]. change ((0 :: x :: a) !! length (x :: a)) with ((x :: a) !! length a).
      rewrite last_lookup. change (pred (length (x :: a))) with (length a).
      destruct (lookup_lt_is_Some_2 (x :: a) (length a)) as [y ->]; [cbn [length]; lia|done].
  - rewrite decide_False by lia.
    by rewrite !list_lookup_inserts_ge by (cbn [length] in *; lia).
Qed.

Section Target.
Context {C : Type} `{!Chip C} `{!TargetMode C}.
Implicit Types p : pn532 C.

(** The driver's own part of the state. *)
Definition pn_ok p : Prop := (6 <= length (h_stack (p_hsu p)))%nat /\ length (p_buf p) = 64%nat.
Definition todo p : list (list Z) := chip_todo (h_chip (p_hsu p)).
Definition sent p : list (list Z) := chip_sent (h_chip (p_hsu p)).

(** A command and its response. *)
Lemma exchange h header body c0 c' data buf len timeout :
  (6 <= length (h_stack h))%nat -> rd header 0 = Some c0 -> 0 <= c0 < 255 ->
  length buf = Z.to_nat len -> 0 <= len < 256 -> (length data <= Z.to_nat len)%nat ->
  (length data < 128)%nat ->
  chip_write (h_chip h) (frame PN532_HOSTTOPN532 (header ++ body)) = (answer (c0 + 1 :: data), c') ->
  exists h1 : hsu C, writeCommand header body h = Ret (0, h1) /\
    readResponse buf len timeout h1 =
      Ret (Z.of_nat (length data), list_inserts 0 data buf, Hsu c0 [] (h_stack h) c').
Proof.
  intros Hs Hc H0 Hb Hlen Hd Hd2 E. unfold answer in E. rewrite map_app in E.
  eexists. split; [exact (writeCommand_frame h header body c0 _ c' Hc Hs E)|].
  apply (readResponse_frame (Hsu c0 _ (h_stack h) c') buf len timeout data []); cbn [h_stack h_rx]; try (done || lia).
  unfold response_cmd. cbn [h_command]. by rewrite u8_small, app_nil_r by lia.
Qed.

Lemma tgGetData_next p a cmds buf :
  pn_ok p -> todo p = a :: cmds -> (length a <= 126)%nat -> length buf = 128%nat ->
  exists p', tgGetData buf 128 p =
      Ret (Z.of_nat (length a), list_inserts 0 (command_bytes a) buf, p') /\
    pn_ok p' /\ todo p' = cmds /\ sent p' = sent p.
Proof.
  intros [Hs Hp] Et Ha Hb. destruct (chip_get _ _ _ Et) as (c' & Ec & Et' & Es').
  unfold tgGetData. rewrite wr_slice_Some by (cbn [length]; lia). cbn [of_option mbind run_bind list_inserts].
  destruct buf as [|b0 buf]; [done|]. cbn [insert list_insert].
  change (take 1 (PN532_COMMAND_TGGETDATA :: buf)) with [PN532_COMMAND_TGGETDATA].
  destruct (exchange (p_hsu p) [PN532_COMMAND_TGGETDATA] [] PN532_COMMAND_TGGETDATA c' (0 :: a)
    (PN532_COMMAND_TGGETDATA :: buf) 128 3000) as (h1 & -> & Er);
    try done; [cbn [length]; lia|cbn [length]; lia|].
  cbn [mbind run_bind]. rewrite decide_False by (intros []; done). rewrite Er. cbn [mbind run_bind].
  rewrite decide_False by (cbn [length]; lia).
  assert (Ei : list_inserts 0 (0 :: a) (PN532_COMMAND_TGGETDATA :: buf) =
    list_inserts 0 (0 :: a) (b0 :: buf)).
  { cbn [list_inserts]. rewrite !list_inserts_cons. done. }
  rewrite Ei. assert (rd (list_inserts 0 (0 :: a) (b0 :: buf)) 0 = Some 0) as ->.
  { unfold rd. rewrite list_lookup_inserts by (cbn [length] in *; lia). done. }
  cbn [of_option mbind run_bind]. rewrite decide_False by (intros []; done).
  replace (Z.to_nat (u16 (Z.of_nat (length (0 :: a)) - 1))) with (length a)
    by (cbn [length]; rewrite u16_small; lia).
  rewrite shift_command by (cbn [length] in *; lia). cbn [of_option mbind run_bind].
  eexists. split; [do 3 f_equal; cbn [length]; rewrite u16_small; lia|].
  unfold pn_ok, todo, sent. cbn [p_hsu h_stack p_buf h_chip]. done.
Qed.

Lemma tgGetData_gone p buf :
  pn_ok p -> todo p = [] -> length buf = 128%nat ->
  exists p' buf', tgGetData buf 128 p = Ret (-5, buf', p') /\ pn_ok p' /\ sent p' = sent p.
Proof.
  intros [Hs Hp] Et Hb. destruct (chip_gone _ Et) as (c' & st & Hst & Ec & Et' & Es').
  unfold tgGetData. rewrite wr_slice_Some by (cbn [length]; lia). cbn [of_option mbind run_bind list_inserts].
  destruct buf as [|b0 buf]; [done|]. cbn [insert list_insert].
  change (take 1 (PN532_COMMAND_TGGETDATA :: buf)) with [PN532_COMMAND_TGGETDATA].
  destruct (exchange (p_hsu p) [PN532_COMMAND_TGGETDATA] [] PN532_COMMAND_TGGETDATA c' [st]
    (PN532_COMMAND_TGGETDATA :: buf) 128 3000) as (h1 & -> & Er);
    try done; [cbn [length]; lia..|].
  cbn [mbind run_bind]. rewrite decide_False by (intros []; done). rewrite Er. cbn [mbind run_bind].
  rewrite decide_False by (cbn [length]; lia).
  cbn [list_inserts insert list_insert rd lookup list_lookup of_option mbind run_bind].
  rewrite decide_True by done. eexists _, _. split; [done|].
  unfold pn_ok, sent. cbn [p_hsu h_stack p_buf h_chip]. done.
Qed.

Lemma tgSetData_ok p header :
  pn_ok p -> (length header <= 128)%nat ->
  exists p', tgSetData header p = Ret (true, p') /\ pn_ok p' /\ todo p' = todo p /\
    sent p' = sent p ++ [header].
Proof.
  intros [Hs Hp] Hh. destruct (chip_set (h_chip (p_hsu p)) header) as (c' & Ec & Et' & Es'); [lia|].
  unfold tgSetData. destruct (p_buf p) as [|b0 pb] eqn:Epb; [done|].
  assert (Hfin : forall buf h1, length buf = 64%nat ->
    readResponse buf 64 3000 h1 =
      Ret (Z.of_nat (length [0]), list_inserts 0 [0] buf,
           Hsu PN532_COMMAND_TGSETDATA [] (h_stack (p_hsu p)) c') ->
    exists p', ('(status, buf, h) ← readResponse buf 64 3000 h1;
      if decide (status < 0) then Ret (false, Pn h buf) else
      b0 ← of_option (rd buf 0);
      Ret (bool_decide (b0 = 0), Pn h buf)) = Ret (true, p') /\ pn_ok p' /\ todo p' = todo p /\
      sent p' = sent p ++ [header]).
  { intros buf h1 Hb ->. cbn [mbind run_bind]. rewrite decide_False by (cbn [length]; lia).
    destruct buf as [|x buf]; [done|].
    cbn [list_inserts insert list_insert rd lookup list_lookup of_option mbind run_bind].
    eexists. split; [done|]. unfold pn_ok, todo, sent. cbn [p_hsu h_stack p_buf h_chip]. done. }
  destruct (decide (63 < length header)%nat) as [Hl|Hl].
  - rewrite wr_slice_Some by (cbn [length] in *; lia). cbn [of_option mbind run_bind list_inserts insert list_insert].
    change (take 1 (PN532_COMMAND_TGSETDATA :: pb)) with [PN532_COMMAND_TGSETDATA].
    destruct (exchange (p_hsu p) [PN532_COMMAND_TGSETDATA] header PN532_COMMAND_TGSETDATA c' [0]
      (PN532_COMMAND_TGSETDATA :: pb) 64 3000) as (h1 & -> & Er); try done; [cbn [length]; lia..|].
    cbn [mbind run_bind]. rewrite decide_False by (intros []; done). by apply Hfin.
  - rewrite wr_slice_Some by (cbn [length] in *; lia). cbn [of_option mbind run_bind].
    rewrite wr_slice_Some by (rewrite length_inserts; cbn [length] in *; lia).
    rewrite list_inserts_cons. cbn [of_option mbind run_bind list_inserts insert list_insert].
    assert (Et : take (length header + 1)
      (PN532_COMMAND_TGSETDATA :: list_inserts 0 header pb) = PN532_COMMAND_TGSETDATA :: header).
    { rewrite Nat.add_1_r. cbn [take]. f_equal.
      rewrite <- (take_drop (length header) pb), list_inserts_0_r.
      - apply take_app_length.
      - rewrite length_take. cbn [length] in *. lia. }
    rewrite Et.
    destruct (exchange (p_hsu p) (PN532_COMMAND_TGSETDATA :: header) [] PN532_COMMAND_TGSETDATA c' [0]
      (PN532_COMMAND_TGSETDATA :: list_inserts 0 header pb) 64 3000) as (h1 & -> & Er);
      try done; [cbn [length] in *; rewrite ?length_inserts; lia..|by rewrite app_nil_r|].
    cbn [mbind run_bind]. rewrite decide_False by (intros []; done). apply Hfin; [|done].
    cbn [length] in *. rewrite length_inserts. lia.
Qed.

Lemma inRelease_ok p : pn_ok p -> exists r p', inRelease 0 p = Ret (r, p') /\ sent p' = sent p.
Proof.
  intros [Hs Hp]. destruct (chip_release (h_chip (p_hsu p)) 0) as (c' & Ec & _ & Es').
  unfold inRelease. rewrite wr_slice_Some by (cbn [length]; lia).
  destruct (p_buf p) as [|b0 [|b1 pb]] eqn:Epb; [done..|].
  cbn [of_option mbind run_bind list_inserts insert list_insert].
  destruct (exchange (p_hsu p) [PN532_COMMAND_INRELEASE; 0] [] PN532_COMMAND_INRELEASE c' [0]
    (PN532_COMMAND_INRELEASE :: 0 :: pb) 64 1000) as (h1 & E1 & Er); try done; [cbn [length]; lia..|].
  change (take 2 (PN532_COMMAND_INRELEASE :: 0 :: pb)) with [PN532_COMMAND_INRELEASE; 0].
  rewrite E1. cbn [mbind run_bind]. rewrite decide_False by (intros []; done). rewrite Er.
  cbn [mbind run_bind]. eexists _, _. by split.
Qed.

(** Becoming a tag: the answer, mode byte included, must fit the 64 bytes of
    [pn532_packetbuffer]. *)
Definition first_fits p : bool := bool_decide (length (chip_first (h_chip (p_hsu p))) <= 63)%nat.

Lemma tgInitAsTarget_ok p uid timeout :
  pn_ok p -> length uid = 3%nat ->
  exists p', tgInitAsTarget (init_command uid) timeout p = Ret (if first_fits p then 1 else -2, p') /\
    pn_ok p' /\ todo p' = todo p /\ sent p' = sent p.
Proof.
  intros [Hs Hp] Hu. destruct (chip_init (h_chip (p_hsu p)) uid Hu) as (c' & mode & Ec & Et' & Es').
  pose proof (chip_first_frame (h_chip (p_hsu p))) as Hf. unfold first_fits.
  set (first := chip_first (h_chip (p_hsu p))) in *. set (data := mode :: first) in *.
  assert (Hld : length data = S (length first)) by done. unfold tgInitAsTarget.
  case_bool_decide as H63.
  - destruct (exchange (p_hsu p) (init_command uid) [] PN532_COMMAND_TGINITASTARGET c' data (p_buf p) 64 timeout)
      as (h1 & -> & Er); try (done || lia); [by rewrite app_nil_r|].
    cbn [mbind run_bind]. rewrite decide_False by lia. rewrite Er. cbn [mbind run_bind].
    rewrite s8_small, decide_True by lia. eexists. split; [done|].
    unfold pn_ok, todo, sent. cbn [p_hsu h_stack p_buf h_chip]. by rewrite length_inserts.
  - unfold answer in Ec. rewrite map_app in Ec.
    rewrite (writeCommand_frame (p_hsu p) (init_command uid) [] PN532_COMMAND_TGINITASTARGET
      (map RxByte (frame PN532_PN532TOHOST (PN532_COMMAND_TGINITASTARGET + 1 :: data))) c')
      by (done || by rewrite app_nil_r).
    cbn [mbind run_bind]. rewrite decide_False by lia.
    destruct (readResponse_no_space (Hsu PN532_COMMAND_TGINITASTARGET
      (map RxByte (frame PN532_PN532TOHOST (PN532_COMMAND_TGINITASTARGET + 1 :: data)))
      (h_stack (p_hsu p)) c') (p_buf p) 64 timeout data []) as (h' & -> & Hst & Hch);
      [cbn [h_stack]; lia|lia|lia|lia|cbn [h_rx]; by rewrite app_nil_r|].
    cbn [mbind run_bind]. change (s8 PN532_NO_SPACE) with (-4).
    rewrite decide_False, decide_False by (unfold PN532_TIMEOUT; lia). eexists. split; [done|].
    unfold pn_ok, todo, sent. cbn [p_hsu p_buf]. rewrite Hst, Hch. done.
Qed.

(** ** The loop *)

Lemma setResponse_sendlen cmd b off offset b' n :
  setResponse cmd b off offset = Some (b', n) -> length b = 128%nat ->
  0 <= offset <= Z.of_nat off -> 0 <= n <= 128 /\ length b' = 128%nat.
Proof.
  unfold setResponse. intros E Hb Ho.
  assert (Hw : forall src b1, length src = 2%nat -> wr_slice off src b = Some b1 ->
    (off + 2 <= 128)%nat /\ length b1 = 128%nat).
  { intros src b1 Hs Hw. apply wr_slice_inv in Hw as [Hw ->]. rewrite length_inserts. lia. }
  destruct cmd; destruct (wr_slice off _ b) as [b1|] eqn:E1; try done;
    cbn [mbind option_bind] in E; injection E as <- <-; apply Hw in E1 as [E1 E2];
    rewrite ?u8_small; done || lia.
Qed.

(** Each command leaves a response that fits the buffer. *)
Lemma respond_sendlen cmd s s' :
  respond cmd s = Some s' -> length (e_rwbuf s) = 128%nat ->
  0 <= e_sendlen s' <= 128 /\ length (e_rwbuf s') = 128%nat.
Proof.
  unfold respond. intros E Hl. destruct (setResponse cmd (e_rwbuf s) 0 0) as [[b n]|] eqn:E1; [|done].
  injection E as <-. by eapply setResponse_sendlen.
Qed.

Ltac next_read E :=
  match type of E with
  | context [@mbind option _ _ _ _ (rd ?b ?i)] =>
      let x := fresh "x" in let Ex := fresh "Ex" in
      destruct (rd b i) as [x|] eqn:Ex; [|done]; cbn [mbind option_bind] in E
  end.

Lemma select_file_sendlen s s' :
  select_file s = Some s' -> length (e_rwbuf s) = 128%nat -> 0 <= e_sendlen s <= 128 ->
  0 <= e_sendlen s' <= 128 /\ length (e_rwbuf s') = 128%nat.
Proof.
  intros E Hl Hs. unfold select_file in E. do 3 next_read E.
  destruct (decide (x = 0x00)); [destruct (decide (x0 <> 0x0c)); [by eapply respond_sendlen|]|].
  - do 2 next_read E. case_decide; [|by eapply respond_sendlen].
    destruct (respond COMMAND_COMPLETE s) as [s1|] eqn:E1; [|done]. injection E as <-.
    by eapply respond_sendlen in E1.
  - destruct (decide (x = 0x04)); [|by injection E as <-].
    destruct (rd_slice C_APDU_P2 9 (e_rwbuf s)) as [name|]; [|done]. cbn [mbind option_bind] in E.
    case_decide; by eapply respond_sendlen.
Qed.

Lemma read_binary_sendlen s s' :
  read_binary s = Some s' -> length (e_rwbuf s) = 128%nat -> bytes_ok (e_rwbuf s) ->
  0 <= e_sendlen s' <= 128 /\ length (e_rwbuf s') = 128%nat.
Proof.
  intros E Hl Hb. unfold read_binary in E. do 3 next_read E.
  pose proof (bytes_ok_lookup _ _ _ Hb Ex1) as B1. unfold byte_ok in B1.
  destruct (e_file s); [by eapply respond_sendlen|..];
    (case_decide; [by eapply respond_sendlen|]);
    (destruct (rd_slice _ _ _) as [d|]; [|done]); cbn [mbind option_bind] in E;
    (destruct (wr_slice 0 d (e_rwbuf s)) as [b|] eqn:Eb; [|done]); cbn [mbind option_bind] in E;
    (destruct (setResponse _ b _ x1) as [[b' n]|] eqn:Er; [|done]); injection E as <-;
    apply wr_slice_inv in Eb as [_ ->];
    (eapply setResponse_sendlen; [exact Er|by rewrite length_inserts|lia]).
Qed.

Lemma update_binary_sendlen s s' :
  update_binary s = Some s' -> length (e_rwbuf s) = 128%nat ->
  0 <= e_sendlen s' <= 128 /\ length (e_rwbuf s') = 128%nat.
Proof.
  intros E Hl. unfold update_binary in E. do 3 next_read E.
  destruct (negb _); [by eapply respond_sendlen|]. case_decide; [by eapply respond_sendlen|].
  destruct (rd_slice _ _ _) as [d|]; [|done]. cbn [mbind option_bind] in E.
  destruct (wr_slice _ d _) as [f|]; [|done]. cbn [mbind option_bind] in E.
  destruct (respond COMMAND_COMPLETE s) as [s1|] eqn:E1; [|done]. injection E as <-.
  by eapply respond_sendlen in E1.
Qed.

Lemma command_step_sendlen s s' :
  command_step s = Some s' -> emu_ok s -> e_sendlen s <= 128 ->
  0 <= e_sendlen s' <= 128 /\ length (e_rwbuf s') = 128%nat.
Proof.
  intros E (_ & Hl & Hb & Hn) Hs. unfold command_step in E. next_read E.
  repeat (case_decide; [|]).
  - eapply select_file_sendlen; [done|done|lia].
  - by eapply read_binary_sendlen.
  - by eapply update_binary_sendlen.
  - by eapply respond_sendlen.
Qed.

Lemma target_loop_ok cmds p s out s' :
  pn_ok p -> todo p = cmds -> Forall (fun c => (length c <= 126)%nat /\ bytes_ok c) cmds ->
  emu_ok s -> e_sendlen s <= 128 -> emulate_loop cmds s = Some (out, s') ->
  exists s2 p', target_loop (S (length cmds)) p s = Ret (s2, p') /\ e_tag s2 = e_tag s' /\
    sent p' = sent p ++ out.
Proof.
  revert p s out s'. induction cmds as [|c cmds IH]; intros p s out s' Hp Et Hc Hok Hs E;
    cbn [emulate_loop length] in E |- *; cbn [target_loop].
  - injection E as <- <-. pose proof Hok as (_ & Hl & _).
    destruct (tgGetData_gone p (e_rwbuf s) Hp Et Hl) as (p1 & buf' & -> & Hp1 & Es1).
    cbn [mbind run_bind]. rewrite decide_True by lia.
    destruct (inRelease_ok p1 Hp1) as (r & p2 & -> & Es2). cbn [mbind run_bind].
    eexists _, _. split; [done|]. split; [done|]. by rewrite Es2, Es1, app_nil_r.
  - apply list.Forall_cons in Hc as [[Hc1 Hc2] Hcs]. pose proof Hok as (Ht & Hl & Hb & Hn).
    destruct (receive_command c s) as [s1|] eqn:E1; [|done]. cbn [mbind option_bind] in E.
    destruct (command_step s1) as [s2|] eqn:E2; [|done]. cbn [mbind option_bind] in E.
    destruct (emulate_loop cmds s2) as [[out2 s3]|] eqn:E3; [|done]. injection E as <- <-.
    destruct (tgGetData_next p c cmds (e_rwbuf s) Hp Et Hc1 Hl) as (p1 & -> & Hp1 & Et1 & Es1).
    cbn [mbind run_bind]. rewrite decide_False by lia.
    unfold receive_command in E1. destruct (wr_slice 0 _ (e_rwbuf s)) as [b|] eqn:Eb; [|done].
    injection E1 as <-. apply wr_slice_inv in Eb as Eb'. destruct Eb' as [_ ->].
    assert (Hok1 : emu_ok (Emu (e_tag s) (list_inserts 0 (command_bytes c) (e_rwbuf s)) (e_sendlen s) (e_file s))).
    { apply wr_slice_bytes in Eb as [L1 B1]; [|by apply bytes_command_bytes|done].
      split; [done|]. split; [cbn; lia|]. by split. }
    rewrite E2. cbn [of_option mbind run_bind].
    destruct (command_step_sendlen _ _ E2 Hok1 Hs) as [Hs2 Hl2].
    destruct (command_step_ok _ _ E2 Hok1) as [Hok2 _].
    rewrite rd_slice_Some by lia. cbn [of_option mbind run_bind]. unfold slice. rewrite drop_0.
    destruct (tgSetData_ok p1 (take (Z.to_nat (e_sendlen s2)) (e_rwbuf s2)) Hp1) as (p2 & -> & Hp2 & Et2 & Es2);
      [rewrite length_take; lia|].
    cbn [mbind run_bind]. destruct (IH p2 s2 out2 s3) as (s4 & p3 & Hr & Ht4 & Es3); try done; [by rewrite Et2|lia|].
    exists s4, p3. split; [exact Hr|]. split; [done|]. by rewrite Es3, Es2, Es1, <- app_assoc.
Qed.
End Target.

(** [emulate] over the driver: it returns after every command the phone sends, answers each
    with the response of the command loop of EmulateTag, and leaves the tag in the same
    state. *)
Lemma target_emulate_ok {C : Type} `{!Chip C} `{!TargetMode C} uid timeout tag rwbuf sendlen
    (p : pn532 C) out tag' :
  pn_ok p -> length uid = 3%nat -> tag_ok tag -> length rwbuf = 128%nat -> bytes_ok rwbuf ->
  0 <= sendlen <= 128 -> Forall (fun c => (length c <= 126)%nat /\ bytes_ok c) (todo p) ->
  emulate (first_fits p) tag rwbuf sendlen (todo p) = Some (out, tag') ->
  exists p', target_emulate (S (length (todo p))) uid timeout tag rwbuf sendlen p =
      Ret (first_fits p, tag', p') /\ sent p' = sent p ++ out.
Proof.
  intros Hp Hu Ht Hl Hb Hs Hc E. unfold target_emulate.
  destruct (tgInitAsTarget_ok p uid timeout Hp Hu) as (p1 & -> & Hp1 & Et1 & Es1).
  cbn [mbind run_bind]. unfold emulate in E. destruct (first_fits p); cbn [negb] in E; cycle 1.
  { injection E as <- <-. rewrite decide_True by lia. exists p1. by rewrite Es1, app_nil_r. }
  destruct (emulate_loop _ _) as [[o s']|] eqn:El; [|done]. injection E as <- <-.
  rewrite decide_False by (intros []; done).
  edestruct (target_loop_ok (todo p) p1) as (s2 & p2 & Hr & Ht2 & Es2); [exact Hp1|exact Et1|exact Hc| | |exact El|].
  - split; [exact Ht|]. split; [done|]. split; [done|cbn; lia].
  - cbn. lia.
  - rewrite Hr. cbn [mbind run_bind]. exists p2. split; [by rewrite Ht2|]. by rewrite Es2, Es1.
Qed.

(** ** The verifier over the driver *)

(** [loop()] of the verifier, down to the frames on the serial line. *)
Definition wired_turn {C : Type} `{!Chip C} (redis : list Z -> list Z) (o : Sha1Class) (fuel : nat)
    (uid : list Z) (tag : tag_t) (rwbuf : list Z) (sendlen : Z) (guid gcode : list Z) (p : pn532 C)
    : run (list door_event * Sha1Class * tag_t * pn532 C) :=
  '(_, tag, p) ← target_emulate fuel uid 0 tag rwbuf sendlen p;
  '(r, tag) ← of_option (try_get tag guid gcode);
  '(ev, o) ← of_option (verifier_loop redis o r);
  Ret (ev, o, tag, p).


(** C25: what [readResponse] accepts.  On a stream of bytes it always returns; it returns a
    length exactly when the stream starts with a well-formed frame for the command sent
    whose data fit the buffer and are fewer than 128 bytes, and then the data are in the
    buffer and the rest of the stream is left.  (The bound is the [int8_t] result of
    [receive]: a longer frame is reported as a timeout, whatever the buffer.) *)
Theorem hsu_read_iff {C : Type} `{!Chip C} (h : hsu C) buf len timeout l :
  h_rx h = map RxByte l -> bytes_ok l -> timeout <> 0 -> length buf = Z.to_nat len ->
  0 <= len < 256 -> (3 <= length (h_stack h))%nat -> 0 <= h_command h < 255 ->
  exists n buf' h', readResponse buf len timeout h = Ret (n, buf', h') /\
    (0 <= n <-> exists data rest, l = frame PN532_PN532TOHOST (response_cmd h :: data) ++ rest /\
       Z.of_nat (length data) <= len /\ (length data < 128)%nat) /\
    (forall data rest, l = frame PN532_PN532TOHOST (response_cmd h :: data) ++ rest ->
       Z.of_nat (length data) <= len -> (length data < 128)%nat ->
       n = Z.of_nat (length data) /\ buf' = list_inserts 0 data buf /\ h_rx h' = map RxByte rest).
Proof.
  intros E Hb Ht Hl Hlen Hs Hc.
  assert (Hc0 : response_cmd h <> 0) by (unfold response_cmd; rewrite u8_small; lia).
  assert (Hok : forall data rest, l = frame PN532_PN532TOHOST (response_cmd h :: data) ++ rest ->
    Z.of_nat (length data) <= len -> (length data < 128)%nat ->
    readResponse buf len timeout h =
      Ret (Z.of_nat (length data), list_inserts 0 data buf, rx_set h (map RxByte rest))).
  { intros data rest -> H1 H2. apply readResponse_frame; try (done || lia). by rewrite E, map_app. }
  destruct (readResponse_inv h buf len timeout l) as [(n & buf' & h' & Er & Hn)|(data & rest & El & H1 & H2)];
    try done.
  - exists n, buf', h'. split; [done|].
    assert (Hno : forall data rest, l = frame PN532_PN532TOHOST (response_cmd h :: data) ++ rest ->
      Z.of_nat (length data) <= len -> (length data < 128)%nat -> False).
    { intros data rest El H1 H2. rewrite (Hok data rest El H1 H2) in Er. injection Er as <- _ _. lia. }
    split; [split; [lia|intros (data & rest & El & H1 & H2); destruct (Hno data rest El H1 H2)]|].
    intros data rest El H1 H2. destruct (Hno data rest El H1 H2).
  - rewrite (Hok data rest El H1 H2). eexists _, _, _. split; [done|]. split.
    + split; [intros _; by exists data, rest|lia].
    + intros data' rest' El' H1' H2'.
      pose proof (eq_trans (eq_sym (Hok data rest El H1 H2)) (Hok data' rest' El' H1' H2')) as [= En Eb Ex].
      by rewrite Eb, Ex.
Qed.

(** ** An example of a chip *)

(** The commands still to come and the responses passed on; the phone activates the target with
    a RATS command. *)
Definition demo_chip : Type := list (list Z) * list (list Z).

#[global] Instance demo_chip_write : Chip demo_chip := fun c f =>
  match f !! 6%nat with
  | Some b =>
      if decide (b = PN532_COMMAND_TGINITASTARGET) then (answer [b + 1; 0x08; 0xE0; 0x80], c)
      else if decide (b = PN532_COMMAND_TGGETDATA) then
        match c.1 with
        | a :: todo => (answer (b + 1 :: 0 :: a), (todo, c.2))
        | [] => (answer [b + 1; 0x29], c)
        end
      else if decide (b = PN532_COMMAND_TGSETDATA) then
        (answer [b + 1; 0], (c.1, c.2 ++ [slice 7 (length f - 9) f]))
      else (answer [b + 1; 0], c)
  | None => ([], c)
  end.

Lemma demo_data tfi b data :
  frame tfi (b :: data) !! 6%nat = Some b /\
  slice 7 (length (frame tfi (b :: data)) - 9) (frame tfi (b :: data)) = data.
Proof.
  split; [done|]. unfold frame. rewrite !length_app. cbn [length app].
  unfold slice. cbn [drop].
  replace (6 + (S (length data) + 2) - 9)%nat with (length data) by lia. apply take_app_length.
Qed.

#[global] Program Instance demo_target : TargetMode demo_chip := {|
  chip_todo := fst;
  chip_sent := snd;
  chip_first _ := [0xE0; 0x80]
|}.
Next Obligation. intros c. simpl. lia. Qed.
Next Obligation. intros c uid _. by exists c, 0x08. Qed.
Next Obligation. intros [t s] a todo [= ->]. by exists (todo, s). Qed.
Next Obligation. intros [t s] [= ->]. by exists ([], s), 0x29. Qed.
Next Obligation.
  intros [t s] data _. exists (t, s ++ [data]). split; [|done].
  unfold chip_write, demo_chip_write.
  destruct (demo_data PN532_HOSTTOPN532 PN532_COMMAND_TGSETDATA data) as [-> ->]. done.
Qed.
Next Obligation. intros c target. by exists c. Qed.

Definition demo_pn (todo : list (list Z)) : pn532 demo_chip :=
  Pn (Hsu 0 [] (replicate 6 7) (todo, [])) (replicate 64 0).


Lemma hsu_read_iff_witness :
  exists buf' (h' : hsu demo_chip),
    readResponse (replicate 8 0) 8 1000
      (Hsu 0x86 (map RxByte (frame 0xD5 [0x87; 0; 1; 2] ++ [9])) (replicate 6 7) ([], [])) =
    Ret (3, buf', h') /\ h_rx h' = [RxByte 9].
Proof.
  destruct (hsu_read_iff (Hsu 0x86 (map RxByte (frame 0xD5 [0x87; 0; 1; 2] ++ [9])) (replicate 6 7)
    (([], []) : demo_chip)) (replicate 8 0) 8 1000 (frame 0xD5 [0x87; 0; 1; 2] ++ [9]))
    as (n & buf' & h' & E & _ & H);
    [reflexivity|by apply (bool_decide_unpack _); vm_compute|lia|reflexivity|lia|cbn; lia|cbn; lia|].
  destruct (H [0; 1; 2] [9]) as (-> & _ & Hr); [reflexivity|cbn; lia|cbn; lia|].
  exists buf', h'. split; [exact E|exact Hr].
Defined.
