(* ===== verification/Queues.v ===== *)
(** * Circular queues of pointers: [lib/util/fifo.c], [lib/io/queue.c], [lib/util/fring.c]

    Three bounded queues over circular arrays.  Pointers are integers, [NULL] is [0];
    an array access outside the array is [None].  [QueueApi]/[QueueLaws] state what a
    bounded FIFO queue promises its clients: it behaves as a list with a capacity. *)
From S2P Require Import Prelude Bytes.

(** ** The promise *)

Class QueueApi (Q : Type) := {
  q_push : Q -> Z -> option (bool * Q);
  q_pop : Q -> option (option Z * Q);
  q_num : Q -> Z
}.

Class QueueLaws (Q : Type) `{QueueApi Q} := {
  (** [q_repr cap q l]: [q] holds [l], oldest first, and has room for [cap]. *)
  q_repr : nat -> Q -> list Z -> Prop;
  q_push_spec cap q l x :
    q_repr cap q l -> x <> 0 ->
    exists q', q_push q x = Some (bool_decide (length l < cap)%nat, q') /\
      q_repr cap q' (if decide (length l < cap)%nat then l ++ [x] else l);
  q_pop_spec cap q l :
    q_repr cap q l ->
    exists q', q_pop q = Some (head l, q') /\ q_repr cap q' (tail l);
  q_num_spec cap q l : q_repr cap q l -> q_num q = Z.of_nat (length l)
}.

(** A client's operations and what it observes, on a queue and on a list. *)
Inductive queue_op := OpPush (x : Z) | OpPop | OpNum.
Inductive queue_out := OutPush (ok : bool) | OutPop (x : option Z) | OutNum (n : Z).

Fixpoint run_queue `{QueueApi Q} (q : Q) (ops : list queue_op) : option (list queue_out) :=
  match ops with
  | [] => Some []
  | OpPush x :: ops' =>
      '(ok, q) ← q_push q x; outs ← run_queue q ops'; Some (OutPush ok :: outs)
  | OpPop :: ops' =>
      '(x, q) ← q_pop q; outs ← run_queue q ops'; Some (OutPop x :: outs)
  | OpNum :: ops' =>
      outs ← run_queue q ops'; Some (OutNum (q_num q) :: outs)
  end.

Fixpoint run_list (cap : nat) (l : list Z) (ops : list queue_op) : list queue_out :=
  match ops with
  | [] => []
  | OpPush x :: ops' =>
      if decide (length l < cap)%nat then OutPush true :: run_list cap (l ++ [x]) ops'
      else OutPush false :: run_list cap l ops'
  | OpPop :: ops' => OutPop (head l) :: run_list cap (tail l) ops'
  | OpNum :: ops' => OutNum (Z.of_nat (length l)) :: run_list cap l ops'
  end.

(** Clients push pointers that are not [NULL]. *)
Definition op_ok (op : queue_op) : Prop :=
  match op with OpPush x => x <> 0 | _ => True end.
#[global] Instance op_ok_dec op : Decision (op_ok op).
Proof. destruct op; unfold op_ok; apply _. Defined.

Lemma queue_simulation `{QueueLaws Q} cap (q : Q) l ops :
  q_repr cap q l -> Forall op_ok ops -> run_queue q ops = Some (run_list cap l ops).
Proof.
  revert q l. induction ops as [|op ops IH]; intros q l Hq Hops; [done|].
  apply list.Forall_cons in Hops as [Hop Hops]. destruct op as [x| |]; cbn [run_queue run_list].
  - destruct (q_push_spec cap q l x Hq Hop) as (q' & -> & Hq'). cbn [mbind option_bind].
    case_decide as Hl; rewrite (IH _ _ Hq' Hops); cbn [mbind option_bind];
      [rewrite bool_decide_eq_true_2 by done|rewrite bool_decide_eq_false_2 by done]; done.
  - destruct (q_pop_spec cap q l Hq) as (q' & -> & Hq'). cbn [mbind option_bind].
    by rewrite (IH _ _ Hq' Hops).
  - by rewrite (IH _ _ Hq Hops), (q_num_spec cap q l Hq).
Qed.

(** ** A list in a circular array *)

Definition ring_at (data : list Z) (n first : nat) (l : list Z) : Prop :=
  (first < n <= length data)%nat /\ (length l <= n)%nat /\
  forall i x, l !! i = Some x -> data !! ((first + i) mod n)%nat = Some x.

(** [if (++i >= n) i = 0] *)
Definition ring_next (n i : nat) : nat := if decide (n <= S i)%nat then 0%nat else S i.

Lemma ring_next_mod n i : (i < n)%nat -> ring_next n i = (S i mod n)%nat.
Proof.
  intros H. unfold ring_next. case_decide.
  - replace (S i) with n by lia. by rewrite Nat.Div0.mod_same.
  - by rewrite Nat.mod_small by lia.
Qed.

Lemma ring_pos_inj n f i j :
  (i < j < n)%nat -> ((f + i) mod n <> (f + j) mod n)%nat.
Proof.
  intros Hij E. pose proof (Nat.div_mod_eq (f + i) n). pose proof (Nat.div_mod_eq (f + j) n).
  assert ((f + j) / n <= (f + i) / n \/ (f + i) / n < (f + j) / n)%nat as [|] by lia; nia.
Qed.

Lemma ring_push data n f l x :
  ring_at data n f l -> (length l < n)%nat ->
  ring_at (<[((f + length l) mod n)%nat := x]> data) n f (l ++ [x]).
Proof.
  intros (Hf & Hl & Hd) Hn. assert (((f + length l) mod n < n)%nat) by (apply Nat.mod_upper_bound; lia).
  split; [by rewrite length_insert|]. split; [rewrite length_app; simpl; lia|].
  intros i y Hi. apply lookup_app_Some in Hi as [Hi|[Hi Hy]].
  - pose proof (lookup_lt_Some _ _ _ Hi).
    rewrite list_lookup_insert_ne by (apply not_eq_sym, ring_pos_inj; lia). by apply Hd.
  - destruct (i - length l)%nat eqn:E; [|done]. injection Hy as ->.
    replace i with (length l) by lia. apply list_lookup_insert_eq. lia.
Qed.

Lemma ring_pop data n f x l :
  ring_at data n f (x :: l) -> data !! f = Some x /\ ring_at data n (ring_next n f) l.
Proof.
  intros (Hf & Hl & Hd). simpl in Hl. split.
  - rewrite <- (Nat.mod_small f n), <- (Nat.add_0_r f) by lia. by apply (Hd 0%nat).
  - rewrite ring_next_mod by lia. split; [split; [apply Nat.mod_upper_bound|]; lia|].
    split; [lia|]. intros i y Hi. rewrite Nat.Div0.add_mod_idemp_l.
    replace (S f + i)%nat with (f + S i)%nat by lia. by apply Hd.
Qed.

Lemma ring_write_pos n f k : (f < n)%nat -> ring_next n ((f + k) mod n) = ((f + S k) mod n)%nat.
Proof.
  intros H. rewrite ring_next_mod by (apply Nat.mod_upper_bound; lia).
  replace (S ((f + k) mod n))%nat with (((f + k) mod n) + 1)%nat by lia.
  rewrite Nat.Div0.add_mod_idemp_l. f_equal. lia.
Qed.

(** ** [fr_fifo_t] *)
Module Fifo.

(** [type], which only feeds the talloc type check, is left out; [free_node] says
    whether a callback is set. *)
Record fr_fifo_t := FifoT {
  num : nat; first : nat; last : nat; max : nat; free_node : bool; data : list Z }.

(** [mem]: whether the allocation succeeds.  [data] has [max + 1] entries. *)
Definition fr_fifo_create (mem : bool) (max_ : Z) (free_node_ : bool) : option fr_fifo_t :=
  if decide (max_ < 2 \/ max_ > 1024 * 1024) then None
  else if negb mem then None
  else Some (FifoT 0 0 0 (Z.to_nat max_) free_node_ (replicate (S (Z.to_nat max_)) 0)).

(** The return value, and the queue; the pointer to the queue may be [NULL]. *)
Definition fr_fifo_push (fi : option fr_fifo_t) (d : Z) : option (Z * option fr_fifo_t) :=
  match fi with
  | None => Some (-1, None)
  | Some f =>
      if decide (d = 0) then Some (-1, fi)
      else if decide (max f <= num f)%nat then Some (-1, fi)
      else
        dat ← wr_slice (last f) [d] (data f);
        Some (0, Some (FifoT (S (num f)) (first f) (ring_next (max f) (last f)) (max f)
                             (free_node f) dat))
  end.

Definition fr_fifo_pop (fi : option fr_fifo_t) : option (Z * option fr_fifo_t) :=
  match fi with
  | None => Some (0, None)
  | Some f =>
      if decide (num f = 0%nat) then Some (0, fi)
      else
        d ← rd (data f) (first f);
        Some (d, Some (FifoT (num f - 1) (ring_next (max f) (first f)) (last f) (max f)
                             (free_node f) (data f)))
  end.

Definition fr_fifo_peek (fi : option fr_fifo_t) : option Z :=
  match fi with
  | None => Some 0
  | Some f => if decide (num f = 0%nat) then Some 0 else rd (data f) (first f)
  end.

Definition fr_fifo_num_elements (fi : option fr_fifo_t) : Z :=
  match fi with None => 0 | Some f => Z.of_nat (num f) end.

(** The loop of [_fifo_free] from [i], [n] turns left: the pointers handed to
    [free_node], and the array. *)
Fixpoint free_loop (n i : nat) (f : fr_fifo_t) (dat : list Z) : option (list Z * list Z) :=
  match n with
  | O => Some ([], dat)
  | S n' =>
      let element := (i + first f)%nat in
      let element := if decide (max f < element)%nat then (element - max f)%nat else element in
      d ← rd dat element;
      dat ← wr_slice element [0] dat;
      '(ds, dat) ← free_loop n' (S i) f dat;
      Some (d :: ds, dat)
  end.

(** [memset(fi, 0, sizeof( *fi))] clears the header and the one declared entry. *)
Definition _fifo_free (f : fr_fifo_t) : option (list Z * fr_fifo_t) :=
  '(ds, dat) ← (if free_node f then free_loop (num f) 0 f (data f) else Some ([], data f));
  dat ← wr_slice 0 [0] dat;
  Some (ds, FifoT 0 0 0 0 false dat).

#[export] Instance fifo_api : QueueApi fr_fifo_t := {
  q_push f x := '(r, f') ← fr_fifo_push (Some f) x;
                match f' with Some f' => Some (bool_decide (r = 0), f') | None => None end;
  q_pop f := '(r, f') ← fr_fifo_pop (Some f);
             match f' with
             | Some f' => Some (if decide (r = 0) then None else Some r, f')
             | None => None
             end;
  q_num f := fr_fifo_num_elements (Some f)
}.

Definition fifo_repr (cap : nat) (f : fr_fifo_t) (l : list Z) : Prop :=
  max f = cap /\ num f = length l /\ last f = ((first f + length l) mod cap)%nat /\
  ring_at (data f) cap (first f) l /\ Forall (fun x => x <> 0) l /\
  length (data f) = S cap /\ data f !! cap = Some 0.

Lemma fifo_push_spec cap f l x :
  fifo_repr cap f l -> x <> 0 ->
  exists f', fr_fifo_push (Some f) x =
      Some (if decide (length l < cap)%nat then 0 else -1, Some f') /\
    fifo_repr cap f' (if decide (length l < cap)%nat then l ++ [x] else l).
Proof.
  intros (Hm & Hn & Hl & Hr & Hx & Hd & Hc) Hx0. unfold fr_fifo_push. rewrite decide_False by done.
  rewrite Hm, Hn. destruct (Hr) as (Hf & _ & _).
  assert (((first f + length l) mod cap < cap)%nat) by (apply Nat.mod_upper_bound; lia).
  destruct (decide (length l < cap)%nat).
  - rewrite decide_False, Hl, wr_slice_Some by (cbn [length]; lia). cbn [mbind option_bind].
    eexists. split; [done|]. split; [done|]. cbn [num first last data].
    rewrite length_app. split; [simpl; lia|].
    split; [rewrite ring_write_pos by lia; f_equal; simpl; lia|].
    split; [by apply ring_push|]. split; [by apply Forall_app; auto|].
    split; [by rewrite length_inserts|]. change (list_inserts ?k [x] ?d) with (<[k := x]> d).
    by rewrite list_lookup_insert_ne by lia.
  - rewrite decide_True by lia. by exists f.
Qed.

Lemma fifo_pop_spec cap f l :
  fifo_repr cap f l ->
  exists f', fr_fifo_pop (Some f) = Some (default 0 (head l), Some f') /\
    fifo_repr cap f' (tail l).
Proof.
  intros Hrep. destruct (Hrep) as (Hm & Hn & Hl & Hr & Hx & Hd & Hc). unfold fr_fifo_pop. rewrite Hn.
  destruct l as [|x l]; [by exists f|]. rewrite decide_False by done.
  destruct (ring_pop _ _ _ _ _ Hr) as [E Hr']. unfold rd. rewrite E. cbn [mbind option_bind].
  destruct (Hr) as (Hf & _ & _). eexists. split; [done|]. apply list.Forall_cons in Hx as [_ Hx].
  unfold fifo_repr. cbn [max num first last data tail length] in *. rewrite Hm.
  split; [done|]. split; [lia|]. split; [|done].
  rewrite Hl, ring_next_mod, Nat.Div0.add_mod_idemp_l by lia. f_equal. lia.
Qed.

#[export] Instance fifo_laws : QueueLaws fr_fifo_t.
Proof.
  refine {| q_repr := fifo_repr |}.
  - intros cap f l x Hf Hx. destruct (fifo_push_spec cap f l x Hf Hx) as (f' & E & Hf').
    exists f'. unfold q_push, fifo_api. rewrite E. cbn [mbind option_bind].
    split; [|done]. destruct (decide (length l < cap)%nat);
      [rewrite !bool_decide_eq_true_2 by done|rewrite !bool_decide_eq_false_2 by done]; done.
  - intros cap f l Hf. destruct (fifo_pop_spec cap f l Hf) as (f' & E & Hf').
    exists f'. unfold q_pop, fifo_api. rewrite E. cbn [mbind option_bind]. split; [|done].
    do 2 f_equal. destruct l as [|x l]; [done|].
    destruct Hf as (_ & _ & _ & _ & Hx & _). apply list.Forall_cons in Hx as [Hx _].
    cbn. by rewrite decide_False.
  - intros cap f l (_ & Hn & _). unfold q_num, fifo_api. cbn. by rewrite Hn.
Defined.

Lemma fifo_create_repr max_ fn :
  2 <= max_ <= 2 ^ 20 ->
  exists f, fr_fifo_create true max_ fn = Some f /\ fifo_repr (Z.to_nat max_) f [].
Proof.
  intros H. unfold fr_fifo_create. rewrite decide_False by lia. eexists. split; [done|].
  split; [done|]. split; [done|]. cbn [first last data length]. rewrite Nat.add_0_r, Nat.mod_small by lia.
  split; [done|]. rewrite length_replicate. split.
  - split; [rewrite length_replicate; lia|].
    split; [simpl; lia|]. intros i x Hi. by rewrite lookup_nil in Hi.
  - split; [done|]. split; [done|]. apply lookup_replicate_2. lia.
Qed.

(** The slot [_fifo_free] visits in turn [j]. *)
Definition free_slot (f : fr_fifo_t) (j : nat) : nat :=
  if decide (max f < j + first f)%nat then (j + first f - max f)%nat else (j + first f)%nat.

Lemma free_loop_spec n i f dat :
  (first f < max f)%nat -> (n + i <= max f)%nat -> (max f < length dat)%nat ->
  exists dat', free_loop n i f dat =
    Some (map (fun j => dat !!! free_slot f j) (seq i n), dat') /\ length dat' = length dat.
Proof.
  intros Hf. revert i dat. induction n as [|n IH]; intros i dat Hn Hd; [by exists dat|].
  cbn [free_loop]. fold (free_slot f i).
  assert (Hs : (free_slot f i < length dat)%nat) by (unfold free_slot; case_decide; lia).
  unfold rd. rewrite list_lookup_lookup_total_lt by done. cbn [mbind option_bind].
  rewrite wr_slice_Some by (cbn [length]; lia). cbn [mbind option_bind].
  destruct (IH (S i) (list_inserts (free_slot f i) [0] dat)) as (dat' & -> & L');
    [lia|rewrite length_inserts; lia|].
  cbn [mbind option_bind]. exists dat'. split; [|by rewrite L', length_inserts].
  cbn [seq map]. do 3 f_equal. apply map_ext_in. intros j Hj. apply in_seq in Hj.
  change (list_inserts ?k [0] ?d) with (<[k := 0]> d).
  apply list_lookup_total_insert_ne. unfold free_slot. repeat case_decide; lia.
Qed.

Lemma free_slot_value cap f l j x :
  fifo_repr cap f l -> l !! j = Some x ->
  data f !!! free_slot f j = if decide (j + first f = cap)%nat then 0 else x.
Proof.
  intros (Hm & _ & _ & (Hf & Hl & Hr) & _ & Hd & Hc) Hj. pose proof (lookup_lt_Some _ _ _ Hj).
  unfold free_slot. rewrite Hm. specialize (Hr j x Hj).
  destruct (decide (cap < j + first f)%nat).
  - rewrite decide_False by lia. apply list_lookup_total_correct. rewrite <- Hr. f_equal.
    replace (first f + j)%nat with (j + first f - cap + 1 * cap)%nat by lia.
    by rewrite Nat.Div0.mod_add, Nat.mod_small by lia.
  - case_decide as E; [by rewrite E; apply list_lookup_total_correct|].
    apply list_lookup_total_correct. rewrite <- Hr, Nat.mod_small by lia. f_equal. lia.
Qed.

(** A fifo is a bounded FIFO queue: whatever sequence of pushes, pops and counts a
    client performs on a new fifo of [max] entries, it observes what it would on a
    list of capacity [max], and no access leaves the array. *)
Theorem fifo_refines_list max_ fn ops :
  2 <= max_ <= 2 ^ 20 -> Forall op_ok ops ->
  exists f, fr_fifo_create true max_ fn = Some f /\
    run_queue f ops = Some (run_list (Z.to_nat max_) [] ops).
Proof.
  intros Hm Hops. destruct (fifo_create_repr max_ fn Hm) as (f & E & Hf).
  exists f. split; [done|]. exact (queue_simulation _ f [] ops Hf Hops).
Qed.

Lemma fifo_refines_list_witness :
  exists f, fr_fifo_create true 2 false = Some f /\
    run_queue f [OpPush 5; OpPush 6; OpPush 7; OpPop; OpPush 8; OpNum; OpPop; OpPop; OpPop] =
    Some (run_list 2 [] [OpPush 5; OpPush 6; OpPush 7; OpPop; OpPush 8; OpNum; OpPop; OpPop; OpPop]).
Proof.
  apply (fifo_refines_list 2 false
    [OpPush 5; OpPush 6; OpPush 7; OpPop; OpPush 8; OpNum; OpPop; OpPop; OpPop]);
    [lia|by apply (bool_decide_unpack _); vm_compute].
Defined.

(** Freeing a fifo that still holds [l] hands the elements of [l] to the free
    callback in order, except the one stored in slot 0 when the contents wrap: the
    test [element > max] lets the index [max] through, so the callback gets the
    [NULL] of the unused last slot instead and that element is never freed. *)
Theorem fifo_free_skips_wrap cap f l :
  fifo_repr cap f l -> free_node f = true ->
  exists f', _fifo_free f =
    Some (imap (fun j x => if decide (j + first f = cap)%nat then 0 else x) l, f').
Proof.
  intros Hrep Hfn. destruct (Hrep) as (Hm & Hn & _ & (Hf & Hl & _) & _ & Hd & _).
  unfold _fifo_free. rewrite Hfn.
  destruct (free_loop_spec (num f) 0 f (data f)) as (dat' & -> & L'); [lia..|].
  cbn [mbind option_bind]. rewrite wr_slice_Some by (cbn [length]; lia).
  cbn [mbind option_bind]. eexists. do 3 f_equal. apply list_eq. intros j.
  rewrite list_lookup_imap, Hn, list_lookup_fmap.
  destruct (l !! j) as [x|] eqn:Hj.
  - pose proof (lookup_lt_Some _ _ _ Hj). rewrite lookup_seq_lt by lia. cbn.
    f_equal. by apply (free_slot_value cap f l).
  - apply lookup_ge_None in Hj. by rewrite lookup_seq_ge by lia.
Qed.

(** The fifo of two entries after two pushes, a pop and a push: 7 is in slot 0. *)
Lemma fifo_free_skips_wrap_witness :
  let f := FifoT 2 1 1 2 true [7; 6; 0] in
  exists f', _fifo_free f =
    Some (imap (fun j x => if decide (j + 1 = 2)%nat then 0 else x) [6; 7], f').
Proof.
  apply (fifo_free_skips_wrap 2 (FifoT 2 1 1 2 true [7; 6; 0]) [6; 7]); [|reflexivity].
  split; [done|]. split; [done|]. split; [done|]. split.
  - split; [simpl; lia|]. split; [simpl; lia|]. intros [|[|i]] x Hi;
      [by injection Hi as <-..|done].
  - split; [by apply (bool_decide_unpack _); vm_compute|done].
Defined.

End Fifo.

(** ** [fr_queue_t] *)
Module Queue.

Record fr_queue_t := QueueT { head : nat; tail : nat; size : nat; num : nat; entry : list Z }.

(** [mem]: whether the allocation succeeds. *)
Definition fr_queue_create (mem : bool) (size_ : Z) : option fr_queue_t :=
  if decide (size_ <= 0) then None
  else if negb mem then None
  else Some (QueueT 0 0 (Z.to_nat size_) 0 (replicate (Z.to_nat size_) 0)).

Definition fr_queue_push (fq : fr_queue_t) (data : Z) : option (bool * fr_queue_t) :=
  if decide (size fq <= num fq)%nat then Some (false, fq)
  else
    entry_ ← wr_slice (head fq) [data] (entry fq);
    Some (true, QueueT (ring_next (size fq) (head fq)) (tail fq) (size fq) (S (num fq)) entry_).

(** [None] for the data when the queue is empty. *)
Definition fr_queue_pop (fq : fr_queue_t) : option (option Z * fr_queue_t) :=
  if decide (num fq = 0%nat) then Some (None, fq)
  else
    data ← rd (entry fq) (tail fq);
    Some (Some data,
      QueueT (head fq) (ring_next (size fq) (tail fq)) (size fq) (num fq - 1) (entry fq)).

Definition fr_queue_size (fq : fr_queue_t) : Z := Z.of_nat (size fq).
Definition fr_queue_num_elements (fq : fr_queue_t) : Z := Z.of_nat (num fq).

(** [memcpy(&dst[di], &src[si], n)] between arrays of 64-bit little-endian pointers:
    [n] is a number of BYTES, so [n / 8] whole entries and the low [n mod 8] bytes of
    the next one are copied. *)
Definition memcpy_entries (dst : list Z) (di : nat) (src : list Z) (si n : nat)
    : option (list Z) :=
  let full := (n / 8)%nat in
  let part := 256 ^ Z.of_nat (n mod 8) in
  whole ← rd_slice si full src;
  dst ← wr_slice di whole dst;
  if decide (n mod 8 = 0)%nat then Some dst
  else
    s ← rd src (si + full);
    d ← rd dst (di + full);
    wr_slice (di + full) [(d - d mod part) + s mod part] dst.

(** The queue returned; the assertions of debug builds are left out. *)
Definition fr_queue_resize (mem : bool) (fq : fr_queue_t) (size_ : Z)
    : option (option fr_queue_t) :=
  if decide (size_ <= 0) then Some None
  else if decide (size_ <= Z.of_nat (size fq)) then Some (Some fq)
  else
    match fr_queue_create mem size_ with
    | None => Some (Some fq)
    | Some nq =>
        if decide (num fq = 0%nat) then Some (Some nq)
        else if decide (tail fq < head fq)%nat then
          e ← memcpy_entries (entry nq) 0 (entry fq) (tail fq) (head fq - tail fq);
          Some (Some (QueueT (num fq) (tail nq) (size nq) (num fq) e))
        else
          e ← memcpy_entries (entry nq) 0 (entry fq) (tail fq) (size fq - tail fq);
          let h := (size fq - tail fq)%nat in
          e ← memcpy_entries e h (entry fq) 0 (head fq);
          Some (Some (QueueT (num fq) (tail nq) (size nq) (num fq) e))
    end.

(** [fr_queue_localize_atomic]: the atomic queue is any source of pointers [pop]. *)
Section Localize.
Context {AQ : Type} (pop : AQ -> option (Z * AQ)).

(** The loop from [i], [n] turns left: the return value, and both queues. *)
Fixpoint localize_loop (n i : nat) (room : Z) (fq : fr_queue_t) (aq : AQ)
    : option (Z * fr_queue_t * AQ) :=
  match n with
  | O => Some (room, fq, aq)
  | S n' =>
      match pop aq with
      | None => Some (Z.of_nat i, fq, aq)
      | Some (data, aq) =>
          entry_ ← wr_slice (head fq) [data] (entry fq);
          localize_loop n' (S i) room
            (QueueT (ring_next (size fq) (head fq)) (tail fq) (size fq) (S (num fq)) entry_) aq
      end
  end.

Definition fr_queue_localize_atomic (fq : fr_queue_t) (aq : AQ)
    : option (Z * fr_queue_t * AQ) :=
  let room := Z.of_nat (size fq) - Z.of_nat (num fq) in
  if decide (room = 0) then Some (0, fq, aq)
  else localize_loop (Z.to_nat room) 0 room fq aq.
End Localize.

#[export] Instance queue_api : QueueApi fr_queue_t := {
  q_push := fr_queue_push; q_pop := fr_queue_pop; q_num := fr_queue_num_elements }.

Definition queue_repr (cap : nat) (fq : fr_queue_t) (l : list Z) : Prop :=
  size fq = cap /\ num fq = length l /\ head fq = ((tail fq + length l) mod cap)%nat /\
  ring_at (entry fq) cap (tail fq) l /\ length (entry fq) = cap.

(** Writing one pointer at [head], as [fr_queue_push] and the localize loop do. *)
Lemma queue_write cap fq l x :
  queue_repr cap fq l -> (length l < cap)%nat ->
  exists e, wr_slice (head fq) [x] (entry fq) = Some e /\
    queue_repr cap (QueueT (ring_next (size fq) (head fq)) (tail fq) (size fq) (S (num fq)) e)
      (l ++ [x]).
Proof.
  intros (Hs & Hn & Hh & Hr & He) Hl. destruct (Hr) as (Ht & _ & _).
  assert (((tail fq + length l) mod cap < cap)%nat) by (apply Nat.mod_upper_bound; lia).
  rewrite Hh, wr_slice_Some by (cbn [length]; lia). eexists. split; [done|].
  unfold queue_repr. cbn [size num head tail entry]. rewrite length_app, Hs.
  split; [done|]. split; [simpl; lia|].
  split; [rewrite ring_write_pos by lia; f_equal; simpl; lia|].
  split; [by apply ring_push|by rewrite length_inserts].
Qed.

#[export] Instance queue_laws : QueueLaws fr_queue_t.
Proof.
  refine {| q_repr := queue_repr |}.
  - intros cap fq l x Hq Hx. destruct (Hq) as (Hs & Hn & _). unfold q_push, queue_api, fr_queue_push.
    rewrite Hs, Hn. destruct (decide (length l < cap)%nat) as [Hl|Hl].
    + destruct (queue_write cap fq l x Hq Hl) as (e & -> & Hq').
      rewrite decide_False, bool_decide_eq_true_2 by lia. cbn [mbind option_bind].
      rewrite Hs, Hn in Hq'. eauto.
    + rewrite decide_True, bool_decide_eq_false_2 by lia. eauto.
  - intros cap fq l Hq. destruct (Hq) as (Hs & Hn & Hh & Hr & He).
    unfold q_pop, queue_api, fr_queue_pop. rewrite Hn. destruct l as [|x l]; [by exists fq|].
    rewrite decide_False by done. destruct (ring_pop _ _ _ _ _ Hr) as [E Hr'].
    unfold rd. rewrite E. cbn [mbind option_bind]. destruct (Hr) as (Ht & _ & _).
    eexists. split; [done|]. unfold queue_repr.
    cbn [size num head tail entry list.tail length] in *. rewrite Hs.
    split; [done|]. split; [lia|]. split; [|done].
    rewrite Hh, ring_next_mod, Nat.Div0.add_mod_idemp_l by lia. f_equal. lia.
  - intros cap fq l (_ & Hn & _). unfold q_num, queue_api, fr_queue_num_elements. by rewrite Hn.
Defined.

Lemma queue_create_repr size_ :
  0 < size_ ->
  exists fq, fr_queue_create true size_ = Some fq /\ queue_repr (Z.to_nat size_) fq [].
Proof.
  intros H. unfold fr_queue_create. rewrite decide_False by lia. eexists. split; [done|].
  split; [done|]. split; [done|]. cbn [head tail entry length]. rewrite length_replicate.
  split; [by rewrite Nat.Div0.mod_0_l|]. split; [|done]. split; [rewrite length_replicate; lia|].
  split; [simpl; lia|]. intros i x Hi. by rewrite lookup_nil in Hi.
Qed.

(** A local queue is a bounded FIFO queue: whatever sequence of pushes, pops and
    counts is performed on a new queue, the results are those of a list of the
    queue's capacity, and no access leaves the array. *)
Theorem queue_refines_list size_ ops :
  0 < size_ -> Forall op_ok ops ->
  exists fq, fr_queue_create true size_ = Some fq /\
    run_queue fq ops = Some (run_list (Z.to_nat size_) [] ops).
Proof.
  intros Hm Hops. destruct (queue_create_repr size_ Hm) as (fq & E & Hq).
  exists fq. split; [done|]. exact (queue_simulation _ fq [] ops Hq Hops).
Qed.

Lemma queue_refines_list_witness :
  exists fq, fr_queue_create true 2 = Some fq /\
    run_queue fq [OpPush 5; OpPush 6; OpPush 7; OpPop; OpPush 8; OpNum; OpPop; OpPop; OpPop] =
    Some (run_list 2 [] [OpPush 5; OpPush 6; OpPush 7; OpPop; OpPush 8; OpNum; OpPop; OpPop; OpPop]).
Proof.
  apply (queue_refines_list 2
    [OpPush 5; OpPush 6; OpPush 7; OpPop; OpPush 8; OpNum; OpPop; OpPop; OpPop]);
    [lia|by apply (bool_decide_unpack _); vm_compute].
Defined.

(** What up to [n] pops of the atomic queue give. *)
Fixpoint drain {AQ} (pop : AQ -> option (Z * AQ)) (n : nat) (aq : AQ) : list Z * AQ :=
  match n with
  | O => ([], aq)
  | S n' =>
      match pop aq with
      | None => ([], aq)
      | Some (d, aq) => let '(ds, aq) := drain pop n' aq in (d :: ds, aq)
      end
  end.

Lemma localize_loop_spec {AQ} (pop : AQ -> option (Z * AQ)) cap n i fq l aq :
  queue_repr cap fq l -> (length l + n <= cap)%nat ->
  exists fq', localize_loop pop n i (Z.of_nat (i + n)) fq aq =
      Some (Z.of_nat (i + length (drain pop n aq).1), fq', (drain pop n aq).2) /\
    queue_repr cap fq' (l ++ (drain pop n aq).1).
Proof.
  revert i fq l aq. induction n as [|n IH]; intros i fq l aq Hq Hn.
  { exists fq. cbn. by rewrite app_nil_r, Nat.add_0_r. }
  cbn [localize_loop drain]. destruct (pop aq) as [[d aq']|]; cycle 1.
  { exists fq. cbn. by rewrite app_nil_r, Nat.add_0_r. }
  destruct (queue_write cap fq l d Hq) as (e & -> & Hq'); [lia|]. cbn [mbind option_bind].
  specialize (IH (S i) _ (l ++ [d]) aq' Hq'). rewrite length_app in IH. simpl in IH.
  destruct IH as (fq' & E & Hr); [lia|]. destruct (drain pop n aq') as [ds aq'']. cbn [fst snd] in *.
  exists fq'. replace (i + S n)%nat with (S (i + n)) by lia. rewrite E, <- app_assoc in *.
  split; [|done]. do 4 f_equal. simpl. lia.
Qed.

(** [fr_queue_localize_atomic] moves pointers from the atomic queue, oldest first,
    to the end of the local one until the local queue is full or the atomic one is
    empty; it returns how many it moved, loses none and never overflows.  The
    atomic queue is any state with a pop operation. *)
Theorem queue_localize_spec {AQ} (pop : AQ -> option (Z * AQ)) cap fq l aq :
  queue_repr cap fq l ->
  let '(ds, aq') := drain pop (cap - length l) aq in
  exists fq', fr_queue_localize_atomic pop fq aq = Some (Z.of_nat (length ds), fq', aq') /\
    queue_repr cap fq' (l ++ ds).
Proof.
  intros Hq. destruct (Hq) as (Hs & Hn & _ & (_ & Hl & _) & _).
  unfold fr_queue_localize_atomic. rewrite Hs, Hn.
  destruct (decide (Z.of_nat cap - Z.of_nat (length l) = 0)) as [E|E].
  - replace (cap - length l)%nat with 0%nat by lia. exists fq. by rewrite app_nil_r.
  - destruct (localize_loop_spec pop cap (cap - length l) 0 fq l aq Hq) as (fq' & E' & Hr); [lia|].
    rewrite Nat.add_0_l, Nat2Z.inj_sub in E' by lia.
    destruct (drain pop (cap - length l) aq) as [ds aq']. cbn [fst snd] in *.
    replace (Z.to_nat (Z.of_nat cap - Z.of_nat (length l))) with (cap - length l)%nat by lia.
    eauto.
Qed.

(** A full local queue of three with one entry, and an atomic queue of four. *)
Lemma queue_localize_spec_witness :
  let pop := fun aq : list Z => match aq with x :: aq' => Some (x, aq') | [] => None end in
  let '(ds, aq') := drain pop (3 - 1) [7; 8; 9; 10] in
  exists fq', fr_queue_localize_atomic pop (QueueT 0 2 3 1 [0; 0; 5]) [7; 8; 9; 10] =
      Some (Z.of_nat (length ds), fq', aq') /\ queue_repr 3 fq' ([5] ++ ds).
Proof.
  apply (queue_localize_spec
    (fun aq : list Z => match aq with x :: aq' => Some (x, aq') | [] => None end) 3
    (QueueT 0 2 3 1 [0; 0; 5]) [5] [7; 8; 9; 10]).
  split; [done|]. split; [done|]. split; [done|]. split; [|done].
  split; [simpl; lia|]. split; [simpl; lia|].
  intros [|i] x Hi; [by injection Hi as <-|done].
Defined.

(** What a resize makes of the [i]-th of [n] entries. *)
Definition resized (n i : nat) (x : Z) : Z :=
  if decide (i < n / 8)%nat then x
  else if decide (i = n / 8)%nat then x mod 256 ^ Z.of_nat (n mod 8)
  else 0.

Lemma memcpy_entries_zero sz src si l :
  slice si (length l) src = l -> (si + length l <= length src)%nat -> (length l < sz)%nat ->
  memcpy_entries (replicate sz 0) 0 src si (length l) =
    Some (imap (resized (length l)) l ++ replicate (sz - length l) 0).
Proof.
  intros Hl Hb Hs. set (n := length l) in *. unfold memcpy_entries.
  set (full := (n / 8)%nat). assert (Hn := Nat.div_mod_eq n 8). fold full in Hn.
  assert (Hm : (n mod 8 < 8)%nat) by (apply Nat.mod_upper_bound; lia).
  assert (Hw : slice si full src = take full l).
  { rewrite <- Hl. unfold slice. rewrite take_take. f_equal. lia. }
  assert (Lt : length (take full l) = full) by (rewrite length_take; fold n; lia).
  rewrite rd_slice_Some by lia. cbn [mbind option_bind]. rewrite Hw.
  rewrite wr_slice_Some by (rewrite Lt, length_replicate; lia). cbn [mbind option_bind].
  set (d1 := list_inserts 0 (take full l) (replicate sz 0)).
  assert (L1 : length d1 = sz) by (unfold d1; rewrite length_inserts, length_replicate; done).
  assert (E1 : forall i, (i < sz)%nat ->
    d1 !! i = Some (if decide (i < full)%nat then l !!! i else 0)).
  { intros i Hi. unfold d1. case_decide.
    - rewrite list_lookup_inserts, Nat.sub_0_r, lookup_take_lt by (rewrite ?Lt, ?length_replicate; lia).
      apply list_lookup_lookup_total_lt. fold n. lia.
    - rewrite list_lookup_inserts_ge by (rewrite Lt; lia). by apply lookup_replicate_2. }
  assert (Goal_lookup : forall e, length e = sz ->
    (forall i, (i < sz)%nat -> e !! i = Some (if decide (i < n)%nat then resized n i (l !!! i) else 0)) ->
    e = imap (resized n) l ++ replicate (sz - n) 0).
  { intros e Le He. apply list_eq. intros i. destruct (decide (i < sz)%nat) as [Hi|Hi]; cycle 1.
    { rewrite !lookup_ge_None_2; [done| |lia]. rewrite length_app, length_imap, length_replicate. fold n. lia. }
    rewrite He by done. case_decide.
    - rewrite lookup_app_l by (rewrite length_imap; done).
      rewrite list_lookup_imap, list_lookup_lookup_total_lt by done. done.
    - rewrite lookup_app_r by (rewrite length_imap; fold n; lia). symmetry.
      apply lookup_replicate_2. rewrite length_imap. fold n. lia. }
  destruct (decide (n mod 8 = 0)%nat) as [H0|H0].
  - f_equal. apply Goal_lookup; [done|]. intros i Hi. rewrite E1 by done. f_equal.
    unfold resized. fold full. rewrite H0, (Z.mod_1_r (l !!! i) : _ mod 256 ^ Z.of_nat 0 = _).
    repeat case_decide; try done; lia.
  - assert (Es : rd src (si + full) = Some (l !!! full)).
    { unfold rd. rewrite <- (lookup_slice si n) by lia. rewrite Hl.
      apply list_lookup_lookup_total_lt. fold n. lia. }
    rewrite Es. cbn [mbind option_bind]. rewrite Nat.add_0_l. unfold rd. rewrite E1 by lia.
    rewrite decide_False by lia. cbn [mbind option_bind].
    rewrite wr_slice_Some by (cbn [length]; lia). f_equal.
    change (list_inserts ?k [?v] ?d) with (<[k := v]> d).
    apply Goal_lookup; [by rewrite length_insert|]. intros i Hi.
    destruct (decide (i = full)) as [->|Hne].
    + rewrite list_lookup_insert_eq by lia. f_equal. unfold resized. fold full.
      destruct (decide (full < n)%nat); [|lia]. destruct (decide (full < full)%nat); [lia|].
      rewrite decide_True by done.
      rewrite Z.mod_0_l by (apply Z.pow_nonzero; lia). lia.
    + rewrite list_lookup_insert_ne, E1 by lia. f_equal. unfold resized. fold full.
      repeat case_decide; try done; lia.
Qed.

(** Resizing a queue corrupts it.  The entries are copied with [memcpy] and a
    length that counts pointers where [memcpy] counts bytes: of [n] queued pointers
    the new queue gets the first [n / 8], the low [n mod 8] bytes of the next, and
    [NULL] for all the others, while it still claims to hold [n].  (Shown for
    contents that do not wrap around the end of the old array.) *)
Theorem queue_resize_corrupts cap fq l size_ :
  queue_repr cap fq l -> (0 < length l)%nat -> (tail fq + length l < cap)%nat ->
  Z.of_nat cap < size_ ->
  exists nq, fr_queue_resize true fq size_ = Some (Some nq) /\
    queue_repr (Z.to_nat size_) nq (imap (resized (length l)) l).
Proof.
  intros (Hs & Hn & Hh & (Ht & Hl & Hr) & He) H0 Hw Hz. unfold fr_queue_resize, fr_queue_create.
  rewrite Nat.mod_small in Hh by done. rewrite Hs, !decide_False by lia. cbn [negb].
  destruct (decide (num fq = 0%nat)); [lia|].
  destruct (decide (tail fq < head fq)%nat); [|lia]. cbn [entry tail size].
  replace (head fq - tail fq)%nat with (length l) by lia.
  assert (E : slice (tail fq) (length l) (entry fq) = l).
  { apply list_eq. intros i. destruct (decide (i < length l)%nat) as [Hi|Hi].
    - rewrite lookup_slice by done. destruct (lookup_lt_is_Some_2 l i Hi) as [x Hx].
      rewrite Hx, <- (Hr i x Hx), Nat.mod_small by lia. done.
    - rewrite lookup_slice_ge by lia. symmetry. apply lookup_ge_None. lia. }
  rewrite memcpy_entries_zero by (done || lia). cbn [mbind option_bind]. rewrite Hn.
  eexists. split; [done|]. unfold queue_repr. cbn [size num head tail entry].
  rewrite length_imap, length_app, length_imap, length_replicate.
  split; [done|]. split; [done|]. split; [by rewrite Nat.mod_small by lia|]. split; [|lia].
  split; [rewrite length_app, length_imap, length_replicate; lia|].
  split; [rewrite length_imap; lia|]. intros i x Hi. pose proof (lookup_lt_Some _ _ _ Hi) as Hlt.
  rewrite length_imap in Hlt. rewrite Nat.mod_small by lia. cbn [Nat.add].
  by apply lookup_app_l_Some.
Qed.

(** Two 64-bit pointers: two bytes of the first survive. *)
Lemma queue_resize_corrupts_witness :
  exists nq, fr_queue_resize true (QueueT 2 0 4 2 [0x7f0011223344; 0x7f0055667788; 0; 0]) 8 =
      Some (Some nq) /\
    queue_repr 8 nq (imap (resized 2) [0x7f0011223344; 0x7f0055667788]).
Proof.
  apply (queue_resize_corrupts 4 (QueueT 2 0 4 2 [0x7f0011223344; 0x7f0055667788; 0; 0])
    [0x7f0011223344; 0x7f0055667788] 8); [|simpl; lia..].
  split; [done|]. split; [done|]. split; [done|]. split; [|done].
  split; [simpl; lia|]. split; [simpl; lia|].
  intros [|[|i]] x Hi; [by injection Hi as <-..|done].
Defined.

End Queue.

(** ** [fr_fring_t] *)
Module Fring.

(** The mutex is left out: every operation runs under it, so operations are atomic. *)
Record fr_fring_t := FringT { size : Z; in_ : Z; out : Z; data : list Z }.

(** [for (pow = 1; pow < size; pow <<= 1);], 32 turns at most when [size <= 2^31]. *)
Fixpoint pow_loop (fuel : nat) (pow size_ : Z) : option Z :=
  match fuel with
  | O => None
  | S fuel' =>
      if decide (pow < size_) then pow_loop fuel' (shl32 pow 1) size_ else Some pow
  end.

(** The array has [size - 1] entries, [size] being the rounded size. *)
Definition fr_fring_alloc (mem : bool) (size_ : Z) : option (option fr_fring_t) :=
  pow ← pow_loop 33 1 size_;
  let size_ := pow - 1 in
  Some (if mem then Some (FringT size_ 0 0 (replicate (Z.to_nat size_) 0)) else None).

(** The end of both insertions: store, advance, and push [out] ahead of [in]. *)
Definition fring_store (f : fr_fring_t) (x : Z) : option fr_fring_t :=
  dat ← wr_slice (Z.to_nat (in_ f)) [x] (data f);
  let i := Z.land (u32 (in_ f + 1)) (size f) in
  let o := if decide (i = out f) then Z.land (u32 (out f + 1)) (size f) else out f in
  Some (FringT (size f) i o dat).

(** The return value, the pointer freed (0 for none), and the ring. *)
Definition fr_fring_overwrite (f : fr_fring_t) (x : Z) : option (Z * Z * fr_fring_t) :=
  old ← rd (data f) (Z.to_nat (in_ f));
  f' ← fring_store f x;
  Some (if decide (old <> 0) then 1 else 0, old, f').

Definition fr_fring_insert (f : fr_fring_t) (x : Z) : option (Z * fr_fring_t) :=
  old ← rd (data f) (Z.to_nat (in_ f));
  if decide (old <> 0) then Some (-1, f)
  else f' ← fring_store f x; Some (0, f').

Definition fr_fring_next (f : fr_fring_t) : option (Z * fr_fring_t) :=
  if decide (out f = in_ f) then Some (0, f)
  else
    x ← rd (data f) (Z.to_nat (out f));
    dat ← wr_slice (Z.to_nat (out f)) [0] (data f);
    Some (x, FringT (size f) (in_ f) (Z.land (u32 (out f + 1)) (size f)) dat).

(** [while ((next = fr_fring_next(fring))) talloc_free(next);]: the pointers freed. *)
Fixpoint _fring_free (fuel : nat) (f : fr_fring_t) : option (list Z * fr_fring_t) :=
  match fuel with
  | O => None
  | S fuel' =>
      '(next, f) ← fr_fring_next f;
      if decide (next <> 0) then
        '(freed, f) ← _fring_free fuel' f; Some (next :: freed, f)
      else Some ([], f)
  end.

Fixpoint inserts (f : fr_fring_t) (xs : list Z) : option fr_fring_t :=
  match xs with
  | [] => Some f
  | x :: xs' => '(r, f) ← fr_fring_insert f x; if decide (r = 0) then inserts f xs' else None
  end.

Lemma pow_loop_spec fuel k m :
  0 <= k -> 0 < m <= 2 ^ 31 -> 2 ^ k <= 2 ^ 31 -> 32 - k < Z.of_nat fuel ->
  exists j, pow_loop fuel (2 ^ k) m = Some (2 ^ j) /\ k <= j <= 31 /\ m <= 2 ^ j.
Proof.
  intros Hk Hm. revert k Hk. induction fuel as [|fuel IH]; intros k Hk Hle Hf.
  { assert (k <= 31) by (apply (Z.pow_le_mono_r_iff 2); lia). lia. }
  assert (H31 : k <= 31) by (apply (Z.pow_le_mono_r_iff 2); lia).
  cbn [pow_loop]. case_decide as Hd.
  - assert (k < 31) by (apply (Z.pow_lt_mono_r_iff 2); lia).
    assert (2 ^ (k + 1) = 2 * 2 ^ k) by (rewrite Z.pow_add_r by lia; lia).
    assert (2 ^ (k + 1) <= 2 ^ 31) by (apply Z.pow_le_mono_r; lia).
    assert (E : shl32 (2 ^ k) 1 = 2 ^ (k + 1)).
    { unfold shl32. rewrite Z.shiftl_mul_pow2, u32_small by lia. lia. }
    rewrite E. destruct (IH (k + 1)) as (j & ? & ? & ?); [lia..|]. exists j. auto with lia.
  - exists k. split; [done|]. lia.
Qed.

(** A ring that has taken [l] in its first lap. *)
Definition fring_lap (n : nat) (l : list Z) (f : fr_fring_t) : Prop :=
  size f = Z.of_nat n /\ in_ f = Z.of_nat (length l) /\ out f = 0 /\
  data f = l ++ replicate (n - length l) 0.

Lemma fring_lap_insert j l f x (n := Z.to_nat (2 ^ j - 1)) :
  1 <= j <= 31 -> fring_lap n l f -> (length l < n)%nat ->
  exists f', fr_fring_insert f x = Some (0, f') /\ fring_lap n (l ++ [x]) f'.
Proof.
  intros Hj (Hs & Hi & Ho & Hd) Hl. unfold fr_fring_insert, rd.
  assert (2 ^ 1 <= 2 ^ j <= 2 ^ 31) by (split; apply Z.pow_le_mono_r; lia).
  rewrite Hi, Hd, Nat2Z.id, lookup_app_r, Nat.sub_diag, lookup_replicate_2 by lia.
  cbn [mbind option_bind]. rewrite decide_False by auto. unfold fring_store.
  rewrite Hi, Hd, Nat2Z.id, wr_slice_Some
    by (rewrite length_app, length_replicate; cbn [length]; lia). cbn [mbind option_bind].
  assert (Ei : Z.land (u32 (Z.of_nat (length l) + 1)) (size f) = Z.of_nat (S (length l))).
  { rewrite Hs. unfold n. rewrite Z2Nat.id by lia.
    replace (2 ^ j - 1) with (Z.ones j) by (rewrite Z.ones_equiv; lia).
    rewrite Z.land_ones, u32_small by lia. rewrite Z.mod_small by lia. lia. }
  rewrite Ei, decide_False by lia. eexists. split; [done|].
  split; [done|]. cbn [in_ out data]. rewrite length_app. cbn [length].
  split; [lia|]. split; [done|]. replace (n - length l)%nat with (S (n - (length l + 1))) by lia.
  rewrite <- (Nat.add_0_r (length l)) at 1. rewrite list_inserts_app_r. cbn [replicate].
  rewrite <- app_assoc. done.
Qed.

Lemma fring_lap_inserts j l xs f (n := Z.to_nat (2 ^ j - 1)) :
  1 <= j <= 31 -> fring_lap n l f -> (length l + length xs <= n)%nat ->
  exists f', inserts f xs = Some f' /\ fring_lap n (l ++ xs) f'.
Proof.
  intros Hj. revert l f. induction xs as [|x xs IH]; intros l f Hf Hl.
  { exists f. by rewrite app_nil_r. }
  cbn [inserts length] in *. destruct (fring_lap_insert j l f x Hj Hf) as (f1 & -> & H1); [lia|].
  cbn [mbind option_bind]. rewrite decide_True by done.
  destruct (IH (l ++ [x]) f1 H1) as (f' & -> & H'); [rewrite length_app; simpl; lia|].
  exists f'. rewrite <- app_assoc in H'. done.
Qed.

(** Draining from [out = k] when the ring holds [xs] from there. *)
Lemma fring_drain j xs f k (n := Z.to_nat (2 ^ j - 1)) :
  1 <= j <= 31 -> size f = Z.of_nat n -> out f = Z.of_nat k ->
  in_ f = Z.of_nat (k + length xs) -> (k + length xs <= n)%nat -> length (data f) = n ->
  Forall (fun x => x <> 0) xs ->
  (forall i x, xs !! i = Some x -> data f !! (k + i)%nat = Some x) ->
  exists f', _fring_free (S (length xs)) f = Some (xs, f').
Proof.
  intros Hj. assert (2 ^ 1 <= 2 ^ j <= 2 ^ 31) by (split; apply Z.pow_le_mono_r; lia).
  revert f k. induction xs as [|x xs IH]; intros f k Hs Ho Hi Hn Hd Hx Hl.
  - cbn [_fring_free length]. unfold fr_fring_next. rewrite decide_True by (cbn in Hi; lia).
    cbn [mbind option_bind]. rewrite decide_False by auto. eauto.
  - apply list.Forall_cons in Hx as [Hx0 Hx]. cbn [length] in Hi, Hn.
    change (length (x :: xs)) with (S (length xs)).
    set (f1 := FringT (size f) (in_ f) (Z.land (u32 (out f + 1)) (size f))
                      (list_inserts k [0] (data f))).
    assert (E1 : fr_fring_next f = Some (x, f1)).
    { unfold fr_fring_next. rewrite decide_False by lia. unfold f1. rewrite Ho, Nat2Z.id.
      unfold rd. pose proof (Hl 0%nat x eq_refl) as H0. rewrite Nat.add_0_r in H0. rewrite H0.
      cbn [mbind option_bind]. by rewrite wr_slice_Some by (cbn [length]; lia). }
    assert (Ei : Z.land (u32 (Z.of_nat k + 1)) (size f) = Z.of_nat (S k)).
    { rewrite Hs. unfold n. rewrite Z2Nat.id by lia.
      replace (2 ^ j - 1) with (Z.ones j) by (rewrite Z.ones_equiv; lia).
      rewrite Z.land_ones, u32_small by lia. rewrite Z.mod_small by lia. lia. }
    rewrite <- Ho in Ei. destruct (IH f1 (S k)) as (f' & E).
    + done.
    + exact Ei.
    + unfold f1. cbn [in_]. rewrite Hi. f_equal. lia.
    + lia.
    + unfold f1. cbn [data]. by rewrite length_inserts.
    + done.
    + intros i y Hy. unfold f1. cbn [data]. change (list_inserts k [0] ?d) with (<[k := 0]> d).
      rewrite list_lookup_insert_ne by lia. replace (S k + i)%nat with (k + S i)%nat by lia.
      by apply Hl.
    + exists f'. remember (S (length xs)) as m. cbn [_fring_free]. rewrite E1.
      cbn [mbind option_bind]. rewrite decide_True by done. by rewrite E.
Qed.

(** The array of a ring is one entry short.  [fr_fring_alloc] rounds the size up
    to [2^j], allocates [2^j - 1] entries, and masks the indexes with [2^j - 1]: the
    first [2^j - 1] insertions work (freeing the ring then frees exactly what was
    inserted, in order), and the next insertion, plain or overwriting, accesses the
    entry behind the end of the array. *)
Theorem fring_insert_overrun size_ :
  2 <= size_ <= 2 ^ 31 ->
  exists j f, 1 <= j <= 31 /\ size_ <= 2 ^ j /\
    fr_fring_alloc true size_ = Some (Some f) /\
    forall xs, Z.of_nat (length xs) = 2 ^ j - 1 -> Forall (fun x => x <> 0) xs ->
      exists f', inserts f xs = Some f' /\
        (exists f'', _fring_free (S (length xs)) f' = Some (xs, f'')) /\
        forall x, fr_fring_insert f' x = None /\ fr_fring_overwrite f' x = None.
Proof.
  intros Hs. destruct (pow_loop_spec 33 0 size_) as (j & E & Hj & Hle); [lia..|].
  assert (1 <= j) by (destruct (decide (j = 0)) as [->|]; [change (2 ^ 0) with 1 in Hle|]; lia).
  assert (Hp : 2 ^ 1 <= 2 ^ j <= 2 ^ 31) by (split; apply Z.pow_le_mono_r; lia).
  exists j. eexists. split; [lia|]. split; [done|]. unfold fr_fring_alloc.
  change (pow_loop 33 1 size_) with (pow_loop 33 (2 ^ 0) size_). rewrite E. split; [done|]. intros xs Hl Hx.
  destruct (fring_lap_inserts j [] xs (FringT (2 ^ j - 1) 0 0
    (replicate (Z.to_nat (2 ^ j - 1)) 0))) as (f' & E' & (Hs' & Hi' & Ho' & Hd')); [lia| |simpl; lia|].
  { split; [cbn [size]; lia|]. split; [done|]. split; [done|]. by rewrite Nat.sub_0_r. }
  exists f'. split; [done|]. cbn [app] in *.
  assert (Hn : (Z.to_nat (2 ^ j - 1) - length xs = 0)%nat) by lia.
  rewrite Hn, app_nil_r in Hd'. split.
  - apply (fring_drain j xs f' 0); [lia|done|done|done|lia| |done|by rewrite Hd'].
    rewrite Hd'. lia.
  - intros x. unfold fr_fring_insert, fr_fring_overwrite, rd.
    rewrite Hi', Hd', Nat2Z.id, lookup_ge_None_2 by lia. done.
Qed.

Lemma fring_insert_overrun_witness :
  exists j f, 1 <= j <= 31 /\ 4 <= 2 ^ j /\
    fr_fring_alloc true 4 = Some (Some f) /\
    forall xs, Z.of_nat (length xs) = 2 ^ j - 1 -> Forall (fun x => x <> 0) xs ->
      exists f', inserts f xs = Some f' /\
        (exists f'', _fring_free (S (length xs)) f' = Some (xs, f'')) /\
        forall x, fr_fring_insert f' x = None /\ fr_fring_overwrite f' x = None.
Proof. apply (fring_insert_overrun 4). lia. Defined.

End Fring.
