(* ===== verification/AtomicQueue.v ===== *)
(** * The lock-free queue between threads: [lib/io/atomic_queue.c]

    Several threads push and pop at the same time.  A step of the model is one access to
    shared memory by one thread, so every interleaving of the accesses is a run; the
    local variables of a call are the arguments of its program point.  Pointers are
    integers, [NULL] is 0; [head], [tail] and the sequence numbers are 64-bit counters
    that are never wrapped (2^63 calls).  The accesses of one thread take effect in program
    order, which the release stores and acquire loads of the sequence numbers give for the
    data they guard.  The ghost list [s_hist] records the pointers in the order in
    which pushes obtain their tickets. *)
From stdpp Require Import relations.
From S2P Require Import Prelude.

Record fr_atomic_queue_entry_t := AqEntry { aq_seq : Z; aq_data : Z }.
#[global] Instance entry_inhabited : Inhabited fr_atomic_queue_entry_t := populate (AqEntry 0 0).

Record fr_atomic_queue_t := AQ {
  aq_head : Z;
  aq_tail : Z;
  aq_entry : list fr_atomic_queue_entry_t     (** [size] entries *)
}.

Definition aq_size (aq : fr_atomic_queue_t) : Z := Z.of_nat (length (aq_entry aq)).

Definition fr_atomic_queue_alloc (size : nat) : option fr_atomic_queue_t :=
  if decide (size = 0%nat) then None
  else Some (AQ 0 0 (map (fun i => AqEntry (Z.of_nat i) 0) (seq 0 size))).

(** [&aq->entry[ticket % aq->size]] *)
Definition aq_slot (aq : fr_atomic_queue_t) (ticket : Z) : nat := Z.to_nat (ticket mod aq_size aq).
Definition aq_ent (aq : fr_atomic_queue_t) (ticket : Z) : fr_atomic_queue_entry_t :=
  aq_entry aq !!! aq_slot aq ticket.
Definition aq_set (aq : fr_atomic_queue_t) (ticket : Z) (e : fr_atomic_queue_entry_t)
    : fr_atomic_queue_t :=
  AQ (aq_head aq) (aq_tail aq) (<[aq_slot aq ticket := e]> (aq_entry aq)).

(** The program points of the two functions.  A finished pop keeps the ticket it had. *)
Inductive op :=
| PushLoad (d : Z)                (** [head = load(aq->head)] *)
| PushSeq (d head : Z)            (** [seq = aquire(entry->seq)] *)
| PushCas (d head : Z)            (** [cas_incr(aq->head, head)] *)
| PushData (d head : Z)           (** [entry->data = data] *)
| PushStore (d head : Z)          (** [store(entry->seq, head + 1)] *)
| PushDone (ok : bool)
| PopLoad
| PopSeq (tail : Z)
| PopCas (tail : Z)
| PopData (tail : Z)              (** [*p_data = entry->data] *)
| PopStore (tail v : Z)           (** [store(entry->seq, tail + aq->size)] *)
| PopDone (r : option (Z * Z)).   (** the ticket and the pointer, or [false] *)

(** The start of a call. *)
Definition fr_atomic_queue_push (d : Z) : op := if decide (d = 0) then PushDone false else PushLoad d.
Definition fr_atomic_queue_pop (p_data : Z) : op :=
  if decide (p_data = 0) then PopDone None else PopLoad.

(** The next access.  A failed [cas_incr] leaves the current value in its variable. *)
Definition op_step (aq : fr_atomic_queue_t) (o : op) : option (fr_atomic_queue_t * op) :=
  match o with
  | PushLoad d => Some (aq, PushSeq d (aq_head aq))
  | PushSeq d head =>
      let diff := aq_seq (aq_ent aq head) - head in
      if decide (diff < 0) then Some (aq, PushDone false)
      else if decide (diff > 0) then Some (aq, PushLoad d)
      else Some (aq, PushCas d head)
  | PushCas d head =>
      if decide (aq_head aq = head)
      then Some (AQ (head + 1) (aq_tail aq) (aq_entry aq), PushData d head)
      else Some (aq, PushSeq d (aq_head aq))
  | PushData d head =>
      Some (aq_set aq head (AqEntry (aq_seq (aq_ent aq head)) d), PushStore d head)
  | PushStore d head =>
      Some (aq_set aq head (AqEntry (head + 1) (aq_data (aq_ent aq head))), PushDone true)
  | PopLoad => Some (aq, PopSeq (aq_tail aq))
  | PopSeq tail =>
      let diff := aq_seq (aq_ent aq tail) - (tail + 1) in
      if decide (diff < 0) then Some (aq, PopDone None)
      else if decide (diff > 0) then Some (aq, PopLoad)
      else Some (aq, PopCas tail)
  | PopCas tail =>
      if decide (aq_tail aq = tail)
      then Some (AQ (aq_head aq) (tail + 1) (aq_entry aq), PopData tail)
      else Some (aq, PopSeq (aq_tail aq))
  | PopData tail => Some (aq, PopStore tail (aq_data (aq_ent aq tail)))
  | PopStore tail v =>
      Some (aq_set aq tail (AqEntry (tail + aq_size aq) (aq_data (aq_ent aq tail))),
            PopDone (Some (tail, v)))
  | PushDone _ | PopDone _ => None
  end.

(** A call running alone. *)
Fixpoint run_alone (fuel : nat) (aq : fr_atomic_queue_t) (o : op) : fr_atomic_queue_t * op :=
  match fuel with
  | O => (aq, o)
  | S fuel' =>
      match op_step aq o with
      | None => (aq, o)
      | Some (aq, o) => run_alone fuel' aq o
      end
  end.

(** ** Threads *)

Record sys := SysAq {
  s_aq : fr_atomic_queue_t;
  s_ops : gmap nat op;          (** the current call of each thread *)
  s_hist : list Z
}.

(** What a step does to the queue as a whole. *)
Inductive fifo_event := EvPush (d : Z) | EvPop (v : Z) | EvTau.

(** A push takes effect when it obtains its ticket, and so does a pop. *)
Definition step_event (s : sys) (o o' : op) : fifo_event :=
  match o, o' with
  | PushCas d _, PushData _ _ => EvPush d
  | PopCas tail, PopData _ => EvPop (s_hist s !!! Z.to_nat tail)
  | _, _ => EvTau
  end.

Definition hist_after (h : list Z) (ev : fifo_event) : list Z :=
  match ev with EvPush d => h ++ [d] | _ => h end.

Definition finished (o : op) : Prop := exists b r, o = PushDone b \/ o = PopDone r.

Inductive sys_step : sys -> fifo_event -> sys -> Prop :=
| sys_call s tid o :
    (forall o0, s_ops s !! tid = Some o0 -> finished o0) ->
    (exists d, o = fr_atomic_queue_push d \/ o = fr_atomic_queue_pop d) ->
    sys_step s EvTau (SysAq (s_aq s) (<[tid := o]> (s_ops s)) (s_hist s))
| sys_run s tid o aq' o' :
    s_ops s !! tid = Some o -> op_step (s_aq s) o = Some (aq', o') ->
    sys_step s (step_event s o o')
      (SysAq aq' (<[tid := o']> (s_ops s)) (hist_after (s_hist s) (step_event s o o'))).

Inductive reachable (size : nat) : sys -> Prop :=
| reach_init aq : fr_atomic_queue_alloc size = Some aq -> reachable size (SysAq aq ∅ [])
| reach_step s ev s' : reachable size s -> sys_step s ev s' -> reachable size s'.

(** ** The specification: a bounded FIFO queue *)

Inductive fifo_step (size : nat) : list Z -> fifo_event -> list Z -> Prop :=
| fifo_push q d : (length q < size)%nat -> fifo_step size q (EvPush d) (q ++ [d])
| fifo_pop v q : fifo_step size (v :: q) (EvPop v) q
| fifo_tau q : fifo_step size q EvTau q.

(** The queue a state stands for: the tickets pushed and not yet popped. *)
Definition abs_queue (s : sys) : list Z := drop (Z.to_nat (aq_tail (s_aq s))) (s_hist s).

(** ** The invariant *)

Ltac alone_done := solve [eexists _, None; by left | eexists false, _; by right].

Section Invariant.
Context (size : nat) (Hsize : (2 <= size)%nat).
Local Abbreviation n := (Z.of_nat size).

(** The entry with index [i]: free for the ticket [T], or holding it. *)
Definition entry_inv (h t : Z) (hist : list Z) (i : Z) (e : fr_atomic_queue_entry_t) : Prop :=
  exists T, 0 <= T /\ T mod n = i /\ T - n < t /\ h <= T + n /\
    ((aq_seq e = T /\ t <= T) \/
     (aq_seq e = T + 1 /\ T < h /\ t <= T + n /\ hist !! Z.to_nat T = Some (aq_data e))).

(** What a thread knows at each program point. *)
Definition op_inv (aq : fr_atomic_queue_t) (hist : list Z) (o : op) : Prop :=
  match o with
  | PushSeq d x => 0 <= x <= aq_head aq
  | PushCas d x => 0 <= x <= aq_head aq /\ (x < aq_head aq \/ aq_seq (aq_ent aq x) = x)
  | PushData d x =>
      0 <= x < aq_head aq /\ hist !! Z.to_nat x = Some d /\ aq_seq (aq_ent aq x) = x
  | PushStore d x =>
      0 <= x < aq_head aq /\ hist !! Z.to_nat x = Some d /\ aq_ent aq x = AqEntry x d
  | PopSeq x => 0 <= x <= aq_tail aq
  | PopCas x => 0 <= x <= aq_tail aq /\ (x < aq_tail aq \/ aq_seq (aq_ent aq x) = x + 1)
  | PopData x => 0 <= x < aq_tail aq /\ aq_seq (aq_ent aq x) = x + 1
  | PopStore x v =>
      0 <= x < aq_tail aq /\ aq_seq (aq_ent aq x) = x + 1 /\ hist !! Z.to_nat x = Some v
  | PopDone (Some (x, v)) => 0 <= x < aq_tail aq /\ hist !! Z.to_nat x = Some v
  | _ => True
  end.

(** The ticket a thread is working on, or that its last pop had. *)
Definition push_ticket (o : op) : option Z :=
  match o with PushData _ x | PushStore _ x => Some x | _ => None end.
Definition pop_ticket (o : op) : option Z :=
  match o with PopData x | PopStore x _ | PopDone (Some (x, _)) => Some x | _ => None end.

(** No two threads have the same one. *)
Definition apart (o o' : op) : Prop :=
  (push_ticket o = push_ticket o' -> push_ticket o = None) /\
  (pop_ticket o = pop_ticket o' -> pop_ticket o = None).

Record sys_inv (s : sys) : Prop := {
  inv_size : length (aq_entry (s_aq s)) = size;
  inv_order : 0 <= aq_tail (s_aq s) <= aq_head (s_aq s);
  inv_hist : Z.of_nat (length (s_hist s)) = aq_head (s_aq s);
  inv_entries : forall i, 0 <= i < n ->
    entry_inv (aq_head (s_aq s)) (aq_tail (s_aq s)) (s_hist s) i (aq_entry (s_aq s) !!! Z.to_nat i);
  inv_ops : forall tid o, s_ops s !! tid = Some o -> op_inv (s_aq s) (s_hist s) o;
  inv_apart : forall tid tid' o o', tid <> tid' ->
    s_ops s !! tid = Some o -> s_ops s !! tid' = Some o' -> apart o o'
}.

Lemma mod_range x : 0 <= x mod n < n.
Proof. apply Z.mod_pos_bound. lia. Qed.

(** Neighbouring tickets are in different entries. *)
Lemma mod_succ_ne x : (x + 1) mod n <> x mod n.
Proof.
  intros E. pose proof (Z.div_mod x n ltac:(lia)) as Hx.
  pose proof (Z.div_mod (x + 1) n ltac:(lia)) as Hy. rewrite E in Hy.
  set (a := x / n) in *. set (b := (x + 1) / n) in *. clearbody a b.
  assert (n * (b - a) = 1) by lia. destruct (decide (b - a <= 0)); nia.
Qed.

Lemma mod_window x y : x mod n = y mod n -> x <= y < x + n -> x = y.
Proof.
  intros E H. pose proof (Z.div_mod x n ltac:(lia)) as Hx.
  pose proof (Z.div_mod y n ltac:(lia)) as Hy. rewrite E in Hx.
  set (a := x / n) in *. set (b := y / n) in *. clearbody a b.
  assert (y - x = n * (b - a)) by lia. assert (b - a = 0) by nia. lia.
Qed.

Lemma ent_at s x :
  sys_inv s -> aq_ent (s_aq s) x = aq_entry (s_aq s) !!! Z.to_nat (x mod n).
Proof. intros I. unfold aq_ent, aq_slot, aq_size. by rewrite (inv_size s I). Qed.

Lemma ent_inv s x :
  sys_inv s ->
  entry_inv (aq_head (s_aq s)) (aq_tail (s_aq s)) (s_hist s) (x mod n) (aq_ent (s_aq s) x).
Proof. intros I. rewrite (ent_at s x I). apply (inv_entries s I), mod_range. Qed.

(** An entry whose number is the ticket is free for it. *)
Lemma entry_free s x :
  sys_inv s -> aq_seq (aq_ent (s_aq s) x) = x ->
  aq_tail (s_aq s) <= x /\ x - n < aq_tail (s_aq s) /\ aq_head (s_aq s) <= x + n.
Proof.
  intros I E. destruct (ent_inv s x I) as (T & H0 & Hm & H1 & H2 & [[Es H3]|(Es & _)]).
  - rewrite E in Es. subst T. lia.
  - rewrite E in Es. destruct (mod_succ_ne T). by rewrite <- Es.
Qed.

(** One whose number is the next holds the ticket's pointer. *)
Lemma entry_full s x :
  sys_inv s -> aq_seq (aq_ent (s_aq s) x) = x + 1 ->
  x < aq_head (s_aq s) /\ aq_tail (s_aq s) <= x + n /\ aq_head (s_aq s) <= x + n /\
  x - n < aq_tail (s_aq s) /\ s_hist s !! Z.to_nat x = Some (aq_data (aq_ent (s_aq s) x)).
Proof.
  intros I E. destruct (ent_inv s x I) as (T & H0 & Hm & H1 & H2 & [[Es H3]|(Es & H3 & H4 & H5)]).
  - rewrite E in Es. subst T. destruct (mod_succ_ne x). done.
  - assert (x = T) as -> by lia. auto.
Qed.

(** The queue never holds more than its capacity. *)
Lemma aq_capacity s : sys_inv s -> aq_head (s_aq s) <= aq_tail (s_aq s) + n.
Proof.
  intros I. set (t := aq_tail (s_aq s)).
  destruct (ent_inv s t I) as (T & H0 & Hm & H1 & H2 & [[_ H3]|(_ & H3 & H4 & _)]); fold t in H1, H3.
  - assert (t = T) by (apply mod_window; [done|lia]). lia.
  - fold t in H4. destruct (decide (t <= T)) as [Hd|Hd].
    + assert (t = T) by (apply mod_window; [done|lia]). lia.
    + assert (t = T + n); [|lia]. apply mod_window; [|lia].
      replace (T + n) with (T + 1 * n) by lia. by rewrite Z.mod_add by lia.
Qed.

(** At the current head, the entry is never ahead: pushing alone never spins. *)
Lemma head_entry s :
  sys_inv s -> aq_seq (aq_ent (s_aq s) (aq_head (s_aq s))) <= aq_head (s_aq s).
Proof.
  intros I. set (h := aq_head (s_aq s)). pose proof (inv_order s I) as Ho. fold h in Ho.
  destruct (ent_inv s h I) as (T & H0 & Hm & H1 & H2 & [[Es H3]|(Es & H3 & _)]); rewrite Es; [|lia].
  destruct (decide (T <= h)) as [Hd|Hd]; [done|]. assert (h = T); [|lia]. apply mod_window; [done|lia].
Qed.

Lemma tail_entry s :
  sys_inv s -> aq_seq (aq_ent (s_aq s) (aq_tail (s_aq s))) <= aq_tail (s_aq s) + 1.
Proof.
  intros I. set (t := aq_tail (s_aq s)).
  destruct (ent_inv s t I) as (T & H0 & Hm & H1 & H2 & [[Es H3]|(Es & H3 & H4 & _)]);
    fold t in H1, H3; rewrite Es.
  - assert (t = T) by (apply mod_window; [done|lia]). lia.
  - destruct (decide (T <= t)) as [Hd|Hd]; [lia|]. assert (t = T); [|lia]. apply mod_window; [done|lia].
Qed.

Lemma apart_sym o o' : apart o o' -> apart o' o.
Proof. intros [H1 H2]. split; intros E; rewrite E; [apply H1|apply H2]; congruence. Qed.

Lemma sys_inv_init aq : fr_atomic_queue_alloc size = Some aq -> sys_inv (SysAq aq ∅ []).
Proof.
  unfold fr_atomic_queue_alloc. rewrite (decide_False (P := size = 0%nat)) by lia.
  intros [= <-]. split; cbn [s_aq s_ops s_hist aq_head aq_tail aq_entry].
  - by rewrite length_map, length_seq.
  - lia.
  - done.
  - intros i Hi. exists i. rewrite (list_lookup_total_correct _ _ (AqEntry i 0)).
    + rewrite Z.mod_small by lia. split_and!; [lia|done|lia|lia|]. left. simpl. lia.
    + rewrite list_lookup_fmap, lookup_seq_lt by lia. simpl. f_equal. f_equal. lia.
  - intros tid o E. by rewrite lookup_empty in E.
  - intros tid tid' o o' _ E. by rewrite lookup_empty in E.
Qed.

(** The invariant after a step of the thread [tid]: the state's own part, and what the
    step does to the other threads. *)
Lemma sys_inv_run s tid aq' o' hist' :
  sys_inv s ->
  length (aq_entry aq') = size -> 0 <= aq_tail aq' <= aq_head aq' ->
  Z.of_nat (length hist') = aq_head aq' ->
  (forall i, 0 <= i < n ->
     entry_inv (aq_head aq') (aq_tail aq') hist' i (aq_entry aq' !!! Z.to_nat i)) ->
  op_inv aq' hist' o' ->
  (forall tid2 o2, tid <> tid2 -> s_ops s !! tid2 = Some o2 -> op_inv aq' hist' o2 /\ apart o' o2) ->
  sys_inv (SysAq aq' (<[tid := o']> (s_ops s)) hist').
Proof.
  intros I Hl Ho Hh He Hop Hr. split; cbn [s_aq s_ops s_hist]; try done.
  - intros t o [[-> ->]|[Hne E]]%lookup_insert_Some; [done|]. by apply (Hr t).
  - intros t t' o1 o2 Hne [[-> <-]|[Hne1 E1]]%lookup_insert_Some
      [[-> <-]|[Hne2 E2]]%lookup_insert_Some; [done| | |].
    + by apply (Hr t').
    + by apply apart_sym, (Hr t).
    + by apply (inv_apart s I t t').
Qed.

(** A step that leaves the memory alone. *)
Lemma sys_inv_local s tid o' :
  sys_inv s -> op_inv (s_aq s) (s_hist s) o' ->
  (forall tid2 o2, tid <> tid2 -> s_ops s !! tid2 = Some o2 -> apart o' o2) ->
  sys_inv (SysAq (s_aq s) (<[tid := o']> (s_ops s)) (s_hist s)).
Proof.
  intros I Hop Ha. apply sys_inv_run; try apply I; [done|].
  intros tid2 o2 Hne E. split; [by apply (inv_ops s I tid2)|by apply (Ha tid2)].
Qed.

Lemma apart_none o o' : push_ticket o = None -> pop_ticket o = None -> apart o o'.
Proof. by split. Qed.

(** Advancing [head] or [tail] keeps what the other threads know. *)
Lemma op_inv_mono h t es hist h' t' hist' o :
  h <= h' -> t <= t' -> hist `prefix_of` hist' ->
  op_inv (AQ h t es) hist o -> op_inv (AQ h' t' es) hist' o.
Proof.
  intros Hh Ht Hp.
  assert (P : forall i v, hist !! i = Some v -> hist' !! i = Some v) by eauto using prefix_lookup_Some.
  destruct o as [| | | | | | | | | | |[[x v]|]]; unfold aq_ent, aq_slot, aq_size; simpl;
    intuition eauto; lia.
Qed.

Lemma push_cas_inv s tid d x :
  sys_inv s -> s_ops s !! tid = Some (PushCas d x) -> aq_head (s_aq s) = x ->
  sys_inv (SysAq (AQ (x + 1) (aq_tail (s_aq s)) (aq_entry (s_aq s)))
             (<[tid := PushData d x]> (s_ops s)) (s_hist s ++ [d])).
Proof.
  intros I Eo Eh. pose proof (inv_ops s I tid _ Eo) as [Hx [?|Hs]]; [lia|].
  destruct (entry_free s x I Hs) as (F1 & F2 & F3). pose proof (inv_order s I) as Ho.
  pose proof (inv_hist s I) as Hh.
  assert (Hn : (s_hist s ++ [d]) !! Z.to_nat x = Some d)
    by (rewrite lookup_app_r by lia; replace (_ - _)%nat with 0%nat by lia; done).
  apply sys_inv_run; cbn [aq_head aq_tail aq_entry]; try done.
  - apply I.
  - lia.
  - rewrite length_app. simpl. lia.
  - intros i Hi. destruct (inv_entries s I i Hi) as (T & H0 & Hm & H1 & H2 & Hc).
    exists T. split_and!; [done..| |].
    + destruct (decide (x = T + n)) as [->|]; [|lia]. exfalso.
      assert (E : aq_ent (s_aq s) (T + n) = aq_entry (s_aq s) !!! Z.to_nat i).
      { rewrite ent_at by done. replace (T + n) with (T + 1 * n) by lia.
        by rewrite Z.mod_add, Hm by lia. }
      rewrite E in Hs. destruct Hc as [[Hc _]|[Hc _]]; lia.
    + destruct Hc as [Hc|(Hc1 & Hc2 & Hc3 & Hc4)]; [by left|right]. split_and!; [lia..|].
      rewrite lookup_app_l; [done|]. by apply lookup_lt_Some in Hc4.
  - cbn [op_inv aq_head]. split_and!; [lia..|done|]. done.
  - intros tid2 o2 Hne E2. pose proof (inv_ops s I tid2 _ E2) as H2. split.
    + destruct (s_aq s) as [h t es]. eapply op_inv_mono, H2; [simpl in *; lia|simpl; lia|by eexists].
    + split; [|done]. destruct o2; simpl; try done; intros [= ->]; destruct H2; lia.
Qed.

Lemma pop_cas_inv s tid x :
  sys_inv s -> s_ops s !! tid = Some (PopCas x) -> aq_tail (s_aq s) = x ->
  sys_inv (SysAq (AQ (aq_head (s_aq s)) (x + 1) (aq_entry (s_aq s)))
             (<[tid := PopData x]> (s_ops s)) (s_hist s)).
Proof.
  intros I Eo Eh. pose proof (inv_ops s I tid _ Eo) as [Hx [?|Hs]]; [lia|].
  destruct (entry_full s x I Hs) as (F1 & F2 & F3 & F4 & F5). pose proof (inv_order s I) as Ho.
  apply sys_inv_run; cbn [aq_head aq_tail aq_entry]; try done; try apply I.
  - lia.
  - intros i Hi. destruct (inv_entries s I i Hi) as (T & H0 & Hm & H1 & H2 & Hc).
    exists T. split_and!; [done|done|lia|done|].
    destruct Hc as [[Hc1 Hc2]|(Hc1 & Hc2 & Hc3 & Hc4)]; [left|right; split_and!; [done..|lia|done]].
    split; [done|]. destruct (decide (x = T)) as [->|]; [|lia]. exfalso.
    rewrite ent_at, Hm in Hs by done. lia.
  - cbn [op_inv aq_tail]. split_and!; [lia..|]. done.
  - intros tid2 o2 Hne E2. pose proof (inv_ops s I tid2 _ E2) as H2. split.
    + destruct (s_aq s) as [h t es]. eapply op_inv_mono, H2; [done|simpl in *; lia|done].
    + split; [done|]. destruct o2 as [| | | | | | | | |y|y w|[[y w]|]]; simpl; try done; intros [= ->]; destruct H2; lia.
Qed.

Lemma aq_ent_set s x e y :
  sys_inv s ->
  aq_ent (aq_set (s_aq s) x e) y =
  if decide (y mod n = x mod n) then e else aq_ent (s_aq s) y.
Proof.
  intros I. pose proof (inv_size s I) as Hl. unfold aq_set, aq_ent, aq_slot, aq_size.
  cbn [aq_entry]. rewrite length_insert, Hl. pose proof (mod_range x). pose proof (mod_range y).
  case_decide as Hd.
  - rewrite Hd, list_lookup_total_insert, decide_True; [done|]. split; [done|lia].
  - apply list_lookup_total_insert_ne. lia.
Qed.

(** A step that writes one entry: the entry's own invariant, and that the other threads
    do not depend on what changed. *)
Lemma sys_inv_set s tid x e o' :
  sys_inv s -> let aq' := aq_set (s_aq s) x e in
  entry_inv (aq_head (s_aq s)) (aq_tail (s_aq s)) (s_hist s) (x mod n) e ->
  op_inv aq' (s_hist s) o' ->
  (forall tid2 o2, tid <> tid2 -> s_ops s !! tid2 = Some o2 ->
     op_inv aq' (s_hist s) o2 /\ apart o' o2) ->
  sys_inv (SysAq aq' (<[tid := o']> (s_ops s)) (s_hist s)).
Proof.
  intros I aq' He Ho Hr. apply sys_inv_run; try done; try apply I.
  - unfold aq', aq_set. cbn [aq_entry]. rewrite length_insert. apply I.
  - intros i Hi. pose proof (aq_ent_set s x e i I) as E. unfold aq_set, aq_ent, aq_slot, aq_size in E.
    cbn [aq_entry] in E. rewrite length_insert, (inv_size s I), (Z.mod_small i) in E by done.
    unfold aq', aq_set, aq_slot, aq_size. cbn [aq_entry aq_head aq_tail].
    rewrite (inv_size s I), E. case_decide as Hd; [by rewrite Hd|]. by apply (inv_entries s I).
Qed.

(** The other threads' knowledge when the sequence number of the entry is not touched. *)
Lemma op_inv_set_data s x d o :
  sys_inv s -> aq_seq (aq_ent (s_aq s) x) = x -> push_ticket o <> Some x ->
  op_inv (s_aq s) (s_hist s) o ->
  op_inv (aq_set (s_aq s) x (AqEntry x d)) (s_hist s) o.
Proof.
  intros I Hs Ha.
  assert (Heq : forall y, aq_seq (aq_ent (aq_set (s_aq s) x (AqEntry x d)) y) = aq_seq (aq_ent (s_aq s) y)).
  { intros y. rewrite aq_ent_set by done. case_decide as Hd; [|done].
    rewrite <- Hs at 1. rewrite !ent_at, Hd by done. done. }
  destruct o as [| | |d' y|d' y| | | | | | |[[y v]|]]; cbn [op_inv]; rewrite ?Heq; try done.
  intros (Hy & Hh & He). split_and!; try done; try apply Hy. rewrite aq_ent_set by done.
  case_decide as Hd; [|done]. exfalso. apply Ha. simpl.
  rewrite ent_at, <- Hd, <- ent_at, He in Hs by done. simpl in Hs. by subst.
Qed.

(** When a sequence number [q] that belongs to a ticket [x] already taken is replaced. *)
Lemma op_inv_set_seq s x e o :
  sys_inv s -> 
  (aq_seq (aq_ent (s_aq s) x) = x /\ x < aq_head (s_aq s) /\ push_ticket o <> Some x) \/
  (aq_seq (aq_ent (s_aq s) x) = x + 1 /\ x < aq_tail (s_aq s) /\ pop_ticket o <> Some x) ->
  op_inv (s_aq s) (s_hist s) o -> op_inv (aq_set (s_aq s) x e) (s_hist s) o.
Proof.
  intros I Hc.
  assert (Hsame : forall y, y mod n = x mod n -> aq_ent (s_aq s) y = aq_ent (s_aq s) x)
    by (intros y E; rewrite !ent_at, E by done; done).
  assert (Hfree : forall y, y mod n = x mod n -> aq_seq (aq_ent (s_aq s) y) = y ->
    y = x /\ x < aq_head (s_aq s) /\ push_ticket o <> Some x).
  { intros y Em Ey. rewrite Hsame in Ey by done. destruct Hc as [(E & ? & ?)|(E & _)]; [split; [lia|done]|].
    destruct (mod_succ_ne x). rewrite <- Em. f_equal. lia. }
  assert (Hfull : forall y, y mod n = x mod n -> aq_seq (aq_ent (s_aq s) y) = y + 1 ->
    y = x /\ x < aq_tail (s_aq s) /\ pop_ticket o <> Some x).
  { intros y Em Ey. rewrite Hsame in Ey by done. destruct Hc as [(E & _)|(E & ? & ?)]; [|split; [lia|done]].
    destruct (mod_succ_ne y). rewrite Em. f_equal. lia. }
  destruct o as [| |d' y|d' y|d' y| | |y|y|y|y v|[[y v]|]]; cbn [op_inv aq_set aq_head aq_tail];
    try done; fold (aq_set (s_aq s) x e); rewrite ?aq_ent_set by done; case_decide as Hd; try done.
  - intros [Hy [?|E]]; (split; [done|left]); [done|]. destruct (Hfree y Hd E) as (-> & ? & _). lia.
  - intros (Hy & Hh & E). by destruct (Hfree y Hd E) as (-> & _ & []).
  - intros (Hy & Hh & E). destruct (Hfree y Hd) as (-> & _ & []); [by rewrite E|done].
  - intros [Hy [?|E]]; (split; [done|left]); [done|]. destruct (Hfull y Hd E) as (-> & ? & _). lia.
  - intros (Hy & E). by destruct (Hfull y Hd E) as (-> & _ & []).
  - intros (Hy & E & Hh). by destruct (Hfull y Hd E) as (-> & _ & []).
Qed.

Lemma others_push s tid o x tid2 o2 :
  sys_inv s -> s_ops s !! tid = Some o -> push_ticket o = Some x ->
  tid <> tid2 -> s_ops s !! tid2 = Some o2 -> push_ticket o2 <> Some x.
Proof. intros I E Et Hne E2 E3. destruct (inv_apart s I _ _ _ _ Hne E E2) as [H _]. rewrite H in Et; congruence. Qed.

Lemma others_pop s tid o x tid2 o2 :
  sys_inv s -> s_ops s !! tid = Some o -> pop_ticket o = Some x ->
  tid <> tid2 -> s_ops s !! tid2 = Some o2 -> pop_ticket o2 <> Some x.
Proof. intros I E Et Hne E2 E3. destruct (inv_apart s I _ _ _ _ Hne E E2) as [_ H]. rewrite H in Et; congruence. Qed.

Lemma push_data_inv s tid d x :
  sys_inv s -> s_ops s !! tid = Some (PushData d x) ->
  sys_inv (SysAq (aq_set (s_aq s) x (AqEntry (aq_seq (aq_ent (s_aq s) x)) d))
             (<[tid := PushStore d x]> (s_ops s)) (s_hist s)).
Proof.
  intros I Eo. pose proof (inv_ops s I tid _ Eo) as (Hx & Hh & Hs). rewrite Hs.
  destruct (entry_free s x I Hs) as (F1 & F2 & F3). apply sys_inv_set; try done.
  - exists x. split_and!; [lia|done|lia|lia|]. left. simpl. lia.
  - cbn [op_inv]. rewrite aq_ent_set, decide_True by done. split; [exact Hx|done].
  - intros tid2 o2 Hne E2. pose proof (others_push s tid _ x tid2 o2 I Eo eq_refl Hne E2) as Hp.
    split; [by apply op_inv_set_data, (inv_ops s I tid2)|]. split; [|done]. intros E; destruct Hp; by rewrite <- E.
Qed.

Lemma push_store_inv s tid d x :
  sys_inv s -> s_ops s !! tid = Some (PushStore d x) ->
  sys_inv (SysAq (aq_set (s_aq s) x (AqEntry (x + 1) (aq_data (aq_ent (s_aq s) x))))
             (<[tid := PushDone true]> (s_ops s)) (s_hist s)).
Proof.
  intros I Eo. pose proof (inv_ops s I tid _ Eo) as (Hx & Hh & He). rewrite He.
  assert (Hs : aq_seq (aq_ent (s_aq s) x) = x) by by rewrite He.
  destruct (entry_free s x I Hs) as (F1 & F2 & F3). apply sys_inv_set; try done.
  - exists x. split_and!; [lia|done|lia|lia|]. right. simpl. split_and!; [lia..|done].
  - intros tid2 o2 Hne E2. pose proof (others_push s tid _ x tid2 o2 I Eo eq_refl Hne E2) as Hp.
    split; [|by apply apart_none]. apply op_inv_set_seq; [done| |by apply (inv_ops s I tid2)].
    left. split_and!; [done|lia|done].
Qed.

Lemma pop_store_inv s tid x v :
  sys_inv s -> s_ops s !! tid = Some (PopStore x v) ->
  sys_inv (SysAq (aq_set (s_aq s) x (AqEntry (x + aq_size (s_aq s)) (aq_data (aq_ent (s_aq s) x))))
             (<[tid := PopDone (Some (x, v))]> (s_ops s)) (s_hist s)).
Proof.
  intros I Eo. pose proof (inv_ops s I tid _ Eo) as (Hx & Hs & Hh).
  assert (aq_size (s_aq s) = n) as -> by (unfold aq_size; by rewrite (inv_size s I)).
  destruct (entry_full s x I Hs) as (F1 & F2 & F3 & F4 & F5). apply sys_inv_set; try done.
  - exists (x + n). split_and!; [lia| |lia|lia|].
    + replace (x + n) with (x + 1 * n) by lia. by rewrite Z.mod_add by lia.
    + left. simpl. lia.
  - intros tid2 o2 Hne E2. pose proof (others_pop s tid _ x tid2 o2 I Eo eq_refl Hne E2) as Hp.
    split; [|split; [done|intros E; destruct Hp; by rewrite <- E]].
    apply op_inv_set_seq; [done| |by apply (inv_ops s I tid2)]. right. split_and!; [done|lia|done].
Qed.

Lemma pop_data_inv s tid x :
  sys_inv s -> s_ops s !! tid = Some (PopData x) ->
  sys_inv (SysAq (s_aq s) (<[tid := PopStore x (aq_data (aq_ent (s_aq s) x))]> (s_ops s)) (s_hist s)).
Proof.
  intros I Eo. pose proof (inv_ops s I tid _ Eo) as (Hx & Hs).
  apply sys_inv_local; [done| |].
  - cbn [op_inv]. split_and!; try done; try apply Hx. by apply entry_full.
  - intros tid2 o2 Hne E2. pose proof (others_pop s tid _ x tid2 o2 I Eo eq_refl Hne E2) as Hp.
    split; [done|]. intros E; destruct Hp; by rewrite <- E.
Qed.

Lemma call_inv s o d :
  o = fr_atomic_queue_push d \/ o = fr_atomic_queue_pop d ->
  op_inv (s_aq s) (s_hist s) o /\ push_ticket o = None /\ pop_ticket o = None.
Proof.
  unfold fr_atomic_queue_push, fr_atomic_queue_pop. intros [-> | ->]; case_decide; by split_and!.
Qed.

Lemma sys_inv_step s ev s' : sys_inv s -> sys_step s ev s' -> sys_inv s'.
Proof.
  intros I St. destruct St as [s0 tid o _ [d Hc]|s0 tid o aq' o' Eo Es].
  { destruct (call_inv s0 o d Hc) as (Hi & H1 & H2).
    apply sys_inv_local; [done..|]. intros. by apply apart_none. }
  pose proof (inv_order s0 I) as Ho. pose proof (inv_ops s0 I tid o Eo) as Hi.
  destruct o as [d|d x|d x|d x|d x|b| |x|x|x|x v|r]; cbn [op_step] in Es; cbn [op_inv] in Hi;
    repeat (case_decide; [|]); try done; injection Es as <- <-; cbn [step_event hist_after].
  all: try (apply sys_inv_local; [done|cbn [op_inv]; (lia || done)|by intros; apply apart_none]).
  - subst x. by apply push_cas_inv.
  - by apply push_data_inv.
  - by eapply push_store_inv.
  - subst x. by apply pop_cas_inv.
  - by apply pop_data_inv.
  - by apply pop_store_inv.
Qed.

Lemma reachable_inv s : reachable size s -> sys_inv s.
Proof.
  intros H. induction H as [aq E|s ev s' _ IH St]; [by apply sys_inv_init|by eapply sys_inv_step].
Qed.

(** ** Refinement *)

(** The pointers between [tail] and [head]. *)
Lemma abs_queue_length s :
  sys_inv s -> Z.of_nat (length (abs_queue s)) = aq_head (s_aq s) - aq_tail (s_aq s).
Proof.
  intros I. unfold abs_queue. rewrite length_drop. pose proof (inv_hist s I).
  pose proof (inv_order s I). lia.
Qed.

Lemma push_cas_room s tid d x :
  sys_inv s -> s_ops s !! tid = Some (PushCas d x) -> aq_head (s_aq s) = x ->
  (length (abs_queue s) < size)%nat.
Proof.
  intros I Eo Eh. pose proof (inv_ops s I tid _ Eo) as [Hx [?|Hs]]; [lia|].
  destruct (entry_free s x I Hs) as (F1 & F2 & F3). pose proof (abs_queue_length s I). lia.
Qed.

Lemma pop_cas_head s tid x :
  sys_inv s -> s_ops s !! tid = Some (PopCas x) -> aq_tail (s_aq s) = x ->
  abs_queue s = (s_hist s !!! Z.to_nat x) :: drop (Z.to_nat (x + 1)) (s_hist s).
Proof.
  intros I Eo Eh. pose proof (inv_ops s I tid _ Eo) as [Hx [?|Hs]]; [lia|].
  destruct (entry_full s x I Hs) as (F1 & F2 & F3 & F4 & F5). unfold abs_queue.
  rewrite Eh, (list_lookup_total_correct _ _ _ F5).
  replace (Z.to_nat (x + 1)) with (S (Z.to_nat x)) by lia. by apply drop_S.
Qed.

Lemma step_refines s ev s' :
  sys_inv s -> sys_step s ev s' -> fifo_step size (abs_queue s) ev (abs_queue s').
Proof.
  intros I St. destruct St as [s0 tid o _ _|s0 tid o aq' o' Eo Es]; [apply fifo_tau|].
  pose proof (inv_order s0 I) as Ho. pose proof (inv_hist s0 I) as Hh.
  destruct o as [d|d x|d x|d x|d x|b| |x|x|x|x v|r]; cbn [op_step] in Es;
    repeat (case_decide; [|]); try done; injection Es as <- <-; cbn [step_event hist_after];
    try apply fifo_tau.
  - replace (abs_queue (SysAq _ _ _)) with (abs_queue s0 ++ [d]).
    + apply fifo_push. by eapply push_cas_room.
    + unfold abs_queue. cbn [s_aq s_hist aq_tail]. rewrite drop_app_le; [done|lia].
  - rewrite (pop_cas_head s0 tid x) by done. unfold abs_queue at 1. apply fifo_pop.
Qed.

(** ** Progress *)

Lemma run_alone_step fuel aq o aq' o' :
  op_step aq o = Some (aq', o') -> run_alone (S fuel) aq o = run_alone fuel aq' o'.
Proof. intros E. cbn [run_alone]. by rewrite E. Qed.

Lemma run_alone_done fuel aq o : finished o -> run_alone fuel aq o = (aq, o).
Proof. intros (b & r & [-> | ->]); by destruct fuel. Qed.

(** At the entry of the current head: done, or a ticket. *)
Lemma push_seq_alone s d :
  sys_inv s -> finished (snd (run_alone 4 (s_aq s) (PushSeq d (aq_head (s_aq s))))).
Proof.
  intros I. pose proof (head_entry s I) as Hh. cbn [run_alone op_step].
  case_decide; [eexists _, None; by left|]. rewrite decide_False by lia. cbn [op_step].
  rewrite decide_True by done. cbn [op_step]. eexists _, None; by left.
Qed.

Lemma pop_seq_alone s :
  sys_inv s -> finished (snd (run_alone 4 (s_aq s) (PopSeq (aq_tail (s_aq s))))).
Proof.
  intros I. pose proof (tail_entry s I) as Hh. cbn [run_alone op_step].
  case_decide; [eexists false, _; by right|]. rewrite decide_False by lia. cbn [op_step].
  rewrite decide_True by done. cbn [op_step]. eexists false, _; by right.
Qed.

Lemma run_alone_more k fuel aq o :
  finished (snd (run_alone fuel aq o)) -> finished (snd (run_alone (k + fuel) aq o)).
Proof.
  revert aq o. induction fuel as [|fuel IH]; intros aq o H.
  - cbn [run_alone snd] in H. by rewrite run_alone_done.
  - rewrite Nat.add_succ_r. cbn [run_alone] in *.
    destruct (op_step aq o) as [[aq' o']|]; [by apply IH|done].
Qed.

(** From each program point: the number of accesses that is enough. *)
Lemma push_alone s d x :
  sys_inv s ->
  finished (snd (run_alone 5 (s_aq s) (PushLoad d))) /\
  finished (snd (run_alone 5 (s_aq s) (PushCas d x))) /\
  finished (snd (run_alone 6 (s_aq s) (PushSeq d x))).
Proof.
  intros I. pose proof (push_seq_alone s d I) as Hs.
  assert (Hc : finished (snd (run_alone 5 (s_aq s) (PushCas d x)))).
  { cbn [run_alone op_step]. case_decide; [alone_done|exact Hs]. }
  split_and!; [exact Hs|exact Hc|].
  destruct (op_step (s_aq s) (PushSeq d x)) as [[aq' o']|] eqn:E; [|by cbn [op_step] in E; repeat case_decide].
  rewrite (run_alone_step _ _ _ _ _ E). cbn [op_step] in E.
  do 2 (case_decide; [injection E as <- <-; first [alone_done|exact Hs]|]). by injection E as <- <-.
Qed.

Lemma pop_alone s x :
  sys_inv s ->
  finished (snd (run_alone 5 (s_aq s) PopLoad)) /\
  finished (snd (run_alone 5 (s_aq s) (PopCas x))) /\
  finished (snd (run_alone 6 (s_aq s) (PopSeq x))).
Proof.
  intros I. pose proof (pop_seq_alone s I) as Hs.
  assert (Hc : finished (snd (run_alone 5 (s_aq s) (PopCas x)))).
  { cbn [run_alone op_step]. case_decide; [alone_done|exact Hs]. }
  split_and!; [exact Hs|exact Hc|].
  destruct (op_step (s_aq s) (PopSeq x)) as [[aq' o']|] eqn:E; [|by cbn [op_step] in E; repeat case_decide].
  rewrite (run_alone_step _ _ _ _ _ E). cbn [op_step] in E.
  do 2 (case_decide; [injection E as <- <-; first [alone_done|exact Hs]|]). by injection E as <- <-.
Qed.
End Invariant.

(** C4: each step of any interleaving of pushes and pops is a step of a FIFO queue bounded
    by the allocated size: a push takes effect when it advances [head] and never beyond the
    capacity, a pop when it advances [tail], and it takes the oldest pointer. *)
Theorem atomic_queue_refines (size : nat) s ev s' :
  (2 <= size)%nat -> reachable size s -> sys_step s ev s' ->
  fifo_step size (abs_queue s) ev (abs_queue s').
Proof. intros Hs R St. eapply step_refines; [done|by apply reachable_inv|done]. Qed.

(** C31: a call that runs without interference from a reachable state, whatever the other
    threads have left half done, returns within six accesses to the shared memory. *)
Theorem atomic_queue_solo (size : nat) s tid o :
  (2 <= size)%nat -> reachable size s -> s_ops s !! tid = Some o ->
  finished (snd (run_alone 6 (s_aq s) o)).
Proof.
  intros Hs R Eo. pose proof (reachable_inv size Hs s R) as I.
  destruct o as [d|d x|d x|d x|d x|b| |x|x|x|x v|r].
  1: apply (run_alone_more 1), (push_alone size Hs s d 0 I).
  1: apply (push_alone size Hs s d x I).
  1: apply (run_alone_more 1), (push_alone size Hs s d x I).
  4: apply (run_alone_more 1), (pop_alone size Hs s 0 I).
  4: apply (pop_alone size Hs s x I).
  4: apply (run_alone_more 1), (pop_alone size Hs s x I).
  all: cbn [run_alone op_step]; alone_done.
Qed.

(** C30: a pop that has returned a pointer returned the one whose push has the same ticket,
    and two threads never hold the result of the same push. *)
Theorem atomic_queue_pop_value (size : nat) s tid x v :
  (2 <= size)%nat -> reachable size s -> s_ops s !! tid = Some (PopDone (Some (x, v))) ->
  s_hist s !! Z.to_nat x = Some v /\
  forall tid' x' v', tid <> tid' -> s_ops s !! tid' = Some (PopDone (Some (x', v'))) -> x <> x'.
Proof.
  intros Hs R Eo. pose proof (reachable_inv size Hs s R) as I. split.
  - apply (inv_ops size s I tid _ Eo).
  - intros tid' x' v' Hne E ->. by destruct (inv_apart size s I _ _ _ _ Hne Eo E) as [_ H]; discriminate H.
Qed.

(** ** Schedules *)

Inductive action := ActPush (tid : nat) (d : Z) | ActPop (tid : nat) (p : Z) | ActRun (tid : nat).

Definition idle (s : sys) (tid : nat) : bool :=
  match s_ops s !! tid with
  | None | Some (PushDone _) | Some (PopDone _) => true
  | _ => false
  end.

Definition sys_call_op (s : sys) (tid : nat) (o : op) : option sys :=
  if idle s tid then Some (SysAq (s_aq s) (<[tid := o]> (s_ops s)) (s_hist s)) else None.

Definition sys_exec (s : sys) (a : action) : option sys :=
  match a with
  | ActPush tid d => sys_call_op s tid (fr_atomic_queue_push d)
  | ActPop tid p => sys_call_op s tid (fr_atomic_queue_pop p)
  | ActRun tid =>
      o ← s_ops s !! tid;
      '(aq', o') ← op_step (s_aq s) o;
      Some (SysAq aq' (<[tid := o']> (s_ops s)) (hist_after (s_hist s) (step_event s o o')))
  end.

Fixpoint sys_schedule (s : sys) (l : list action) : option sys :=
  match l with
  | [] => Some s
  | a :: l => s' ← sys_exec s a; sys_schedule s' l
  end.

Lemma sys_exec_step s a s' : sys_exec s a = Some s' -> exists ev, sys_step s ev s'.
Proof.
  destruct a as [tid d|tid p|tid]; cbn [sys_exec]; unfold sys_call_op, idle.
  1,2: intros E; exists EvTau; destruct (s_ops s !! tid) as [o|] eqn:Eo.
  1,3: destruct o; try done; injection E as <-; (apply sys_call; [|by eauto]);
    intros o0 [= <-]%(eq_trans (eq_sym Eo)); (alone_done || by eexists _, _; eauto).
  1,2: injection E as <-; apply sys_call; [|by eauto]; intros o0; by rewrite Eo.
  destruct (s_ops s !! tid) as [o|] eqn:Eo; [|done]. cbn [mbind option_bind].
  destruct (op_step (s_aq s) o) as [[aq' o']|] eqn:Es; [|done]. intros [= <-].
  eexists. by apply sys_run.
Qed.

Lemma sys_exec_run s tid o aq' o' s' ev :
  s_ops s !! tid = Some o -> op_step (s_aq s) o = Some (aq', o') ->
  sys_exec s (ActRun tid) = Some s' -> step_event s o o' = ev -> sys_step s ev s'.
Proof.
  intros Eo Es E <-. cbn [sys_exec] in E. rewrite Eo in E. cbn [mbind option_bind] in E.
  rewrite Es in E. injection E as <-. by apply sys_run.
Qed.

Lemma sys_schedule_reachable size s l s' :
  reachable size s -> sys_schedule s l = Some s' -> reachable size s'.
Proof.
  revert s. induction l as [|a l IH]; intros s R; cbn [sys_schedule]; [by intros [= <-]|].
  destruct (sys_exec s a) as [s1|] eqn:E; [|done]. cbn [mbind option_bind]. apply IH.
  destruct (sys_exec_step s a s1 E) as [ev St]. by eapply reach_step.
Qed.

(** The run of a schedule from a fresh queue. *)
Definition aq_run (size : nat) (l : list action) : option sys :=
  aq ← fr_atomic_queue_alloc size; sys_schedule (SysAq aq ∅ []) l.

Lemma aq_run_reachable size l s : aq_run size l = Some s -> reachable size s.
Proof.
  unfold aq_run. destruct (fr_atomic_queue_alloc size) as [aq|] eqn:E; [|done].
  apply sys_schedule_reachable. by apply reach_init.
Qed.

(** Two pushes under way at once, the second finishing first. *)
Definition race : list action :=
  [ActPush 1 7; ActPush 2 8] ++ replicate 2 (ActRun 1) ++ replicate 2 (ActRun 2) ++
  [ActRun 1] ++ replicate 5 (ActRun 2) ++ replicate 2 (ActRun 1).

Lemma atomic_queue_refines_witness :
  match aq_run 2 (race ++ [ActPop 3 1; ActRun 3; ActRun 3]) with
  | Some s => match sys_exec s (ActRun 3) with
              | Some s' => fifo_step 2 (abs_queue s) (EvPop 7) (abs_queue s')
              | None => False
              end
  | None => False
  end.
Proof.
  destruct (aq_run 2 (race ++ [ActPop 3 1; ActRun 3; ActRun 3])) as [s|] eqn:E;
    [|vm_compute in E; discriminate E].
  pose proof (aq_run_reachable _ _ _ E) as R. vm_compute in E. injection E as <-.
  destruct (sys_exec _ _) as [s'|] eqn:E'; [|vm_compute in E'; discriminate E'].
  apply (atomic_queue_refines 2); [lia|exact R|].
  eapply (sys_exec_run _ 3 (PopCas 0)); [reflexivity|reflexivity|exact E'|reflexivity].
Defined.

Lemma atomic_queue_solo_witness :
  match aq_run 2 (take 9 race) with
  | Some s => exists o, s_ops s !! 2%nat = Some o /\ finished (snd (run_alone 6 (s_aq s) o))
  | None => False
  end.
Proof.
  destruct (aq_run 2 (take 9 race)) as [s|] eqn:E; [|vm_compute in E; discriminate E].
  pose proof (aq_run_reachable _ _ _ E) as R. vm_compute in E. injection E as <-.
  eexists. split; [reflexivity|].
  apply (atomic_queue_solo 2 _ 2); [lia|exact R|reflexivity].
Defined.

Lemma atomic_queue_pop_value_witness :
  match aq_run 2 (race ++ ActPop 3 1 :: replicate 5 (ActRun 3)) with
  | Some s => s_hist s !! 0%nat = Some 7
  | None => False
  end.
Proof.
  destruct (aq_run 2 _) as [s|] eqn:E; [|vm_compute in E; discriminate E].
  pose proof (aq_run_reachable _ _ _ E) as R. vm_compute in E. injection E as <-.
  apply (atomic_queue_pop_value 2 _ 3 0 7); [lia|exact R|reflexivity].
Defined.

(** ** A queue of one entry *)

Definition one_entry : list action :=
  ActPush 1 7 :: replicate 5 (ActRun 1) ++ ActPush 2 8 :: replicate 5 (ActRun 2).

(** The sequence number after the first push equals the next ticket, so the entry looks
    free: [fr_atomic_queue_alloc] accepts a size of one, yet such a queue takes two pointers,
    the second over the first, and a pop afterwards never returns. *)
Theorem atomic_queue_size_one :
  exists s, aq_run 1 one_entry = Some s /\ reachable 1 s /\
    s_ops s !! 1%nat = Some (PushDone true) /\ s_ops s !! 2%nat = Some (PushDone true) /\
    aq_entry (s_aq s) = [AqEntry 2 8] /\
    forall fuel, ~ finished (snd (run_alone fuel (s_aq s) (fr_atomic_queue_pop 1))).
Proof.
  destruct (aq_run 1 one_entry) as [s|] eqn:E; [|vm_compute in E; discriminate E].
  exists s. split; [done|]. split; [by eapply aq_run_reachable|].
  vm_compute in E. injection E as <-. split_and!; try reflexivity.
  assert (N : forall x, ~ finished PopLoad /\ ~ finished (PopSeq x))
    by (intros x; split; intros (b & r & [H|H]); discriminate H).
  intros fuel. change (fr_atomic_queue_pop 1) with PopLoad.
  enough (H : ~ finished (snd (run_alone fuel (AQ 2 0 [AqEntry 2 8]) PopLoad)) /\
              ~ finished (snd (run_alone fuel (AQ 2 0 [AqEntry 2 8]) (PopSeq 0)))) by apply H.
  induction fuel as [|fuel [IH1 IH2]]; [apply N|]. split.
  - exact IH2.
  - exact IH1.
Qed.
