(* ===== verification/Uint128.v ===== *)
(** * Software 128-bit integers: [lib/util/uint128.h]

    The functions used on platforms whose compiler has no 128-bit type.  The
    reference is arithmetic on the value [2^64 * h + l] modulo [2^128], which is what
    the macros of the other branch of the header give. *)
From S2P Require Import Prelude Bytes.

Record uint128_t := U128 { hi : Z; lo : Z }.

(** The fields are 64-bit, and the value they stand for. *)
Definition u128_ok (a : uint128_t) : Prop := 0 <= hi a < 2 ^ 64 /\ 0 <= lo a < 2 ^ 64.
Definition u128_val (a : uint128_t) : Z := 2 ^ 64 * hi a + lo a.

(** Shifts of a [uint64_t]; the C result is defined for [0 <= s < 64]. *)
Definition shl64 (x s : Z) : Z := u64 (Z.shiftl x s).
Definition shr64 (x s : Z) : Z := Z.shiftr x s.

Definition uint128_gen_mask (bits : Z) : uint128_t :=
  if decide (bits > 64) then
    let h := shl64 1 (bits - 64) in
    U128 (Z.lxor h (u64 (h - 1))) 0xffffffffffffffff
  else
    let l := shl64 1 bits in
    U128 0 (Z.lxor l (u64 (l - 1))).

Definition uint128_increment (n : uint128_t) : uint128_t :=
  let t := u64 (lo n + 1) in
  U128 (u64 (hi n + shr64 (Z.land (Z.lxor (lo n) t) (lo n)) 63)) t.

Definition uint128_decrement (n : uint128_t) : uint128_t :=
  let t := u64 (lo n - 1) in
  U128 (u64 (hi n - shr64 (Z.land (Z.lxor t (lo n)) t) 63)) t.

Definition uint128_add (a b : uint128_t) : uint128_t :=
  let tmp := shr64 (u64 (u64 (Z.land (Z.land (lo a) (lo b)) 1 + shr64 (lo a) 1)
                         + shr64 (lo b) 1)) 63 in
  U128 (u64 (u64 (hi a + hi b) + tmp)) (u64 (lo a + lo b)).

Definition uint128_sub (a b : uint128_t) : uint128_t :=
  let l := u64 (lo a - lo b) in
  let c := shr64 (u64 (u64 (Z.land (Z.land l (lo b)) 1 + shr64 (lo b) 1) + shr64 l 1)) 63 in
  U128 (u64 (hi a - u64 (hi b + c))) l.

Definition uint128_mul64 (u v : Z) : uint128_t :=
  let u1 := Z.land u 0xffffffff in
  let v1 := Z.land v 0xffffffff in
  let t := u64 (u1 * v1) in
  let w3 := Z.land t 0xffffffff in
  let k := shr64 t 32 in
  let u := shr64 u 32 in
  let t := u64 (u64 (u * v1) + k) in
  let k := Z.land t 0xffffffff in
  let w1 := shr64 t 32 in
  let v := shr64 v 32 in
  let t := u64 (u64 (u1 * v) + k) in
  let k := shr64 t 32 in
  U128 (u64 (u64 (u64 (u * v) + w1) + k)) (u64 (shl64 t 32 + w3)).

Definition uint128_mul (n m : uint128_t) : uint128_t :=
  let ret := uint128_mul64 (lo n) (lo m) in
  U128 (u64 (hi ret + u64 (u64 (hi n * lo m) + u64 (lo n * hi m)))) (lo ret).

(** For [bits >= 64] the low word is cleared before it is shifted into the high one. *)
Definition uint128_lshift (num : uint128_t) (bits : Z) : uint128_t :=
  if decide (bits >= 64) then
    let num := U128 (hi num) 0 in
    U128 (shl64 (lo num) (bits - 64)) (lo num)
  else
    U128 (Z.lor (shl64 (hi num) bits) (shr64 (lo num) (64 - bits))) (shl64 (lo num) bits).

Definition uint128_rshift (num : uint128_t) (bits : Z) : uint128_t :=
  if decide (bits >= 64) then
    let num := U128 0 (lo num) in
    U128 (hi num) (shr64 (hi num) (bits - 64))
  else
    U128 (shr64 (hi num) bits) (Z.lor (shr64 (lo num) bits) (shl64 (hi num) (64 - bits))).

Definition uint128_band (a b : uint128_t) : uint128_t :=
  U128 (Z.land (hi a) (hi b)) (Z.land (lo a) (lo b)).
Definition uint128_bor (a b : uint128_t) : uint128_t :=
  U128 (Z.lor (hi a) (hi b)) (Z.lor (lo a) (lo b)).
Definition uint128_eq (a b : uint128_t) : bool :=
  bool_decide (hi a = hi b) && bool_decide (lo a = lo b).
Definition uint128_gt (a b : uint128_t) : bool :=
  if decide (hi a < hi b) then false
  else if decide (hi a > hi b) then true
  else bool_decide (lo a > lo b).
Definition uint128_new (h l : Z) : uint128_t := U128 h l.
Definition uint128_to_64 (a : uint128_t) : Z := lo a.

(** ** Carries *)

Definition u128 (z : Z) : Z := z mod 2 ^ 128.

Lemma u128_val_range a : u128_ok a -> 0 <= u128_val a < 2 ^ 128.
Proof. unfold u128_ok, u128_val. lia. Qed.

(** Two 64-bit words that represent a number modulo [2^128]. *)
Lemma u128_intro h l v :
  0 <= l < 2 ^ 64 -> (exists q, h * 2 ^ 64 + l = v + q * 2 ^ 128) ->
  u128_ok (U128 (u64 h) l) /\ u128_val (U128 (u64 h) l) = u128 v.
Proof.
  intros Hl (q & Hq). pose proof (u64_range h). split; [by split|].
  unfold u128_val, u128. cbn [hi lo]. unfold u64 in *.
  pose proof (Z.div_mod h (2 ^ 64)).
  apply (Z.mod_unique_pos v (2 ^ 128) (h / 2 ^ 64 - q)); lia.
Qed.

(** The carry of a 64-bit addition, computed without overflow by the sum of the
    halves and the common low bit. *)
Lemma carry_value x y :
  0 <= x < 2 ^ 64 -> 0 <= y < 2 ^ 64 ->
  shr64 (u64 (u64 (Z.land (Z.land x y) 1 + shr64 x 1) + shr64 y 1)) 63 = (x + y) / 2 ^ 64.
Proof.
  intros Hx Hy. unfold shr64.
  assert (Hb : Z.land (Z.land x y) 1 = (x mod 2) * (y mod 2)).
  { change 1 with (Z.ones 1). rewrite <- Z.land_assoc, (Z.land_ones y) by lia.
    change (2 ^ 1) with 2. rewrite (Zmod_odd y). destruct (Z.odd y).
    - pose proof (Z.land_ones x 1) as E. change (Z.ones 1) with 1 in E. rewrite E by lia.
      change (2 ^ 1) with 2. lia.
    - rewrite Z.land_0_r. lia. }
  rewrite Hb, !Z.shiftr_div_pow2 by lia. change (2 ^ 1) with 2.
  assert (0 <= x mod 2 < 2) by (apply Z.mod_pos_bound; lia).
  assert (0 <= y mod 2 < 2) by (apply Z.mod_pos_bound; lia).
  assert (Hxy : (x mod 2) * (y mod 2) = 0 \/ (x mod 2) * (y mod 2) = 1) by nia.
  pose proof (Z.div_mod x 2). pose proof (Z.div_mod y 2).
  rewrite (u64_small (x mod 2 * (y mod 2) + x / 2)), u64_small by lia.
  assert (E : (x mod 2 * (y mod 2) + x / 2 + y / 2) = (x + y) / 2).
  { assert (x mod 2 = 0 \/ x mod 2 = 1) as [Ex|Ex] by lia;
      assert (y mod 2 = 0 \/ y mod 2 = 1) as [Ey|Ey] by lia;
      rewrite Ex, Ey; clear Hb Hxy; Z.to_euclidean_division_equations; lia. }
  rewrite E, Z.div_div by lia. done.
Qed.

Lemma u64_add_l x y : u64 (u64 x + y) = u64 (x + y).
Proof. unfold u64. apply Zplus_mod_idemp_l. Qed.
Lemma u64_add_r x y : u64 (x + u64 y) = u64 (x + y).
Proof. unfold u64. apply Zplus_mod_idemp_r. Qed.
Lemma u64_sub_r x y : u64 (x - u64 y) = u64 (x - y).
Proof. unfold u64. apply Zminus_mod_idemp_r. Qed.
Lemma u64_split z : z = 2 ^ 64 * (z / 2 ^ 64) + u64 z.
Proof. unfold u64. pose proof (Z.div_mod z (2 ^ 64)). lia. Qed.

Lemma uint128_add_ok a b :
  u128_ok a -> u128_ok b ->
  u128_ok (uint128_add a b) /\ u128_val (uint128_add a b) = u128 (u128_val a + u128_val b).
Proof.
  intros [Ha1 Ha2] [Hb1 Hb2]. unfold uint128_add. rewrite carry_value, u64_add_l by done.
  apply u128_intro; [apply u64_range|]. exists 0. unfold u128_val.
  pose proof (u64_split (lo a + lo b)). lia.
Qed.

Lemma uint128_sub_ok a b :
  u128_ok a -> u128_ok b ->
  u128_ok (uint128_sub a b) /\ u128_val (uint128_sub a b) = u128 (u128_val a - u128_val b).
Proof.
  intros [Ha1 Ha2] [Hb1 Hb2]. unfold uint128_sub.
  pose proof (u64_range (lo a - lo b)) as Hr.
  assert (Ec : forall x y, Z.land (Z.land x y) 1 = Z.land (Z.land y x) 1)
    by (intros; by rewrite (Z.land_comm x)).
  rewrite Ec, carry_value, u64_sub_r by done.
  apply u128_intro; [done|]. exists 0. unfold u128_val.
  assert (u64 (lo a - lo b) = lo a - lo b + 2 ^ 64 * ((lo b + u64 (lo a - lo b)) / 2 ^ 64)).
  { unfold u64. Z.to_euclidean_division_equations. lia. }
  lia.
Qed.

(** The bit trick of increment and decrement. *)
Lemma top_bit x : 0 <= x < 2 ^ 64 -> shr64 x 63 = if decide (2 ^ 63 <= x) then 1 else 0.
Proof.
  intros Hx. unfold shr64. rewrite Z.shiftr_div_pow2 by lia.
  case_decide; [|apply Z.div_small; lia].
  symmetry. apply (Z.div_unique_pos x (2 ^ 63) 1 (x - 2 ^ 63)); lia.
Qed.

Lemma testbit_63 x : 0 <= x < 2 ^ 64 -> Z.testbit x 63 = bool_decide (2 ^ 63 <= x).
Proof.
  intros Hx. pose proof (top_bit x Hx) as H. unfold shr64 in H.
  rewrite <- (Z.add_0_l 63), <- (Z.shiftr_spec x 63 0), H by lia.
  case_bool_decide; by case_decide.
Qed.

Lemma carry_bits x t :
  0 <= x < 2 ^ 64 -> 0 <= t < 2 ^ 64 ->
  shr64 (Z.land (Z.lxor x t) x) 63 = if decide (2 ^ 63 <= x /\ t < 2 ^ 63) then 1 else 0.
Proof.
  intros Hx Ht.
  assert (Hr : 0 <= Z.land (Z.lxor x t) x < 2 ^ 64).
  { rewrite Z.land_comm. apply land_range; [lia|done|]. apply Z.lxor_nonneg. lia. }
  rewrite top_bit by done. pose proof (testbit_63 _ Hr) as Hb.
  rewrite Z.land_spec, Z.lxor_spec, !testbit_63 in Hb by done.
  repeat case_decide; repeat case_bool_decide; simpl in *; try done; lia.
Qed.

Lemma uint128_increment_ok n :
  u128_ok n ->
  u128_ok (uint128_increment n) /\ u128_val (uint128_increment n) = u128 (u128_val n + 1).
Proof.
  intros [Hh Hl]. unfold uint128_increment. pose proof (u64_range (lo n + 1)) as Ht.
  rewrite carry_bits by done. apply u128_intro; [done|]. exists 0. unfold u128_val.
  destruct (decide (lo n = 2 ^ 64 - 1)) as [E|E].
  - rewrite E. change (u64 (2 ^ 64 - 1 + 1)) with 0. rewrite decide_True by lia. lia.
  - rewrite u64_small in * by lia. rewrite decide_False by lia. lia.
Qed.

Lemma uint128_decrement_ok n :
  u128_ok n ->
  u128_ok (uint128_decrement n) /\ u128_val (uint128_decrement n) = u128 (u128_val n - 1).
Proof.
  intros [Hh Hl]. unfold uint128_decrement. pose proof (u64_range (lo n - 1)) as Ht.
  rewrite carry_bits by done. apply u128_intro; [done|]. exists 0. unfold u128_val.
  destruct (decide (lo n = 0)) as [E|E].
  - rewrite E. change (u64 (0 - 1)) with (2 ^ 64 - 1). rewrite decide_True by lia. lia.
  - rewrite u64_small in * by lia. rewrite decide_False by lia. lia.
Qed.

(** ** Multiplication *)

Lemma low32 x : Z.land x 0xffffffff = x mod 2 ^ 32.
Proof. apply (Z.land_ones x 32). lia. Qed.

Lemma uint128_mul64_ok u v :
  0 <= u < 2 ^ 64 -> 0 <= v < 2 ^ 64 ->
  u128_ok (uint128_mul64 u v) /\ u128_val (uint128_mul64 u v) = u * v.
Proof.
  intros Hu Hv. unfold uint128_mul64, shr64, shl64. rewrite !low32.
  rewrite !Z.shiftr_div_pow2, Z.shiftl_mul_pow2 by lia.
  pose proof (Z.div_mod u (2 ^ 32)) as Eu. pose proof (Z.div_mod v (2 ^ 32)) as Ev.
  set (u1 := u mod 2 ^ 32) in *. set (v1 := v mod 2 ^ 32) in *.
  set (u2 := u / 2 ^ 32) in *. set (v2 := v / 2 ^ 32) in *.
  assert (0 <= u1 < 2 ^ 32) by (apply Z.mod_pos_bound; lia).
  assert (0 <= v1 < 2 ^ 32) by (apply Z.mod_pos_bound; lia).
  assert (0 <= u2 < 2 ^ 32) by (split; [apply Z.div_pos|apply Z.div_lt_upper_bound]; lia).
  assert (0 <= v2 < 2 ^ 32) by (split; [apply Z.div_pos|apply Z.div_lt_upper_bound]; lia).
  assert (Hp : forall a b, 0 <= a < 2 ^ 32 -> 0 <= b < 2 ^ 32 ->
    0 <= a * b <= 2 ^ 64 - 2 ^ 33 + 1) by (intros; nia).
  assert (P11 := Hp u1 v1 ltac:(lia) ltac:(lia)). assert (P21 := Hp u2 v1 ltac:(lia) ltac:(lia)).
  assert (P12 := Hp u1 v2 ltac:(lia) ltac:(lia)). assert (P22 := Hp u2 v2 ltac:(lia) ltac:(lia)).
  rewrite (u64_small (u1 * v1)), (u64_small (u2 * v1)), (u64_small (u1 * v2)),
    (u64_small (u2 * v2)) by lia.
  set (t1 := u1 * v1) in *. pose proof (Z.div_mod t1 (2 ^ 32)) as Et1.
  assert (R1 : 0 <= t1 mod 2 ^ 32 < 2 ^ 32) by (apply Z.mod_pos_bound; lia).
  set (k1 := t1 / 2 ^ 32) in *. set (w3 := t1 mod 2 ^ 32) in *.
  assert (K1 : 0 <= k1 < 2 ^ 32) by (split; [apply Z.div_pos|apply Z.div_lt_upper_bound]; lia).
  rewrite (u64_small (u2 * v1 + k1)) by lia.
  set (t2 := u2 * v1 + k1) in *. pose proof (Z.div_mod t2 (2 ^ 32)) as Et2.
  assert (R2 : 0 <= t2 mod 2 ^ 32 < 2 ^ 32) by (apply Z.mod_pos_bound; lia).
  set (k2 := t2 mod 2 ^ 32) in *. set (w1 := t2 / 2 ^ 32) in *.
  assert (W1 : 0 <= w1 < 2 ^ 32) by (split; [apply Z.div_pos|apply Z.div_lt_upper_bound]; lia).
  rewrite (u64_small (u1 * v2 + k2)) by lia.
  set (t3 := u1 * v2 + k2) in *. pose proof (Z.div_mod t3 (2 ^ 32)) as Et3.
  assert (R3 : 0 <= t3 mod 2 ^ 32 < 2 ^ 32) by (apply Z.mod_pos_bound; lia).
  set (k3 := t3 / 2 ^ 32) in *.
  assert (K3 : 0 <= k3 < 2 ^ 32) by (split; [apply Z.div_pos|apply Z.div_lt_upper_bound]; lia).
  assert (El : u64 (t3 * 2 ^ 32) = (t3 mod 2 ^ 32) * 2 ^ 32).
  { unfold u64. change (2 ^ 64) with (2 ^ 32 * 2 ^ 32). by rewrite Z.mul_mod_distr_r by lia. }
  rewrite El, (u64_small (_ * 2 ^ 32 + w3)) by lia.
  rewrite (u64_small (u2 * v2 + w1)), (u64_small (u2 * v2 + w1 + k3)) by lia.
  assert (E : u * v = 2 ^ 64 * (u2 * v2 + w1 + k3) + ((t3 mod 2 ^ 32) * 2 ^ 32 + w3)).
  { rewrite (Eu ltac:(lia)), (Ev ltac:(lia)). unfold t3, t2, t1 in *. nia. }
  unfold u128_ok, u128_val. cbn [hi lo]. rewrite E. repeat split; lia.
Qed.

Lemma uint128_mul_ok n m :
  u128_ok n -> u128_ok m ->
  u128_ok (uint128_mul n m) /\ u128_val (uint128_mul n m) = u128 (u128_val n * u128_val m).
Proof.
  intros [Hn1 Hn2] [Hm1 Hm2]. unfold uint128_mul.
  destruct (uint128_mul64_ok (lo n) (lo m)) as [[Hh Hl] Hv]; [done..|].
  unfold u128_val at 1 in Hv. rewrite u64_add_l, (u64_add_r (hi n * lo m)), u64_add_r.
  apply u128_intro; [done|]. exists (- (hi n * hi m)). unfold u128_val.
  change (2 ^ 128) with (2 ^ 64 * 2 ^ 64). lia.
Qed.

(** ** Shifts and comparison *)

Lemma uint128_lshift_ok n bits :
  u128_ok n -> 0 < bits < 64 ->
  u128_ok (uint128_lshift n bits) /\
  u128_val (uint128_lshift n bits) = u128 (Z.shiftl (u128_val n) bits).
Proof.
  intros [Hh Hl] Hb. unfold uint128_lshift. rewrite decide_False by lia. unfold shl64, shr64.
  assert (Hp : 2 ^ bits * 2 ^ (64 - bits) = 2 ^ 64) by (rewrite <- Z.pow_add_r by lia; f_equal; lia).
  assert (0 < 2 ^ bits) by (apply Z.pow_pos_nonneg; lia).
  assert (0 < 2 ^ (64 - bits)) by (apply Z.pow_pos_nonneg; lia).
  rewrite !Z.shiftl_mul_pow2, Z.shiftr_div_pow2 by lia.
  set (c := lo n / 2 ^ (64 - bits)).
  assert (Hc : 0 <= c < 2 ^ bits)
    by (split; [apply Z.div_pos|apply Z.div_lt_upper_bound]; lia).
  assert (Eh : u64 (hi n * 2 ^ bits) = Z.shiftl (hi n mod 2 ^ (64 - bits)) bits).
  { rewrite Z.shiftl_mul_pow2 by lia. unfold u64. rewrite <- Hp, (Z.mul_comm (2 ^ bits)).
    by rewrite Z.mul_mod_distr_r by lia. }
  rewrite Eh, lor_shiftl_add by lia.
  assert (Hm : 0 <= hi n mod 2 ^ (64 - bits) < 2 ^ (64 - bits)) by (apply Z.mod_pos_bound; lia).
  set (h := hi n mod 2 ^ (64 - bits) * 2 ^ bits + c).
  rewrite <- (u64_small h) by (unfold h; nia).
  apply u128_intro; [apply u64_range|]. exists (- (hi n / 2 ^ (64 - bits))).
  assert (Ec : (lo n * 2 ^ bits) / 2 ^ 64 = c).
  { rewrite <- Hp, Z.mul_comm. by rewrite Z.div_mul_cancel_l by lia. }
  pose proof (u64_split (lo n * 2 ^ bits)) as El. rewrite Ec in El.
  pose proof (Z.div_mod (hi n) (2 ^ (64 - bits))) as Eq. unfold u128_val, h.
  change (2 ^ 128) with (2 ^ 64 * 2 ^ 64).
  set (q := hi n / 2 ^ (64 - bits)) in *. set (r := hi n mod 2 ^ (64 - bits)) in *.
  assert (Ep : hi n * 2 ^ bits = q * 2 ^ 64 + r * 2 ^ bits).
  { rewrite (Eq ltac:(lia)) at 1. rewrite <- Hp. lia. }
  nia.
Qed.

Lemma uint128_rshift_ok n bits :
  u128_ok n -> 0 < bits < 64 ->
  u128_ok (uint128_rshift n bits) /\
  u128_val (uint128_rshift n bits) = Z.shiftr (u128_val n) bits.
Proof.
  intros [Hh Hl] Hb. unfold uint128_rshift. rewrite decide_False by lia. unfold shl64, shr64.
  assert (Hp : 2 ^ bits * 2 ^ (64 - bits) = 2 ^ 64) by (rewrite <- Z.pow_add_r by lia; f_equal; lia).
  assert (0 < 2 ^ bits) by (apply Z.pow_pos_nonneg; lia).
  assert (0 < 2 ^ (64 - bits)) by (apply Z.pow_pos_nonneg; lia).
  rewrite !Z.shiftr_div_pow2, Z.shiftl_mul_pow2 by lia.
  set (c := lo n / 2 ^ bits).
  assert (Hc : 0 <= c < 2 ^ (64 - bits))
    by (split; [apply Z.div_pos|apply Z.div_lt_upper_bound]; lia).
  assert (Eh : u64 (hi n * 2 ^ (64 - bits)) = Z.shiftl (hi n mod 2 ^ bits) (64 - bits)).
  { rewrite Z.shiftl_mul_pow2 by lia. unfold u64. rewrite <- Hp.
    by rewrite Z.mul_mod_distr_r by lia. }
  rewrite Eh, Z.lor_comm, lor_shiftl_add by lia.
  assert (Hm : 0 <= hi n mod 2 ^ bits < 2 ^ bits) by (apply Z.mod_pos_bound; lia).
  pose proof (Z.div_mod (hi n) (2 ^ bits)) as Eq. pose proof (Z.div_mod (lo n) (2 ^ bits)) as El.
  assert (Hlm : 0 <= lo n mod 2 ^ bits < 2 ^ bits) by (apply Z.mod_pos_bound; lia).
  fold c in El. set (q := hi n / 2 ^ bits) in *. set (r := hi n mod 2 ^ bits) in *.
  assert (0 <= q) by (apply Z.div_pos; lia).
  assert (q <= hi n) by nia.
  split; [split; cbn [hi lo]; [lia|nia]|]. unfold u128_val. cbn [hi lo].
  apply (Z.div_unique_pos _ (2 ^ bits) _ (lo n mod 2 ^ bits)); [done|].
  rewrite (Eq ltac:(lia)), (El ltac:(lia)) at 1. rewrite <- Hp. lia.
Qed.

Lemma uint128_gt_ok a b :
  u128_ok a -> u128_ok b -> uint128_gt a b = bool_decide (u128_val a > u128_val b).
Proof.
  intros [Ha1 Ha2] [Hb1 Hb2]. unfold uint128_gt, u128_val.
  destruct (decide (hi a < hi b)); [|destruct (decide (hi a > hi b))].
  - symmetry. apply bool_decide_eq_false_2. lia.
  - symmetry. apply bool_decide_eq_true_2. lia.
  - apply bool_decide_ext. lia.
Qed.

Lemma uint128_eq_ok a b :
  u128_ok a -> u128_ok b -> uint128_eq a b = bool_decide (u128_val a = u128_val b).
Proof.
  intros [Ha1 Ha2] [Hb1 Hb2]. unfold uint128_eq, u128_val.
  repeat case_bool_decide; simpl; try done; lia.
Qed.

(** The mask of the portable version has one bit too many. *)
Lemma uint128_gen_mask_extra bits :
  0 <= bits < 64 -> u128_val (uint128_gen_mask bits) = 2 ^ (bits + 1) - 1.
Proof.
  intros Hb. unfold uint128_gen_mask. rewrite decide_False by lia. unfold shl64, u128_val. cbn [hi lo].
  assert (Hp : 0 < 2 ^ bits <= 2 ^ 63)
    by (split; [apply Z.pow_pos_nonneg|apply Z.pow_le_mono_r]; lia).
  rewrite Z.shiftl_mul_pow2, Z.mul_1_l, !u64_small by (rewrite ?u64_small; lia).
  replace (2 ^ bits - 1) with (Z.ones bits) by (rewrite Z.ones_equiv; lia).
  assert (E : Z.lxor (2 ^ bits) (Z.ones bits) = 2 ^ bits + Z.ones bits).
  { symmetry. apply Z.add_nocarry_lxor. rewrite Z.land_ones by lia. apply Z.mod_same. lia. }
  rewrite E, Z.ones_equiv, Z.pow_add_r by lia. lia.
Qed.

(** ** Properties *)

(** The portable 128-bit functions compute what the compiler's 128-bit type would:
    addition, subtraction, multiplication, increment and decrement are exact modulo
    2^128, the 64-by-64 product is exact, the comparisons compare the values, and
    shifts by one to 63 places are right. *)
Theorem uint128_arithmetic a b bits :
  u128_ok a -> u128_ok b -> 0 < bits < 64 ->
  u128_val (uint128_add a b) = u128 (u128_val a + u128_val b) /\
  u128_val (uint128_sub a b) = u128 (u128_val a - u128_val b) /\
  u128_val (uint128_mul a b) = u128 (u128_val a * u128_val b) /\
  u128_val (uint128_mul64 (lo a) (lo b)) = lo a * lo b /\
  u128_val (uint128_increment a) = u128 (u128_val a + 1) /\
  u128_val (uint128_decrement a) = u128 (u128_val a - 1) /\
  uint128_eq a b = bool_decide (u128_val a = u128_val b) /\
  uint128_gt a b = bool_decide (u128_val a > u128_val b) /\
  u128_val (uint128_lshift a bits) = u128 (Z.shiftl (u128_val a) bits) /\
  u128_val (uint128_rshift a bits) = Z.shiftr (u128_val a) bits.
Proof.
  intros Ha Hb Hs.
  split; [by apply uint128_add_ok|]. split; [by apply uint128_sub_ok|].
  split; [by apply uint128_mul_ok|]. split; [apply uint128_mul64_ok; [apply Ha|apply Hb]|].
  split; [by apply uint128_increment_ok|]. split; [by apply uint128_decrement_ok|].
  split; [by apply uint128_eq_ok|]. split; [by apply uint128_gt_ok|].
  split; [by apply uint128_lshift_ok|by apply uint128_rshift_ok].
Qed.

Lemma uint128_arithmetic_witness :
  u128_val (uint128_add (U128 5 (2 ^ 64 - 1)) (U128 7 3)) = 2 ^ 64 * 13 + 2.
Proof.
  destruct (uint128_arithmetic (U128 5 (2 ^ 64 - 1)) (U128 7 3) 1) as [E _];
    [split; simpl; lia|split; simpl; lia|lia|]. rewrite E. reflexivity.
Defined.

(** Shifting by 64 places or more always gives zero: both shift functions overwrite
    the word they are about to shift. *)
Theorem uint128_shift_lost n bits :
  64 <= bits < 128 ->
  u128_val (uint128_lshift n bits) = 0 /\ u128_val (uint128_rshift n bits) = 0.
Proof.
  intros Hb. unfold uint128_lshift, uint128_rshift. rewrite !decide_True by lia.
  unfold shl64, shr64, u128_val. cbn [hi lo]. rewrite Z.shiftl_0_l, Z.shiftr_0_l. done.
Qed.

Lemma uint128_shift_lost_witness :
  u128_val (uint128_lshift (U128 0 1) 64) = 0 /\ u128_val (uint128_rshift (U128 0 1) 64) = 0.
Proof. apply uint128_shift_lost. lia. Defined.
