(* ===== verification/Retry.v ===== *)
(** * Retransmission timers: [lib/util/retry.c]

    The RFC 5080 back-off with the saturating time arithmetic of [lib/util/time.h]
    and the 128-bit products of [lib/util/uint128.h].  [fr_rand] is an arbitrary
    sequence of 32-bit numbers, indexed by the number of calls made so far. *)
From S2P Require Import Prelude Bytes Uint128.

(** ** [fr_time_t]: nanoseconds in an [int64_t] *)

Definition INT64_MAX : Z := 2 ^ 63 - 1.
Definition INT64_MIN : Z := - 2 ^ 63.
Definition s64 (z : Z) : Z := let u := u64 z in if decide (u < 2 ^ 63) then u else u - 2 ^ 64.

Definition fr_time_op_ispos (a op b : bool) : bool := bool_decide (bool_decide (a = op) = b).

(** [fr_time_add]: on overflow, the maximum or the minimum. *)
Definition fr_time_add (a b : Z) : Z :=
  let out := a + b in
  if decide (INT64_MIN <= out <= INT64_MAX) then out
  else if fr_time_op_ispos (bool_decide (a >= 0)) true (bool_decide (b >= 0))
  then INT64_MAX else INT64_MIN.

(** ** State *)

Record fr_retry_config_t := RetryConfig { irt : Z; mrt : Z; mrd : Z; mrc : Z }.

Record fr_retry_t := Retry {
  config : fr_retry_config_t; start : Z; next : Z; updated : Z; rt : Z; count : Z }.

Inductive fr_retry_state_t := FR_RETRY_CONTINUE | FR_RETRY_MRC | FR_RETRY_MRD.

(** [uint128_to_64(uint128_rshift(uint128_mul64(scale, delta), 32))] *)
Definition scaled (scale delta : Z) : Z :=
  s64 (uint128_to_64 (uint128_rshift (uint128_mul64 scale (u64 delta)) 32)).

Section Retry.
Context (fr_rand : nat -> Z).

(** The structure, and the number of calls of [fr_rand] so far. *)
Definition fr_retry_init (k : nat) (now : Z) (cfg : fr_retry_config_t) : fr_retry_t * nat :=
  let scale := u64 (u64 (fr_rand k + 2 ^ 32) - 2 ^ 31) in
  let rt_ := scaled scale (irt cfg) in
  (Retry cfg now (fr_time_add now rt_) now rt_ 1, S k).

(** From the label [redo] on. *)
Fixpoint retry_redo (fuel k : nat) (r : fr_retry_t) (now : Z)
    : option (fr_retry_state_t * fr_retry_t * nat) :=
  match fuel with
  | O => None
  | S fuel' =>
      if decide (mrd (config r) > 0 /\ now > fr_time_add (start r) (mrd (config r)))
      then Some (FR_RETRY_MRD, r, k)
      else
        let scale := u64 (u64 (fr_rand k - 2 ^ 31) + 2 ^ 33) in
        let rt_ := scaled scale (rt r) in
        let '(rt_, k) :=
          if decide (mrt (config r) > 0 /\ rt_ > mrt (config r)) then
            let scale := u64 (u64 (fr_rand (S k) - 2 ^ 31) + 2 ^ 32) in
            (scaled scale (mrt (config r)), S (S k))
          else (rt_, S k) in
        let r := Retry (config r) (start r) (fr_time_add (next r) rt_) (updated r) rt_
                       (count r) in
        if decide (fr_time_add (next r) (Z.quot rt_ 2) < now)
        then retry_redo fuel' k r now
        else Some (FR_RETRY_CONTINUE, r, k)
  end.

Definition fr_retry_next (fuel k : nat) (r : fr_retry_t) (now : Z)
    : option (fr_retry_state_t * fr_retry_t * nat) :=
  let r := Retry (config r) (start r) (next r) now (rt r) (u32 (count r + 1)) in
  if decide (mrc (config r) <> 0 /\ count r > mrc (config r)) then Some (FR_RETRY_MRC, r, k)
  else retry_redo fuel k r now.
End Retry.

(** ** Scaling *)

Lemma scaled_value scale d :
  0 <= scale < 2 ^ 34 -> 0 <= d <= 2 ^ 62 -> scale * d < 2 ^ 95 ->
  scaled scale d = scale * d / 2 ^ 32.
Proof.
  intros Hs Hd Hp. unfold scaled. rewrite (u64_small d) by lia.
  destruct (uint128_mul64_ok scale d) as [Hok Hv]; [lia..|].
  destruct (uint128_rshift_ok (uint128_mul64 scale d) 32 Hok) as [[Hh Hl] Hv']; [lia|].
  rewrite Hv, Z.shiftr_div_pow2 in Hv' by lia. unfold u128_val in Hv'. unfold uint128_to_64.
  assert (0 <= scale * d / 2 ^ 32 < 2 ^ 63).
  { split; [apply Z.div_pos; nia|]. apply Z.div_lt_upper_bound; lia. }
  unfold s64. rewrite u64_small by lia. rewrite decide_True by lia. lia.
Qed.

(** [x * scale / 2^32] with [scale] between [lo/2 * 2^32] and [hi/2 * 2^32]. *)
Lemma scaled_bounds scale d a b :
  0 <= d <= 2 ^ 61 -> 0 <= a -> b <= 6 -> a * 2 ^ 31 <= scale <= b * 2 ^ 31 ->
  a * d / 2 <= scaled scale d <= b * d / 2.
Proof.
  intros Hd Ha Hb Hs. rewrite scaled_value by nia.
  replace (a * d / 2) with (a * 2 ^ 31 * d / 2 ^ 32).
  - replace (b * d / 2) with (b * 2 ^ 31 * d / 2 ^ 32).
    + split; apply Z.div_le_mono; nia.
    + change (2 ^ 32) with (2 ^ 31 * 2). replace (b * 2 ^ 31 * d) with (2 ^ 31 * (b * d)) by lia.
      by rewrite Z.div_mul_cancel_l by lia.
  - change (2 ^ 32) with (2 ^ 31 * 2). replace (a * 2 ^ 31 * d) with (2 ^ 31 * (a * d)) by lia.
    by rewrite Z.div_mul_cancel_l by lia.
Qed.

Lemma fr_time_add_pos a b :
  0 <= a <= INT64_MAX -> 0 <= b <= INT64_MAX -> fr_time_add a b = Z.min (a + b) INT64_MAX.
Proof.
  unfold fr_time_add, INT64_MIN, INT64_MAX, fr_time_op_ispos. intros Ha Hb.
  rewrite (bool_decide_eq_true_2 (a >= 0)), (bool_decide_eq_true_2 (b >= 0)) by lia.
  cbn [bool_decide]. destruct (decide (- 2 ^ 63 <= a + b <= 2 ^ 63 - 1)); [lia|].
  rewrite !bool_decide_eq_true_2 by (rewrite ?bool_decide_eq_true_2; done). lia.
Qed.

(** On the way down the clamp goes the wrong way. *)
Lemma fr_time_add_negative_overflow a b :
  a < 0 -> b < 0 -> a + b < INT64_MIN -> fr_time_add a b = INT64_MAX.
Proof.
  unfold fr_time_add, fr_time_op_ispos. intros Ha Hb Hs.
  rewrite (bool_decide_eq_false_2 (a >= 0)), (bool_decide_eq_false_2 (b >= 0)) by lia.
  by rewrite decide_False by lia.
Qed.

Section RetryFacts.
Context (fr_rand : nat -> Z) (Hrand : forall k, 0 <= fr_rand k < 2 ^ 32).

Lemma scale_init k :
  u64 (u64 (fr_rand k + 2 ^ 32) - 2 ^ 31) = fr_rand k + 2 ^ 31 /\
  u64 (u64 (fr_rand k - 2 ^ 31) + 2 ^ 32) = fr_rand k + 2 ^ 31.
Proof.
  pose proof (Hrand k). split.
  - rewrite (u64_small (fr_rand k + 2 ^ 32)), u64_small by lia. lia.
  - rewrite u64_add_l, u64_small by lia. lia.
Qed.

Lemma scale_next k : u64 (u64 (fr_rand k - 2 ^ 31) + 2 ^ 33) = fr_rand k + 3 * 2 ^ 31.
Proof. pose proof (Hrand k). rewrite u64_add_l, u64_small by lia. lia. Qed.

(** A live timer: positive, and with a configured maximum of at least two. *)
Definition retry_ok (r : fr_retry_t) : Prop :=
  1 <= rt r <= 2 ^ 61 /\ 0 <= next r <= INT64_MAX /\
  (mrt (config r) <= 0 \/ 2 <= mrt (config r) <= 2 ^ 61).

(** The interval of the next turn. *)
Lemma retry_interval k r :
  retry_ok r ->
  let rt1 := scaled (u64 (u64 (fr_rand k - 2 ^ 31) + 2 ^ 33)) (rt r) in
  let rt2 := scaled (u64 (u64 (fr_rand (S k) - 2 ^ 31) + 2 ^ 32)) (mrt (config r)) in
  let rt' := if decide (mrt (config r) > 0 /\ rt1 > mrt (config r)) then rt2 else rt1 in
  1 <= rt' <= 5 * 2 ^ 60 /\
  (mrt (config r) > 0 -> 2 * rt' <= 3 * mrt (config r)) /\
  (mrt (config r) <= 0 -> 3 * rt r / 2 <= rt' <= 5 * rt r / 2).
Proof.
  intros (Hrt & Hn & Hm) rt1 rt2 rt'.
  pose proof (Hrand k) as Hk. pose proof (Hrand (S k)) as HSk.
  destruct (scaled_bounds (fr_rand k + 3 * 2 ^ 31) (rt r) 3 5) as [L1 U1]; [lia..|].
  rewrite <- scale_next in L1, U1. fold rt1 in L1, U1.
  assert (1 <= 3 * rt r / 2) by (apply Z.div_le_lower_bound; lia).
  assert (5 * rt r / 2 <= 5 * 2 ^ 60) by (apply Z.div_le_upper_bound; lia).
  unfold rt'. destruct (decide (mrt (config r) > 0 /\ rt1 > mrt (config r))) as [[Hp Hc]|Hc].
  - destruct Hm as [Hm|Hm]; [lia|].
    destruct (scaled_bounds (fr_rand (S k) + 2 ^ 31) (mrt (config r)) 1 3) as [L2 U2]; [lia..|].
    rewrite <- (proj2 (scale_init (S k))) in L2, U2. fold rt2 in L2, U2.
    assert (1 <= 1 * mrt (config r) / 2) by (apply Z.div_le_lower_bound; lia).
    pose proof (Z.mul_div_le (3 * mrt (config r)) 2). lia.
  - lia.
Qed.

(** What one retransmission decision leaves behind. *)
Definition retry_outcome (now : Z) (r : fr_retry_t) (st : fr_retry_state_t) (r' : fr_retry_t)
    : Prop :=
  config r' = config r /\ start r' = start r /\ count r' = count r /\
  match st with
  | FR_RETRY_CONTINUE =>
      1 <= rt r' <= 5 * 2 ^ 60 /\ (mrt (config r) > 0 -> 2 * rt r' <= 3 * mrt (config r)) /\
      now <= next r' + rt r' / 2 /\ next r <= next r'
  | FR_RETRY_MRD =>
      mrd (config r) > 0 /\ now > fr_time_add (start r) (mrd (config r))
  | FR_RETRY_MRC => False
  end.

Lemma retry_redo_spec fuel k r now :
  retry_ok r -> 0 <= now <= 2 ^ 60 -> (0 < fuel)%nat -> now - next r < Z.of_nat fuel ->
  exists st r' k', retry_redo fr_rand fuel k r now = Some (st, r', k') /\
    retry_outcome now r st r'.
Proof.
  revert k r. induction fuel as [|fuel IH]; intros k r Hok Hnow Hf Hfuel; [lia|].
  cbn [retry_redo].
  destruct (decide (mrd (config r) > 0 /\ now > fr_time_add (start r) (mrd (config r)))) as [Hd|_].
  { exists FR_RETRY_MRD, r, k. split; [done|]. split; [done|]. split; [done|].
    split; [done|exact Hd]. }
  pose proof (retry_interval k r Hok) as Hi. cbv zeta in Hi.
  set (rt1 := scaled _ (rt r)) in *. set (rt2 := scaled _ (mrt (config r))) in *.
  set (p := if decide (mrt (config r) > 0 /\ rt1 > mrt (config r)) then (rt2, S (S k)) else (rt1, S k)).
  assert (Ep : p.1 = if decide (mrt (config r) > 0 /\ rt1 > mrt (config r)) then rt2 else rt1)
    by (unfold p; by case_decide).
  rewrite <- Ep in Hi. destruct p as [rt' k']. cbn [fst] in *. clear Ep rt1 rt2.
  destruct Hi as (Hr & Hc & _). destruct (Hok) as (Hrt & Hn & Hm).
  cbn [next]. rewrite Z.quot_div_nonneg by lia.
  assert (Hh : 0 <= rt' / 2 <= rt') by (split; [apply Z.div_pos|apply Z.div_le_upper_bound]; lia).
  unfold INT64_MAX in *. rewrite (fr_time_add_pos (next r) rt') by (unfold INT64_MAX; lia).
  unfold INT64_MAX. set (nx := Z.min (next r + rt') (2 ^ 63 - 1)).
  rewrite (fr_time_add_pos nx (rt' / 2)) by (unfold INT64_MAX; lia). unfold INT64_MAX.
  destruct (decide (Z.min (nx + rt' / 2) (2 ^ 63 - 1) < now)) as [Hlt|Hge].
  - assert (rt' <= 2 ^ 61) by (pose proof (Z.div_mod rt' 2); pose proof (Z.mod_pos_bound rt' 2); lia).
    set (r1 := Retry _ _ _ _ _ _).
    destruct (IH k' r1) as (st & r' & k'' & E & Ho).
    + split; [cbn; lia|]. split; [cbn; unfold INT64_MAX; lia|done].
    + done.
    + destruct fuel; [|lia]. lia.
    + cbn [next r1]. lia.
    + exists st, r', k''. split; [done|]. destruct Ho as (Hcf & Hs & Hcnt & Ho).
      split; [done|]. split; [done|]. split; [done|]. cbn [next config start r1] in Ho.
      destruct st; [|done..]. destruct Ho as (? & ? & ? & ?). repeat split; try done; lia.
  - exists FR_RETRY_CONTINUE. eexists _, k'. split; [done|].
    split; [done|]. split; [done|]. split; [done|]. cbn [rt next]. repeat split; lia || done.
Qed.
End RetryFacts.

(** ** Properties *)

(** The first retransmission is armed half to one and a half times the initial
    interval after the start, whatever the random number. *)
Theorem retry_init_interval fr_rand k now cfg :
  (forall i, 0 <= fr_rand i < 2 ^ 32) -> 0 <= irt cfg <= 2 ^ 61 -> 0 <= now <= 2 ^ 61 ->
  let '(r, _) := fr_retry_init fr_rand k now cfg in
  irt cfg / 2 <= rt r <= 3 * irt cfg / 2 /\ next r = now + rt r /\ start r = now /\ count r = 1.
Proof.
  intros Hrand Hi Hnow. unfold fr_retry_init. cbn [rt next start count].
  rewrite (proj1 (scale_init fr_rand Hrand k)). pose proof (Hrand k).
  destruct (scaled_bounds (fr_rand k + 2 ^ 31) (irt cfg) 1 3) as [L U]; [lia..|].
  rewrite Z.mul_1_l in L. assert (0 <= irt cfg / 2) by (apply Z.div_pos; lia).
  assert (3 * irt cfg / 2 <= 2 ^ 62) by (apply Z.div_le_upper_bound; lia).
  split; [done|]. split; [|done]. rewrite fr_time_add_pos by (unfold INT64_MAX; lia).
  unfold INT64_MAX. lia.
Qed.

Lemma retry_init_interval_witness :
  let '(r, _) := fr_retry_init (fun _ => 7) 0 1000 (RetryConfig 2000000000 16000000000 0 5) in
  2000000000 / 2 <= rt r <= 3 * 2000000000 / 2 /\ next r = 1000 + rt r /\ start r = 1000 /\ count r = 1.
Proof. apply (retry_init_interval (fun _ => 7)); [intros _; lia|simpl; lia|lia]. Defined.

(** [fr_retry_next] returns: with a live timer (a positive interval, a maximum
    interval that is unset or at least two) the [redo] loop skips at most one
    missed slot per nanosecond it is late.  It gives up exactly for the two
    configured reasons; otherwise the packet count has grown by one, the next
    transmission is not more than half an interval in the past, and the interval
    is positive and, if a maximum is set, at most one and a half times that. *)
Theorem retry_next_spec fr_rand fuel k r now :
  (forall i, 0 <= fr_rand i < 2 ^ 32) -> retry_ok r -> 0 <= now <= 2 ^ 60 ->
  0 <= count r < 2 ^ 32 - 1 -> (0 < fuel)%nat -> now - next r < Z.of_nat fuel ->
  exists st r' k', fr_retry_next fr_rand fuel k r now = Some (st, r', k') /\
    count r' = count r + 1 /\ updated r' = now /\
    (st = FR_RETRY_MRC <-> mrc (config r) <> 0 /\ count r + 1 > mrc (config r)) /\
    (st = FR_RETRY_MRD -> mrd (config r) > 0 /\ now > fr_time_add (start r) (mrd (config r))) /\
    (st = FR_RETRY_CONTINUE ->
      1 <= rt r' /\ (mrt (config r) > 0 -> 2 * rt r' <= 3 * mrt (config r)) /\
      now <= next r' + rt r' / 2 /\ next r <= next r').
Proof.
  intros Hrand Hok Hnow Hc Hf Hfuel. unfold fr_retry_next. cbn [config count].
  rewrite (u32_small (count r + 1)) by lia.
  set (r1 := Retry _ _ _ _ _ _).
  destruct (decide (mrc (config r) <> 0 /\ count r + 1 > mrc (config r))) as [Hm|Hm].
  - exists FR_RETRY_MRC, r1, k. split; [done|]. split; [done|]. split; [done|].
    split; [by split|done].
  - destruct (retry_redo_spec fr_rand Hrand fuel k r1 now) as (st & r' & k' & E & Hcf & Hs & Hcnt & Ho);
      [done..|].
    assert (Hu : forall fu ka ra st' ra' ka', retry_redo fr_rand fu ka ra now = Some (st', ra', ka') ->
      updated ra' = updated ra).
    { clear. induction fu as [|fu IH]; intros ka ra st' ra' ka' E; [done|]. cbn [retry_redo] in E.
      case_decide; [by injection E as <- <- <-|].
      destruct (decide (mrt (config ra) > 0 /\ _)); case_decide;
        first [by apply IH in E|by injection E as <- <- <-]. }
    exists st, r', k'. split; [done|]. split; [done|]. split; [by apply (Hu _ _ _ _ _ _ E)|].
    destruct st; cbn [config start next r1] in Ho.
    + split; [split; [done|tauto]|]. split; [done|]. intros _. tauto.
    + done.
    + split; [split; [done|tauto]|]. split; [done|]. done.
Qed.

(** Two seconds initially, four at most, polled five seconds late. *)
Lemma retry_next_spec_witness :
  exists st r' k',
    fr_retry_next (fun _ => 2 ^ 31) 10 0
      (Retry (RetryConfig 2 4 0 3) 100 102 100 2 1) 107 = Some (st, r', k') /\
    count r' = 2 /\ updated r' = 107 /\
    (st = FR_RETRY_MRC <-> 3 <> 0 /\ 2 > 3) /\
    (st = FR_RETRY_MRD -> 0 > 0 /\ 107 > fr_time_add 100 0) /\
    (st = FR_RETRY_CONTINUE ->
      1 <= rt r' /\ (4 > 0 -> 2 * rt r' <= 3 * 4) /\ 107 <= next r' + rt r' / 2 /\ 102 <= next r').
Proof.
  apply (retry_next_spec (fun _ => 2 ^ 31) 10 0 (Retry (RetryConfig 2 4 0 3) 100 102 100 2 1) 107);
    [intros _; lia| |lia|simpl; lia|lia|simpl; lia].
  split; [simpl; lia|]. split; [unfold INT64_MAX; simpl; lia|right; simpl; lia].
Defined.

(** A timer whose interval is zero never returns once it is late: without a maximum
    duration the [redo] loop recomputes the same zero interval for ever.  An initial
    interval of zero gives such a timer. *)
Theorem retry_zero_interval_spins fr_rand fuel k r now :
  (forall i, 0 <= fr_rand i < 2 ^ 32) ->
  rt r = 0 -> mrd (config r) <= 0 -> (mrc (config r) = 0 \/ u32 (count r + 1) <= mrc (config r)) ->
  INT64_MIN <= next r < now ->  now <= INT64_MAX ->
  fr_retry_next fr_rand fuel k r now = None.
Proof.
  intros Hrand Hrt Hd Hm Hn Hx. unfold fr_retry_next. cbn [config count].
  rewrite decide_False by lia. set (r1 := Retry _ _ _ _ _ _).
  assert (H1 : rt r1 = 0 /\ mrd (config r1) <= 0 /\ INT64_MIN <= next r1 < now) by done.
  clearbody r1. clear - Hrand H1 Hx. revert k r1 H1.
  induction fuel as [|fuel IH]; intros k r1 (Hrt & Hd & Hn); [done|]. cbn [retry_redo].
  rewrite decide_False by lia. rewrite Hrt, scale_next by done.
  assert (E0 : scaled (fr_rand k + 3 * 2 ^ 31) 0 = 0).
  { pose proof (Hrand k). rewrite scaled_value by lia. by rewrite Z.mul_0_r. }
  rewrite E0. destruct (decide (mrt (config r1) > 0 /\ 0 > mrt (config r1))); [lia|].
  assert (Ea : forall x, INT64_MIN <= x <= INT64_MAX -> fr_time_add x 0 = x).
  { intros x Hx'. unfold fr_time_add. rewrite Z.add_0_r. by rewrite decide_True. }
  cbn [next]. change (0 ÷ 2) with 0. rewrite !Ea by (rewrite ?Ea; lia).
  rewrite decide_True by lia. apply IH. cbn. done.
Qed.

Lemma retry_zero_interval_spins_witness :
  fr_retry_next (fun _ => 0) 1000 0 (fr_retry_init (fun _ => 0) 0 5 (RetryConfig 0 0 0 0)).1 6 = None.
Proof.
  apply retry_zero_interval_spins; [intros _; lia|reflexivity|simpl; lia|left; reflexivity| |];
    unfold INT64_MIN, INT64_MAX; [vm_compute; split; [discriminate|reflexivity]|lia].
Defined.
