(* ===== verification/Rfc4648.v ===== *)
(** * RFC 4648 and tables of characters

    The reference encoding of RFC 4648, shared by Base64.v and Base32.v: the bits of the
    octets, most significant first, cut into groups that index an alphabet; and C array
    initialisers, which the alphabets are written with. *)
From stdpp Require Import strings.
From S2P Require Import Prelude.

(** ** Designated initialisers *)

(** [T table[size] = { [i] = v, ... }]: entries not named are 0, later ones override. *)
Definition init_table (size : nat) (entries : list (nat * Z)) : list Z :=
  foldl (fun t '(i, v) => <[i := v]> t) (replicate size 0) entries.

(** Consecutive entries [[i] = v, [i + 1] = v + 1, ...]. *)
Definition run (i : nat) (v : Z) (n : nat) : list (nat * Z) :=
  (fun k => ((i + k)%nat, v + Z.of_nat k)) <$> seq 0 n.

(** The macros [F1], [F2], ... [F128] of [build.h], which is not in the tree: [Fn(i, v)]
    names [n] entries, from [i] on, all [v]. *)
Class RangeMacros := {
  F : nat -> nat -> Z -> list (nat * Z);
  F_spec n i v : F n i v = (fun k => ((i + k)%nat, v)) <$> seq 0 n;
}.

#[export] Instance range_macros : RangeMacros | 100.
Proof. exists (fun n i v => (fun k => ((i + k)%nat, v)) <$> seq 0 n). done. Defined.

Definition UINT8_MAX : Z := 255.

(** ** The reference *)

Definition byte_bits (b : Z) : list bool := Z.testbit b <$> [7; 6; 5; 4; 3; 2; 1; 0].
Definition bits_val (l : list bool) : Z := foldl (fun n b => 2 * n + Z.b2z b) 0 l.

(** Groups of [k] bits; the last one is filled up with zero bits. *)
Fixpoint groups (fuel k : nat) (l : list bool) : list (list bool) :=
  match fuel, l with
  | S fuel', _ :: _ => take k (l ++ replicate k false) :: groups fuel' k (drop k l)
  | _, _ => []
  end.

(** The symbols of an octet string, [k] bits each. *)
Definition rfc4648_symbols (k : nat) (l : list Z) : list Z :=
  let bits := l ≫= byte_bits in bits_val <$> groups (length bits) k bits.

Definition PAD : Z := 61.

(** Padding to a multiple of [q] symbols. *)
Definition rfc4648_padding (q n : nat) : nat := ((q - n mod q) mod q)%nat.

(** The padding of the last quantum, if any. *)
Definition padding_text (padding : bool) (n : nat) : list Z := if padding then replicate n PAD else [].

Definition rfc4648_encode (k q : nat) (char : Z -> Z) (padding : bool) (l : list Z) : list Z :=
  let syms := rfc4648_symbols k l in
  (char <$> syms) ++ padding_text padding (rfc4648_padding q (length syms)).

(** The alphabets of the RFC, as character codes. *)
Definition codes (s : String.string) : list Z :=
  (fun c => Z.of_N (Ascii.N_of_ascii c)) <$> String.list_ascii_of_string s.

Definition RFC4648_BASE64 : list Z :=
  codes "ABCDEFGHIJKLMNOPQRSTUVWXYZabcdefghijklmnopqrstuvwxyz0123456789+/".
Definition RFC4648_BASE64URL : list Z :=
  codes "ABCDEFGHIJKLMNOPQRSTUVWXYZabcdefghijklmnopqrstuvwxyz0123456789-_".
Definition RFC4648_BASE32 : list Z := codes "ABCDEFGHIJKLMNOPQRSTUVWXYZ234567".
Definition RFC4648_BASE32HEX : list Z := codes "0123456789ABCDEFGHIJKLMNOPQRSTUV".

(** The character of a symbol. *)
Definition char_of (enc : list Z) (i : Z) : Z := default 0 (enc !! Z.to_nat i).

(** ** Lemmas *)

Lemma bits_val_range l : 0 <= bits_val l < 2 ^ Z.of_nat (length l).
Proof.
  induction l as [|b l IH] using rev_ind; [done|]. unfold bits_val in *.
  rewrite foldl_app, length_app, Nat2Z.inj_add, Z.pow_add_r by lia. cbn. destruct b; cbn; lia.
Qed.

Lemma groups_length f k l : Forall (fun g => length g = k) (groups f k l).
Proof.
  revert l. induction f as [|f IH]; intros l; [constructor|]. destruct l; [constructor|].
  apply Forall_cons_2; [|apply IH]. rewrite length_take, length_app, length_replicate. lia.
Qed.

(** Only the characters of symbols below 2^k matter. *)
Lemma rfc4648_encode_ext k q (c1 c2 : Z -> Z) padding l :
  (forall i, 0 <= i < 2 ^ Z.of_nat k -> c1 i = c2 i) ->
  rfc4648_encode k q c1 padding l = rfc4648_encode k q c2 padding l.
Proof.
  intros Hc. unfold rfc4648_encode, rfc4648_symbols. f_equal. rewrite <- !list_fmap_compose.
  apply list_fmap_ext. intros i g Hg. cbn. apply Hc.
  rewrite <- (Forall_lookup_1 _ _ _ _ (groups_length _ _ _) Hg). apply bits_val_range.
Qed.

Lemma rfc4648_encode_take k q enc padding l :
  rfc4648_encode k q (char_of (take (2 ^ k) enc)) padding l =
  rfc4648_encode k q (char_of enc) padding l.
Proof.
  apply rfc4648_encode_ext. intros i Hi. unfold char_of. rewrite lookup_take_lt; [done|].
  apply Nat2Z.inj_lt. rewrite Z2Nat.id, Nat2Z.inj_pow by lia. lia.
Qed.

Lemma groups_fuel k f : forall g l, (0 < k)%nat -> (length l <= f)%nat -> (length l <= g)%nat ->
  groups f k l = groups g k l.
Proof.
  induction f as [|f IH]; intros g l Hk Hf Hg.
  { destruct l; [|simpl in Hf; lia]. by destruct g. }
  destruct l as [|b l]; [by destruct g|]. destruct g as [|g]; [simpl in Hg; lia|].
  cbn [groups]. f_equal. apply IH; [done|..]; rewrite length_drop; simpl in *; lia.
Qed.

Lemma groups_full k g l f :
  (0 < k)%nat -> length g = k -> groups (length (g ++ l)) k (g ++ l) = g :: groups (length l + f) k l.
Proof.
  intros Hk Hg. assert (Hn : exists n, length (g ++ l) = S n)
    by (rewrite length_app; exists (k - 1 + length l)%nat; lia).
  destruct Hn as (n & En). rewrite En. rewrite length_app in En.
  assert (Hc : groups (S n) k (g ++ l) =
    take k ((g ++ l) ++ replicate k false) :: groups n k (drop k (g ++ l)))
    by (destruct g; [simpl in Hg; lia|done]).
  rewrite Hc, <- app_assoc, take_app_length', drop_app_length' by done.
  f_equal. apply groups_fuel; lia.
Qed.

Lemma length_byte_bits b : length (byte_bits b) = 8%nat.
Proof. done. Qed.

(** A number of [k] bits from its bits. *)
Lemma bits_val_6 x : 0 <= x < 64 -> bits_val (Z.testbit x <$> [5; 4; 3; 2; 1; 0]) = x.
Proof.
  intros Hx.
  assert (H : forallb (fun n => bits_val (Z.testbit (Z.of_nat n) <$> [5; 4; 3; 2; 1; 0]) =? Z.of_nat n)
    (seq 0 64) = true) by (by vm_compute).
  rewrite forallb_forall in H. specialize (H (Z.to_nat x)). rewrite in_seq, Z2Nat.id in H by lia.
  apply Z.eqb_eq, H. lia.
Qed.

Lemma bits_val_5 x : 0 <= x < 32 -> bits_val (Z.testbit x <$> [4; 3; 2; 1; 0]) = x.
Proof.
  intros Hx.
  assert (H : forallb (fun n => bits_val (Z.testbit (Z.of_nat n) <$> [4; 3; 2; 1; 0]) =? Z.of_nat n)
    (seq 0 32) = true) by (by vm_compute).
  rewrite forallb_forall in H. specialize (H (Z.to_nat x)). rewrite in_seq, Z2Nat.id in H by lia.
  apply Z.eqb_eq, H. lia.
Qed.

(** Bytes are equal when their eight bits are. *)
Lemma byte_ext x y :
  byte_ok x -> byte_ok y -> Forall (fun i => Z.testbit x i = Z.testbit y i) [0; 1; 2; 3; 4; 5; 6; 7] ->
  x = y.
Proof.
  intros Hx Hy HF. apply Z.bits_inj'. intros i Hi. destruct (decide (8 <= i)) as [H8|H8].
  - by rewrite (testbit_high 8 x), (testbit_high 8 y) by (done || lia).
  - rewrite list.Forall_forall in HF. apply HF. rewrite !elem_of_cons. lia.
Qed.

Lemma testbit_u8 z i : 0 <= i < 8 -> Z.testbit (u8 z) i = Z.testbit z i.
Proof. intros Hi. unfold u8. apply Z.mod_pow2_bits_low. lia. Qed.

Lemma byte_bit_high b i : byte_ok b -> 8 <= i -> Z.testbit b i = false.
Proof. intros. apply (testbit_high 8); (done || lia). Qed.

(** Computes the bit of a term of shifts and masks at a constant position. *)
Ltac bit_eval :=
  repeat match goal with
  | |- context [Z.testbit ?x (?a - ?b)] => let c := eval compute in (a - b) in change (a - b) with c
  | |- context [Z.testbit ?x (?a + ?b)] => let c := eval compute in (a + b) in change (a + b) with c
  | |- context [Z.testbit ?x (Z.neg ?p)] => rewrite (Z.testbit_neg_r x (Z.neg p)) by lia
  | |- context [Z.testbit (u8 ?x) ?i] => rewrite (testbit_u8 x i) by lia
  | |- context [Z.testbit (Z.lor ?x ?y) ?i] => rewrite (Z.lor_spec x y i)
  | |- context [Z.testbit (Z.land ?x ?y) ?i] => rewrite (Z.land_spec x y i)
  | |- context [Z.testbit (Z.shiftl ?x ?s) ?i] => rewrite (Z.shiftl_spec x s i) by lia
  | |- context [Z.testbit (Z.shiftr ?x ?s) ?i] => rewrite (Z.shiftr_spec x s i) by lia
  | H : byte_ok ?x |- context [Z.testbit ?x ?i] => rewrite (byte_bit_high x i H) by lia
  | |- context [Z.testbit (Z.pos ?m) ?i] =>
      let c := eval compute in (Z.testbit (Z.pos m) i) in change (Z.testbit (Z.pos m) i) with c
  end;
  rewrite ?andb_true_r, ?andb_false_r, ?orb_false_r, ?orb_false_l; try reflexivity.

Lemma symbols_full k g r :
  (0 < k)%nat -> length g = k ->
  bits_val <$> groups (length (g ++ r)) k (g ++ r) = bits_val g :: (bits_val <$> groups (length r) k r).
Proof. intros Hk Hg. rewrite (groups_full k g r 0), Nat.add_0_r by done. done. Qed.

Lemma rfc4648_padding_full q n : (0 < q)%nat -> rfc4648_padding q (q + n) = rfc4648_padding q n.
Proof.
  intros Hq. unfold rfc4648_padding. replace (q + n)%nat with (n + 1 * q)%nat by lia.
  by rewrite Nat.Div0.mod_add.
Qed.

(** A full quantum of [q] symbols in front of the rest. *)
Lemma rfc4648_encode_full k q ch padding l l' syms :
  (0 < q)%nat -> length syms = q -> rfc4648_symbols k l = syms ++ rfc4648_symbols k l' ->
  rfc4648_encode k q ch padding l = (ch <$> syms) ++ rfc4648_encode k q ch padding l'.
Proof.
  intros Hq Hs E. unfold rfc4648_encode. rewrite E, fmap_app, length_app, Hs, <- app_assoc.
  by rewrite rfc4648_padding_full.
Qed.

(** Induction that takes [n] elements at a time. *)
Lemma list_chunk_ind {A} (n : nat) (P : list A -> Prop) :
  (forall l, (length l < n)%nat -> P l) ->
  (forall l1 l2, length l1 = n -> P l2 -> P (l1 ++ l2)) -> (0 < n)%nat -> forall l, P l.
Proof.
  intros Hs Hc Hn l. remember (length l) as m eqn:E. revert l E.
  induction (lt_wf m) as [m _ IH]. intros l ->. destruct (decide (length l < n)%nat) as [Hl|Hl]; [by apply Hs|].
  rewrite <- (take_drop n l). apply Hc; [rewrite length_take; lia|].
  apply (IH (length (drop n l))); [rewrite length_drop; lia|done].
Qed.

(** ** Alphabets *)

(** The table [dec] inverts the alphabet [enc] of [n] characters, and the padding character
    is none of them. *)
Class AlphabetPair (n : Z) (enc dec : list Z) := {
  pair_enc i : 0 <= i < n -> exists c, enc !! Z.to_nat i = Some c /\ dec !! Z.to_nat c = Some i;
  pair_pad : exists v, dec !! Z.to_nat PAD = Some v /\ n <= v;
}.

Definition alphabet_pair_check (n : nat) (enc dec : list Z) : bool :=
  forallb (fun i => match enc !! i with
                    | Some c => bool_decide (dec !! Z.to_nat c = Some (Z.of_nat i))
                    | None => false
                    end) (seq 0 n) &&
  match dec !! Z.to_nat PAD with Some v => Z.of_nat n <=? v | None => false end.

Lemma alphabet_pair_checked n enc dec :
  alphabet_pair_check n enc dec = true -> AlphabetPair (Z.of_nat n) enc dec.
Proof.
  unfold alphabet_pair_check. rewrite andb_true_iff, forallb_forall. intros [H1 H2]. split.
  - intros i Hi. specialize (H1 (Z.to_nat i)). rewrite in_seq in H1.
    specialize (H1 ltac:(lia)). destruct (enc !! Z.to_nat i) as [c|]; [|done].
    apply bool_decide_eq_true in H1. rewrite Z2Nat.id in H1 by lia. eauto.
  - destruct (dec !! Z.to_nat PAD) as [v|]; [|done]. exists v. split; [done|]. by apply Z.leb_le.
Qed.

Lemma char_of_spec n enc dec i :
  AlphabetPair n enc dec -> 0 <= i < n ->
  enc !! Z.to_nat i = Some (char_of enc i) /\ dec !! Z.to_nat (char_of enc i) = Some i.
Proof.
  intros Hp Hi. destruct (pair_enc i Hi) as (c & E & D). unfold char_of. by rewrite E.
Qed.

(** ** What the encoders and decoders share *)

(** [FR_SBUFF_IN_CHAR_RETURN]: characters are appended, or the function returns how many
    do not fit ([inl]).  [room] is the space left for text. *)
Definition in_chars (room : nat) (cs : list Z) (k : nat -> option (Z + list Z)) : option (Z + list Z) :=
  if decide (room < length cs)%nat then Some (inl (- (Z.of_nat (length cs) - Z.of_nat room)))
  else
    r ← k (room - length cs)%nat;
    Some (match r with inl e => inl e | inr s => inr (cs ++ s) end).

(** The characters of the given symbols. *)
Definition chars (alphabet : list Z) (syms : list Z) : option (list Z) :=
  mapM (fun i => alphabet !! Z.to_nat i) syms.

Definition done_text (room : nat) : option (Z + list Z) := Some (inr []).

(** [!is(p[0]) || !is(p[1]) || ...], negated: later characters are not looked at. *)
Fixpoint all_chars (is_char : Z -> option bool) (cs : list Z) : option bool :=
  match cs with
  | [] => Some true
  | c :: cs' => b ← is_char c; if (b : bool) then all_chars is_char cs' else Some false
  end.

(** [fr_sbuff_parse_error_t], as far as the decoders use it. *)
Inductive parse_error := ERROR_TRAILING | ERROR_FORMAT | ERROR_OUT_OF_SPACE.

(** A negative offset of the error, or the bytes written and the characters consumed. *)
Inductive decode_result :=
| DecodeError (slen : Z) (err : parse_error)
| Decoded (out : list Z) (used : nat).

(** [FR_SBUFF_ERROR_RETURN] at an offset of the input. *)
Definition error_at (pos : nat) (err : parse_error) : decode_result :=
  DecodeError (- (Z.of_nat pos + 1)) err.

(** [fr_dbuff_in_bytes]: what is left of the room, if the bytes fit. *)
Definition in_bytes (room : nat) (bytes : list Z) : option nat :=
  if decide (room < length bytes)%nat then None else Some (room - length bytes)%nat.

(** The characters up to the first one outside the alphabet, and the rest. *)
Fixpoint span_chars (is_char : Z -> option bool) (inp : list Z) : option (list Z * list Z) :=
  match inp with
  | [] => Some ([], [])
  | c :: inp' =>
      b ← is_char c;
      if (b : bool) then '(cs, rest) ← span_chars is_char inp'; Some (c :: cs, rest)
      else Some ([], inp)
  end.

(** The padding loop: the offset and input after it, or the offset of an error. *)
Fixpoint skip_padding (pad pos : nat) (inp : list Z) : nat + nat * list Z :=
  match pad with
  | O => inr (pos, inp)
  | S pad' =>
      match inp with
      | [] => inl pos
      | c :: inp' => if decide (c = PAD) then skip_padding pad' (pos + 1) inp' else inl pos
      end
  end.

(** The end of both decoders, from the bytes of the last quantum and the padding due. *)
Definition decode_tail (expect_padding no_trailing : bool) (out : list Z) (pad pos : nat)
    (rest : list Z) : decode_result :=
  match (if expect_padding then skip_padding pad pos rest else inr (pos, rest)) with
  | inl pos => error_at pos ERROR_FORMAT
  | inr (pos, rest) =>
      if no_trailing && negb (bool_decide (rest = [])) then error_at pos ERROR_TRAILING
      else Decoded out pos
  end.


(** [fr_is_base64_nstd] and [fr_is_base32_nstd]. *)
Definition is_symbol (n : Z) (alphabet : list Z) (c : Z) : option bool :=
  v ← alphabet !! Z.to_nat c; Some (bool_decide (v < n)).

(** Where the write that runs out of a buffer of [room] characters ends: the encoders write a
    quantum of [q] symbols at a time, then the symbols left of the [n], then the padding, up to
    the end of the text of [total] characters. *)
Definition write_end (q n total room : nat) : nat :=
  if decide (room < n)%nat then Nat.min n (q * (room / q + 1)) else total.

Lemma write_end_quantum q n total room :
  (0 < q)%nat ->
  write_end q (q + n) (q + total) room =
    if decide (room < q)%nat then q else (q + write_end q n total (room - q))%nat.
Proof.
  intros Hq. unfold write_end. destruct (decide (room < q)%nat) as [H|H].
  - rewrite decide_True, Nat.div_small by lia. lia.
  - assert (room / q = 1 + (room - q) / q)%nat as ->.
    { replace room with (room - q + 1 * q)%nat at 1 by lia. rewrite Nat.div_add by lia. lia. }
    destruct (decide (room < q + n)%nat), (decide (room - q < n)%nat); lia.
Qed.

Lemma write_end_last q n total room :
  (n < q)%nat -> write_end q n total room = if decide (room < n)%nat then n else total.
Proof. intros Hn. unfold write_end. case_decide; [|done]. rewrite Nat.div_small by lia. lia. Qed.

(** The result of writing [text] into [room] characters; a failure reports what the write that
    ends at [wend] lacks. *)
Definition written (text : list Z) (wend room : nat) (r : option (Z + list Z)) : Prop :=
  r = Some (if decide (length text <= room)%nat then inr text
            else inl (Z.of_nat room - Z.of_nat wend)).

Lemma in_chars_spec room cs k (text : list Z) wend wend' :
  written text wend' (room - length cs) (k (room - length cs)%nat) ->
  wend = (if decide (room < length cs) then length cs else length cs + wend')%nat ->
  written (cs ++ text) wend room (in_chars room cs k).
Proof.
  unfold written, in_chars. intros Hk ->. rewrite length_app.
  destruct (decide (room < length cs)%nat) as [Hr|Hr].
  - rewrite decide_False by lia. do 2 f_equal. lia.
  - rewrite Hk. cbn [mbind option_bind]. clear Hk.
    do 2 case_decide; try lia; [done|]. do 2 f_equal. lia.
Qed.

Lemma skip_padding_all n pos : skip_padding n pos (replicate n PAD) = inr ((pos + n)%nat, []).
Proof.
  revert pos. induction n as [|n IH]; intros pos; cbn [replicate skip_padding].
  - by rewrite Nat.add_0_r.
  - rewrite decide_True by done. rewrite IH. do 2 f_equal. lia.
Qed.

Lemma decode_tail_ok padding no_trailing out n pos :
  decode_tail padding no_trailing out n pos (padding_text padding n) =
    Decoded out (pos + length (padding_text padding n)).
Proof.
  unfold decode_tail, padding_text. destruct padding.
  - rewrite skip_padding_all. rewrite bool_decide_eq_true_2 by done.
    rewrite andb_false_r, length_replicate. done.
  - rewrite bool_decide_eq_true_2 by done. rewrite andb_false_r. by rewrite Nat.add_0_r.
Qed.

Lemma decode_tail_nil padding no_trailing out pos :
  decode_tail padding no_trailing out 0 pos [] = Decoded out pos.
Proof. by destruct padding, no_trailing. Qed.


Section Symbols.
Context (n : Z) (enc dec : list Z) `{!AlphabetPair n enc dec}.

Lemma chars_ok syms :
  Forall (fun i => 0 <= i < n) syms -> chars enc syms = Some (char_of enc <$> syms).
Proof.
  induction 1 as [|i syms Hi _ IH]; [done|]. unfold chars in *. cbn [mapM fmap list_fmap].
  destruct (char_of_spec n enc dec i _ Hi) as [-> _]. cbn [mbind option_bind]. by rewrite IH.
Qed.

(** The character of a symbol is in the alphabet; padding is not. *)
Lemma is_char x : 0 <= x < n ->
  is_symbol n dec (char_of enc x) = Some true /\ dec !! Z.to_nat (char_of enc x) = Some x.
Proof.
  intros Hx. destruct (char_of_spec n enc dec x _ Hx) as [_ D]. unfold is_symbol.
  rewrite D. cbn [mbind option_bind]. by rewrite bool_decide_eq_true_2 by lia.
Qed.

Lemma is_char_pad : is_symbol n dec PAD = Some false.
Proof.
  destruct (pair_pad (enc := enc)) as (v & E & Hv). unfold is_symbol. rewrite E.
  cbn [mbind option_bind]. by rewrite bool_decide_eq_false_2 by lia.
Qed.

Lemma all_chars_ok cs syms :
  char_of enc <$> syms = cs -> Forall (fun x => 0 <= x < n) syms ->
  all_chars (is_symbol n dec) cs = Some true.
Proof.
  intros <-. induction 1 as [|x syms Hx _ IH]; [done|]. cbn [fmap list_fmap all_chars].
  destruct (is_char x Hx) as [-> _]. done.
Qed.

Lemma all_chars_pad cs syms r :
  (char_of enc <$> syms) ++ PAD :: r = cs -> Forall (fun x => 0 <= x < n) syms ->
  all_chars (is_symbol n dec) cs = Some false.
Proof.
  intros <-. induction 1 as [|x syms Hx _ IH]; cbn [fmap list_fmap all_chars app].
  - by rewrite is_char_pad.
  - by destruct (is_char x Hx) as [-> _].
Qed.

Lemma span_chars_ok syms rest :
  Forall (fun x => 0 <= x < n) syms -> (rest = [] \/ head rest = Some PAD) ->
  span_chars (is_symbol n dec) ((char_of enc <$> syms) ++ rest) = Some (char_of enc <$> syms, rest).
Proof.
  intros Hs Hr. induction Hs as [|x syms Hx _ IH]; cbn [fmap list_fmap app].
  - destruct Hr as [->|Hr]; [done|]. destruct rest as [|c rest]; [done|]. injection Hr as ->.
    cbn [span_chars]. by rewrite is_char_pad.
  - cbn [span_chars]. destruct (is_char x Hx) as [-> _]. cbn [mbind option_bind]. by rewrite IH.
Qed.

Lemma lookup_chars_ok syms :
  Forall (fun x => 0 <= x < n) syms ->
  mapM (fun c => dec !! Z.to_nat c) (char_of enc <$> syms) = Some syms.
Proof.
  induction 1 as [|x syms Hx _ IH]; [done|]. cbn [fmap list_fmap mapM].
  destruct (is_char x Hx) as [_ ->]. cbn [mbind option_bind]. by rewrite IH.
Qed.
End Symbols.

Lemma padding_text_head padding n :
  padding_text padding n = [] \/ head (padding_text padding n) = Some PAD.
Proof. destruct n, padding; auto. Qed.

Lemma in_padding_spec padding n room :
  written (padding_text padding n) (length (padding_text padding n)) room
    (if padding then in_chars room (replicate n PAD) done_text else done_text room).
Proof.
  unfold padding_text. destruct padding; [|done].
  rewrite <- (app_nil_r (replicate n PAD)) at 1.
  eapply (in_chars_spec _ _ _ _ _ 0); [done|]. case_decide; lia.
Qed.

(** The symbols left and the padding. *)
Lemma in_last_spec q padding n room cs syms :
  length cs = length (syms : list Z) -> (length syms < q)%nat ->
  written (cs ++ padding_text padding n)
    (write_end q (length syms) (length (cs ++ padding_text padding n)) room) room
    (in_chars room cs (fun room =>
       if padding then in_chars room (replicate n PAD) done_text else done_text room)).
Proof.
  intros Hl Hq. eapply in_chars_spec; [apply in_padding_spec|].
  rewrite write_end_last by done. rewrite <- Hl, length_app. done.
Qed.

(** A quantum and the rest. *)
Lemma in_quantum_spec q room cs k (text : list Z) n :
  (0 < q)%nat -> length cs = q ->
  written text (write_end q n (length text) (room - q)) (room - q) (k (room - q)%nat) ->
  written (cs ++ text) (write_end q (q + n) (length (cs ++ text)) room) room (in_chars room cs k).
Proof.
  intros Hq Hl Hk. eapply in_chars_spec; [rewrite Hl; exact Hk|].
  by rewrite length_app, Hl, write_end_quantum.
Qed.
