(* ===== verification/Base16.v ===== *)
(** * Hexadecimal text: [lib/util/base16.c]

    Encoding and decoding between byte buffers and hexadecimal strings, for buffers of
    a fixed size (the source's buffers may also grow through a callback, or refill
    from one; then the size is what they can grow to). *)
From S2P Require Import Prelude Bytes Rfc4648.

(** ** Alphabets: tables of 256 entries *)

Definition fr_base16_alphabet_encode_lc : list Z := init_table 256 (run 0 48 10 ++ run 10 97 6).
Definition fr_base16_alphabet_encode_uc : list Z := init_table 256 (run 0 48 10 ++ run 10 65 6).
Definition fr_base16_alphabet_decode_mc `{!RangeMacros} : list Z :=
  init_table 256
    (F 32 0 UINT8_MAX ++ F 16 32 UINT8_MAX ++ run 48 0 10 ++
     F 4 58 UINT8_MAX ++ F 2 62 UINT8_MAX ++ F 1 64 UINT8_MAX ++ run 65 10 6 ++
     F 16 71 UINT8_MAX ++ F 8 87 UINT8_MAX ++ F 2 95 UINT8_MAX ++ run 97 10 6 ++
     F 128 103 UINT8_MAX ++ F 16 231 UINT8_MAX ++ F 8 247 UINT8_MAX ++ F 1 255 UINT8_MAX).

(** ** Operations *)

(** The loop of [fr_base16_encode_nstd]; [remaining] is the room left for text.
    [inl n] is a return of [n < 0], the bytes missing; [inr s] the text written. *)
Fixpoint base16_encode_loop (alphabet : list Z) (remaining : nat) (inp : list Z)
    : option (Z + list Z) :=
  match inp with
  | [] => Some (inr [])
  | a :: inp' =>
      hi ← alphabet !! Z.to_nat (Z.shiftr a 4);
      lo ← alphabet !! Z.to_nat (Z.land a 0x0f);
      if decide (remaining < 2)%nat then Some (inl (- (2 - Z.of_nat remaining)))
      else
        r ← base16_encode_loop alphabet (remaining - 2) inp';
        Some (match r with inl n => inl n | inr s => inr (hi :: lo :: s) end)
  end.

(** The return value, and the text [out] is advanced over (none on error). *)
Definition fr_base16_encode_nstd (alphabet : list Z) (outlen : nat) (inp : list Z)
    : option (Z * list Z) :=
  r ← base16_encode_loop alphabet outlen inp;
  Some (match r with
        | inl n => (n, [])
        | inr s => (Z.of_nat (length s), s)
        end).

Definition fr_is_base16_nstd (alphabet : list Z) (c : Z) : option bool :=
  v ← alphabet !! Z.to_nat c; Some (bool_decide (v < 16)).

Inductive base16_err := PARSE_OK | PARSE_ERROR_TRAILING | PARSE_NOT_SET.

(** The loop of [fr_base16_decode_nstd]; [pos] characters are behind, [remaining]
    bytes of output left.  The return value (negative on error), the bytes
    written, the characters consumed, and the parse error. *)
Fixpoint base16_decode_loop (fuel : nat) (alphabet : list Z) (no_trailing : bool)
    (pos remaining : nat) (inp : list Z) : option (Z * list Z * nat * base16_err) :=
  match fuel with
  | O => None
  | S fuel' =>
      match inp with
      | p0 :: p1 :: inp' =>
          a ← fr_is_base16_nstd alphabet p0;
          b ← fr_is_base16_nstd alphabet p1;
          if negb a || negb b then
            if a && negb b && no_trailing
            then Some (- (Z.of_nat pos + 1), [], 0%nat, PARSE_ERROR_TRAILING)
            else Some (0, [], pos, PARSE_OK)
          else
            h ← alphabet !! Z.to_nat p0;
            l ← alphabet !! Z.to_nat p1;
            if decide (remaining < 1)%nat then Some (- (1 - Z.of_nat remaining), [], 0%nat, PARSE_NOT_SET)
            else
              '(r, out, used, err) ←
                base16_decode_loop fuel' alphabet no_trailing (pos + 2) (remaining - 1) inp';
              Some (if decide (r < 0) then (r, [], used, err)
                    else (r + 1, u8 (Z.lor (Z.shiftl h 4) l) :: out, used, err))
      | _ => Some (0, [], pos, PARSE_OK)
      end
  end.

Definition fr_base16_decode_nstd (alphabet : list Z) (outlen : nat) (inp : list Z)
    (no_trailing : bool) : option (Z * list Z * nat * base16_err) :=
  base16_decode_loop (S (length inp)) alphabet no_trailing 0 outlen inp.

(** ** Lemmas *)

(** An encoding alphabet the decoding table inverts. *)
Definition base16_pair (enc dec : list Z) : Prop :=
  length enc = 256%nat /\ length dec = 256%nat /\
  Forall (fun n => exists c, enc !! n = Some c /\ 0 <= c < 256 /\
                     dec !! Z.to_nat c = Some (Z.of_nat n)) (seq 0 16).

Lemma base16_pair_lc `{!RangeMacros} : base16_pair fr_base16_alphabet_encode_lc fr_base16_alphabet_decode_mc.
Proof.
  unfold fr_base16_alphabet_decode_mc. rewrite !F_spec. split; [done|]. split; [done|].
  repeat (apply Forall_cons_2; [eexists; by repeat split|]). done.
Qed.
Lemma base16_pair_uc `{!RangeMacros} : base16_pair fr_base16_alphabet_encode_uc fr_base16_alphabet_decode_mc.
Proof.
  unfold fr_base16_alphabet_decode_mc. rewrite !F_spec. split; [done|]. split; [done|].
  repeat (apply Forall_cons_2; [eexists; by repeat split|]). done.
Qed.

Lemma base16_digit enc dec n :
  base16_pair enc dec -> 0 <= n < 16 ->
  exists c, enc !! Z.to_nat n = Some c /\ 0 <= c < 256 /\ dec !! Z.to_nat c = Some n.
Proof.
  intros (_ & _ & HF) Hn. rewrite list.Forall_forall in HF.
  destruct (HF (Z.to_nat n)) as (c & E & Hc & D); [apply list_elem_of_In, in_seq; lia|].
  rewrite Z2Nat.id in D by lia. eauto.
Qed.

Lemma nibbles a :
  byte_ok a ->
  0 <= Z.shiftr a 4 < 16 /\ 0 <= Z.land a 0x0f < 16 /\
  u8 (Z.lor (Z.shiftl (Z.shiftr a 4) 4) (Z.land a 0x0f)) = a.
Proof.
  unfold byte_ok. intros Ha. change 0x0f with (Z.ones 4). rewrite Z.land_ones by lia.
  change (2 ^ 4) with 16. pose proof (Z.mod_pos_bound a 16 ltac:(lia)).
  rewrite lor_shiftl_add, Z.shiftr_div_pow2 by lia. change (2 ^ 4) with 16.
  pose proof (Z.div_mod a 16). assert (0 <= a / 16 < 16)
    by (split; [apply Z.div_pos|apply Z.div_lt_upper_bound]; lia).
  rewrite u8_small by lia. lia.
Qed.

Section Roundtrip.
Context (enc dec : list Z) (Hpair : base16_pair enc dec).

(** What an encoded text looks like: two digits per byte. *)
Inductive hex_of : list Z -> list Z -> Prop :=
| hex_nil : hex_of [] []
| hex_cons a l c0 c1 s :
    enc !! Z.to_nat (Z.shiftr a 4) = Some c0 -> enc !! Z.to_nat (Z.land a 0x0f) = Some c1 ->
    dec !! Z.to_nat c0 = Some (Z.shiftr a 4) -> dec !! Z.to_nat c1 = Some (Z.land a 0x0f) ->
    hex_of l s -> hex_of (a :: l) (c0 :: c1 :: s).

Lemma length_hex l s : hex_of l s -> length s = (2 * length l)%nat.
Proof. induction 1; simpl; lia. Qed.

Lemma base16_encode_ok l :
  bytes_ok l -> exists s, hex_of l s /\ forall remaining,
    base16_encode_loop enc remaining l =
      Some (if decide (2 * length l <= remaining)%nat then inr s
            else inl (- (2 - Z.of_nat (remaining mod 2)))).
Proof.
  induction l as [|a l IH]; intros Hl.
  { exists []. split; [constructor|]. intros. by rewrite decide_True by (simpl; lia). }
  apply list.Forall_cons in Hl as [Ha Hl]. destruct (IH Hl) as (s & Hs & E).
  destruct (nibbles a Ha) as (H1 & H0 & _).
  destruct (base16_digit enc dec _ Hpair H1) as (c0 & E0 & _ & D0).
  destruct (base16_digit enc dec _ Hpair H0) as (c1 & E1 & _ & D1).
  exists (c0 :: c1 :: s). split; [by constructor|]. intros n.
  cbn [base16_encode_loop]. rewrite E0, E1. cbn [mbind option_bind].
  destruct (decide (n < 2)%nat).
  - rewrite decide_False by (simpl; lia). by rewrite Nat.mod_small by lia.
  - rewrite E. cbn [mbind option_bind length]. destruct (decide (2 * length l <= n - 2)%nat).
    + by rewrite decide_True by lia.
    + rewrite decide_False by lia. do 4 f_equal.
      replace n with (n - 2 + 1 * 2)%nat at 2 by lia. by rewrite Nat.Div0.mod_add.
Qed.

Lemma base16_decode_ok l s fuel nt pos remaining :
  bytes_ok l -> hex_of l s -> (length l < fuel)%nat -> (length l <= remaining)%nat ->
  base16_decode_loop fuel dec nt pos remaining s =
    Some (Z.of_nat (length l), l, (pos + 2 * length l)%nat, PARSE_OK).
Proof.
  intros Hl Hs. revert fuel pos remaining Hl.
  induction Hs as [|a l c0 c1 s E0 E1 D0 D1 Hs IH]; intros fuel pos remaining Hl Hf Hr;
    destruct fuel as [|fuel]; [lia| |simpl in Hf; lia|].
  - cbn. by rewrite Nat.add_0_r.
  - apply list.Forall_cons in Hl as [Ha Hl]. destruct (nibbles a Ha) as (H1 & H0 & Ea).
    cbn [length] in *. cbn [base16_decode_loop]. unfold fr_is_base16_nstd.
    rewrite D0, D1. cbn [mbind option_bind]. rewrite !bool_decide_eq_true_2 by lia.
    cbn [negb orb]. rewrite decide_False by lia.
    rewrite IH by (done || lia). cbn [mbind option_bind].
    rewrite decide_False by lia. rewrite Ea.
    replace (Z.of_nat (length l) + 1) with (Z.of_nat (S (length l))) by lia.
    by replace (pos + 2 * S (length l))%nat with (pos + 2 + 2 * length l)%nat by lia.
Qed.
End Roundtrip.

(** ** Properties *)

(** Hexadecimal text round-trips.  With room for it, encoding a byte string (in
    either case) writes two characters per byte and decoding them gives the bytes
    back, consuming all of the text; without room, encoding reports how many
    characters are missing for the next byte and hands nothing out. *)
Theorem base16_roundtrip `{!RangeMacros} enc l cap outlen no_trailing :
  enc = fr_base16_alphabet_encode_lc \/ enc = fr_base16_alphabet_encode_uc ->
  bytes_ok l -> (length l <= outlen)%nat ->
  if decide (2 * length l <= cap)%nat then
    exists s, fr_base16_encode_nstd enc cap l = Some (Z.of_nat (2 * length l), s) /\
      fr_base16_decode_nstd fr_base16_alphabet_decode_mc outlen s no_trailing =
        Some (Z.of_nat (length l), l, (2 * length l)%nat, PARSE_OK)
  else fr_base16_encode_nstd enc cap l = Some (- (2 - Z.of_nat (cap mod 2)), []).
Proof.
  intros Henc Hl Ho.
  assert (Hp : base16_pair enc fr_base16_alphabet_decode_mc)
    by (destruct Henc as [->| ->]; [apply base16_pair_lc|apply base16_pair_uc]).
  destruct (base16_encode_ok enc _ Hp l Hl) as (s & Hs & E).
  unfold fr_base16_encode_nstd. rewrite E. case_decide; [|done].
  pose proof (length_hex _ _ _ _ Hs) as Ls. exists s. cbn [mbind option_bind]. rewrite Ls.
  split; [done|]. unfold fr_base16_decode_nstd.
  by apply (base16_decode_ok enc _); [done..|lia|].
Qed.

Lemma base16_roundtrip_witness :
  exists s, fr_base16_encode_nstd fr_base16_alphabet_encode_lc 4 [0xde; 0x07] =
      Some (Z.of_nat 4, s) /\
    fr_base16_decode_nstd fr_base16_alphabet_decode_mc 2 s true = Some (2, [0xde; 0x07], 4%nat, PARSE_OK).
Proof.
  apply (base16_roundtrip fr_base16_alphabet_encode_lc [0xde; 0x07] 4 2 true);
    [by left|by apply (bool_decide_unpack _); vm_compute|simpl; lia].
Defined.
