(* ===== verification/Base64.v ===== *)
(** * Base64 text: [lib/util/base64.c]

    Encoding and decoding between byte buffers and base64 strings, for buffers of a fixed
    size (the source's buffers may also grow through a callback, or refill from one; then
    the size is what they can grow to).  [None] is an access outside a table. *)
From S2P Require Import Prelude Bytes Rfc4648.

(** ** Alphabets: tables of 255 entries *)

Section Alphabets.
Context `{!RangeMacros}.

Definition fr_base64_alphabet_encode : list Z :=
  init_table 255 ([(62%nat, 43); (63%nat, 47)] ++ run 52 48 10 ++ run 0 65 26 ++ run 26 97 26).

Definition fr_base64_alphabet_decode : list Z :=
  init_table 255
    (F 32 0 UINT8_MAX ++ F 8 32 UINT8_MAX ++ F 2 40 UINT8_MAX ++ [(43%nat, 62)] ++
     F 2 44 UINT8_MAX ++ F 1 46 UINT8_MAX ++ [(47%nat, 63)] ++ run 48 52 10 ++
     F 4 58 UINT8_MAX ++ F 2 62 UINT8_MAX ++ F 1 64 UINT8_MAX ++ run 65 0 26 ++
     F 4 91 UINT8_MAX ++ F 2 95 UINT8_MAX ++ run 97 26 26 ++
     F 128 123 UINT8_MAX ++ F 4 251 UINT8_MAX).

Definition fr_base64_url_alphabet_encode : list Z :=
  init_table 255 ([(62%nat, 45)] ++ run 52 48 10 ++ [(63%nat, 95)] ++ run 0 65 26 ++ run 26 97 26).

Definition fr_base64_url_alphabet_decode : list Z :=
  init_table 255
    (F 32 0 UINT8_MAX ++ F 8 32 UINT8_MAX ++ F 4 40 UINT8_MAX ++ [(45%nat, 62)] ++
     F 2 46 UINT8_MAX ++ run 48 52 10 ++
     F 4 58 UINT8_MAX ++ F 2 62 UINT8_MAX ++ F 1 64 UINT8_MAX ++ run 65 0 26 ++
     F 4 91 UINT8_MAX ++ [(95%nat, 63)] ++ F 1 96 UINT8_MAX ++ run 97 26 26 ++
     F 128 123 UINT8_MAX ++ F 4 251 UINT8_MAX).
End Alphabets.

(** ** Encoding *)

Fixpoint base64_encode_loop (alphabet : list Z) (add_padding : bool) (room : nat) (inp : list Z)
    : option (Z + list Z) :=
  match inp with
  | a :: b :: c :: inp' =>
      cs ← chars alphabet
        [Z.land (Z.shiftr a 2) 0x3f;
         Z.land (Z.lor (Z.shiftl a 4) (Z.shiftr b 4)) 0x3f;
         Z.land (Z.lor (Z.shiftl b 2) (Z.shiftr c 6)) 0x3f;
         Z.land c 0x3f];
      in_chars room cs (fun room => base64_encode_loop alphabet add_padding room inp')
  | [a; b] =>
      cs ← chars alphabet
        [Z.land (Z.shiftr a 2) 0x3f;
         Z.land (Z.lor (Z.shiftl a 4) (Z.shiftr b 4)) 0x3f;
         Z.land (Z.shiftl b 2) 0x3f];
      in_chars room cs (fun room =>
        if add_padding then in_chars room [PAD] done_text else done_text room)
  | [a] =>
      cs ← chars alphabet [Z.land (Z.shiftr a 2) 0x3f; Z.land (Z.shiftl a 4) 0x3f];
      in_chars room cs (fun room =>
        if add_padding then in_chars room [PAD; PAD] done_text else done_text room)
  | [] => done_text room
  end.

(** The return value, and the text [out] is advanced over (none on error). *)
Definition fr_base64_encode_nstd (alphabet : list Z) (add_padding : bool) (outlen : nat) (inp : list Z)
    : option (Z * list Z) :=
  r ← base64_encode_loop alphabet add_padding outlen inp;
  Some (match r with inl n => (n, []) | inr s => (Z.of_nat (length s), s) end).

(** ** Decoding *)

Definition fr_is_base64_nstd (alphabet : list Z) : Z -> option bool := is_symbol 64 alphabet.

Definition byte64_0 (a0 a1 : Z) : Z := u8 (Z.lor (Z.shiftl a0 2) (Z.shiftr a1 4)).
Definition byte64_1 (a1 a2 : Z) : Z := u8 (Z.lor (Z.land (Z.shiftl a1 4) 0xf0) (Z.shiftr a2 2)).
Definition byte64_2 (a2 a3 : Z) : Z := u8 (Z.lor (Z.land (Z.shiftl a2 6) 0xc0) a3).

(** The loop over complete quanta: offset, room, bytes written and input left. *)
Fixpoint base64_quanta (alphabet : list Z) (pos room : nat) (inp : list Z)
    : option (decode_result + nat * nat * list Z * list Z) :=
  match inp with
  | p0 :: p1 :: p2 :: p3 :: inp' =>
      ok ← all_chars (fr_is_base64_nstd alphabet) [p0; p1; p2; p3];
      if (ok : bool) then
        a0 ← alphabet !! Z.to_nat p0;
        a1 ← alphabet !! Z.to_nat p1;
        a2 ← alphabet !! Z.to_nat p2;
        a3 ← alphabet !! Z.to_nat p3;
        let bytes := [byte64_0 a0 a1; byte64_1 a1 a2; byte64_2 a2 a3] in
        match in_bytes room bytes with
        | None => Some (inl (error_at pos ERROR_OUT_OF_SPACE))
        | Some room =>
            r ← base64_quanta alphabet (pos + 4) room inp';
            Some (match r with
                  | inl e => inl e
                  | inr (pos, room, out, rest) => inr (pos, room, bytes ++ out, rest)
                  end)
        end
      else Some (inr (pos, room, [], inp))
  | _ => Some (inr (pos, room, [], inp))
  end.

Definition fr_base64_decode_nstd (alphabet : list Z) (outlen : nat) (inp : list Z)
    (expect_padding no_trailing : bool) : option decode_result :=
  q ← base64_quanta alphabet 0 outlen inp;
  match q with
  | inl e => Some e
  | inr (pos, room, out, inp) =>
      '(final, rest) ← span_chars (fr_is_base64_nstd alphabet) inp;
      let pos := (pos + length final)%nat in
      let finish bytes pad :=
        match in_bytes room bytes with
        | None => error_at pos ERROR_OUT_OF_SPACE
        | Some _ => decode_tail expect_padding no_trailing (out ++ bytes) pad pos rest
        end in
      a ← mapM (fun c => alphabet !! Z.to_nat c) final;
      Some (match a with
            | [] => decode_tail expect_padding no_trailing out 0 pos rest
            | [a0; a1] => finish [byte64_0 a0 a1] 2%nat
            | [a0; a1; a2] => finish [byte64_0 a0 a1; byte64_1 a1 a2] 1%nat
            | _ => error_at pos ERROR_FORMAT
            end)
  end.

(** ** Symbols and bytes *)

Lemma sym_range x : 0 <= Z.land x 0x3f < 64.
Proof. change 0x3f with (Z.ones 6). rewrite Z.land_ones by lia. apply Z.mod_pos_bound. lia. Qed.

Lemma bytes_of_symbols a b c :
  byte_ok a -> byte_ok b -> byte_ok c ->
  byte64_0 (Z.land (Z.shiftr a 2) 0x3f) (Z.land (Z.lor (Z.shiftl a 4) (Z.shiftr b 4)) 0x3f) = a /\
  byte64_0 (Z.land (Z.shiftr a 2) 0x3f) (Z.land (Z.shiftl a 4) 0x3f) = a /\
  byte64_1 (Z.land (Z.lor (Z.shiftl a 4) (Z.shiftr b 4)) 0x3f)
           (Z.land (Z.lor (Z.shiftl b 2) (Z.shiftr c 6)) 0x3f) = b /\
  byte64_1 (Z.land (Z.lor (Z.shiftl a 4) (Z.shiftr b 4)) 0x3f) (Z.land (Z.shiftl b 2) 0x3f) = b /\
  byte64_2 (Z.land (Z.lor (Z.shiftl b 2) (Z.shiftr c 6)) 0x3f) (Z.land c 0x3f) = c.
Proof.
  intros Ha Hb Hc. split_and!; (apply byte_ext; [apply u8_range|done|]);
    repeat constructor; unfold byte64_0, byte64_1, byte64_2; bit_eval.
Qed.

(** The six bits of a symbol. *)
Lemma symbol_of_bits x l : 0 <= x < 64 -> Z.testbit x <$> [5; 4; 3; 2; 1; 0] = l -> bits_val l = x.
Proof. intros Hx <-. by apply bits_val_6. Qed.

Ltac symbol6 := apply symbol_of_bits; [apply sym_range|]; cbn [fmap list_fmap];
  repeat (apply (f_equal2 cons); [bit_eval|]); done.

Lemma symbols_quantum a b c l :
  byte_ok a -> byte_ok b -> byte_ok c ->
  rfc4648_symbols 6 (a :: b :: c :: l) =
  [Z.land (Z.shiftr a 2) 0x3f;
   Z.land (Z.lor (Z.shiftl a 4) (Z.shiftr b 4)) 0x3f;
   Z.land (Z.lor (Z.shiftl b 2) (Z.shiftr c 6)) 0x3f;
   Z.land c 0x3f] ++ rfc4648_symbols 6 l.
Proof.
  intros Ha Hb Hc. unfold rfc4648_symbols. cbn [mbind list_bind]. set (r := l ≫= byte_bits).
  change (byte_bits a ++ byte_bits b ++ byte_bits c ++ r) with
    ((Z.testbit a <$> [7; 6; 5; 4; 3; 2]) ++
     ((Z.testbit a <$> [1; 0]) ++ (Z.testbit b <$> [7; 6; 5; 4])) ++
     ((Z.testbit b <$> [3; 2; 1; 0]) ++ (Z.testbit c <$> [7; 6])) ++
     (Z.testbit c <$> [5; 4; 3; 2; 1; 0]) ++ r).
  cbv zeta. rewrite !symbols_full by (done || lia). cbn [app]. repeat (apply (f_equal2 cons); [symbol6|]). done.
Qed.

Lemma symbols_two a b :
  byte_ok a -> byte_ok b ->
  rfc4648_symbols 6 [a; b] =
  [Z.land (Z.shiftr a 2) 0x3f; Z.land (Z.lor (Z.shiftl a 4) (Z.shiftr b 4)) 0x3f;
   Z.land (Z.shiftl b 2) 0x3f].
Proof.
  intros Ha Hb. unfold rfc4648_symbols, byte_bits. cbn -[Z.testbit bits_val].
  repeat (apply (f_equal2 cons); [symbol6|]). done.
Qed.

Lemma symbols_one a :
  byte_ok a ->
  rfc4648_symbols 6 [a] = [Z.land (Z.shiftr a 2) 0x3f; Z.land (Z.shiftl a 4) 0x3f].
Proof.
  intros Ha. unfold rfc4648_symbols, byte_bits. cbn -[Z.testbit bits_val].
  repeat (apply (f_equal2 cons); [symbol6|]). done.
Qed.

(** ** Encoding and decoding against the reference *)

Section Correct.
Context (enc dec : list Z) `{!AlphabetPair 64 enc dec}.

Definition text64 (padding : bool) (l : list Z) : list Z := rfc4648_encode 6 4 (char_of enc) padding l.

Lemma text64_quantum padding a b c l :
  byte_ok a -> byte_ok b -> byte_ok c ->
  text64 padding (a :: b :: c :: l) =
  (char_of enc <$>
   [Z.land (Z.shiftr a 2) 0x3f;
    Z.land (Z.lor (Z.shiftl a 4) (Z.shiftr b 4)) 0x3f;
    Z.land (Z.lor (Z.shiftl b 2) (Z.shiftr c 6)) 0x3f;
    Z.land c 0x3f]) ++ text64 padding l.
Proof.
  intros Ha Hb Hc. apply rfc4648_encode_full; [lia|done|]. by apply symbols_quantum.
Qed.

Lemma text64_two padding a b :
  byte_ok a -> byte_ok b ->
  text64 padding [a; b] =
  (char_of enc <$> [Z.land (Z.shiftr a 2) 0x3f; Z.land (Z.lor (Z.shiftl a 4) (Z.shiftr b 4)) 0x3f;
     Z.land (Z.shiftl b 2) 0x3f]) ++ padding_text padding 1.
Proof. intros Ha Hb. unfold text64, rfc4648_encode. by rewrite symbols_two. Qed.

Lemma text64_one padding a :
  byte_ok a ->
  text64 padding [a] =
  (char_of enc <$> [Z.land (Z.shiftr a 2) 0x3f; Z.land (Z.shiftl a 4) 0x3f]) ++
  padding_text padding 2.
Proof. intros Ha. unfold text64, rfc4648_encode. by rewrite symbols_one. Qed.

Lemma base64_encode_loop_spec padding : forall l room,
  bytes_ok l ->
  written (text64 padding l)
    (write_end 4 (length (rfc4648_symbols 6 l)) (length (text64 padding l)) room) room
    (base64_encode_loop enc padding room l).
Proof.
  assert (Hchars : forall syms, Forall (fun x => exists y, x = Z.land y 0x3f) syms ->
    chars enc syms = Some (char_of enc <$> syms)).
  { intros syms Hs. apply (chars_ok 64 enc dec). eapply list.Forall_impl; [exact Hs|].
    intros x (y & ->). apply sym_range. }
  intros l. pattern l. apply (list_chunk_ind 3); clear l;
    [intros l Hl room Hb|intros l1 l2 Hl1 IH room Hb|lia].
  - destruct l as [|a [|b [|? ?]]]; [| | |simpl in Hl; lia]; cbn [base64_encode_loop].
    + by destruct padding.
    + apply Forall_cons_1 in Hb as [Ha _]. rewrite Hchars by (repeat constructor; eauto).
      cbn [mbind option_bind]. rewrite text64_one, symbols_one by done.
      apply (in_last_spec 4 padding 2); [done|cbn [length]; lia].
    + apply Forall_cons_1 in Hb as [Ha Hb]. apply Forall_cons_1 in Hb as [Hb _].
      rewrite Hchars by (repeat constructor; eauto).
      cbn [mbind option_bind]. rewrite text64_two, symbols_two by done.
      apply (in_last_spec 4 padding 1); [done|cbn [length]; lia].
  - destruct l1 as [|a [|b [|c [|? ?]]]]; try (simpl in Hl1; lia).
    apply Forall_cons_1 in Hb as [Ha Hb]. apply Forall_cons_1 in Hb as [Hb Hc].
    apply Forall_cons_1 in Hc as [Hc Hl2]. cbn [app base64_encode_loop].
    rewrite Hchars by (repeat constructor; eauto). cbn [mbind option_bind].
    rewrite text64_quantum, symbols_quantum by done. rewrite (length_app [_; _; _; _]).
    apply (in_quantum_spec 4); [lia|done|]. by apply IH.
Qed.

Lemma base64_quanta_short pos room padding l :
  bytes_ok l -> (length l < 3)%nat ->
  base64_quanta dec pos room (text64 padding l) = Some (inr (pos, room, [], text64 padding l)).
Proof.
  intros Hb Hl. destruct l as [|a [|b [|? ?]]]; [| | |simpl in Hl; lia].
  - by destruct padding.
  - apply Forall_cons_1 in Hb as [Ha _]. rewrite text64_one by done. destruct padding; [|done].
    cbn [fmap list_fmap app padding_text replicate base64_quanta].
    unfold fr_is_base64_nstd. erewrite (all_chars_pad 64 enc dec _ [_; _]); [done|reflexivity|repeat constructor; apply sym_range].
  - apply Forall_cons_1 in Hb as [Ha Hb]. apply Forall_cons_1 in Hb as [Hb _].
    rewrite text64_two by done. destruct padding; [|done].
    cbn [fmap list_fmap app padding_text replicate base64_quanta].
    unfold fr_is_base64_nstd. erewrite (all_chars_pad 64 enc dec _ [_; _; _]); [done|reflexivity|repeat constructor; apply sym_range].
Qed.

(** The first loop decodes all complete quanta. *)
Lemma base64_quanta_spec padding : forall l pos room,
  bytes_ok l -> (length l <= room)%nat ->
  exists l1 l2 k, l = l1 ++ l2 /\ length l1 = (3 * k)%nat /\ (length l2 < 3)%nat /\
    length (text64 padding l) = (4 * k + length (text64 padding l2))%nat /\
    base64_quanta dec pos room (text64 padding l) =
      Some (inr ((pos + 4 * k)%nat, (room - length l1)%nat, l1, text64 padding l2)).
Proof.
  intros l. pattern l. apply (list_chunk_ind 3); clear l;
    [intros l Hl pos room Hb Hr|intros l1 l2 Hl1 IH pos room Hb Hr|lia].
  { exists [], l, 0%nat. split_and!; try done. rewrite base64_quanta_short by done.
    by rewrite Nat.mul_0_r, Nat.add_0_r, Nat.sub_0_r. }
  destruct l1 as [|a [|b [|c [|? ?]]]]; try (simpl in Hl1; lia).
  apply Forall_cons_1 in Hb as [Ha Hb]. apply Forall_cons_1 in Hb as [Hb Hc].
  apply Forall_cons_1 in Hc as [Hc Hl2]. cbn [app length] in *.
  destruct (IH (pos + 4)%nat (room - 3)%nat Hl2) as (m1 & m2 & k & -> & Hm1 & Hm2 & Ht & E); [lia|].
  exists (a :: b :: c :: m1), m2, (S k). rewrite text64_quantum by done.
  split; [done|]. split; [cbn [length]; lia|]. split; [done|].
  split; [rewrite length_app, Ht; cbn [fmap list_fmap length]; lia|].
  cbn [fmap list_fmap app padding_text replicate base64_quanta].
  unfold fr_is_base64_nstd. erewrite (all_chars_ok 64 enc dec _ [_; _; _; _]); [|reflexivity|repeat constructor; apply sym_range].
  cbn [mbind option_bind].
  destruct (is_char 64 enc dec _ (sym_range (Z.shiftr a 2))) as [_ ->].
  destruct (is_char 64 enc dec _ (sym_range (Z.lor (Z.shiftl a 4) (Z.shiftr b 4)))) as [_ ->].
  destruct (is_char 64 enc dec _ (sym_range (Z.lor (Z.shiftl b 2) (Z.shiftr c 6)))) as [_ ->].
  destruct (is_char 64 enc dec _ (sym_range c)) as [_ ->]. cbn [mbind option_bind].
  destruct (bytes_of_symbols a b c) as (-> & _ & -> & _ & ->); [done..|].
  unfold in_bytes. cbn [length]. rewrite decide_False by lia. rewrite E.
  cbn [mbind option_bind app length].
  replace (pos + 4 + 4 * k)%nat with (pos + 4 * S k)%nat by lia.
  by replace (room - 3 - length m1)%nat with (room - S (S (S (length m1))))%nat by lia.
Qed.

Lemma base64_decode_spec padding no_trailing l outlen :
  bytes_ok l -> (length l <= outlen)%nat ->
  fr_base64_decode_nstd dec outlen (text64 padding l) padding no_trailing =
    Some (Decoded l (length (text64 padding l))).
Proof.
  intros Hb Hr. unfold fr_base64_decode_nstd.
  destruct (base64_quanta_spec padding l 0 outlen Hb Hr)
    as (l1 & l2 & k & -> & Hl1 & Hl2 & Ht & ->). cbn [mbind option_bind]. rewrite Ht.
  apply Forall_app in Hb as [Hb1 Hb2]. rewrite length_app in Hr.
  destruct l2 as [|a [|b [|? ?]]]; [| | |simpl in Hl2; lia].
  - rewrite app_nil_r in *. replace (text64 padding []) with (@nil Z) by (by destruct padding).
    cbn [span_chars mbind option_bind length mapM]. rewrite !Nat.add_0_r.
    change (mapM _ []) with (Some (@nil Z)). cbn [mbind option_bind]. by rewrite decode_tail_nil.
  - apply Forall_cons_1 in Hb2 as [Ha _]. rewrite text64_one by done.
    unfold fr_is_base64_nstd. rewrite (span_chars_ok 64 enc dec)
      by (first [apply padding_text_head|repeat constructor; apply sym_range]).
    cbn [mbind option_bind]. rewrite (lookup_chars_ok 64 enc dec) by (repeat constructor; apply sym_range).
    cbn [mbind option_bind]. destruct (bytes_of_symbols a 0 0) as (_ & -> & _); [done..|].
    unfold in_bytes. cbn [length] in *. rewrite decide_False by lia. rewrite decode_tail_ok.
    rewrite length_app, length_fmap. cbn [length]. by rewrite Nat.add_assoc.
  - apply Forall_cons_1 in Hb2 as [Ha Hb]. apply Forall_cons_1 in Hb as [Hb _].
    rewrite text64_two by done.
    unfold fr_is_base64_nstd. rewrite (span_chars_ok 64 enc dec)
      by (first [apply padding_text_head|repeat constructor; apply sym_range]).
    cbn [mbind option_bind]. rewrite (lookup_chars_ok 64 enc dec) by (repeat constructor; apply sym_range).
    cbn [mbind option_bind]. destruct (bytes_of_symbols a b 0) as (-> & _ & _ & -> & _); [done..|].
    unfold in_bytes. cbn [length] in *. rewrite decide_False by lia. rewrite decode_tail_ok.
    rewrite length_app, length_fmap. cbn [length]. by rewrite Nat.add_assoc.
Qed.
End Correct.

(** [base64.h]: the sizes of buffers. *)
Definition FR_BASE64_ENC_LENGTH (inlen : nat) : nat := ((inlen + 2) / 3 * 4)%nat.
Definition FR_BASE64_DEC_LENGTH (inlen : nat) : nat := (3 * (inlen / 4) + 2)%nat.

Lemma text64_length enc padding : forall l,
  bytes_ok l ->
  exists k r, length l = (3 * k + r)%nat /\ (r < 3)%nat /\
    length (text64 enc padding l) =
      (4 * k + if decide (r = 0) then 0 else if padding then 4 else r + 1)%nat.
Proof.
  intros l. pattern l. apply (list_chunk_ind 3); clear l; [intros l Hl Hb|intros l1 l2 Hl1 IH Hb|lia].
  - exists 0%nat, (length l). split; [lia|]. split; [done|].
    destruct l as [|a [|b [|? ?]]]; [| | |simpl in Hl; lia].
    + by destruct padding.
    + apply Forall_cons_1 in Hb as [Ha _]. rewrite text64_one by done. by destruct padding.
    + apply Forall_cons_1 in Hb as [Ha Hb]. apply Forall_cons_1 in Hb as [Hb _].
      rewrite text64_two by done. by destruct padding.
  - destruct l1 as [|a [|b [|c [|? ?]]]]; try (simpl in Hl1; lia).
    apply Forall_cons_1 in Hb as [Ha Hb]. apply Forall_cons_1 in Hb as [Hb Hc].
    apply Forall_cons_1 in Hc as [Hc Hl2]. destruct (IH Hl2) as (k & r & El & Hr & Et).
    exists (S k), r. cbn [app length]. rewrite text64_quantum by done.
    split; [lia|]. split; [done|]. rewrite length_app, Et. cbn [fmap list_fmap length]. lia.
Qed.

Lemma text64_sizes enc padding l :
  bytes_ok l ->
  (length (text64 enc padding l) <= FR_BASE64_ENC_LENGTH (length l))%nat /\
  (length l <= FR_BASE64_DEC_LENGTH (length (text64 enc padding l)))%nat.
Proof.
  intros Hb. destruct (text64_length enc padding l Hb) as (k & r & -> & Hr & ->).
  unfold FR_BASE64_ENC_LENGTH, FR_BASE64_DEC_LENGTH.
  assert (E3 : ((3 * k + r + 2) / 3 = k + (r + 2) / 3)%nat).
  { replace (3 * k + r + 2)%nat with (r + 2 + k * 3)%nat by lia. rewrite Nat.div_add by lia. lia. }
  set (t := if decide (r = 0)%nat then _ else _).
  assert (E4 : ((4 * k + t) / 4 = k + t / 4)%nat).
  { replace (4 * k + t)%nat with (t + k * 4)%nat by lia. rewrite Nat.div_add by lia. lia. }
  rewrite E3, E4. clear E3 E4. unfold t.
  assert (r = 0 \/ r = 1 \/ r = 2)%nat as [->|[->| ->]] by lia; destruct padding;
    first [rewrite decide_True by done|rewrite decide_False by done];
    repeat match goal with |- context [(?a / ?b)%nat] =>
      let c := eval compute in (a / b)%nat in change (a / b)%nat with c end; lia.
Qed.

(** The pairs of tables in the source. *)
#[export] Instance base64_standard `{!RangeMacros} :
  AlphabetPair 64 fr_base64_alphabet_encode fr_base64_alphabet_decode.
Proof.
  apply (alphabet_pair_checked 64). unfold fr_base64_alphabet_decode. rewrite !F_spec. by vm_compute.
Qed.

#[export] Instance base64_url `{!RangeMacros} :
  AlphabetPair 64 fr_base64_url_alphabet_encode fr_base64_url_alphabet_decode.
Proof.
  apply (alphabet_pair_checked 64). unfold fr_base64_url_alphabet_decode. rewrite !F_spec. by vm_compute.
Qed.

(** ** Theorems *)



(** The characters the decoders take for base64 are the alphabet and one more: the ranges of
    the decoding tables leave out the entry of the asterisk (standard) and of the comma
    (URL), so that these count as the symbol 0. *)
Theorem base64_accepted_chars `{!RangeMacros} c :
  0 <= c < 255 ->
  (fr_is_base64_nstd fr_base64_alphabet_decode c = Some true <->
     c = 42 \/ exists i, 0 <= i < 64 /\ fr_base64_alphabet_encode !! Z.to_nat i = Some c) /\
  (fr_is_base64_nstd fr_base64_url_alphabet_decode c = Some true <->
     c = 44 \/ exists i, 0 <= i < 64 /\ fr_base64_url_alphabet_encode !! Z.to_nat i = Some c).
Proof.
  assert (Hcheck : forall (enc dec : list Z) (x : nat), forallb (fun n =>
      eqb (bool_decide (fr_is_base64_nstd dec (Z.of_nat n) = Some true))
        (Nat.eqb n x || existsb (fun i => bool_decide (enc !! i = Some (Z.of_nat n))) (seq 0 64)))
      (seq 0 255) = true ->
    0 <= c < 255 ->
    fr_is_base64_nstd dec c = Some true <->
    c = Z.of_nat x \/ exists i, 0 <= i < 64 /\ enc !! Z.to_nat i = Some c); cycle 1.
  { intros Hc. split; [apply (Hcheck _ _ 42%nat)|apply (Hcheck _ _ 44%nat)]; try done; unfold fr_base64_alphabet_decode,
      fr_base64_url_alphabet_decode; rewrite !F_spec; by vm_compute. }
  intros enc dec x Hall Hc. rewrite forallb_forall in Hall. specialize (Hall (Z.to_nat c)).
  rewrite in_seq, Z2Nat.id in Hall by lia. specialize (Hall ltac:(lia)). apply eqb_prop in Hall.
  rewrite <- (bool_decide_eq_true (fr_is_base64_nstd dec c = Some true)), Hall, orb_true_iff, Nat.eqb_eq.
  rewrite existsb_exists. split.
  - intros [E|(i & Hi & Ei)]; [left; lia|right]. apply in_seq in Hi. apply bool_decide_eq_true in Ei.
    exists (Z.of_nat i). rewrite Nat2Z.id. split; [lia|done].
  - intros [->|(i & Hi & Ei)]; [left; lia|right]. exists (Z.to_nat i).
    split; [apply in_seq; lia|by apply bool_decide_eq_true].
Qed.

Lemma base64_accepted_chars_witness :
  fr_is_base64_nstd fr_base64_alphabet_decode 42 = Some true /\
  fr_is_base64_nstd fr_base64_url_alphabet_decode 44 = Some true.
Proof.
  destruct (base64_accepted_chars 42 ltac:(lia)) as [[_ H42] _].
  destruct (base64_accepted_chars 44 ltac:(lia)) as [_ [_ H44]].
  split; [exact (H42 (or_introl eq_refl))|exact (H44 (or_introl eq_refl))].
Defined.

(** So a line of asterisks decodes, with all the checks asked for, to zero bytes. *)
Example base64_asterisks `{!RangeMacros} :
  fr_base64_decode_nstd fr_base64_alphabet_decode 3 [42; 42; 42; 42] true true =
    Some (Decoded [0; 0; 0] 4).
Proof. unfold fr_base64_alphabet_decode. rewrite !F_spec. by vm_compute. Qed.

(** The tables have 255 entries: a byte 0xff in the text is looked up past their end. *)
Example base64_decode_overrun `{!RangeMacros} :
  fr_base64_decode_nstd fr_base64_alphabet_decode 3 [255] true true = None.
Proof. unfold fr_base64_alphabet_decode. rewrite !F_spec. by vm_compute. Qed.
