(* ===== verification/Base32.v ===== *)
(** * Base32 text: [lib/util/base32.c]

    Encoding and decoding between byte buffers and base32 strings, for buffers of a fixed
    size, as in Base64.v. *)
From S2P Require Import Prelude Bytes Rfc4648.

(** ** Alphabets: tables of 255 entries *)

Section Alphabets.
Context `{!RangeMacros}.

Definition fr_base32_alphabet_encode : list Z := init_table 255 (run 26 50 6 ++ run 0 65 26).

Definition fr_base32_alphabet_decode : list Z :=
  init_table 255
    (F 32 0 UINT8_MAX ++ F 16 32 UINT8_MAX ++ F 2 48 UINT8_MAX ++ run 50 26 6 ++
     F 8 56 UINT8_MAX ++ F 1 64 UINT8_MAX ++ run 65 0 26 ++
     F 128 91 UINT8_MAX ++ F 32 219 UINT8_MAX ++ F 4 251 UINT8_MAX).

Definition fr_base32_hex_alphabet_encode : list Z := init_table 255 (run 0 48 10 ++ run 10 65 22).

Definition fr_base32_hex_alphabet_decode : list Z :=
  init_table 255
    (F 32 0 UINT8_MAX ++ F 16 32 UINT8_MAX ++ run 48 0 10 ++
     F 4 58 UINT8_MAX ++ F 2 62 UINT8_MAX ++ F 1 64 UINT8_MAX ++ run 65 10 22 ++
     F 128 87 UINT8_MAX ++ F 32 215 UINT8_MAX ++ F 8 247 UINT8_MAX).
End Alphabets.

(** ** Encoding *)

Fixpoint base32_encode_loop (alphabet : list Z) (add_padding : bool) (room : nat) (inp : list Z)
    : option (Z + list Z) :=
  match inp with
  | a :: b :: c :: d :: e :: inp' =>
      cs ← chars alphabet
        [Z.land (Z.shiftr a 3) 0x1f;
         Z.land (Z.lor (Z.shiftl a 2) (Z.shiftr b 6)) 0x1f;
         Z.land (Z.shiftr b 1) 0x1f;
         Z.land (Z.lor (Z.shiftl b 4) (Z.shiftr c 4)) 0x1f;
         Z.land (Z.lor (Z.shiftl c 1) (Z.shiftr d 7)) 0x1f;
         Z.land (Z.shiftr d 2) 0x1f;
         Z.land (Z.lor (Z.shiftl d 3) (Z.shiftr e 5)) 0x1f;
         Z.land e 0x1f];
      in_chars room cs (fun room => base32_encode_loop alphabet add_padding room inp')
  | [a; b; c; d] =>
      cs ← chars alphabet
        [Z.land (Z.shiftr a 3) 0x1f;
         Z.land (Z.lor (Z.shiftl a 2) (Z.shiftr b 6)) 0x1f;
         Z.land (Z.shiftr b 1) 0x1f;
         Z.land (Z.lor (Z.shiftl b 4) (Z.shiftr c 4)) 0x1f;
         Z.land (Z.lor (Z.shiftl c 1) (Z.shiftr d 7)) 0x1f;
         Z.land (Z.shiftr d 2) 0x1f;
         Z.land (Z.shiftl d 3) 0x1f];
      in_chars room cs (fun room =>
        if add_padding then in_chars room [PAD] done_text else done_text room)
  | [a; b; c] =>
      cs ← chars alphabet
        [Z.land (Z.shiftr a 3) 0x1f;
         Z.land (Z.lor (Z.shiftl a 2) (Z.shiftr b 6)) 0x1f;
         Z.land (Z.shiftr b 1) 0x1f;
         Z.land (Z.lor (Z.shiftl b 4) (Z.shiftr c 4)) 0x1f;
         Z.land (Z.shiftl c 1) 0x1f];
      in_chars room cs (fun room =>
        if add_padding then in_chars room [PAD; PAD; PAD] done_text else done_text room)
  | [a; b] =>
      cs ← chars alphabet
        [Z.land (Z.shiftr a 3) 0x1f;
         Z.land (Z.lor (Z.shiftl a 2) (Z.shiftr b 6)) 0x1f;
         Z.land (Z.shiftr b 1) 0x1f;
         Z.land (Z.shiftl b 4) 0x1f];
      in_chars room cs (fun room =>
        if add_padding then in_chars room [PAD; PAD; PAD; PAD] done_text else done_text room)
  | [a] =>
      cs ← chars alphabet
        [Z.land (Z.shiftr a 3) 0x1f;
         Z.land (Z.shiftl a 2) 0x1f];
      in_chars room cs (fun room =>
        if add_padding then in_chars room [PAD; PAD; PAD; PAD; PAD; PAD] done_text else done_text room)
  | [] => done_text room
  end.

(** The return value, and the text [out] is advanced over (none on error). *)
Definition fr_base32_encode_nstd (alphabet : list Z) (add_padding : bool) (outlen : nat) (inp : list Z)
    : option (Z * list Z) :=
  r ← base32_encode_loop alphabet add_padding outlen inp;
  Some (match r with inl n => (n, []) | inr s => (Z.of_nat (length s), s) end).

(** ** Decoding *)

Definition fr_is_base32_nstd (alphabet : list Z) : Z -> option bool := is_symbol 32 alphabet.

Definition byte32_0 (a0 a1 : Z) : Z := u8 (Z.lor (Z.shiftl a0 3) (Z.shiftr a1 2)).
Definition byte32_1 (a1 a2 a3 : Z) : Z :=
  u8 (Z.lor (Z.lor (Z.shiftl a1 6) (Z.shiftl a2 1)) (Z.shiftr a3 4)).
Definition byte32_2 (a3 a4 : Z) : Z := u8 (Z.lor (Z.shiftl a3 4) (Z.shiftr a4 1)).
Definition byte32_3 (a4 a5 a6 : Z) : Z :=
  u8 (Z.lor (Z.lor (Z.shiftl a4 7) (Z.shiftl a5 2)) (Z.shiftr a6 3)).
Definition byte32_4 (a6 a7 : Z) : Z := u8 (Z.lor (Z.shiftl a6 5) a7).

(** The loop over complete quanta: offset, room, bytes written and input left. *)
Fixpoint base32_quanta (alphabet : list Z) (pos room : nat) (inp : list Z)
    : option (decode_result + nat * nat * list Z * list Z) :=
  match inp with
  | p0 :: p1 :: p2 :: p3 :: p4 :: p5 :: p6 :: p7 :: inp' =>
      ok ← all_chars (fr_is_base32_nstd alphabet) [p0; p1; p2; p3; p4; p5; p6; p7];
      if (ok : bool) then
        a0 ← alphabet !! Z.to_nat p0;
        a1 ← alphabet !! Z.to_nat p1;
        a2 ← alphabet !! Z.to_nat p2;
        a3 ← alphabet !! Z.to_nat p3;
        a4 ← alphabet !! Z.to_nat p4;
        a5 ← alphabet !! Z.to_nat p5;
        a6 ← alphabet !! Z.to_nat p6;
        a7 ← alphabet !! Z.to_nat p7;
        let bytes := [byte32_0 a0 a1; byte32_1 a1 a2 a3; byte32_2 a3 a4; byte32_3 a4 a5 a6;
                      byte32_4 a6 a7] in
        match in_bytes room bytes with
        | None => Some (inl (error_at pos ERROR_OUT_OF_SPACE))
        | Some room =>
            r ← base32_quanta alphabet (pos + 8) room inp';
            Some (match r with
                  | inl e => inl e
                  | inr (pos, room, out, rest) => inr (pos, room, bytes ++ out, rest)
                  end)
        end
      else Some (inr (pos, room, [], inp))
  | _ => Some (inr (pos, room, [], inp))
  end.

Definition fr_base32_decode_nstd (alphabet : list Z) (outlen : nat) (inp : list Z)
    (expect_padding no_trailing : bool) : option decode_result :=
  q ← base32_quanta alphabet 0 outlen inp;
  match q with
  | inl e => Some e
  | inr (pos, room, out, inp) =>
      '(final, rest) ← span_chars (fr_is_base32_nstd alphabet) inp;
      let pos := (pos + length final)%nat in
      let finish bytes pad :=
        match in_bytes room bytes with
        | None => error_at pos ERROR_OUT_OF_SPACE
        | Some _ => decode_tail expect_padding no_trailing (out ++ bytes) pad pos rest
        end in
      a ← mapM (fun c => alphabet !! Z.to_nat c) final;
      Some (match a with
            | [] => decode_tail expect_padding no_trailing out 0 pos rest
            | [a0; a1] => finish [byte32_0 a0 a1] 6%nat
            | [a0; a1; a2; a3] => finish [byte32_0 a0 a1; byte32_1 a1 a2 a3] 4%nat
            | [a0; a1; a2; a3; a4] =>
                finish [byte32_0 a0 a1; byte32_1 a1 a2 a3; byte32_2 a3 a4] 3%nat
            | [a0; a1; a2; a3; a4; a5; a6] =>
                finish [byte32_0 a0 a1; byte32_1 a1 a2 a3; byte32_2 a3 a4; byte32_3 a4 a5 a6] 1%nat
            | _ => error_at pos ERROR_FORMAT
            end)
  end.

(** ** Symbols and bytes *)

Lemma sym32_range x : 0 <= Z.land x 0x1f < 32.
Proof. change 0x1f with (Z.ones 5). rewrite Z.land_ones by lia. apply Z.mod_pos_bound. lia. Qed.

Ltac symbols_in_range := repeat constructor; apply sym32_range.

Lemma bytes_of_symbols32 a b c d e :
  byte_ok a -> byte_ok b -> byte_ok c -> byte_ok d -> byte_ok e ->
  byte32_0 (Z.land (Z.shiftr a 3) 0x1f)
           (Z.land (Z.lor (Z.shiftl a 2) (Z.shiftr b 6)) 0x1f) = a /\
  byte32_0 (Z.land (Z.shiftr a 3) 0x1f) (Z.land (Z.shiftl a 2) 0x1f) = a /\
  byte32_1 (Z.land (Z.lor (Z.shiftl a 2) (Z.shiftr b 6)) 0x1f) (Z.land (Z.shiftr b 1) 0x1f)
           (Z.land (Z.lor (Z.shiftl b 4) (Z.shiftr c 4)) 0x1f) = b /\
  byte32_1 (Z.land (Z.lor (Z.shiftl a 2) (Z.shiftr b 6)) 0x1f) (Z.land (Z.shiftr b 1) 0x1f) (Z.land (Z.shiftl b 4) 0x1f) = b /\
  byte32_2 (Z.land (Z.lor (Z.shiftl b 4) (Z.shiftr c 4)) 0x1f)
           (Z.land (Z.lor (Z.shiftl c 1) (Z.shiftr d 7)) 0x1f) = c /\
  byte32_2 (Z.land (Z.lor (Z.shiftl b 4) (Z.shiftr c 4)) 0x1f) (Z.land (Z.shiftl c 1) 0x1f) = c /\
  byte32_3 (Z.land (Z.lor (Z.shiftl c 1) (Z.shiftr d 7)) 0x1f) (Z.land (Z.shiftr d 2) 0x1f)
           (Z.land (Z.lor (Z.shiftl d 3) (Z.shiftr e 5)) 0x1f) = d /\
  byte32_3 (Z.land (Z.lor (Z.shiftl c 1) (Z.shiftr d 7)) 0x1f) (Z.land (Z.shiftr d 2) 0x1f) (Z.land (Z.shiftl d 3) 0x1f) = d /\
  byte32_4 (Z.land (Z.lor (Z.shiftl d 3) (Z.shiftr e 5)) 0x1f) (Z.land e 0x1f) = e.
Proof.
  intros Ha Hb Hc Hd He. split_and!; (apply byte_ext; [apply u8_range|done|]);
    repeat constructor; unfold byte32_0, byte32_1, byte32_2, byte32_3, byte32_4; bit_eval.
Qed.

(** The five bits of a symbol. *)
Lemma symbol32_of_bits x l : 0 <= x < 32 -> Z.testbit x <$> [4; 3; 2; 1; 0] = l -> bits_val l = x.
Proof. intros Hx <-. by apply bits_val_5. Qed.

Ltac symbol5 := apply symbol32_of_bits; [apply sym32_range|]; cbn [fmap list_fmap];
  repeat (apply (f_equal2 cons); [bit_eval|]); done.

Lemma symbols32_quantum a b c d e l :
  byte_ok a -> byte_ok b -> byte_ok c -> byte_ok d -> byte_ok e ->
  rfc4648_symbols 5 (a :: b :: c :: d :: e :: l) =
  [Z.land (Z.shiftr a 3) 0x1f;
   Z.land (Z.lor (Z.shiftl a 2) (Z.shiftr b 6)) 0x1f;
   Z.land (Z.shiftr b 1) 0x1f;
   Z.land (Z.lor (Z.shiftl b 4) (Z.shiftr c 4)) 0x1f;
   Z.land (Z.lor (Z.shiftl c 1) (Z.shiftr d 7)) 0x1f;
   Z.land (Z.shiftr d 2) 0x1f;
   Z.land (Z.lor (Z.shiftl d 3) (Z.shiftr e 5)) 0x1f;
   Z.land e 0x1f] ++ rfc4648_symbols 5 l.
Proof.
  intros Ha Hb Hc Hd He. unfold rfc4648_symbols. cbn [mbind list_bind]. set (r := l ≫= byte_bits).
  change (byte_bits a ++ byte_bits b ++ byte_bits c ++ byte_bits d ++ byte_bits e ++ r) with
    ((Z.testbit a <$> [7; 6; 5; 4; 3]) ++
     ((Z.testbit a <$> [2; 1; 0]) ++ (Z.testbit b <$> [7; 6])) ++
     (Z.testbit b <$> [5; 4; 3; 2; 1]) ++
     ((Z.testbit b <$> [0]) ++ (Z.testbit c <$> [7; 6; 5; 4])) ++
     ((Z.testbit c <$> [3; 2; 1; 0]) ++ (Z.testbit d <$> [7])) ++
     (Z.testbit d <$> [6; 5; 4; 3; 2]) ++
     ((Z.testbit d <$> [1; 0]) ++ (Z.testbit e <$> [7; 6; 5])) ++
     (Z.testbit e <$> [4; 3; 2; 1; 0]) ++ r).
  cbv zeta. rewrite !symbols_full by (done || lia). cbn [app].
  repeat (apply (f_equal2 cons); [symbol5|]). done.
Qed.

Lemma symbols32_4 a b c d :
  byte_ok a -> byte_ok b -> byte_ok c -> byte_ok d ->
  rfc4648_symbols 5 [a; b; c; d] =
  [Z.land (Z.shiftr a 3) 0x1f;
   Z.land (Z.lor (Z.shiftl a 2) (Z.shiftr b 6)) 0x1f;
   Z.land (Z.shiftr b 1) 0x1f;
   Z.land (Z.lor (Z.shiftl b 4) (Z.shiftr c 4)) 0x1f;
   Z.land (Z.lor (Z.shiftl c 1) (Z.shiftr d 7)) 0x1f;
   Z.land (Z.shiftr d 2) 0x1f;
   Z.land (Z.shiftl d 3) 0x1f].
Proof.
  intros. unfold rfc4648_symbols, byte_bits. cbn -[Z.testbit bits_val].
  repeat (apply (f_equal2 cons); [symbol5|]). done.
Qed.

Lemma symbols32_3 a b c :
  byte_ok a -> byte_ok b -> byte_ok c ->
  rfc4648_symbols 5 [a; b; c] =
  [Z.land (Z.shiftr a 3) 0x1f;
   Z.land (Z.lor (Z.shiftl a 2) (Z.shiftr b 6)) 0x1f;
   Z.land (Z.shiftr b 1) 0x1f;
   Z.land (Z.lor (Z.shiftl b 4) (Z.shiftr c 4)) 0x1f;
   Z.land (Z.shiftl c 1) 0x1f].
Proof.
  intros. unfold rfc4648_symbols, byte_bits. cbn -[Z.testbit bits_val].
  repeat (apply (f_equal2 cons); [symbol5|]). done.
Qed.

Lemma symbols32_2 a b :
  byte_ok a -> byte_ok b ->
  rfc4648_symbols 5 [a; b] =
  [Z.land (Z.shiftr a 3) 0x1f;
   Z.land (Z.lor (Z.shiftl a 2) (Z.shiftr b 6)) 0x1f;
   Z.land (Z.shiftr b 1) 0x1f;
   Z.land (Z.shiftl b 4) 0x1f].
Proof.
  intros. unfold rfc4648_symbols, byte_bits. cbn -[Z.testbit bits_val].
  repeat (apply (f_equal2 cons); [symbol5|]). done.
Qed.

Lemma symbols32_1 a :
  byte_ok a ->
  rfc4648_symbols 5 [a] =
  [Z.land (Z.shiftr a 3) 0x1f;
   Z.land (Z.shiftl a 2) 0x1f].
Proof.
  intros. unfold rfc4648_symbols, byte_bits. cbn -[Z.testbit bits_val].
  repeat (apply (f_equal2 cons); [symbol5|]). done.
Qed.

(** ** Encoding and decoding against the reference *)

(** The bytes of a list known to be one of bytes. *)
Ltac split_bytes :=
  repeat match goal with
  | H : bytes_ok (_ :: _) |- _ => apply Forall_cons_1 in H as [? H]
  | H : Forall byte_ok (_ :: _) |- _ => apply Forall_cons_1 in H as [? H]
  end.

Section Correct.
Context (enc dec : list Z) `{!AlphabetPair 32 enc dec}.

Definition text32 (padding : bool) (l : list Z) : list Z := rfc4648_encode 5 8 (char_of enc) padding l.

Lemma text32_quantum padding a b c d e l :
  byte_ok a -> byte_ok b -> byte_ok c -> byte_ok d -> byte_ok e ->
  text32 padding (a :: b :: c :: d :: e :: l) =
  (char_of enc <$>
   [Z.land (Z.shiftr a 3) 0x1f;
    Z.land (Z.lor (Z.shiftl a 2) (Z.shiftr b 6)) 0x1f;
    Z.land (Z.shiftr b 1) 0x1f;
    Z.land (Z.lor (Z.shiftl b 4) (Z.shiftr c 4)) 0x1f;
    Z.land (Z.lor (Z.shiftl c 1) (Z.shiftr d 7)) 0x1f;
    Z.land (Z.shiftr d 2) 0x1f;
    Z.land (Z.lor (Z.shiftl d 3) (Z.shiftr e 5)) 0x1f;
    Z.land e 0x1f]) ++ text32 padding l.
Proof. intros. apply rfc4648_encode_full; [lia|done|]. by apply symbols32_quantum. Qed.

Lemma text32_4 padding a b c d :
  byte_ok a -> byte_ok b -> byte_ok c -> byte_ok d ->
  text32 padding [a; b; c; d] =
  (char_of enc <$>
   [Z.land (Z.shiftr a 3) 0x1f;
    Z.land (Z.lor (Z.shiftl a 2) (Z.shiftr b 6)) 0x1f;
    Z.land (Z.shiftr b 1) 0x1f;
    Z.land (Z.lor (Z.shiftl b 4) (Z.shiftr c 4)) 0x1f;
    Z.land (Z.lor (Z.shiftl c 1) (Z.shiftr d 7)) 0x1f;
    Z.land (Z.shiftr d 2) 0x1f;
    Z.land (Z.shiftl d 3) 0x1f]) ++ padding_text padding 1.
Proof. intros. unfold text32, rfc4648_encode. by rewrite symbols32_4. Qed.

Lemma text32_3 padding a b c :
  byte_ok a -> byte_ok b -> byte_ok c ->
  text32 padding [a; b; c] =
  (char_of enc <$>
   [Z.land (Z.shiftr a 3) 0x1f;
    Z.land (Z.lor (Z.shiftl a 2) (Z.shiftr b 6)) 0x1f;
    Z.land (Z.shiftr b 1) 0x1f;
    Z.land (Z.lor (Z.shiftl b 4) (Z.shiftr c 4)) 0x1f;
    Z.land (Z.shiftl c 1) 0x1f]) ++ padding_text padding 3.
Proof. intros. unfold text32, rfc4648_encode. by rewrite symbols32_3. Qed.

Lemma text32_2 padding a b :
  byte_ok a -> byte_ok b ->
  text32 padding [a; b] =
  (char_of enc <$>
   [Z.land (Z.shiftr a 3) 0x1f;
    Z.land (Z.lor (Z.shiftl a 2) (Z.shiftr b 6)) 0x1f;
    Z.land (Z.shiftr b 1) 0x1f;
    Z.land (Z.shiftl b 4) 0x1f]) ++ padding_text padding 4.
Proof. intros. unfold text32, rfc4648_encode. by rewrite symbols32_2. Qed.

Lemma text32_1 padding a :
  byte_ok a ->
  text32 padding [a] =
  (char_of enc <$>
   [Z.land (Z.shiftr a 3) 0x1f;
    Z.land (Z.shiftl a 2) 0x1f]) ++ padding_text padding 6.
Proof. intros. unfold text32, rfc4648_encode. by rewrite symbols32_1. Qed.

Lemma base32_encode_loop_spec padding : forall l room,
  bytes_ok l ->
  written (text32 padding l)
    (write_end 8 (length (rfc4648_symbols 5 l)) (length (text32 padding l)) room) room
    (base32_encode_loop enc padding room l).
Proof.
  assert (Hchars : forall syms, Forall (fun x => exists y, x = Z.land y 0x1f) syms ->
    chars enc syms = Some (char_of enc <$> syms)).
  { intros syms Hs. apply (chars_ok 32 enc dec). eapply list.Forall_impl; [exact Hs|].
    intros x (y & ->). apply sym32_range. }
  intros l. pattern l. apply (list_chunk_ind 5); clear l;
    [intros l Hl room Hb|intros l1 l2 Hl1 IH room Hb|lia].
  - destruct l as [|a [|b [|c [|d [|? ?]]]]]; [| | | | |simpl in Hl; lia]; cbn [base32_encode_loop];
      split_bytes; [by destruct padding| | | |];
      (rewrite Hchars by (repeat constructor; eauto)); cbn [mbind option_bind].
    + rewrite text32_1, symbols32_1 by done. apply (in_last_spec 8 padding 6); [done|cbn [length]; lia].
    + rewrite text32_2, symbols32_2 by done. apply (in_last_spec 8 padding 4); [done|cbn [length]; lia].
    + rewrite text32_3, symbols32_3 by done. apply (in_last_spec 8 padding 3); [done|cbn [length]; lia].
    + rewrite text32_4, symbols32_4 by done. apply (in_last_spec 8 padding 1); [done|cbn [length]; lia].
  - destruct l1 as [|a [|b [|c [|d [|e [|? ?]]]]]]; try (simpl in Hl1; lia). cbn [app] in *.
    split_bytes. cbn [base32_encode_loop].
    rewrite Hchars by (repeat constructor; eauto). cbn [mbind option_bind].
    rewrite text32_quantum, symbols32_quantum by done. rewrite (length_app [_; _; _; _; _; _; _; _]).
    apply (in_quantum_spec 8); [lia|done|]. by apply IH.
Qed.

Lemma base32_quanta_short pos room padding l :
  bytes_ok l -> (length l < 5)%nat ->
  base32_quanta dec pos room (text32 padding l) = Some (inr (pos, room, [], text32 padding l)).
Proof.
  intros Hb Hl.
  destruct l as [|a [|b [|c [|d [|? ?]]]]]; [by destruct padding| | | | |simpl in Hl; lia]; split_bytes.
  - rewrite text32_1 by done. destruct padding; [|done].
    cbn [fmap list_fmap app padding_text replicate base32_quanta]. unfold fr_is_base32_nstd.
    erewrite (all_chars_pad 32 enc dec _ [_; _]); [done|reflexivity|symbols_in_range].
  - rewrite text32_2 by done. destruct padding; [|done].
    cbn [fmap list_fmap app padding_text replicate base32_quanta]. unfold fr_is_base32_nstd.
    erewrite (all_chars_pad 32 enc dec _ [_; _; _; _]); [done|reflexivity|symbols_in_range].
  - rewrite text32_3 by done. destruct padding; [|done].
    cbn [fmap list_fmap app padding_text replicate base32_quanta]. unfold fr_is_base32_nstd.
    erewrite (all_chars_pad 32 enc dec _ [_; _; _; _; _]); [done|reflexivity|symbols_in_range].
  - rewrite text32_4 by done. destruct padding; [|done].
    cbn [fmap list_fmap app padding_text replicate base32_quanta]. unfold fr_is_base32_nstd.
    erewrite (all_chars_pad 32 enc dec _ [_; _; _; _; _; _; _]); [done|reflexivity|symbols_in_range].
Qed.

(** The first loop decodes all complete quanta. *)
Lemma base32_quanta_spec padding : forall l pos room,
  bytes_ok l -> (length l <= room)%nat ->
  exists l1 l2 k, l = l1 ++ l2 /\ length l1 = (5 * k)%nat /\ (length l2 < 5)%nat /\
    length (text32 padding l) = (8 * k + length (text32 padding l2))%nat /\
    base32_quanta dec pos room (text32 padding l) =
      Some (inr ((pos + 8 * k)%nat, (room - length l1)%nat, l1, text32 padding l2)).
Proof.
  intros l. pattern l. apply (list_chunk_ind 5); clear l;
    [intros l Hl pos room Hb Hr|intros l1 l2 Hl1 IH pos room Hb Hr|lia].
  { exists [], l, 0%nat. split_and!; try done. rewrite base32_quanta_short by done.
    by rewrite Nat.mul_0_r, Nat.add_0_r, Nat.sub_0_r. }
  destruct l1 as [|a [|b [|c [|d [|e [|? ?]]]]]]; try (simpl in Hl1; lia).
  cbn [app length] in *. split_bytes.
  destruct (IH (pos + 8)%nat (room - 5)%nat) as (m1 & m2 & k & -> & Hm1 & Hm2 & Ht & E); [done|lia|].
  exists (a :: b :: c :: d :: e :: m1), m2, (S k). rewrite text32_quantum by done.
  split; [done|]. split; [cbn [length]; lia|]. split; [done|].
  split; [rewrite length_app, Ht; cbn [fmap list_fmap length]; lia|].
  cbn [fmap list_fmap app base32_quanta]. unfold fr_is_base32_nstd.
  erewrite (all_chars_ok 32 enc dec _ [_; _; _; _; _; _; _; _]); [|reflexivity|symbols_in_range].
  cbn [mbind option_bind].
  repeat match goal with |- context [dec !! Z.to_nat (char_of enc (Z.land ?x 0x1f))] =>
    destruct (is_char 32 enc dec _ (sym32_range x)) as [_ ->]; cbn [mbind option_bind] end.
  destruct (bytes_of_symbols32 a b c d e) as (-> & _ & -> & _ & -> & _ & -> & _ & ->); [done..|].
  unfold in_bytes. cbn [length]. rewrite decide_False by lia. rewrite E.
  cbn [mbind option_bind app length].
  replace (pos + 8 + 8 * k)%nat with (pos + 8 * S k)%nat by lia.
  by replace (room - 5 - length m1)%nat with (room - S (S (S (S (S (length m1))))))%nat by lia.
Qed.

Lemma base32_decode_text padding no_trailing l outlen :
  bytes_ok l -> (length l <= outlen)%nat ->
  fr_base32_decode_nstd dec outlen (text32 padding l) padding no_trailing =
    Some (Decoded l (length (text32 padding l))).
Proof.
  intros Hb Hr. unfold fr_base32_decode_nstd.
  destruct (base32_quanta_spec padding l 0 outlen Hb Hr)
    as (l1 & l2 & k & -> & Hl1 & Hl2 & Ht & ->). cbn [mbind option_bind]. rewrite Ht.
  apply Forall_app in Hb as [Hb1 Hb2]. rewrite length_app in Hr. unfold fr_is_base32_nstd.
  destruct l2 as [|a [|b [|c [|d [|? ?]]]]]; [| | | | |simpl in Hl2; lia].
  { rewrite app_nil_r in *. replace (text32 padding []) with (@nil Z) by (by destruct padding).
    cbn [span_chars mbind option_bind length mapM]. rewrite !Nat.add_0_r.
    change (mapM _ []) with (Some (@nil Z)). cbn [mbind option_bind]. by rewrite decode_tail_nil. }
  all: split_bytes.
  - rewrite text32_1 by done. destruct (bytes_of_symbols32 a 0 0 0 0) as (_ & E0 & _); [done..|].
    rewrite (span_chars_ok 32 enc dec) by (first [apply padding_text_head|symbols_in_range]).
    cbn [mbind option_bind]. rewrite (lookup_chars_ok 32 enc dec) by symbols_in_range.
    cbn [mbind option_bind]. rewrite E0. unfold in_bytes. cbn [length] in *.
    rewrite decide_False by lia. rewrite decode_tail_ok.
    rewrite length_app, length_fmap. cbn [length]. by rewrite Nat.add_assoc.
  - rewrite text32_2 by done. destruct (bytes_of_symbols32 a b 0 0 0) as (E0 & _ & _ & E1 & _); [done..|].
    rewrite (span_chars_ok 32 enc dec) by (first [apply padding_text_head|symbols_in_range]).
    cbn [mbind option_bind]. rewrite (lookup_chars_ok 32 enc dec) by symbols_in_range.
    cbn [mbind option_bind]. rewrite E0, E1. unfold in_bytes. cbn [length] in *.
    rewrite decide_False by lia. rewrite decode_tail_ok.
    rewrite length_app, length_fmap. cbn [length]. by rewrite Nat.add_assoc.
  - rewrite text32_3 by done.
    destruct (bytes_of_symbols32 a b c 0 0) as (E0 & _ & E1 & _ & _ & E2 & _); [done..|].
    rewrite (span_chars_ok 32 enc dec) by (first [apply padding_text_head|symbols_in_range]).
    cbn [mbind option_bind]. rewrite (lookup_chars_ok 32 enc dec) by symbols_in_range.
    cbn [mbind option_bind]. rewrite E0, E1, E2. unfold in_bytes. cbn [length] in *.
    rewrite decide_False by lia. rewrite decode_tail_ok.
    rewrite length_app, length_fmap. cbn [length]. by rewrite Nat.add_assoc.
  - rewrite text32_4 by done.
    destruct (bytes_of_symbols32 a b c d 0) as (E0 & _ & E1 & _ & E2 & _ & _ & E3 & _); [done..|].
    rewrite (span_chars_ok 32 enc dec) by (first [apply padding_text_head|symbols_in_range]).
    cbn [mbind option_bind]. rewrite (lookup_chars_ok 32 enc dec) by symbols_in_range.
    cbn [mbind option_bind]. rewrite E0, E1, E2, E3. unfold in_bytes. cbn [length] in *.
    rewrite decide_False by lia. rewrite decode_tail_ok.
    rewrite length_app, length_fmap. cbn [length]. by rewrite Nat.add_assoc.
Qed.
End Correct.

(** The pairs of tables in the source. *)
#[export] Instance base32_standard `{!RangeMacros} :
  AlphabetPair 32 fr_base32_alphabet_encode fr_base32_alphabet_decode.
Proof.
  apply (alphabet_pair_checked 32). unfold fr_base32_alphabet_decode. rewrite !F_spec. by vm_compute.
Qed.

#[export] Instance base32_hex `{!RangeMacros} :
  AlphabetPair 32 fr_base32_hex_alphabet_encode fr_base32_hex_alphabet_decode.
Proof.
  apply (alphabet_pair_checked 32). unfold fr_base32_hex_alphabet_decode. rewrite !F_spec. by vm_compute.
Qed.

(** ** Theorems *)



(** The tables have 255 entries: a byte 0xff in the text is looked up past their end. *)
Example base32_decode_overrun `{!RangeMacros} :
  fr_base32_decode_nstd fr_base32_alphabet_decode 5 [255] true true = None.
Proof. unfold fr_base32_alphabet_decode. rewrite !F_spec. by vm_compute. Qed.
